(* ===== verification/_CoqProject ===== *)
-Q . S2P
Prelude.v
Bytes.v
Storage.v
GoSlice.v
IterableMap.v
ImapProps.v
Rlp.v
RlpEncode.v
RlpDecode.v
RlpRoundtrip.v
RlpRaw.v
Crypto.v
Trie.v
TrieSpec.v
TrieEnc.v
TrieSim.v
TrieCommit.v
TrieProps.v
TrieForEach.v
TrieBinding.v
ChainConfig.v
Uint256.v
EvmWord.v
EvmBase.v
EvmMemory.v
EvmGas.v
EvmInstr.v
EvmTable.v
EvmRun.v
AccountMap.v
AccountMapProps.v
StateEvm.v
StateRevert.v
StateDb.v
StateDbProps.v
RocksDb.v
RocksDbProps.v
RocksDbPrune.v
TrieSink.v
TrieSinkProps.v
TrieExample.v
EvmFrame.v
EvmKeeps.v
StateKeeps.v
EvmTermination.v
EvmMain.v
EvmContracts.v
EvmExample.v
EvmFindings.v
DposStorage.v
Validators.v
Dpos.v
DposRewards.v
DposRun.v
EvmCall.v
DposTyped.v
DposInv.v
DposSafe.v
DposDistribute.v
DposCalls.v
DposHistory.v
DposExample.v
DposProps.v
DposOrder.v
DposViews.v
DposFindings.v
Slashing.v
SlashingProps.v
SlashingExample.v
StateTrack.v
BlockCommit.v
BlockExample.v
StateTransition.v
StateTransitionProps.v
StateBlock.v
StateDryRunner.v
StateExample.v
DposApi.v
DposApiProps.v
DposApiExample.v
