(* ===== verification/Prelude.v ===== *)
(** * A model of taraxa-evm in Rocq

    taraxa-evm is the execution layer of the Taraxa node: a virtual machine
    derived from go-ethereum, the journalled state it runs on, the Merkle
    Patricia tries and the versioned database under that state, and two
    contracts of the chain itself, for staking (DPOS) and slashing, that are
    precompiled into it.  [state_transition] executes a block: it runs each
    transaction through [EVM.Main], commits it from the journalled state into
    a sink of trie updates, distributes the rewards through the DPOS contract,
    cleans up the jail of the slashing contract, and asks the sink for the new
    state root, which goes to RocksDB with everything the tries have written.
    The development models the program bottom up; a definition has the name
    of the Go function it translates, and the mapping from definitions to
    source lines is kept in the manifest.

    ** Conventions

    Go's integers are [Z], with [u16], [u32], [u64] written wherever the code
    can wrap around; [math/big] integers are [Z]; byte slices are lists of
    bytes, except where sharing of memory matters (GoSlice, EvmMemory,
    [ret_slice]).  Code that has effects is written in the state monad [M] of
    this file, with three results: [Done], [Fail] for an error that is
    returned, [Panic] where Go panics.  In the files of the interpreter Go
    errors are values of [VmError], and [Fail] means that the fuel is
    exhausted.

    Code that is not in the repository is a class with the operations used
    and, where a theorem needs them, laws as documented: [Uint256] and
    [EvmWords] (holiman/uint256), [Crypto] with [CryptoLaws] (Keccak-256,
    secp256k1 recovery; the only law is the length of a hash), [Curves]
    (hashes and curves of the precompiled contracts), [RocksDB] with
    [RocksDBLaws] (get, put, delete, seek, iteration).  Each has a concrete
    instance, so that the examples and the witnesses can be evaluated.  Where
    a theorem needs that hashes do not collide it says for which strings
    ([no_collision] of a trie, [no_clash] of accounts and slots,
    [ListKeyFree] of the slashing contract), or concludes that two given
    tries have nodes that collide ([clash] in [root_binds_contents]).

    Components meet at interfaces: [VmState] between the interpreter and the
    state; [StateRel] for the relations on states that every operation
    respects; [DposKV] between the DPOS contract and its storage; [Output],
    as a trace of calls ([OutOp]), between the state and the trie sink;
    [SystemContracts] with [ContractLaws] between the state transition and
    the two contracts.

    ** Parts

    - Encodings.  Bytes: fixed-width and compact integers, addresses
      ([taraxa/util/bin], [common/types.go]).  Rlp, RlpDecode: [rlp/] with its
      writer, stream reader and typed codecs.  RlpEncode, RlpRoundtrip and
      RlpRaw show that the two-phase encoder computes the recursive encoding,
      that decoding inverts encoding for every type and value that can
      survive, and that [Split] accepts exactly the canonical encodings.
    - Contract storage ([taraxa/state/contracts/storage]).  Storage: cached
      byte storage.  GoSlice: slices and [append].  IterableMap: sets kept in
      storage; ImapProps: they refine finite sets, their pages, illegal use,
      and the aliasing of key prefixes in [Init].
    - The DPOS contract ([taraxa/state/contracts/dpos/precompiled]).
      ChainConfig, DposStorage (records and the interface [DposKV] they are
      stored through), Validators, Dpos (handlers), DposRewards (genesis,
      block rewards, end of block), DposRun (views, gas, dispatch), EvmCall
      (the EVM's call into it).  DposTyped gives the abstract state, DposInv
      the staking invariant, DposSafe shows by weakest preconditions that the
      handlers keep it, DposDistribute does so for the rewards, DposCalls for
      calls with their errors.  DposHistory defines the histories of the
      contract, from the empty contract or from genesis, by [CALL]s and
      [STATICCALL]s, rewards and ends of blocks; its header lists what the
      code can do and a history does not: calls in frames that revert later,
      [CALLCODE] and [DELEGATECALL], and the inputs [admissible_input] leaves
      out.  DposFindings shows for these what goes wrong.
      DposProps, DposOrder and DposViews state the results: solvency,
      counters, well-formed records, functional effect of each method, reward
      bounds, independence of map order, correctness of the views.
    - The DPOS and state APIs.  DposApi: configurations by block, their checks
      and their place in the database ([precompiled/api.go],
      [taraxa/state/api.go]); DposApiProps: a node that restarts has, for
      every block, the configuration the running node had.
    - The slashing contract.  Slashing: double voting proofs, the jail, its
      readers, gas and dispatch; SlashingProps: a jailed validator is free
      again after a bounded number of blocks, and no offence is punished
      twice.
    - The virtual machine ([core/vm]).  EvmWord, EvmBase (data, errors, the
      interface [VmState] to the state), EvmMemory (memory pool, stack),
      EvmGas, EvmInstr (every instruction), EvmTable (both instruction sets),
      EvmRun (the loop, calls, creations, [Main]), EvmContracts (precompiled
      contracts).  EvmFrame shows what every instruction leaves alone, for any
      relation that respects the operations of the state; EvmKeeps lifts such
      a relation to calls and whole transactions; EvmTermination shows that
      runs end.
    - The state under it ([taraxa/state/state_evm]).  StateEvm: accounts,
      journal, snapshots, commit.  AccountMap, AccountMapProps: the hash
      table its accounts lie in ([account_map.go]) refines the finite map that
      StateEvm uses.  StateRevert: every operation can be undone, except the
      raw writes of the contracts of the chain to their own storage, which the
      journal does not record ([same_body]).  StateKeeps: failed calls restore
      the state up to these, used code does not change, and a
      transaction is a script of journalled operations.  EvmMain: what a
      transaction pays, when it is refused, that it is never executed twice.
    - The tries ([taraxa/trie]).  Trie: key encodings, nodes, reading,
      insertion, deletion, commit with its caches.  TrieSpec: trees as
      values; TrieEnc: their encodings and hashes; TrieSim: a node represents
      a tree, partly in memory and partly in the database; TrieCommit,
      TrieProps: any sequence of updates and commits computes the tree of the
      finite map and its root; TrieForEach: iteration over the contents and
      over the nodes; TrieBinding: a root binds the contents.
    - The sink and the database.  StateDb, StateDbProps: columns, the two
      encodings of accounts, readers ([state_db]).  TrieSink, TrieSinkProps:
      the trace of a state is worked off into the tries ([trie_sink.go]).
      RocksDb, RocksDbProps, RocksDbPrune: versioned keys, batches,
      descriptor, reads of any block ([state_db_rocksdb]), and that [Prune]
      returns and keeps every value, main trie and storage trie that can be
      read from its block on, as long as every account value decodes.
    - Blocks ([state_transition]).  StateTrack: what the counters and lists
      of the state record of such a script; BlockCommit: the root of a block of
      scripts is that of the accounts the EVM sees.  StateTransition: the
      state transition itself, from [Init] to [Commit], and the hardforks.
      StateTransitionProps: the contracts are registered in every block.
      StateBlock: from the opening of a database to the root of a block.
      StateDryRunner: dry runs and traces ([state_dry_runner]), with runs of
      them that go wrong.
    - Examples.  The files whose names end in Example evaluate the models on
      concrete states and hold the witnesses; those that end in Findings
      evaluate runs in which the code does not do what it means to.

    ** Bounds and fuel

    [EvmRun.loop] spends one unit of fuel for each instruction and each
    nesting.  An instruction that does not end the run costs gas and a call
    gets no more than was paid for it, so more fuel than gas suffices
    ([runs_end], [main_gas_bounded]).  The loops of the DPOS contract over
    its iterable maps take the size of a page or of the map as fuel; the
    theorems on pages and rewards show that it is enough.  [RlpDecode] is
    structural on the type, with fuel for the bytes of a slice.  Keys of the
    tries have 64 nibbles and a terminator: decoding a node nests at most 80
    levels ([dec_fuel]) and an update at most 200 calls ([key_fuel]), which
    [trie_refines_map] shows to be enough; the iteration needs 132.  The list
    of jailed validators is encoded with 32-bit sizes, so the theorems of
    SlashingProps speak of fewer than 2^27 blocks with at most a proof each;
    the journal of a transaction has fewer than 2^32 entries in [tx_ok].
    Theorems on blocks assume [tx_ok] and, for whole blocks, [smooth]: that
    what the block runs returns, and that no account is created again over
    slots of the database ([stale_storage]).

    ** Not modelled, and why

    - RocksDB itself, a C++ library behind bindings: a parameter.  Its
      options, threads, iterator pools and snapshots are input and output.
    - Threads.  The sink runs the tasks of an account on a thread of its own
      and joins it before the results are used; the model runs them in the
      order of their submission.
    - The chaining of blocks by [block_commits_to_state]: it covers the first
      block a node runs on any database.  The later ones start from the cached
      tries the sink keeps, which [trie_refines_map] covers trie by trie; the
      block in which the Cornus hardfork replaces the code of a contract that
      has code is outside it, since that is not a journalled operation.
    - The proof that the modelled DPOS and slashing contracts satisfy
      [ContractLaws]: they are modelled over typed records and over a byte
      store of their own, not over the accounts of the EVM.
    - [accounts/abi]: reflection over Go types; calls to the contracts enter
      the model decoded, events leave it as constructors, and the reason of a
      revert is a parameter of the dry runner.
    - [crypto/], with its vendored curves and C library, and the BLS library:
      parameters.  The bytecodes compiled from Solidity are parameters too.
    - The tracers ([core/vm/*logger*.go]) and their JSON: they observe only.
    - The C bindings ([taraxa/C]) and the accessors of [taraxa/state/api.go]:
      conversions between representations.
    - That a saved configuration is decoded over a shallow copy of the
      current one, so that [InitialValidators] may share its array: decoded
      values are fresh. *)
From Stdlib Require Export ZArith Lia Bool.
From Stdlib Require Import Strings.Byte.
From stdpp Require Export base tactics option list gmap strings.
#[global] Open Scope Z_scope.

(** ** Machine words

    Go's fixed width unsigned integers are [Z] with the wrap-around written
    out at every operation that can overflow. *)

Definition u16 (x : Z) : Z := x mod 2 ^ 16.
Definition u32 (x : Z) : Z := x mod 2 ^ 32.
Definition u64 (x : Z) : Z := x mod 2 ^ 64.

Lemma u32_small x : 0 <= x < 2 ^ 32 -> u32 x = x.
Proof. apply Z.mod_small. Qed.

Lemma u64_small x : 0 <= x < 2 ^ 64 -> u64 x = x.
Proof. apply Z.mod_small. Qed.

Lemma u16_small x : 0 <= x < 2 ^ 16 -> u16 x = x.
Proof. apply Z.mod_small. Qed.

Lemma u32_range x : 0 <= u32 x < 2 ^ 32.
Proof. apply Z.mod_pos_bound. lia. Qed.

Lemma u64_range x : 0 <= u64 x < 2 ^ 64.
Proof. apply Z.mod_pos_bound. lia. Qed.

Lemma u16_range x : 0 <= u16 x < 2 ^ 16.
Proof. apply Z.mod_pos_bound. lia. Qed.

(** ** Outcomes and the state monad

    A Go call ends in one of three ways: it returns normally, it returns a
    non-nil [error] (the state it has already written stays written), or it
    panics.  Errors are the program's [util.ErrorString]s, hence strings. *)

Inductive outcome (St A : Type) : Type :=
| Done (a : A) (s : St)
| Fail (e : string) (s : St)
| Panic (msg : string).

Arguments Done {St A} a s.
Arguments Fail {St A} e s.
Arguments Panic {St A} msg.

Definition M (St A : Type) : Type := St -> outcome St A.

Definition bindM {St A B} (m : M St A) (f : A -> M St B) : M St B := fun s =>
  match m s with
  | Done a s' => f a s'
  | Fail e s' => Fail e s'
  | Panic msg => Panic msg
  end.

Declare Scope go_scope.
#[global] Open Scope go_scope.
Notation "x ← m ; k" := (bindM m (fun x => k))
  (at level 20, m at level 100, k at level 200, only parsing) : go_scope.
Notation "' p ← m ; k" := (bindM m (fun p => k))
  (at level 20, p pattern, m at level 100, k at level 200, only parsing) : go_scope.

Definition ret {St A} (a : A) : M St A := fun s => Done a s.
Definition throw {St A} (e : string) : M St A := fun s => Fail e s.
Definition panic {St A} (msg : string) : M St A := fun _ => Panic msg.
Definition get_st {St} : M St St := fun s => Done s s.
Definition modify_st {St} (f : St -> St) : M St () := fun s => Done tt (f s).
Definition when {St} (b : bool) (m : M St ()) : M St () := if b then m else ret tt.

(** A Go [for _, x := range xs] loop whose body may fail or panic. *)
Fixpoint for_each {St A} (f : A -> M St ()) (xs : list A) : M St () :=
  match xs with
  | [] => ret tt
  | x :: xs' => _ ← f x; for_each f xs'
  end.

(** The loop that appends one result per element. *)
Fixpoint map_each {St A B} (f : A -> M St B) (xs : list A) : M St (list B) :=
  match xs with
  | [] => ret []
  | x :: xs' => y ← f x; ys ← map_each f xs'; ret (y :: ys)
  end.

(** Go's [r, err := f()]: the error becomes a value; a panic stays one. *)
Definition attempt {St A} (m : M St A) : M St (string + A) := fun s =>
  match m s with
  | Done a s' => Done (inr a) s'
  | Fail e s' => Done (inl e) s'
  | Panic msg => Panic msg
  end.

(** ** Running a computation of a component inside a larger state *)
Class Lens (St K : Type) : Type := {
  lget : St -> K;
  lset : K -> St -> St;
}.

Definition zoom {St K A} `{Lens St K} (m : M K A) : M St A := fun s =>
  match m (lget s) with
  | Done a k => Done a (lset k s)
  | Fail e k => Fail e (lset k s)
  | Panic msg => Panic msg
  end.

Section monad_laws.
Context {St : Type}.

Lemma bind_ret_l {A B} (a : A) (f : A -> M St B) s : (x ← ret a; f x) s = f a s.
Proof. reflexivity. Qed.

Lemma bind_assoc {A B C} (m : M St A) (f : A -> M St B) (g : B -> M St C) s :
  (y ← (x ← m; f x); g y) s = (x ← m; y ← f x; g y) s.
Proof. unfold bindM. by destruct (m s). Qed.

Lemma bind_done {A B} (m : M St A) (f : A -> M St B) s a s' :
  m s = Done a s' -> (x ← m; f x) s = f a s'.
Proof. unfold bindM. by intros ->. Qed.

Lemma bind_fail {A B} (m : M St A) (f : A -> M St B) s e s' :
  m s = Fail e s' -> (x ← m; f x) s = Fail e s'.
Proof. unfold bindM. by intros ->. Qed.

Lemma bind_panic {A B} (m : M St A) (f : A -> M St B) s msg :
  m s = Panic msg -> (x ← m; f x) s = Panic msg.
Proof. unfold bindM. by intros ->. Qed.

Lemma bind_done_inv {A B} (m : M St A) (f : A -> M St B) s b s'' :
  (x ← m; f x) s = Done b s'' -> exists a s', m s = Done a s' /\ f a s' = Done b s''.
Proof. unfold bindM. destruct (m s); naive_solver. Qed.
End monad_laws.

(** ** Weakest preconditions

    [wp m Q E s]: from [s] the computation does not panic, a normal result
    satisfies [Q] and an error result satisfies [E]. *)
Definition wp {St A} (m : M St A) (Q : A -> St -> Prop) (E : string -> St -> Prop) (s : St) : Prop :=
  match m s with
  | Done a s' => Q a s'
  | Fail e s' => E e s'
  | Panic _ => False
  end.

Section wp.
Context {St : Type}.
Implicit Types s : St.

Lemma wp_ret {A} (a : A) (Q : A -> St -> Prop) E s : Q a s -> wp (ret a) Q E s.
Proof. done. Qed.

Lemma wp_throw {A} e (Q : A -> St -> Prop) (E : string -> St -> Prop) s :
  E e s -> wp (throw e) Q E s.
Proof. done. Qed.

Lemma wp_bind {A B} (m : M St A) (f : A -> M St B) Q E s :
  wp m (fun a s' => wp (f a) Q E s') E s -> wp (x ← m; f x) Q E s.
Proof. unfold wp, bindM. by destruct (m s). Qed.

Lemma wp_bind_done {A B} (m : M St A) (f : A -> M St B) Q E s a s' :
  m s = Done a s' -> wp (f a) Q E s' -> wp (x ← m; f x) Q E s.
Proof. unfold wp, bindM. by intros ->. Qed.

Lemma wp_assoc {A B C} (m : M St A) (f : A -> M St B) (g : B -> M St C) Q E s :
  wp (x ← m; y ← f x; g y) Q E s -> wp (y ← (x ← m; f x); g y) Q E s.
Proof. unfold wp. by rewrite bind_assoc. Qed.

Lemma wp_mono {A} (m : M St A) (Q Q' : A -> St -> Prop) (E E' : string -> St -> Prop) s :
  wp m Q E s -> (forall a s', Q a s' -> Q' a s') -> (forall e s', E e s' -> E' e s') ->
  wp m Q' E' s.
Proof. unfold wp. destruct (m s); naive_solver. Qed.

Lemma wp_done {A} (m : M St A) Q E s a s' : wp m Q E s -> m s = Done a s' -> Q a s'.
Proof. unfold wp. intros H Hm. by rewrite Hm in H. Qed.

Lemma wp_not_panic {A} (m : M St A) Q E s msg : wp m Q E s -> m s <> Panic msg.
Proof. unfold wp. by destruct (m s). Qed.

Lemma wp_for_each {A} (f : A -> M St ()) (xs : list A) (I : St -> Prop) (E : string -> St -> Prop) s :
  (forall x s', x ∈ xs -> I s' -> wp (f x) (fun _ => I) E s') -> I s ->
  wp (for_each f xs) (fun _ => I) E s.
Proof.
  revert s. induction xs as [|x xs IH]; intros s Hf HI; [done|].
  apply wp_bind. eapply wp_mono; [apply Hf; [left|done]| |done].
  intros [] s' HI'. apply IH; [|done]. intros y s'' Hy. apply Hf. by right.
Qed.
End wp.

(** Splits the innermost [match]/[if] of the goal or of a hypothesis. *)
Ltac split_match :=
  match goal with
  | |- context [match ?x with _ => _ end] => destruct x eqn:?
  end.

Ltac split_match_in H :=
  match type of H with
  | context [match ?x with _ => _ end] => destruct x eqn:?
  end.

(** Turns boolean tests on [Z] in the context into (in)equalities. *)
Ltac zbool :=
  repeat match goal with
  | H : (_ =? _) = true |- _ => apply Z.eqb_eq in H
  | H : (_ =? _) = false |- _ => apply Z.eqb_neq in H
  | H : (_ <? _) = true |- _ => apply Z.ltb_lt in H
  | H : (_ <? _) = false |- _ => apply Z.ltb_ge in H
  | H : (_ <=? _) = true |- _ => apply Z.leb_le in H
  | H : (_ <=? _) = false |- _ => apply Z.leb_gt in H
  | H : (_ && _) = true |- _ => apply andb_prop in H as [? ?]
  | H : (_ || _) = false |- _ => apply orb_false_elim in H as [? ?]
  | H : negb _ = true |- _ => apply negb_true_iff in H
  | H : negb _ = false |- _ => apply negb_false_iff in H
  | H : bool_decide _ = true |- _ => apply bool_decide_eq_true in H
  | H : bool_decide _ = false |- _ => apply bool_decide_eq_false in H
  end.

(** ** Sums over finite maps *)
Definition msum `{Countable K} {V} (f : K -> V -> Z) (m : gmap K V) : Z :=
  map_fold (fun k v acc => f k v + acc) 0 m.

Section msum.
Context `{Countable K} {V : Type}.
Implicit Types (f g : K -> V -> Z) (m : gmap K V).

Lemma msum_empty f : msum f ∅ = 0.
Proof. apply map_fold_empty. Qed.

Lemma msum_insert f m k v : m !! k = None -> msum f (<[k := v]> m) = f k v + msum f m.
Proof.
  intros Hk. unfold msum.
  rewrite (map_fold_insert_L (fun k v acc => f k v + acc) 0 k v m); [done| |done].
  intros; lia.
Qed.

Lemma msum_delete f m k : msum f m = from_option (f k) 0 (m !! k) + msum f (delete k m).
Proof.
  destruct (m !! k) as [v|] eqn:Hk; simpl.
  - rewrite <- (insert_delete_id m k v) at 1 by done.
    apply msum_insert. apply lookup_delete_eq.
  - by rewrite delete_id.
Qed.

Lemma msum_insert_gen f m k v :
  msum f (<[k := v]> m) = f k v + msum f m - from_option (f k) 0 (m !! k).
Proof.
  rewrite <- (insert_delete_eq m k v), msum_insert by apply lookup_delete_eq.
  rewrite (msum_delete f m k). lia.
Qed.

Lemma msum_delete_gen f m k :
  msum f (delete k m) = msum f m - from_option (f k) 0 (m !! k).
Proof. rewrite (msum_delete f m k). lia. Qed.

Lemma msum_ext f g m : (forall k v, m !! k = Some v -> f k v = g k v) -> msum f m = msum g m.
Proof.
  induction m as [|k v m Hk IH] using map_ind; intros Hfg; [done|].
  rewrite !msum_insert by done. rewrite (Hfg k v) by apply lookup_insert_eq.
  f_equal. apply IH. intros k' v' Hk'. apply Hfg.
  rewrite lookup_insert_ne; [done|]. congruence.
Qed.

Lemma msum_le f g m : (forall k v, m !! k = Some v -> f k v <= g k v) -> msum f m <= msum g m.
Proof.
  induction m as [|k v m Hk IH] using map_ind; intros Hfg; [done|].
  rewrite !msum_insert by done.
  assert (f k v <= g k v) by (apply Hfg, lookup_insert_eq).
  assert (msum f m <= msum g m); [|lia]. apply IH. intros k' v' Hk'. apply Hfg.
  rewrite lookup_insert_ne; [done|]. congruence.
Qed.

Lemma msum_zero m : msum (fun _ _ => 0) m = 0.
Proof.
  induction m as [|k v m Hk IH] using map_ind; [done|]. by rewrite msum_insert, IH.
Qed.

Lemma msum_nonneg f m : (forall k v, m !! k = Some v -> 0 <= f k v) -> 0 <= msum f m.
Proof. intros Hf. rewrite <- (msum_zero m). by apply msum_le. Qed.

Lemma msum_add f g m : msum (fun k v => f k v + g k v) m = msum f m + msum g m.
Proof.
  induction m as [|k v m Hk IH] using map_ind; [done|]. rewrite !msum_insert, IH by done. lia.
Qed.

Lemma msum_scale c f m : msum (fun k v => c * f k v) m = c * msum f m.
Proof.
  induction m as [|k v m Hk IH] using map_ind; [rewrite !msum_empty; lia|].
  rewrite !msum_insert, IH by done. lia.
Qed.

Lemma msum_lookup_le f m k v :
  (forall k v, m !! k = Some v -> 0 <= f k v) -> m !! k = Some v -> f k v <= msum f m.
Proof.
  intros Hf Hk. rewrite (msum_delete f m k), Hk. simpl.
  assert (0 <= msum f (delete k m)); [|lia]. apply msum_nonneg.
  intros k' v' [_ ?]%lookup_delete_Some. by apply Hf.
Qed.

Lemma msum_indicator (c : Z) m k :
  msum (fun k' _ => if decide (k' = k) then c else 0) m = match m !! k with Some _ => c | None => 0 end.
Proof.
  rewrite (msum_delete _ m k).
  rewrite (msum_ext _ (fun _ _ => 0) (delete k m)), msum_zero.
  - destruct (m !! k); simpl; [rewrite decide_True by done|]; lia.
  - intros k' v' [Hne _]%lookup_delete_Some. by rewrite decide_False.
Qed.

Lemma msum_opp f m : msum (fun k v => - f k v) m = - msum f m.
Proof. rewrite <- (Z.mul_1_l (msum f m)), <- Z.mul_opp_l, <- msum_scale. apply msum_ext. intros. lia. Qed.
End msum.

Lemma msum_swap `{Countable K} `{Countable K'} {V W} (g : K -> K' -> W -> Z) (m : gmap K V) (m' : gmap K' W) :
  msum (fun v _ => msum (fun k y => g v k y) m') m = msum (fun k y => msum (fun v _ => g v k y) m) m'.
Proof.
  induction m as [|v x m Hv IH] using map_ind.
  - rewrite msum_empty. rewrite (msum_ext _ (fun _ _ => 0)), msum_zero; [done|].
    intros. apply msum_empty.
  - rewrite msum_insert, IH, <- msum_add by done. apply msum_ext. intros k y _. by rewrite msum_insert.
Qed.

Lemma msum_fmap `{Countable K} {V W} (g : V -> W) (f : K -> W -> Z) (m : gmap K V) :
  msum f (g <$> m) = msum (fun k v => f k (g v)) m.
Proof.
  induction m as [|k v m Hk IH] using map_ind; [by rewrite fmap_empty, !msum_empty|].
  rewrite fmap_insert, !msum_insert, IH by (rewrite ?lookup_fmap, ?Hk; done). done.
Qed.
