(* ===== verification/Bytes.v ===== *)
(** * Byte strings, integer encodings and addresses

    The integer encodings of [taraxa/state/contracts/storage] (little endian,
    fixed width), of [taraxa/util/bin] (big endian, compact), of
    [math/big.Int.Bytes] (big endian, minimal), and [common.Address] with
    [BytesToAddress], with their round trips. *)
From Stdlib Require Import Strings.Byte Eqdep_dec.
From S2P Require Import Prelude.
Local Close Scope go_scope.

(** ** Bytes *)
Abbreviation bytes := (list Byte.byte).

Definition Z_of_byte (b : Byte.byte) : Z := Z.of_N (Byte.to_N b).

(** Go's conversion [byte(z)] keeps the low eight bits. *)
Definition byte_of_Z (z : Z) : Byte.byte :=
  default Byte.x00 (Byte.of_N (Z.to_N (z mod 256))).

#[global] Instance byte_eq_dec : EqDecision Byte.byte := Byte.byte_eq_dec.

#[global, program] Instance byte_countable : Countable Byte.byte :=
  {| encode b := encode (Byte.to_N b); decode p := decode p ≫= Byte.of_N |}.
Next Obligation. intros b. simpl. rewrite decode_encode. simpl. apply Byte.of_to_N. Qed.

Lemma Z_of_byte_range b : 0 <= Z_of_byte b < 256.
Proof. unfold Z_of_byte. pose proof (Byte.to_N_bounded b). lia. Qed.

Lemma Z_of_byte_of_Z z : Z_of_byte (byte_of_Z z) = z mod 256.
Proof.
  unfold Z_of_byte, byte_of_Z.
  assert (0 <= z mod 256 < 256) by (apply Z.mod_pos_bound; lia).
  destruct (Byte.of_N (Z.to_N (z mod 256))) as [b|] eqn:Hb; simpl.
  - apply Byte.to_of_N in Hb. rewrite Hb. lia.
  - apply Byte.of_N_None_iff in Hb. lia.
Qed.

Lemma byte_of_Z_of_byte b : byte_of_Z (Z_of_byte b) = b.
Proof.
  unfold byte_of_Z. rewrite Z.mod_small by apply Z_of_byte_range.
  unfold Z_of_byte. by rewrite N2Z.id, Byte.of_to_N.
Qed.

Lemma byte_of_Z_mod z : byte_of_Z (z mod 256) = byte_of_Z z.
Proof. unfold byte_of_Z. by rewrite Z.mod_mod by lia. Qed.

(** ** Little endian, fixed width: [storage/iterable_map.go], [ids_imap.go] *)
Definition uint_to_le (n : nat) (val : Z) : bytes :=
  (fun i => byte_of_Z (Z.land (Z.shiftr val (8 * Z.of_nat i)) 255)) <$> seq 0 n.

(** [None] where Go panics with an index out of range. *)
Definition le_to_uint (n : nat) (val : bytes) : option Z :=
  foldl (fun r i => r ← r; b ← val !! i; Some (Z.lor r (Z.shiftl (Z_of_byte b) (8 * Z.of_nat i))))
    (Some 0) (seq 0 n).

Definition uint32ToBytes : Z -> bytes := uint_to_le 4.
Definition bytesToUint32 : bytes -> option Z := le_to_uint 4.
Definition Uint64ToBytes : Z -> bytes := uint_to_le 8.
Definition BytesToUint64 : bytes -> option Z := le_to_uint 8.

Lemma length_uint_to_le n z : length (uint_to_le n z) = n.
Proof. unfold uint_to_le. by rewrite length_fmap, length_seq. Qed.

Lemma lor_shiftl_add a b k : 0 <= k -> 0 <= a < 2 ^ k -> Z.lor a (Z.shiftl b k) = a + b * 2 ^ k.
Proof.
  intros Hk Ha. rewrite <- (Z.add_lor_land a (b * 2 ^ k)), <- (Z.shiftl_mul_pow2 b k) by done.
  assert (Z.land a (Z.shiftl b k) = 0) as ->; [|lia].
  apply Z.bits_inj'. intros n Hn. rewrite Z.land_spec, Z.bits_0.
  destruct (Z.lt_ge_cases n k).
  - rewrite Z.shiftl_spec_low by done. apply andb_false_r.
  - rewrite <- (Z.mod_small a (2 ^ k)) by done.
    by rewrite Z.mod_pow2_bits_high by lia.
Qed.

Lemma land_255 z : Z.land z 255 = z mod 256.
Proof. change 255 with (Z.ones 8). by rewrite Z.land_ones. Qed.

Lemma le_to_uint_prefix n k z :
  (k <= n)%nat ->
  foldl (fun r i => r ← r; b ← uint_to_le n z !! i;
                    Some (Z.lor r (Z.shiftl (Z_of_byte b) (8 * Z.of_nat i))))
    (Some 0) (seq 0 k) = Some (z mod 2 ^ (8 * Z.of_nat k)).
Proof.
  induction k as [|k IH]; intros Hk; [simpl; by rewrite Z.mod_1_r|].
  rewrite seq_S, foldl_app, IH by lia. simpl.
  unfold uint_to_le. rewrite list_lookup_fmap, lookup_seq_lt by lia. simpl.
  rewrite Z_of_byte_of_Z, land_255, Z.mod_mod by lia. f_equal.
  assert (0 <= z mod 2 ^ (8 * Z.of_nat k) < 2 ^ (8 * Z.of_nat k)) by (apply Z.mod_pos_bound; lia).
  rewrite lor_shiftl_add by lia.
  rewrite Z.shiftr_div_pow2 by lia.
  replace (8 * Z.of_nat (S k)) with (8 * Z.of_nat k + 8) by lia.
  rewrite Z.pow_add_r by lia. change (2 ^ 8) with 256.
  rewrite Z.rem_mul_r by lia. lia.
Qed.

(** Reading back what was written recovers the value at its width. *)
Lemma le_roundtrip n z : le_to_uint n (uint_to_le n z) = Some (z mod 2 ^ (8 * Z.of_nat n)).
Proof. apply le_to_uint_prefix. lia. Qed.

Lemma bytesToUint32_uint32ToBytes z : bytesToUint32 (uint32ToBytes z) = Some (u32 z).
Proof. apply le_roundtrip. Qed.

Lemma BytesToUint64_Uint64ToBytes z : BytesToUint64 (Uint64ToBytes z) = Some (u64 z).
Proof. apply le_roundtrip. Qed.

Lemma uint_to_le_inj n a b :
  0 <= a < 2 ^ (8 * Z.of_nat n) -> 0 <= b < 2 ^ (8 * Z.of_nat n) ->
  uint_to_le n a = uint_to_le n b -> a = b.
Proof.
  intros Ha Hb Hab. apply (f_equal (le_to_uint n)) in Hab.
  rewrite !le_roundtrip, !Z.mod_small in Hab by done. congruence.
Qed.

(** ** Big endian: [taraxa/util/bin] *)
Definition uint_to_be (n : nat) (i : Z) : bytes :=
  (fun j => byte_of_Z (Z.shiftr i (8 * Z.of_nat (n - 1 - j)))) <$> seq 0 n.

Definition be_to_uint (b : bytes) : Z :=
  foldl (fun r x => Z.lor (Z.shiftl r 8) (Z_of_byte x)) 0 b.

Definition SizeInBytes (i : Z) : nat :=
  if i <? 2 ^ 8 then 1 else if i <? 2 ^ 16 then 2 else if i <? 2 ^ 24 then 3
  else if i <? 2 ^ 32 then 4 else if i <? 2 ^ 40 then 5 else if i <? 2 ^ 48 then 6
  else if i <? 2 ^ 56 then 7 else 8.

Definition ENC_b_endian_compact_64_1 (i : Z) : bytes :=
  if i <? 2 ^ 8 then uint_to_be 1 i else if i <? 2 ^ 16 then uint_to_be 2 i
  else if i <? 2 ^ 24 then uint_to_be 3 i else if i <? 2 ^ 32 then uint_to_be 4 i
  else if i <? 2 ^ 40 then uint_to_be 5 i else if i <? 2 ^ 48 then uint_to_be 6 i
  else if i <? 2 ^ 56 then uint_to_be 7 i else uint_to_be 8 i.

(** [None] where Go panics (more than eight bytes). *)
Definition DEC_b_endian_compact_64 (b : bytes) : option Z :=
  if decide (length b <= 8)%nat then Some (be_to_uint b) else None.

Lemma length_uint_to_be n z : length (uint_to_be n z) = n.
Proof. unfold uint_to_be. by rewrite length_fmap, length_seq. Qed.

Lemma be_to_uint_snoc b x : be_to_uint (b ++ [x]) = be_to_uint b * 256 + Z_of_byte x.
Proof.
  unfold be_to_uint. rewrite foldl_app. simpl. rewrite Z.lor_comm.
  pose proof (Z_of_byte_range x). rewrite lor_shiftl_add by lia. lia.
Qed.

Lemma uint_to_be_S n z : uint_to_be (S n) z = uint_to_be n (Z.shiftr z 8) ++ [byte_of_Z z].
Proof.
  unfold uint_to_be. rewrite seq_S, fmap_app. f_equal.
  - apply list_fmap_ext. intros i j [-> Hj]%lookup_seq.
    rewrite Z.shiftr_shiftr by lia. do 2 f_equal. lia.
  - simpl. replace (n - 0 - n)%nat with 0%nat by lia. by rewrite Z.shiftr_0_r.
Qed.

Lemma be_roundtrip n z : be_to_uint (uint_to_be n z) = z mod 2 ^ (8 * Z.of_nat n).
Proof.
  revert z. induction n as [|n IH]; intros z; [simpl; by rewrite Z.mod_1_r|].
  rewrite uint_to_be_S, be_to_uint_snoc, IH, Z_of_byte_of_Z, Z.shiftr_div_pow2 by lia.
  replace (8 * Z.of_nat (S n)) with (8 + 8 * Z.of_nat n) by lia.
  rewrite Z.pow_add_r, Z.rem_mul_r by lia. change (2 ^ 8) with 256. lia.
Qed.

Lemma ENC_b_endian_compact_64_1_size i :
  ENC_b_endian_compact_64_1 i = uint_to_be (SizeInBytes i) i.
Proof. unfold ENC_b_endian_compact_64_1, SizeInBytes. by repeat case_match. Qed.

Lemma SizeInBytes_bound i : 0 <= i < 2 ^ 64 -> i < 2 ^ (8 * Z.of_nat (SizeInBytes i)).
Proof. intros. unfold SizeInBytes. repeat case_match; zbool; simpl; lia. Qed.

Lemma SizeInBytes_range i : (1 <= SizeInBytes i <= 8)%nat.
Proof. unfold SizeInBytes. repeat case_match; lia. Qed.

(** The compact encoding of a [uint64] decodes to itself. *)
Lemma compact_64_roundtrip i :
  0 <= i < 2 ^ 64 -> DEC_b_endian_compact_64 (ENC_b_endian_compact_64_1 i) = Some i.
Proof.
  intros Hi. rewrite ENC_b_endian_compact_64_1_size. unfold DEC_b_endian_compact_64.
  rewrite length_uint_to_be, decide_True by apply SizeInBytes_range.
  rewrite be_roundtrip, Z.mod_small; [done|]. pose proof (SizeInBytes_bound i). lia.
Qed.

(** ** [big.Int.Bytes]: big endian without leading zeros *)
Definition big_len (z : Z) : nat := if z =? 0 then 0 else Z.to_nat (Z.log2 (Z.abs z) / 8 + 1).
Definition big_Bytes (z : Z) : bytes := uint_to_be (big_len z) (Z.abs z).
Definition big_SetBytes (b : bytes) : Z := be_to_uint b.

Lemma big_roundtrip z : 0 <= z -> big_SetBytes (big_Bytes z) = z.
Proof.
  intros Hz. unfold big_SetBytes, big_Bytes. rewrite be_roundtrip, Z.abs_eq by done.
  apply Z.mod_small. split; [done|]. unfold big_len.
  destruct (Z.eqb_spec z 0) as [->|]; [simpl; lia|].
  pose proof (Z.log2_nonneg (Z.abs z)).
  assert (0 <= Z.log2 (Z.abs z) / 8) by (apply Z.div_pos; lia).
  rewrite Z2Nat.id, Z.abs_eq in * by lia.
  apply Z.log2_lt_cancel. rewrite Z.log2_pow2 by lia.
  pose proof (Z.mul_succ_div_gt (Z.log2 z) 8). lia.
Qed.

Lemma big_Bytes_inj a b : 0 <= a -> 0 <= b -> big_Bytes a = big_Bytes b -> a = b.
Proof.
  intros Ha Hb Hab. apply (f_equal big_SetBytes) in Hab. by rewrite !big_roundtrip in Hab.
Qed.

Lemma length_big_Bytes v n : 0 <= v < 2 ^ (8 * n) -> 0 <= n -> Z.of_nat (length (big_Bytes v)) <= n.
Proof.
  intros Hv Hn. unfold big_Bytes, big_len. rewrite length_uint_to_be. destruct (Z.eqb_spec v 0); [simpl; lia|].
  rewrite Z.abs_eq by lia. assert (Z.log2 v < 8 * n) by (apply Z.log2_lt_pow2; lia).
  pose proof (Z.log2_nonneg v). pose proof (Z.div_lt_upper_bound (Z.log2 v) 8 n ltac:(lia) ltac:(lia)). lia.
Qed.

(** ** Addresses: [common.Address], twenty bytes *)
Record Address := mkAddress {
  addr_bytes : bytes;
  addr_len : Nat.eqb (length addr_bytes) 20 = true;
}.

Lemma Address_eq a b : addr_bytes a = addr_bytes b -> a = b.
Proof.
  destruct a as [a Ha], b as [b Hb]. simpl. intros ->. f_equal.
  apply UIP_dec, Bool.bool_dec.
Qed.

#[global] Instance Address_eq_dec : EqDecision Address.
Proof.
  intros a b. destruct (decide (addr_bytes a = addr_bytes b)) as [H|H].
  - left. by apply Address_eq.
  - right. by intros ->.
Defined.

Lemma addr_length a : length (addr_bytes a) = 20%nat.
Proof. apply Nat.eqb_eq, addr_len. Qed.

(** [SetBytes]: a longer string is cropped from the left, a shorter one is
    padded with zeros on the left. *)
Definition pad_left (n : nat) (b : bytes) : bytes :=
  if decide (n < length b)%nat then drop (length b - n) b
  else replicate (n - length b) Byte.x00 ++ b.

Lemma length_pad_left n b : length (pad_left n b) = n.
Proof.
  unfold pad_left. case_decide.
  - rewrite length_drop. lia.
  - rewrite length_app, length_replicate. lia.
Qed.

Lemma pad_left_ok b : Nat.eqb (length (pad_left 20 b)) 20 = true.
Proof. by rewrite length_pad_left. Qed.

Definition BytesToAddress (b : bytes) : Address :=
  match Bool.bool_dec (Nat.eqb (length (pad_left 20 b)) 20) true with
  | left H => mkAddress (pad_left 20 b) H
  | right H => False_rect Address (H (pad_left_ok b))
  end.

Definition ZeroAddress : Address := BytesToAddress [].

Lemma addr_bytes_BytesToAddress b : addr_bytes (BytesToAddress b) = pad_left 20 b.
Proof. unfold BytesToAddress. destruct (Bool.bool_dec _ _) as [|n]; [done|]. destruct (n (pad_left_ok b)). Qed.

(** An address read back from its own bytes is unchanged. *)
Lemma BytesToAddress_bytes a : BytesToAddress (addr_bytes a) = a.
Proof.
  apply Address_eq. rewrite addr_bytes_BytesToAddress. unfold pad_left.
  rewrite addr_length, decide_False, Nat.sub_diag by lia. done.
Qed.

#[global, program] Instance Address_countable : Countable Address :=
  {| encode a := encode (addr_bytes a); decode p := BytesToAddress <$> decode p |}.
Next Obligation. intros a. simpl. rewrite decode_encode. simpl. by rewrite BytesToAddress_bytes. Qed.

(** [new(Address).SetBytes] of a small number, for concrete runs. *)
Definition addr_of_Z (z : Z) : Address := BytesToAddress (uint_to_be 20 z).
