(* ===== verification/Storage.v ===== *)
(** * Contract storage: [taraxa/state/contracts/storage/storage.go]

    The contracts write byte strings under hashed keys.  [ByteStore] is the
    interface the storage offers to its clients ([IterableMap] and the
    contract code), [ByteStoreLaws] what it promises: a logical content
    [sview] in which an empty value means absent.  [StorageWrapper] is the
    program's implementation, a read/write cache over the account storage,
    and the instance at the end proves that the cache is coherent. *)
From S2P Require Import Prelude Bytes.

(** ** The interface *)
Class ByteStore (St K : Type) : Type := {
  Get : K -> M St (option bytes);
  Put : K -> bytes -> M St ();
}.

(** A write of the empty string (or of [nil]) deletes. *)
Definition nonempty (v : bytes) : option bytes := match v with [] => None | _ => Some v end.

Class ByteStoreLaws (St K : Type) `{ByteStore St K} : Type := {
  swf : St -> Prop;
  sview : St -> K -> option bytes;
  Get_spec k s :
    swf s -> wp (Get k) (fun o s' => o = sview s k /\ swf s' /\ forall k', sview s' k' = sview s k')
                (fun _ _ => False) s;
  Put_spec k v s :
    swf s -> wp (Put k v) (fun _ s' => swf s' /\ sview s' k = nonempty v
                                       /\ forall k', k' <> k -> sview s' k' = sview s k')
                (fun _ _ => False) s;
}.

(** ** [StorageReaderWrapper] and [StorageWrapper]

    [db] is what the backend's [GetAccountStorage] reads (the state
    committed before the block: the account's pending raw writes are not
    consulted), [dirty] the writes passed on to the backend's [Put]. *)
Record StorageWrapper (K : Type) `{Countable K} := mkStorageWrapper {
  sw_cache : gmap K bytes;
  sw_db : gmap K bytes;
  sw_dirty : gmap K bytes;
}.

Arguments mkStorageWrapper {K _ _} _ _ _.
Arguments sw_cache {K _ _} _.
Arguments sw_db {K _ _} _.
Arguments sw_dirty {K _ _} _.

Section wrapper.
Context {K : Type} `{Countable K}.
Abbreviation SW := (StorageWrapper K).

Definition SW_Get (k : K) : M SW (option bytes) := fun s =>
  match sw_cache s !! k with
  | Some val => Done (nonempty val) s
  | None =>
      match sw_db s !! k with
      | Some b => Done (Some b) (mkStorageWrapper (<[k := b]> (sw_cache s)) (sw_db s) (sw_dirty s))
      | None => Done None s
      end
  end.

Definition SW_Put (k : K) (v : bytes) : M SW () := fun s =>
  Done tt (mkStorageWrapper (<[k := v]> (sw_cache s)) (sw_db s) (<[k := v]> (sw_dirty s))).

Definition ClearCache : M SW () :=
  modify_st (fun s => mkStorageWrapper ∅ (sw_db s) (sw_dirty s)).

(** What the block commit does to the account's raw storage: an empty value
    is a deletion ([TrieSinkAccountMutation.Update] in [trie_sink.go]). *)
Definition flush_raw (db dirty : gmap K bytes) : gmap K bytes :=
  merge (fun old new => match new with Some v => nonempty v | None => old end) db dirty.

(** [CommitCall]: the pending writes have reached the database, then the
    cache is dropped. *)
Definition commit : M SW () := fun s =>
  Done tt (mkStorageWrapper ∅ (flush_raw (sw_db s) (sw_dirty s)) ∅).

#[export] Instance SW_ByteStore : ByteStore SW K := {| Get := SW_Get; Put := SW_Put |}.

Definition sw_view (s : SW) (k : K) : option bytes :=
  match sw_cache s !! k with Some v => nonempty v | None => sw_db s !! k end.

(** The database holds no empty value, the cache holds every pending write,
    and a cached value that is not a pending write is the database's. *)
Record sw_ok (s : SW) : Prop := {
  ok_db k v : sw_db s !! k = Some v -> v <> [];
  ok_dirty k v : sw_dirty s !! k = Some v -> sw_cache s !! k = Some v;
  ok_clean k v : sw_dirty s !! k = None -> sw_cache s !! k = Some v -> sw_db s !! k = Some v;
}.

Lemma nonempty_id v : v <> [] -> nonempty v = Some v.
Proof. by destruct v. Qed.

#[export, program] Instance SW_ByteStoreLaws : ByteStoreLaws SW K :=
  {| swf := sw_ok; sview := sw_view |}.
Next Obligation.
  intros k s [Hdb Hdirty Hclean]. unfold wp, Get, SW_ByteStore, SW_Get, sw_view.
  destruct (sw_cache s !! k) as [v|] eqn:Hc; [done|].
  destruct (sw_db s !! k) as [b|] eqn:Hd; [|done].
  split_and!; [done| |]; simpl.
  - split; simpl; [done| |].
    + intros k' v' Hk'. rewrite lookup_insert_ne; [by apply Hdirty|].
      intros <-. apply Hdirty in Hk'. congruence.
    + intros k' v' Hk'. destruct (decide (k = k')) as [<-|].
      * rewrite lookup_insert_eq. congruence.
      * rewrite lookup_insert_ne by done. by apply Hclean.
  - intros k'. destruct (decide (k = k')) as [<-|].
    + rewrite lookup_insert_eq, Hc. rewrite Hd. apply nonempty_id. by eapply Hdb.
    + by rewrite lookup_insert_ne.
Qed.
Next Obligation.
  intros k v s [Hdb Hdirty Hclean]. unfold wp, Put, SW_ByteStore, SW_Put, sw_view. simpl.
  split_and!.
  - split; simpl; [done| |]; intros k' v'; destruct (decide (k = k')) as [<-|];
      rewrite ?lookup_insert_eq, ?lookup_insert_ne by done; naive_solver.
  - by rewrite lookup_insert_eq.
  - intros k' Hk'. by rewrite lookup_insert_ne.
Qed.

Lemma flush_raw_lookup (db dirty : gmap K bytes) k :
  flush_raw db dirty !! k = match dirty !! k with Some v => nonempty v | None => db !! k end.
Proof. unfold flush_raw. rewrite lookup_merge. unfold diag_None. by destruct (db !! k), (dirty !! k). Qed.

(** Committing a block leaves the logical content unchanged: what the
    contract read through the cache is what the next block reads. *)
Lemma commit_coherent s :
  sw_ok s ->
  wp commit (fun _ s' => sw_ok s' /\ forall k, sw_view s' k = sw_view s k) (fun _ _ => False) s.
Proof.
  intros [Hdb Hdirty Hclean]. unfold wp, commit. split.
  - split; simpl; [|done|done]. intros k v. rewrite flush_raw_lookup.
    destruct (sw_dirty s !! k) as [w|] eqn:Hw; [|apply Hdb].
    by destruct w; intros [= <-].
  - intros k. unfold sw_view. simpl. rewrite flush_raw_lookup.
    destruct (sw_dirty s !! k) as [w|] eqn:Hw.
    + by rewrite (Hdirty _ _ Hw).
    + destruct (sw_cache s !! k) as [w|] eqn:Hc; [|done].
      pose proof (Hclean _ _ Hw Hc) as Hd. rewrite Hd. symmetry. apply nonempty_id. by eapply Hdb.
Qed.
End wrapper.
