(* ===== verification/GoSlice.v ===== *)
(** * Go slices and [append]

    A slice is a view of a backing array; [append] writes into the array
    when it has spare capacity and otherwise moves to a fresh array whose
    capacity is chosen by the runtime ([grow]).  The storage package builds
    its key prefixes with [append], two of them from the same slice, so the
    sharing is part of the model. *)
From S2P Require Import Prelude Bytes.

Record slice := mkSlice { sl_array : nat; sl_len : nat }.

(** The heap: one list of [cap] bytes per backing array. *)
Abbreviation heap := (list bytes).

Definition slice_array (h : heap) (s : slice) : bytes := default [] (h !! sl_array s).
Definition slice_cap (h : heap) (s : slice) : nat := length (slice_array h s).
Definition slice_bytes (h : heap) (s : slice) : bytes := take (sl_len s) (slice_array h s).

(** A fresh slice with contents [b] and [spare] unused bytes of capacity. *)
Definition new_slice (b : bytes) (spare : nat) : M heap slice := fun h =>
  Done (mkSlice (length h) (length b)) (h ++ [b ++ replicate spare Byte.x00]).

Section append.
(** The runtime's [growslice]: the capacity for [newLen] bytes coming from
    an array of [oldCap]. *)
Context (grow : nat -> nat -> nat).

Definition go_append (s : slice) (data : bytes) : M heap slice := fun h =>
  let arr := slice_array h s in
  let newLen := (sl_len s + length data)%nat in
  if decide (newLen <= length arr)%nat then
    Done (mkSlice (sl_array s) newLen)
      (<[sl_array s := take (sl_len s) arr ++ data ++ drop newLen arr]> h)
  else
    Done (mkSlice (length h) newLen)
      (h ++ [take (sl_len s) arr ++ data ++ replicate (grow (length arr) newLen - newLen) Byte.x00]).

Definition slice_ok (h : heap) (s : slice) : Prop :=
  (sl_array s < length h)%nat /\ (sl_len s <= slice_cap h s)%nat.

Lemma length_slice_bytes h s : slice_ok h s -> length (slice_bytes h s) = sl_len s.
Proof. intros [_ ?]. unfold slice_bytes, slice_cap in *. rewrite length_take. lia. Qed.

(** Whatever the capacity, the appended slice reads as the concatenation,
    and slices of other arrays are unaffected. *)
Lemma go_append_spec s data h :
  slice_ok h s ->
  wp (go_append s data) (fun s' h' =>
    slice_ok h' s' /\ slice_bytes h' s' = slice_bytes h s ++ data
    /\ slice_ok h' s /\ slice_bytes h' s = slice_bytes h s
    /\ (forall t, slice_ok h t -> sl_array t <> sl_array s ->
          slice_ok h' t /\ slice_bytes h' t = slice_bytes h t
          /\ slice_cap h' t = slice_cap h t /\ sl_array t <> sl_array s')
    /\ slice_cap h' s = slice_cap h s
    /\ (if decide (sl_len s + length data <= slice_cap h s)%nat
        then sl_array s' = sl_array s else sl_array s' <> sl_array s))
    (fun _ _ => False) h.
Proof.
  intros [Harr Hlen]. unfold slice_cap in *. unfold wp, go_append.
  destruct (lookup_lt_is_Some_2 h (sl_array s) Harr) as [arr Ha].
  assert (slice_array h s = arr) as Hs by (unfold slice_array; by rewrite Ha).
  unfold slice_ok, slice_bytes, slice_cap. rewrite Hs in *.
  case_decide as Hd.
  - assert (slice_array (<[sl_array s:=take (sl_len s) arr ++ data
        ++ drop (sl_len s + length data) arr]> h) s
      = take (sl_len s) arr ++ data ++ drop (sl_len s + length data) arr) as Hs'.
    { unfold slice_array. by rewrite list_lookup_insert_eq. }
    unfold slice_array in Hs' |- *. simpl. rewrite Hs', !length_insert, !length_app, length_take, length_drop.
    split_and!; try lia; try done.
    + rewrite app_assoc, take_app_length'; [done|]. rewrite length_app, length_take. lia.
    + rewrite take_app_length'; [done|]. rewrite length_take. lia.
    + intros t [Ht1 Ht2] Hne. rewrite list_lookup_insert_ne by done. done.
  - simpl. unfold slice_array in *. simpl.
    rewrite list_lookup_middle by done. simpl. rewrite !length_app, length_take, length_replicate. simpl.
    rewrite lookup_app_l, Ha by done. simpl.
    split_and!; try lia; try done.
    + rewrite app_assoc, take_app_length'; [done|]. rewrite length_app, length_take. lia.
    + intros t [Ht1 Ht2] Hne. rewrite lookup_app_l by done. split_and!; try done; lia.
Qed.
End append.

(** The runtime's choice for byte arrays below 256 bytes: double, or the
    requested length if that is more, rounded up to an allocation size
    class. *)
Definition roundupsize (n : nat) : nat :=
  default n (head (filter (fun c => n <= c)%nat
    [8; 16; 24; 32; 48; 64; 80; 96; 112; 128; 144; 160; 176; 192; 208; 224; 240; 256]%nat)).

Definition go_grow (oldCap newLen : nat) : nat :=
  roundupsize (if decide (2 * oldCap < newLen)%nat then newLen else 2 * oldCap)%nat.
