(* ===== verification/IterableMap.v ===== *)
(** * Iterable maps: [taraxa/state/contracts/storage/iterable_map.go]

    A set of byte strings kept in contract storage as an array of items
    (positions from 1), a count, and a map from items to positions.  The
    definitions follow the source; the theorems show that they implement a
    list without duplicates: [CreateItem] appends, [RemoveItem] moves the
    last item into the gap, [GetItems] returns a window.  [Init] builds the
    key prefixes with [append] and is modelled over [GoSlice]. *)
From S2P Require Import Prelude Bytes Storage GoSlice.

Definition field_items : bytes := [Byte.x00].
Definition field_items_count : bytes := [Byte.x01].
Definition field_items_pos : bytes := [Byte.x02].

(** ** The keys of one map *)

(** What a map's operations need of its three key fields: the key of the
    item array at an encoded position, the key of the count, the key of an
    item's position. *)
Record imap (K : Type) := mkImap {
  im_items : bytes -> K;
  im_count : K;
  im_pos : bytes -> K;
}.

Arguments mkImap {K} _ _ _.
Arguments im_items {K} _ _.
Arguments im_count {K} _.
Arguments im_pos {K} _ _.

Section init.
Context {Hash : Type} (keccak256 : bytes -> Hash) (grow : nat -> nat -> nat).

(** [Stor_k_1] and [Stor_k_2]: the hash of the concatenated parts. *)
Definition Stor_k_1 (parts : list bytes) : Hash := keccak256 (concat parts).

(** The struct as [Init] fills it: two prefixes that are slices, one key
    that is already hashed. *)
Record IterableMapReader := mkReader {
  items_storage_prefix : slice;
  items_count_storage_key : Hash;
  items_pos_storage_prefix : slice;
}.

Definition IterableMapReader_Init (prefix : slice) : M heap IterableMapReader :=
  items ← go_append grow prefix field_items;
  h ← get_st;
  let count := Stor_k_1 [slice_bytes h prefix; field_items_count] in
  pos ← go_append grow prefix field_items_pos;
  ret (mkReader items count pos).

(** The keys the operations compute from the struct in a given heap. *)
Definition reader_keys (h : heap) (r : IterableMapReader) : imap Hash :=
  mkImap (fun pos => Stor_k_1 [slice_bytes h (items_storage_prefix r); pos])
         (items_count_storage_key r)
         (fun item => Stor_k_1 [slice_bytes h (items_pos_storage_prefix r); item]).
End init.

(** ** The operations *)
Section ops.
Context {St K : Type} `{ByteStore St K} (im : imap K).

Definition u32_of_bytes (o : option bytes) : M St Z :=
  match o with
  | None => ret 0
  | Some b => match bytesToUint32 b with
              | Some z => ret z
              | None => panic "index out of range"
              end
  end.

Definition GetCount : M St Z :=
  o ← Get (im_count im); u32_of_bytes o.

Definition itemExists (item : bytes) : M St (bool * Z) :=
  o ← Get (im_pos im item);
  item_pos ← u32_of_bytes o;
  ret (negb (item_pos =? 0), item_pos).

Definition ItemExists (item : bytes) : M St bool :=
  p ← itemExists item; ret (fst p).

(** The loop of [GetItems]: [fuel] bounds the number of iterations. *)
Fixpoint GetItems_loop (fuel : nat) (start_idx end_idx items_count idx : Z) (result : list bytes)
  : M St (list bytes) :=
  if (idx <=? end_idx) && (idx <=? items_count) then
    match fuel with
    | O => panic "out of fuel"
    | S fuel' =>
        o ← Get (im_items im (uint32ToBytes idx));
        let item := default [] o in
        if decide (length item = 0%nat) then panic "Unable to find item"
        else
          let i := Z.to_nat (u32 (idx - start_idx - 1)) in
          if decide (i < length result)%nat then
            GetItems_loop fuel' start_idx end_idx items_count (u32 (idx + 1)) (<[i := item]> result)
          else panic "index out of range"
    end
  else ret result.

Definition GetItems (start_idx count : Z) : M St (list bytes * bool) :=
  items_count ← GetCount;
  if items_count =? 0 then ret ([], true)
  else
    let end_idx := u32 (start_idx + count) in
    if items_count <=? start_idx then ret ([], true)
    else
      let '(n, e) := if items_count <=? end_idx then (items_count - start_idx, true)
                     else (count, false) in
      result ← GetItems_loop (Z.to_nat (items_count - start_idx)) start_idx end_idx items_count
                 (u32 (start_idx + 1)) (replicate (Z.to_nat n) []);
      ret (result, e).

Definition CreateItem (item : bytes) : M St Z :=
  p ← itemExists item;
  if fst p : bool then panic "Item already exists"
  else
    items_count ← GetCount;
    let new_item_pos := u32 (items_count + 1) in
    _ ← Put (im_items im (uint32ToBytes new_item_pos)) item;
    _ ← Put (im_pos im item) (uint32ToBytes new_item_pos);
    _ ← Put (im_count im) (uint32ToBytes new_item_pos);
    ret new_item_pos.

Definition RemoveItem (item : bytes) : M St Z :=
  items_count ← GetCount;
  if items_count =? 0 then panic "Unable to delete item. No items in iterable map"
  else
    p ← itemExists item;
    let '(item_exists, delete_item_pos) := p : bool * Z in
    if negb item_exists then panic "Item does not exist"
    else
      let delete_item_at_pos_k := im_items im (uint32ToBytes delete_item_pos) in
      let delete_item_pos_k := im_pos im item in
      if delete_item_pos =? items_count then
        _ ← Put delete_item_at_pos_k [];
        _ ← Put delete_item_pos_k [];
        _ ← Put (im_count im) (uint32ToBytes (u32 (items_count - 1)));
        ret (u32 (items_count - 1))
      else
        let last_item_at_pos_k := im_items im (uint32ToBytes items_count) in
        o ← Get last_item_at_pos_k;
        let last_item := default [] o in
        if decide (length last_item = 0%nat) then panic "Unable to delete item. item not found"
        else
          let last_item_pos_k := im_pos im last_item in
          _ ← Put last_item_pos_k (uint32ToBytes delete_item_pos);
          _ ← Put delete_item_at_pos_k last_item;
          _ ← Put delete_item_pos_k [];
          _ ← Put last_item_at_pos_k [];
          _ ← Put (im_count im) (uint32ToBytes (u32 (items_count - 1)));
          ret (u32 (items_count - 1)).
End ops.

(** ** What the storage keys must satisfy *)
Record imap_keys_ok {K} (im : imap K) (valid : bytes -> Prop) : Prop := {
  ok_nonempty x : valid x -> x <> [];
  ok_items_inj p q :
    length p = 4%nat -> length q = 4%nat -> im_items im p = im_items im q -> p = q;
  ok_pos_inj x y : valid x -> valid y -> im_pos im x = im_pos im y -> x = y;
  ok_items_pos p x : length p = 4%nat -> valid x -> im_items im p <> im_pos im x;
  ok_count_items p : length p = 4%nat -> im_count im <> im_items im p;
  ok_count_pos x : valid x -> im_count im <> im_pos im x;
}.

(** The keys the map owns; every operation leaves all others alone. *)
Definition imap_owns {K} (im : imap K) (valid : bytes -> Prop) (k : K) : Prop :=
  k = im_count im \/ (exists p, length p = 4%nat /\ k = im_items im p)
  \/ (exists x, valid x /\ k = im_pos im x).

(** The list after [RemoveItem] of position [i]: the last item fills the
    gap. *)
Definition swap_remove (i : nat) (l : list bytes) : list bytes :=
  let l' := take (length l - 1) l in
  match l !! (length l - 1)%nat with
  | Some y => <[i := y]> l'
  | None => l'
  end.

Section swap_remove.
Implicit Types l : list bytes.

Lemma length_swap_remove i l : length (swap_remove i l) = (length l - 1)%nat.
Proof. unfold swap_remove. case_match; rewrite ?length_insert, length_take; lia. Qed.

Lemma swap_remove_snoc l y i :
  (i < length l)%nat -> swap_remove i (l ++ [y]) = <[i := y]> l.
Proof.
  intros Hi. unfold swap_remove. rewrite length_app. simpl.
  replace (length l + 1 - 1)%nat with (length l) by lia.
  by rewrite take_app_length, list_lookup_middle.
Qed.

Lemma swap_remove_last l y : swap_remove (length l) (l ++ [y]) = l.
Proof.
  unfold swap_remove. rewrite length_app. simpl.
  replace (length l + 1 - 1)%nat with (length l) by lia.
  rewrite take_app_length, list_lookup_middle by done. by apply list_insert_ge.
Qed.

(** Exactly the removed item is gone. *)
Lemma swap_remove_Permutation i x l : l !! i = Some x -> x :: swap_remove i l ≡ₚ l.
Proof.
  intros Hi. destruct l as [|y l _] using rev_ind; [done|].
  destruct (decide (i = length l)) as [->|Hne].
  - rewrite list_lookup_middle in Hi by done. simplify_eq.
    rewrite swap_remove_last. apply Permutation_cons_append.
  - pose proof (lookup_lt_Some _ _ _ Hi) as Hlt. rewrite length_app in Hlt. simpl in Hlt.
    rewrite swap_remove_snoc by lia. rewrite lookup_app_l in Hi by lia.
    rewrite insert_take_drop by lia.
    rewrite <- (take_drop_middle l i x) at 3 by done. solve_Permutation.
Qed.
End swap_remove.

(** ** Representation of a list in storage *)
Section rep.
Context {K : Type} `{EqDecision K} (im : imap K) (valid : bytes -> Prop).
Implicit Types (v w : K -> option bytes) (l : list bytes).

Definition stored_u32 (o : option bytes) : option Z :=
  match o with None => Some 0 | Some b => bytesToUint32 b end.

Record imap_rep v l : Prop := {
  rep_count : stored_u32 (v (im_count im)) = Some (Z.of_nat (length l));
  rep_items i x : l !! i = Some x -> v (im_items im (uint32ToBytes (Z.of_nat i + 1))) = Some x;
  rep_pos i x : l !! i = Some x -> stored_u32 (v (im_pos im x)) = Some (Z.of_nat i + 1);
  rep_absent x : valid x -> x ∉ l -> stored_u32 (v (im_pos im x)) = Some 0;
  rep_valid x : x ∈ l -> valid x;
  rep_nodup : NoDup l;
  rep_bound : Z.of_nat (length l) < 2 ^ 32;
}.

Definition vupd v (k : K) (o : option bytes) (k' : K) : option bytes :=
  if decide (k' = k) then o else v k'.

Lemma vupd_eq v k o : vupd v k o k = o.
Proof. unfold vupd. by rewrite decide_True. Qed.

Lemma vupd_ne v k o k' : k' <> k -> vupd v k o k' = v k'.
Proof. intros. unfold vupd. by rewrite decide_False. Qed.

Lemma imap_rep_ext v w l : (forall k, w k = v k) -> imap_rep v l -> imap_rep w l.
Proof.
  intros Hvw [????? Hd Hb]. split; intros; rewrite ?Hvw; eauto.
Qed.

Lemma uint32_bytes_inj a b :
  0 <= a < 2 ^ 32 -> 0 <= b < 2 ^ 32 -> uint32ToBytes a = uint32ToBytes b -> a = b.
Proof. exact (uint_to_le_inj 4 a b). Qed.

Lemma stored_u32_enc z : 0 <= z < 2 ^ 32 -> stored_u32 (nonempty (uint32ToBytes z)) = Some z.
Proof.
  intros Hz. rewrite nonempty_id.
  - simpl. by rewrite bytesToUint32_uint32ToBytes, u32_small.
  - intros E. apply (f_equal length) in E. unfold uint32ToBytes in E.
    by rewrite length_uint_to_le in E.
Qed.

Context (Hok : imap_keys_ok im valid).

(** Distinctness of the keys the operations touch. *)
Lemma items_ne a b :
  0 <= a < 2 ^ 32 -> 0 <= b < 2 ^ 32 -> a <> b ->
  im_items im (uint32ToBytes a) <> im_items im (uint32ToBytes b).
Proof.
  intros Ha Hb Hab E. apply Hab, uint32_bytes_inj; [done..|].
  by apply (ok_items_inj _ _ Hok); [apply length_uint_to_le..|].
Qed.

Lemma pos_ne x y : valid x -> valid y -> x <> y -> im_pos im x <> im_pos im y.
Proof. intros ?? Hxy E. by apply Hxy, (ok_pos_inj _ _ Hok). Qed.

Lemma items_pos_ne a x : valid x -> im_items im (uint32ToBytes a) <> im_pos im x.
Proof. intros. apply (ok_items_pos _ _ Hok); [apply length_uint_to_le|done]. Qed.

Lemma pos_items_ne a x : valid x -> im_pos im x <> im_items im (uint32ToBytes a).
Proof. intros ? E. symmetry in E. by apply items_pos_ne in E. Qed.

Lemma count_items_ne a : im_count im <> im_items im (uint32ToBytes a).
Proof. apply (ok_count_items _ _ Hok), length_uint_to_le. Qed.

Lemma items_count_ne a : im_items im (uint32ToBytes a) <> im_count im.
Proof. intros E. symmetry in E. by apply count_items_ne in E. Qed.

Lemma count_pos_ne x : valid x -> im_count im <> im_pos im x.
Proof. apply (ok_count_pos _ _ Hok). Qed.

Lemma pos_count_ne x : valid x -> im_pos im x <> im_count im.
Proof. intros ? E. symmetry in E. by apply count_pos_ne in E. Qed.
End rep.

Create HintDb imap discriminated.
#[export] Hint Resolve items_pos_ne pos_items_ne count_items_ne items_count_ne count_pos_ne
  pos_count_ne pos_ne items_ne : imap.

(** Resolves a read of an updated view. *)
Ltac vsimpl := repeat first [rewrite vupd_eq | rewrite vupd_ne by eauto with imap].

(** ** Pure effect of the writes on the represented list *)
Section rep_updates.
Context {K : Type} `{EqDecision K} (im : imap K) (valid : bytes -> Prop).
Context (Hok : imap_keys_ok im valid).
Implicit Types (v : K -> option bytes) (l : list bytes).

Definition view_create v (n : Z) (x : bytes) : K -> option bytes :=
  vupd (vupd (vupd v (im_items im (uint32ToBytes n)) (nonempty x))
          (im_pos im x) (nonempty (uint32ToBytes n)))
    (im_count im) (nonempty (uint32ToBytes n)).

Lemma rep_create v l x :
  imap_rep im valid v l -> valid x -> x ∉ l -> Z.of_nat (length l) + 1 < 2 ^ 32 ->
  imap_rep im valid (view_create v (Z.of_nat (length l) + 1) x) (l ++ [x]).
Proof.
  intros [Hc Hi Hp Ha Hv Hd Hb] Hx Hnot Hlen. unfold view_create.
  assert (forall i y, (l ++ [x]) !! i = Some y ->
            (l !! i = Some y /\ y <> x /\ (i < length l)%nat) \/ (i = length l /\ y = x)) as Hsnoc.
  { intros i y [Hl|[Hge Hl]]%lookup_app_Some.
    - left. split_and!; [done| |by eapply lookup_lt_Some].
      intros ->. by apply Hnot, list_elem_of_lookup; eauto.
    - right. apply list_lookup_singleton_Some in Hl as [? ->]. split; [lia|done]. }
  split.
  - vsimpl. rewrite stored_u32_enc by lia. rewrite length_app. simpl. f_equal. lia.
  - intros i y [(Hl & Hne & Hlt)|[-> ->]]%Hsnoc.
    + rewrite vupd_ne, vupd_ne by eauto with imap.
      rewrite vupd_ne; [by apply Hi|]. eapply items_ne; [done|lia..].
    + vsimpl. apply nonempty_id. by eapply ok_nonempty.
  - intros i y [(Hl & Hne & Hlt)|[-> ->]]%Hsnoc.
    + assert (valid y) by (apply Hv, list_elem_of_lookup; eauto). vsimpl. by apply Hp.
    + vsimpl. apply stored_u32_enc. lia.
  - intros y Hy [Hyl Hyx%not_elem_of_cons]%not_elem_of_app.
    destruct Hyx as [Hyx _]. vsimpl. by apply Ha.
  - intros y [?| ->%list_elem_of_singleton]%elem_of_app; [by apply Hv|done].
  - apply NoDup_app. split_and!; [done| |apply NoDup_singleton].
    intros y Hy ->%list_elem_of_singleton. done.
  - rewrite length_app. simpl. lia.
Qed.

Definition view_remove_last v (n : Z) (x : bytes) : K -> option bytes :=
  vupd (vupd (vupd v (im_items im (uint32ToBytes n)) (nonempty []))
          (im_pos im x) (nonempty []))
    (im_count im) (nonempty (uint32ToBytes (u32 (n - 1)))).

Lemma rep_remove_last v l x :
  imap_rep im valid v (l ++ [x]) ->
  imap_rep im valid (view_remove_last v (Z.of_nat (length (l ++ [x]))) x) l.
Proof.
  intros [Hc Hi Hp Ha Hv Hd Hb]. unfold view_remove_last.
  assert (valid x) as Hx by (apply Hv, elem_of_app; right; by apply list_elem_of_singleton).
  apply NoDup_app in Hd as (Hd & Hxl & _).
  assert (forall y, y ∈ l -> valid y /\ y <> x) as Hl.
  { intros y Hy. split; [apply Hv, elem_of_app; by left|]. intros ->.
    by apply (Hxl x), list_elem_of_singleton. }
  rewrite length_app in *. simpl in *.
  assert (u32 (Z.of_nat (length l + 1) - 1) = Z.of_nat (length l)) as ->.
  { rewrite u32_small by lia. lia. }
  split.
  - vsimpl. apply stored_u32_enc. lia.
  - intros i y Hy. pose proof (lookup_lt_Some _ _ _ Hy).
    rewrite vupd_ne, vupd_ne by eauto with imap.
    rewrite vupd_ne by (eapply items_ne; [done|lia..]).
    apply Hi. by apply lookup_app_l_Some.
  - intros i y Hy. destruct (Hl y) as [??]; [by eapply list_elem_of_lookup_2|].
    vsimpl. apply Hp. by apply lookup_app_l_Some.
  - intros y Hy Hyl. destruct (decide (y = x)) as [->|].
    + by vsimpl.
    + vsimpl. apply Ha; [done|]. rewrite elem_of_app, list_elem_of_singleton. tauto.
  - intros y Hy. by apply Hl.
  - done.
  - lia.
Qed.

Definition view_remove_mid v (n pos : Z) (x y : bytes) : K -> option bytes :=
  vupd (vupd (vupd (vupd (vupd v
    (im_pos im y) (nonempty (uint32ToBytes pos)))
    (im_items im (uint32ToBytes pos)) (nonempty y))
    (im_pos im x) (nonempty []))
    (im_items im (uint32ToBytes n)) (nonempty []))
    (im_count im) (nonempty (uint32ToBytes (u32 (n - 1)))).

Lemma rep_remove_mid v l i x y :
  imap_rep im valid v (l ++ [y]) -> l !! i = Some x ->
  imap_rep im valid
    (view_remove_mid v (Z.of_nat (length (l ++ [y]))) (Z.of_nat i + 1) x y) (<[i := y]> l).
Proof.
  intros [Hc Hi Hp Ha Hv Hd Hb] Hix. unfold view_remove_mid.
  pose proof (lookup_lt_Some _ _ _ Hix) as Hilt.
  assert (valid y) as Hy by (apply Hv, elem_of_app; right; by apply list_elem_of_singleton).
  assert (valid x) as Hx by (apply Hv, elem_of_app; left; by eapply list_elem_of_lookup_2).
  apply NoDup_app in Hd as (Hd & Hyl & _).
  assert (y ∉ l) as Hyl' by (intros Hin; by apply (Hyl y), list_elem_of_singleton).
  assert (x <> y) as Hxy by (intros ->; by apply Hyl', list_elem_of_lookup_2 with i).
  assert (forall j z, <[i:=y]> l !! j = Some z ->
    (j = i /\ z = y) \/ (l !! j = Some z /\ j <> i /\ z <> x /\ z <> y /\ valid z)) as Hins.
  { intros j z Hz. destruct (decide (j = i)) as [->|Hji].
    - rewrite list_lookup_insert_eq in Hz by done. left. by simplify_eq.
    - rewrite list_lookup_insert_ne in Hz by done. right. split_and!; [done..| | |].
      + intros ->. eapply Hji, NoDup_lookup; eauto.
      + intros ->. by eapply Hyl', list_elem_of_lookup_2.
      + apply Hv, elem_of_app. left. by eapply list_elem_of_lookup_2. }
  rewrite length_app in *. simpl in *.
  assert (u32 (Z.of_nat (length l + 1) - 1) = Z.of_nat (length l)) as ->.
  { rewrite u32_small by lia. lia. }
  split.
  - vsimpl. rewrite length_insert. apply stored_u32_enc. lia.
  - intros j z Hz. pose proof (lookup_lt_Some _ _ _ Hz) as Hj. rewrite length_insert in Hj.
    rewrite vupd_ne by eauto with imap.
    rewrite vupd_ne by (eapply items_ne; [done|lia..]). rewrite vupd_ne by eauto with imap.
    destruct (Hins _ _ Hz) as [[-> ->]|(Hz' & ? & _)].
    + vsimpl. apply nonempty_id. by eapply ok_nonempty.
    + rewrite vupd_ne by (eapply items_ne; [done|lia..]). rewrite vupd_ne by eauto with imap.
      apply Hi. by apply lookup_app_l_Some.
  - intros j z Hz. destruct (Hins _ _ Hz) as [[-> ->]|(Hz' & ? & ? & ? & ?)].
    + vsimpl. apply stored_u32_enc. lia.
    + vsimpl. apply Hp. by apply lookup_app_l_Some.
  - intros z Hz Hnot. destruct (decide (z = x)) as [->|]; [by vsimpl|].
    assert (z <> y) by (intros ->; apply Hnot, list_elem_of_lookup; exists i;
      by apply list_lookup_insert_eq).
    vsimpl. apply Ha; [done|]. rewrite elem_of_app, list_elem_of_singleton. intros [Hin|?]; [|done].
    apply list_elem_of_lookup in Hin as [j Hj]. apply Hnot, list_elem_of_lookup. exists j.
    rewrite list_lookup_insert_ne; [done|]. intros ->. congruence.
  - intros z [j Hj]%list_elem_of_lookup. by destruct (Hins _ _ Hj) as [[_ ->]|(? & ? & ? & ? & ?)].
  - apply NoDup_alt. intros j1 j2 z H1 H2.
    destruct (Hins _ _ H1) as [[-> ->]|(H1' & ? & ? & ? & ?)],
      (Hins _ _ H2) as [[-> ?]|(H2' & ? & ? & ? & ?)]; try done.
    by eapply NoDup_lookup.
  - rewrite length_insert. lia.
Qed.

(** Nothing outside the map's own keys is written. *)
Lemma view_create_frame v n x k : valid x -> ~ imap_owns im valid k -> view_create v n x k = v k.
Proof.
  intros Hx Hk. unfold view_create. unfold imap_owns in Hk.
  rewrite !vupd_ne; [done|..]; intros ->; apply Hk; eauto using length_uint_to_le.
Qed.
End rep_updates.

(** ** The operations implement the list *)
Section spec.
Context {St K : Type} `{EqDecision K} `{ByteStoreLaws St K} (im : imap K) (valid : bytes -> Prop).
Context (Hok : imap_keys_ok im valid).
Implicit Types (l : list bytes) (s : St).

(** [s] is a well-formed storage in which the map holds the list [l]. *)
Definition holds s l : Prop := swf s /\ imap_rep im valid (sview s) l.

(** The storage after an operation: the map holds [l'] and every foreign key
    reads as before. *)
Definition moves s l' s' : Prop :=
  holds s' l' /\ forall k, ~ imap_owns im valid k -> sview s' k = sview s k.

Lemma wp_Get {A} (f : option bytes -> M St A) Q E k s :
  swf s ->
  (forall s', swf s' -> (forall k', sview s' k' = sview s k') -> wp (f (sview s k)) Q E s') ->
  wp (o ← Get k; f o) Q E s.
Proof.
  intros Hs Hf. apply wp_bind. eapply wp_mono; [by apply Get_spec| |done].
  intros o s' (-> & Hs' & Hv). by apply Hf.
Qed.

Lemma wp_Put {A} (f : unit -> M St A) Q E k b s :
  swf s ->
  (forall s', swf s' -> (forall k', sview s' k' = vupd (sview s) k (nonempty b) k') -> wp (f tt) Q E s') ->
  wp (x ← Put k b; f x) Q E s.
Proof.
  intros Hs Hf. apply wp_bind. eapply wp_mono; [by apply Put_spec| |done].
  intros [] s' (Hs' & Hk & Hv). apply Hf; [done|]. intros k'. unfold vupd.
  case_decide as Hd; [by rewrite Hd|by apply Hv].
Qed.

Lemma holds_ext s s' l : holds s l -> swf s' -> (forall k, sview s' k = sview s k) -> moves s l s'.
Proof. intros [Hs Hr] Hs' Hv. split; [split|]; [done|by eapply imap_rep_ext|auto]. Qed.

Lemma wp_u32_of_bytes {A} (f : Z -> M St A) Q E o z s :
  stored_u32 o = Some z -> wp (f z) Q E s -> wp (x ← u32_of_bytes o; f x) Q E s.
Proof. destruct o as [b|]; simpl; [|naive_solver]. intros Hb. by rewrite Hb. Qed.

Lemma GetCount_spec s l :
  holds s l -> wp (GetCount im) (fun c s' => c = Z.of_nat (length l) /\ moves s l s') (fun _ _ => False) s.
Proof.
  intros Hs. apply wp_Get; [apply Hs|]. intros s' Hs' Hv.
  pose proof (rep_count _ _ _ _ (proj2 Hs)) as Hc.
  unfold wp. destruct (sview s (im_count im)) as [b|]; simpl in *.
  - rewrite Hc. simpl. split; [done|by apply holds_ext].
  - injection Hc as <-. split; [done|by apply holds_ext].
Qed.

Lemma wp_GetCount {A} (f : Z -> M St A) Q E s l :
  holds s l -> (forall s', moves s l s' -> wp (f (Z.of_nat (length l))) Q E s') ->
  wp (c ← GetCount im; f c) Q E s.
Proof.
  intros Hs Hf. apply wp_bind. eapply wp_mono; [by apply GetCount_spec| |done].
  intros c s' [-> Hm]. by apply Hf.
Qed.

(** The position of an item: its index from 1, or 0 when it is absent. *)
Definition position (l : list bytes) (x : bytes) : Z :=
  match list_find (x =.) l with Some (i, _) => Z.of_nat i + 1 | None => 0 end.

Lemma position_elem l x : 0 < position l x <-> x ∈ l.
Proof.
  unfold position. destruct (list_find (x =.) l) as [[i y]|] eqn:Hf.
  - apply list_find_Some in Hf as (Hi & -> & _). split; [|lia]. intros _. by eapply list_elem_of_lookup_2.
  - apply list_find_None in Hf. split; [lia|]. intros Hx. rewrite Forall_forall in Hf. by destruct (Hf _ Hx).
Qed.

Lemma position_lookup l x i : NoDup l -> l !! i = Some x -> position l x = Z.of_nat i + 1.
Proof.
  intros Hd Hi. unfold position. destruct (list_find (x =.) l) as [[j y]|] eqn:Hf.
  - apply list_find_Some in Hf as (Hj & -> & _). f_equal. f_equal. by eapply NoDup_lookup.
  - apply list_find_None in Hf. rewrite Forall_forall in Hf.
    by destruct (Hf x (list_elem_of_lookup_2 _ _ _ Hi)).
Qed.

Lemma stored_position s l x :
  holds s l -> valid x -> stored_u32 (sview s (im_pos im x)) = Some (position l x).
Proof.
  intros [Hs Hr] Hx. destruct (decide (x ∈ l)) as [[i Hi]%list_elem_of_lookup|Hnot].
  - rewrite (position_lookup _ _ i); [|by apply Hr|done]. by apply Hr.
  - assert (position l x = 0) as ->; [|by apply Hr].
    unfold position. destruct (list_find (x =.) l) as [[j y]|] eqn:Hf; [|done].
    apply list_find_Some in Hf as (Hj & -> & _). exfalso. by eapply Hnot, list_elem_of_lookup_2.
Qed.

Lemma wp_itemExists {A} (f : bool * Z -> M St A) Q E s l x :
  holds s l -> valid x ->
  (forall s', moves s l s' -> wp (f (bool_decide (x ∈ l), position l x)) Q E s') ->
  wp (p ← itemExists im x; f p) Q E s.
Proof.
  intros Hs Hx Hf. apply wp_bind. unfold itemExists. apply wp_Get; [apply Hs|]. intros s' Hs' Hv.
  eapply wp_u32_of_bytes; [by apply stored_position|]. apply wp_ret.
  replace (negb (position l x =? 0)) with (bool_decide (x ∈ l)); [by apply Hf, holds_ext|].
  pose proof (position_elem l x).
  assert (0 <= position l x) by (unfold position; case_match; [case_match|]; lia).
  case_bool_decide; symmetry; [apply negb_true_iff, Z.eqb_neq|apply negb_false_iff, Z.eqb_eq].
  - assert (0 < position l x) by tauto. lia.
  - destruct (Z.eq_dec (position l x) 0); [done|]. assert (0 < position l x) by lia. tauto.
Qed.

Lemma moves_trans s l s' l' s'' : moves s l s' -> moves s' l' s'' -> moves s l' s''.
Proof. intros [_ H1] [? H2]. split; [done|]. intros k Hk. by rewrite H2, H1. Qed.

Lemma moves_holds s l s' : moves s l s' -> holds s' l.
Proof. by intros [? _]. Qed.

Lemma moves_refl s l : holds s l -> moves s l s.
Proof. done. Qed.
End spec.

Section theorems.
Context {St K : Type} `{EqDecision K} `{ByteStoreLaws St K} (im : imap K) (valid : bytes -> Prop).
Context (Hok : imap_keys_ok im valid).
Implicit Types (l : list bytes) (s : St).
Abbreviation holds := (holds im valid).
Abbreviation moves := (moves im valid).

Lemma valid_length x : valid x -> length x <> 0%nat.
Proof. intros Hx Hl. by apply (ok_nonempty _ _ Hok x Hx), nil_length_inv. Qed.

Lemma ItemExists_spec s l x :
  holds s l -> valid x ->
  wp (ItemExists im x) (fun b s' => b = bool_decide (x ∈ l) /\ moves s l s') (fun _ _ => False) s.
Proof. intros Hs Hx. unfold ItemExists. eapply wp_itemExists; [done..|]. intros s' Hm. by apply wp_ret. Qed.

Ltac puts := repeat (apply wp_Put; [done|]; intros ?s ? ?Hv).

Lemma CreateItem_spec s l x :
  holds s l -> valid x -> x ∉ l -> Z.of_nat (length l) + 1 < 2 ^ 32 ->
  wp (CreateItem im x) (fun n s' => n = Z.of_nat (length l) + 1 /\ moves s (l ++ [x]) s')
    (fun _ _ => False) s.
Proof.
  intros Hs Hx Hnot Hlen. unfold CreateItem.
  eapply wp_itemExists; [done..|]. intros s1 H1. rewrite bool_decide_false by done. simpl.
  eapply wp_GetCount; [by eapply moves_holds|]. intros s2 H2.
  pose proof (moves_trans _ _ _ _ _ _ _ H1 H2) as [[Hs2 Hr2] Hf2].
  rewrite u32_small by lia. puts. apply wp_ret. split; [done|].
  assert (forall k, sview s4 k = view_create im (sview s2) (Z.of_nat (length l) + 1) x k) as Hv'.
  { intros k. unfold view_create. rewrite Hv1. unfold vupd. case_decide; [done|].
    rewrite Hv0. unfold vupd. case_decide; [done|]. by rewrite Hv. }
  split; [split; [done|]|].
  - eapply imap_rep_ext; [done|]. by apply rep_create.
  - intros k Hk. rewrite Hv', <- Hf2 by done. by eapply view_create_frame.
Qed.

(** Creating an item twice panics, whatever else the map holds. *)
Lemma CreateItem_existing s l x :
  holds s l -> x ∈ l -> CreateItem im x s = Panic "Item already exists".
Proof.
  intros Hs Hx. pose proof (rep_valid _ _ _ _ (proj2 Hs) _ Hx) as Hvx.
  assert (wp (itemExists im x) (fun p _ => fst p = true) (fun _ _ => False) s) as Hw.
  { pose proof (wp_itemExists im valid (fun p : bool * Z => ret p)
      (fun p _ => fst p = true) (fun _ _ => False) s l x Hs Hvx) as Hw.
    unfold wp, bindM, ret in Hw. unfold wp. destruct (itemExists im x s); apply Hw;
    intros; simpl; by apply bool_decide_true. }
  unfold CreateItem, bindM. unfold wp in Hw.
  destruct (itemExists im x s) as [[b p] s'| |]; [|done..]. simpl in *. by subst b.
Qed.

Lemma RemoveItem_spec s l x i :
  holds s l -> l !! i = Some x ->
  wp (RemoveItem im x) (fun n s' => n = Z.of_nat (length l) - 1 /\ moves s (swap_remove i l) s')
    (fun _ _ => False) s.
Proof.
  intros Hs Hi. pose proof (lookup_lt_Some _ _ _ Hi) as Hilt.
  pose proof (rep_valid _ _ _ _ (proj2 Hs) _ (list_elem_of_lookup_2 _ _ _ Hi)) as Hvx.
  pose proof (rep_bound _ _ _ _ (proj2 Hs)) as Hb.
  unfold RemoveItem. eapply wp_GetCount; [done|]. intros s1 H1.
  destruct (Z.eqb_spec (Z.of_nat (length l)) 0); [lia|].
  eapply wp_itemExists; [by eapply moves_holds|done|]. intros s2 H2.
  pose proof (moves_trans _ _ _ _ _ _ _ H1 H2) as [[Hs2 Hr2] Hf2].
  rewrite bool_decide_true by (by eapply list_elem_of_lookup_2). simpl.
  rewrite (position_lookup _ _ i); [|apply Hr2|done].
  destruct l as [|y l _] using rev_ind; [done|].
  destruct (Z.eqb_spec (Z.of_nat i + 1) (Z.of_nat (length (l ++ [y])))) as [He|Hne].
  - assert (i = length l) as -> by (rewrite length_app in He; simpl in He; lia).
    rewrite list_lookup_middle in Hi by done. simplify_eq. rewrite swap_remove_last.
    puts. apply wp_ret. split; [rewrite u32_small; lia|].
    assert (forall k, sview s4 k = view_remove_last im (sview s2) (Z.of_nat (length (l ++ [x]))) x k) as Hv'.
    { intros k. unfold view_remove_last. rewrite Hv1. unfold vupd. case_decide; [done|].
      rewrite Hv0. unfold vupd. case_decide; [done|]. rewrite Hv, He. done. }
    split; [split; [done|]|].
    + eapply imap_rep_ext; [done|]. by apply rep_remove_last.
    + intros k Hk. rewrite Hv', <- Hf2 by done. unfold view_remove_last, imap_owns in *.
      rewrite !vupd_ne; [done|..]; intros ->; apply Hk; eauto using length_uint_to_le.
  - assert (i < length l)%nat as Hil by (rewrite length_app in *; simpl in *; lia).
    rewrite lookup_app_l in Hi by done. rewrite swap_remove_snoc by done.
    apply wp_Get; [done|]. intros s3 Hs3 Hv3.
    assert (valid y) as Hvy by (apply Hr2, elem_of_app; right; by apply list_elem_of_singleton).
    assert (sview s2 (im_items im (uint32ToBytes (Z.of_nat (length (l ++ [y]))))) = Some y) as ->.
    { replace (Z.of_nat (length (l ++ [y]))) with (Z.of_nat (length l) + 1)
        by (rewrite length_app; simpl; lia).
      apply Hr2. by apply list_lookup_middle. }
    simpl. rewrite decide_False by (by apply valid_length).
    puts. apply wp_ret. split; [rewrite u32_small; lia|].
    assert (forall k, sview s7 k =
      view_remove_mid im (sview s2) (Z.of_nat (length (l ++ [y]))) (Z.of_nat i + 1) x y k) as Hv'.
    { intros k. unfold view_remove_mid. rewrite Hv4. unfold vupd. case_decide; [done|].
      rewrite Hv2. unfold vupd. case_decide; [done|]. rewrite Hv1. unfold vupd. case_decide; [done|].
      rewrite Hv0. unfold vupd. case_decide; [done|]. rewrite Hv. unfold vupd. case_decide; [done|].
      by rewrite Hv3. }
    split; [split; [done|]|].
    + eapply imap_rep_ext; [done|]. by apply rep_remove_mid.
    + intros k Hk. rewrite Hv', <- Hf2 by done. unfold view_remove_mid, imap_owns in *.
      rewrite !vupd_ne; [done|..]; intros ->; apply Hk; eauto 10 using length_uint_to_le.
Qed.

(** ** Reading a window *)
Lemma GetItems_loop_spec s l start fuel n result k :
  holds s l -> (start + n <= length l)%nat -> (k <= n)%nat -> (n <= fuel + k)%nat ->
  length result = n -> take k result = take k (drop start l) ->
  forall end_idx, Z.of_nat (start + n) <= end_idx \/ Z.of_nat (start + n) = Z.of_nat (length l) ->
  end_idx = Z.of_nat (start + n) \/ Z.of_nat (start + n) = Z.of_nat (length l) ->
  Z.of_nat (start + n) <= end_idx ->
  Z.of_nat (start + n) + 1 < 2 ^ 32 ->
  wp (GetItems_loop im fuel (Z.of_nat start) end_idx (Z.of_nat (length l)) (Z.of_nat (start + k) + 1) result)
    (fun r s' => r = take n (drop start l) /\ moves s l s') (fun _ _ => False) s.
Proof.
  revert s k result. induction fuel as [|fuel IH]; intros s k result Hs Hn Hk Hf Hl Ht end_idx He1 He2 He3 Hb.
  - assert (k = n) as -> by lia. simpl.
    rewrite (proj2 (andb_false_iff _ _)); [|destruct He2; [left|right]; apply Z.leb_gt; lia].
    apply wp_ret. split; [|done]. rewrite <- Ht. by rewrite take_ge by lia.
  - destruct (decide (k = n)) as [->|Hkn].
    { simpl. rewrite (proj2 (andb_false_iff _ _)); [|destruct He2; [left|right]; apply Z.leb_gt; lia].
      apply wp_ret. split; [|done]. rewrite <- Ht. by rewrite take_ge by lia. }
    simpl. rewrite (proj2 (andb_true_iff _ _)) by (split; apply Z.leb_le; lia).
    apply wp_Get; [apply Hs|]. intros s1 Hs1 Hv1.
    destruct (lookup_lt_is_Some_2 l (start + k)) as [x Hx]; [lia|].
    rewrite (rep_items _ _ _ _ (proj2 Hs) _ _ Hx). simpl.
    pose proof (rep_valid _ _ _ _ (proj2 Hs) _ (list_elem_of_lookup_2 _ _ _ Hx)) as Hvx.
    rewrite decide_False by (by apply valid_length).
    replace (Z.of_nat (start + k) + 1 - Z.of_nat start - 1) with (Z.of_nat k) by lia.
    rewrite (u32_small (Z.of_nat k)), Nat2Z.id by lia. rewrite decide_True by lia.
    rewrite u32_small by lia.
    replace (Z.of_nat (start + k) + 1 + 1) with (Z.of_nat (start + S k) + 1) by lia.
    pose proof (holds_ext _ _ _ _ _ Hs Hs1 Hv1) as Hm1.
    eapply wp_mono; [apply (IH s1 (S k))|..]; try lia; try done.
    + by eapply moves_holds.
    + by rewrite length_insert.
    + erewrite !take_S_r; [| |apply list_lookup_insert_eq; lia].
      * rewrite take_insert_ge by lia. by rewrite Ht.
      * by rewrite lookup_drop.
    + intros r s' [-> Hm]. split; [done|]. by eapply moves_trans.
Qed.

(** A window of the list, and whether it reaches the end. *)
Lemma GetItems_spec s l start count :
  holds s l -> 0 <= start -> 0 <= count -> start + count < 2 ^ 32 -> Z.of_nat (length l) + 1 < 2 ^ 32 ->
  wp (GetItems im start count) (fun r s' =>
      r = (take (Z.to_nat count) (drop (Z.to_nat start) l), Z.of_nat (length l) <=? start + count)
      /\ moves s l s')
    (fun _ _ => False) s.
Proof.
  intros Hs Hstart Hc Hsc Hb. unfold GetItems. eapply wp_GetCount; [done|]. intros s1 H1.
  rewrite u32_small by lia.
  destruct (Z.eqb_spec (Z.of_nat (length l)) 0) as [Hz|Hz].
  { apply wp_ret. split; [|done]. destruct l; [|done]. rewrite drop_nil, take_nil.
    by rewrite (proj2 (Z.leb_le _ _)) by (simpl; lia). }
  destruct (Z.leb_spec (Z.of_nat (length l)) start) as [Hle|Hlt].
  { apply wp_ret. split; [|done]. rewrite drop_ge by lia. rewrite take_nil.
    by rewrite (proj2 (Z.leb_le _ _)) by lia. }
  pose proof (moves_holds _ _ _ _ _ H1) as Hs1.
  rewrite u32_small by lia.
  pose (n := Z.to_nat (Z.min (Z.of_nat (length l) - start) count)).
  assert ((if Z.of_nat (length l) <=? start + count then (Z.of_nat (length l) - start, true)
           else (count, false)) = (Z.of_nat n, Z.of_nat (length l) <=? start + count)) as ->.
  { destruct (Z.leb_spec (Z.of_nat (length l)) (start + count)); unfold n; f_equal; lia. }
  cbv iota. rewrite Nat2Z.id. apply wp_bind.
  assert (start = Z.of_nat (Z.to_nat start)) as Hst by lia. rewrite Hst at 2 3.
  replace (start + 1) with (Z.of_nat (Z.to_nat start + 0) + 1) by lia.
  eapply wp_mono; [eapply (GetItems_loop_spec _ _ _ _ n); try done|..]; unfold n; try lia.
  - by rewrite length_replicate.
  - intros r s' [-> Hm]. apply wp_ret. split; [|by eapply moves_trans]. f_equal.
    destruct (Z.leb_spec (Z.of_nat (length l)) (start + count)).
    + rewrite !take_ge; [done|rewrite length_drop; lia..].
    + f_equal. lia.
Qed.
End theorems.

(** ** The keys [Init] builds

    [Init] appends two different one-byte fields to the same slice.  When
    that slice has spare capacity both results share its backing array, and
    the second [append] overwrites the byte the first one wrote: the item
    array then lives under the field of the positions.  [init_prefixes]
    computes what the two prefixes hold afterwards. *)
Definition init_prefixes (prefix : bytes) (spare : bool) : bytes * bytes :=
  (prefix ++ (if spare then field_items_pos else field_items), prefix ++ field_items_pos).

Section init_keys.
Context {Hash : Type} (keccak256 : bytes -> Hash) (grow : nat -> nat -> nat).

Lemma Init_prefixes h p :
  slice_ok h p ->
  wp (IterableMapReader_Init keccak256 grow p) (fun r h' =>
    (slice_bytes h' (items_storage_prefix r), slice_bytes h' (items_pos_storage_prefix r))
      = init_prefixes (slice_bytes h p) (bool_decide (sl_len p < slice_cap h p)%nat)
    /\ items_count_storage_key r = keccak256 (slice_bytes h p ++ field_items_count))
    (fun _ _ => False) h.
Proof.
  intros Hp. unfold IterableMapReader_Init, init_prefixes.
  apply wp_bind. eapply wp_mono; [by apply go_append_spec| |done].
  intros items h1 (Hi & Hib & Hp1 & Hpb & Hoth & Hcap & Ha).
  change (wp (pos ← go_append grow p field_items_pos;
    ret (mkReader items (Stor_k_1 keccak256 [slice_bytes h1 p; field_items_count]) pos)) 
    (fun r h' =>
    (slice_bytes h' (items_storage_prefix r), slice_bytes h' (items_pos_storage_prefix r))
      = (slice_bytes h p ++ (if bool_decide (sl_len p < slice_cap h p)%nat then field_items_pos else field_items),
         slice_bytes h p ++ field_items_pos)
    /\ items_count_storage_key r = keccak256 (slice_bytes h p ++ field_items_count)) (fun _ _ => False) h1).
  apply wp_bind. eapply wp_mono; [by apply go_append_spec| |done].
  intros pos h2 (Hpo & Hpob & Hp2 & Hpb2 & Hoth2 & Hcap2 & Ha2). apply wp_ret. simpl.
  unfold Stor_k_1. simpl. rewrite Hpb. split; [|done].
  rewrite Hpob, Hpb. f_equal.
  rewrite Hcap in Ha2. simpl in Ha, Ha2.
  case_bool_decide as Hsp.
  - rewrite decide_True in Ha, Ha2 by lia.
    assert (slice_bytes h2 items = slice_bytes h2 pos) as ->; [|by rewrite Hpob, Hpb].
    unfold slice_bytes, slice_array. rewrite Ha, Ha2. f_equal.
    rewrite <- (length_slice_bytes _ _ Hpo), Hpob, length_app, Hpb.
    rewrite <- (length_slice_bytes _ _ Hi), Hib, length_app. done.
  - rewrite decide_False in Ha by lia.
    destruct (Hoth2 items Hi Ha) as (_ & -> & _). by rewrite Hib.
Qed.

(** The keys, as functions of the prefix bytes alone. *)
Definition prefix_keys (prefix : bytes) (spare : bool) : imap Hash :=
  let '(items, pos) := init_prefixes prefix spare in
  mkImap (fun p => Stor_k_1 keccak256 [items; p]) (keccak256 (prefix ++ field_items_count))
         (fun x => Stor_k_1 keccak256 [pos; x]).

(** Items for which the map's keys cannot clash: not empty, and not as long
    as an encoded position. *)
Definition imap_item (x : bytes) : Prop := x <> [] /\ length x <> 4%nat.

Lemma prefix_keys_ok prefix spare :
  Inj (=) (=) keccak256 -> imap_keys_ok (prefix_keys prefix spare) imap_item.
Proof.
  intros Hinj. unfold prefix_keys, init_prefixes, Stor_k_1, imap_item.
  assert (forall a b : bytes, prefix ++ a <> prefix ++ b -> a <> b) as Hpre by (by intros a b Hab ->).
  split; simpl; try (by intros x [? ?]).
  - intros p q Hp Hq Heq%Hinj. rewrite ?app_nil_r, <- ?app_assoc in Heq.
    by apply app_inv_head, app_inv_head in Heq.
  - intros x y _ _ Heq%Hinj. rewrite ?app_nil_r, <- ?app_assoc in Heq.
    by apply app_inv_head, app_inv_head in Heq.
  - intros p x Hp [_ Hx] Heq%Hinj. rewrite ?app_nil_r, <- ?app_assoc in Heq.
    apply app_inv_head in Heq. apply Hx. rewrite <- Hp. by destruct spare; simplify_list_eq.
  - intros p Hp Heq%Hinj. rewrite ?app_nil_r, <- ?app_assoc in Heq.
    apply app_inv_head in Heq. by destruct spare.
  - intros x _ Heq%Hinj. rewrite ?app_nil_r, <- ?app_assoc in Heq. by apply app_inv_head in Heq.
Qed.

Lemma reader_keys_prefix h p :
  slice_ok h p ->
  wp (IterableMapReader_Init keccak256 grow p) (fun r h' =>
      reader_keys keccak256 h' r
      = prefix_keys (slice_bytes h p) (bool_decide (sl_len p < slice_cap h p)%nat))
    (fun _ _ => False) h.
Proof.
  intros Hp. eapply wp_mono; [by apply Init_prefixes| |done].
  intros r h' [Heq Hc]. unfold reader_keys, prefix_keys, init_prefixes in *.
  injection Heq as -> ->. by rewrite Hc.
Qed.
End init_keys.

(** ** [AddressesIMap] and [IdsIMap] *)
Section wrappers.
Context {St K : Type} `{ByteStore St K} (im : imap K).

Definition AccountExists (account : Address) : M St bool := ItemExists im (addr_bytes account).

Definition GetAccounts (batch count : Z) : M St (list Address * bool) :=
  r ← GetItems im (u32 (batch * count)) count;
  ret (BytesToAddress <$> fst (r : list bytes * bool), snd r).

Definition GetAllAccounts : M St (list Address) :=
  c ← GetCount im; r ← GetItems im 0 c; ret (BytesToAddress <$> fst (r : list bytes * bool)).

Definition CreateAccount (account : Address) : M St Z := CreateItem im (addr_bytes account).
Definition RemoveAccount (account : Address) : M St Z := RemoveItem im (addr_bytes account).

Definition id_of_bytes (b : bytes) : M St Z :=
  match BytesToUint64 b with Some z => ret z | None => panic "index out of range" end.

Definition IdExists (id : Z) : M St bool := ItemExists im (Uint64ToBytes id).

Definition GetIdsFromIdx (start_idx count : Z) : M St (list Z * bool) :=
  r ← GetItems im start_idx count;
  ids ← map_each id_of_bytes (fst (r : list bytes * bool));
  ret (ids, snd r).

Definition GetAllIds : M St (list Z) :=
  c ← GetCount im; r ← GetItems im 0 c; map_each id_of_bytes (fst (r : list bytes * bool)).

Definition CreateId (id : Z) : M St Z := CreateItem im (Uint64ToBytes id).
Definition RemoveId (id : Z) : M St Z := RemoveItem im (Uint64ToBytes id).
End wrappers.
