(* ===== verification/ImapProps.v ===== *)
(** * What the iterable maps promise

    The abstract view of an iterable map is a finite set.  Runs of creations
    and removals are compared with it, pages with the list, and the keys that
    [Init] builds with what the operations need. *)
From S2P Require Import Prelude Bytes Storage GoSlice IterableMap.

Inductive imap_op := OpCreate (x : bytes) | OpRemove (x : bytes).

Definition run_op {St K} `{ByteStore St K} (im : imap K) (o : imap_op) : M St () :=
  match o with
  | OpCreate x => _ ← CreateItem im x; ret tt
  | OpRemove x => _ ← RemoveItem im x; ret tt
  end.

(** The set after a run, [None] when an operation does not apply. *)
Definition set_op (o : imap_op) (X : gset bytes) : option (gset bytes) :=
  match o with
  | OpCreate x => if decide (x ∈ X) then None else Some ({[x]} ∪ X)
  | OpRemove x => if decide (x ∈ X) then Some (X ∖ {[x]}) else None
  end.

Fixpoint set_run (ops : list imap_op) (X : gset bytes) : option (gset bytes) :=
  match ops with
  | [] => Some X
  | o :: ops => match set_op o X with Some Y => set_run ops Y | None => None end
  end.

Definition op_item (o : imap_op) : bytes := match o with OpCreate x | OpRemove x => x end.

Section refinement.
Context {St K : Type} `{EqDecision K} `{ByteStoreLaws St K} (im : imap K) (valid : bytes -> Prop).
Context (Hok : imap_keys_ok im valid).
Implicit Types (l : list bytes) (s : St) (X : gset bytes).

(** [s] holds the set [X] in at most [n] items. *)
Definition holds_set s X : Prop := exists l, holds im valid s l /\ list_to_set l = X.

Lemma wp_run_op s X o Y n :
  holds_set s X -> valid (op_item o) -> set_op o X = Some Y -> Z.of_nat (size X) + 1 < 2 ^ 32 ->
  n = (size X + 1)%nat ->
  wp (run_op im o) (fun _ s' => holds_set s' Y /\ (size Y <= n)%nat
      /\ forall k, ~ imap_owns im valid k -> sview s' k = sview s k) (fun _ _ => False) s.
Proof.
  intros (l & Hl & HX) Hv Ho Hn ->. subst X.
  pose proof (rep_nodup _ _ _ _ (proj2 Hl)) as Hd.
  rewrite size_list_to_set in * by done.
  destruct o as [x|x]; simpl in *; case_decide as Hx; simplify_eq; rewrite elem_of_list_to_set in Hx.
  - apply wp_bind. eapply wp_mono; [by apply CreateItem_spec|..|done].
    intros m s' [_ [Hl' Hf]]. apply wp_ret. split_and!; [| |done].
    + exists (l ++ [x]). split; [done|]. rewrite list_to_set_app_L. set_solver.
    + rewrite size_union by set_solver. rewrite size_singleton, size_list_to_set by done. lia.
  - apply list_elem_of_lookup in Hx as [i Hi]. apply wp_bind.
    eapply wp_mono; [by apply RemoveItem_spec|..|done].
    intros m s' [_ [Hl' Hf]]. apply wp_ret.
    pose proof (swap_remove_Permutation _ _ _ Hi) as Hp.
    assert (list_to_set l = {[x]} ∪ list_to_set (swap_remove i l) :> gset bytes) as E.
    { rewrite <- list_to_set_cons. apply leibniz_equiv. by rewrite Hp. }
    assert (x ∉ swap_remove i l) as Hnx by (rewrite <- Hp in Hd; by apply NoDup_cons in Hd as [? _]).
    assert (list_to_set (swap_remove i l) = list_to_set l ∖ {[x]} :> gset bytes) as E'.
    { rewrite E. set_solver. }
    split_and!; [by exists (swap_remove i l)| |done].
    rewrite <- E', size_list_to_set, length_swap_remove; [lia|]. apply (rep_nodup _ _ _ _ (proj2 Hl')).
Qed.

(** C38: an iterable map refines a finite set.  Any run of creations of
    absent items and removals of present ones completes without error or
    panic, leaves exactly the abstract run's set in storage, and touches no
    key of another map. *)
Theorem imap_refines_set ops s X Y :
  holds_set s X -> Forall (fun o => valid (op_item o)) ops -> set_run ops X = Some Y ->
  Z.of_nat (size X + length ops) < 2 ^ 32 ->
  wp (for_each (run_op im) ops)
    (fun _ s' => holds_set s' Y /\ forall k, ~ imap_owns im valid k -> sview s' k = sview s k)
    (fun _ _ => False) s.
Proof.
  revert s X. induction ops as [|o ops IH]; intros s X Hs Hv Hr Hn; simpl in *.
  { simplify_eq. by apply wp_ret. }
  apply Forall_cons in Hv as [Hvo Hv]. destruct (set_op o X) as [X'|] eqn:Ho; [|done].
  apply wp_bind. eapply wp_mono; [eapply wp_run_op; [done..|lia|done]| |done].
  intros [] s1 (Hs1 & Hsz & Hf1). eapply wp_mono; [apply (IH _ X'); [done..|lia]| |done].
  intros [] s2 [Hs2 Hf2]. split; [done|]. intros k Hk. by rewrite Hf2, Hf1.
Qed.

(** A creation of an item that is present, and a removal of one that is
    absent, panic, whatever else the map holds. *)
Theorem imap_illegal_panics o s X :
  holds_set s X -> valid (op_item o) -> set_op o X = None ->
  exists msg, run_op im o s = Panic msg.
Proof.
  intros (l & Hl & <-) Hv Ho. destruct o as [x|x]; simpl in *; case_decide as Hx; try done;
    rewrite elem_of_list_to_set in Hx.
  - exists "Item already exists". apply bind_panic. by eapply CreateItem_existing.
  - assert (wp (c ← GetCount im; p ← itemExists im x; ret (c, fst p)) (fun r s' => snd r = false)
              (fun _ _ => False) s) as Hw.
    { eapply wp_GetCount; [done|]. intros s1 H1.
      eapply wp_itemExists; [by eapply moves_holds|done|]. intros s2 H2. apply wp_ret. simpl.
      by apply bool_decide_false. }
    unfold RemoveItem, wp, bindM in *. destruct (GetCount im s) as [c s1| |]; [|done..].
    destruct (c =? 0); [by eexists|]. destruct (itemExists im x s1) as [[b p] s2| |]; [|done..].
    simpl in Hw. subst b. by eexists.
Qed.

(** Pagination.  Page [i] of size [n] is the corresponding window of the
    list and the end flag tells whether items are left; reading changes
    nothing. *)
Theorem GetItems_page s l i n :
  holds im valid s l -> 0 <= i -> 0 <= n -> i * n + n < 2 ^ 32 -> Z.of_nat (length l) + 1 < 2 ^ 32 ->
  wp (GetItems im (i * n) n) (fun r s' =>
      fst r = take (Z.to_nat n) (drop (Z.to_nat i * Z.to_nat n) l)
      /\ snd r = bool_decide (drop (Z.to_nat (i + 1) * Z.to_nat n) l = [])
      /\ holds im valid s' l /\ forall k, ~ imap_owns im valid k -> sview s' k = sview s k)
    (fun _ _ => False) s.
Proof.
  intros Hs Hi Hn Hb Hl. eapply wp_mono; [apply GetItems_spec; [done|done|by apply Z.mul_nonneg_nonneg|done..]| |done].
  intros r s' [-> [Hh Hf]]. simpl. rewrite Z2Nat.inj_mul by done. split_and!; [done| |done|done].
  rewrite <- Z2Nat.inj_mul by lia. symmetry. destruct (Z.leb_spec (Z.of_nat (length l)) (i * n + n)).
  - apply bool_decide_true, drop_ge. lia.
  - apply bool_decide_false. intros E. apply (f_equal length) in E. rewrite length_drop in E. simpl in E. lia.
Qed.
End refinement.

(** ** An empty map, and concrete instances *)
Lemma imap_rep_empty {K} `{EqDecision K} (im : imap K) valid v :
  (forall k, imap_owns im valid k -> v k = None) -> imap_rep im valid v [].
Proof.
  intros Hv. split; try done.
  - rewrite Hv; [done|]. by left.
  - intros x Hx _. rewrite Hv; [done|]. right; right. eauto.
  - by intros x ?%elem_of_nil.
  - constructor.
Qed.

Lemma holds_set_empty {St K} `{EqDecision K} `{ByteStoreLaws St K} (im : imap K) valid s :
  swf s -> (forall k, sview s k = None) -> holds_set im valid s ∅.
Proof. intros. exists []. split; [|done]. split; [done|]. by apply imap_rep_empty. Qed.

(** A storage wrapper over the unhashed keys, empty. *)
Definition plain_storage : StorageWrapper bytes := mkStorageWrapper ∅ ∅ ∅.
Definition plain_keys : imap bytes := prefix_keys id [Byte.x03] true.

Lemma plain_keys_ok : imap_keys_ok plain_keys imap_item.
Proof. apply prefix_keys_ok. intros x y E. exact E. Qed.

Lemma plain_empty : holds_set plain_keys imap_item plain_storage ∅.
Proof. by apply holds_set_empty. Qed.

Lemma imap_refines_set_witness :
  wp (for_each (run_op plain_keys) [OpCreate [Byte.x0a]; OpCreate [Byte.x0b]; OpRemove [Byte.x0a]])
    (fun _ s' => holds_set plain_keys imap_item s' {[ [Byte.x0b] ]}
       /\ forall k, ~ imap_owns plain_keys imap_item k -> sview s' k = sview plain_storage k)
    (fun _ _ => False) plain_storage.
Proof.
  apply (imap_refines_set plain_keys imap_item plain_keys_ok _ _ ∅ _ plain_empty).
  - repeat constructor; done.
  - unfold set_run, set_op. repeat case_decide; f_equal; set_solver.
  - rewrite size_empty. simpl. lia.
Defined.

Lemma imap_illegal_panics_witness :
  exists msg, run_op plain_keys (OpRemove [Byte.x0a]) plain_storage = Panic msg.
Proof.
  apply (imap_illegal_panics plain_keys imap_item _ _ ∅ plain_empty); [done|reflexivity].
Defined.

Lemma GetItems_page_witness :
  wp (GetItems plain_keys (0 * 10) 10) (fun r s' =>
      fst r = take (Z.to_nat 10) (drop (Z.to_nat 0 * Z.to_nat 10) [])
      /\ snd r = bool_decide (drop (Z.to_nat (0 + 1) * Z.to_nat 10) ([] : list bytes) = [])
      /\ holds plain_keys imap_item s' []
      /\ forall k, ~ imap_owns plain_keys imap_item k -> sview s' k = sview plain_storage k)
    (fun _ _ => False) plain_storage.
Proof.
  apply (GetItems_page plain_keys imap_item plain_keys_ok); try reflexivity; try done.
  split; [done|]. by apply imap_rep_empty.
Defined.

(** ** The keys [Init] builds *)

(** Whatever slice [Init] is given and however [append] chooses
    capacities, the keys of the map do not clash for items that are not
    empty and not four bytes long, in particular for addresses and ids; this
    includes the case where both prefixes share one backing array. *)
Theorem Init_keys_ok {Hash} (keccak256 : bytes -> Hash) grow h p :
  Inj (=) (=) keccak256 -> slice_ok h p ->
  wp (IterableMapReader_Init keccak256 grow p)
    (fun r h' => imap_keys_ok (reader_keys keccak256 h' r) imap_item
       /\ (forall a : Address, imap_item (addr_bytes a)) /\ (forall n, imap_item (Uint64ToBytes n)))
    (fun _ _ => False) h.
Proof.
  intros Hinj Hp. eapply wp_mono; [by apply reader_keys_prefix| |done].
  intros r h' ->. split_and!; [by apply prefix_keys_ok|intros a|intros n]; unfold imap_item.
  - pose proof (addr_length a) as E. split; [|lia]. intros E'. by rewrite E' in E.
  - unfold Uint64ToBytes. rewrite length_uint_to_le. split; [|lia].
    intros E. apply (f_equal length) in E. by rewrite length_uint_to_le in E.
Qed.

Lemma Init_keys_ok_witness :
  wp (IterableMapReader_Init id go_grow (mkSlice 0 1))
    (fun r h' => imap_keys_ok (reader_keys id h' r) imap_item
       /\ (forall a : Address, imap_item (addr_bytes a)) /\ (forall n, imap_item (Uint64ToBytes n)))
    (fun _ _ => False) [[Byte.x03; Byte.x00]].
Proof. apply Init_keys_ok; [intros x y E; exact E|]. split; vm_compute; lia. Defined.

(** A map built by [Init] on a prefix with spare capacity, in which one item
    was created; whether another item is then found. *)
Definition create_then_find (prefix : bytes) (spare : nat) (x y : bytes) : option bool :=
  match (p ← new_slice prefix spare; IterableMapReader_Init id go_grow p) [] with
  | Done r h =>
      match (_ ← CreateItem (reader_keys id h r) x; ItemExists (reader_keys id h r) y) plain_storage with
      | Done b _ => Some b
      | _ => None
      end
  | _ => None
  end.

(** The two prefixes of a map alias when the prefix slice has spare
    capacity: the second [append] of [Init] overwrites the first one's byte,
    and a map of four-byte items then finds an item that was never created.
    Without spare capacity it does not. *)
Theorem Init_prefixes_alias :
  create_then_find [Byte.x03; Byte.x00] 6 [Byte.x02; Byte.x00; Byte.x00; Byte.x00]
    [Byte.x01; Byte.x00; Byte.x00; Byte.x00] = Some true
  /\ create_then_find [Byte.x03; Byte.x00] 0 [Byte.x02; Byte.x00; Byte.x00; Byte.x00]
       [Byte.x01; Byte.x00; Byte.x00; Byte.x00] = Some false.
Proof. split; vm_compute; reflexivity. Qed.
