(* ===== verification/Rlp.v ===== *)
(** * Recursive length prefix encoding: [rlp/raw.go], [rlp/encode.go], [rlp/typecache.go]

    The functions on raw byte strings ([ReadKind], [Split], [CountValues]),
    the [Encoder], which collects the string data and the list headers apart
    and merges them in [Flush], and the encoding of Go values chosen by
    [makeWriter] from their type.  A [reflect.Type] is a [typ], a
    [reflect.Value] a [val]; interfaces, maps and the types with an encoder or
    decoder of their own are not modelled.  [enc_string], [enc_list] and
    [encoding] are the specification. *)
From S2P Require Import Prelude Bytes.
Local Open Scope string_scope.

(** ** Errors *)
Definition ErrUnexpectedEOF := "unexpected EOF".
Definition ErrEOF := "EOF".
Definition EOL := "rlp: end of list".
Definition ErrExpectedString := "rlp: expected String or Byte".
Definition ErrExpectedList := "rlp: expected List".
Definition ErrCanonInt := "rlp: non-canonical integer format".
Definition ErrCanonSize := "rlp: non-canonical size information".
Definition ErrElemTooLarge := "rlp: element is larger than containing list".
Definition ErrValueTooLarge := "rlp: value size exceeds available input length".
Definition ErrMoreThanOneValue := "rlp: input contains more than one value".
Definition errNotInList := "rlp: call of ListEnd outside of any list".
Definition errNotAtEOL := "rlp: call of ListEnd not positioned at EOL".
Definition errUintOverflow := "rlp: uint overflow".
Local Close Scope string_scope.

Definition blen (b : bytes) : Z := Z.of_nat (length b).

(** ** Raw values *)
Inductive Kind := KByte | KString | KList.
#[export] Instance Kind_eq_dec : EqDecision Kind.
Proof. solve_decision. Defined.

(** [readSize]: a size of [slen] bytes in front of [b]. *)
Definition readSize (b : bytes) (slen : Z) : string + Z :=
  if blen b <? slen then inl ErrUnexpectedEOF else
  let s := be_to_uint (take (Z.to_nat slen) b) in
  if (s <? 56) || bool_decide (head b = Some Byte.x00) then inl ErrCanonSize else inr s.

Definition ReadKind (buf : bytes) : string + (Kind * Z * Z) :=
  let buflen := blen buf in
  match buf with
  | [] => inl ErrUnexpectedEOF
  | b0 :: buf1 =>
      let b := Z_of_byte b0 in
      let header :=
        if b <? 128 then inr (KByte, 0, 1)
        else if b <? 184 then
          let contentsize := b - 128 in
          if (contentsize =? 1) && (1 <? buflen) &&
             (Z_of_byte (default Byte.x00 (buf !! 1%nat)) <? 128)
          then inl ErrCanonSize else inr (KString, 1, contentsize)
        else if b <? 192 then sum_map id (fun size => (KString, b - 183 + 1, size)) (readSize buf1 (b - 183))
        else if b <? 248 then inr (KList, 1, b - 192)
        else sum_map id (fun size => (KList, b - 247 + 1, size)) (readSize buf1 (b - 247)) in
      match header with
      | inl err => inl err
      | inr (k, tagsize, contentsize) =>
          if u64 (buflen - tagsize) <? contentsize then inl ErrValueTooLarge
          else inr (k, tagsize, u64 (tagsize + contentsize))
      end
  end.

(** [Split]: kind, content of the first value, and what follows it. *)
Definition Split (b : bytes) : string + (Kind * bytes * bytes) :=
  match ReadKind b with
  | inl err => inl err
  | inr (k, tagsize, total_size) =>
      inr (k, drop (Z.to_nat tagsize) (take (Z.to_nat total_size) b), drop (Z.to_nat total_size) b)
  end.

Definition SplitString (b : bytes) : string + (bytes * bytes) :=
  match Split b with
  | inl err => inl err
  | inr (KList, _, _) => inl ErrExpectedString
  | inr (_, content, rest) => inr (content, rest)
  end.

Definition SplitList (b : bytes) : string + (bytes * bytes) :=
  match Split b with
  | inl err => inl err
  | inr (KList, content, rest) => inr (content, rest)
  | inr _ => inl ErrExpectedList
  end.

(** [CountValues]; the fuel is the length of the input, which every round
    shortens. *)
Fixpoint CountValues_loop (fuel : nat) (b : bytes) (i : Z) : string + Z :=
  match b, fuel with
  | [], _ => inr i
  | _, O => inr i
  | _, S fuel =>
      match ReadKind b with
      | inl err => inl err
      | inr (_, _, total_size) => CountValues_loop fuel (drop (Z.to_nat total_size) b) (i + 1)
      end
  end.
Definition CountValues (b : bytes) : string + Z := CountValues_loop (length b) b 0.

(** ** Headers *)
Definition EmptyString : Z := 128.

Definition headsize (size : Z) : Z := if size <? 56 then 1 else 1 + Z.of_nat (SizeInBytes size).

(** What [putint] appends. *)
Definition putint (i tag : Z) : bytes :=
  let bs n := byte_of_Z (Z.of_nat n + tag) :: uint_to_be n i in
  if i <? 2 ^ 8 then bs 1%nat else if i <? 2 ^ 16 then bs 2%nat else if i <? 2 ^ 24 then bs 3%nat
  else if i <? 2 ^ 32 then bs 4%nat else if i <? 2 ^ 40 then bs 5%nat else if i <? 2 ^ 48 then bs 6%nat
  else if i <? 2 ^ 56 then bs 7%nat else bs 8%nat.

Definition puthead (smalltag largetag size : Z) : bytes :=
  if size <? 56 then [byte_of_Z (smalltag + size)] else putint size largetag.

(** What [ToRLPString] appends. *)
Definition ToRLPString (str : bytes) : bytes :=
  match str with
  | [b] => if Z_of_byte b <=? 127 then [b] else byte_of_Z (EmptyString + 1) :: str
  | _ =>
      let size := blen str in
      (if size <? 56 then [byte_of_Z (EmptyString + size)] else putint size 183) ++ str
  end.

(** ** The encoder *)
Record ListHead := mkListHead {
  strpos : Z;
  base_lhsize : Z;
  elems_size : Z;
  closed : bool;
}.

Record Encoder := mkEncoder {
  str : bytes;
  lheads : list ListHead;
  lhsize : Z;
}.

Definition Encoder_Reset : Encoder := mkEncoder [] [] 0.

Definition Encoder_Size (e : Encoder) : Z := u32 (u32 (blen (str e)) + lhsize e).

Definition ListSize (e : Encoder) (list_pos : nat) : option Z :=
  lheads e !! list_pos ≫= fun lh =>
  if closed lh then Some (u32 (elems_size lh + headsize (elems_size lh))) else None.

Definition ListStart : M Encoder nat := fun e =>
  Done (length (lheads e))
    (mkEncoder (str e) (lheads e ++ [mkListHead (u32 (blen (str e))) (lhsize e) 0 false]) (lhsize e)).

Definition ListEnd (list_pos : nat) : M Encoder () := fun e =>
  match lheads e !! list_pos with
  | None => Panic "index out of range"
  | Some lh =>
      if closed lh then Panic "list is already closed" else
      let size := u32 (Encoder_Size e - strpos lh - base_lhsize lh) in
      Done tt (mkEncoder (str e) (<[list_pos := mkListHead (strpos lh) (base_lhsize lh) size true]> (lheads e))
                 (u32 (lhsize e + headsize size)))
  end.

Definition RevertToListStart (list_pos : nat) : M Encoder () := fun e =>
  match lheads e !! list_pos with
  | None => Panic "index out of range"
  | Some lh => Done tt (mkEncoder (take (Z.to_nat (strpos lh)) (str e)) (take list_pos (lheads e)) (base_lhsize lh))
  end.

(** The loop of [Flush]: the string data between the headers. *)
Fixpoint Flush_loop (str : bytes) (pos : Z) (lhs : list ListHead) : option bytes :=
  match lhs with
  | [] => Some (drop (Z.to_nat pos) str)
  | lh :: lhs' =>
      if closed lh then
        Flush_loop str (strpos lh) lhs' ≫= fun rest =>
        Some (drop (Z.to_nat pos) (take (Z.to_nat (strpos lh)) str)
              ++ puthead 192 247 (elems_size lh) ++ rest)
      else None
  end.

(** [Flush] from a list, or from the start; [None] where Go panics. *)
Definition Flush (e : Encoder) (list_pos : option nat) : option bytes :=
  match list_pos with
  | None => Flush_loop (str e) 0 (lheads e)
  | Some p => lheads e !! p ≫= fun lh => Flush_loop (str e) (strpos lh) (drop p (lheads e))
  end.

Definition AppendRaw (b : bytes) : M Encoder () := fun e =>
  if blen b <? 2 ^ 32 - 1 - blen (str e)
  then Done tt (mkEncoder (str e ++ b) (lheads e) (lhsize e))
  else Panic "assertion failed".

Definition AppendEmptyString : M Encoder () := AppendRaw [byte_of_Z EmptyString].

(** [ToRLPString] appends the header and the data separately; the two
    assertions together amount to the last one. *)
Definition AppendString (s : bytes) : M Encoder () :=
  match s with
  | [] => AppendEmptyString
  | _ => AppendRaw (ToRLPString s)
  end.

Definition AppendUint (i : Z) : M Encoder () :=
  if i =? 0 then AppendEmptyString
  else if i <? 128 then AppendRaw [byte_of_Z i]
  else AppendRaw (putint i EmptyString).

Definition AppendBigInt (i : option Z) : M Encoder () :=
  match i with
  | None => AppendEmptyString
  | Some i =>
      if i =? 0 then AppendEmptyString
      else if 0 <? i then AppendString (big_Bytes i)
      else throw "rlp: cannot encode negative *big.Int"
  end.

(** ** Types and values *)
Record tags := mkTags { nilOK : bool; tail : bool }.
Definition no_tags : tags := mkTags false false.

(** [TString], [TBytes], [TByteArray]: Go's [string], [[]byte], [[n]byte];
    [TBigInt]: [*big.Int]; the elements of [TSlice] and [TArray] are not
    bytes.  A struct lists its exported fields without the ignored ones. *)
Inductive typ :=
| TUint (bits : Z)
| TBool
| TString
| TBytes
| TByteArray (n : nat)
| TBigInt
| TRaw
| TSlice (elem : typ)
| TArray (n : nat) (elem : typ)
| TStruct (fs : fields)
| TPtr (elem : typ)
with fields :=
| FNil
| FCons (ts : tags) (t : typ) (fs : fields).

Scheme typ_mut := Induction for typ Sort Prop
with fields_mut := Induction for fields Sort Prop.
Combined Scheme typ_fields_ind from typ_mut, fields_mut.

Inductive val :=
| VUint (i : Z)
| VBool (b : bool)
| VBytes (b : bytes)
| VBig (i : option Z)
| VList (vs : list val)
| VNil
| VPtr (v : val).

(** [reflect.Zero]. *)
Fixpoint zero (t : typ) : val :=
  match t with
  | TUint _ => VUint 0
  | TBool => VBool false
  | TString | TBytes | TRaw => VBytes []
  | TByteArray n => VBytes (replicate n Byte.x00)
  | TBigInt => VBig None
  | TSlice _ => VList []
  | TArray n t => VList (replicate n (zero t))
  | TStruct fs => VList (zeros fs)
  | TPtr _ => VNil
  end
with zeros (fs : fields) : list val :=
  match fs with FNil => [] | FCons _ t fs => zero t :: zeros fs end.

Definition is_slice (t : typ) : bool := match t with TSlice _ | TBytes | TRaw => true | _ => false end.

(** [parseStructTag]: [tail] is for the last field and for slices. *)
Fixpoint tags_ok (t : typ) : bool :=
  match t with
  | TSlice t | TArray _ t | TPtr t => tags_ok t
  | TStruct fs => structFields fs
  | _ => true
  end
with structFields (fs : fields) : bool :=
  match fs with
  | FNil => true
  | FCons ts t fs' =>
      (negb (tail ts) || (match fs' with FNil => true | _ => false end && is_slice t)) && tags_ok t && structFields fs'
  end.

Definition bad_value {A} : M Encoder A := panic "reflect: call of a method on a value of another kind".

Definition writeUint (i : Z) : M Encoder () := AppendUint i.
Definition writeBool (b : bool) : M Encoder () := if b then AppendRaw [Byte.x01] else AppendEmptyString.
Definition writeBigIntPtr (i : option Z) : M Encoder () := AppendBigInt i.
Definition writeBytes (b : bytes) : M Encoder () := AppendString b.
Definition writeByteArray (b : bytes) : M Encoder () := AppendString b.
Definition writeRawValue (b : bytes) : M Encoder () := AppendRaw b.

Definition makeSliceWriter (ts : tags) (etype_writer : val -> M Encoder ()) (vs : list val) : M Encoder () :=
  if tail ts then for_each etype_writer vs
  else start ← ListStart; _ ← for_each etype_writer vs; ListEnd start.

Definition makeStructWriter (write_fields : M Encoder ()) : M Encoder () :=
  start ← ListStart; _ ← write_fields; ListEnd start.

(** The writer [makeWriter] chooses for a type. *)
Fixpoint writer (t : typ) (ts : tags) (v : val) {struct t} : M Encoder () :=
  match t, v with
  | TRaw, VBytes b => writeRawValue b
  | TBigInt, VBig i => writeBigIntPtr i
  | TUint _, VUint i => writeUint i
  | TBool, VBool b => writeBool b
  | TString, VBytes b | TBytes, VBytes b => writeBytes b
  | TByteArray _, VBytes b => writeByteArray b
  | TSlice t, VList vs => makeSliceWriter ts (writer t no_tags) vs
  | TArray _ t, VList vs => makeSliceWriter no_tags (writer t no_tags) vs
  | TStruct fs, VList vs => makeStructWriter (write_fields fs vs)
  | TPtr t, VPtr v => writer t no_tags v
  | TPtr (TByteArray _), VNil => AppendRaw [byte_of_Z EmptyString]
  | TPtr (TStruct _), VNil | TPtr (TArray _ _), VNil => start ← ListStart; ListEnd start
  | TPtr t, VNil => writer t no_tags (zero t)
  | _, _ => bad_value
  end
with write_fields (fs : fields) (vs : list val) {struct fs} : M Encoder () :=
  match fs, vs with
  | FNil, [] => ret tt
  | FCons ts t fs', v :: vs' => _ ← writer t ts v; write_fields fs' vs'
  | _, _ => bad_value
  end.

Definition AppendAny (t : typ) (v : val) : M Encoder () :=
  if tags_ok t then writer t no_tags v else throw "rlp: invalid struct tag".

Definition EncodeToBytes (t : typ) (v : val) : string + option bytes :=
  match AppendAny t v Encoder_Reset with
  | Done _ e => inr (Flush e None)
  | Fail err _ => inl err
  | Panic _ => inr None
  end.

(** ** The specification: the encoding as a recursive function *)
Definition enc_string (s : bytes) : bytes :=
  match s with
  | [b] => if Z_of_byte b <? 128 then [b] else puthead 128 183 1 ++ s
  | _ => puthead 128 183 (blen s) ++ s
  end.

Definition enc_list (payload : bytes) : bytes := puthead 192 247 (blen payload) ++ payload.

Definition concat_opt (l : list (option bytes)) : option bytes :=
  foldr (fun b r => b ≫= fun b => r ≫= fun r => Some (b ++ r)) (Some []) l.

(** [None] for what is not a value of the type, and for negative integers. *)
Fixpoint encoding (t : typ) (ts : tags) (v : val) {struct t} : option bytes :=
  match t, v with
  | TRaw, VBytes b => Some b
  | TBigInt, VBig None => Some (enc_string [])
  | TBigInt, VBig (Some i) => if i <? 0 then None else Some (enc_string (big_Bytes i))
  | TUint bits, VUint i =>
      if (0 <=? i) && (i <? 2 ^ Z.min bits 64) then Some (enc_string (big_Bytes i)) else None
  | TBool, VBool b => Some (enc_string (if b then [Byte.x01] else []))
  | TString, VBytes b | TBytes, VBytes b => Some (enc_string b)
  | TByteArray n, VBytes b => if Nat.eqb (length b) n then Some (enc_string b) else None
  | TSlice t, VList vs =>
      (if tail ts then id else fmap enc_list) (concat_opt (encoding t no_tags <$> vs))
  | TArray n t, VList vs =>
      if Nat.eqb (length vs) n then enc_list <$> concat_opt (encoding t no_tags <$> vs) else None
  | TStruct fs, VList vs =>
      enc_list <$> encodings fs vs
  | TPtr t, VPtr v => encoding t no_tags v
  | TPtr (TByteArray _), VNil => Some (enc_string [])
  | TPtr (TStruct _), VNil | TPtr (TArray _ _), VNil => Some (enc_list [])
  | TPtr t, VNil => encoding t no_tags (zero t)
  | _, _ => None
  end
with encodings (fs : fields) (vs : list val) {struct fs} : option bytes :=
  match fs, vs with
  | FNil, [] => Some []
  | FCons ts t fs', v :: vs' => encoding t ts v ≫= fun b => encodings fs' vs' ≫= fun r => Some (b ++ r)
  | _, _ => None
  end.
