(* ===== verification/RlpEncode.v ===== *)
(** * The encoder of [rlp/encode.go] computes the recursive encoding

    The [Encoder] keeps the string data and the list headers apart;
    [appends] says what a sequence of its operations contributes to the
    output of [Flush], whatever is written before and after it. *)
From S2P Require Import Prelude Bytes Rlp.

(** ** Headers *)
Lemma blen_app a b : blen (a ++ b) = blen a + blen b.
Proof. unfold blen. rewrite length_app. lia. Qed.

Lemma blen_cons x b : blen (x :: b) = 1 + blen b.
Proof. unfold blen. simpl. lia. Qed.

Lemma blen_nil : blen [] = 0.
Proof. done. Qed.

Lemma blen_nonneg b : 0 <= blen b.
Proof. unfold blen. lia. Qed.

Lemma putint_size i tag :
  putint i tag = byte_of_Z (Z.of_nat (SizeInBytes i) + tag) :: uint_to_be (SizeInBytes i) i.
Proof. unfold putint, SizeInBytes. by repeat case_match. Qed.

Lemma puthead_size small large size :
  blen (puthead small large size) = headsize size.
Proof.
  unfold puthead, headsize. case_match; [done|].
  rewrite putint_size, blen_cons. unfold blen. by rewrite length_uint_to_be.
Qed.

Lemma headsize_bounds size : 1 <= headsize size <= 9.
Proof. unfold headsize. case_match; [lia|]. pose proof (SizeInBytes_range size). lia. Qed.

Lemma ToRLPString_spec s : s <> [] -> ToRLPString s = enc_string s.
Proof.
  destruct s as [|x [|y s]]; intros Hne; [done| |].
  - unfold ToRLPString, enc_string. simpl. destruct (Z.leb_spec (Z_of_byte x) 127), (Z.ltb_spec (Z_of_byte x) 128); (done || lia).
  - unfold ToRLPString, enc_string, puthead. by case_match.
Qed.

(** A number below 2^64 has the same minimal bytes for [putint] and for
    [big.Int.Bytes]. *)
Lemma SizeInBytes_big_len i : 0 < i < 2 ^ 64 -> big_len i = SizeInBytes i.
Proof.
  intros Hi. unfold big_len. rewrite (proj2 (Z.eqb_neq i 0)), Z.abs_eq by lia.
  enough (8 * (Z.of_nat (SizeInBytes i) - 1) <= Z.log2 i < 8 * Z.of_nat (SizeInBytes i)) as Hlog.
  { assert (Z.log2 i / 8 = Z.of_nat (SizeInBytes i) - 1); [|lia].
    symmetry. apply Z.div_unique with (Z.log2 i - 8 * (Z.of_nat (SizeInBytes i) - 1)); lia. }
  unfold SizeInBytes.
  repeat case_match; zbool; simpl;
    (split; [apply Z.log2_le_pow2; lia|apply Z.log2_lt_pow2; lia]) ||
    (split; [apply Z.log2_nonneg|apply Z.log2_lt_pow2; lia]).
Qed.

Lemma big_Bytes_compact i : 0 < i < 2 ^ 64 -> big_Bytes i = uint_to_be (SizeInBytes i) i.
Proof. intros Hi. unfold big_Bytes. by rewrite SizeInBytes_big_len, Z.abs_eq by lia. Qed.

Lemma big_Bytes_0 : big_Bytes 0 = [].
Proof. done. Qed.

Lemma big_Bytes_small i : 0 < i < 256 -> big_Bytes i = [byte_of_Z i].
Proof.
  intros Hi. rewrite big_Bytes_compact by lia. unfold SizeInBytes.
  rewrite (proj2 (Z.ltb_lt i (2 ^ 8))) by lia.
  unfold uint_to_be. simpl. by rewrite Z.shiftr_0_r.
Qed.

Lemma byte_small i : 0 <= i < 256 -> Z_of_byte (byte_of_Z i) = i.
Proof. intros. rewrite Z_of_byte_of_Z. by apply Z.mod_small. Qed.

Lemma SizeInBytes_1 i : i < 256 -> SizeInBytes i = 1%nat.
Proof. intros. unfold SizeInBytes. by rewrite (proj2 (Z.ltb_lt i (2 ^ 8))) by lia. Qed.

Lemma SizeInBytes_2 i : 256 <= i -> (2 <= SizeInBytes i)%nat.
Proof.
  intros. unfold SizeInBytes. rewrite (proj2 (Z.ltb_ge i (2 ^ 8))) by lia. repeat case_match; lia.
Qed.

Lemma enc_string_uint i :
  0 < i < 2 ^ 64 ->
  enc_string (big_Bytes i) = if i <? 128 then [byte_of_Z i] else putint i EmptyString.
Proof.
  intros Hi. destruct (Z.ltb_spec i 256) as [Hs|Hs].
  - rewrite big_Bytes_small by lia. unfold enc_string. rewrite byte_small by lia.
    destruct (Z.ltb_spec i 128); [done|]. rewrite putint_size, SizeInBytes_1 by lia.
    unfold puthead, uint_to_be. simpl. by rewrite Z.shiftr_0_r.
  - rewrite (proj2 (Z.ltb_ge i 128)), big_Bytes_compact, putint_size by lia.
    assert (2 <= SizeInBytes i <= 8)%nat as Hn.
    { pose proof (SizeInBytes_2 i). pose proof (SizeInBytes_range i). lia. }
    unfold enc_string. pose proof (length_uint_to_be (SizeInBytes i) i) as Hl.
    destruct (uint_to_be (SizeInBytes i) i) as [|x [|y l]] eqn:E; [simpl in Hl; lia..|].
    unfold puthead, blen. rewrite Hl, (proj2 (Z.ltb_lt _ 56)) by lia. simpl. f_equal. f_equal. unfold EmptyString. lia.
Qed.

(** ** Segments of the output *)
Definition slice (S : bytes) (p q : Z) : bytes := drop (Z.to_nat p) (take (Z.to_nat q) S).

Lemma slice_split S p m q : 0 <= p <= m -> m <= q -> slice S p q = slice S p m ++ slice S m q.
Proof.
  intros Hp Hm. unfold slice.
  rewrite <- (take_drop (Z.to_nat m) (take (Z.to_nat q) S)) at 1.
  rewrite take_take, Nat.min_l by lia.
  destruct (decide (Z.to_nat p <= length (take (Z.to_nat m) S))%nat) as [Hle|Hgt].
  - by rewrite drop_app_le.
  - rewrite (drop_ge (take (Z.to_nat q) S) (Z.to_nat m)), app_nil_r, app_nil_r; [done|].
    rewrite length_take in *. lia.
Qed.

Lemma slice_nil S p : slice S p p = [].
Proof. unfold slice. apply drop_ge. rewrite length_take. lia. Qed.

Lemma slice_mid a b c : slice (a ++ b ++ c) (blen a) (blen a + blen b) = b.
Proof.
  unfold slice, blen. rewrite app_assoc, take_app_le by (rewrite length_app; lia).
  rewrite take_ge by (rewrite length_app; lia). by rewrite drop_app_length' by lia.
Qed.

(** What [Flush] makes of the string data from [p] to [q] and of the headers
    that lie between. *)
Fixpoint seg (S : bytes) (p : Z) (hs : list ListHead) (q : Z) : bytes :=
  match hs with
  | [] => slice S p q
  | lh :: hs' => slice S p (strpos lh) ++ puthead 192 247 (elems_size lh) ++ seg S (strpos lh) hs' q
  end.

(** Headers in order, between two positions. *)
Fixpoint ordered (p : Z) (hs : list ListHead) (q : Z) : Prop :=
  match hs with
  | [] => p <= q
  | lh :: hs' => p <= strpos lh /\ closed lh = true /\ ordered (strpos lh) hs' q
  end.

Lemma ordered_le p hs q : ordered p hs q -> p <= q.
Proof. revert p. induction hs as [|lh hs IH]; simpl; [done|]. intros p (?&_&?%IH). lia. Qed.

Lemma ordered_app p hs m hs' q : ordered p hs m -> ordered m hs' q -> ordered p (hs ++ hs') q.
Proof.
  revert p. induction hs as [|lh hs IH]; simpl; intros p.
  - intros Hpm. destruct hs'; simpl; [lia|]. intros (?&?&?). split; [lia|done].
  - intros (?&?&?) ?. eauto.
Qed.

Lemma seg_app S p hs m hs' q :
  0 <= p -> ordered p hs m -> ordered m hs' q -> seg S p (hs ++ hs') q = seg S p hs m ++ seg S m hs' q.
Proof.
  revert p. induction hs as [|lh hs IH]; simpl; intros p Hp.
  - intros Hpm Ho. destruct hs' as [|lh hs']; simpl in *; [by apply slice_split; lia|].
    rewrite (slice_split S p m) by lia. by rewrite <- app_assoc.
  - intros (?&?&?) ?. rewrite IH by (done || lia). by rewrite <- !app_assoc.
Qed.

Lemma Flush_loop_seg S p hs : ordered p hs (blen S) -> Flush_loop S p hs = Some (seg S p hs (blen S)).
Proof.
  revert p. induction hs as [|lh hs IH]; simpl; intros p.
  - intros _. unfold slice, blen. by rewrite take_ge by lia.
  - intros (?&Hc&Ho). by rewrite Hc, IH by done.
Qed.

(** ** What operations append *)
Definition room (e : Encoder) (n : Z) : Prop := 0 <= lhsize e /\ blen (str e) + lhsize e + n < 2 ^ 32 - 1.

(** The encoder has grown by operations that contribute [b] to the output. *)
Definition grown (e e' : Encoder) (b : bytes) : Prop :=
  exists s hs L, e' = mkEncoder (str e ++ s) (lheads e ++ hs) (lhsize e + L) /\
    0 <= L /\ blen s + L = blen b /\ ordered (blen (str e)) hs (blen (str e) + blen s) /\
    forall S', seg (str e ++ s ++ S') (blen (str e)) hs (blen (str e) + blen s) = b.

Lemma room_le e m n : room e m -> n <= m -> room e n.
Proof. unfold room. lia. Qed.

Lemma grown_refl e : grown e e [].
Proof.
  destruct e as [st lhs sz]. exists [], [], 0. cbn [str lheads lhsize].
  rewrite !app_nil_r, blen_nil, !Z.add_0_r. split_and!; [done..|simpl; lia|]. intros. apply slice_nil.
Qed.

Lemma grown_room e e' b n : grown e e' b -> room e (blen b + n) -> room e' n.
Proof.
  intros (s & hs & L & -> & HL & Hs & _) [Hsz Hr]. split; simpl; [lia|]. rewrite blen_app. lia.
Qed.

Lemma grown_trans e e1 e2 b1 b2 : grown e e1 b1 -> grown e1 e2 b2 -> grown e e2 (b1 ++ b2).
Proof.
  destruct e as [st lhs sz]. intros (s1 & hs1 & L1 & -> & HL1 & Hs1 & Ho1 & Hseg1) (s2 & hs2 & L2 & -> & HL2 & Hs2 & Ho2 & Hseg2).
  cbn [str lheads lhsize] in *. rewrite blen_app in Ho2, Hseg2.
  exists (s1 ++ s2), (hs1 ++ hs2), (L1 + L2). cbn [str lheads lhsize].
  rewrite !blen_app. rewrite <- Z.add_assoc in Ho2, Hseg2.
  split_and!; [rewrite <- !app_assoc; f_equal; lia|lia|lia|by eapply ordered_app|].
  intros S'. rewrite (seg_app _ _ hs1 (blen st + blen s1)); [|apply blen_nonneg|done..].
  f_equal; [rewrite <- app_assoc; apply Hseg1|].
  specialize (Hseg2 S'). rewrite <- !app_assoc in Hseg2. by rewrite <- !app_assoc.
Qed.

(** The encoder after [ListStart]. *)
Definition started (e : Encoder) : Encoder :=
  mkEncoder (str e) (lheads e ++ [mkListHead (u32 (blen (str e))) (lhsize e) 0 false]) (lhsize e).

Lemma ListStart_started e : ListStart e = Done (length (lheads e)) (started e).
Proof. done. Qed.

Lemma started_room e n : room e n -> room (started e) n.
Proof. done. Qed.

(** The size of a list is known when it ends, and its header is put in front;
    it can be flushed alone, or taken back. *)
Lemma ListEnd_grown e e' b :
  grown (started e) e' b -> room e (blen (enc_list b)) ->
  exists e2, ListEnd (length (lheads e)) e' = Done tt e2 /\ grown e e2 (enc_list b) /\
    ListSize e2 (length (lheads e)) = Some (blen (enc_list b)) /\
    Flush e2 (Some (length (lheads e))) = Some (enc_list b) /\
    RevertToListStart (length (lheads e)) e2 = Done tt e.
Proof.
  destruct e as [st lhs sz]. intros (s & hs & L & -> & HL & Hs & Ho & Hseg) [Hsz Hr].
  unfold enc_list in *. rewrite blen_app, puthead_size in *. cbn [str lheads lhsize started] in *.
  pose proof (blen_nonneg b). pose proof (blen_nonneg st). pose proof (headsize_bounds (blen b)). pose proof (blen_nonneg s).
  set (lh := mkListHead (blen st) sz (blen b) true).
  assert (ordered (blen st) (lh :: hs) (blen st + blen s)) as Ho' by (cbn [ordered strpos closed lh]; split_and!; [lia|done|done]).
  assert (forall S', seg (st ++ s ++ S') (blen st) (lh :: hs) (blen st + blen s) = puthead 192 247 (blen b) ++ b) as Hseg'.
  { intros S'. cbn [seg strpos elems_size lh]. by rewrite slice_nil, Hseg. }
  exists (mkEncoder (st ++ s) (lhs ++ lh :: hs) (sz + (L + headsize (blen b)))). unfold ListEnd. cbn [str lheads lhsize].
  rewrite <- app_assoc. cbn [app]. rewrite list_lookup_middle by done.
  cbn [closed strpos base_lhsize]. unfold Encoder_Size. cbn [str lheads lhsize]. rewrite blen_app.
  rewrite !(u32_small (blen st)), (u32_small (blen st + blen s)) by lia.
  rewrite (u32_small (blen st + blen s + _)) by lia.
  replace (blen st + blen s + (sz + L) - blen st - sz) with (blen b) by lia. rewrite (u32_small (blen b)) by lia.
  rewrite insert_app_r_alt, Nat.sub_diag by lia. cbn [app list_insert].
  rewrite (u32_small (sz + L + _)) by lia.
  split_and!.
  - do 2 f_equal. lia.
  - exists s, (lh :: hs), (L + headsize (blen b)). cbn [str lheads lhsize]. rewrite blen_app, puthead_size. split_and!; [done|lia|lia|done|done].
  - unfold ListSize. cbn [lheads]. rewrite list_lookup_middle by done. cbn. by rewrite u32_small, Z.add_comm by lia.
  - unfold Flush. cbn [lheads str]. rewrite list_lookup_middle, drop_app_length by done. cbn [mbind option_bind strpos lh].
    rewrite Flush_loop_seg by (by rewrite blen_app). rewrite blen_app. f_equal. rewrite <- (app_nil_r s) at 1. apply Hseg'.
  - unfold RevertToListStart. cbn [lheads str]. rewrite list_lookup_middle by done. cbn [strpos base_lhsize lh].
    unfold blen. by rewrite Nat2Z.id, !take_app_length.
Qed.

Definition appends {A} (m : M Encoder A) (b : bytes) : Prop := forall e, room e (blen b) ->
  exists a e', m e = Done a e' /\ grown e e' b.

Lemma appends_ret {A} (a : A) : appends (ret a) [].
Proof. intros e _. exists a, e. split; [done|apply grown_refl]. Qed.

Lemma appends_raw b : appends (AppendRaw b) b.
Proof.
  intros [st lhs sz] [Hsz Hr]. cbn [str lheads lhsize] in *. unfold AppendRaw. cbn [str lheads lhsize].
  rewrite (proj2 (Z.ltb_lt _ _)) by lia. eexists _, _. split; [done|].
  exists b, [], 0. cbn [str lheads lhsize]. rewrite app_nil_r, !Z.add_0_r.
  split_and!; [done..| |]; [simpl; pose proof (blen_nonneg b); lia|]. intros. apply slice_mid.
Qed.

Lemma appends_bind {A B} (m : M Encoder A) (f : A -> M Encoder B) b1 b2 :
  appends m b1 -> (forall a, appends (f a) b2) -> appends (x ← m; f x) (b1 ++ b2).
Proof.
  intros Hm Hf e Hr. rewrite blen_app in Hr. destruct (Hm e) as (a & e1 & E1 & G1).
  { eapply room_le; [done|]. pose proof (blen_nonneg b2). lia. }
  destruct (Hf a e1) as (c & e2 & E2 & G2); [by eapply grown_room|].
  exists c, e2. rewrite (bind_done _ _ _ _ _ E1). split; [done|by eapply grown_trans].
Qed.

Lemma appends_string s : appends (AppendString s) (enc_string s).
Proof.
  destruct s as [|x s]; [apply appends_raw|]. unfold AppendString. rewrite ToRLPString_spec by done. apply appends_raw.
Qed.

Lemma appends_uint i : 0 <= i < 2 ^ 64 -> appends (AppendUint i) (enc_string (big_Bytes i)).
Proof.
  intros Hi. unfold AppendUint. destruct (Z.eqb_spec i 0) as [->|]; [apply appends_raw|].
  rewrite enc_string_uint by lia. destruct (i <? 128); apply appends_raw.
Qed.

Lemma appends_list {A} (m : M Encoder A) b :
  appends m b -> appends (start ← ListStart; _ ← m; ListEnd start) (enc_list b).
Proof.
  intros Hm e Hr. rewrite (bind_done _ _ _ _ _ (ListStart_started e)).
  destruct (Hm (started e)) as (a & e1 & E1 & G1).
  { apply started_room. eapply room_le; [done|]. unfold enc_list. rewrite blen_app, puthead_size.
    pose proof (headsize_bounds (blen b)). lia. }
  rewrite (bind_done _ _ _ _ _ E1). destruct (ListEnd_grown _ _ _ G1 Hr) as (e2 & E2 & G2 & _). eauto.
Qed.

Lemma appends_empty_list : appends (start ← ListStart; ListEnd start) (enc_list []).
Proof. intros e He. exact (appends_list (ret ()) [] (appends_ret ()) e He). Qed.

Lemma concat_opt_cons x l b :
  concat_opt (x :: l) = Some b <-> exists b1 b2, x = Some b1 /\ concat_opt l = Some b2 /\ b = b1 ++ b2.
Proof.
  change (concat_opt (x :: l)) with (x ≫= fun b => concat_opt l ≫= fun r => Some (b ++ r)).
  destruct x as [b1|], (concat_opt l) as [b2|]; simpl.
  1: by split; [intros [= <-]; eauto|intros (? & ? & [= <-] & [= <-] & ->)].
  all: by split; [|intros (? & ? & ? & ? & ?)].
Qed.

Lemma appends_each (f : val -> M Encoder ()) (enc : val -> option bytes) vs b :
  (forall v b, enc v = Some b -> appends (f v) b) ->
  concat_opt (enc <$> vs) = Some b -> appends (for_each f vs) b.
Proof.
  intros Hf. revert b. induction vs as [|v vs IH]; intros b.
  - intros [= <-]. apply appends_ret.
  - rewrite fmap_cons, concat_opt_cons. intros (b1 & b2 & E1 & E2 & ->). cbn [for_each].
    apply appends_bind; [by apply Hf|]. intros _. by apply IH.
Qed.

(** ** Every writer appends the encoding of its value *)
Lemma writer_appends :
  (forall t ts v b, encoding t ts v = Some b -> appends (writer t ts v) b) /\
  (forall fs vs b, encodings fs vs = Some b -> appends (write_fields fs vs) b).
Proof.
  apply typ_fields_ind.
  - intros bits ts [] b'; simpl; try done. destruct (_ && _) eqn:E; [|done]. intros [= <-]. zbool.
    apply appends_uint. split; [done|].
    pose proof (Z.pow_le_mono_r 2 (Z.min bits 64) 64). lia.
  - intros ts [] b'; simpl; try done. intros [= <-]. destruct b; apply appends_raw.
  - intros ts [] b'; simpl; try done. intros [= <-]. apply appends_string.
  - intros ts [] b'; simpl; try done. intros [= <-]. apply appends_string.
  - intros n ts [] b'; simpl; try done. case_match; [|done]. intros [= <-]. apply appends_string.
  - intros ts [| | |[i|]| | |] b'; simpl; try done; [|intros [= <-]; apply appends_raw].
    destruct (Z.ltb_spec i 0); [done|]. intros [= <-]. unfold AppendBigInt.
    destruct (Z.eqb_spec i 0) as [->|]; [apply appends_raw|].
    rewrite (proj2 (Z.ltb_lt 0 i)) by lia. apply appends_string.
  - intros ts [] b'; simpl; try done. intros [= <-]. apply appends_raw.
  - intros t IH ts [| | | |vs| |] b'; simpl; try done.
    destruct (concat_opt _) as [b0|] eqn:E; [|by destruct (tail ts)].
    assert (appends (for_each (writer t no_tags) vs) b0) by (eapply appends_each; [apply IH|done]).
    unfold makeSliceWriter. destruct (tail ts); intros [= <-]; [done|by apply appends_list].
  - intros n t IH ts [| | | |vs| |] b'; simpl; try done. case_match; [|done].
    destruct (concat_opt _) as [b0|] eqn:E; [|done]. intros [= <-].
    apply appends_list. eapply appends_each; [apply IH|done].
  - intros fs IH ts [| | | |vs| |] b'; simpl; try done.
    destruct (encodings fs vs) as [b0|] eqn:E; [|done]. intros [= <-]. by apply appends_list, IH.
  - intros t IH ts [| | | | | |v] b'; try (by destruct t); [|destruct t; exact (IH no_tags v b')].
    destruct t; try (lazymatch goal with |- encoding (TPtr ?u) _ _ = _ -> _ => exact (IH no_tags (zero u) b') end).
    1: intros [= <-]; apply appends_raw.
    all: intros [= <-]; exact appends_empty_list.
  - intros [] b; [|done]. intros [= <-]. apply appends_ret.
  - intros ts t IHt fs IHfs [|v vs] b; [done|]. simpl.
    destruct (encoding t ts v) as [b1|] eqn:E1; [|done]. simpl.
    destruct (encodings fs vs) as [b2|] eqn:E2; [|done]. simpl. intros [= <-].
    apply appends_bind; [by apply IHt|]. intros _. by apply IHfs.
Qed.

Lemma encoding_EncodeToBytes t v b :
  tags_ok t = true -> encoding t no_tags v = Some b -> blen b < 2 ^ 32 - 1 ->
  EncodeToBytes t v = inr (Some b).
Proof.
  intros Ht Hb Hlen. unfold EncodeToBytes, AppendAny. rewrite Ht.
  destruct (proj1 writer_appends t no_tags v b Hb Encoder_Reset) as (? & ? & E & s & hs & L & -> & _ & _ & Ho & Hseg).
  { split; simpl; [done|]. rewrite blen_nil. lia. }
  rewrite E. unfold Flush. cbn [str lheads Encoder_Reset app] in *. rewrite blen_nil, Z.add_0_l in *.
  rewrite Flush_loop_seg by done. rewrite <- (app_nil_r s) at 1. by rewrite Hseg.
Qed.

(** C40: For every type and value the encoder supports, up to 4 GiB, the
    two-phase encoder returns the recursively defined RLP encoding. *)
Theorem encode_reference t v b :
  tags_ok t = true -> encoding t no_tags v = Some b -> blen b < 2 ^ 32 - 1 ->
  EncodeToBytes t v = inr (Some b).
Proof. apply encoding_EncodeToBytes. Qed.

(** A transaction-like struct with a nil recipient and a nested list. *)
Definition ex_typ : typ :=
  TStruct (FCons no_tags (TUint 64) (FCons (mkTags true false) (TPtr (TByteArray 20))
    (FCons no_tags TBigInt (FCons no_tags (TSlice TBytes) FNil)))).
Definition ex_val : val :=
  VList [VUint 1024; VNil; VBig (Some 7); VList [VBytes [Byte.x7f]; VBytes (replicate 60 Byte.xff)]].

Lemma encode_reference_witness :
  exists b, encoding ex_typ no_tags ex_val = Some b /\ EncodeToBytes ex_typ ex_val = inr (Some b).
Proof.
  eexists. split; [vm_compute; reflexivity|].
  apply encode_reference; vm_compute; reflexivity.
Defined.
