(* ===== verification/RlpDecode.v ===== *)
(** * Decoding RLP streams: [rlp/decode.go]

    The [Stream] over a byte slice, its reading operations and the decoders
    [makeDecoder] chooses from a type.  Go's [error] is the [Fail] of the
    monad; the text of a [decodeError] is modelled without the names of types
    and fields.  A decoder builds the value it stores into a fresh variable.
    The loop over the elements of a slice takes fuel: one unit per element. *)
From S2P Require Import Prelude Bytes Rlp.
Local Open Scope string_scope.
Local Open Scope Z_scope.
Local Open Scope list_scope.

Record listpos := mkListpos { lp_pos : Z; lp_size : Z }.

(** [kind] is [None] where the code stores -1. *)
Record Stream := mkStream {
  input : bytes;
  remaining : Z;
  limited : bool;
  kind : option Kind;
  size : Z;
  byteval : Byte.byte;
  kinderr : option string;
  stack : list listpos;
}.

(** [NewStream] of a [bytes.Reader]: the limit is the length of the data. *)
Definition NewStream (b : bytes) : Stream := mkStream b (blen b) true None 0 Byte.x00 None [].

Definition set_input b s := mkStream b (remaining s) (limited s) (kind s) (size s) (byteval s) (kinderr s) (stack s).
Definition set_remaining r s := mkStream (input s) r (limited s) (kind s) (size s) (byteval s) (kinderr s) (stack s).
Definition set_kind k s := mkStream (input s) (remaining s) (limited s) k (size s) (byteval s) (kinderr s) (stack s).
Definition set_size n s := mkStream (input s) (remaining s) (limited s) (kind s) n (byteval s) (kinderr s) (stack s).
Definition set_byteval b s := mkStream (input s) (remaining s) (limited s) (kind s) (size s) b (kinderr s) (stack s).
Definition set_kinderr e s := mkStream (input s) (remaining s) (limited s) (kind s) (size s) (byteval s) e (stack s).
Definition set_stack st s := mkStream (input s) (remaining s) (limited s) (kind s) (size s) (byteval s) (kinderr s) st.

(** ** Reading bytes *)
Definition left_in (lp : listpos) : Z := u64 (lp_size lp - lp_pos lp).

Definition willRead (n : Z) : M Stream () :=
  _ ← modify_st (set_kind None);
  s ← get_st;
  _ ← (match stack s with
       | [] => ret tt
       | tos :: st =>
           if left_in tos <? n then throw ErrElemTooLarge
           else modify_st (set_stack (mkListpos (u64 (lp_pos tos + n)) (lp_size tos) :: st))
       end);
  if limited s then
    if remaining s <? n then throw ErrValueTooLarge
    else modify_st (set_remaining (remaining s - n))
  else ret tt.

Definition readFull (n : Z) : M Stream bytes :=
  _ ← willRead n;
  s ← get_st;
  _ ← modify_st (set_input (drop (Z.to_nat n) (input s)));
  if blen (input s) <? n then throw ErrUnexpectedEOF
  else ret (take (Z.to_nat n) (input s)).

Definition readByte : M Stream Byte.byte :=
  _ ← willRead 1;
  s ← get_st;
  match input s with
  | [] => throw ErrUnexpectedEOF
  | b :: rest => _ ← modify_st (set_input rest); ret b
  end.

Definition readUint (size : Z) : M Stream Z :=
  if size =? 0 then _ ← modify_st (set_kind None); ret 0
  else if size =? 1 then b ← readByte; ret (Z_of_byte b)
  else if 8 <? size then panic "slice bounds out of range"
  else b ← readFull size;
       if bool_decide (head b = Some Byte.x00) then throw ErrCanonSize else ret (be_to_uint b).

(** ** Kinds *)
Definition read_long (k : Kind) (slen : Z) : M Stream (Kind * Z * option string) :=
  r ← attempt (readUint slen);
  match r with
  | inl err => ret (k, 0, Some err)
  | inr size => ret (k, size, if size <? 56 then Some ErrCanonSize else None)
  end.

Definition readKind : M Stream (Kind * Z * option string) :=
  r ← attempt readByte;
  match r with
  | inl err =>
      s ← get_st;
      let err := match stack s with
                 | [] => if String.eqb err ErrUnexpectedEOF || String.eqb err ErrValueTooLarge then ErrEOF else err
                 | _ => err
                 end in
      ret (KByte, 0, Some err)
  | inr b0 =>
      _ ← modify_st (set_byteval Byte.x00);
      let b := Z_of_byte b0 in
      if b <? 128 then _ ← modify_st (set_byteval b0); ret (KByte, 0, None)
      else if b <? 184 then ret (KString, b - 128, None)
      else if b <? 192 then read_long KString (b - 183)
      else if b <? 248 then ret (KList, b - 192, None)
      else read_long KList (b - 247)
  end.

(** [Stream.Kind]: the kind and size of the next value, cached until it is
    read. *)
Definition next_kind : M Stream (Kind * Z) :=
  s ← get_st;
  _ ← (match kind s with
       | Some _ => ret tt
       | None =>
           _ ← modify_st (set_kinderr None);
           if match stack s with [] => false | tos :: _ => lp_pos tos =? lp_size tos end then throw EOL else
           '(k, size, err) ← readKind;
           s ← get_st;
           let err := match err with
                      | Some e => Some e
                      | None =>
                          match stack s with
                          | [] => if limited s && (remaining s <? size) then Some ErrValueTooLarge else None
                          | tos :: _ => if left_in tos <? size then Some ErrElemTooLarge else None
                          end
                      end in
           modify_st (fun s => set_kinderr err (set_size size (set_kind (Some k) s)))
       end);
  s ← get_st;
  match kinderr s with
  | Some err => throw err
  | None => ret (default KByte (kind s), size s)
  end.

Definition rearm : M Stream () := modify_st (set_kind None).

(** ** Values *)
Definition stream_Bytes : M Stream bytes :=
  '(k, size) ← next_kind;
  match k with
  | KByte => s ← get_st; _ ← rearm; ret [byteval s]
  | KString =>
      b ← readFull size;
      if (size =? 1) && (Z_of_byte (default Byte.x00 (head b)) <? 128) then throw ErrCanonSize else ret b
  | KList => throw ErrExpectedString
  end.

Definition stream_Raw : M Stream bytes :=
  '(k, size) ← next_kind;
  match k with
  | KByte => s ← get_st; _ ← rearm; ret [byteval s]
  | KString => b ← readFull size; ret (puthead 128 183 size ++ b)
  | KList => b ← readFull size; ret (puthead 192 247 size ++ b)
  end.

Definition stream_uint (maxbits : Z) : M Stream Z :=
  '(k, size) ← next_kind;
  match k with
  | KByte =>
      s ← get_st;
      if bool_decide (byteval s = Byte.x00) then throw ErrCanonInt
      else _ ← rearm; ret (Z_of_byte (byteval s))
  | KString =>
      if maxbits / 8 <? size then throw errUintOverflow else
      r ← attempt (readUint size);
      match r with
      | inl err => if String.eqb err ErrCanonSize then throw ErrCanonInt else throw err
      | inr v => if (0 <? size) && (v <? 128) then throw ErrCanonSize else ret v
      end
  | KList => throw ErrExpectedString
  end.

Definition stream_Bool : M Stream bool :=
  num ← stream_uint 8;
  if num =? 0 then ret false else if num =? 1 then ret true else throw "rlp: invalid boolean value".

Definition stream_List : M Stream Z :=
  '(k, n) ← next_kind;
  match k with
  | KList =>
      _ ← modify_st (fun s => set_size 0 (set_kind None (set_stack (mkListpos 0 n :: stack s) s)));
      ret n
  | _ => throw ErrExpectedList
  end.

Definition stream_ListEnd : M Stream () :=
  s ← get_st;
  match stack s with
  | [] => throw errNotInList
  | tos :: st =>
      if negb (lp_pos tos =? lp_size tos) then throw errNotAtEOL else
      let st := match st with
                | [] => []
                | up :: st => mkListpos (u64 (lp_pos up + lp_size tos)) (lp_size up) :: st
                end in
      modify_st (fun s => set_size 0 (set_kind None (set_stack st s)))
  end.

(** ** Decoders *)
Definition wrapStreamError (err : string) : string :=
  if String.eqb err ErrCanonInt then "rlp: non-canonical integer (leading zero bytes)"
  else if String.eqb err ErrCanonSize then "rlp: non-canonical size information"
  else if String.eqb err ErrExpectedList then "rlp: expected input list"
  else if String.eqb err ErrExpectedString then "rlp: expected input string or byte"
  else if String.eqb err errUintOverflow then "rlp: input string too long"
  else if String.eqb err errNotAtEOL then "rlp: input list has too many elements"
  else err.

Definition wrap {A} (m : M Stream A) : M Stream A :=
  r ← attempt m; match r with inl err => throw (wrapStreamError err) | inr a => ret a end.

Definition decodeRawValue : M Stream val := b ← stream_Raw; ret (VBytes b).
Definition decodeUint (bits : Z) : M Stream val := num ← wrap (stream_uint bits); ret (VUint num).
Definition decodeBool : M Stream val := b ← wrap stream_Bool; ret (VBool b).
Definition decodeString : M Stream val := b ← wrap stream_Bytes; ret (VBytes b).
Definition decodeByteSlice : M Stream val := b ← wrap stream_Bytes; ret (VBytes b).

Definition decodeBigInt : M Stream val :=
  b ← wrap stream_Bytes;
  if bool_decide (head b = Some Byte.x00) then throw (wrapStreamError ErrCanonInt)
  else ret (VBig (Some (big_SetBytes b))).

(** [decodeByteArray].  A zero byte is stored, but [Uint], whose error is
    ignored, has not rearmed the stream. *)
Definition decodeByteArray (vlen : Z) : M Stream val :=
  '(k, size) ← next_kind;
  match k with
  | KByte =>
      if vlen =? 0 then throw "rlp: input string too long"
      else if 1 <? vlen then throw "rlp: input string too short"
      else r ← attempt (stream_uint 64);
           ret (VBytes [match r with inl _ => Byte.x00 | inr bv => byte_of_Z bv end])
  | KString =>
      if vlen <? size then throw "rlp: input string too long"
      else if size <? vlen then throw "rlp: input string too short"
      else b ← readFull vlen;
           if (size =? 1) && (Z_of_byte (default Byte.x00 (head b)) <? 128) then throw (wrapStreamError ErrCanonSize)
           else ret (VBytes b)
  | KList => throw (wrapStreamError ErrExpectedString)
  end.

Definition out_of_fuel : string := "out of fuel".

Fixpoint decodeSliceElems (fuel : nat) (elemdec : M Stream val) : M Stream (list val) :=
  match fuel with
  | O => panic out_of_fuel
  | S fuel =>
      r ← attempt elemdec;
      match r with
      | inl err => if String.eqb err EOL then ret [] else throw err
      | inr v => vs ← decodeSliceElems fuel elemdec; ret (v :: vs)
      end
  end.

Definition decodeListSlice (fuel : nat) (elemdec : M Stream val) : M Stream val :=
  size ← wrap stream_List;
  if size =? 0 then _ ← stream_ListEnd; ret (VList [])
  else vs ← decodeSliceElems fuel elemdec; _ ← stream_ListEnd; ret (VList vs).

Fixpoint decode_array_elems (vlen : nat) (elemdec : M Stream val) : M Stream (list val) :=
  match vlen with
  | O => ret []
  | S vlen =>
      r ← attempt elemdec;
      match r with
      | inl err => throw (if String.eqb err EOL then "rlp: input list has too few elements" else err)
      | inr v => vs ← decode_array_elems vlen elemdec; ret (v :: vs)
      end
  end.

Definition decodeListArray (vlen : nat) (elemdec : M Stream val) : M Stream val :=
  _ ← wrap stream_List;
  vs ← decode_array_elems vlen elemdec;
  _ ← wrap stream_ListEnd;
  ret (VList vs).

Definition makeStructDecoder (decode_fields : M Stream (list val)) : M Stream val :=
  _ ← wrap stream_List;
  vs ← decode_fields;
  _ ← wrap stream_ListEnd;
  ret (VList vs).

Definition makePtrDecoder (etype_decoder : M Stream val) : M Stream val := v ← etype_decoder; ret (VPtr v).

(** For fields tagged [nil]. *)
Definition makeOptionalPtrDecoder (etype_decoder : M Stream val) : M Stream val :=
  r ← attempt next_kind;
  match r with
  | inl err => _ ← rearm; throw err
  | inr (k, size) =>
      if (size =? 0) && negb (bool_decide (k = KByte)) then _ ← rearm; ret VNil
      else v ← etype_decoder; ret (VPtr v)
  end.

(** The decoder [makeDecoder] chooses for a type. *)
Fixpoint decoder (fuel : nat) (t : typ) (ts : tags) {struct t} : M Stream val :=
  match t with
  | TRaw => decodeRawValue
  | TBigInt => decodeBigInt
  | TUint bits => decodeUint bits
  | TBool => decodeBool
  | TString => decodeString
  | TBytes => decodeByteSlice
  | TByteArray n => decodeByteArray (Z.of_nat n)
  | TSlice t =>
      if tail ts then vs ← decodeSliceElems fuel (decoder fuel t no_tags); ret (VList vs)
      else decodeListSlice fuel (decoder fuel t no_tags)
  | TArray n t => decodeListArray n (decoder fuel t no_tags)
  | TStruct fs => makeStructDecoder (decode_fields fuel fs)
  | TPtr t =>
      if nilOK ts then makeOptionalPtrDecoder (decoder fuel t no_tags)
      else makePtrDecoder (decoder fuel t no_tags)
  end
with decode_fields (fuel : nat) (fs : fields) {struct fs} : M Stream (list val) :=
  match fs with
  | FNil => ret []
  | FCons ts t fs' =>
      r ← attempt (decoder fuel t ts);
      match r with
      | inl err => throw (if String.eqb err EOL then "rlp: too few elements" else err)
      | inr v => vs ← decode_fields fuel fs'; ret (v :: vs)
      end
  end.

(** [DecodeBytes] into a variable of type [t]. *)
Definition DecodeBytes_fuel (fuel : nat) (t : typ) (b : bytes) : outcome Stream val :=
  (if tags_ok t then
     v ← decoder fuel t no_tags;
     s ← get_st;
     match input s with [] => ret v | _ => throw ErrMoreThanOneValue end
   else throw "rlp: invalid struct tag") (NewStream b).

Definition DecodeBytes (t : typ) (b : bytes) : outcome Stream val := DecodeBytes_fuel (S (length b)) t b.
