(* ===== verification/RlpRoundtrip.v ===== *)
(** * Decoding what was encoded

    [reads m a b]: in front of the bytes [b], whatever follows them, [m]
    consumes exactly [b] and returns [a].  Every decoder reads the encoding
    of a value of its type as this value, and [Split] cuts off exactly one
    canonical encoding. *)
From S2P Require Import Prelude Bytes Rlp RlpEncode RlpDecode.

(** ** Positions *)
Definition bump (n : Z) (st : list listpos) : list listpos :=
  match st with [] => [] | tos :: st => mkListpos (lp_pos tos + n) (lp_size tos) :: st end.

(** The [n] bytes in front fit the limit and the innermost list. *)
Definition room_for (s : Stream) (n : Z) : Prop :=
  0 <= n /\ (limited s = true -> n <= remaining s) /\
  match stack s with [] => True | tos :: _ => 0 <= lp_pos tos /\ lp_pos tos + n <= lp_size tos < 2 ^ 64 end.

Definition moved (n : Z) (rest : bytes) (s s' : Stream) : Prop :=
  input s' = rest /\ limited s' = limited s /\ (limited s = true -> remaining s' = remaining s - n) /\
  stack s' = bump n (stack s).

Lemma bump_0 st : bump 0 st = st.
Proof. destruct st as [|[p n] st]; simpl; [done|]. by rewrite Z.add_0_r. Qed.

Lemma bump_bump m n st : bump n (bump m st) = bump (m + n) st.
Proof. destruct st as [|[p z] st]; simpl; [done|]. by rewrite Z.add_assoc. Qed.

Lemma moved_trans m n r r' s s' s'' : moved m r s s' -> moved n r' s' s'' -> moved (m + n) r' s s''.
Proof.
  intros (_&Hl&Hr&Hst) (Hi&Hl'&Hr'&Hst'). split_and!; [done|congruence| |].
  - intros Hlim. rewrite Hr', Hr by congruence. lia.
  - by rewrite Hst', Hst, bump_bump.
Qed.

Lemma room_for_le s m n : room_for s n -> 0 <= m <= n -> room_for s m.
Proof.
  intros (?&Hl&Hst) ?. split_and!; [lia|intros Hlim; specialize (Hl Hlim); lia|]. destruct (stack s); [done|lia].
Qed.

Lemma room_for_moved s s' m n r : room_for s (m + n) -> 0 <= m -> 0 <= n -> moved m r s s' -> room_for s' n.
Proof.
  intros (?&Hl&Hst) ? ? (_&Hl'&Hr'&Hst'). split_and!; [done| |].
  - intros Hlim. rewrite Hl' in Hlim. rewrite (Hr' Hlim). specialize (Hl Hlim). lia.
  - rewrite Hst'. destruct (stack s); [done|]. simpl. lia.
Qed.

Definition reads {A} (m : M Stream A) (a : A) (b : bytes) : Prop := forall s rest,
  kind s = None -> room_for s (blen b) -> input s = b ++ rest ->
  exists s', m s = Done a s' /\ kind s' = None /\ moved (blen b) rest s s'.

Lemma attempt_done {St A} (m : M St A) s a s' : m s = Done a s' -> attempt m s = Done (inr a) s'.
Proof. unfold attempt. by intros ->. Qed.

Lemma attempt_fail {St A} (m : M St A) s e s' : m s = Fail e s' -> attempt m s = Done (inl e) s'.
Proof. unfold attempt. by intros ->. Qed.

Lemma wrap_done {A} (m : M Stream A) s a s' : m s = Done a s' -> wrap m s = Done a s'.
Proof. intros E. unfold wrap. by rewrite (bind_done _ _ _ _ _ (attempt_done _ _ _ _ E)). Qed.

Lemma reads_map {A B} (m : M Stream A) (f : A -> B) a b : reads m a b -> reads (x ← m; ret (f x)) (f a) b.
Proof.
  intros Hm s rest Hk Hr Hi. destruct (Hm s rest Hk Hr Hi) as (s' & E & ?).
  exists s'. by rewrite (bind_done _ _ _ _ _ E).
Qed.

Lemma reads_wrap {A} (m : M Stream A) a b : reads m a b -> reads (wrap m) a b.
Proof.
  intros Hm s rest Hk Hr Hi. destruct (Hm s rest Hk Hr Hi) as (s' & E & ?). exists s'. by rewrite (wrap_done _ _ _ _ E).
Qed.

(** ** Bytes *)
Lemma willRead_done s n :
  room_for s n -> exists s', willRead n s = Done tt s' /\ kind s' = None /\ byteval s' = byteval s /\
    kinderr s' = kinderr s /\ moved n (input s) s s'.
Proof.
  intros (Hn & Hl & Hst). unfold willRead, bindM, modify_st, get_st, ret, throw. simpl.
  destruct s as [inp rem lim k sz bv ke st]; simpl in *.
  destruct st as [|[p z] st]; simpl in *.
  - destruct lim; simpl; [rewrite (proj2 (Z.ltb_ge rem n)) by auto|]; (eexists; split; [reflexivity|]); by split_and!.
  - unfold left_in. simpl. rewrite (u64_small (z - p)), (proj2 (Z.ltb_ge _ n)), (u64_small (p + n)) by lia. simpl.
    destruct lim; simpl; [rewrite (proj2 (Z.ltb_ge rem n)) by auto|]; (eexists; split; [reflexivity|]); by split_and!.
Qed.

Lemma readFull_done s b rest :
  room_for s (blen b) -> input s = b ++ rest ->
  exists s', readFull (blen b) s = Done b s' /\ kind s' = None /\ moved (blen b) rest s s'.
Proof.
  intros Hr Hi. destruct (willRead_done s (blen b) Hr) as (s1 & E & Hk & _ & _ & Hm).
  unfold readFull. rewrite (bind_done _ _ _ _ _ E). unfold bindM, get_st, modify_st, ret, throw.
  destruct Hm as (Hi1 & ?). rewrite Hi1, Hi.
  rewrite (proj2 (Z.ltb_ge _ _)) by (rewrite blen_app; pose proof (blen_nonneg rest); lia).
  unfold blen. rewrite Nat2Z.id, drop_app_length, take_app_length.
  eexists. split; [reflexivity|]. split; [done|]. by split.
Qed.

Lemma readByte_done s x rest :
  room_for s 1 -> input s = x :: rest ->
  exists s', readByte s = Done x s' /\ kind s' = None /\ moved 1 rest s s'.
Proof.
  intros Hr Hi. destruct (willRead_done s 1 Hr) as (s1 & E & Hk & Hb & He & Hm).
  unfold readByte. rewrite (bind_done _ _ _ _ _ E). unfold bindM, get_st, modify_st, ret, throw.
  destruct Hm as (Hi1 & ?). rewrite Hi1, Hi. eexists. split; [reflexivity|]. split; [done|]. by split.
Qed.

(** ** Sizes *)
Lemma SizeInBytes_lower i : 1 <= i < 2 ^ 64 -> 2 ^ (8 * (Z.of_nat (SizeInBytes i) - 1)) <= i.
Proof. intros. unfold SizeInBytes. repeat case_match; zbool; simpl; lia. Qed.

Lemma head_uint_to_be i : 1 <= i < 2 ^ 64 -> head (uint_to_be (SizeInBytes i) i) <> Some Byte.x00.
Proof.
  intros Hi. pose proof (SizeInBytes_range i) as Hn. pose proof (SizeInBytes_lower i Hi) as Hlo.
  pose proof (SizeInBytes_bound i ltac:(lia)) as Hup.
  destruct (SizeInBytes i) as [|n]; [lia|]. unfold uint_to_be. simpl.
  replace (n - 0 - 0)%nat with n by lia. intros [= E]. apply (f_equal Z_of_byte) in E.
  replace (8 * (Z.of_nat (S n) - 1)) with (8 * Z.of_nat n) in Hlo by lia.
  replace (8 * Z.of_nat (S n)) with (8 * Z.of_nat n + 8) in Hup by lia. rewrite Z.pow_add_r in Hup by lia.
  rewrite Z_of_byte_of_Z, Z.shiftr_div_pow2 in E by lia. change (Z_of_byte Byte.x00) with 0 in E.
  assert (1 <= i / 2 ^ (8 * Z.of_nat n) < 256).
  { split; [apply Z.div_le_lower_bound; lia|apply Z.div_lt_upper_bound; lia]. }
  rewrite Z.mod_small in E by lia. lia.
Qed.

Lemma be_uint_to_be i : 0 <= i < 2 ^ 64 -> be_to_uint (uint_to_be (SizeInBytes i) i) = i.
Proof. intros Hi. rewrite be_roundtrip. apply Z.mod_small. pose proof (SizeInBytes_bound i Hi). lia. Qed.

Lemma be_to_uint_1 x : be_to_uint [x] = Z_of_byte x.
Proof. unfold be_to_uint. simpl. by rewrite Z.shiftl_0_l, Z.lor_0_l. Qed.

Lemma readUint_done s i rest :
  1 <= i < 2 ^ 64 -> room_for s (Z.of_nat (SizeInBytes i)) -> input s = uint_to_be (SizeInBytes i) i ++ rest ->
  exists s', readUint (Z.of_nat (SizeInBytes i)) s = Done i s' /\ kind s' = None /\ moved (Z.of_nat (SizeInBytes i)) rest s s'.
Proof.
  intros Hi Hr Hin. pose proof (SizeInBytes_range i) as Hn. unfold readUint.
  rewrite (proj2 (Z.eqb_neq _ 0)) by lia. destruct (Z.eqb_spec (Z.of_nat (SizeInBytes i)) 1) as [H1|H1].
  - assert (SizeInBytes i = 1%nat) as E by lia. rewrite E in *. pose proof (be_uint_to_be i ltac:(lia)) as Hb. rewrite E in Hb.
    pose proof (length_uint_to_be 1 i) as Hl.
    destruct (uint_to_be 1 i) as [|x [|y l]]; [done| |done]. rewrite be_to_uint_1 in Hb.
    destruct (readByte_done s x rest Hr Hin) as (s' & Er & Hk & Hm). exists s'. by rewrite (bind_done _ _ _ _ _ Er), Hb.
  - rewrite (proj2 (Z.ltb_ge 8 _)) by lia.
    assert (blen (uint_to_be (SizeInBytes i) i) = Z.of_nat (SizeInBytes i)) as Hl by (unfold blen; by rewrite length_uint_to_be).
    rewrite <- Hl in *. destruct (readFull_done s _ rest Hr Hin) as (s' & Er & Hk & Hm). exists s'.
    rewrite (bind_done _ _ _ _ _ Er), bool_decide_false by (apply head_uint_to_be; lia).
    by rewrite be_uint_to_be by lia.
Qed.

(** ** Kinds *)
Lemma next_kind_unread s n :
  kind s = None -> 0 < n -> room_for s n ->
  next_kind s =
    ('(k, size, err) ← readKind;
     s ← get_st;
     let err := match err with
                | Some e => Some e
                | None =>
                    match stack s with
                    | [] => if limited s && (remaining s <? size) then Some ErrValueTooLarge else None
                    | tos :: _ => if left_in tos <? size then Some ErrElemTooLarge else None
                    end
                end in
     _ ← modify_st (fun s => set_kinderr err (set_size size (set_kind (Some k) s)));
     match err with Some err => throw err | None => ret (k, size) end) (set_kinderr None s).
Proof.
  intros Hk Hn (_ & _ & Hst). unfold next_kind, bindM at 1, get_st at 1. rewrite Hk.
  assert (match stack s with [] => false | tos :: _ => lp_pos tos =? lp_size tos end = false) as ->.
  { destruct (stack s); [done|]. apply Z.eqb_neq. lia. }
  unfold bindM, modify_st, get_st. destruct (readKind _) as [[[k size] err] s1| |]; [|done..]. simpl.
  by destruct (match err with Some _ => _ | None => _ end).
Qed.

Lemma readKind_byte s x rest :
  room_for s 1 -> input s = x :: rest -> Z_of_byte x < 128 ->
  exists s', readKind s = Done (KByte, 0, None) s' /\ byteval s' = x /\ moved 1 rest s s'.
Proof.
  intros Hr Hi Hx. destruct (readByte_done s x rest Hr Hi) as (s1 & E & _ & Hm).
  unfold readKind. rewrite (bind_done _ _ _ _ _ (attempt_done _ _ _ _ E)).
  unfold bindM, modify_st, ret. simpl. rewrite (proj2 (Z.ltb_lt _ 128)) by done.
  eexists. split; [reflexivity|]. split; [done|]. destruct Hm as (?&?&?&?). by split_and!.
Qed.

(** The two families of headers. *)
Definition header (k : Kind) (n : Z) : bytes :=
  match k with KList => puthead 192 247 n | _ => puthead 128 183 n end.

Lemma readKind_header s k n rest :
  k <> KByte -> 0 <= n < 2 ^ 64 -> room_for s (headsize n) -> input s = header k n ++ rest ->
  exists s', readKind s = Done (k, n, None) s' /\ moved (headsize n) rest s s'.
Proof.
  intros Hk Hn Hr Hi. unfold headsize in *.
  destruct (Z.ltb_spec n 56) as [Hs|Hs].
  - assert (exists x, header k n = [x] /\ Z_of_byte x = n + match k with KList => 192 | _ => 128 end) as (x & Eh & Hx).
    { unfold header, puthead. rewrite (proj2 (Z.ltb_lt n 56)) by lia.
      destruct k; [done|..]; (eexists; split; [reflexivity|]); rewrite byte_small; lia. }
    rewrite Eh in Hi. destruct (readByte_done s x rest Hr Hi) as (s1 & E & _ & Hm).
    unfold readKind. rewrite (bind_done _ _ _ _ _ (attempt_done _ _ _ _ E)).
    unfold bindM, modify_st, ret. simpl. rewrite Hx.
    destruct Hm as (?&?&?&?).
    exists (set_byteval Byte.x00 s1). split; [|by split_and!]. destruct k; [done|..].
    + rewrite (proj2 (Z.ltb_ge _ 128)), (proj2 (Z.ltb_lt _ 184)) by lia.
      by replace (n + 128 - 128) with n by lia.
    + rewrite (proj2 (Z.ltb_ge _ 128)), (proj2 (Z.ltb_ge _ 184)), (proj2 (Z.ltb_ge _ 192)), (proj2 (Z.ltb_lt _ 248)) by lia.
      by replace (n + 192 - 192) with n by lia.
  - pose proof (SizeInBytes_range n) as Hsz. set (z := SizeInBytes n) in *.
    assert (exists x, header k n = x :: uint_to_be z n /\ Z_of_byte x = Z.of_nat z + match k with KList => 247 | _ => 183 end) as (x & Eh & Hx).
    { unfold header, puthead. rewrite (proj2 (Z.ltb_ge n 56)), !putint_size by lia.
      destruct k; [done|..]; (eexists; split; [reflexivity|]); rewrite byte_small; unfold z in *; lia. }
    rewrite Eh in Hi. simpl in Hi.
    destruct (readByte_done s x (uint_to_be z n ++ rest)) as (s1 & E & _ & Hm1); [eapply room_for_le; [done|lia]|done|].
    destruct (readUint_done (set_byteval Byte.x00 s1) n rest) as (s2 & E2 & _ & Hm2);
      [lia|by eapply (room_for_moved _ s1 1); [|lia|lia|exact Hm1]|by destruct Hm1 as (?&_)|].
    exists s2. split; [|eapply moved_trans; [exact Hm1|]; destruct Hm2 as (?&?&?&?); by split_and!].
    unfold readKind. rewrite (bind_done _ _ _ _ _ (attempt_done _ _ _ _ E)).
    unfold bindM at 1, modify_st at 1. rewrite Hx.
    assert (forall k, read_long k (Z.of_nat z) (set_byteval Byte.x00 s1) = Done (k, n, None) s2) as Hl.
    { intros k'. unfold read_long. rewrite (bind_done _ _ _ _ _ (attempt_done _ _ _ _ E2)).
      by rewrite (proj2 (Z.ltb_ge n 56)) by lia. }
    destruct k; [done|..].
    + rewrite (proj2 (Z.ltb_ge _ 128)), (proj2 (Z.ltb_ge _ 184)), (proj2 (Z.ltb_lt _ 192)) by lia.
      replace (Z.of_nat z + 183 - 183) with (Z.of_nat z) by lia. apply Hl.
    + rewrite (proj2 (Z.ltb_ge _ 128)), (proj2 (Z.ltb_ge _ 184)), (proj2 (Z.ltb_ge _ 192)), (proj2 (Z.ltb_ge _ 248)) by lia.
      replace (Z.of_nat z + 247 - 247) with (Z.of_nat z) by lia. apply Hl.
Qed.

Lemma next_kind_byte s x rest :
  kind s = None -> room_for s 1 -> input s = x :: rest -> Z_of_byte x < 128 ->
  exists s', next_kind s = Done (KByte, 0) s' /\ kind s' = Some KByte /\ kinderr s' = None /\ size s' = 0 /\
    byteval s' = x /\ moved 1 rest s s'.
Proof.
  intros Hk Hr Hi Hx. rewrite (next_kind_unread s 1) by (done || lia).
  destruct (readKind_byte (set_kinderr None s) x rest Hr Hi Hx) as (s1 & E & Hb & Hm).
  assert (room_for s1 0) as (_ & Hl & Hst).
  { apply (room_for_moved (set_kinderr None s) s1 1 0 rest); [by rewrite Z.add_0_r|lia..|done]. }
  rewrite (bind_done _ _ _ _ _ E). unfold bindM, get_st, modify_st.
  assert (match stack s1 with [] => if limited s1 && (remaining s1 <? 0) then Some ErrValueTooLarge else None
          | tos :: _ => if left_in tos <? 0 then Some ErrElemTooLarge else None end = None) as ->.
  { destruct (stack s1) as [|tos st].
    - destruct (limited s1); [|done]. simpl. by rewrite (proj2 (Z.ltb_ge _ 0)) by auto.
    - unfold left_in. rewrite u64_small, (proj2 (Z.ltb_ge _ 0)) by lia. done. }
  eexists. split; [reflexivity|]. destruct Hm as (?&?&?&?). by split_and!.
Qed.

Lemma next_kind_header s k n rest :
  kind s = None -> k <> KByte -> 0 <= n < 2 ^ 64 -> room_for s (headsize n + n) -> input s = header k n ++ rest ->
  exists s', next_kind s = Done (k, n) s' /\ kind s' = Some k /\ kinderr s' = None /\ size s' = n /\
    moved (headsize n) rest s s'.
Proof.
  intros Hk Hkb Hn Hr Hi. pose proof (headsize_bounds n).
  rewrite (next_kind_unread s (headsize n + n)) by (done || lia).
  destruct (readKind_header (set_kinderr None s) k n rest Hkb Hn) as (s1 & E & Hm); [by apply (room_for_le _ _ (headsize n + n)); [|lia]|done|].
  assert (room_for s1 n) as (_ & Hl & Hst) by (by apply (room_for_moved _ s1 (headsize n) n rest Hr); [lia..|]).
  rewrite (bind_done _ _ _ _ _ E). unfold bindM, get_st, modify_st.
  assert (match stack s1 with [] => if limited s1 && (remaining s1 <? n) then Some ErrValueTooLarge else None
          | tos :: _ => if left_in tos <? n then Some ErrElemTooLarge else None end = None) as ->.
  { destruct (stack s1) as [|tos st].
    - destruct (limited s1); [|done]. simpl. by rewrite (proj2 (Z.ltb_ge _ n)) by auto.
    - unfold left_in. rewrite u64_small, (proj2 (Z.ltb_ge _ n)) by lia. done. }
  eexists. split; [reflexivity|]. destruct Hm as (?&?&?&?). by split_and!.
Qed.

Lemma next_kind_again s k : kind s = Some k -> kinderr s = None -> next_kind s = Done (k, size s) s.
Proof. intros Hk He. unfold next_kind, bindM, get_st, ret. by rewrite Hk, He, Hk. Qed.

(** ** Strings *)
Lemma enc_string_cases s :
  (exists x, s = [x] /\ Z_of_byte x < 128 /\ enc_string s = [x]) \/
  ((blen s =? 1) && (Z_of_byte (default Byte.x00 (head s)) <? 128) = false /\ enc_string s = header KString (blen s) ++ s).
Proof.
  destruct s as [|x [|y s]]; [by right| |].
  - simpl. destruct (Z.ltb_spec (Z_of_byte x) 128); [left; eauto|by right].
  - right. split; [|done]. apply andb_false_intro1, Z.eqb_neq. rewrite !blen_cons. pose proof (blen_nonneg s). lia.
Qed.

Lemma blen_header k n : blen (header k n) = headsize n.
Proof. destruct k; apply puthead_size. Qed.

(** After the header of a string its bytes are read. *)
Lemma body_done s s1 k n b rest :
  room_for s (headsize n + n) -> blen b = n -> moved (headsize n) (b ++ rest) s s1 -> input s = header k n ++ b ++ rest ->
  exists s', readFull n s1 = Done b s' /\ kind s' = None /\ moved (headsize n + n) rest s s'.
Proof.
  intros Hr <- Hm Hi. pose proof (headsize_bounds (blen b)). pose proof (blen_nonneg b).
  destruct (readFull_done s1 b rest) as (s' & E & Hk & Hm'); [by apply (room_for_moved _ s1 (headsize (blen b)) (blen b) (b ++ rest) Hr); [lia..|exact Hm]|by destruct Hm|].
  exists s'. split; [done|]. split; [done|]. by eapply moved_trans.
Qed.

Lemma reads_Bytes s : blen s < 2 ^ 64 -> reads stream_Bytes s (enc_string s).
Proof.
  intros Hs st rest Hk Hr Hi. pose proof (blen_nonneg s).
  destruct (enc_string_cases s) as [(x & -> & Hx & E)|[Hc E]]; rewrite E in *.
  - destruct (next_kind_byte st x rest Hk Hr Hi Hx) as (s1 & En & _ & _ & _ & Hb & Hm).
    unfold stream_Bytes. rewrite (bind_done _ _ _ _ _ En). unfold bindM, get_st, rearm, modify_st, ret. rewrite Hb.
    eexists. split; [reflexivity|]. split; [done|]. destruct Hm as (?&?&?&?). by split_and!.
  - rewrite blen_app, blen_header in *. rewrite <- app_assoc in Hi.
    destruct (next_kind_header st KString (blen s) (s ++ rest)) as (s1 & En & _ & _ & _ & Hm); [done..|].
    destruct (body_done st s1 KString _ s rest Hr eq_refl Hm Hi) as (s' & Ef & Hk' & Hm').
    exists s'. unfold stream_Bytes. rewrite (bind_done _ _ _ _ _ En), (bind_done _ _ _ _ _ Ef). by rewrite Hc.
Qed.

Lemma reads_Raw_string s : blen s < 2 ^ 64 -> reads stream_Raw (enc_string s) (enc_string s).
Proof.
  intros Hs st rest Hk Hr Hi. pose proof (blen_nonneg s).
  destruct (enc_string_cases s) as [(x & -> & Hx & E)|[Hc E]]; rewrite E in *.
  - destruct (next_kind_byte st x rest Hk Hr Hi Hx) as (s1 & En & _ & _ & _ & Hb & Hm).
    unfold stream_Raw. rewrite (bind_done _ _ _ _ _ En). unfold bindM, get_st, rearm, modify_st, ret. rewrite Hb.
    eexists. split; [reflexivity|]. split; [done|]. destruct Hm as (?&?&?&?). by split_and!.
  - rewrite blen_app, blen_header in *. rewrite <- app_assoc in Hi.
    destruct (next_kind_header st KString (blen s) (s ++ rest)) as (s1 & En & _ & _ & _ & Hm); [done..|].
    destruct (body_done st s1 KString _ s rest Hr eq_refl Hm Hi) as (s' & Ef & Hk' & Hm').
    exists s'. unfold stream_Raw. by rewrite (bind_done _ _ _ _ _ En), (bind_done _ _ _ _ _ Ef).
Qed.

Lemma reads_Raw_list s : blen s < 2 ^ 64 -> reads stream_Raw (enc_list s) (enc_list s).
Proof.
  intros Hs st rest Hk Hr Hi. pose proof (blen_nonneg s). unfold enc_list in *.
  change (puthead 192 247 (blen s)) with (header KList (blen s)) in *.
  rewrite blen_app, blen_header in *. rewrite <- app_assoc in Hi.
  destruct (next_kind_header st KList (blen s) (s ++ rest)) as (s1 & En & _ & _ & _ & Hm); [done..|].
  destruct (body_done st s1 KList _ s rest Hr eq_refl Hm Hi) as (s' & Ef & Hk' & Hm').
  exists s'. unfold stream_Raw. by rewrite (bind_done _ _ _ _ _ En), (bind_done _ _ _ _ _ Ef).
Qed.

(** ** Integers *)
Lemma blen_big_Bytes i : 1 <= i < 2 ^ 64 -> blen (big_Bytes i) = Z.of_nat (SizeInBytes i).
Proof. intros. rewrite big_Bytes_compact by lia. unfold blen. by rewrite length_uint_to_be. Qed.

Lemma SizeInBytes_max i k : 1 <= k <= 8 -> 1 <= i < 2 ^ (8 * k) -> Z.of_nat (SizeInBytes i) <= k.
Proof.
  intros Hk Hi. pose proof (Z.pow_le_mono_r 2 (8 * k) 64 ltac:(lia) ltac:(lia)).
  pose proof (SizeInBytes_lower i ltac:(lia)) as Hlo. pose proof (SizeInBytes_range i).
  destruct (Z.le_gt_cases (Z.of_nat (SizeInBytes i)) k) as [|Hgt]; [done|].
  pose proof (Z.pow_le_mono_r 2 (8 * k) (8 * (Z.of_nat (SizeInBytes i) - 1)) ltac:(lia) ltac:(lia)). lia.
Qed.

Lemma reads_uint k i : 1 <= k <= 8 -> 0 <= i < 2 ^ (8 * k) -> reads (stream_uint (8 * k)) i (enc_string (big_Bytes i)).
Proof.
  intros Hk8 Hi s rest Hk Hr Hin.
  pose proof (Z.pow_le_mono_r 2 (8 * k) 64 ltac:(lia) ltac:(lia)).
  destruct (Z.eq_dec i 0) as [->|Hi0]; [|destruct (Z.lt_ge_cases i 128) as [Hsm|Hbig]].
  - rewrite big_Bytes_0 in *.
    destruct (next_kind_header s KString 0 rest) as (s1 & En & _ & _ & _ & Hm); [done..|].
    unfold stream_uint. rewrite (bind_done _ _ _ _ _ En). rewrite (proj2 (Z.ltb_ge _ 0)) by (apply Z.div_pos; lia).
    exists (set_kind None s1). split; [done|]. split; [done|]. destruct Hm as (?&?&?&?). by split_and!.
  - rewrite enc_string_uint, (proj2 (Z.ltb_lt i 128)) in * by lia.
    destruct (next_kind_byte s (byte_of_Z i) rest) as (s1 & En & _ & _ & _ & Hb & Hm); [done..|rewrite byte_small; lia|].
    unfold stream_uint. rewrite (bind_done _ _ _ _ _ En). unfold bindM at 1, get_st at 1. rewrite Hb.
    rewrite bool_decide_false by (intros E; apply (f_equal Z_of_byte) in E; rewrite byte_small in E by lia; change (Z_of_byte Byte.x00) with 0 in E; lia).
    unfold bindM, rearm, modify_st, ret. rewrite byte_small by lia.
    eexists. split; [reflexivity|]. split; [done|]. destruct Hm as (?&?&?&?). by split_and!.
  - destruct (enc_string_cases (big_Bytes i)) as [(x & E & Hx & _)|[_ E]].
    { apply (f_equal big_SetBytes) in E. rewrite big_roundtrip in E by lia. unfold big_SetBytes in E. rewrite be_to_uint_1 in E. lia. }
    rewrite E in *. rewrite blen_app, blen_header in *. rewrite <- app_assoc in Hin.
    pose proof (blen_big_Bytes i ltac:(lia)) as Hl. pose proof (SizeInBytes_range i).
    rewrite Hl in *. rewrite big_Bytes_compact in Hin by lia.
    destruct (next_kind_header s KString (Z.of_nat (SizeInBytes i)) (uint_to_be (SizeInBytes i) i ++ rest))
      as (s1 & En & _ & _ & _ & Hm); [done|done|lia|done|done|].
    unfold stream_uint. rewrite (bind_done _ _ _ _ _ En). rewrite (Z.mul_comm 8 k), Z.div_mul by lia.
    rewrite (proj2 (Z.ltb_ge _ _)) by (apply SizeInBytes_max; lia).
    destruct (readUint_done s1 i rest) as (s' & Er & Hk' & Hm'); [lia| |by destruct Hm|].
    { pose proof (headsize_bounds (Z.of_nat (SizeInBytes i))). eapply (room_for_moved s s1); [exact Hr|lia|lia|exact Hm]. }
    rewrite (bind_done _ _ _ _ _ (attempt_done _ _ _ _ Er)).
    rewrite (proj2 (Z.ltb_ge i 128)), andb_false_r by lia.
    exists s'. split; [done|]. split; [done|]. by eapply moved_trans.
Qed.

Lemma reads_Bool b : reads stream_Bool b (enc_string (if b then [Byte.x01] else [])).
Proof.
  intros s rest Hk Hr Hi. destruct (reads_uint 1 (if b then 1 else 0) ltac:(lia) ltac:(destruct b; lia) s rest) as (s' & E & ?);
    [done|by destruct b|by destruct b|].
  exists s'. unfold stream_Bool. change (8 * 1) with 8 in E. rewrite (bind_done _ _ _ _ _ E). by destruct b.
Qed.

(** ** Lists *)
(** [reads_all m a b]: [m] reads the rest of the innermost list, [b]. *)
Definition reads_all {A} (m : M Stream A) (a : A) (b : bytes) : Prop := forall s rest pos st,
  kind s = None -> room_for s (blen b) -> input s = b ++ rest -> stack s = mkListpos pos (pos + blen b) :: st ->
  exists s', m s = Done a s' /\ kind s' = None /\ moved (blen b) rest s s'.

Lemma reads_reads_all {A} (m : M Stream A) a b : reads m a b -> reads_all m a b.
Proof. intros Hm s rest pos st Hk Hr Hi _. by apply Hm. Qed.

(** Entering a list; the state inside is that of the new innermost list. *)
Lemma List_done s p rest :
  kind s = None -> blen p < 2 ^ 64 -> room_for s (blen (enc_list p)) -> input s = enc_list p ++ rest ->
  exists s1, stream_List s = Done (blen p) s1 /\ kind s1 = None /\ input s1 = p ++ rest /\ limited s1 = limited s /\
    (limited s = true -> remaining s1 = remaining s - headsize (blen p)) /\
    stack s1 = mkListpos 0 (blen p) :: bump (headsize (blen p)) (stack s) /\ room_for s1 (blen p).
Proof.
  intros Hk Hp Hr Hi. unfold enc_list in *. change (puthead 192 247 (blen p)) with (header KList (blen p)) in *.
  rewrite blen_app, blen_header in *. rewrite <- app_assoc in Hi. pose proof (blen_nonneg p). pose proof (headsize_bounds (blen p)).
  destruct (next_kind_header s KList (blen p) (p ++ rest)) as (s1 & E & Hk1 & _ & _ & Hm); [done..|].
  unfold stream_List. rewrite (bind_done _ _ _ _ _ E). unfold bindM, modify_st, ret.
  pose proof (room_for_moved _ s1 _ _ _ Hr ltac:(lia) ltac:(lia) Hm) as (_ & Hl & _).
  destruct Hm as (Hi1 & Hl1 & Hr1 & Hst). eexists. split; [reflexivity|].
  split_and!; [done|done|done|done|simpl; by rewrite Hst|]. split_and!; simpl; [lia|done|lia].
Qed.

(** Leaving a list that has been read. *)
Lemma ListEnd_done s n st :
  stack s = mkListpos n n :: st ->
  match st with [] => True | up :: _ => 0 <= lp_pos up + n < 2 ^ 64 end ->
  exists s', stream_ListEnd s = Done tt s' /\ kind s' = None /\ input s' = input s /\ limited s' = limited s /\
    remaining s' = remaining s /\ stack s' = bump n st.
Proof.
  intros Hst Hup. unfold stream_ListEnd, bindM, get_st, modify_st. rewrite Hst. simpl. rewrite Z.eqb_refl. simpl.
  eexists. split; [reflexivity|]. split_and!; try done. simpl.
  destruct st as [|up st]; [done|]. simpl. by rewrite u64_small.
Qed.

Lemma list_run {A} (m : M Stream A) a p s rest :
  blen p < 2 ^ 64 -> reads_all m a p ->
  kind s = None -> room_for s (blen (enc_list p)) -> input s = enc_list p ++ rest ->
  exists s1 s2 s3, stream_List s = Done (blen p) s1 /\ m s1 = Done a s2 /\ stream_ListEnd s2 = Done tt s3 /\
    kind s3 = None /\ moved (blen (enc_list p)) rest s s3.
Proof.
  intros Hp Hm Hk Hr Hi. pose proof (blen_nonneg p). pose proof (headsize_bounds (blen p)).
  destruct (List_done s p rest Hk Hp Hr Hi) as (s1 & E1 & Hk1 & Hi1 & Hl1 & Hr1 & Hst1 & Hroom1).
  destruct (Hm s1 rest 0 (bump (headsize (blen p)) (stack s))) as (s2 & E2 & Hk2 & Hi2 & Hl2 & Hr2 & Hst2); [done..|].
  rewrite Hst1 in Hst2. simpl in Hst2.
  assert (blen (enc_list p) = headsize (blen p) + blen p) as Hlen by (unfold enc_list; by rewrite blen_app, puthead_size).
  rewrite Hlen in *.
  destruct (ListEnd_done s2 (blen p) _ Hst2) as (s3 & E3 & Hk3 & Hi3 & Hl3 & Hr3 & Hst3).
  { destruct Hr as (_ & _ & Hr). destruct (stack s) as [|[pos z] st]; simpl in *; [done|lia]. }
  exists s1, s2, s3. split_and!; [done..|]. split_and!; [congruence|congruence| |by rewrite Hst3, bump_bump].
  intros Hlim. rewrite Hr3, Hr2, Hr1 by congruence. lia.
Qed.

(** Structs and arrays. *)
Lemma reads_list_array (m : M Stream (list val)) vs p :
  blen p < 2 ^ 64 -> reads_all m vs p ->
  reads (_ ← wrap stream_List; vs ← m; _ ← wrap stream_ListEnd; ret (VList vs)) (VList vs) (enc_list p).
Proof.
  intros Hp Hm s rest Hk Hr Hi. destruct (list_run m vs p s rest Hp Hm Hk Hr Hi) as (s1 & s2 & s3 & E1 & E2 & E3 & ?).
  exists s3. by rewrite (bind_done _ _ _ _ _ (wrap_done _ _ _ _ E1)), (bind_done _ _ _ _ _ E2),
    (bind_done _ _ _ _ _ (wrap_done _ _ _ _ E3)).
Qed.

(** Slices. *)
Lemma reads_list_slice fuel dec vs p :
  blen p < 2 ^ 64 -> (p = [] -> vs = []) -> reads_all (decodeSliceElems fuel dec) vs p ->
  reads (decodeListSlice fuel dec) (VList vs) (enc_list p).
Proof.
  intros Hp Hnil Hm s rest Hk Hr Hi.
  unfold decodeListSlice. destruct (Z.eqb_spec (blen p) 0) as [H0|H0].
  - destruct p as [|x p]; [|rewrite blen_cons in H0; pose proof (blen_nonneg p); lia]. rewrite Hnil by done.
    destruct (list_run (ret (VList [])) (VList []) [] s rest Hp) as (s1 & s2 & s3 & E1 & [= <-] & E3 & ?); [|done..|].
    + intros s0 rest0 pos st Hk0 Hr0 Hi0 _. exists s0. split; [done|]. split; [done|]. rewrite blen_nil.
      by split_and!; [| |simpl; lia|rewrite bump_0].
    + exists s3. rewrite (bind_done _ _ _ _ _ (wrap_done _ _ _ _ E1)), blen_nil. simpl. by rewrite (bind_done _ _ _ _ _ E3).
  - destruct (list_run _ vs p s rest Hp Hm Hk Hr Hi) as (s1 & s2 & s3 & E1 & E2 & E3 & ?).
    exists s3. rewrite (bind_done _ _ _ _ _ (wrap_done _ _ _ _ E1)), (proj2 (Z.eqb_neq _ 0)) by done.
    by rewrite (bind_done _ _ _ _ _ E2), (bind_done _ _ _ _ _ E3).
Qed.

(** ** Arrays of bytes and big integers *)
Lemma reads_ByteArray s :
  blen s < 2 ^ 64 -> s <> [Byte.x00] -> reads (decodeByteArray (Z.of_nat (length s))) (VBytes s) (enc_string s).
Proof.
  intros Hs Hne st rest Hk Hr Hi. pose proof (blen_nonneg s).
  destruct (enc_string_cases s) as [(x & -> & Hx & E)|[Hc E]]; rewrite E in *.
  - destruct (next_kind_byte st x rest Hk Hr Hi Hx) as (s1 & En & Hk1 & He1 & Hs1 & Hb & Hm).
    unfold decodeByteArray. rewrite (bind_done _ _ _ _ _ En). simpl.
    assert (stream_uint 64 s1 = Done (Z_of_byte x) (set_kind None s1)) as Eu.
    { unfold stream_uint. rewrite (bind_done _ _ _ _ _ (next_kind_again s1 KByte Hk1 He1)).
      unfold bindM at 1, get_st at 1. rewrite Hb, bool_decide_false by congruence. done. }
    rewrite (bind_done _ _ _ _ _ (attempt_done _ _ _ _ Eu)), byte_of_Z_of_byte.
    eexists. split; [reflexivity|]. split; [done|]. destruct Hm as (?&?&?&?). by split_and!.
  - rewrite blen_app, blen_header in *. rewrite <- app_assoc in Hi.
    destruct (next_kind_header st KString (blen s) (s ++ rest)) as (s1 & En & _ & _ & _ & Hm); [done..|].
    destruct (body_done st s1 KString _ s rest Hr eq_refl Hm Hi) as (s' & Ef & Hk' & Hm').
    exists s'. unfold decodeByteArray. rewrite (bind_done _ _ _ _ _ En). fold (blen s). rewrite Z.ltb_irrefl.
    by rewrite (bind_done _ _ _ _ _ Ef), Hc.
Qed.

Lemma head_big_Bytes i : 0 <= i -> head (big_Bytes i) <> Some Byte.x00.
Proof.
  intros Hi. unfold big_Bytes, big_len. destruct (Z.eqb_spec i 0) as [->|Hne]; [done|]. rewrite Z.abs_eq by done.
  pose proof (Z.log2_nonneg i). assert (0 <= Z.log2 i / 8) by (apply Z.div_pos; lia).
  replace (Z.to_nat (Z.log2 i / 8 + 1)) with (S (Z.to_nat (Z.log2 i / 8))) by lia.
  set (n := Z.to_nat (Z.log2 i / 8)). unfold uint_to_be. simpl. replace (n - 0 - 0)%nat with n by lia.
  intros [= E]. apply (f_equal Z_of_byte) in E. rewrite Z_of_byte_of_Z, Z.shiftr_div_pow2 in E by lia.
  change (Z_of_byte Byte.x00) with 0 in E.
  pose proof (Z.log2_spec i ltac:(lia)) as [Hlo Hup]. pose proof (Z.div_mod (Z.log2 i) 8 ltac:(lia)).
  pose proof (Z.mod_pos_bound (Z.log2 i) 8 ltac:(lia)).
  assert (2 ^ (8 * Z.of_nat n) <= i) by (etransitivity; [|exact Hlo]; apply Z.pow_le_mono_r; lia).
  assert (i < 2 ^ (8 * Z.of_nat n) * 256).
  { change 256 with (2 ^ 8). rewrite <- Z.pow_add_r by lia. eapply Z.lt_le_trans; [exact Hup|]. apply Z.pow_le_mono_r; lia. }
  assert (1 <= i / 2 ^ (8 * Z.of_nat n) < 256).
  { split; [apply Z.div_le_lower_bound; lia|apply Z.div_lt_upper_bound; lia]. }
  rewrite Z.mod_small in E by lia. lia.
Qed.

Lemma reads_BigInt i :
  0 <= i -> blen (big_Bytes i) < 2 ^ 64 -> reads decodeBigInt (VBig (Some i)) (enc_string (big_Bytes i)).
Proof.
  intros Hi Hl s rest Hk Hr Hin. destruct (reads_wrap _ _ _ (reads_Bytes _ Hl) s rest Hk Hr Hin) as (s' & E & ?).
  exists s'. unfold decodeBigInt. rewrite (bind_done _ _ _ _ _ E), bool_decide_false by (by apply head_big_Bytes).
  by rewrite big_roundtrip.
Qed.

(** ** Computations that first look at the kind of the next value *)
Definition Starts {A} (m : M Stream A) : Prop :=
  (forall s kn s', next_kind s = Done kn s' -> next_kind s' = Done kn s' -> m s' = m s) /\
  (forall s s', next_kind s = Fail EOL s' -> m s = Fail EOL s').

Lemma Starts_kind {A} (f : Kind * Z -> M Stream A) : Starts (x ← next_kind; f x).
Proof.
  split; intros; [|by apply bind_fail].
  by rewrite (bind_done _ _ _ _ _ H), (bind_done _ _ _ _ _ H0).
Qed.

Lemma Starts_bind {A B} (m : M Stream A) (f : A -> M Stream B) : Starts m -> Starts (x ← m; f x).
Proof.
  intros [H1 H2]. split; intros s; [|intros; by apply bind_fail, H2].
  intros kn s' E E'. unfold bindM. by rewrite (H1 s kn s').
Qed.

Lemma Starts_wrap {A} (m : M Stream A) : Starts m -> Starts (wrap m).
Proof.
  intros [H1 H2]. split; intros s.
  - intros kn s' E E'. unfold wrap, bindM, attempt. by rewrite (H1 s kn s').
  - intros s' E. unfold wrap. by rewrite (bind_done _ _ _ _ _ (attempt_fail _ _ _ _ (H2 s s' E))).
Qed.

Create HintDb starts.
#[local] Hint Resolve Starts_kind Starts_bind Starts_wrap : starts.

Lemma Starts_decoder fuel t : Starts (decoder fuel t no_tags).
Proof.
  induction t; simpl; unfold decodeRawValue, decodeUint, decodeBool, decodeString, decodeByteSlice, makeStructDecoder, makePtrDecoder, decodeBigInt, decodeListSlice, decodeListArray, decodeByteArray, stream_Bool,
    stream_Bytes, stream_Raw, stream_uint, stream_List; eauto 6 with starts.
Qed.

(** ** Sequences of elements *)
Lemma at_end s pos st :
  kind s = None -> stack s = mkListpos pos pos :: st -> next_kind s = Fail EOL (set_kinderr None s).
Proof. intros Hk Hst. unfold next_kind, bindM, get_st, modify_st. rewrite Hk, Hst. simpl. by rewrite Z.eqb_refl. Qed.

(** A prefix of the rest of a list. *)
Lemma reads_step {A} (m : M Stream A) a b1 b2 s rest pos st :
  reads m a b1 -> kind s = None -> room_for s (blen (b1 ++ b2)) -> input s = (b1 ++ b2) ++ rest ->
  stack s = mkListpos pos (pos + blen (b1 ++ b2)) :: st ->
  exists s', m s = Done a s' /\ kind s' = None /\ room_for s' (blen b2) /\ input s' = b2 ++ rest /\
    stack s' = mkListpos (pos + blen b1) (pos + blen b1 + blen b2) :: st /\ moved (blen b1) (b2 ++ rest) s s'.
Proof.
  intros Hm Hk Hr Hi Hst. rewrite blen_app in *. rewrite <- app_assoc in Hi.
  pose proof (blen_nonneg b1). pose proof (blen_nonneg b2).
  destruct (Hm s (b2 ++ rest) Hk) as (s' & E & Hk' & Hmv); [by apply (room_for_le _ _ (blen b1 + blen b2)); [|lia]|done|].
  exists s'. split_and!; [done|done|by apply (room_for_moved s s' _ _ _ Hr ltac:(lia) ltac:(lia) Hmv)|by destruct Hmv| |done].
  destruct Hmv as (_&_&_&->). rewrite Hst. simpl. by rewrite Z.add_assoc.
Qed.

Lemma reads_all_slice dec vs bs fuel :
  Starts dec -> Forall2 (fun v b => reads dec v b /\ b <> []) vs bs -> (length vs < fuel)%nat ->
  reads_all (decodeSliceElems fuel dec) vs (concat bs).
Proof.
  intros [_ Hend] Hall. revert fuel. induction Hall as [|v b vs bs [Hv Hb] Hall IH]; intros fuel Hf s rest pos st Hk Hr Hi Hst.
  - destruct fuel as [|fuel]; [simpl in Hf; lia|]. cbn [decodeSliceElems concat] in *. rewrite blen_nil, Z.add_0_r in Hst.
    rewrite (bind_done _ _ _ _ _ (attempt_fail _ _ _ _ (Hend s _ (at_end s pos st Hk Hst)))).
    exists (set_kinderr None s). split; [done|]. split; [done|]. rewrite blen_nil.
    by split_and!; [| |simpl; lia|rewrite bump_0].
  - destruct fuel as [|fuel]; [simpl in Hf; lia|]. cbn [concat] in *.
    destruct (reads_step dec v b (concat bs) s rest pos st Hv Hk Hr Hi Hst) as (s1 & E1 & Hk1 & Hr1 & Hi1 & Hst1 & Hm1).
    destruct (IH fuel ltac:(simpl in Hf; lia) s1 rest _ _ Hk1 Hr1 Hi1 Hst1) as (s2 & E2 & Hk2 & Hm2).
    exists s2. split; [|split; [done|rewrite blen_app; by eapply moved_trans]].
    cbn [decodeSliceElems]. rewrite (bind_done _ _ _ _ _ (attempt_done _ _ _ _ E1)). by rewrite (bind_done _ _ _ _ _ E2).
Qed.

Lemma reads_all_array dec vs bs :
  Forall2 (fun v b => reads dec v b) vs bs -> reads_all (decode_array_elems (length vs) dec) vs (concat bs).
Proof.
  intros Hall. induction Hall as [|v b vs bs Hv Hall IH]; intros s rest pos st Hk Hr Hi Hst.
  - cbn [concat] in *. exists s. split; [done|]. split; [done|]. rewrite blen_nil. by split_and!; [| |simpl; lia|rewrite bump_0].
  - cbn [concat] in *.
    destruct (reads_step dec v b (concat bs) s rest pos st Hv Hk Hr Hi Hst) as (s1 & E1 & Hk1 & Hr1 & Hi1 & Hst1 & Hm1).
    destruct (IH s1 rest _ _ Hk1 Hr1 Hi1 Hst1) as (s2 & E2 & Hk2 & Hm2).
    exists s2. split; [|split; [done|rewrite blen_app; by eapply moved_trans]].
    cbn [decode_array_elems length]. rewrite (bind_done _ _ _ _ _ (attempt_done _ _ _ _ E1)). by rewrite (bind_done _ _ _ _ _ E2).
Qed.

(** ** Values that survive *)
Definition empty_encoding (b : bytes) : Prop := b = enc_string [] \/ b = enc_list [].

(** [decodable t ts v]: decoding the encoding of [v] can give [v] back.  A
    nil big integer comes back as zero and a nil pointer as a pointer to the
    zero value, unless its field is tagged [nil], which in turn turns pointers to
    empty values into nil pointers; raw values have to be encodings; the
    array of one zero byte is excluded, see [one_byte_array_rereads]. *)
Fixpoint decodable (t : typ) (ts : tags) (v : val) {struct t} : Prop :=
  match t, v with
  | TUint bits, VUint _ => exists k, 1 <= k <= 8 /\ bits = 8 * k
  | TBigInt, VBig i => i <> None
  | TByteArray _, VBytes b => b <> [Byte.x00]
  | TRaw, VBytes b => exists s, b = enc_string s \/ b = enc_list s
  | TSlice t, VList vs | TArray _ t, VList vs => Forall (decodable t no_tags) vs
  | TStruct fs, VList vs => all_decodable fs vs
  | TPtr t, VPtr v =>
      decodable t no_tags v /\
      (nilOK ts = true -> forall b, encoding t no_tags v = Some b -> ~ empty_encoding b)
  | TPtr _, VNil => nilOK ts = true /\ forall b, encoding t ts v = Some b -> empty_encoding b
  | TBool, VBool _ | TString, VBytes _ | TBytes, VBytes _ => True
  | _, _ => False
  end
with all_decodable (fs : fields) (vs : list val) {struct fs} : Prop :=
  match fs, vs with
  | FNil, [] => True
  | FCons ts t fs', v :: vs' => decodable t ts v /\ all_decodable fs' vs'
  | _, _ => False
  end.

Lemma enc_string_not_nil s : enc_string s <> [].
Proof.
  destruct (enc_string_cases s) as [(x & _ & _ & ->)|[_ ->]]; [done|].
  intros E. apply (f_equal blen) in E. rewrite blen_app, blen_header, blen_nil in E.
  pose proof (headsize_bounds (blen s)). pose proof (blen_nonneg s). lia.
Qed.

Lemma enc_list_not_nil s : enc_list s <> [].
Proof.
  intros E. apply (f_equal blen) in E. unfold enc_list in E. rewrite blen_app, puthead_size, blen_nil in E.
  pose proof (headsize_bounds (blen s)). pose proof (blen_nonneg s). lia.
Qed.

(** An encoding is that of one string or of one list. *)
Definition one_value (b : bytes) : Prop := exists s, b = enc_string s \/ b = enc_list s.

Lemma decodable_one_value t ts v b : decodable t ts v -> tail ts = false -> encoding t ts v = Some b -> one_value b.
Proof.
  assert (forall s, one_value (enc_string s)) as Hs by (intros s; exists s; auto).
  assert (forall s, one_value (enc_list s)) as Hl by (intros s; exists s; auto).
  revert ts v b. induction t as [| | | | | | |t IH|n t IH|fs|t IH]; intros ts v b Hd Hts.
  11: { destruct v as [| | | | | |v]; try (by destruct t).
        - destruct Hd as [_ Hd]. intros E. destruct (Hd b E) as [->| ->]; auto.
        - destruct Hd as [Hd _]. intros E. apply (IH no_tags v b Hd eq_refl). by destruct t. }
  all: destruct v; try done; simpl in *; rewrite ?Hts.
  - case_match; [|done]. intros [= <-]; auto.
  - intros [= <-]; auto.
  - intros [= <-]; auto.
  - intros [= <-]; auto.
  - case_match; [|done]. intros [= <-]; auto.
  - destruct i; [|done]. case_match; [done|]. intros [= <-]; auto.
  - by intros [= <-].
  - destruct (concat_opt _); [|done]. intros [= <-]; auto.
  - case_match; [|done]. destruct (concat_opt _); [|done]. intros [= <-]; auto.
  - destruct (encodings _ _); [|done]. intros [= <-]; auto.
Qed.

Lemma decodable_nonempty t ts v b : decodable t ts v -> tail ts = false -> encoding t ts v = Some b -> b <> [].
Proof.
  intros Hd Hts E. destruct (decodable_one_value t ts v b Hd Hts E) as (s & [->| ->]);
    [apply enc_string_not_nil|apply enc_list_not_nil].
Qed.

Lemma concat_opt_Forall2 {A} (f : A -> option bytes) l b :
  concat_opt (f <$> l) = Some b -> exists bs, Forall2 (fun x c => f x = Some c) l bs /\ concat bs = b.
Proof.
  revert b. induction l as [|x l IH]; intros b.
  - intros [= <-]. exists []. by split; [constructor|].
  - rewrite fmap_cons, concat_opt_cons. intros (b1 & b2 & E1 & E2 & ->). destruct (IH _ E2) as (bs & ? & <-).
    exists (b1 :: bs). by split; [constructor|].
Qed.

Lemma length_le_concat {A} (l : list A) (bs : list bytes) (P : A -> bytes -> Prop) :
  Forall2 P l bs -> Forall (fun b => b <> []) bs -> Z.of_nat (length l) <= blen (concat bs).
Proof.
  intros H. induction H as [|x b l bs _ H IH]; intros Hne; [done|]. apply Forall_cons in Hne as [Hb Hne]. simpl.
  rewrite blen_app. destruct b as [|y b]; [done|]. rewrite blen_cons. pose proof (blen_nonneg b). specialize (IH Hne). lia.
Qed.

Lemma blen_enc_list b : blen b < blen (enc_list b).
Proof. unfold enc_list. rewrite blen_app, puthead_size. pose proof (headsize_bounds (blen b)). lia. Qed.

Lemma blen_enc_string s : blen s <= blen (enc_string s).
Proof.
  destruct (enc_string_cases s) as [(x & -> & _ & ->)|[_ ->]]; [done|]. rewrite blen_app, blen_header.
  pose proof (headsize_bounds (blen s)). lia.
Qed.

Lemma blen_enc_string_le s : blen (enc_string s) <= 9 + blen s.
Proof.
  destruct (enc_string_cases s) as [(x & -> & _ & ->)|[_ ->]]; [unfold blen; simpl; lia|]. rewrite blen_app, blen_header.
  pose proof (headsize_bounds (blen s)). lia.
Qed.

Lemma blen_enc_list_bounds p : 1 + blen p <= blen (enc_list p) <= 9 + blen p.
Proof. unfold enc_list. rewrite blen_app, puthead_size. pose proof (headsize_bounds (blen p)). lia. Qed.

Lemma blen_big_64 a : 0 <= a < 2 ^ 64 -> blen (big_Bytes a) <= 8.
Proof.
  intros Ha. destruct (decide (a = 0)) as [->|]; [done|]. rewrite big_Bytes_compact by lia. unfold blen. rewrite length_uint_to_be.
  pose proof (SizeInBytes_range a). lia.
Qed.

(** ** The elements of a list *)
Section elements.
Context (fuel : nat) (t : typ).
Hypothesis Ht : forall v b, encoding t no_tags v = Some b -> decodable t no_tags v -> blen b < Z.of_nat fuel ->
  blen b < 2 ^ 64 -> reads (decoder fuel t no_tags) v b.

Lemma elements_read vs b :
  concat_opt (encoding t no_tags <$> vs) = Some b -> Forall (decodable t no_tags) vs -> blen b < Z.of_nat fuel ->
  blen b < 2 ^ 64 ->
  exists bs, b = concat bs /\ (length vs < fuel)%nat /\
    Forall2 (fun v b => reads (decoder fuel t no_tags) v b /\ b <> []) vs bs.
Proof.
  intros Hb Hd Hf H64. destruct (concat_opt_Forall2 _ _ _ Hb) as (bs & Hbs & <-). exists bs.
  assert (Forall2 (fun v b => encoding t no_tags v = Some b /\ b <> []) vs bs) as Hne.
  { clear Hb Hf H64. induction Hbs; constructor; apply Forall_cons in Hd as [? ?]; [|auto].
    split; [done|]. by eapply decodable_nonempty. }
  assert (Forall (fun b => b <> []) bs) as Hbn.
  { clear -Hne. induction Hne as [|v c vs bs [_ Hc] _ IH]; by constructor. }
  pose proof (length_le_concat _ _ _ Hbs Hbn). split_and!; [done|lia|].
  clear Hb Hbs Hbn H. induction Hne as [|v c vs bs [Hv Hc] Hne IH]; constructor.
  - simpl in *. rewrite blen_app in *. apply Forall_cons in Hd as [? ?]. pose proof (blen_nonneg c). pose proof (blen_nonneg (concat bs)).
    split; [|done]. apply Ht; (done || lia).
  - simpl in *. rewrite blen_app in *. apply Forall_cons in Hd as [? ?]. pose proof (blen_nonneg c). apply IH; (done || lia).
Qed.
End elements.

(** ** Pointers that may be nil *)
Lemma reads_optional_nil dec b : empty_encoding b -> reads (makeOptionalPtrDecoder dec) VNil b.
Proof.
  intros Hb s rest Hk Hr Hi.
  assert (exists k, k <> KByte /\ b = header k 0) as (k & Hkb & ->).
  { destruct Hb as [->| ->]; [by exists KString|by exists KList]. }
  rewrite blen_header in *. change (headsize 0) with 1 in *.
  destruct (next_kind_header s k 0 rest Hk Hkb ltac:(lia) Hr Hi) as (s1 & E & _ & _ & _ & Hm).
  unfold makeOptionalPtrDecoder. rewrite (bind_done _ _ _ _ _ (attempt_done _ _ _ _ E)).
  rewrite bool_decide_false by done. simpl. exists (set_kind None s1). split; [done|]. split; [done|].
  destruct Hm as (?&?&?&?). by split_and!.
Qed.

Lemma reads_optional_ptr dec v b :
  Starts dec -> reads dec v b -> one_value b -> ~ empty_encoding b -> blen b < 2 ^ 64 ->
  reads (makeOptionalPtrDecoder dec) (VPtr v) b.
Proof.
  intros [Hst _] Hv Hone Hne Hb s rest Hk Hr Hi.
  destruct (Hv s rest Hk Hr Hi) as (s' & E & Hk' & Hm). exists s'. split; [|done].
  assert (exists k n s1, next_kind s = Done (k, n) s1 /\ kind s1 = Some k /\ kinderr s1 = None /\ size s1 = n /\
    (n =? 0) && negb (bool_decide (k = KByte)) = false) as (k & n & s1 & En & Hk1 & He1 & Hn1 & Hc).
  { assert ((exists x, b = [x] /\ Z_of_byte x < 128) \/ exists k p, k <> KByte /\ b = header k (blen p) ++ p) as [(x & -> & Hx)|(k & p & Hkb & ->)].
    { destruct Hone as (p & [->| ->]); [|right; by exists KList, p].
      destruct (enc_string_cases p) as [(x & -> & Hx & ->)|[_ ->]]; [by left; exists x|right; by exists KString, p]. }
    - destruct (next_kind_byte s x rest Hk Hr Hi Hx) as (s1 & ? & ? & ? & ? & _ & _). by exists KByte, 0, s1.
    - rewrite blen_app, blen_header in *. rewrite <- app_assoc in Hi. pose proof (blen_nonneg p). pose proof (headsize_bounds (blen p)).
      destruct (next_kind_header s k (blen p) (p ++ rest)) as (s1 & ? & ? & ? & ? & _); [done|done|lia|done|done|].
      exists k, (blen p), s1. split_and!; [done..|]. apply andb_false_intro1, Z.eqb_neq. intros Hp.
      destruct p; [|rewrite blen_cons in Hp; pose proof (blen_nonneg p); lia].
      apply Hne. destruct k; [done|by left|by right]. }
  unfold makeOptionalPtrDecoder. rewrite (bind_done _ _ _ _ _ (attempt_done _ _ _ _ En)), Hc.
  assert (dec s1 = Done v s') as E1.
  { rewrite (Hst s (k, n) s1 En), E; [done|]. rewrite (next_kind_again s1 k Hk1 He1). by rewrite Hn1. }
  by rewrite (bind_done _ _ _ _ _ E1).
Qed.

(** ** Every decoder reads the encoding of a value of its type *)
Definition reads_value (fuel : nat) (t : typ) (ts : tags) (v : val) (b : bytes) : Prop :=
  if tail ts && is_slice t then reads_all (decoder fuel t ts) v b else reads (decoder fuel t ts) v b.

Lemma reads_value_intro fuel t ts v b : reads (decoder fuel t ts) v b -> reads_value fuel t ts v b.
Proof. unfold reads_value. intros. case_match; [by apply reads_reads_all|done]. Qed.

Lemma decoder_reads fuel :
  (forall t ts v b, tags_ok t = true -> (tail ts = true -> is_slice t = true) ->
     encoding t ts v = Some b -> decodable t ts v ->
     blen b < Z.of_nat fuel -> blen b < 2 ^ 64 -> reads_value fuel t ts v b) /\
  (forall fs vs b, structFields fs = true -> encodings fs vs = Some b -> all_decodable fs vs ->
     blen b < Z.of_nat fuel -> blen b < 2 ^ 64 -> reads_all (decode_fields fuel fs) vs b).
Proof.
  apply typ_fields_ind.
  - intros bits ts [] b' _ _; simpl; try done. destruct (_ && _) eqn:E; [|done]. intros [= <-] (k & Hk & ->) _ _. zbool.
    apply reads_value_intro. simpl. apply reads_map, reads_wrap, reads_uint; [done|].
    rewrite Z.min_l in * by lia. done.
  - intros ts [] b' _ _; simpl; try done. intros [= <-] _ _ _. apply reads_value_intro, reads_map, reads_wrap, reads_Bool.
  - intros ts [| |s| | | |] b' _ _; simpl; try done. intros [= <-] _ _ H64. pose proof (blen_enc_string s).
    apply reads_value_intro, reads_map, reads_wrap, reads_Bytes. lia.
  - intros ts [| |s| | | |] b' _ _; simpl; try done. intros [= <-] _ _ H64. pose proof (blen_enc_string s).
    apply reads_value_intro, reads_map, reads_wrap, reads_Bytes. lia.
  - intros n ts [| |s| | | |] b' _ _; simpl; try done. destruct (Nat.eqb_spec (length s) n) as [<-|]; [|done].
    intros [= <-] Hne _ H64. apply reads_value_intro. simpl. pose proof (blen_enc_string s).
    apply reads_ByteArray; [lia|done].
  - intros ts [| | |[i|]| | |] b' _ _; simpl; try done. destruct (Z.ltb_spec i 0); [done|].
    intros [= <-] _ _ H64. pose proof (blen_enc_string (big_Bytes i)). apply reads_value_intro. simpl.
    apply reads_BigInt; lia.
  - intros ts [| |s| | | |] b' _ _; simpl; try done. intros [= <-] (p & [->| ->]) _ H64; apply reads_value_intro, reads_map.
    + apply reads_Raw_string. pose proof (blen_enc_string p). lia.
    + apply reads_Raw_list. pose proof (blen_enc_list p). lia.
  - intros t IH ts [| | | |vs| |] b' Ht _; simpl; try done. destruct (concat_opt _) as [p|] eqn:Ep; [|by destruct (tail ts)].
    intros E Hd Hf H64.
    assert (blen p < Z.of_nat fuel /\ blen p < 2 ^ 64) as [Hpf Hp64].
    { pose proof (blen_enc_list p). destruct (tail ts); injection E as <-; simpl in *; lia. }
    destruct (elements_read fuel t) with vs p as (bs & -> & Hlen & Hall); [|done..|].
    { intros. by apply (IH no_tags). }
    pose proof (reads_all_slice _ vs bs fuel (Starts_decoder fuel t) Hall Hlen) as Hr.
    unfold reads_value. simpl. rewrite andb_true_r. destruct (tail ts); injection E as <-.
    + intros s rest pos st Hk Hroom Hi Hst. destruct (Hr s rest pos st Hk Hroom Hi Hst) as (s' & E' & ?).
      exists s'. by rewrite (bind_done _ _ _ _ _ E').
    + apply reads_list_slice; [done| |done]. intros Hnil. inversion Hall as [|? c ? ? [_ Hc]]; subst; [done|].
      simpl in Hnil. by apply app_eq_nil in Hnil as [? _].
  - intros n t IH ts [| | | |vs| |] b' Ht _; simpl; try done. destruct (Nat.eqb_spec (length vs) n) as [<-|]; [|done].
    destruct (concat_opt _) as [p|] eqn:Ep; [|done]. intros [= <-] Hd Hf H64. pose proof (blen_enc_list p).
    destruct (elements_read fuel t) with vs p as (bs & -> & _ & Hall); [|done|done|lia|lia|].
    { intros. by apply (IH no_tags). }
    apply reads_value_intro. simpl. apply reads_list_array; [lia|]. apply reads_all_array.
    clear -Hall. induction Hall as [|? ? ? ? []]; by constructor.
  - intros fs IH ts [| | | |vs| |] b' Ht _; simpl; try done. destruct (encodings fs vs) as [p|] eqn:Ep; [|done].
    intros [= <-] Hd Hf H64. pose proof (blen_enc_list p). apply reads_value_intro. simpl.
    apply reads_list_array; [lia|]. apply IH; (done || lia).
  - intros t IH ts v b' Ht _ E Hd Hf H64. apply reads_value_intro. simpl.
    destruct v as [| | | | | |v]; try (by destruct t).
    + destruct Hd as [-> Hd]. by apply reads_optional_nil, Hd.
    + destruct Hd as [Hd Hn].
      assert (encoding t no_tags v = Some b') as E' by (by destruct t).
      pose proof (IH no_tags v b' Ht (fun H => False_ind _ (Bool.diff_false_true H)) E' Hd Hf H64) as Hv.
      destruct (nilOK ts).
      * apply reads_optional_ptr; [apply Starts_decoder|done| |by apply Hn|done]. by eapply decodable_one_value.
      * by apply reads_map.
  - intros [|] b _; [|done]. intros [= <-] _ _ _ s rest pos st Hk Hr Hi Hst. exists s. split; [done|]. split; [done|].
    rewrite blen_nil. by split_and!; [| |simpl; lia|rewrite bump_0].
  - intros ts t IHt fs IHfs [|v vs] b Hok; [done|]. simpl in Hok |- *.
    destruct (encoding t ts v) as [b1|] eqn:E1; [|done]. simpl.
    destruct (encodings fs vs) as [b2|] eqn:E2; [|done]. simpl. intros [= <-] [Hd Hds] Hf H64.
    rewrite !andb_true_iff in Hok. destruct Hok as [[Htl Ht] Hfs]. rewrite blen_app in *.
    pose proof (blen_nonneg b1). pose proof (blen_nonneg b2).
    assert (tail ts = true -> fs = FNil /\ is_slice t = true) as Htail.
    { intros Htt. rewrite Htt in Htl. by destruct fs. }
    pose proof (IHt ts v b1 Ht (fun H => proj2 (Htail H)) E1 Hd ltac:(lia) ltac:(lia)) as Hv.
    pose proof (IHfs vs b2 Hfs E2 Hds ltac:(lia) ltac:(lia)) as Hvs.
    intros s rest pos st Hk Hr Hi Hst. unfold reads_value in Hv.
    assert (exists s1, decoder fuel t ts s = Done v s1 /\ kind s1 = None /\ room_for s1 (blen b2) /\ input s1 = b2 ++ rest /\
      stack s1 = mkListpos (pos + blen b1) (pos + blen b1 + blen b2) :: st /\ moved (blen b1) (b2 ++ rest) s s1)
      as (s1 & E1' & Hk1 & Hr1 & Hi1 & Hst1 & Hm1).
    { destruct (tail ts) eqn:Ets; simpl in Hv; [|by eapply reads_step].
      destruct Htail as [-> Hs]; [done|]. destruct vs; [|done]. injection E2 as <-. rewrite Hs in Hv.
      rewrite app_nil_r, blen_nil, ?Z.add_0_r in *. destruct (Hv s rest pos st Hk Hr Hi Hst) as (s1 & E & Hk1 & Hm1).
      exists s1. split_and!; [done|done| |by destruct Hm1| |done].
      - apply (room_for_moved s s1 (blen b1) 0 rest); [by rewrite Z.add_0_r|lia|lia|done].
      - destruct Hm1 as (_&_&_&->). by rewrite Hst. }
    destruct (Hvs s1 rest _ _ Hk1 Hr1 Hi1 Hst1) as (s2 & E2' & Hk2 & Hm2).
    exists s2. split; [|split; [done|rewrite blen_app; by eapply moved_trans]].
    cbn [decode_fields]. rewrite (bind_done _ _ _ _ _ (attempt_done _ _ _ _ E1')). by rewrite (bind_done _ _ _ _ _ E2').
Qed.

(** C39: Decoding inverts encoding: what [EncodeToBytes] makes of a value that
    can survive, [DecodeBytes] turns back into the value, consuming all. *)
Theorem decode_encode t v b :
  tags_ok t = true -> encoding t no_tags v = Some b -> decodable t no_tags v -> blen b < 2 ^ 32 - 1 ->
  EncodeToBytes t v = inr (Some b) /\ exists s, DecodeBytes t b = Done v s /\ input s = [].
Proof.
  intros Ht Hb Hd Hlen. split; [by apply encoding_EncodeToBytes|].
  assert (reads (decoder (S (length b)) t no_tags) v b) as Hr.
  { apply (proj1 (decoder_reads _) t no_tags v b Ht); [done|done|done|unfold blen; lia|lia]. }
  destruct (Hr (NewStream b) []) as (s & E & _ & Hi & _); [done| |by rewrite app_nil_r|].
  { split_and!; simpl; [apply blen_nonneg|done|done]. }
  exists s. split; [|done]. unfold DecodeBytes, DecodeBytes_fuel. rewrite Ht, (bind_done _ _ _ _ _ E).
  unfold bindM, get_st. by rewrite Hi.
Qed.

Lemma decode_encode_witness :
  exists b s, EncodeToBytes ex_typ ex_val = inr (Some b) /\ DecodeBytes ex_typ b = Done ex_val s /\ input s = [].
Proof.
  eexists. edestruct (decode_encode ex_typ ex_val) as [E1 (s & E2 & E3)].
  - vm_compute; reflexivity.
  - vm_compute; reflexivity.
  - simpl. split_and!; [by exists 8|done| |done|by repeat constructor|done].
    intros b [= <-]. by left.
  - vm_compute; reflexivity.
  - exists s. split; [exact E1|]. by split.
Defined.

