(* ===== verification/RlpRaw.v ===== *)
(** * [rlp/raw.go]: cutting off the first value

    [Split] accepts exactly the canonical encodings, so a string of bytes is
    read in at most one way; [CountValues] counts the encodings it is a
    sequence of. *)
From S2P Require Import Prelude Bytes Rlp RlpEncode RlpDecode RlpRoundtrip.

(** A string that is its own encoding. *)
Definition small (c : bytes) : bool := match c with [x] => Z_of_byte x <? 128 | _ => false end.

(** The specification: kinds with a content, and their encoding. *)
Definition raw_encoding (k : Kind) (content : bytes) : option bytes :=
  match k with
  | KByte => if small content then Some content else None
  | KString => if small content then None else Some (enc_string content)
  | KList => Some (enc_list content)
  end.

(** ** Sizes *)
Lemma uint_to_be_be_to_uint b : uint_to_be (length b) (be_to_uint b) = b.
Proof.
  induction b as [|x b IH] using rev_ind; [done|].
  rewrite length_app, Nat.add_1_r, uint_to_be_S, be_to_uint_snoc. pose proof (Z_of_byte_range x).
  rewrite Z.shiftr_div_pow2 by lia. change (2 ^ 8) with 256.
  rewrite Z.div_add_l, (Z.div_small (Z_of_byte x)), Z.add_0_r, IH by lia. f_equal. f_equal.
  rewrite <- byte_of_Z_mod, Z.add_comm, Z.mod_add, Z.mod_small, byte_of_Z_of_byte by lia. done.
Qed.

Lemma be_to_uint_range b : 0 <= be_to_uint b < 2 ^ (8 * blen b).
Proof.
  rewrite <- (uint_to_be_be_to_uint b) at 1 2. rewrite be_roundtrip. apply Z.mod_pos_bound.
  apply Z.pow_pos_nonneg; unfold blen; lia.
Qed.

Lemma be_to_uint_lower x b : x <> Byte.x00 -> 2 ^ (8 * blen b) <= be_to_uint (x :: b).
Proof.
  intros Hx. induction b as [|y b IH] using rev_ind.
  - rewrite be_to_uint_1. pose proof (Z_of_byte_range x). rewrite blen_nil.
    change (2 ^ (8 * 0)) with 1. enough (Z_of_byte x <> 0) by lia. intros E. apply Hx. by rewrite <- (byte_of_Z_of_byte x), E.
  - change (x :: b ++ [y]) with ((x :: b) ++ [y]). rewrite be_to_uint_snoc, blen_app.
    replace (8 * (blen b + blen [y])) with (8 * blen b + 8) by (unfold blen; simpl; lia).
    rewrite Z.pow_add_r by (unfold blen; lia). pose proof (Z_of_byte_range y). lia.
Qed.

Lemma SizeInBytes_unique i n :
  (1 <= n <= 8)%nat -> 2 ^ (8 * (Z.of_nat n - 1)) <= i < 2 ^ (8 * Z.of_nat n) -> SizeInBytes i = n.
Proof.
  intros Hn Hi. unfold SizeInBytes.
  do 9 (destruct n as [|n]; [simpl in *; try lia; repeat case_match; zbool; (done || lia)|]). lia.
Qed.

(** [readSize] reads what [putint] writes. *)
Lemma readSize_putint b slen s :
  1 <= slen <= 8 ->
  readSize b slen = inr s <->
  56 <= s < 2 ^ 64 /\ slen = Z.of_nat (SizeInBytes s) /\ exists rest, b = uint_to_be (SizeInBytes s) s ++ rest.
Proof.
  intros Hs. unfold readSize. destruct (Z.ltb_spec (blen b) slen) as [Hlt|Hge].
  { split; [done|]. intros (_ & -> & rest & ->). rewrite blen_app in Hlt. unfold blen in Hlt. rewrite length_uint_to_be in Hlt. lia. }
  assert (length (take (Z.to_nat slen) b) = Z.to_nat slen) as Hl by (rewrite length_take; unfold blen in Hge; lia).
  split.
  - destruct ((be_to_uint _ <? 56) || bool_decide (head b = Some Byte.x00)) eqn:Ec; [done|]. intros [= <-]. zbool.
    destruct b as [|x b]; [unfold blen in Hge; simpl in Hge; lia|].
    set (c := take (Z.to_nat slen) (x :: b)) in *.
    assert (exists c', c = x :: c' /\ blen c' = slen - 1) as (c' & Ec' & Hc').
    { assert (exists c', c = x :: c') as [c' Ec'] by (unfold c; destruct (Z.to_nat slen) eqn:?; [lia|by eexists]).
      exists c'. split; [done|]. rewrite Ec' in Hl. unfold blen. simpl in Hl. lia. }
    pose proof (be_to_uint_range c). pose proof (be_to_uint_lower x c' ltac:(intros ->; simpl in *; congruence)) as Hlo.
    rewrite <- Ec', Hc' in Hlo. assert (blen c = slen) as Hbc by (unfold blen; lia). rewrite Hbc in *.
    assert (SizeInBytes (be_to_uint c) = Z.to_nat slen) as Esz.
    { apply SizeInBytes_unique; [lia|]. rewrite Z2Nat.id by lia. lia. }
    pose proof (Z.pow_le_mono_r 2 (8 * slen) 64 ltac:(lia) ltac:(lia)).
    rewrite Esz, Z2Nat.id by lia. split_and!; [lia..|]. exists (drop (Z.to_nat slen) (x :: b)).
    rewrite <- Hl at 1. rewrite uint_to_be_be_to_uint. symmetry. apply take_drop.
  - intros (Hr & -> & rest & ->). rewrite Nat2Z.id.
    rewrite take_app_length' by (symmetry; apply length_uint_to_be). rewrite be_uint_to_be by lia.
    rewrite (proj2 (Z.ltb_ge s 56)) by lia. rewrite bool_decide_false; [done|].
    pose proof (SizeInBytes_range s) as Hn. pose proof (head_uint_to_be s ltac:(lia)) as Hh.
    pose proof (length_uint_to_be (SizeInBytes s) s). by destruct (uint_to_be (SizeInBytes s) s); [simpl in *; lia|].
Qed.

(** ** Headers *)
Lemma small_cases c : (exists x, c = [x] /\ Z_of_byte x < 128) /\ small c = true \/ small c = false.
Proof.
  destruct c as [|x [|y c]]; [by right| |by right]. simpl. destruct (Z.ltb_spec (Z_of_byte x) 128); [left|right]; eauto.
Qed.

Lemma enc_string_header c : small c = false -> enc_string c = header KString (blen c) ++ c.
Proof.
  destruct c as [|x [|y c]]; [done| |done]. simpl. intros ->. done.
Qed.

Definition tag (k : Kind) : Z := match k with KList => 192 | _ => 128 end.

Lemma header_short k n : k <> KByte -> n < 56 -> header k n = [byte_of_Z (tag k + n)].
Proof. intros Hk Hn. unfold header, puthead. rewrite (proj2 (Z.ltb_lt n 56)) by done. by destruct k. Qed.

Lemma header_long k n :
  k <> KByte -> 56 <= n ->
  header k n = byte_of_Z (Z.of_nat (SizeInBytes n) + tag k + 55) :: uint_to_be (SizeInBytes n) n.
Proof.
  intros Hk Hn. unfold header, puthead. rewrite (proj2 (Z.ltb_ge n 56)), !putint_size by done.
  destruct k; [done|..]; simpl; do 2 f_equal; lia.
Qed.

(** The value after a header is long enough. *)
Definition checked (b : bytes) (k : Kind) (tagsize contentsize : Z) : string + (Kind * Z * Z) :=
  if u64 (blen b - tagsize) <? contentsize then inl ErrValueTooLarge else inr (k, tagsize, u64 (tagsize + contentsize)).

Lemma ReadKind_header k n rest :
  k <> KByte -> 0 <= n < 2 ^ 64 ->
  (k = KString -> n = 1 -> match rest with x :: _ => 128 <= Z_of_byte x | [] => True end) ->
  ReadKind (header k n ++ rest) = checked (header k n ++ rest) k (headsize n) n.
Proof.
  intros Hk Hn H1. destruct (Z.lt_ge_cases n 56) as [Hs|Hs].
  - assert (headsize n = 1) as -> by (unfold headsize; by rewrite (proj2 (Z.ltb_lt n 56))).
    rewrite header_short by done. cbn [app]. unfold ReadKind.
    rewrite byte_small by (destruct k; simpl; lia). destruct k; [done|..]; simpl tag.
    + rewrite (proj2 (Z.ltb_ge _ 128)), (proj2 (Z.ltb_lt _ 184)) by lia. replace (128 + n - 128) with n by lia.
      destruct (Z.eqb_spec n 1) as [->|]; [|done]. specialize (H1 eq_refl eq_refl). destruct rest as [|x rest]; [done|].
      simpl. by rewrite (proj2 (Z.ltb_ge _ 128)), andb_false_r by done.
    + rewrite (proj2 (Z.ltb_ge _ 128)), (proj2 (Z.ltb_ge _ 184)), (proj2 (Z.ltb_ge _ 192)), (proj2 (Z.ltb_lt _ 248)) by lia.
      by replace (192 + n - 192) with n by lia.
  - assert (headsize n = 1 + Z.of_nat (SizeInBytes n)) as -> by (unfold headsize; by rewrite (proj2 (Z.ltb_ge n 56))).
    pose proof (SizeInBytes_range n) as Hz. rewrite header_long by done. cbn [app]. unfold ReadKind.
    assert (readSize (uint_to_be (SizeInBytes n) n ++ rest) (Z.of_nat (SizeInBytes n)) = inr n) as Er.
    { apply readSize_putint; [lia|]. split_and!; [lia|lia|done|by eexists]. }
    rewrite byte_small by (destruct k; simpl; lia). destruct k; [done|..]; simpl tag.
    + rewrite (proj2 (Z.ltb_ge _ 128)), (proj2 (Z.ltb_ge _ 184)), (proj2 (Z.ltb_lt _ 192)) by lia.
      replace (Z.of_nat (SizeInBytes n) + 128 + 55 - 183) with (Z.of_nat (SizeInBytes n)) by lia. rewrite Er. simpl.
      by rewrite (Z.add_comm _ 1).
    + rewrite (proj2 (Z.ltb_ge _ 128)), (proj2 (Z.ltb_ge _ 184)), (proj2 (Z.ltb_ge _ 192)), (proj2 (Z.ltb_ge _ 248)) by lia.
      replace (Z.of_nat (SizeInBytes n) + 192 + 55 - 247) with (Z.of_nat (SizeInBytes n)) by lia. rewrite Er. simpl.
      by rewrite (Z.add_comm _ 1).
Qed.

(** Conversely an input is a small byte or starts with a header, or has no
    kind. *)
Lemma ReadKind_inv b k t n :
  ReadKind b = inr (k, t, n) ->
  (exists x rest, b = x :: rest /\ Z_of_byte x < 128 /\ k = KByte) \/
  (exists m rest, k <> KByte /\ 0 <= m < 2 ^ 64 /\ b = header k m ++ rest /\
    (k = KString -> m = 1 -> match rest with x :: _ => 128 <= Z_of_byte x | [] => True end)).
Proof.
  destruct b as [|x b]; [done|]. unfold ReadKind. pose proof (Z_of_byte_range x) as Hx.
  assert (forall y, Z_of_byte x = y -> x = byte_of_Z y) as Hb by (intros y <-; by rewrite byte_of_Z_of_byte).
  assert (forall k m, k <> KByte -> m < 56 -> Z_of_byte x = tag k + m -> header k m = [x]) as Hshort.
  { intros k' m Hk Hm E. by rewrite header_short, <- (Hb _ E). }
  assert (forall k slen m, k <> KByte -> 1 <= slen <= 8 -> Z_of_byte x = slen + tag k + 55 -> readSize b slen = inr m ->
    exists rest, 56 <= m < 2 ^ 64 /\ x :: b = header k m ++ rest) as Hlong.
  { intros k' slen m Hk Hs E (Hm & -> & rest & ->)%readSize_putint; [|done]. exists rest. split; [done|].
    by rewrite header_long, <- (Hb _ E) by (done || lia). }
  destruct (Z.ltb_spec (Z_of_byte x) 128).
  { intros E. left. exists x, b. split_and!; [done|done|]. case_match; [done|by injection E as <-]. }
  intros E. right. destruct (Z.ltb_spec (Z_of_byte x) 184).
  - destruct (_ && _) eqn:Ec; [done|]. case_match; [done|]. injection E as <- _ _.
    exists (Z_of_byte x - 128), b. split_and!; [done|lia|lia| |].
    + by rewrite (Hshort KString) by (simpl; (done || lia)).
    + intros _ E1. destruct b as [|y b]; [done|]. rewrite E1 in Ec. simpl in Ec. apply Z.ltb_ge.
      destruct (1 <? blen (x :: y :: b)) eqn:E2; [done|]. apply Z.ltb_ge in E2. rewrite !blen_cons in E2. pose proof (blen_nonneg b). lia.
  - destruct (Z.ltb_spec (Z_of_byte x) 192); [|destruct (Z.ltb_spec (Z_of_byte x) 248)].
    + destruct (readSize b _) as [|m] eqn:Em; [done|]. simpl in E. case_match; [done|]. injection E as <- _ _.
      destruct (Hlong KString (Z_of_byte x - 183) m) as (rest & Hm & E'); [done|lia|simpl; lia|done|].
      exists m, rest. split_and!; [done|lia|lia|done|lia].
    + case_match; [done|]. injection E as <- _ _. exists (Z_of_byte x - 192), b. split_and!; [done|lia|lia| |done].
      by rewrite (Hshort KList) by (simpl; (done || lia)).
    + destruct (readSize b _) as [|m] eqn:Em; [done|]. simpl in E. case_match; [done|]. injection E as <- _ _.
      destruct (Hlong KList (Z_of_byte x - 247) m) as (rest & Hm & E'); [done|lia|simpl; lia|done|].
      exists m, rest. split_and!; [done|lia|lia|done|done].
Qed.

Lemma checked_split (h c rest : bytes) k n t m :
  blen (h ++ c ++ rest) < 2 ^ 63 -> blen c = n -> checked (h ++ c ++ rest) k (blen h) n = inr (k, t, m) ->
  t = blen h /\ m = blen h + n.
Proof.
  intros Hl <- E. unfold checked in E. rewrite !blen_app in *. pose proof (blen_nonneg h). pose proof (blen_nonneg c). pose proof (blen_nonneg rest).
  case_match; [done|]. injection E as <- <-. by rewrite u64_small by lia.
Qed.

Lemma ReadKind_byte x rest :
  Z_of_byte x < 128 -> blen (x :: rest) < 2 ^ 64 -> ReadKind (x :: rest) = inr (KByte, 0, 1).
Proof.
  intros Hx Hl. unfold ReadKind. rewrite (proj2 (Z.ltb_lt _ 128)) by done.
  rewrite blen_cons in *. pose proof (blen_nonneg rest). rewrite (u64_small (1 + blen rest - 0)) by lia.
  by rewrite (proj2 (Z.ltb_ge _ 1)) by lia.
Qed.

Lemma content_of (h c rest : bytes) :
  drop (Z.to_nat (blen h)) (take (Z.to_nat (blen h + blen c)) (h ++ c ++ rest)) = c.
Proof. apply slice_mid. Qed.

Lemma rest_of (h c rest : bytes) : drop (Z.to_nat (blen h + blen c)) (h ++ c ++ rest) = rest.
Proof. rewrite app_assoc. apply drop_app_length'. rewrite length_app. unfold blen. lia. Qed.

Lemma raw_encoding_header k c :
  k <> KByte -> (k = KString -> small c = false) -> raw_encoding k c = Some (header k (blen c) ++ c).
Proof.
  intros Hk Hs. destruct k; [done| |done]. simpl. rewrite Hs, enc_string_header by auto. done.
Qed.

Lemma raw_encoding_inv k c e :
  raw_encoding k c = Some e ->
  (exists x, c = [x] /\ e = [x] /\ Z_of_byte x < 128 /\ k = KByte) \/
  (k <> KByte /\ e = header k (blen c) ++ c /\ (k = KString -> small c = false)).
Proof.
  destruct k; simpl.
  - destruct (small_cases c) as [[(x & -> & Hx) ->]| ->]; [|done]. intros [= <-]. left. by exists x.
  - destruct (small c) eqn:E; [done|]. intros [= <-]. right. by rewrite enc_string_header.
  - intros [= <-]. by right.
Qed.

Lemma Split_iff b k content rest :
  blen b < 2 ^ 63 ->
  Split b = inr (k, content, rest) <-> exists e, raw_encoding k content = Some e /\ b = e ++ rest.
Proof.
  intros Hlen. unfold Split. split.
  - destruct (ReadKind b) as [|[[k' t] n]] eqn:E; [done|]. intros [= <- <- <-].
    destruct (ReadKind_inv b k' t n E) as [(x & r & -> & Hx & ->)|(m & r & Hk & Hm & -> & H1)].
    + rewrite (ReadKind_byte x r) in E by (done || lia). injection E as <- <-. exists [x]. simpl.
      by rewrite (proj2 (Z.ltb_lt _ 128)) by done.
    + rewrite ReadKind_header in E by done.
      assert (m <= blen r) as Hmr.
      { unfold checked in E. destruct (_ <? m) eqn:Ec; [done|]. zbool. rewrite blen_app, blen_header in *.
        rewrite u64_small in * by (pose proof (headsize_bounds m); pose proof (blen_nonneg r); lia). lia. }
      assert (exists c d, r = c ++ d /\ blen c = m) as (c & d & -> & <-).
      { exists (take (Z.to_nat m) r), (drop (Z.to_nat m) r). rewrite take_drop. split; [done|].
        unfold blen in *. rewrite length_take. lia. }
      rewrite <- (blen_header k' (blen c)) in E.
      destruct (checked_split _ c _ _ _ _ _ Hlen eq_refl E) as [-> ->].
      rewrite content_of, rest_of. exists (header k' (blen c) ++ c). rewrite app_assoc. split; [|done].
      apply raw_encoding_header; [done|]. intros Ek. destruct (small_cases c) as [[(x & -> & Hx) _]|]; [|done].
      specialize (H1 Ek eq_refl). simpl in H1. lia.
  - intros (e & He & ->). destruct (raw_encoding_inv k content e He) as [(x & -> & -> & Hx & ->)|(Hk & -> & H1)].
    + cbn [app] in *. rewrite (ReadKind_byte x rest) by (done || lia). done.
    + rewrite <- app_assoc in *. pose proof (blen_nonneg content).
      assert (blen content < 2 ^ 64) by (rewrite !blen_app in Hlen; pose proof (blen_nonneg (header k (blen content))); pose proof (blen_nonneg rest); lia).
      rewrite ReadKind_header; [|done|lia|].
      * rewrite <- (blen_header k (blen content)).
        destruct (checked _ k _ _) as [|[[k' t] n]] eqn:E.
        { unfold checked in E. destruct (_ <? blen content) eqn:Ec; [|done]. apply Z.ltb_lt in Ec.
          rewrite !blen_app in *. pose proof (blen_nonneg rest). pose proof (blen_nonneg (header k (blen content))). rewrite u64_small in Ec by lia. lia. }
        assert (k' = k) as -> by (unfold checked in E; destruct (_ <? blen content); [done|by injection E]).
        destruct (checked_split _ content _ _ _ _ _ Hlen eq_refl E) as [-> ->]. by rewrite content_of, rest_of.
      * intros -> H1'. destruct content as [|x [|y l]]; [done| |rewrite !blen_cons in H1'; pose proof (blen_nonneg l); lia].
        simpl. specialize (H1 eq_refl). simpl in H1. by apply Z.ltb_ge.
Qed.

(** ** Sequences of encodings *)
Lemma ReadKind_value k c rest :
  k <> KByte -> (k = KString -> small c = false) -> blen (header k (blen c) ++ c ++ rest) < 2 ^ 63 ->
  ReadKind (header k (blen c) ++ c ++ rest) = inr (k, headsize (blen c), headsize (blen c) + blen c).
Proof.
  intros Hk H1 Hlen. pose proof (blen_nonneg c). pose proof (blen_nonneg rest).
  rewrite !blen_app, blen_header in Hlen. pose proof (headsize_bounds (blen c)).
  rewrite ReadKind_header; [|done|lia|].
  - unfold checked. rewrite !blen_app, blen_header, !u64_small by lia. by rewrite (proj2 (Z.ltb_ge _ _)) by lia.
  - intros -> H1'. destruct c as [|x [|y l]]; [done| |rewrite !blen_cons in H1'; pose proof (blen_nonneg l); lia].
    simpl. specialize (H1 eq_refl). simpl in H1. by apply Z.ltb_ge.
Qed.

Lemma ReadKind_list p rest :
  blen (enc_list p ++ rest) < 2 ^ 63 -> ReadKind (enc_list p ++ rest) = inr (KList, headsize (blen p), blen (enc_list p)).
Proof.
  change (enc_list p) with (header KList (blen p) ++ p). intros H. rewrite <- app_assoc in H |- *.
  rewrite ReadKind_value by done. by rewrite blen_app, blen_header.
Qed.

Lemma ReadKind_string s rest : small s = false ->
  blen (enc_string s ++ rest) < 2 ^ 63 -> ReadKind (enc_string s ++ rest) = inr (KString, headsize (blen s), blen (enc_string s)).
Proof.
  intros Hs H. rewrite enc_string_header in H |- * by done. rewrite <- app_assoc in H |- *.
  rewrite ReadKind_value by done. by rewrite blen_app, blen_header.
Qed.

(** The encoding of one value. *)
Definition item (e : bytes) : Prop :=
  e <> [] /\ forall rest, blen (e ++ rest) < 2 ^ 63 -> exists k t, ReadKind (e ++ rest) = inr (k, t, blen e).

Lemma item_list p : item (enc_list p).
Proof. split; [apply enc_list_not_nil|]. intros rest H. rewrite ReadKind_list by done. by eexists _, _. Qed.

Lemma item_string s : item (enc_string s).
Proof.
  split; [apply enc_string_not_nil|]. intros rest H. destruct (small_cases s) as [[(x & -> & Hx) _]|Hs].
  - simpl in *. rewrite (proj2 (Z.ltb_lt _ 128)) in * by done. cbn [app] in *. rewrite ReadKind_byte by (done || lia). by eexists _, _.
  - rewrite ReadKind_string by done. by eexists _, _.
Qed.

Lemma blen_concat_le (es : list bytes) : Forall (fun e => e <> []) es -> (length es <= length (concat es))%nat.
Proof.
  induction 1 as [|e es He _ IH]; [done|]. simpl. rewrite length_app. destruct e; [done|]. simpl. lia.
Qed.

Lemma CountValues_concat es : Forall item es -> blen (concat es) < 2 ^ 63 -> CountValues (concat es) = inr (Z.of_nat (length es)).
Proof.
  intros Hes Hlen. unfold CountValues.
  enough (forall fuel i, (length es <= fuel)%nat -> CountValues_loop fuel (concat es) i = inr (i + Z.of_nat (length es))) as ->; [done| |].
  { apply blen_concat_le. eapply Forall_impl; [done|]. by intros e [? _]. }
  induction Hes as [|e es [Hne He] Hes IH]; intros fuel i Hf; [simpl; destruct fuel; by rewrite Z.add_0_r|].
  destruct fuel as [|fuel]; [simpl in Hf; lia|]. simpl concat in *. destruct e as [|x e]; [done|].
  destruct (He (concat es) Hlen) as (k & t & E). cbn [CountValues_loop app]. cbn [app] in E. rewrite E.
  change (x :: e ++ concat es) with ((x :: e) ++ concat es). unfold blen. rewrite Nat2Z.id, drop_app_length.
  rewrite IH; [f_equal; simpl; lia| |simpl in Hf; lia]. rewrite blen_app in Hlen. pose proof (blen_nonneg (x :: e)). lia.
Qed.

Lemma SplitString_enc s rest : blen (enc_string s ++ rest) < 2 ^ 63 -> SplitString (enc_string s ++ rest) = inr (s, rest).
Proof.
  intros Hlen. unfold SplitString.
  assert (exists k, k <> KList /\ raw_encoding k s = Some (enc_string s)) as (k & Hk & E).
  { destruct (small_cases s) as [[(x & -> & Hx) Hs]|Hs]; [exists KByte|exists KString]; (split; [done|]); unfold raw_encoding; rewrite Hs; [|done].
    simpl. by rewrite (proj2 (Z.ltb_lt _ 128)). }
  rewrite (proj2 (Split_iff _ k s rest Hlen)) by eauto. by destruct k.
Qed.

Lemma SplitList_enc p rest : blen (enc_list p ++ rest) < 2 ^ 63 -> SplitList (enc_list p ++ rest) = inr (p, rest).
Proof.
  intros Hlen. unfold SplitList. by rewrite (proj2 (Split_iff _ KList p rest Hlen)) by (by eexists).
Qed.

(** [Split] accepts exactly the canonical encodings: it returns kind,
    content and rest if and only if its input is the encoding of that kind
    and content followed by that rest; a single byte below 0x80 is never
    accepted in the longer form, nor a size with leading zeros. *)
Theorem Split_canonical b k content rest :
  blen b < 2 ^ 63 ->
  Split b = inr (k, content, rest) <-> exists e, raw_encoding k content = Some e /\ b = e ++ rest.
Proof. apply Split_iff. Qed.

Lemma Split_canonical_witness :
  exists e, raw_encoding KString (replicate 60 Byte.xff) = Some e /\
    Split (e ++ [Byte.x01]) = inr (KString, replicate 60 Byte.xff, [Byte.x01]).
Proof.
  eexists. split; [vm_compute; reflexivity|]. apply Split_canonical; [vm_compute; reflexivity|].
  eexists. split; vm_compute; reflexivity.
Defined.

(** ** The array of one zero byte

    [decodeByteArray] reads a single byte with [Uint] and ignores its error.
    [Uint] refuses a zero byte before it rearms the stream, so the byte is
    read again by whatever comes next. *)
Definition pair_typ : typ := TStruct (FCons no_tags (TByteArray 1) (FCons no_tags (TUint 64) FNil)).

Example one_byte_array_rereads :
  let b := [Byte.xc2; Byte.x00; Byte.x05] in
  EncodeToBytes pair_typ (VList [VBytes [Byte.x00]; VUint 5]) = inr (Some b) /\
  (match DecodeBytes pair_typ b with
   | Fail e _ => String.eqb e (wrapStreamError ErrCanonInt)
   | _ => false
   end) = true.
Proof. split; vm_compute; reflexivity. Qed.

Definition list_of_zero : bytes := [Byte.xc1; Byte.x00].

(** The state after the zero byte has been looked at. *)
Definition stuck : Stream :=
  mkStream [] 0 true (Some KByte) 0 Byte.x00 None [mkListpos 1 1].

Lemma stuck_loops fuel : decodeSliceElems fuel (decodeByteArray 1) stuck = Panic out_of_fuel.
Proof.
  assert (decodeByteArray 1 stuck = Done (VBytes [Byte.x00]) stuck) as E by (vm_compute; reflexivity).
  induction fuel as [|fuel IH]; [done|]. cbn [decodeSliceElems].
  rewrite (bind_done _ _ _ _ _ (attempt_done _ _ _ _ E)). by rewrite (bind_panic _ _ _ _ IH).
Qed.

(** Decoding the list of one zero byte into a slice of one-byte arrays never
    ends, whatever the fuel. *)
Lemma slice_of_byte_arrays_diverges fuel :
  DecodeBytes_fuel fuel (TSlice (TByteArray 1)) list_of_zero = Panic out_of_fuel.
Proof.
  unfold DecodeBytes_fuel. cbn [tags_ok decoder tail no_tags].
  assert (exists s1, wrap stream_List (NewStream list_of_zero) = Done 1 s1 /\
    decodeByteArray (Z.of_nat 1) s1 = Done (VBytes [Byte.x00]) stuck) as (s1 & E1 & E2).
  { exists (mkStream [Byte.x00] 1 true None 0 Byte.x00 None [mkListpos 0 1]). split; vm_compute; reflexivity. }
  apply bind_panic. unfold decodeListSlice. rewrite (bind_done _ _ _ _ _ E1). simpl (1 =? 0). cbn match.
  apply bind_panic. destruct fuel as [|fuel]; [done|]. cbn [decodeSliceElems].
  rewrite (bind_done _ _ _ _ _ (attempt_done _ _ _ _ E2)). by rewrite (bind_panic _ _ _ _ (stuck_loops fuel)).
Qed.
