(* ===== verification/Crypto.v ===== *)
(** * Hashing and signatures: the interface of the libraries under [crypto]

    Keccak-256 ([golang.org/x/crypto/sha3]) and secp256k1 public key recovery
    (a C library) are not Go code of the repository: they are the operations
    of [Crypto].  [Address.Hex] of [common/types.go] is written over them. *)
From S2P Require Import Prelude Bytes.

Class Crypto : Type := {
  keccak256 : bytes -> bytes;
  (** hash, signature; an error message or the uncompressed public key *)
  Ecrecover : bytes -> bytes -> string + bytes;
}.

Class CryptoLaws `{Crypto} : Prop := {
  length_keccak256 b : length (keccak256 b) = 32%nat;
  length_Ecrecover h sig pk : Ecrecover h sig = inr pk -> length pk = 65%nat;
}.

(** [hex.EncodeToString]: two lower case digits per byte. *)
Definition hex_digit (z : Z) : Z := if z <? 10 then 48 + z else 87 + z.
Definition EncodeToString (b : bytes) : bytes :=
  flat_map (fun x => [byte_of_Z (hex_digit (Z.shiftr (Z_of_byte x) 4));
                      byte_of_Z (hex_digit (Z.land (Z_of_byte x) 15))]) b.

Definition string_of_bytes (b : bytes) : string := String.string_of_list_byte b.

Section address.
Context `{Crypto}.

(** [Address.Hex]: the EIP-55 capitalisation of the hexadecimal digits. *)
Definition Address_Hex (a : Address) : string :=
  let unchecksummed := EncodeToString (addr_bytes a) in
  let hash := keccak256 unchecksummed in
  let result := imap (fun i c =>
    let hashByte := Z_of_byte (default Byte.x00 (hash !! Nat.div i 2)) in
    let hashByte := if Nat.even i then Z.shiftr hashByte 4 else Z.land hashByte 15 in
    if (57 <? Z_of_byte c) && (7 <? hashByte) then byte_of_Z (Z_of_byte c - 32) else c) unchecksummed in
  ("0x" ++ string_of_bytes result)%string.

Definition Address_String (a : Address) : string := Address_Hex a.
End address.

(** ** A concrete instance, for evaluating the model on examples

    A hash that truncates and a recovery that reads the address off the
    signature: they satisfy the laws and can be evaluated. *)
Definition toy_crypto : Crypto := {|
  keccak256 b := take 32 (b ++ replicate 32 Byte.x00);
  Ecrecover h sig := inr (Byte.x04 :: replicate 12 Byte.x00 ++ take 20 (sig ++ replicate 20 Byte.x00) ++ replicate 32 Byte.x00);
|}.

Lemma toy_crypto_laws : @CryptoLaws toy_crypto.
Proof.
  split.
  - intros b. unfold keccak256, toy_crypto. rewrite length_take, length_app, length_replicate. lia.
  - intros h sig pk. unfold Ecrecover, toy_crypto. intros [= <-]. cbn [length].
    rewrite length_app, length_take, length_app. change (length (replicate _ _)) with 20%nat. cbn [length]. lia.
Qed.
