(* ===== verification/Trie.v ===== *)
(** * The Merkle tries: [taraxa/trie]

    Key encodings ([encoding.go]), nodes ([layout.go]), reading from the
    database ([reader.go]), and the [Writer] with insertion, deletion and
    [Commit] ([writer.go], [hash_encoder.go]).

    The database is what was committed last: a read does not see the writes
    of the pending block, which are collected ([writes]) and applied at its
    end.  A node is mutated only while it belongs to one tree, so nodes are
    values here; an operation returns the tree it leaves behind. *)
From S2P Require Import Prelude Bytes Rlp Crypto.
Local Open Scope Z_scope.

(** ** Key encodings: [encoding.go] *)
Definition HashLength : nat := 32.
Definition HexKeyLen : nat := 65.

(** The nibbles of a key, with the terminator 16 at the end. *)
Definition keybytes_to_hex (key : bytes) : list Z :=
  flat_map (fun b => [Z_of_byte b / 16; Z_of_byte b mod 16]) key ++ [16].

Definition hasTerm (s : list Z) : bool := match last s with Some 16 => true | _ => false end.

(** [nibbles[ni]<<4 | nibbles[ni+1]] on bytes; [None] where Go panics. *)
Fixpoint decodeNibbles (nibbles : list Z) : option bytes :=
  match nibbles with
  | [] => Some []
  | a :: b :: rest => cons (byte_of_Z (Z.lor (Z.shiftl a 4) b)) <$> decodeNibbles rest
  | [_] => None
  end.

(** Without the terminator. *)
Definition strip_term (s : list Z) : list Z := if hasTerm s then take (length s - 1) s else s.

Definition HexKeyCompactLen : nat := 33.

Definition hex_to_compact (key : list Z) : option bytes :=
  let terminator := if hasTerm key then 1 else 0 in
  let key := strip_term key in
  if (HexKeyCompactLen <? Nat.div (length key) 2 + 1)%nat then None else
  let flag := Z.shiftl terminator 5 in
  if Z.land (Z.of_nat (length key)) 1 =? 1 then
    match key with
    | first :: rest => cons (byte_of_Z (Z.lor (Z.lor flag (Z.shiftl 1 4)) first)) <$> decodeNibbles rest
    | [] => None
    end
  else cons (byte_of_Z flag) <$> decodeNibbles key.

Definition compact_to_hex (compact : bytes) : option (list Z) :=
  let ret := keybytes_to_hex compact in
  match ret with
  | [] => None
  | first :: _ =>
      let ret := if first <? 2 then take (length ret - 1) ret else ret in
      let chop := Z.to_nat (2 - Z.land first 1) in
      if (length ret <? chop)%nat then None else Some (drop chop ret)
  end.

(** Into a buffer of 32 bytes. *)
Definition hex_to_keybytes (key : list Z) : option bytes :=
  let key := strip_term key in
  if Z.land (Z.of_nat (length key)) 1 =? 1 then None else
  match decodeNibbles key with
  | Some b => if (length b <=? HashLength)%nat then Some (b ++ replicate (HashLength - length b) Byte.x00) else None
  | None => None
  end.

Fixpoint prefixLen (a b : list Z) : nat :=
  match a, b with
  | x :: a, y :: b => if x =? y then S (prefixLen a b) else 0%nat
  | _, _ => 0%nat
  end.

(** ** The database *)
(** [Input]: what the callbacks are called with, if they are called. *)
Record TrieDB := mkTrieDB {
  GetValue : bytes -> option bytes;
  GetNode : bytes -> option bytes;
}.

(** The writes of [IO]. *)
Inductive Write :=
| PutValue (key value : bytes)
| PutNode (hash node : bytes).

Record IO := mkIO {
  committed : TrieDB;
  writes : list Write;
}.

(** The callback is called for a value that is not empty. *)
Definition present (o : option bytes) : option bytes := match o with Some [] => None | _ => o end.

Definition apply_write (db : TrieDB) (w : Write) : TrieDB :=
  match w with
  | PutValue k v => mkTrieDB (fun k' => if decide (k' = k) then present (Some v) else GetValue db k') (GetNode db)
  | PutNode h n => mkTrieDB (GetValue db) (fun h' => if decide (h' = h) then present (Some n) else GetNode db h')
  end.

Definition apply_writes (db : TrieDB) (ws : list Write) : TrieDB := foldl apply_write db ws.

(** [Schema]; [None] where the encoding of the hash panics. *)
Record Schema := mkSchema {
  ValueStorageToHashEncoding : bytes -> option bytes;
  MaxValueSizeToStoreInTrie : Z;
}.

Section trie.
Context `{Crypto}.
(** Values of other packages, which encode themselves. *)
Context {V : Type} (EncodeForTrie : V -> bytes * bytes).

(** ** Nodes: [layout.go] *)
Inductive Value :=
| internal_value (enc_storage enc_hash : bytes)
| external_value (v : V).

(** [NValue None] is [nil_val_node]: the value is in the database. *)
Inductive node :=
| NNil
| NHash (h : bytes)
| NShort (key_part : list Z) (val : node) (hash : option bytes)
| NFull (children : list node) (hash : option bytes)
| NValue (v : option Value).

Definition full_node_child_cnt : nat := 16.
Definition empty_children : list node := replicate full_node_child_cnt NNil.

Definition get_hash (n : node) : option bytes :=
  match n with NHash h => Some h | NShort _ _ h | NFull _ h => h | _ => None end.

Definition encode_value (v : Value) : bytes * bytes :=
  match v with internal_value s h => (s, h) | external_value v => EncodeForTrie v end.

Context (schema : Schema).

(** ** Reading: [reader.go] *)
Abbreviation R := (M TrieDB).

Definition or_panic {A} (msg : string) (o : option A) : R A := match o with Some a => ret a | None => panic msg end.

Definition resolve_val_n (key : bytes) : R node := fun db =>
  match GetValue db key with
  | None => Panic "assertion failed"
  | Some enc_storage =>
      match ValueStorageToHashEncoding schema enc_storage with
      | Some enc_hash => Done (NValue (Some (internal_value enc_storage enc_hash))) db
      | None => Panic "rlp error"
      end
  end.

Definition resolve_val_n_by_hex_k (hex_key : list Z) : R node :=
  key ← or_panic "can't convert hex key" (hex_to_keybytes hex_key); resolve_val_n key.

Definition must {A} (r : string + A) : R A := match r with inl err => panic err | inr a => ret a end.

Section dec.
Context (dec_node : list Z -> option bytes -> bytes -> R (node * bytes)).

Definition dec_short (key_prefix : list Z) (db_hash : option bytes) (buf : bytes) (payload_start : Z) : R node :=
  '(key_ext, content) ← must (SplitString (drop (Z.to_nat payload_start) buf));
  key_ext ← or_panic "slice bounds out of range" (compact_to_hex key_ext);
  if hasTerm key_ext then
    if (length content =? 0)%nat then
      v ← resolve_val_n_by_hex_k (key_prefix ++ key_ext); ret (NShort key_ext v db_hash)
    else
      '(content, _) ← must (SplitString content);
      if (length content =? HashLength)%nat then ret (NShort key_ext (NValue None) (Some content))
      else if (0 <? Z.of_nat (length content)) && (Z.of_nat (length content) <=? MaxValueSizeToStoreInTrie schema) then
        enc_hash ← or_panic "rlp error" (ValueStorageToHashEncoding schema content);
        ret (NShort key_ext (NValue (Some (internal_value content enc_hash))) db_hash)
      else panic "assertion failed"
  else
    '(val, _) ← dec_node (key_prefix ++ key_ext) None content;
    ret (NShort key_ext val
           (match val, db_hash with NHash _, None => Some (keccak256 buf) | _, _ => db_hash end)).

(** The loop of [dec_full] over the children [i], [i+1], ... *)
Fixpoint dec_children (key_prefix : list Z) (cnt : nat) (i : Z) (enc : bytes) : R (list node) :=
  match cnt with
  | O => ret []
  | S cnt => '(c, enc) ← dec_node (key_prefix ++ [i]) None enc; cs ← dec_children key_prefix cnt (i + 1) enc; ret (c :: cs)
  end.

Definition dec_full (key_prefix : list Z) (db_hash : option bytes) (enc : bytes) : R node :=
  cs ← dec_children key_prefix full_node_child_cnt 0 enc; ret (NFull cs db_hash).
End dec.

(** One unit of fuel for each level of nesting. *)
Fixpoint dec_node (fuel : nat) (key_prefix : list Z) (db_hash : option bytes) (buf : bytes) : R (node * bytes) :=
  match fuel with
  | O => panic "out of fuel"
  | S fuel =>
      '(kind, tagsize, total_size) ← must (ReadKind buf);
      let payload := drop (Z.to_nat tagsize) (take (Z.to_nat total_size) buf) in
      let rest := drop (Z.to_nat total_size) buf in
      match kind with
      | KList =>
          size ← must (CountValues payload);
          if (size =? 1) || (size =? 2) then
            n ← dec_short (dec_node fuel) key_prefix db_hash (take (Z.to_nat total_size) buf) tagsize; ret (n, rest)
          else if size =? 16 then n ← dec_full (dec_node fuel) key_prefix db_hash payload; ret (n, rest)
          else panic "impossible"
      | KString =>
          if (length payload =? 0)%nat then ret (NNil, rest)
          else if (length payload =? HashLength)%nat then ret (NHash payload, rest)
          else panic "impossible"
      | KByte => panic "impossible"
      end
  end.

(** A node has at most as many levels as its key has nibbles. *)
Definition dec_fuel : nat := 80.

Definition resolve (hash : bytes) (key_prefix : list Z) : R node :=
  db ← get_st;
  match GetNode db hash with
  | None => panic "assertion failed"
  | Some buf =>
      '(n, _) ← dec_node dec_fuel key_prefix (Some hash) buf;
      match n with NNil => panic "assertion failed" | _ => ret n end
  end.

(** ** Iteration: [ForEach] *)
Section for_each.
Context (with_values : bool).

(** The list of the calls of the callback. *)
Fixpoint for_each_node (fuel : nat) (n : node) (prefix : list Z) : R (list (bytes * option Value)) :=
  match fuel with
  | O => panic "out of fuel"
  | S fuel =>
      match n with
      | NHash h => n ← resolve h prefix; for_each_node fuel n prefix
      | NShort key_part val _ =>
          let key_extended := prefix ++ key_part in
          match val with
          | NValue v =>
              key ← or_panic "can't convert hex key" (hex_to_keybytes key_extended);
              val ← (match v with None => if with_values then resolve_val_n key else ret val | Some _ => ret val end);
              match val with NValue v => ret [(key, v)] | _ => panic "impossible" end
          | _ => for_each_node fuel val key_extended
          end
      | NFull children _ =>
          calls ← map_each (fun p => match snd p with NNil => ret [] | c => for_each_node fuel c (prefix ++ [fst p]) end)
                    (imap (fun i c => (Z.of_nat i, c)) children);
          ret (concat calls)
      | _ => panic "impossible"
      end
  end.
End for_each.

Definition ForEach (fuel : nat) (root_hash : bytes) (with_values : bool) : R (list (bytes * option Value)) :=
  for_each_node with_values fuel (NHash root_hash) [].

(** The calls of the callback of [ForEachNodeHash]. *)
Fixpoint for_each_node_hash (fuel : nat) (n : node) (prefix : list Z) : R (list (bytes * bytes)) :=
  match fuel with
  | O => panic "out of fuel"
  | S fuel =>
      match n with
      | NHash h =>
          db ← get_st; n ← resolve h prefix;
          calls ← for_each_node_hash fuel n prefix;
          ret ((h, default [] (GetNode db h)) :: calls)
      | NShort key_part val _ =>
          match val with NValue _ => ret [] | _ => for_each_node_hash fuel val (prefix ++ key_part) end
      | NFull children _ =>
          calls ← map_each (fun p => match snd p with NNil => ret [] | c => for_each_node_hash fuel c (prefix ++ [fst p]) end)
                    (imap (fun i c => (Z.of_nat i, c)) children);
          ret (concat calls)
      | _ => panic "impossible"
      end
  end.

(** ** Insertion and deletion: [writer.go] *)
Definition shift (key_part_val : node) (hash : option bytes) (new_prefix : list Z) (pivot : Z) (new_suffix : list Z) (key_part : list Z) (up : bool) : R node :=
  val ← (match key_part_val with
         | NValue None => resolve_val_n_by_hex_k (new_prefix ++ pivot :: new_suffix)
         | v => ret v
         end);
  ret (if up then NShort (pivot :: new_suffix) val hash
       else match new_suffix with [] => val | _ => NShort new_suffix val hash end).

Definition child (children : list node) (i : Z) : R node :=
  or_panic "index out of range" (if i <? 0 then None else children !! Z.to_nat i).
Definition set_child (children : list node) (i : Z) (c : node) : list node := <[Z.to_nat i := c]> children.

(** The nibble at a position of [kbuf_0]. *)
Definition nibble (kbuf : list Z) (pos : nat) : R Z := or_panic "index out of range" (kbuf !! pos).

Fixpoint mpt_insert (fuel : nat) (kbuf : list Z) (n : node) (keypos : nat) (value : node) : R node :=
  match fuel with
  | O => panic "out of fuel"
  | S fuel =>
      match n with
      | NShort key_part val hash =>
          let matchlen := prefixLen (drop keypos kbuf) key_part in
          let keypos_after_match := (keypos + matchlen)%nat in
          if (keypos_after_match =? HexKeyLen)%nat then ret (NShort key_part value None)
          else if (matchlen =? length key_part)%nat then
            val ← mpt_insert fuel kbuf val keypos_after_match value; ret (NShort key_part val None)
          else
            new_pivot ← or_panic "index out of range" (key_part !! matchlen);
            _ ← child empty_children new_pivot;
            shifted ← shift val None (take keypos_after_match kbuf) new_pivot (drop (matchlen + 1) key_part) key_part false;
            new_nibble ← nibble kbuf keypos_after_match;
            _ ← child empty_children new_nibble;
            let junction := NFull (set_child (set_child empty_children new_pivot shifted) new_nibble
                                     (NShort (drop (keypos_after_match + 1) kbuf) value None)) None in
            ret (if (matchlen =? 0)%nat then junction
                 else NShort (take matchlen (drop keypos kbuf)) junction None)
      | NFull children hash =>
          i ← nibble kbuf keypos;
          c ← child children i;
          c ← mpt_insert fuel kbuf c (keypos + 1) value;
          ret (NFull (set_child children i c) None)
      | NHash h => n ← resolve h (take keypos kbuf); mpt_insert fuel kbuf n keypos value
      | NNil => ret (NShort (drop keypos kbuf) value None)
      | NValue _ => panic "impossible"
      end
  end.

(** The other children than [deletion_nibble]: the only one, if it is. *)
Definition is_nil (n : node) : bool := match n with NNil => true | _ => false end.
Definition only_child_nibble (children : list node) (deletion_nibble : Z) : option Z :=
  match filter (fun p => negb (is_nil (snd p)) && negb (Z.of_nat (fst p) =? deletion_nibble)) (imap pair children) with
  | [(i, _)] => Some (Z.of_nat i)
  | _ => None
  end.

(** The tree that is left and whether the key was found; a search that ends
    without success has dropped the hashes of the short nodes on its way. *)
Fixpoint mpt_del (fuel : nat) (kbuf : list Z) (n : node) (keypos : nat) : R (node * bool) :=
  match fuel with
  | O => panic "out of fuel"
  | S fuel =>
      match n with
      | NShort key_part val hash =>
          let matchlen := prefixLen (drop keypos kbuf) key_part in
          if negb (matchlen =? length key_part)%nat then ret (n, false) else
          let keypos := (keypos + matchlen)%nat in
          if (keypos =? length kbuf)%nat then ret (NNil, true) else
          '(c, found) ← mpt_del fuel kbuf val keypos;
          ret (match c with
               | NShort child_key child_val _ => if found : bool then NShort (key_part ++ child_key) child_val None else NShort key_part c None
               | _ => NShort key_part c None
               end, found)
      | NFull children hash =>
          deletion_nibble ← nibble kbuf keypos;
          c ← child children deletion_nibble;
          '(deletion_child, found) ← mpt_del fuel kbuf c (keypos + 1);
          if negb found then ret (NFull (set_child children deletion_nibble deletion_child) hash, false) else
          match (if is_nil deletion_child then only_child_nibble children deletion_nibble else None) with
          | None => ret (NFull (set_child children deletion_nibble deletion_child) None, true)
          | Some i =>
              only_child ← child children i;
              only_child ← (match only_child with NHash h => resolve h (take keypos kbuf ++ [i]) | c => ret c end);
              match only_child with
              | NShort key_part val _ => n ← shift val None (take keypos kbuf) i key_part key_part true; ret (n, true)
              | c => ret (NShort [i] c None, true)
              end
          end
      | NHash h =>
          resolved ← resolve h (take keypos kbuf);
          '(n', found) ← mpt_del fuel kbuf resolved keypos;
          ret (if found : bool then n' else n, found)
      | NNil => ret (NNil, false)
      | NValue _ => panic "impossible"
      end
  end.

(** Each nibble of a key is passed at most twice. *)
Definition key_fuel : nat := 200.

(** ** Encoding: [hash_encoder.go], [commit_context.go] *)
Record hash_encoder := mkHashEncoder { encoder : Encoder; disabled : bool }.

Definition he_Reset : hash_encoder := mkHashEncoder Encoder_Reset false.
Definition he_Toggle : M hash_encoder () := modify_st (fun self => mkHashEncoder (encoder self) (negb (disabled self))).

(** A call on the encoder, unless it is disabled. *)
Definition enabled {A} (default : A) (m : M Encoder A) : M hash_encoder A := fun self =>
  if disabled self then Done default self else
  match m (encoder self) with
  | Done a e => Done a (mkHashEncoder e false)
  | Fail err e => Fail err (mkHashEncoder e false)
  | Panic msg => Panic msg
  end.

Definition he_AppendString (str : bytes) : M hash_encoder () := enabled tt (AppendString str).
(** A position, or [-1]. *)
Definition he_ListStart : M hash_encoder nat := enabled 0%nat ListStart.

(** The hash that is assigned to [*out], if any. *)
Definition ListEnd_hash (list_pos : nat) (is_root : bool) : M Encoder (option bytes) :=
  _ ← ListEnd list_pos; e ← get_st;
  match ListSize e list_pos with
  | None => panic "list is not closed"
  | Some size =>
      if (size <? 32) && negb is_root then ret None else
      match Flush e (Some list_pos) with
      | None => panic "index out of range"
      | Some encoding =>
          let hash := keccak256 encoding in
          _ ← when (negb is_root) (_ ← RevertToListStart list_pos; AppendString hash);
          ret (Some hash)
      end
  end.
Definition he_ListEnd (list_pos : nat) (is_root : bool) : M hash_encoder (option bytes) :=
  enabled None (ListEnd_hash list_pos is_root).

(** [commit_context] together with the database that is written. *)
Record Ctx := mkCtx {
  enc_hash : hash_encoder;
  enc_storage : Encoder;
  db_tx : IO;
}.

Definition on_hash {A} (m : M hash_encoder A) : M Ctx A := fun c =>
  match m (enc_hash c) with
  | Done a e => Done a (mkCtx e (enc_storage c) (db_tx c))
  | Fail err e => Fail err (mkCtx e (enc_storage c) (db_tx c))
  | Panic msg => Panic msg
  end.
Definition on_storage {A} (m : M Encoder A) : M Ctx A := fun c =>
  match m (enc_storage c) with
  | Done a e => Done a (mkCtx (enc_hash c) e (db_tx c))
  | Fail err e => Fail err (mkCtx (enc_hash c) e (db_tx c))
  | Panic msg => Panic msg
  end.
Definition put (w : Write) : M Ctx () :=
  modify_st (fun c => mkCtx (enc_hash c) (enc_storage c) (mkIO (committed (db_tx c)) (writes (db_tx c) ++ [w]))).

Definition ctx_panics {A} (msg : string) (o : option A) : M Ctx A := match o with Some a => ret a | None => panic msg end.

(** [enc_storage.ToBytes] from a list on. *)
Definition storage_ToBytes (list_pos : nat) : M Ctx bytes :=
  c ← get_st; ctx_panics "index out of range" (Flush (enc_storage c) (Some list_pos)).

(** ** [Writer.commit] *)
Section commit.
Context (FullNodeLevelsToCache : Z).

(** The hash of a node after [ListEnd(.., &n.hash)]. *)
Definition out_hash (hash out : option bytes) : option bytes := match out with Some h => Some h | None => hash end.

(** The value of a leaf: what is put, and what is appended.  The encodings
    are kept in a local copy of the value node, so a value of another package
    is encoded and put at every commit. *)
Definition commit_value (key_prefix key_part : list Z) (val_n : option Value) (hash : option bytes) : M Ctx bytes :=
  match val_n with
  | Some v =>
      let '(enc_s, enc_h) := encode_value v in
      _ ← (match v with
           | internal_value _ _ => ret tt
           | external_value _ =>
               key ← ctx_panics "can't convert hex key" (hex_to_keybytes (key_prefix ++ key_part)); put (PutValue key enc_s)
           end);
      _ ← on_hash (he_AppendString enc_h); ret enc_s
  | None => match hash with Some _ => ret [] | None => panic "assertion failed" end
  end.

Fixpoint commit (full_nodes_above : Z) (key_prefix : list Z) (n : node) {struct n} : M Ctx node :=
  let is_root := (length key_prefix =? 0)%nat in
  match n with
  | NHash h => _ ← on_hash (he_AppendString h); _ ← on_storage (AppendString h); ret n
  | NShort key_part val hash =>
      let cached := match hash with Some _ => true | None => false end in
      _ ← (match hash with Some h => _ ← on_hash (he_AppendString h); on_hash he_Toggle | None => ret tt end);
      storage_list_start ← on_storage ListStart;
      hash_list_start ← on_hash he_ListStart;
      hashed_key_ext ← ctx_panics "slice bounds out of range" (hex_to_compact key_part);
      _ ← on_storage (AppendString hashed_key_ext);
      _ ← on_hash (he_AppendString hashed_key_ext);
      n ← (match val with
           | NValue val_n =>
               enc_s ← commit_value key_prefix key_part val_n hash;
               out ← on_hash (he_ListEnd hash_list_start is_root);
               _ ← (match out_hash hash out with
                    | Some h => on_storage (AppendString h)
                    | None =>
                        if Z.of_nat (length enc_s) <=? MaxValueSizeToStoreInTrie schema
                        then on_storage (AppendString enc_s) else ret tt
                    end);
               ret (NShort key_part val (out_hash hash out))
           | _ =>
               val ← commit full_nodes_above (key_prefix ++ key_part) val;
               out ← on_hash (he_ListEnd hash_list_start is_root);
               ret (NShort key_part val (out_hash hash out))
           end);
      _ ← on_storage (ListEnd storage_list_start);
      _ ← when is_root
            (h ← ctx_panics "invalid memory address or nil pointer dereference" (get_hash n);
             encoding ← storage_ToBytes storage_list_start; put (PutNode h encoding));
      _ ← when cached (on_hash he_Toggle);
      ret n
  | NFull children (Some h) =>
      _ ← on_hash (he_AppendString h); _ ← on_storage (AppendString h);
      ret (if FullNodeLevelsToCache <=? full_nodes_above then NHash h else n)
  | NFull children None =>
      hash_list_start ← on_hash he_ListStart;
      storage_list_start ← on_storage ListStart;
      children ← (fix go (i : Z) (cs : list node) : M Ctx (list node) :=
        match cs with
        | [] => ret []
        | c :: cs =>
            c ← (match c with
                 | NNil => _ ← on_hash (he_AppendString []); _ ← on_storage (AppendString []); ret NNil
                 | _ => commit (full_nodes_above + 1) (key_prefix ++ [i]) c
                 end);
            cs ← go (i + 1) cs; ret (c :: cs)
        end) 0 children;
      _ ← on_storage (ListEnd storage_list_start);
      _ ← on_hash (he_AppendString []);
      out ← on_hash (he_ListEnd hash_list_start is_root);
      match out with
      | None => ret (NFull children None)
      | Some h =>
          encoding ← storage_ToBytes storage_list_start;
          _ ← put (PutNode h encoding);
          _ ← when (negb is_root) (_ ← on_storage (RevertToListStart storage_list_start); on_storage (AppendString h));
          ret (if FullNodeLevelsToCache <=? full_nodes_above then NHash h else NFull children (Some h))
      end
  | NNil | NValue _ => panic "impossible"
  end.
End commit.

(** ** [Writer] *)
Record Writer := mkWriter {
  root : node;
  FullNodeLevelsToCache : Z;
}.

Definition MaxDepth : Z := 64.

Definition Writer_Init (root_hash : option bytes) (levels : Z) : option Writer :=
  if levels <=? MaxDepth then Some (mkWriter (match root_hash with Some h => NHash h | None => NNil end) levels) else None.

(** A reading operation; it does not see what the block has written. *)
Definition reading {A} (m : R A) : M IO A := fun io =>
  match m (committed io) with
  | Done a _ => Done a io
  | Fail err _ => Fail err io
  | Panic msg => Panic msg
  end.

(** [Put]: [write] with a value. *)
Definition Writer_Put (self : Writer) (k : bytes) (v : V) : M IO Writer :=
  root ← reading (mpt_insert key_fuel (keybytes_to_hex k) (root self) 0 (NValue (Some (external_value v))));
  ret (mkWriter root (FullNodeLevelsToCache self)).

(** [Delete]: [write] with [nil_val_node]. *)
Definition Writer_Delete (self : Writer) (k : bytes) : M IO Writer :=
  '(root, found) ← reading (mpt_del key_fuel (keybytes_to_hex k) (root self) 0);
  _ ← when (found : bool) (modify_st (fun io => mkIO (committed io) (writes io ++ [PutValue k []])));
  ret (mkWriter root (FullNodeLevelsToCache self)).

Definition Writer_Commit (self : Writer) : M IO (option bytes * Writer) := fun io =>
  match root self with
  | NNil => Done (None, self) io
  | NValue _ => Panic "N/A"
  | n =>
      match get_hash n with
      | Some h => Done (Some h, self) io
      | None =>
          match commit (FullNodeLevelsToCache self) 0 [] n (mkCtx he_Reset Encoder_Reset io) with
          | Done n c =>
              match get_hash n with
              | Some h => Done (Some h, mkWriter n (FullNodeLevelsToCache self)) (db_tx c)
              | None => Panic "invalid memory address or nil pointer dereference"
              end
          | Fail err c => Fail err (db_tx c)
          | Panic msg => Panic msg
          end
      end
  end.
End trie.
