(* ===== verification/TrieSpec.v ===== *)
(** * The specification of the tries: canonical Patricia trees

    A [tree] is a trie without hashes.  [lookup], [insert] and [delete] on
    it, the laws of a finite map, and canonicity: two well-formed trees with
    the same contents are equal. *)
From S2P Require Import Prelude Bytes Trie.

(** ** Trees *)
Inductive tree :=
| TNil
| TShort (key : list Z) (t : tree)
| TFull (ts : list tree)
| TVal (enc_storage enc_hash : bytes).

(** Induction with the hypothesis for every child. *)
Section tree_ind.
Context (P : tree -> Prop).
Context (Hnil : P TNil) (Hshort : forall k t, P t -> P (TShort k t))
  (Hfull : forall ts, Forall P ts -> P (TFull ts)) (Hval : forall s h, P (TVal s h)).

Fixpoint tree_ind' (t : tree) : P t :=
  match t with
  | TNil => Hnil
  | TShort k t => Hshort k t (tree_ind' t)
  | TFull ts => Hfull ts ((fix go (ts : list tree) : Forall P ts := match ts with
      | [] => List.Forall_nil P
      | t :: ts => List.Forall_cons P t ts (tree_ind' t) (go ts)
      end) ts)
  | TVal s h => Hval s h
  end.
End tree_ind.

Definition t_is_nil (t : tree) : bool := match t with TNil => true | _ => false end.
Definition no_children : list tree := replicate full_node_child_cnt TNil.

(** ** Keys *)
Definition nib (x : Z) : Prop := 0 <= x < 16.

(** A key with [d] positions to go, the last one the terminator. *)
Inductive hexkey : nat -> list Z -> Prop :=
| hexkey_end : hexkey 1 [16]
| hexkey_cons d x k : nib x -> hexkey d k -> hexkey (S d) (x :: k).

(** Well-formed trees for keys with [d] positions to go: paths are
    compressed, a full node has at least two children. *)
Inductive wf : nat -> tree -> Prop :=
| wf_leaf d k s h : hexkey d k -> wf d (TShort k (TVal s h))
| wf_ext d d' k ts : k <> [] -> Forall nib k -> d = (length k + d')%nat -> wf d' (TFull ts) -> wf d (TShort k (TFull ts))
| wf_full d ts i j ti tj :
    length ts = full_node_child_cnt -> i <> j -> ts !! i = Some ti -> ts !! j = Some tj -> ti <> TNil -> tj <> TNil ->
    (forall i t, ts !! i = Some t -> t <> TNil -> wf d t) -> wf (S d) (TFull ts).

Definition wf0 (d : nat) (t : tree) : Prop := t = TNil \/ wf d t.

(** ** Operations *)
Fixpoint strip (k key : list Z) : option (list Z) :=
  match k, key with
  | [], _ => Some key
  | x :: k, y :: key => if x =? y then strip k key else None
  | _ :: _, [] => None
  end.

Fixpoint t_lookup (key : list Z) (t : tree) {struct t} : option (bytes * bytes) :=
  match t with
  | TNil => None
  | TVal s h => match key with [] => Some (s, h) | _ => None end
  | TShort k t => match strip k key with Some key => t_lookup key t | None => None end
  | TFull ts => match key with
                | [] => None
                | x :: key => if x <? 0 then None else (fix go (n : nat) (ts : list tree) {struct ts} := match ts, n with
                    | t :: _, O => t_lookup key t
                    | _ :: ts, S n => go n ts
                    | [], _ => None
                    end) (Z.to_nat x) ts
                end
  end.

(** The junction of two branches that part at nibbles [x] and [y]. *)
Definition junction (x : Z) (tx : tree) (y : Z) (ty : tree) : tree :=
  TFull (<[Z.to_nat y := ty]> (<[Z.to_nat x := tx]> no_children)).

Definition t_short (k : list Z) (t : tree) : tree := match k with [] => t | _ => TShort k t end.

Fixpoint t_insert (key : list Z) (s h : bytes) (t : tree) {struct t} : tree :=
  match t with
  | TNil => TShort key (TVal s h)
  | TVal _ _ => TVal s h
  | TShort k t =>
      let m := prefixLen key k in
      if (m =? length k)%nat then TShort k (t_insert (drop m key) s h t)
      else t_short (take m k)
             (junction (nth m k 0) (t_short (drop (S m) k) t) (nth m key 0) (TShort (drop (S m) key) (TVal s h)))
  | TFull ts =>
      match key with
      | [] => TFull ts
      | x :: key => TFull (alter (t_insert key s h) (Z.to_nat x) ts)
      end
  end.

(** The nibble of the only child, if there is only one. *)
Definition t_only (ts : list tree) : option (nat * tree) :=
  match filter (fun p => negb (t_is_nil (snd p))) (imap pair ts) with [p] => Some p | _ => None end.

Definition t_push (k : list Z) (t : tree) : tree :=
  match t with TShort k' t => TShort (k ++ k') t | t => TShort k t end.

(** What is left of a full node. *)
Definition t_collapse (ts : list tree) : tree :=
  match t_only ts with Some (i, t) => t_push [Z.of_nat i] t | None => TFull ts end.

(** [None]: the key is not there. *)
Fixpoint t_delete (key : list Z) (t : tree) {struct t} : option tree :=
  match t with
  | TNil => None
  | TVal _ _ => Some TNil
  | TShort k t => match strip k key with
                  | None => None
                  | Some key => (fun t => match t with TNil => TNil | t => t_push k t end) <$> t_delete key t
                  end
  | TFull ts => match key with
                | [] => None
                | x :: key => t_collapse <$> (fix go (n : nat) (ts : list tree) {struct ts} := match ts, n with
                    | t :: ts, O => (fun t => t :: ts) <$> t_delete key t
                    | t :: ts, S n => cons t <$> go n ts
                    | [], _ => None
                    end) (Z.to_nat x) ts
                end
  end.

(** ** The operations on a full node *)
Lemma t_lookup_full x key ts : 0 <= x ->
  t_lookup (x :: key) (TFull ts) = match ts !! Z.to_nat x with Some t => t_lookup key t | None => None end.
Proof. intros Hx. cbn [t_lookup]. rewrite (proj2 (Z.ltb_ge _ _)) by done. generalize (Z.to_nat x) as n. induction ts as [|t ts IH]; intros [|n]; cbn; [done..|apply IH]. Qed.

Lemma t_lookup_child i key ts :
  t_lookup (Z.of_nat i :: key) (TFull ts) = match ts !! i with Some t => t_lookup key t | None => None end.
Proof. rewrite t_lookup_full by lia. by rewrite Nat2Z.id. Qed.

Lemma t_lookup_full_inv x key ts v :
  t_lookup (x :: key) (TFull ts) = Some v -> 0 <= x /\ exists t, ts !! Z.to_nat x = Some t /\ t_lookup key t = Some v.
Proof.
  intros E. assert (0 <= x) as Hx by (cbn [t_lookup] in E; by destruct (Z.ltb_spec x 0)).
  split; [done|]. rewrite t_lookup_full in E by done. destruct (ts !! Z.to_nat x); [by eexists|done].
Qed.

Lemma t_lookup_short key k t :
  t_lookup key (TShort k t) = match strip k key with Some key => t_lookup key t | None => None end.
Proof. reflexivity. Qed.

Lemma t_delete_short key k t : t_delete key (TShort k t) = match strip k key with
  | None => None
  | Some key => (fun t => match t with TNil => TNil | t => t_push k t end) <$> t_delete key t
  end.
Proof. reflexivity. Qed.

Lemma t_delete_full x key ts :
  t_delete (x :: key) (TFull ts) = match ts !! Z.to_nat x with
    | Some t => (fun t' => t_collapse (<[Z.to_nat x := t']> ts)) <$> t_delete key t
    | None => None
    end.
Proof.
  cbn [t_delete]. generalize (Z.to_nat x) as n. intros n.
  enough (forall n, (fix go (n : nat) (ts : list tree) {struct ts} := match ts, n with
                    | t :: ts, O => (fun t => t :: ts) <$> t_delete key t
                    | t :: ts, S n => cons t <$> go n ts
                    | [], _ => None
                    end) n ts = match ts !! n with Some t => (fun t' => <[n := t']> ts) <$> t_delete key t | None => None end) as ->.
  { by destruct (ts !! n) as [t|]; [destruct (t_delete key t)|]. }
  clear n. induction ts as [|t ts IH]; intros [|n]; cbn; [done..|].
  rewrite IH. by destruct (ts !! n) as [t'|]; [destruct (t_delete key t')|].
Qed.
#[global] Opaque t_collapse.

(** ** Keys *)
Lemma hexkey_length d k : hexkey d k -> length k = d.
Proof. induction 1; simpl; [done|by f_equal]. Qed.

Lemma hexkey_app d k r : Forall nib k -> hexkey d r -> hexkey (length k + d) (k ++ r).
Proof. induction 1; [done|]. intros. simpl. by constructor; [|apply IHForall]. Qed.

Lemma hexkey_inv d x k : hexkey d (x :: k) -> (d = 1%nat /\ x = 16 /\ k = []) \/ (exists d', d = S d' /\ nib x /\ hexkey d' k).
Proof. inversion 1; subst; [by left|right; eauto]. Qed.

Lemma hexkey_pos d k : hexkey d k -> (1 <= d)%nat.
Proof. inversion 1; lia. Qed.

(** What follows a prefix of nibbles, or a prefix that is not the whole key. *)
Lemma hexkey_drop d k r : hexkey d (k ++ r) -> r <> [] -> Forall nib k /\ exists d', d = (length k + d')%nat /\ hexkey d' r.
Proof.
  revert d. induction k as [|x k IH]; intros d; simpl; [intros; split; [constructor|by exists d]|].
  intros H Hr. destruct (hexkey_inv _ _ _ H) as [(-> & -> & E)|(d' & -> & Hx & H')].
  - by destruct k, r.
  - destruct (IH _ H' Hr) as [? (d'' & -> & ?)]. split; [by constructor|by eexists].
Qed.

Lemma hexkey_tail d k x r : hexkey d (k ++ x :: r) -> (2 <= d - length k)%nat ->
  Forall nib k /\ nib x /\ exists d', d = (length k + S d')%nat /\ hexkey d' r.
Proof.
  intros H Hl. destruct (hexkey_drop d k (x :: r)) as [Hk (d' & -> & H')]; [done..|]. split; [done|].
  destruct (hexkey_inv _ _ _ H') as [(-> & _)|(d'' & -> & ? & ?)]; [lia|]. split; [done|]. by exists d''.
Qed.

Lemma strip_app k key r : strip k key = Some r <-> key = k ++ r.
Proof.
  revert key. induction k as [|x k IH]; intros key; simpl; [split; congruence|].
  destruct key as [|y key]; [done|]. destruct (Z.eqb_spec x y) as [->|Hne].
  - rewrite IH. split; [by intros ->|congruence].
  - split; [done|congruence].
Qed.

Lemma strip_refl k : strip k k = Some [].
Proof. apply strip_app. by rewrite app_nil_r. Qed.

Lemma strip_None k key : strip k key = None -> forall r, key <> k ++ r.
Proof. intros H r E%strip_app. congruence. Qed.

Lemma strip_self k r : strip k (k ++ r) = Some r.
Proof. by apply strip_app. Qed.

(** Two strings agree up to the length of one of them or up to a branching. *)
Inductive parting : list Z -> list Z -> nat -> Prop :=
| parting_prefix k r : parting (k ++ r) k (length k)
| parting_short k x r : parting k (k ++ x :: r) (length k)
| parting_at c x y ka kb : x <> y -> parting (c ++ y :: kb) (c ++ x :: ka) (length c).

Lemma prefixLen_parting key k : parting key k (prefixLen key k).
Proof.
  revert k. induction key as [|y key IH]; intros k; simpl.
  - destruct k as [|x k]; [apply (parting_prefix [] [])|apply (parting_short [])].
  - destruct k as [|x k]; [apply (parting_prefix [])|].
    destruct (Z.eqb_spec y x) as [->|Hne]; [|by apply (parting_at [])].
    destruct (IH k) as [k r|k z r|c x' y' ka kb Hne].
    + apply (parting_prefix (x :: k)).
    + apply (parting_short (x :: k)).
    + by apply (parting_at (x :: c)).
Qed.

(** ** Well-formed trees *)
Create HintDb trie.
#[export] Hint Constructors hexkey wf : trie.

Lemma wf_not_nil d : ~ wf d TNil.
Proof. inversion 1. Qed.
Lemma wf_not_val d s h : ~ wf d (TVal s h).
Proof. inversion 1. Qed.

Lemma wf_full_inv d ts : wf d (TFull ts) -> exists d' i j ti tj, d = S d' /\ length ts = full_node_child_cnt /\
  i <> j /\ ts !! i = Some ti /\ ts !! j = Some tj /\ wf d' ti /\ wf d' tj /\ forall i t, ts !! i = Some t -> wf0 d' t.
Proof.
  inversion 1; subst. eexists _, i, j, ti, tj. split_and!; eauto. intros i' t Hi'.
  destruct t; [by left|right; by eapply H8..].
Qed.

Lemma wf_full_intro d ts i j ti tj :
  length ts = full_node_child_cnt -> i <> j -> ts !! i = Some ti -> ts !! j = Some tj -> wf d ti -> wf d tj ->
  (forall i t, ts !! i = Some t -> wf0 d t) -> wf (S d) (TFull ts).
Proof.
  intros Hl Hij Hi Hj Hti Htj Hall. apply (wf_full d ts i j ti tj); [done..| | |].
  - intros ->. by apply wf_not_nil in Hti.
  - intros ->. by apply wf_not_nil in Htj.
  - intros i' t Hi' Hne. by destruct (Hall i' t Hi').
Qed.

Lemma wf_pos d t : wf d t -> (1 <= d)%nat.
Proof. destruct 1 as [? ? ? ? H%hexkey_pos|? ? k ? ? ? -> ?|]; [done|destruct k; simpl; [done|lia]|lia]. Qed.

Lemma wf_full_2 d ts : wf d (TFull ts) -> (2 <= d)%nat.
Proof. intros (d' & ? & ? & ? & ? & -> & _ & _ & _ & _ & H%wf_pos & _)%wf_full_inv. lia. Qed.

(** Every well-formed tree has a key, and every key in it has its length. *)
Lemma wf_inhabited t : forall d, wf d t -> exists key v, hexkey d key /\ t_lookup key t = Some v.
Proof.
  induction t as [|k t IH|ts IH|s h] using tree_ind'; intros d Hwf; [by apply wf_not_nil in Hwf| | |by apply wf_not_val in Hwf].
  - inversion Hwf as [? ? s h Hk|? d' ? ts Hne Hk -> Ht|]; subst.
    + exists k, (s, h). split; [done|]. simpl. by rewrite strip_refl.
    + destruct (IH _ Ht) as (key & v & Hkey & Hv). exists (k ++ key), v.
      split; [by apply hexkey_app|]. simpl. by rewrite strip_self.
  - apply wf_full_inv in Hwf as (d' & i & j & ti & tj & -> & Hl & Hij & Hi & Hj & Hti & Htj & Hall).
    rewrite Forall_forall in IH. destruct (IH ti (list_elem_of_lookup_2 _ _ _ Hi) _ Hti) as (key & v & Hkey & Hv).
    exists (Z.of_nat i :: key), v. apply lookup_lt_Some in Hi as Hlt. rewrite Hl in Hlt. change full_node_child_cnt with 16%nat in Hlt.
    split; [constructor; [unfold nib; lia|done]|]. by rewrite t_lookup_child, Hi.
Qed.

(** A key against the path of a short node: it follows the path, or parts
    from it at a nibble. *)
Lemma short_cases d k t key : wf d (TShort k t) -> hexkey d key ->
  (prefixLen key k = length k /\
     ((key = k /\ exists s h, t = TVal s h) \/
      exists ts r d', t = TFull ts /\ key = k ++ r /\ d = (length k + d')%nat /\ hexkey d' r /\ wf d' t /\ Forall nib k /\ k <> [])) \/
  (exists c x y ka kb d', key = c ++ y :: kb /\ k = c ++ x :: ka /\ x <> y /\ prefixLen key k = length c /\
     Forall nib c /\ nib x /\ nib y /\ d = (length c + S d')%nat /\ hexkey d' kb /\ wf d' (t_short ka t)).
Proof.
  intros Hwf Hkey. inversion Hwf as [? ? s h Hk|? d' ? ts Hne Hnib Hd Ht|]; subst; apply hexkey_length in Hkey as Hl.
  - apply hexkey_length in Hk as Hlk. destruct (prefixLen_parting key k) as [k r|k x r|c x y ka kb Hxy].
    + left. split; [done|]. left. rewrite length_app in Hl. destruct r; [|simpl in *; lia]. rewrite app_nil_r. eauto.
    + rewrite length_app in Hlk. simpl in *. lia.
    + right. rewrite length_app in Hl, Hlk. simpl in *.
      destruct (hexkey_drop _ _ _ Hk) as [Hc (d1 & E1 & H1)]; [done|].
      destruct (hexkey_drop _ _ _ Hkey) as [_ (d2 & E2 & H2)]; [done|]. assert (d2 = d1) as -> by lia.
      destruct (hexkey_inv _ _ _ H1) as [(-> & -> & ->)|(d3 & -> & Hx & H3)].
      { destruct (hexkey_inv _ _ _ H2) as [(_ & -> & _)|(? & [= <-] & _ & H4%hexkey_pos)]; [done|lia]. }
      destruct (hexkey_inv _ _ _ H2) as [(? & _)|(? & [= <-] & Hy & H4)]; [apply hexkey_pos in H3; lia|].
      exists c, x, y, ka, kb, d3. split_and!; try done. destruct ka; [inversion H3|]. simpl. by constructor.
  - apply wf_full_2 in Ht as H2. destruct (prefixLen_parting key k) as [k r|k x r|c x y ka kb Hxy].
    + left. split; [done|]. right. rewrite length_app in Hl. exists ts, r, d'.
      destruct (hexkey_drop _ _ _ Hkey) as [_ (d2 & E2 & ?)]; [intros ->; simpl in *; lia|].
      assert (d2 = d') as -> by lia. done.
    + rewrite !length_app in Hl. simpl in *. lia.
    + right. rewrite !length_app in *. simpl in *.
      destruct (hexkey_tail _ _ _ _ Hkey) as (Hc & Hy & d1 & E1 & H1); [lia|].
      apply Forall_app in Hnib as [_ [Hx Hka]%Forall_cons].
      exists c, x, y, ka, kb, d1. split_and!; try done. replace d1 with (length ka + d')%nat by lia.
      destruct ka; [done|]. simpl t_short. econstructor; [done..|by simpl|done].
Qed.

Lemma drop_past (c : list Z) y k : drop (S (length c)) (c ++ y :: k) = k.
Proof. induction c; [done|assumption]. Qed.

(** ** Looking up *)
Lemma lookup_t_short key k t :
  t_lookup key (t_short k t) = match strip k key with Some key => t_lookup key t | None => None end.
Proof. by destruct k. Qed.

Lemma lookup_junction x tx y ty z r :
  nib x -> nib y -> x <> y -> 0 <= z ->
  t_lookup (z :: r) (junction x tx y ty) = if decide (z = y) then t_lookup r ty else if decide (z = x) then t_lookup r tx else None.
Proof.
  unfold nib. intros Hx Hy Hxy Hz. unfold junction. rewrite t_lookup_full by done.
  assert (forall z, 0 <= z < 16 -> (Z.to_nat z < length no_children)%nat) as Hlt by (intros z' ?; simpl; lia).
  case_decide as E; [subst z; by rewrite list_lookup_insert_eq by (rewrite length_insert; auto)|].
  rewrite list_lookup_insert_ne by lia.
  case_decide as E'; [subst z; by rewrite list_lookup_insert_eq by auto|].
  rewrite list_lookup_insert_ne by lia. unfold no_children.
  destruct (_ !! Z.to_nat z) eqn:E2; [|done]. by apply lookup_replicate in E2 as [-> _].
Qed.

Lemma strip_app_l c k key : strip (c ++ k) (c ++ key) = strip k key.
Proof. induction c as [|x c IH]; [done|]. simpl. by rewrite Z.eqb_refl. Qed.

(** Two keys that part at a nibble, and a third. *)
Lemma strip_parted c x k key :
  strip (c ++ x :: k) key = match strip c key with Some (z :: r) => if decide (z = x) then strip k r else None | _ => None end.
Proof.
  revert key. induction c as [|y c IH]; intros key; simpl.
  - destruct key as [|z r]; [done|]. destruct (Z.eqb_spec x z), (decide (z = x)); congruence.
  - destruct key as [|z r]; [done|]. by destruct (y =? z).
Qed.

Lemma lookup_leaf k key s h : t_lookup key (TShort k (TVal s h)) = if decide (k = key) then Some (s, h) else None.
Proof.
  simpl. case_decide as E; [subst; by rewrite strip_refl|].
  destruct (strip k key) as [r|] eqn:Es; [|done]. apply strip_app in Es as ->. destruct r; [by rewrite app_nil_r in E|done].
Qed.

(** A nibble at which keys may part. *)
Lemma hexkey_nib d d' c z r : hexkey d (c ++ z :: r) -> d = (length c + S d')%nat -> (1 <= d')%nat -> nib z /\ hexkey d' r.
Proof.
  intros H -> Hd. destruct (hexkey_tail _ _ _ _ H) as (_ & Hz & d2 & E & ?); [lia|]. by replace d' with d2 by lia.
Qed.

Lemma t_lookup_insert t : forall d key key' s h, wf0 d t -> hexkey d key -> hexkey d key' ->
  t_lookup key' (t_insert key s h t) = if decide (key = key') then Some (s, h) else t_lookup key' t.
Proof.
  induction t as [|k t IH|ts IH|s0 h0] using tree_ind'; intros d key key' s h Hwf Hkey Hkey';
    try (destruct Hwf as [Hwf|Hwf]; [done|]).
  - apply lookup_leaf.
  - simpl t_insert. destruct (short_cases _ _ _ _ Hwf Hkey) as [(-> & [(-> & s1 & h1 & ->)|(ts & r & d' & -> & -> & -> & Hr & Ht & Hk & Hne)])|
      (c & x & y & ka & kb & d' & -> & -> & Hxy & -> & Hc & Hx & Hy & -> & Hkb & Ht)].
    + rewrite Nat.eqb_refl, drop_all. cbn [t_insert]. rewrite !lookup_leaf. by case_decide.
    + rewrite Nat.eqb_refl, drop_app_length. cbn [t_lookup]. destruct (strip k key') as [r'|] eqn:Es.
      * apply strip_app in Es as ->. destruct (hexkey_drop _ _ _ Hkey') as [_ (d2 & E2 & Hr')].
        { intros ->. apply hexkey_length in Hkey'. rewrite app_nil_r in Hkey'. apply wf_pos in Ht. lia. }
        assert (d2 = d') as -> by lia. rewrite (IH d' r r') by (done || by right).
        destruct (decide (r = r')), (decide (k ++ r = k ++ r')); simplify_eq; done.
      * rewrite decide_False; [done|]. intros <-. by rewrite strip_self in Es.
    + rewrite (proj2 (Nat.eqb_neq _ _)) by (rewrite length_app; simpl; lia).
      rewrite take_app_length, !lookup_t_short. rewrite !nth_middle.
      rewrite !drop_past.
      change (t_lookup key' (TShort ?k ?t)) with (match strip k key' with Some key => t_lookup key t | None => None end).
      rewrite strip_parted. destruct (strip c key') as [[|z r]|] eqn:Es.
      * rewrite decide_False; [done|]. apply strip_app in Es as ->. intros E. by apply app_inv_head in E.
      * apply strip_app in Es as ->. destruct (hexkey_nib _ d' _ _ _ Hkey') as [Hz Hr]; [done|by eapply wf_pos|].
        rewrite lookup_junction by (done || (unfold nib in *; lia)). rewrite lookup_leaf, lookup_t_short.
        destruct (decide (z = y)) as [->|Hzy].
        { rewrite (decide_False (P := y = x)) by done. destruct (decide (kb = r)) as [->|Hkr]; [by rewrite decide_True|]. rewrite decide_False; [done|].
          intros E%app_inv_head. congruence. }
        rewrite (decide_False (P := c ++ y :: kb = _)) by (intros E%app_inv_head; congruence). by destruct (decide (z = x)).
      * rewrite decide_False; [done|]. intros <-. by rewrite strip_self in Es.
  - apply wf_full_inv in Hwf as (d' & i & j & ti & tj & -> & Hl & Hij & Hi & Hj & Hti & Htj & Hall).
    apply wf_pos in Hti as Hd.
    destruct key as [|x key]; [inversion Hkey|]. destruct key' as [|x' key']; [inversion Hkey'|].
    destruct (hexkey_nib _ d' [] _ _ Hkey eq_refl Hd) as [Hx Hk]. destruct (hexkey_nib _ d' [] _ _ Hkey' eq_refl Hd) as [Hx' Hk'].
    unfold nib in *. cbn [t_insert]. rewrite !t_lookup_full by lia. change full_node_child_cnt with 16%nat in Hl.
    destruct (decide (x = x')) as [->|Hne].
    + rewrite list_lookup_alter_eq. destruct (lookup_lt_is_Some_2 ts (Z.to_nat x')) as [t Ht]; [lia|]. rewrite Ht. simpl.
      rewrite Forall_forall in IH. rewrite (IH t (list_elem_of_lookup_2 _ _ _ Ht) d' key key') by eauto.
      destruct (decide (key = key')), (decide (x' :: key = x' :: key')); simplify_eq; done.
    + rewrite list_lookup_alter_ne by lia. rewrite decide_False by congruence. done.
  - by apply wf_not_val in Hwf.
Qed.

Lemma wf_t_short d k t : Forall nib k -> (exists ts, t = TFull ts) -> wf d t -> wf (length k + d) (t_short k t).
Proof. intros Hk [ts ->] Ht. destruct k; [done|]. by eapply wf_ext. Qed.

Lemma wf_junction d x tx y ty : nib x -> nib y -> x <> y -> wf d tx -> wf d ty -> wf (S d) (junction x tx y ty).
Proof.
  unfold nib. intros Hx Hy Hxy Htx Hty.
  assert (forall z, 0 <= z < 16 -> (Z.to_nat z < length no_children)%nat) as Hlt by (intros z' ?; simpl; lia).
  apply (wf_full_intro d _ (Z.to_nat x) (Z.to_nat y) tx ty); [by rewrite !length_insert|lia| | |done..|].
  - rewrite list_lookup_insert_ne by lia. by rewrite list_lookup_insert_eq by auto.
  - by rewrite list_lookup_insert_eq by (rewrite length_insert; auto).
  - intros i t [(_ & <- & _)|(_ & [(_ & <- & _)|(_ & E)]%list_lookup_insert_Some)]%list_lookup_insert_Some; [by right..|].
    apply lookup_replicate in E as [-> _]. by left.
Qed.

Lemma t_insert_shape key s h t : (exists ts, t = TFull ts) -> exists ts, t_insert key s h t = TFull ts.
Proof. intros [ts ->]. destruct key; by eexists. Qed.

Lemma wf_insert t : forall d key s h, wf0 d t -> hexkey d key -> wf d (t_insert key s h t).
Proof.
  induction t as [|k t IH|ts IH|s0 h0] using tree_ind'; intros d key s h Hwf Hkey;
    try (destruct Hwf as [Hwf|Hwf]; [done|]).
  - by constructor.
  - simpl t_insert. destruct (short_cases _ _ _ _ Hwf Hkey) as [(-> & [(-> & s1 & h1 & ->)|(ts & r & d' & -> & -> & -> & Hr & Ht & Hk & Hne)])|
      (c & x & y & ka & kb & d' & -> & -> & Hxy & -> & Hc & Hx & Hy & -> & Hkb & Ht)].
    + rewrite Nat.eqb_refl. by constructor.
    + rewrite Nat.eqb_refl, drop_app_length. destruct (t_insert_shape r s h (TFull ts)) as [ts' E]; [by eexists|].
      rewrite E. eapply wf_ext; [done..|]. rewrite <- E. by apply IH; [right|].
    + rewrite (proj2 (Nat.eqb_neq _ _)) by (rewrite length_app; simpl; lia).
      rewrite take_app_length, !nth_middle.
      rewrite !drop_past.
      apply wf_t_short; [done|by eexists|]. apply wf_junction; [done..|]. by constructor.
  - apply wf_full_inv in Hwf as (d' & i & j & ti & tj & -> & Hl & Hij & Hi & Hj & Hti & Htj & Hall).
    apply wf_pos in Hti as Hd. destruct key as [|x key]; [inversion Hkey|].
    destruct (hexkey_nib _ d' [] _ _ Hkey eq_refl Hd) as [Hx Hk]. cbn [t_insert].
    rewrite Forall_forall in IH.
    assert (forall i t, alter (t_insert key s h) (Z.to_nat x) ts !! i = Some t ->
      (i = Z.to_nat x /\ wf d' t) \/ ts !! i = Some t) as Hlook.
    { intros i' t'. destruct (decide (i' = Z.to_nat x)) as [->|Hne].
      - rewrite list_lookup_alter_eq. destruct (ts !! Z.to_nat x) as [t|] eqn:Et; simpl; [|done]. intros [= <-].
        left. split; [done|]. apply IH; [by eapply list_elem_of_lookup_2|by eapply Hall|done].
      - rewrite list_lookup_alter_ne by done. by right. }
    assert (forall i ti, ts !! i = Some ti -> wf d' ti -> exists ti', alter (t_insert key s h) (Z.to_nat x) ts !! i = Some ti' /\ wf d' ti') as Hkeep.
    { intros i' t' Hi' Ht'. destruct (lookup_lt_is_Some_2 (alter (t_insert key s h) (Z.to_nat x) ts) i') as [t2 E2].
      { rewrite length_alter. by eapply lookup_lt_Some. }
      exists t2. split; [done|]. destruct (Hlook _ _ E2) as [[_ ?]|?]; [done|congruence]. }
    destruct (Hkeep i ti Hi Hti) as (ti' & Hi' & Hti'). destruct (Hkeep j tj Hj Htj) as (tj' & Hj' & Htj').
    apply (wf_full_intro d' _ i j ti' tj'); [by rewrite length_alter|done..|].
    intros i' t' [[_ ?]|Ht']%Hlook; [by right|by eapply Hall].
  - by apply wf_not_val in Hwf.
Qed.

(** ** Deleting *)
Section indexed.
Context {A : Type}.
Implicit Types (l : list A) (P : nat * A -> Prop).

Lemma elem_of_indexed l i x : (i, x) ∈ imap pair l <-> l !! i = Some x.
Proof.
  rewrite list_elem_of_lookup. split.
  - intros [j Hj]. rewrite list_lookup_imap in Hj. destruct (l !! j) eqn:E; [|done]. by injection Hj as <- <-.
  - intros Hi. exists i. by rewrite list_lookup_imap, Hi.
Qed.

Lemma NoDup_indexed l : NoDup (imap pair l).
Proof.
  apply (NoDup_fmap_1 fst). replace (fst <$> imap pair l) with (seq 0 (length l)); [apply NoDup_seq|].
  apply list_eq. intros i. rewrite list_lookup_fmap, list_lookup_imap.
  destruct (l !! i) eqn:E; simpl.
  - apply lookup_seq. apply lookup_lt_Some in E. lia.
  - apply lookup_seq_ge. by apply lookup_ge_None.
Qed.

(** The only element with a property, or none, or two of them. *)
Lemma filter_only P `{forall p, Decision (P p)} l :
  match filter P (imap pair l) with
  | [] => forall i x, l !! i = Some x -> ~ P (i, x)
  | [(i, x)] => l !! i = Some x /\ P (i, x) /\ forall j y, l !! j = Some y -> P (j, y) -> j = i
  | (i, x) :: (j, y) :: _ => i <> j /\ l !! i = Some x /\ P (i, x) /\ l !! j = Some y /\ P (j, y)
  end.
Proof.
  assert (forall i x, (i, x) ∈ filter P (imap pair l) <-> P (i, x) /\ l !! i = Some x) as Hel.
  { intros i x. by rewrite list_elem_of_filter, elem_of_indexed. }
  pose proof (NoDup_filter P _ (NoDup_indexed l)) as Hnd.
  destruct (filter P (imap pair l)) as [|[i x] [|[j y] r]].
  - intros i x Hi HP. by apply (not_elem_of_nil (A := nat * A) (i, x)), Hel.
  - destruct (proj1 (Hel i x)) as [HP Hi]; [by left|]. split_and!; [done..|].
    intros j y Hj Hy. assert ((j, y) ∈ [(i, x)]) as Hjy by (by apply Hel). apply list_elem_of_singleton in Hjy. by injection Hjy.
  - destruct (proj1 (Hel i x)) as [HP Hi]; [by left|]. destruct (proj1 (Hel j y)) as [HQ Hj]; [by right; left|].
    split_and!; [|done..]. intros <-. assert (x = y) as -> by congruence.
    apply NoDup_cons in Hnd as [Hnd _]. apply Hnd. by left.
Qed.
End indexed.

Lemma t_is_nil_true t : t_is_nil t = true <-> t = TNil.
Proof. by destruct t. Qed.

Lemma not_nil t : negb (t_is_nil t) <-> t <> TNil.
Proof. by destruct t. Qed.

(** What is left behaves like the full node. *)
Lemma t_only_spec ts :
  match t_only ts with
  | Some (i, t) => ts !! i = Some t /\ t <> TNil /\ forall j t', ts !! j = Some t' -> t' <> TNil -> j = i
  | None => forall i t, ts !! i = Some t -> t <> TNil -> exists j t', j <> i /\ ts !! j = Some t' /\ t' <> TNil
  end.
Proof.
  unfold t_only. pose proof (filter_only (fun p : nat * tree => negb (t_is_nil (snd p))) ts) as H.
  destruct (filter _ _) as [|[i x] [|[j y] r]].
  - intros i t Hi Hne. destruct (H i t Hi). by apply not_nil.
  - destruct H as (Hi & Hx & H). split_and!; [done|by apply not_nil|]. intros j t' Hj Ht'. apply (H j t' Hj). by apply not_nil.
  - destruct H as (Hij & Hi & Hx & Hj & Hy). intros k t Hk Hne.
    destruct (decide (k = i)) as [->|]; [exists j, y|exists i, x]; (split_and!; [done..|by apply not_nil]).
Qed.

Lemma t_push_lookup k t key : t <> TNil ->
  t_lookup key (t_push k t) = match strip k key with Some key => t_lookup key t | None => None end.
Proof.
  destruct t as [|k' t| |]; intros Hne; [done| |done..]. simpl.
  destruct (strip k key) as [r|] eqn:Es.
  - apply strip_app in Es as ->. by rewrite strip_app_l.
  - destruct (strip (k ++ k') key) eqn:E; [|done]. apply strip_app in E as ->. by rewrite <- app_assoc, strip_self in Es.
Qed.

Lemma t_push_wf d k t : Forall nib k -> k <> [] -> wf d t -> wf (length k + d) (t_push k t).
Proof.
  intros Hk Hne Ht. inversion Ht as [? k' s h Hk'|? d' k' ts ? Hk' -> Hts|]; subst; simpl.
  - constructor. by apply hexkey_app.
  - rewrite Nat.add_assoc, <- length_app. eapply wf_ext; [by destruct k|by apply Forall_app|done..].
  - by eapply wf_ext.
Qed.

Lemma collapse_spec d ts i ti :
  length ts = full_node_child_cnt -> ts !! i = Some ti -> wf d ti -> (forall i t, ts !! i = Some t -> wf0 d t) ->
  wf (S d) (t_collapse ts) /\
  forall key, hexkey (S d) key -> t_lookup key (t_collapse ts) = t_lookup key (TFull ts).
Proof.
  intros Hl Hi Hti Hall. pose proof (t_only_spec ts) as H. Transparent t_collapse. unfold t_collapse. Opaque t_collapse.
  assert (ti <> TNil) as Hne by (intros ->; by apply wf_not_nil in Hti).
  assert (forall i t, ts !! i = Some t -> t <> TNil -> wf d t) as Hall' by (intros i' t' Hi' ?; by destruct (Hall i' t' Hi')).
  destruct (t_only ts) as [[n t]|].
  - destruct H as (Hn & Ht & Huniq). assert (n = i) as -> by (symmetry; by apply (Huniq i ti)).
    assert (t = ti) as -> by congruence. apply lookup_lt_Some in Hi as Hlt. rewrite Hl in Hlt. change full_node_child_cnt with 16%nat in Hlt.
    split; [apply (t_push_wf d [Z.of_nat i]); [repeat constructor; lia|done..]|].
    intros [|z r] Hkey; [inversion Hkey|]. apply wf_pos in Hti.
    destruct (hexkey_nib _ d [] _ _ Hkey eq_refl Hti) as [Hz _]. unfold nib in Hz.
    rewrite t_push_lookup, t_lookup_full by (done || lia). simpl.
    destruct (Z.eqb_spec (Z.of_nat i) z) as [<-|Hzi]; [by rewrite Nat2Z.id, Hi|].
    destruct (ts !! Z.to_nat z) as [t|] eqn:Ez; [|done]. destruct (t_is_nil t) eqn:En; [by apply t_is_nil_true in En as ->|].
    assert (Z.to_nat z = i) by (apply (Huniq _ t Ez); by intros ->). lia.
  - destruct (H i ti Hi Hne) as (j & tj & Hji & Hj & Htj). split; [|done].
    apply (wf_full_intro d ts j i tj ti); eauto.
Qed.

Lemma t_collapse_shape ts i ti : ts !! i = Some ti -> ti <> TNil -> (exists k t, t_collapse ts = TShort k t) \/ (exists ts', t_collapse ts = TFull ts').
Proof.
  intros Hi Hne. Transparent t_collapse. unfold t_collapse. Opaque t_collapse.
  destruct (t_only ts) as [[n t]|]; [|by right; eexists]. destruct t; left; by eexists _, _.
Qed.

Definition deleted (d : nat) (key : list Z) (t : tree) (o : option tree) : Prop :=
  match o with
  | None => t_lookup key t = None
  | Some t' => wf0 d t' /\ t_lookup key t <> None /\
      forall key', hexkey d key' -> t_lookup key' t' = if decide (key = key') then None else t_lookup key' t
  end.

(** Below a short node something remains. *)
Lemma t_delete_full_some key ts d t' : wf d (TFull ts) -> hexkey d key -> deleted d key (TFull ts) (t_delete key (TFull ts)) ->
  t_delete key (TFull ts) = Some t' -> wf d t'.
Proof.
  intros Hwf Hkey Hdel E. rewrite E in Hdel. destruct Hdel as ([->|?] & _ & Hlook); [|done]. exfalso.
  apply wf_full_inv in Hwf as (d' & i & j & ti & tj & -> & Hl & Hij & Hi & Hj & Hti & Htj & Hall).
  assert (forall i ti, ts !! i = Some ti -> wf d' ti -> exists r, key = Z.of_nat i :: r) as Hone.
  { clear -Hl Hlook. intros i ti Hi Hti. destruct (wf_inhabited _ _ Hti) as (r & v & Hr & Hv).
    apply lookup_lt_Some in Hi as Hlt. rewrite Hl in Hlt. change full_node_child_cnt with 16%nat in Hlt.
    specialize (Hlook (Z.of_nat i :: r)). rewrite t_lookup_child, Hi, Hv in Hlook. simpl in Hlook.
    case_decide as E; [by eexists|]. discriminate Hlook. constructor; [unfold nib; lia|done]. }
  destruct (Hone i ti Hi Hti) as [r ->]. destruct (Hone j tj Hj Htj) as [r' E']. injection E'. lia.
Qed.

Lemma t_delete_spec t : forall d key, wf0 d t -> hexkey d key -> deleted d key t (t_delete key t).
Proof.
  induction t as [|k t IH|ts IH|s h] using tree_ind'; intros d key Hwf Hkey; [done|destruct Hwf as [Hwf|Hwf]; [done|]..].
  - inversion Hwf as [? ? s h Hk|? d' ? ts Hne Hnib Hd Ht|]; subst.
    + simpl. destruct (strip k key) as [r|] eqn:Es.
      * apply strip_app in Es as ->. assert (r = []) as ->.
        { apply hexkey_length in Hk, Hkey. rewrite length_app in Hkey. destruct r; [done|simpl in *; lia]. }
        rewrite app_nil_r in *. simpl. split; [by left|]. rewrite strip_refl. split; [done|].
        intros key' _. pose proof (lookup_leaf k key' s h) as E. simpl in E. rewrite E. by destruct (decide (k = key')).
      * simpl. by rewrite Es.
    + rewrite t_delete_short. destruct (strip k key) as [r|] eqn:Es; [|cbn [deleted]; by rewrite t_lookup_short, Es].
      apply strip_app in Es as ->. destruct (hexkey_drop _ _ _ Hkey) as [_ (d2 & E2 & Hr)].
      { intros ->. apply hexkey_length in Hkey. rewrite app_nil_r in Hkey. apply wf_pos in Ht. lia. }
      assert (d2 = d') as -> by lia. specialize (IH d' r (or_intror Ht) Hr).
      destruct (t_delete r (TFull ts)) as [t'|] eqn:E; cbn [fmap option_fmap option_map deleted] in *; rewrite t_lookup_short, strip_self; [|done].
      assert (wf d' t') as Ht' by (eapply t_delete_full_some; [done|exact Hr|by rewrite E|done]).
      assert (t' <> TNil) as Hnn by (intros ->; by apply wf_not_nil in Ht').
      replace (match t' with TNil => TNil | _ => t_push k t' end) with (t_push k t') by (by destruct t').
      destruct IH as (_ & Hin & Hlook). split; [right; by apply t_push_wf|]. split; [done|].
      intros key' Hkey'. rewrite t_push_lookup, t_lookup_short by done.
      destruct (strip k key') as [r'|] eqn:Es; [|by case_decide].
      apply strip_app in Es as ->. destruct (hexkey_drop _ _ _ Hkey') as [_ (d2 & E3 & Hr')].
      { intros ->. apply hexkey_length in Hkey'. rewrite app_nil_r in Hkey'. apply wf_pos in Ht. lia. }
      assert (d2 = d') as -> by lia. rewrite Hlook by done.
      destruct (decide (r = r')) as [->|Hrr]; [by rewrite decide_True|]. rewrite decide_False; [done|]. by intros ?%app_inv_head.
  - apply wf_full_inv in Hwf as (d' & i & j & ti & tj & -> & Hl & Hij & Hi & Hj & Hti & Htj & Hall).
    apply wf_pos in Hti as Hd. destruct key as [|x key]; [inversion Hkey|].
    destruct (hexkey_nib _ d' [] _ _ Hkey eq_refl Hd) as [Hx Hk].
    rewrite t_delete_full. rewrite Forall_forall in IH. unfold nib in Hx.
    destruct (lookup_lt_is_Some_2 ts (Z.to_nat x)) as [t Et]; [rewrite Hl; change full_node_child_cnt with 16%nat; lia|].
    rewrite Et. specialize (IH t (list_elem_of_lookup_2 _ _ _ Et) d' key (Hall _ _ Et) Hk).
    destruct (t_delete key t) as [t'|]; cbn [fmap option_fmap option_map deleted] in IH |- *; [|by rewrite t_lookup_full, Et by lia].
    destruct IH as (Hwf' & Hin & Hlook).
    assert (exists n tn, <[Z.to_nat x := t']> ts !! n = Some tn /\ wf d' tn) as (n & tn & Hn & Htn).
    { destruct (decide (i = Z.to_nat x)) as [->|]; [exists j, tj|exists i, ti]; (split; [by rewrite list_lookup_insert_ne by congruence|done]). }
    destruct (collapse_spec d' (<[Z.to_nat x := t']> ts) n tn) as [Hc Hcl]; [by rewrite length_insert|done..| |].
    { intros m tm [(_ & <- & _)|[_ Hm]]%list_lookup_insert_Some; [done|by eapply Hall]. }
    split; [by right|]. split; [by rewrite t_lookup_full, Et by lia|].
    intros [|x' key'] Hkey'; [inversion Hkey'|]. rewrite Hcl by done.
    destruct (hexkey_nib _ d' [] _ _ Hkey' eq_refl Hd) as [Hx' Hk']. unfold nib in Hx'. rewrite !t_lookup_full by lia.
    destruct (decide (x = x')) as [->|Hxx].
    + rewrite list_lookup_insert_eq by (by eapply lookup_lt_Some). rewrite Et, Hlook by done.
      destruct (decide (key = key')) as [->|]; [by rewrite decide_True|]. rewrite decide_False; [done|congruence].
    + rewrite list_lookup_insert_ne by lia. rewrite decide_False by congruence. done.
  - by apply wf_not_val in Hwf.
Qed.

(** ** Canonicity *)

(** All keys of a tree go through [k], and two of them part there. *)
Definition branches (d : nat) (k : list Z) (t : tree) : Prop :=
  (forall key, t_lookup key t <> None -> exists r, key = k ++ r) /\
  exists x y r r', x <> y /\ hexkey d (k ++ x :: r) /\ hexkey d (k ++ y :: r') /\
    t_lookup (k ++ x :: r) t <> None /\ t_lookup (k ++ y :: r') t <> None.

Lemma branches_unique d k k' t t' :
  (forall key, hexkey d key -> t_lookup key t = t_lookup key t') -> branches d k t -> branches d k' t' -> k = k'.
Proof.
  intros E [H1 (x & y & r & r' & Hxy & Kx & Ky & Lx & Ly)] [H2 (x' & y' & s & s' & Hxy' & Kx' & Ky' & Lx' & Ly')].
  rewrite E in Lx, Ly by done. rewrite <- E in Lx', Ly' by done.
  apply H2 in Lx as [a Ea], Ly as [b Eb]. apply H1 in Lx' as [a' Ea'], Ly' as [b' Eb'].
  destruct (prefixLen_parting k k') as [k r0|k z r0|c z z' ka kb Hz].
  - rewrite <- app_assoc in *. apply app_inv_head in Ea', Eb'. destruct r0 as [|z r0]; [by rewrite app_nil_r|]. simpl in *. congruence.
  - rewrite <- app_assoc in *. apply app_inv_head in Ea, Eb. simpl in *. congruence.
  - rewrite <- !app_assoc in Ea. apply app_inv_head in Ea. simpl in Ea. congruence.
Qed.

Lemma branches_full d k ts d' : Forall nib k -> d = (length k + d')%nat -> wf d' (TFull ts) -> branches d k (t_short k (TFull ts)).
Proof.
  intros Hk -> Hwf. apply wf_full_inv in Hwf as (d2 & i & j & ti & tj & -> & Hl & Hij & Hi & Hj & Hti & Htj & Hall). split.
  - intros key. rewrite lookup_t_short. destruct (strip k key) eqn:Es; [|done]. apply strip_app in Es as ->. by eexists.
  - destruct (wf_inhabited _ _ Hti) as (r & v & Hr & Hv). destruct (wf_inhabited _ _ Htj) as (r' & v' & Hr' & Hv').
    apply lookup_lt_Some in Hi as Hlt, Hj as Hlt'. rewrite Hl in Hlt, Hlt'. change full_node_child_cnt with 16%nat in *.
    exists (Z.of_nat i), (Z.of_nat j), r, r'. split; [lia|].
    rewrite !lookup_t_short, !strip_self, !t_lookup_child, Hi, Hj, Hv, Hv'.
    split_and!; try done; (apply hexkey_app; [done|]; constructor; [unfold nib; lia|done]).
Qed.

(** Well-formed trees with the same contents are the same. *)
Lemma wf0_ext t1 : forall d t2, wf0 d t1 -> wf0 d t2 ->
  (forall key, hexkey d key -> t_lookup key t1 = t_lookup key t2) -> t1 = t2.
Proof.
  assert (forall d t, wf0 d t -> (forall key, hexkey d key -> t_lookup key t = None) -> t = TNil) as Hnil.
  { intros d t [->|Hwf] Hnone; [done|]. destruct (wf_inhabited _ _ Hwf) as (key & v & Hkey & Hv). by rewrite Hnone in Hv. }
  assert (forall d k s h k' ts d', wf d (TShort k (TVal s h)) -> Forall nib k' -> d = (length k' + d')%nat -> wf d' (TFull ts) ->
    ~ (forall key, hexkey d key -> t_lookup key (TShort k (TVal s h)) = t_lookup key (t_short k' (TFull ts)))) as Hleaf.
  { intros d k s h k' ts d' Hw Hk' -> Ht E. destruct (branches_full _ _ _ _ Hk' eq_refl Ht) as [_ (x & y & r & r' & Hxy & Kx & Ky & Lx & Ly)].
    rewrite <- E, lookup_leaf in Lx, Ly by done. do 2 case_decide; [|done..]. simplify_list_eq. }
  induction t1 as [|k t1 IH|ts IH|s h] using tree_ind'; intros d t2 Hwf1 Hwf2 E.
  - symmetry. apply (Hnil d); [done|]. intros key Hkey. by rewrite <- E.
  - destruct Hwf1 as [|Hwf1]; [done|]. destruct Hwf2 as [->|Hwf2]; [by apply (Hnil d); [right|]|].
    inversion Hwf1 as [? ? s h Hk|? d' ? ts Hne Hnib Hd Ht|]; subst.
    + inversion Hwf2 as [? k' s' h' Hk'|? d' k' ts Hne Hnib Hd Ht|? ts]; subst.
      * specialize (E k Hk). rewrite !lookup_leaf, decide_True in E by done. case_decide; [|done]. by simplify_eq.
      * destruct (Hleaf _ k s h k' ts d' Hwf1 Hnib eq_refl Ht). intros key Hkey. rewrite E by done. by destruct k'.
      * by destruct (Hleaf _ k s h [] ts (S d0) Hwf1 (List.Forall_nil _) eq_refl Hwf2).
    + assert (forall k' ts' d2, Forall nib k' -> (length k + d' = length k' + d2)%nat -> wf d2 (TFull ts') -> t2 = t_short k' (TFull ts') -> TShort k (TFull ts) = t2) as Hfull.
      { intros k' ts' d2 Hn' El Ht2 ->.
        assert (k = k') as <-.
        { apply (branches_unique (length k + d') k k' (t_short k (TFull ts)) (t_short k' (TFull ts'))).
          - intros key Hkey. rewrite <- E by done. by destruct k.
          - by eapply branches_full.
          - by eapply branches_full. }
        assert (d2 = d') as -> by lia. replace (t_short k (TFull ts')) with (TShort k (TFull ts')) in * by (by destruct k).
        f_equal. apply (IH d'); [by right..|]. intros key Hkey. specialize (E (k ++ key) (hexkey_app _ _ _ Hnib Hkey)).
        by rewrite !t_lookup_short, !strip_self in E. }
      inversion Hwf2 as [? k' s' h' Hk'|? d2 k' ts' Hne' Hnib' Hd' Ht'|? ts']; subst.
      * destruct (Hleaf _ k' s' h' k ts d' Hwf2 Hnib eq_refl Ht). intros key Hkey. rewrite <- E by done. by destruct k.
      * apply (Hfull k' ts' d2); [done..|]. by destruct k'.
      * by apply (Hfull [] ts' (length k + d')%nat).
  - destruct Hwf1 as [|Hwf1]; [done|]. destruct Hwf2 as [->|Hwf2]; [by apply (Hnil d); [right|]|].
    inversion Hwf2 as [? k' s' h' Hk'|? d2 k' ts' Hne' Hnib' Hd' Ht'|? ts' ? ? ? ? Hl']; subst.
    + destruct (Hleaf _ k' s' h' [] ts d Hwf2 (List.Forall_nil _) eq_refl Hwf1). intros key Hkey. by rewrite E.
    + destruct Hne'. symmetry. apply (branches_unique (length k' + d2) [] k' (TFull ts) (t_short k' (TFull ts'))).
      * intros key Hkey. rewrite E by done. by destruct k'.
      * by apply (branches_full _ [] ts (length k' + d2)%nat).
      * by eapply branches_full.
    + apply wf_full_inv in Hwf1 as (d1 & ? & ? & ? & ? & [= <-] & Hl1 & _ & _ & _ & _ & _ & Hall1).
      apply wf_full_inv in Hwf2 as (d2 & ? & ? & ? & ? & [= <-] & Hl2 & _ & _ & _ & _ & _ & Hall2).
      f_equal. apply list_eq_same_length with 16%nat; [done..|]. rewrite Forall_forall in IH.
      intros n t t' Hi Ht Ht'. apply (IH t (list_elem_of_lookup_2 _ _ _ Ht) d0); [by eapply Hall1|by eapply Hall2|].
      intros key Hkey. specialize (E (Z.of_nat n :: key)). rewrite !t_lookup_child, Ht, Ht' in E. apply E.
      constructor; [unfold nib; lia|done].
  - destruct Hwf1 as [|Hwf1]; [done|by apply wf_not_val in Hwf1].
Qed.
