(* ===== verification/TrieEnc.v ===== *)
(** * Encodings of trie keys and nodes

    Hexadecimal and compact keys are inverse to each other; the encoding of a
    node that is hashed ([enc_c], with the reference [ref] of its parent) and
    the one that is stored ([enc_s], [sref]), as functions of the tree, with
    bounds on their sizes. *)
From S2P Require Import Prelude Bytes Rlp RlpEncode RlpDecode RlpRoundtrip RlpRaw Crypto Trie TrieSpec.

(** ** Nibbles *)
Definition nibbles (b : bytes) : list Z := flat_map (fun b => [Z_of_byte b / 16; Z_of_byte b mod 16]) b.

Lemma keybytes_to_hex_nibbles b : keybytes_to_hex b = nibbles b ++ [16].
Proof. done. Qed.

Lemma nibbles_nib b : Forall nib (nibbles b).
Proof.
  induction b as [|x b IH]; [constructor|]. pose proof (Z_of_byte_range x). unfold nib in *.
  simpl. repeat constructor; [apply Z.div_pos; lia|apply Z.div_lt_upper_bound; lia|apply Z.mod_pos_bound; lia..|done].
Qed.

Lemma length_nibbles b : length (nibbles b) = (2 * length b)%nat.
Proof. induction b; simpl in *; lia. Qed.

Lemma nib_cases x : nib x -> In x [0;1;2;3;4;5;6;7;8;9;10;11;12;13;14;15].
Proof. unfold nib. intros. simpl. lia. Qed.

Lemma nibble_byte x y : nib x -> nib y -> Z_of_byte (byte_of_Z (Z.lor (Z.shiftl x 4) y)) = 16 * x + y.
Proof.
  unfold nib. intros Hx Hy. rewrite Z_of_byte_of_Z, Z.lor_comm, lor_shiftl_add by lia.
  rewrite Z.mod_small; lia.
Qed.

Lemma byte_nibbles b : byte_of_Z (Z.lor (Z.shiftl (Z_of_byte b / 16) 4) (Z_of_byte b mod 16)) = b.
Proof.
  pose proof (Z_of_byte_range b). rewrite <- (byte_of_Z_of_byte b) at 3. f_equal.
  pose proof (Z.mod_pos_bound (Z_of_byte b) 16 ltac:(lia)).
  rewrite Z.lor_comm, lor_shiftl_add by lia.
  pose proof (Z.div_mod (Z_of_byte b) 16 ltac:(lia)). lia.
Qed.

Lemma decodeNibbles_nibbles b : decodeNibbles (nibbles b) = Some b.
Proof. induction b as [|x b IH]; [done|]. cbn [nibbles flat_map app decodeNibbles]. fold (nibbles b). rewrite IH. simpl. by rewrite byte_nibbles. Qed.

(** Every even string of nibbles comes from bytes. *)
Lemma nibbles_surj n : forall ks, length ks = (2 * n)%nat -> Forall nib ks -> exists b, ks = nibbles b /\ length b = n.
Proof.
  induction n as [|n IH]; intros ks Hl Hn; [exists []; by destruct ks|].
  destruct ks as [|x [|y ks]]; [simpl in Hl; lia..|]. apply Forall_cons in Hn as [Hx [Hy Hn]%Forall_cons].
  destruct (IH ks) as (b & -> & Hb); [simpl in Hl; lia|done|].
  exists (byte_of_Z (Z.lor (Z.shiftl x 4) y) :: b). split; [|by simpl; f_equal].
  cbn [nibbles flat_map app]. rewrite nibble_byte by done. unfold nib in *. fold (nibbles b). f_equal; [|f_equal].
  - apply Z.div_unique with y; lia.
  - apply Z.mod_unique with x; lia.
Qed.

(** ** Terminators *)
Lemma hasTerm_snoc ks x : hasTerm (ks ++ [x]) = (x =? 16).
Proof. unfold hasTerm. rewrite last_snoc. destruct (Z.eqb_spec x 16) as [->|]; [done|]. by destruct x as [|[[[[[]|[]|]|[[]|[]|]|]|[[[]|[]|]|[[]|[]|]|]|]|[[[[]|[]|]|[[]|[]|]|]|[[[]|[]|]|[[]|[]|]|]|]|]|]. Qed.

Lemma hasTerm_nib ks : Forall nib ks -> hasTerm ks = false.
Proof.
  destruct ks as [|x ks _] using rev_ind; [done|]. intros [_ [Hx _]%Forall_cons]%Forall_app.
  unfold nib in Hx. rewrite hasTerm_snoc. apply Z.eqb_neq. lia.
Qed.

Lemma strip_term_snoc ks : strip_term (ks ++ [16]) = ks.
Proof. unfold strip_term. rewrite hasTerm_snoc, length_app. simpl. by rewrite Nat.add_sub, take_app_length. Qed.

Lemma strip_term_nib ks : Forall nib ks -> strip_term ks = ks.
Proof. intros H. unfold strip_term. by rewrite hasTerm_nib. Qed.

(** A whole key is nibbles and the terminator. *)
Lemma hexkey_snoc d k : hexkey d k <-> exists ks, k = ks ++ [16] /\ Forall nib ks /\ d = S (length ks).
Proof.
  split.
  - induction 1 as [|d x k Hx _ (ks & -> & Hks & ->)]; [by exists []|]. exists (x :: ks). split_and!; [done|by constructor|done].
  - intros (ks & -> & Hks & ->). replace (S (length ks)) with (length ks + 1)%nat by lia. apply hexkey_app; [done|constructor].
Qed.

Lemma hexkey_keybytes k d : d = S (2 * length k) -> hexkey d (keybytes_to_hex k).
Proof. intros ->. apply hexkey_snoc. exists (nibbles k). rewrite length_nibbles. split_and!; [done|apply nibbles_nib|done]. Qed.

Lemma hexkey_65 key : hexkey 65 key -> exists k, key = keybytes_to_hex k /\ length k = 32%nat.
Proof.
  intros (ks & -> & Hks & [= El])%hexkey_snoc. destruct (nibbles_surj 32 ks) as (b & -> & Hb); [by rewrite <- El|done|].
  exists b. done.
Qed.

Lemma land_1_even n : (Z.land (Z.of_nat (2 * n)) 1 =? 1) = false.
Proof. change 1 with (Z.ones 1) at 1. rewrite Z.land_ones by lia. apply Z.eqb_neq. change (2 ^ 1) with 2. rewrite Nat2Z.inj_mul, Z.mul_comm, Z.mod_mul; lia. Qed.

Lemma land_1_odd n : (Z.land (Z.of_nat (S (2 * n))) 1 =? 1) = true.
Proof.
  change 1 with (Z.ones 1) at 1. rewrite Z.land_ones by lia. apply Z.eqb_eq. change (2 ^ 1) with 2.
  symmetry. apply Z.mod_unique with (Z.of_nat n); lia.
Qed.

Lemma hex_to_keybytes_full k : length k = 32%nat -> hex_to_keybytes (keybytes_to_hex k) = Some k.
Proof.
  intros Hl. unfold hex_to_keybytes. rewrite keybytes_to_hex_nibbles, strip_term_snoc, length_nibbles, land_1_even, decodeNibbles_nibbles, Hl.
  simpl. by rewrite app_nil_r.
Qed.

(** ** Compact keys *)
Definition compact (k : list Z) : bytes := default [] (hex_to_compact k).

(** The parts of a path: nibbles, with or without the terminator. *)
Definition path (k : list Z) : Prop := Forall nib k \/ exists d, hexkey d k.

Lemma path_cases k : path k -> exists ks, Forall nib ks /\
  ((k = ks /\ hasTerm k = false /\ strip_term k = ks) \/ (k = ks ++ [16] /\ hasTerm k = true /\ strip_term k = ks)).
Proof.
  intros [Hk|[d (ks & -> & Hk & _)%hexkey_snoc]].
  - exists k. split; [done|]. left. split_and!; [done|by apply hasTerm_nib|by apply strip_term_nib].
  - exists ks. split; [done|]. right. split_and!; [done|by rewrite hasTerm_snoc|apply strip_term_snoc].
Qed.

(** The flags in the first nibble. *)
Lemma flags_read hi lo n : 0 <= hi < 4 ->
  (let r := hi :: lo :: n ++ [16] in
   let r := if hi <? 2 then take (length r - 1) r else r in
   let chop := Z.to_nat (2 - Z.land hi 1) in
   if (length r <? chop)%nat then None else Some (drop chop r)) =
  Some ((if Z.odd hi then [lo] else []) ++ n ++ (if hi <? 2 then [] else [16])).
Proof.
  intros Hhi. cbv zeta.
  replace (take (length (hi :: lo :: n ++ [16]) - 1) (hi :: lo :: n ++ [16])) with (hi :: lo :: n).
  2: { simpl length. rewrite length_app. simpl. rewrite Nat.add_1_r. simpl. by rewrite take_app_length. }
  assert (In hi [0; 1; 2; 3]) as [<-|[<-|[<-|[<-|[]]]]] by (simpl; lia); simpl; by rewrite ?app_nil_r.
Qed.

(** The bytes of a compact key: a flag, and two nibbles for each byte. *)
Lemma hex_to_compact_spec k : path k -> (length k <= 65)%nat -> exists first rest,
  hex_to_compact k = Some (first :: rest) /\ (length rest <= 32)%nat /\ compact_to_hex (first :: rest) = Some k.
Proof.
  intros Hk Hl. destruct (path_cases k Hk) as (ks & Hks & Hcase).
  assert (length (strip_term k) = length ks /\ (length ks <= 65)%nat /\ (hasTerm k = true -> (length ks <= 64)%nat) /\ strip_term k = ks) as (E1 & E2 & E3 & E4).
  { destruct Hcase as [(-> & -> & ->)|(-> & _ & ->)]; [done|]. rewrite length_app in Hl. simpl in Hl. split_and!; [done|lia|lia|done]. }
  assert (forall f b, (f = 0 \/ f = 1) -> nib b ->
    exists y, y = byte_of_Z (Z.lor (Z.lor (Z.shiftl f 5) (Z.shiftl 1 4)) b) /\ Z_of_byte y / 16 = 2 * f + 1 /\ Z_of_byte y mod 16 = b) as Hodd.
  { intros f b Hf Hb%nib_cases. eexists. split; [done|]. simpl in Hb.
    destruct Hf as [-> | ->]; repeat (destruct Hb as [<-|Hb]; [done|]); done. }
  unfold hex_to_compact. rewrite E4. unfold HexKeyCompactLen.
  assert (Nat.div (length ks) 2 < 33)%nat by (apply Nat.Div0.div_lt_upper_bound; lia).
  rewrite (proj2 (Nat.ltb_ge _ _)) by lia.
  assert (exists f, (if hasTerm k then 1 else 0) = f /\ (f = 0 \/ f = 1) /\ k = if f =? 0 then ks else ks ++ [16]) as (f & -> & Hf & Ek).
  { destruct Hcase as [(-> & -> & _)|(-> & -> & _)]; eexists; (split; [done|]); auto. }
  assert (exists n, length ks = (2 * n)%nat \/ length ks = S (2 * n)) as [n [Hn|Hn]].
  { exists (Nat.div (length ks) 2). pose proof (Nat.div_mod_eq (length ks) 2). pose proof (Nat.mod_upper_bound (length ks) 2). lia. }
  - rewrite Hn, land_1_even. destruct (nibbles_surj n ks Hn Hks) as (b & -> & Hb). rewrite decodeNibbles_nibbles.
    eexists _, _. split; [done|]. split; [lia|]. unfold compact_to_hex. rewrite keybytes_to_hex_nibbles. cbn [nibbles flat_map app]. fold (nibbles b).
    assert (Z_of_byte (byte_of_Z (Z.shiftl f 5)) / 16 = 2 * f /\ Z_of_byte (byte_of_Z (Z.shiftl f 5)) mod 16 = 0) as [-> ->] by (by destruct Hf as [-> | ->]).
    rewrite flags_read by lia. destruct Hf as [-> | ->]; simpl in Ek; subst k; simpl; by rewrite ?app_nil_r.
  - rewrite Hn, land_1_odd. destruct ks as [|x ks]; [done|]. apply Forall_cons in Hks as [Hx Hks].
    destruct (nibbles_surj n ks) as (b & -> & Hb); [simpl in Hn; lia|done|]. rewrite decodeNibbles_nibbles.
    eexists _, _. split; [done|]. split; [lia|]. unfold compact_to_hex. rewrite keybytes_to_hex_nibbles. cbn [nibbles flat_map app]. fold (nibbles b).
    destruct (Hodd f x Hf Hx) as (y & <- & -> & ->).
    rewrite flags_read by lia. destruct Hf as [-> | ->]; simpl in Ek; subst k; simpl; by rewrite ?app_nil_r.
Qed.

Lemma compact_spec k : path k -> (length k <= 65)%nat ->
  hex_to_compact k = Some (compact k) /\ compact_to_hex (compact k) = Some k /\ 1 <= blen (compact k) <= 33.
Proof.
  intros Hk Hl. destruct (hex_to_compact_spec k Hk Hl) as (x & b & E & Hb & E2). unfold compact. rewrite E. simpl.
  split_and!; [done|done|rewrite blen_cons; pose proof (blen_nonneg b); lia|unfold blen; simpl; lia].
Qed.

(** ** Encodings of nodes *)
Section enc.
Context `{Crypto} {laws : CryptoLaws} (schema : Schema).

(** A child is referred to by its hash, if its encoding is not shorter. *)
Definition ref_of (c : bytes) : bytes := if blen c <? 32 then c else enc_string (keccak256 c).

Fixpoint enc_c (t : tree) : bytes :=
  match t with
  | TNil => enc_string []
  | TVal _ h => enc_string h
  | TShort k t => enc_list (enc_string (compact k) ++ match t with TVal _ h => enc_string h | _ => ref_of (enc_c t) end)
  | TFull ts => enc_list (concat (map (fun t => ref_of (enc_c t)) ts) ++ enc_string [])
  end.

Definition ref (t : tree) : bytes := ref_of (enc_c t).
Definition hashed (t : tree) : bool := negb (blen (enc_c t) <? 32).
Definition node_hash (t : tree) : bytes := keccak256 (enc_c t).

(** What is stored: a leaf refers to its value by its own hash or holds it if
    it is short; only full nodes are stored apart. *)
Fixpoint enc_s (is_root : bool) (t : tree) : bytes :=
  match t with
  | TNil => enc_string []
  | TVal _ _ => []
  | TShort k t' => enc_list (enc_string (compact k) ++
      match t' with
      | TVal s _ => if is_root || hashed t then enc_string (node_hash t)
                    else if blen s <=? MaxValueSizeToStoreInTrie schema then enc_string s else []
      | TFull _ => if hashed t' then enc_string (node_hash t') else enc_s false t'
      | _ => enc_s false t'
      end)
  | TFull ts => enc_list (concat (map (fun t => match t with
      | TFull _ => if hashed t then enc_string (node_hash t) else enc_s false t
      | _ => enc_s false t
      end) ts))
  end.

Definition sref (t : tree) : bytes :=
  match t with TFull _ => if hashed t then enc_string (node_hash t) else enc_s false t | _ => enc_s false t end.

(** What the database holds under the hash of a node. *)
Definition body (t : tree) : bytes := enc_s true t.

Lemma enc_c_full ts : enc_c (TFull ts) = enc_list (concat (map ref ts) ++ enc_string []).
Proof. done. Qed.

Lemma enc_c_ext k ts : enc_c (TShort k (TFull ts)) = enc_list (enc_string (compact k) ++ ref (TFull ts)).
Proof. done. Qed.

Lemma enc_s_full b ts : enc_s b (TFull ts) = enc_list (concat (map sref ts)).
Proof. done. Qed.

Lemma enc_s_ext b k ts : enc_s b (TShort k (TFull ts)) = enc_list (enc_string (compact k) ++ sref (TFull ts)).
Proof. done. Qed.

(** ** Sizes *)
Lemma blen_enc_string_short s : blen s < 56 -> 1 <= blen (enc_string s) <= 1 + blen s.
Proof.
  intros Hl. destruct (small_cases s) as [[(x & -> & Hx) _]|Hs].
  - simpl. rewrite (proj2 (Z.ltb_lt _ 128)) by done. unfold blen. simpl. lia.
  - rewrite enc_string_header, blen_app, blen_header by done. pose proof (blen_nonneg s).
    unfold headsize. rewrite (proj2 (Z.ltb_lt _ 56)); lia.
Qed.

Lemma blen_keccak b : blen (keccak256 b) = 32.
Proof. unfold blen. by rewrite length_keccak256. Qed.

Lemma small_keccak b : small (keccak256 b) = false.
Proof. pose proof (blen_keccak b) as Hl. by destruct (keccak256 b) as [|x [|]]. Qed.

Lemma blen_enc_hash b : blen (enc_string (keccak256 b)) = 33.
Proof. by rewrite enc_string_header, blen_app, blen_header, blen_keccak by apply small_keccak. Qed.

Lemma blen_enc_c t : 1 <= blen (enc_c t).
Proof.
  destruct t as [|k t|ts|s h]; simpl.
  - done.
  - pose proof (blen_enc_list_bounds (enc_string (compact k) ++ match t with TVal _ h => enc_string h | _ => ref_of (enc_c t) end)) as Hb.
    pose proof (blen_nonneg (enc_string (compact k) ++ match t with TVal _ h => enc_string h | _ => ref_of (enc_c t) end)). lia.
  - match goal with |- 1 <= blen (enc_list ?p) => pose proof (blen_enc_list_bounds p); pose proof (blen_nonneg p) end. lia.
  - pose proof (enc_string_not_nil h). destruct (enc_string h); [done|]. rewrite blen_cons. pose proof (blen_nonneg l). lia.
Qed.

Lemma hashed_true t : hashed t = true <-> 32 <= blen (enc_c t).
Proof. unfold hashed. destruct (Z.ltb_spec (blen (enc_c t)) 32); simpl; split; (done || lia). Qed.

Lemma hashed_false t : hashed t = false <-> blen (enc_c t) < 32.
Proof. unfold hashed. destruct (Z.ltb_spec (blen (enc_c t)) 32); simpl; split; (done || lia). Qed.

Lemma ref_hashed t : ref t = if hashed t then enc_string (node_hash t) else enc_c t.
Proof. unfold ref, ref_of, hashed. by destruct (_ <? 32). Qed.

Lemma blen_ref t : 1 <= blen (ref t) <= 33.
Proof.
  rewrite ref_hashed. destruct (hashed t) eqn:Eh.
  - unfold node_hash. rewrite blen_enc_hash. lia.
  - apply hashed_false in Eh. pose proof (blen_enc_c t). lia.
Qed.

(** A list of short strings. *)
Lemma blen_concat_bounds {A} (f : A -> bytes) l a b : (forall x, x ∈ l -> a <= blen (f x) <= b) ->
  a * Z.of_nat (length l) <= blen (concat (map f l)) <= b * Z.of_nat (length l).
Proof.
  induction l as [|x l IH]; intros Hl; [simpl; unfold blen; simpl; lia|].
  cbn [map concat length]. rewrite blen_app. pose proof (Hl x ltac:(left)). specialize (IH (fun y Hy => Hl y ltac:(by right))). lia.
Qed.

Lemma blen_concat_elem {A} (f : A -> bytes) l x : x ∈ l -> (forall x, x ∈ l -> 1 <= blen (f x)) ->
  Z.of_nat (length l) - 1 + blen (f x) <= blen (concat (map f l)).
Proof.
  induction l as [|y l IH]; intros Hx Hl; [by apply not_elem_of_nil in Hx|].
  cbn [map concat length]. rewrite blen_app. apply elem_of_cons in Hx as [->|Hx].
  - assert (1 * Z.of_nat (length l) <= blen (concat (map f l))); [|lia].
    clear -Hl. induction l as [|z l IH]; [done|]. cbn [map concat length]. rewrite blen_app.
    pose proof (Hl z ltac:(right; left)). assert (1 * Z.of_nat (length l) <= blen (concat (map f l))); [|lia].
    apply IH. intros w Hw. apply elem_of_cons in Hw as [->|Hw]; [apply Hl; left|apply Hl; by right; right].
  - pose proof (Hl y ltac:(left)). specialize (IH Hx (fun z Hz => Hl z ltac:(by right))). lia.
Qed.

Lemma blen_enc_c_full ts : length ts = full_node_child_cnt -> 18 <= blen (enc_c (TFull ts)).
Proof.
  intros Hl. rewrite enc_c_full. pose proof (blen_enc_list_bounds (concat (map ref ts) ++ enc_string [])) as Hb.
  pose proof (blen_concat_bounds ref ts 1 33 (fun x _ => blen_ref x)) as Hc. rewrite Hl in Hc.
  change (Z.of_nat full_node_child_cnt) with 16 in Hc. rewrite blen_app in Hb. change (blen (enc_string [])) with 1 in Hb. lia.
Qed.

(** The children of a full node that is not hashed are leaves. *)
Lemma unhashed_child d ts t : wf d (TFull ts) -> hashed (TFull ts) = false -> t ∈ ts -> t <> TNil ->
  hashed t = false /\ exists k s h, t = TShort k (TVal s h).
Proof.
  intros Hwf Hh Ht Hne. apply wf_full_inv in Hwf as (d' & ? & ? & ? & ? & -> & Hl & _ & _ & _ & _ & _ & Hall).
  apply hashed_false in Hh. rewrite enc_c_full in Hh.
  pose proof (blen_enc_list_bounds (concat (map ref ts) ++ enc_string [])) as Hb.
  pose proof (blen_concat_elem ref ts t Ht (fun x _ => proj1 (blen_ref x))) as Hc. rewrite Hl in Hc.
  change (Z.of_nat full_node_child_cnt) with 16 in Hc. rewrite blen_app in Hb. change (blen (enc_string [])) with 1 in Hb.
  assert (blen (ref t) <= 14) as Hr by lia.
  assert (hashed t = false) as Eh.
  { destruct (hashed t) eqn:Eh; [|done]. rewrite ref_hashed, Eh in Hr. unfold node_hash in Hr. rewrite blen_enc_hash in Hr. lia. }
  split; [done|]. rewrite ref_hashed, Eh in Hr.
  apply list_elem_of_lookup in Ht as [i Hi]. destruct (Hall i t Hi) as [|Hwf]; [done|].
  inversion Hwf as [? k s h Hk|? d2 k ts' Hk Hn -> Ht|? ts' ? ? ? ? Hl']; subst; [by eexists _, _, _|exfalso..].
  - rewrite enc_c_ext in Hr. pose proof (blen_enc_list_bounds (enc_string (compact k) ++ ref (TFull ts'))) as Hb'.
    rewrite blen_app in Hb'. pose proof (blen_nonneg (enc_string (compact k))).
    apply wf_full_inv in Ht as (? & ? & ? & ? & ? & _ & Hl' & _). pose proof (blen_enc_c_full ts' Hl') as H18.
    assert (18 <= blen (ref (TFull ts'))); [|lia]. rewrite ref_hashed.
    destruct (hashed (TFull ts')); [|lia]. unfold node_hash. rewrite blen_enc_hash. lia.
  - pose proof (blen_enc_c_full ts' Hl') as H18. lia.
Qed.
Context (Hmax : MaxValueSizeToStoreInTrie schema < 32).

(** Paths of well-formed trees are short. *)
Lemma wf_path d k t : wf d (TShort k t) -> path k /\ (length k <= d)%nat.
Proof.
  inversion 1 as [? ? s h Hk|? d' ? ts Hne Hnib -> Ht|]; subst.
  - split; [right; by eexists|]. apply hexkey_length in Hk. lia.
  - split; [by left|]. lia.
Qed.

Lemma blen_compact d k t : (d <= 65)%nat -> wf d (TShort k t) -> 1 <= blen (enc_string (compact k)) <= 34.
Proof.
  intros Hd Hwf. destruct (wf_path _ _ _ Hwf) as [Hk Hl]. destruct (compact_spec k Hk ltac:(lia)) as (_ & _ & Hb).
  pose proof (blen_enc_string_short (compact k) ltac:(lia)). lia.
Qed.

Lemma blen_leaf_s d b k s h : (d <= 65)%nat -> wf d (TShort k (TVal s h)) -> 1 <= blen (enc_s b (TShort k (TVal s h))) <= 100.
Proof.
  intros Hd Hwf. pose proof (blen_compact _ _ _ Hd Hwf). cbn [enc_s].
  match goal with |- context [enc_list ?p] => pose proof (blen_enc_list_bounds p) as Hb; set (q := p) in *; assert (blen q <= 67) as Hq end.
  { unfold q. rewrite blen_app. case_match; [unfold node_hash; rewrite blen_enc_hash; lia|].
    destruct (Z.leb_spec (blen s) (MaxValueSizeToStoreInTrie schema)); [|rewrite blen_nil; lia].
    pose proof (blen_enc_string_short s ltac:(lia)). lia. }
  pose proof (blen_nonneg q). lia.
Qed.

Lemma blen_unhashed_s d b ts : (d <= 65)%nat -> wf d (TFull ts) -> hashed (TFull ts) = false -> blen (enc_s b (TFull ts)) <= 1609.
Proof.
  intros Hd Hwf Hh. rewrite enc_s_full. pose proof (blen_enc_list_bounds (concat (map sref ts))) as Hb.
  pose proof (wf_full_inv _ _ Hwf) as (d' & ? & ? & ? & ? & -> & Hl & _ & _ & _ & _ & _ & Hall).
  pose proof (blen_concat_bounds sref ts 1 100) as Hc. rewrite Hl in Hc. change (Z.of_nat full_node_child_cnt) with 16 in Hc.
  assert (blen (concat (map sref ts)) <= 1600); [|lia]. apply Hc. intros t Ht.
  apply list_elem_of_lookup in Ht as Hi. destruct Hi as [i Hi]. destruct (Hall i t Hi) as [->|Hwt]; [done|].
  destruct (unhashed_child _ _ t Hwf Hh Ht) as (_ & k & s & h & ->); [intros ->; by apply wf_not_nil in Hwt|].
  eapply blen_leaf_s; [|done]. lia.
Qed.

Lemma blen_sref d t : (d <= 65)%nat -> wf0 d t -> 1 <= blen (sref t) <= 2000.
Proof.
  intros Hd [->|Hwf]; [done|]. inversion Hwf as [? k s h Hk|? d2 k ts Hk Hn -> Ht|? ts]; subst.
  - pose proof (blen_leaf_s _ false _ _ _ Hd Hwf). simpl sref. simpl in *. lia.
  - change (sref (TShort k (TFull ts))) with (enc_s false (TShort k (TFull ts))). rewrite enc_s_ext.
    pose proof (blen_enc_list_bounds (enc_string (compact k) ++ sref (TFull ts))) as Hb.
    rewrite blen_app in Hb. pose proof (blen_compact _ _ _ Hd Hwf).
    assert (0 <= blen (sref (TFull ts)) <= 1609); [|lia]. split; [apply blen_nonneg|]. unfold sref. destruct (hashed (TFull ts)) eqn:Eh.
    + unfold node_hash. rewrite blen_enc_hash. lia.
    + eapply blen_unhashed_s; [|done..]. lia.
  - unfold sref. destruct (hashed (TFull ts)) eqn:Eh; [unfold node_hash; rewrite blen_enc_hash; lia|].
    pose proof (blen_unhashed_s _ false _ Hd Hwf Eh). rewrite enc_s_full in *.
    pose proof (blen_enc_list_bounds (concat (map sref ts))). pose proof (blen_nonneg (concat (map sref ts))). lia.
Qed.
End enc.
