(* ===== verification/TrieSim.v ===== *)
(** * The trie in memory and in the database represents a tree

    [in_db] says that the database holds the nodes and the values of a tree;
    [repr] that a node, with what it refers to in the database, represents a
    tree and that its cached hashes are right.  [resolve] loads what is in
    the database; [mpt_insert] and [mpt_del] follow [t_insert] and
    [t_delete]. *)
From S2P Require Import Prelude Bytes Rlp RlpEncode RlpDecode RlpRoundtrip RlpRaw Crypto Trie TrieSpec TrieEnc.

(** The full nodes of a tree. *)
Inductive full_sub : tree -> tree -> Prop :=
| full_sub_here ts : full_sub (TFull ts) (TFull ts)
| full_sub_short u k t : full_sub u t -> full_sub u (TShort k t)
| full_sub_full u ts i t : ts !! i = Some t -> full_sub u t -> full_sub u (TFull ts).

Definition value_in (db : TrieDB) (key : list Z) (s : bytes) : Prop :=
  exists kb, hex_to_keybytes key = Some kb /\ GetValue db kb = Some s.

Definition is_full (t : tree) : Prop := match t with TFull _ => True | _ => False end.
Definition is_hash {V} (n : @node V) : bool := match n with NHash _ => true | _ => false end.

Section sim.
Context `{Crypto} {laws : CryptoLaws} {V : Type} (EncodeForTrie : V -> bytes * bytes) (schema : Schema).
Context (Hmax : MaxValueSizeToStoreInTrie schema < 32).

(** Nodes are read from each of these databases alike. *)
Context (Dbs : TrieDB -> Prop).

Abbreviation node := (@Trie.node V).
Abbreviation dec_node := (Trie.dec_node (V := V)).
Abbreviation resolve := (Trie.resolve (V := V)).

(** The nodes that are stored under their own hash. *)
Definition stored (pfx : list Z) (t u : tree) : Prop := (pfx = [] /\ u = t) \/ (full_sub u t /\ hashed u = true).

Definition in_db (pfx : list Z) (t : tree) : Prop := forall db, Dbs db ->
  (forall key s h, t_lookup key t = Some (s, h) -> value_in db (pfx ++ key) s) /\
  (forall u, stored pfx t u -> GetNode db (node_hash u) = Some (body schema u)).

(** The leaves of a tree, with their paths. *)
Inductive leaf_under : list Z -> tree -> tree -> Prop :=
| leaf_here k s h : leaf_under k (TShort k (TVal s h)) (TShort k (TVal s h))
| leaf_short key l k t : leaf_under key l t -> leaf_under (k ++ key) l (TShort k t)
| leaf_full key l ts i t : ts !! i = Some t -> leaf_under key l t -> leaf_under (Z.of_nat i :: key) l (TFull ts).

(** The values that are read when a node is decoded: those of leaves nested
    in it that are too large to be part of it. *)
Definition bare_in (db : TrieDB) (pfx : list Z) (t : tree) : Prop := forall key k s h,
  leaf_under key (TShort k (TVal s h)) t -> hashed (TShort k (TVal s h)) = false -> MaxValueSizeToStoreInTrie schema < blen s -> value_in db (pfx ++ key) s.

Lemma leaf_lookup key l t : leaf_under key l t -> forall k s h, l = TShort k (TVal s h) -> t_lookup key t = Some (s, h).
Proof.
  induction 1 as [k0 s0 h0|key l k t _ IH|key l ts i t Hi _ IH]; intros k1 s1 h1 El; [injection El as <- <- <-; by rewrite lookup_leaf, decide_True| |].
  - by rewrite t_lookup_short, strip_self, (IH _ _ _ El).
  - by rewrite t_lookup_child, Hi, (IH _ _ _ El).
Qed.

Lemma in_db_bare db pfx t : Dbs db -> in_db pfx t -> bare_in db pfx t.
Proof. intros Hdb Hin key k s h Hl _ _. destruct (Hin db Hdb) as [Hv _]. apply (Hv key s h). by eapply leaf_lookup. Qed.

Lemma bare_short db pfx k t : bare_in db pfx (TShort k t) -> bare_in db (pfx ++ k) t.
Proof. intros Hb key k' s h Hl Hh Hs. rewrite <- app_assoc. by eapply Hb; [constructor|..]. Qed.

Lemma bare_full db pfx ts i t : ts !! i = Some t -> bare_in db pfx (TFull ts) -> bare_in db (pfx ++ [Z.of_nat i]) t.
Proof. intros Hi Hb key k' s h Hl Hh Hs. rewrite <- app_assoc. by eapply (Hb (Z.of_nat i :: key)); [econstructor|..]. Qed.

(** Values have an encoding for the hash that follows from the stored one. *)
Definition vals_ok (t : tree) : Prop := forall key s h, t_lookup key t = Some (s, h) ->
  s <> [] /\ ValueStorageToHashEncoding schema s = Some h /\ blen h < 2 ^ 31.

Lemma in_db_short pfx k t : k <> [] -> in_db pfx (TShort k t) -> in_db (pfx ++ k) t.
Proof.
  intros Hk Hin db Hdb. destruct (Hin db Hdb) as [Hv Hn]. split.
  - intros key s h Hl. rewrite <- app_assoc. apply (Hv _ s h). by rewrite t_lookup_short, strip_self.
  - intros u [[E ->]|[Hs Hh]]; [by destruct pfx, k|]. apply Hn. right. by split; [constructor|].
Qed.

Lemma in_db_full pfx ts i t : ts !! i = Some t -> in_db pfx (TFull ts) -> in_db (pfx ++ [Z.of_nat i]) t.
Proof.
  intros Hi Hin db Hdb. destruct (Hin db Hdb) as [Hv Hn]. split.
  - intros key s h Hl. rewrite <- app_assoc. apply (Hv (Z.of_nat i :: key) s h). by rewrite t_lookup_child, Hi.
  - intros u [[E ->]|[Hs Hh]]; [by destruct pfx|]. apply Hn. right. by split; [econstructor|].
Qed.

Lemma vals_ok_short k t : vals_ok (TShort k t) -> vals_ok t.
Proof. intros Hok key s h Hl. apply (Hok (k ++ key)). by rewrite t_lookup_short, strip_self. Qed.

Lemma vals_ok_full ts i t : ts !! i = Some t -> vals_ok (TFull ts) -> vals_ok t.
Proof. intros Hi Hok key s h Hl. apply (Hok (Z.of_nat i :: key)). by rewrite t_lookup_child, Hi. Qed.

(** ** What is loaded *)
Fixpoint loaded (t : tree) : node :=
  match t with
  | TNil | TVal _ _ => NNil
  | TFull ts => if hashed t then NHash (node_hash t) else NFull (map loaded ts) None
  | TShort k t' =>
      match t' with
      | TVal s h => if hashed t then NShort k (NValue None) (Some (node_hash t))
                    else NShort k (NValue (Some (internal_value s h))) None
      | _ => NShort k (loaded t') (if hashed t' then Some (node_hash t) else None)
      end
  end.

Definition loaded_root (t : tree) : node :=
  match t with
  | TNil | TVal _ _ => NNil
  | TFull ts => NFull (map loaded ts) (Some (node_hash t))
  | TShort k t' =>
      match t' with
      | TVal s h => NShort k (NValue None) (Some (node_hash t))
      | _ => NShort k (loaded t') (Some (node_hash t))
      end
  end.

(** ** Decoding *)
Lemma drop_header p : drop (Z.to_nat (headsize (blen p))) (enc_list p) = p.
Proof. unfold enc_list. apply drop_app_length'. rewrite <- (puthead_size 192 247). unfold blen at 1. lia. Qed.

Lemma must_inr {A} (a : A) db : must (inr a) db = Done a db.
Proof. done. Qed.

Lemma list_read p rest : blen (enc_list p ++ rest) < 2 ^ 63 ->
  ReadKind (enc_list p ++ rest) = inr (KList, headsize (blen p), blen (enc_list p)) /\
  take (Z.to_nat (blen (enc_list p))) (enc_list p ++ rest) = enc_list p /\
  drop (Z.to_nat (blen (enc_list p))) (enc_list p ++ rest) = rest.
Proof.
  intros Hl. split; [by apply ReadKind_list|]. unfold blen. rewrite Nat2Z.id. by rewrite take_app_length, drop_app_length.
Qed.

(** [resolve_val_n_by_hex_k] finds what is in the database. *)
Lemma resolve_val_done db key s h : value_in db key s -> s <> [] -> ValueStorageToHashEncoding schema s = Some h ->
  resolve_val_n_by_hex_k (V := V) schema key db = Done (NValue (Some (internal_value s h))) db.
Proof.
  intros (kb & Ek & Ev) Hs Eh. unfold resolve_val_n_by_hex_k, or_panic. rewrite Ek. unfold bindM, ret, resolve_val_n.
  by rewrite Ev, Eh.
Qed.

Section dec_short.
Context (rec : list Z -> option bytes -> bytes -> M TrieDB (node * bytes)) (db : TrieDB).
Context (k : list Z) (Hk : path k) (Hl : (length k <= 65)%nat).

(** The path is read from the front of the payload. *)
Lemma dec_short_path q :
  blen (enc_string (compact k) ++ q) < 2 ^ 63 ->
  let p := enc_string (compact k) ++ q in
  must (SplitString (drop (Z.to_nat (headsize (blen p))) (enc_list p))) db = Done (compact k, q) db /\
  or_panic "slice bounds out of range" (compact_to_hex (compact k)) db = Done k db.
Proof.
  intros Hlen. cbv zeta. rewrite drop_header, SplitString_enc by done. split; [done|].
  destruct (compact_spec k Hk Hl) as (_ & -> & _). done.
Qed.

Ltac dec_path q := unfold dec_short;
  destruct (dec_short_path q) as [E1 E2]; [by rewrite ?app_nil_r|];
  rewrite (bind_done _ _ _ _ _ E1), (bind_done _ _ _ _ _ E2); clear E1 E2.

Lemma dec_short_leaf_hash pfx dbh hsh :
  hasTerm k = true -> blen hsh = 32 -> blen (enc_string (compact k) ++ enc_string hsh) < 2 ^ 63 ->
  let p := enc_string (compact k) ++ enc_string hsh in
  dec_short schema rec pfx dbh (enc_list p) (headsize (blen p)) db = Done (NShort k (NValue None) (Some hsh)) db.
Proof.
  intros Ht Hh Hlen. cbv zeta. dec_path (enc_string hsh). rewrite Ht.
  pose proof (enc_string_not_nil hsh). destruct (length (enc_string hsh) =? 0)%nat eqn:E0; [by apply Nat.eqb_eq, length_zero_iff_nil in E0|].
  rewrite <- (app_nil_r (enc_string hsh)), SplitString_enc by (rewrite app_nil_r; rewrite blen_app in Hlen; pose proof (blen_nonneg (enc_string (compact k))); lia).
  cbn [must bindM]. unfold bindM, ret. replace (length hsh =? HashLength)%nat with true; [done|].
  symmetry. apply Nat.eqb_eq. unfold blen in Hh. unfold HashLength. lia.
Qed.

Lemma dec_short_leaf_stored pfx dbh s h :
  hasTerm k = true -> s <> [] -> blen s <= MaxValueSizeToStoreInTrie schema -> ValueStorageToHashEncoding schema s = Some h ->
  blen (enc_string (compact k) ++ enc_string s) < 2 ^ 63 ->
  let p := enc_string (compact k) ++ enc_string s in
  dec_short schema rec pfx dbh (enc_list p) (headsize (blen p)) db = Done (NShort k (NValue (Some (internal_value s h))) dbh) db.
Proof.
  intros Ht Hs Hm Eh Hlen. cbv zeta. dec_path (enc_string s). rewrite Ht.
  pose proof (enc_string_not_nil s). destruct (length (enc_string s) =? 0)%nat eqn:E0; [by apply Nat.eqb_eq, length_zero_iff_nil in E0|].
  rewrite <- (app_nil_r (enc_string s)), SplitString_enc by (rewrite app_nil_r; rewrite blen_app in Hlen; pose proof (blen_nonneg (enc_string (compact k))); lia).
  cbn [must bindM]. unfold bindM, ret. unfold blen in Hm. replace (length s =? HashLength)%nat with false.
  2: { symmetry. apply Nat.eqb_neq. unfold HashLength. lia. }
  assert (0 < blen s) by (destruct s; [done|rewrite blen_cons; pose proof (blen_nonneg s); lia]). unfold blen in *.
  rewrite (proj2 (Z.ltb_lt 0 _)), (proj2 (Z.leb_le _ _)) by lia.
  cbn [andb]. unfold or_panic. by rewrite Eh.
Qed.

Lemma dec_short_leaf_db pfx dbh s h :
  hasTerm k = true -> s <> [] -> ValueStorageToHashEncoding schema s = Some h -> value_in db (pfx ++ k) s ->
  let p := enc_string (compact k) in
  dec_short schema rec pfx dbh (enc_list p) (headsize (blen p)) db = Done (NShort k (NValue (Some (internal_value s h))) dbh) db.
Proof.
  intros Ht Hs Eh Hv. cbv zeta. rewrite <- (app_nil_r (enc_string (compact k))).
  assert (blen (enc_string (compact k)) < 2 ^ 63).
  { destruct (compact_spec k Hk Hl) as (_ & _ & Hb). pose proof (blen_enc_string_le (compact k)). lia. }
  dec_path ([] : bytes). rewrite Ht. cbn [length Nat.eqb].
  by rewrite (bind_done _ _ _ _ _ (resolve_val_done _ _ _ _ Hv Hs Eh)).
Qed.

Lemma dec_short_ext pfx dbh q n :
  hasTerm k = false -> blen (enc_string (compact k) ++ q) < 2 ^ 63 -> rec (pfx ++ k) None q db = Done (n, []) db ->
  let p := enc_string (compact k) ++ q in
  dec_short schema rec pfx dbh (enc_list p) (headsize (blen p)) db =
    Done (NShort k n (match n, dbh with NHash _, None => Some (keccak256 (enc_list p)) | _, _ => dbh end)) db.
Proof. intros Ht Hlen Er. cbv zeta. dec_path q. rewrite Ht. by rewrite (bind_done _ _ _ _ _ Er). Qed.
End dec_short.

Lemma dec_node_short fuel pfx dbh p rest db n c :
  blen (enc_list p ++ rest) < 2 ^ 63 -> CountValues p = inr c -> c = 1 \/ c = 2 ->
  dec_short schema (dec_node schema fuel) pfx dbh (enc_list p) (headsize (blen p)) db = Done n db ->
  dec_node schema (S fuel) pfx dbh (enc_list p ++ rest) db = Done (n, rest) db.
Proof.
  intros Hl Hc Hc12 Hd. destruct (list_read p rest Hl) as (E1 & E2 & E3). cbn [dec_node]. rewrite E1.
  rewrite (bind_done _ _ _ _ _ (must_inr _ _)). rewrite E2, E3, drop_header, Hc.
  rewrite (bind_done _ _ _ _ _ (must_inr _ _)). replace ((c =? 1) || (c =? 2)) with true by (destruct Hc12 as [-> | ->]; done).
  by rewrite (bind_done _ _ _ _ _ Hd).
Qed.

Lemma dec_node_full fuel pfx dbh p rest db n :
  blen (enc_list p ++ rest) < 2 ^ 63 -> CountValues p = inr 16 ->
  dec_full (dec_node schema fuel) pfx dbh p db = Done n db ->
  dec_node schema (S fuel) pfx dbh (enc_list p ++ rest) db = Done (n, rest) db.
Proof.
  intros Hl Hc Hd. destruct (list_read p rest Hl) as (E1 & E2 & E3). cbn [dec_node]. rewrite E1.
  rewrite (bind_done _ _ _ _ _ (must_inr _ _)). rewrite E2, E3, drop_header, Hc.
  rewrite (bind_done _ _ _ _ _ (must_inr _ _)).
  change ((16 =? 1) || (16 =? 2)) with false. change (16 =? 16) with true. cbv iota. by rewrite (bind_done _ _ _ _ _ Hd).
Qed.

Lemma dec_node_string fuel pfx dbh s rest db n :
  (s = [] /\ n = NNil) \/ (blen s = 32 /\ n = NHash s) -> blen (enc_string s ++ rest) < 2 ^ 63 ->
  dec_node schema (S fuel) pfx dbh (enc_string s ++ rest) db = Done (n, rest) db.
Proof.
  intros Hs Hl. assert (small s = false) as Hsm by (destruct Hs as [[-> _]|[Hs _]]; [done|by destruct s as [|x [|]]]).
  cbn [dec_node]. rewrite ReadKind_string by done. rewrite (bind_done _ _ _ _ _ (must_inr _ _)).
  replace (Z.to_nat (blen (enc_string s))) with (length (enc_string s)) by (unfold blen; lia).
  rewrite take_app_length, drop_app_length. replace (drop (Z.to_nat (headsize (blen s))) (enc_string s)) with s.
  2: { rewrite enc_string_header by done. symmetry. apply drop_app_length'. rewrite <- (blen_header KString (blen s)). unfold blen at 1. lia. }
  destruct Hs as [[-> ->]|[Hb ->]]; [done|]. unfold blen in Hb. replace (length s) with 32%nat by lia. done.
Qed.

Lemma item_sref d t : wf0 d t -> item (sref schema t).
Proof.
  intros [->|Hwf]; [apply (item_string [])|]. destruct t as [|k t|ts|s h]; [by apply wf_not_nil in Hwf|..].
  - apply item_list.
  - unfold sref. destruct (hashed _); [apply item_string|apply item_list].
  - by apply wf_not_val in Hwf.
Qed.

Lemma CountValues_1 s : blen (enc_string s) < 2 ^ 63 -> CountValues (enc_string s) = inr 1.
Proof. intros Hl. pose proof (CountValues_concat [enc_string s]) as E. simpl in E. rewrite app_nil_r in E. apply E; [repeat constructor; apply item_string|done]. Qed.

Lemma CountValues_2 s e : item e -> blen (enc_string s ++ e) < 2 ^ 63 -> CountValues (enc_string s ++ e) = inr 2.
Proof.
  intros He Hl. pose proof (CountValues_concat [enc_string s; e]) as E. simpl in E. rewrite app_nil_r in E.
  apply E; [|done]. constructor; [apply item_string|]. by repeat constructor; destruct He.
Qed.

(** The children are decoded one after the other. *)
Lemma dec_children_loaded rec pfx db ts : forall i rest,
  (forall j t rest, ts !! j = Some t -> blen (sref schema t ++ rest) < 2 ^ 62 ->
    rec (pfx ++ [i + Z.of_nat j]) None (sref schema t ++ rest) db = Done (loaded t, rest) db) ->
  blen (concat (map (sref schema) ts) ++ rest) < 2 ^ 62 ->
  dec_children rec pfx (length ts) i (concat (map (sref schema) ts) ++ rest) db = Done (map loaded ts) db.
Proof.
  induction ts as [|t ts IH]; intros i rest Hrec Hl; [done|]. cbn [map concat length dec_children] in *.
  rewrite <- app_assoc in *. pose proof (Hrec 0%nat t _ eq_refl Hl) as E. rewrite Z.add_0_r in E.
  rewrite (bind_done _ _ _ _ _ E). rewrite (bind_done _ _ _ _ _ (IH (i + 1) rest ltac:(clear E; intros j t' r Hj Hr; rewrite <- (Hrec (S j) t' r Hj Hr); do 3 f_equal; lia) ltac:(rewrite blen_app in Hl; pose proof (blen_nonneg (sref schema t)); lia))).
  done.
Qed.

Lemma wf_not_full_val d k t : wf d (TShort k t) -> (exists s h, t = TVal s h /\ hexkey d k) \/
  (exists ts d', t = TFull ts /\ Forall nib k /\ k <> [] /\ d = (length k + d')%nat /\ wf d' t).
Proof. inversion 1; subst; [left; eauto|right; by eexists _, _]. Qed.

Lemma hexkey_hasTerm d k : hexkey d k -> hasTerm k = true.
Proof. intros (ks & -> & _ & _)%hexkey_snoc. by rewrite hasTerm_snoc. Qed.

Lemma lookup_leaf_self k s h : t_lookup k (TShort k (TVal s h)) = Some (s, h).
Proof. by rewrite lookup_leaf, decide_True. Qed.

(** A leaf, at the root or not. *)
Lemma dec_leaf_loaded fuel pfx dbh k s h d (is_root : bool) rest db :
  let t := TShort k (TVal s h) in
  (is_root = false -> bare_in db pfx t) -> vals_ok t -> wf d t -> (d <= 65)%nat -> blen (enc_s schema is_root t ++ rest) < 2 ^ 62 ->
  dec_node schema (S fuel) pfx dbh (enc_s schema is_root t ++ rest) db =
    Done (if is_root || hashed t then NShort k (NValue None) (Some (node_hash t))
          else NShort k (NValue (Some (internal_value s h))) dbh, rest) db.
Proof.
  cbv zeta. intros Hin Hok Hwf Hd Hl. destruct (wf_path _ _ _ Hwf) as [Hp Hlk].
  destruct (wf_not_full_val _ _ _ Hwf) as [(? & ? & [= <- <-] & Hk)|(? & ? & [=] & _)]. apply hexkey_hasTerm in Hk as Ht.
  destruct (Hok k s h (lookup_leaf_self _ _ _)) as (Hs & Eh & _).
  pose proof (blen_nonneg rest). rewrite blen_app in Hl. cbn [enc_s] in *.
  match type of Hl with context [enc_list ?p] => pose proof (blen_enc_list_bounds p) as Hb end.
  destruct (is_root || hashed (TShort k (TVal s h))) eqn:Eh0.
  - eapply dec_node_short; [rewrite blen_app; lia| |right; reflexivity|].
    + apply CountValues_2; [apply item_string|lia].
    + apply dec_short_leaf_hash; [done|lia|done|apply blen_keccak|lia].
  - destruct (Z.leb_spec (blen s) (MaxValueSizeToStoreInTrie schema)).
    + eapply dec_node_short; [rewrite blen_app; lia| |right; reflexivity|].
      * apply CountValues_2; [apply item_string|lia].
      * by apply dec_short_leaf_stored; (done || lia).
    + rewrite app_nil_r in *. eapply dec_node_short; [rewrite blen_app; lia| |left; reflexivity|].
      * apply CountValues_1. lia.
      * apply dec_short_leaf_db; [done|lia|done..|]. apply orb_false_elim in Eh0 as [Er Eh0]. apply (Hin Er k k s h); [constructor|done|lia].
Qed.

Lemma sref_full_ext d ts : wf d (TFull ts) -> blen (enc_s schema false (TFull ts)) < 2 ^ 62 -> blen (concat (map (sref schema) ts)) < 2 ^ 62.
Proof. rewrite enc_s_full. intros _. pose proof (blen_enc_list_bounds (concat (map (sref schema) ts))). lia. Qed.

Lemma CountValues_children d ts : wf d (TFull ts) -> blen (concat (map (sref schema) ts)) < 2 ^ 62 ->
  CountValues (concat (map (sref schema) ts)) = inr 16.
Proof.
  intros (d' & ? & ? & ? & ? & -> & Hl & _ & _ & _ & _ & _ & Hall)%wf_full_inv Hb.
  rewrite CountValues_concat, length_map, Hl; [done| |lia]. apply List.Forall_map, Forall_forall.
  intros t [i Hi]%list_elem_of_lookup. by eapply item_sref, Hall.
Qed.

Lemma dec_node_loaded t : forall d pfx fuel rest db,
  bare_in db pfx t -> vals_ok t -> wf0 d t -> (1 <= d <= 65)%nat -> (d <= fuel)%nat -> blen (sref schema t ++ rest) < 2 ^ 62 ->
  dec_node schema fuel pfx None (sref schema t ++ rest) db = Done (loaded t, rest) db.
Proof.
  induction t as [|k t IH|ts IH|s h] using tree_ind'; intros d pfx fuel rest db Hin Hok Hwf Hd Hf Hl;
    (destruct fuel as [|fuel]; [lia|]).
  - apply (dec_node_string fuel pfx None []); [by left|]. simpl in *. lia.
  - destruct Hwf as [|Hwf]; [done|]. destruct (wf_path _ _ _ Hwf) as [Hp Hlk].
    destruct (wf_not_full_val _ _ _ Hwf) as [(s & h & -> & Hk)|(ts & d' & -> & Hk & Hne & -> & Ht)].
    + change (sref schema (TShort k (TVal s h))) with (enc_s schema false (TShort k (TVal s h))) in *.
      rewrite (dec_leaf_loaded fuel pfx None k s h d false rest db) by (done || lia). simpl loaded. cbn [orb]. by destruct (hashed _).
    + change (sref schema (TShort k (TFull ts))) with (enc_s schema false (TShort k (TFull ts))) in *. rewrite enc_s_ext in *.
      pose proof (blen_enc_list_bounds (enc_string (compact k) ++ sref schema (TFull ts))) as Hb.
      rewrite blen_app in Hl. pose proof (blen_nonneg rest). pose proof (blen_nonneg (enc_string (compact k))).
      rewrite blen_app in Hb. assert (blen (sref schema (TFull ts)) < 2 ^ 62) by lia.
      eapply dec_node_short; [rewrite blen_app; lia| |right; reflexivity|].
      * apply CountValues_2; [eapply item_sref; by right|rewrite blen_app; lia].
      * destruct k as [|x k]; [done|]. simpl in Hd, Hf.
        pose proof (IH d' (pfx ++ x :: k) fuel [] db (bare_short _ _ _ _ Hin) (vals_ok_short _ _ Hok) (or_intror Ht) ltac:(apply wf_pos in Ht; lia) ltac:(lia)) as E.
        rewrite !app_nil_r in E. rewrite (dec_short_ext _ _ _ Hp ltac:(simpl; lia) _ _ _ (loaded (TFull ts)) (hasTerm_nib _ Hk)); [|rewrite blen_app; lia|by apply E].
        cbn [loaded]. destruct (hashed (TFull ts)) eqn:Eh; [|done]. do 3 f_equal. unfold node_hash. rewrite enc_c_ext, ref_hashed, Eh. unfold sref. by rewrite Eh.
  - destruct Hwf as [|Hwf]; [done|]. unfold sref in *. cbn [loaded]. destruct (hashed (TFull ts)) eqn:Eh.
    { apply dec_node_string; [right; split; [apply blen_keccak|done]|lia]. }
    rewrite enc_s_full in *. rewrite blen_app in Hl. pose proof (blen_nonneg rest).
    pose proof (blen_enc_list_bounds (concat (map (sref schema) ts))) as Hb.
    pose proof (wf_full_inv _ _ Hwf) as (d' & ? & ? & ti & ? & -> & Hlen & _ & _ & _ & Hti & _ & Hall). apply wf_pos in Hti.
    eapply dec_node_full; [rewrite blen_app; lia|eapply CountValues_children; [done|lia]|]. unfold dec_full.
    pose proof (dec_children_loaded (dec_node schema fuel) pfx db ts 0 []) as E. rewrite app_nil_r, Hlen in E.
    rewrite (bind_done _ _ _ _ _ (E ltac:(clear E; intros j t r Hj Hr; rewrite Forall_forall in IH; apply (IH t (list_elem_of_lookup_2 _ _ _ Hj) d'); [by eapply bare_full|by eapply vals_ok_full|by eapply Hall|lia|lia|done]) ltac:(lia))).
    done.
  - destruct Hwf as [|Hwf]; [done|by apply wf_not_val in Hwf].
Qed.

Lemma loaded_root_dec t : forall d pfx fuel db,
  bare_in db pfx t -> vals_ok t -> wf d t -> (d <= 65)%nat -> (d <= fuel)%nat ->
  dec_node schema fuel pfx (Some (node_hash t)) (body schema t) db = Done (loaded_root t, []) db.
Proof.
  intros d pfx fuel db Hin Hok Hwf Hd Hf. apply wf_pos in Hwf as Hpos. destruct fuel as [|fuel]; [lia|].
  rewrite <- (app_nil_r (body schema t)). destruct t as [|k t|ts|s h]; [by apply wf_not_nil in Hwf| | |by apply wf_not_val in Hwf]; unfold body.
  - destruct (wf_path _ _ _ Hwf) as [Hp Hlk]. destruct (wf_not_full_val _ _ _ Hwf) as [(s & h & -> & Hk)|(ts & d' & -> & Hk & Hne & -> & Ht)].
    + rewrite (dec_leaf_loaded fuel pfx _ k s h d true [] db); [done..|]. rewrite app_nil_r.
      pose proof (blen_leaf_s schema Hmax d true k s h Hd Hwf). lia.
    + rewrite enc_s_ext. pose proof (blen_compact _ _ _ Hd Hwf). pose proof (blen_sref schema Hmax d' (TFull ts) ltac:(lia) (or_intror Ht)).
      pose proof (blen_enc_list_bounds (enc_string (compact k) ++ sref schema (TFull ts))) as Hb. rewrite blen_app in Hb.
      eapply dec_node_short; [rewrite app_nil_r; lia| |right; reflexivity|].
      * apply CountValues_2; [eapply item_sref; by right|rewrite blen_app; lia].
      * destruct k as [|x k]; [done|]. simpl in Hd, Hf.
        pose proof (dec_node_loaded (TFull ts) d' (pfx ++ x :: k) fuel [] db (bare_short _ _ _ _ Hin) (vals_ok_short _ _ Hok) (or_intror Ht) ltac:(apply wf_pos in Ht; lia) ltac:(lia)) as E.
        rewrite !app_nil_r in E. rewrite (dec_short_ext _ _ _ Hp ltac:(simpl; lia) _ _ _ (loaded (TFull ts)) (hasTerm_nib _ Hk)); [|rewrite blen_app; lia|apply E; lia].
        cbn [loaded_root]. by destruct (loaded (TFull ts)).
  - rewrite enc_s_full. pose proof (wf_full_inv _ _ Hwf) as (d' & ? & ? & ti & ? & -> & Hlen & _ & _ & _ & Hti & _ & Hall). apply wf_pos in Hti.
    pose proof (blen_concat_bounds (sref schema) ts 1 2000) as Hc. rewrite Hlen in Hc. change (Z.of_nat full_node_child_cnt) with 16 in Hc.
    assert (blen (concat (map (sref schema) ts)) <= 32000).
    { apply Hc. intros t [i Hi]%list_elem_of_lookup. eapply (blen_sref schema Hmax d'); [lia|by eapply Hall]. }
    pose proof (blen_enc_list_bounds (concat (map (sref schema) ts))).
    eapply dec_node_full; [rewrite app_nil_r; lia|eapply CountValues_children; [done|lia]|]. unfold dec_full.
    pose proof (dec_children_loaded (dec_node schema fuel) pfx db ts 0 []) as E. rewrite app_nil_r, Hlen in E.
    rewrite (bind_done _ _ _ _ _ (E ltac:(clear E; intros j t r Hj Hr; apply (dec_node_loaded t d'); [by eapply bare_full|by eapply vals_ok_full|by eapply Hall|lia|lia|done]) ltac:(lia))).
    done.
Qed.

(** ** Representation *)

(** The hash of a node that is in the database with everything below it. *)
Definition cached (pfx : list Z) (t : tree) (h : bytes) : Prop :=
  h = node_hash t /\ (hashed t = true \/ pfx = []) /\ in_db pfx t.

Inductive repr : list Z -> node -> tree -> Prop :=
| repr_nil pfx : repr pfx NNil TNil
| repr_hash pfx h t : cached pfx t h -> t <> TNil -> (pfx = [] \/ is_full t) -> repr pfx (NHash h) t
| repr_short pfx k n t ho :
    repr (pfx ++ k) n t ->
    (forall h, ho = Some h -> cached pfx (TShort k t) h) ->
    (forall h cs, ho = Some h -> n = NFull cs None -> hashed t = false) ->
    (n = NValue None -> ho <> None) ->
    repr pfx (NShort k n ho) (TShort k t)
| repr_full pfx cs ts ho :
    length cs = length ts ->
    (forall i c t, cs !! i = Some c -> ts !! i = Some t -> repr (pfx ++ [Z.of_nat i]) c t) ->
    (forall h, ho = Some h -> cached pfx (TFull ts) h) ->
    repr pfx (NFull cs ho) (TFull ts)
| repr_stored pfx s h : (forall db, Dbs db -> value_in db pfx s) -> repr pfx (NValue None) (TVal s h)
| repr_internal pfx s h : (forall db, Dbs db -> value_in db pfx s) -> repr pfx (NValue (Some (internal_value s h))) (TVal s h)
| repr_external pfx v : repr pfx (NValue (Some (external_value v))) (TVal (fst (EncodeForTrie v)) (snd (EncodeForTrie v))).

Lemma in_db_value pfx k s h : in_db pfx (TShort k (TVal s h)) -> forall db, Dbs db -> value_in db (pfx ++ k) s.
Proof. intros Hin db Hdb. destruct (Hin db Hdb) as [Hv _]. apply (Hv k s h), lookup_leaf_self. Qed.

(** What is loaded represents the tree. *)
Lemma repr_loaded t : forall d pfx, wf0 d t -> in_db pfx t -> pfx <> [] -> repr pfx (loaded t) t.
Proof.
  induction t as [|k t IH|ts IH|s h] using tree_ind'; intros d pfx Hwf Hin Hpfx; [constructor| | |by destruct Hwf as [|Hwf%wf_not_val]].
  - destruct Hwf as [|Hwf]; [done|]. destruct (wf_not_full_val _ _ _ Hwf) as [(s & h & -> & Hk)|(ts & d' & -> & Hk & Hne & -> & Ht)].
    + simpl. destruct (hashed _) eqn:Eh.
      * constructor; [constructor; by eapply in_db_value| |done|done]. intros h' [= <-]. split_and!; [done|by left|done].
      * constructor; [constructor; by eapply in_db_value|done..].
    + cbn [loaded]. specialize (IH d' (pfx ++ k) (or_intror Ht) (in_db_short _ _ _ Hne Hin) ltac:(by destruct pfx)).
      destruct (hashed (TFull ts)) eqn:Eh.
      * constructor; [by cbn [loaded] in IH; rewrite Eh in IH| |done|done]. intros h' [= <-]. split_and!; [done|left|done].
        apply hashed_true. rewrite enc_c_ext, ref_hashed, Eh. pose proof (blen_enc_list_bounds (enc_string (compact k) ++ enc_string (node_hash (TFull ts)))) as Hb.
        rewrite blen_app in Hb. unfold node_hash in *. rewrite blen_enc_hash in Hb. pose proof (blen_nonneg (enc_string (compact k))). lia.
      * constructor; [by cbn [loaded] in IH; rewrite Eh in IH|done..].
  - destruct Hwf as [|Hwf]; [done|]. simpl. destruct (hashed (TFull ts)) eqn:Eh.
    + constructor; [|done|by right]. split_and!; [done|by left|done].
    + apply wf_full_inv in Hwf as (d' & ? & ? & ? & ? & -> & Hlen & _ & _ & _ & _ & _ & Hall).
      constructor; [by rewrite length_map| |done]. intros i c t Hc Ht. rewrite list_lookup_fmap, Ht in Hc. injection Hc as <-.
      rewrite Forall_forall in IH. apply (IH t (list_elem_of_lookup_2 _ _ _ Ht) d'); [by eapply Hall|by eapply in_db_full|by destruct pfx].
Qed.

Lemma repr_loaded_root t d pfx : wf d t -> in_db pfx t -> (hashed t = true \/ pfx = []) -> repr pfx (loaded_root t) t.
Proof.
  intros Hwf Hin Hh. assert (cached pfx t (node_hash t)) as Hc by done.
  destruct t as [|k t|ts|s h]; [by apply wf_not_nil in Hwf| | |by apply wf_not_val in Hwf].
  - destruct (wf_not_full_val _ _ _ Hwf) as [(s & h & -> & Hk)|(ts & d' & -> & Hk & Hne & -> & Ht)].
    + constructor; [constructor; by eapply in_db_value|by intros h' [= <-]|done|done].
    + cbn [loaded_root]. constructor; [|by intros h' [= <-]| |by intros E; simpl in E; destruct (hashed _)].
      * apply (repr_loaded (TFull ts) d'); [by right|by apply in_db_short|by destruct pfx, k].
      * intros h' cs _. simpl. by destruct (hashed (TFull ts)).
  - cbn [loaded_root]. apply wf_full_inv in Hwf as (d' & ? & ? & ? & ? & -> & Hlen & _ & _ & _ & _ & _ & Hall).
    constructor; [by rewrite length_map| |by intros h' [= <-]]. intros i c t' Hc' Ht. rewrite list_lookup_fmap, Ht in Hc'. injection Hc' as <-.
    apply (repr_loaded t' d'); [by eapply Hall|by eapply in_db_full|by destruct pfx].
Qed.

Lemma loaded_root_not_hash t : is_hash (loaded_root t) = false.
Proof. by destruct t as [|? []| |]. Qed.

Lemma resolve_loaded db d pfx h t :
  Dbs db -> cached pfx t h -> (pfx = [] \/ is_full t) -> vals_ok t -> wf d t -> (d <= 65)%nat ->
  resolve schema h pfx db = Done (loaded_root t) db /\ repr pfx (loaded_root t) t.
Proof.
  intros Hdb (-> & Hh & Hin) Hfull Hok Hwf Hd. split; [|by eapply repr_loaded_root].
  unfold Trie.resolve, get_st, bindM. destruct (Hin db Hdb) as [_ Hn]. rewrite (Hn t).
  2: { destruct Hfull as [Hp|Hf]; [by left|]. destruct Hh as [Hh|Hp]; [|by left]. right. split; [|done]. destruct t; try done. constructor. }
  rewrite (loaded_root_dec t d) by (done || (by apply in_db_bare) || unfold dec_fuel; lia).
  destruct t as [|k []|ts|s' h']; (done || by apply wf_not_nil in Hwf) || by apply wf_not_val in Hwf.
Qed.

(** ** Inversions *)
Lemma repr_full_inv pfx n ts : repr pfx n (TFull ts) ->
  (exists h, n = NHash h /\ cached pfx (TFull ts) h) \/
  (exists cs ho, n = NFull cs ho /\ length cs = length ts /\
     (forall i c t, cs !! i = Some c -> ts !! i = Some t -> repr (pfx ++ [Z.of_nat i]) c t) /\
     (forall h, ho = Some h -> cached pfx (TFull ts) h)).
Proof. inversion 1; subst; [left|right]; eauto 10. Qed.

Lemma repr_short_inv pfx n k t : repr pfx n (TShort k t) ->
  (exists h, n = NHash h /\ cached pfx (TShort k t) h /\ pfx = []) \/
  (exists val ho, n = NShort k val ho /\ repr (pfx ++ k) val t /\ (forall h, ho = Some h -> cached pfx (TShort k t) h)).
Proof. inversion 1 as [|? ? ? ? ? [?|?]| | | | |]; subst; [left; eauto|done|right; eauto 10]. Qed.

Lemma repr_nil_iff pfx n t : repr pfx n t -> n = NNil <-> t = TNil.
Proof. inversion 1; subst; (split; congruence) || done. Qed.

Lemma repr_val_inv pfx n s h : repr pfx n (TVal s h) -> pfx <> [] -> exists v, n = NValue v.
Proof. inversion 1 as [|? ? ? ? ? [?|?]| | | | |]; subst; [done|done|eauto..]. Qed.

Lemma repr_not_value pfx n t : repr pfx n t -> (forall s h, t <> TVal s h) -> forall v, n <> NValue v.
Proof. intros Hr Ht w ->. inversion Hr; subst; by edestruct Ht. Qed.

(** ** [shift] *)
Lemma val_cases (val : node) : val = NValue None \/ (val <> NValue None /\
  forall m : M TrieDB node, (match val with NValue None => m | v => ret v end) = ret val).
Proof. destruct val as [| | | |[]]; (by left) || by right. Qed.

Lemma shift_down_sim db pfx c x ka val t :
  Dbs db -> repr (pfx ++ c ++ x :: ka) val t ->
  ((exists ts, t = TFull ts) \/ exists s h, t = TVal s h /\ ka <> [] /\ s <> [] /\ ValueStorageToHashEncoding schema s = Some h) ->
  exists n, shift schema val None (pfx ++ c) x ka (c ++ x :: ka) false db = Done n db /\ repr (pfx ++ c ++ [x]) n (t_short ka t).
Proof.
  intros Hdb Hr Ht. unfold shift.
  assert (exists val', (match val with NValue None => resolve_val_n_by_hex_k schema ((pfx ++ c) ++ x :: ka) | v => ret v end) db = Done val' db /\
    repr (pfx ++ c ++ x :: ka) val' t /\ val' <> NValue None) as (val' & E & Hr' & Hv').
  { destruct (val_cases val) as [->|[Hv Ev]].
    - inversion Hr as [| | | |? s h Hval| |]; subst.
      destruct Ht as [[? ?]|(s' & h' & [= <- <-] & _ & Hs & Eh)]; [done|].
      rewrite <- app_assoc. exists (NValue (Some (internal_value s h))). split_and!; [apply resolve_val_done; auto|by constructor|done].
    - exists val. rewrite Ev. done. }
  rewrite (bind_done _ _ _ _ _ E). eexists. split; [done|].
  replace (pfx ++ c ++ x :: ka) with ((pfx ++ c ++ [x]) ++ ka) in Hr' by (by rewrite <- !app_assoc).
  destruct ka as [|y ka]; [by rewrite app_nil_r in Hr'|]. by constructor.
Qed.

Lemma shift_up_sim db pfx i kp val t ho :
  Dbs db -> repr (pfx ++ [i]) (NShort kp val ho) (TShort kp t) ->
  ((exists ts, t = TFull ts) \/ exists s h, t = TVal s h /\ s <> [] /\ ValueStorageToHashEncoding schema s = Some h) ->
  exists val', shift schema val None pfx i kp kp true db = Done (NShort (i :: kp) val' None) db /\
    repr pfx (NShort (i :: kp) val' None) (TShort (i :: kp) t) /\ val' <> NValue None.
Proof.
  intros Hdb Hr Ht. apply repr_short_inv in Hr as [(? & ? & _)|(? & ? & [= <- <-] & Hr & _)]; [done|]. unfold shift.
  rewrite <- app_assoc in Hr. simpl in Hr.
  destruct (val_cases val) as [->|[Hv Ev]].
  - inversion Hr as [| | | |? s h Hval| |]; subst.
    destruct Ht as [[? ?]|(s' & h' & [= <- <-] & Hs & Eh)]; [done|].
    exists (NValue (Some (internal_value s h))). rewrite (bind_done _ _ _ _ _ (resolve_val_done _ _ _ _ (Hval _ Hdb) Hs Eh)).
    split_and!; [done|by constructor; [constructor|..]|done].
  - exists val. rewrite Ev. split_and!; [done|by constructor|done].
Qed.

(** ** A position in the key *)
Section cursor.
Context (kbuf : list Z) (Hkbuf : hexkey 65 kbuf).

Lemma cursor_key pos d : (pos + d = 65)%nat -> (1 <= d)%nat -> hexkey d (drop pos kbuf).
Proof.
  intros Hd H1. apply hexkey_length in Hkbuf as Hl. pose proof Hkbuf as Hk. rewrite <- (take_drop pos kbuf) in Hk.
  destruct (hexkey_drop _ _ _ Hk) as [_ (d' & E & Hd')].
  - intros E. apply (f_equal length) in E. rewrite length_drop in E. simpl in E. lia.
  - rewrite length_take in E. by replace d with d' by lia.
Qed.

Lemma cursor_move pos k r : (pos <= 65)%nat -> drop pos kbuf = k ++ r ->
  take (pos + length k) kbuf = take pos kbuf ++ k /\ drop (pos + length k) kbuf = r.
Proof.
  intros Hpos E. apply hexkey_length in Hkbuf as Hl.
  rewrite <- drop_drop, E, drop_app_length. split; [|done].
  rewrite <- (take_drop pos kbuf) at 1. rewrite E, app_assoc.
  replace (pos + length k)%nat with (length (take pos kbuf ++ k)) by (rewrite length_app, length_take; lia).
  by rewrite take_app_length.
Qed.

Lemma cursor_nibble pos x r db : drop pos kbuf = x :: r -> nibble kbuf pos db = Done x db.
Proof. intros E. unfold nibble, or_panic. apply (f_equal head) in E. rewrite head_lookup, lookup_drop, Nat.add_0_r in E. simpl in E. by rewrite E. Qed.
End cursor.

Lemma child_done (cs : list node) x c db : nib x -> cs !! Z.to_nat x = Some c -> child cs x db = Done c db.
Proof. intros Hx Hc. unfold child, nib in *. rewrite (proj2 (Z.ltb_ge _ _)) by lia. by rewrite Hc. Qed.

Lemma child_empty x db : nib x -> child (V := V) empty_children x db = Done NNil db.
Proof.
  intros Hx. apply child_done; [done|]. unfold empty_children, nib in *. apply lookup_replicate. split; [done|].
  change full_node_child_cnt with 16%nat. lia.
Qed.

Lemma lookup_set_child (cs : list node) x c i : (Z.to_nat x < length cs)%nat ->
  set_child cs x c !! i = if decide (i = Z.to_nat x) then Some c else cs !! i.
Proof.
  intros Hx. unfold set_child. case_decide as E; [subst; by apply list_lookup_insert_eq|by apply list_lookup_insert_ne].
Qed.

(** A full node with a child replaced. *)
Lemma repr_set_child pfx cs ts x c t ho :
  nib x -> length cs = length ts ->
  (forall i c t, cs !! i = Some c -> ts !! i = Some t -> repr (pfx ++ [Z.of_nat i]) c t) ->
  (forall h, ho = Some h -> cached pfx (TFull (<[Z.to_nat x := t]> ts)) h) ->
  repr (pfx ++ [x]) c t -> repr pfx (NFull (set_child cs x c) ho) (TFull (<[Z.to_nat x := t]> ts)).
Proof.
  intros Hx Hl Hall Hho Hc. constructor; [unfold set_child; by rewrite !length_insert| |done].
  intros i c' t' Hc' Ht'. unfold nib in Hx.
  apply list_lookup_insert_Some in Hc' as [(<- & <- & Hlt)|[Hne Hc']].
  - rewrite list_lookup_insert_eq in Ht' by (rewrite <- Hl; done). injection Ht' as <-. by rewrite Z2Nat.id by lia.
  - rewrite list_lookup_insert_ne in Ht' by done. eauto.
Qed.

Lemma repr_junction pfx x y cx cy tx ty : nib x -> nib y ->
  repr (pfx ++ [x]) cx tx -> repr (pfx ++ [y]) cy ty ->
  repr pfx (NFull (set_child (set_child empty_children x cx) y cy) None) (junction x tx y ty).
Proof.
  intros Hx Hy Hcx Hcy. unfold junction. apply repr_set_child; [done| | |done|done].
  - unfold set_child. by rewrite !length_insert.
  - intros i c t Hc Ht.
    assert (repr pfx (NFull (set_child empty_children x cx) None) (TFull (<[Z.to_nat x := tx]> no_children))) as Hr.
    { apply repr_set_child; [done|done| |done|done]. intros j c' t' Hc' Ht'.
      apply lookup_replicate in Hc' as [-> _], Ht' as [-> _]. constructor. }
    apply repr_full_inv in Hr as [(? & ? & _)|(? & ? & [= <- <-] & _ & Hall & _)]; [done|]. eauto.
Qed.

(** ** [mpt_insert] follows [t_insert] *)
Lemma vals_schema k s h : vals_ok (TShort k (TVal s h)) -> s <> [] /\ ValueStorageToHashEncoding schema s = Some h.
Proof. intros Hok. destruct (Hok k s h (lookup_leaf_self _ _ _)) as (? & ? & _). done. Qed.

Section insert.
Context (db : TrieDB) (Hdb : Dbs db) (kbuf : list Z) (Hkbuf : hexkey 65 kbuf) (v : V).

Abbreviation value := (NValue (Some (external_value v))).
Abbreviation vs := (fst (EncodeForTrie v)).
Abbreviation vh := (snd (EncodeForTrie v)).

Lemma insert_sim fuel : forall pos n t d,
  repr (take pos kbuf) n t -> wf0 d t -> (pos + d = 65)%nat -> (1 <= d)%nat -> vals_ok t ->
  ((if is_hash n then 2 * d + 2 else 2 * d + 1) <= fuel)%nat ->
  exists n', mpt_insert schema fuel kbuf n pos value db = Done n' db /\
    repr (take pos kbuf) n' (t_insert (drop pos kbuf) vs vh t).
Proof.
  induction fuel as [|fuel IH]; intros pos n t d Hr Hwf Hpos Hd Hok Hf; [destruct (is_hash n); lia|].
  pose proof (cursor_key kbuf Hkbuf pos d Hpos Hd) as Hkey.
  destruct (is_hash n) eqn:Ehash.
  { destruct n as [|h| | |]; try done. assert (cached (take pos kbuf) t h /\ t <> TNil /\ (take pos kbuf = [] \/ is_full t)) as (Hc & Hne & Hfull) by (by inversion Hr).
    destruct Hwf as [|Hwf]; [done|]. destruct (resolve_loaded db d _ h t Hdb Hc Hfull Hok Hwf ltac:(lia)) as [Er Hrl].
    cbn [mpt_insert]. rewrite (bind_done _ _ _ _ _ Er). apply (IH pos _ t d); [done|by right|done..|]. rewrite loaded_root_not_hash. lia. }
  destruct t as [|k t|ts|s h]; [| | |by destruct Hwf as [|Hwf%wf_not_val]].
  - apply (repr_nil_iff _ _ _) in Hr as E. rewrite (proj2 E) by done. eexists. split; [done|].
    constructor; [constructor|done..].
  - destruct Hwf as [|Hwf]; [done|]. apply repr_short_inv in Hr as [(? & -> & _)|(val & ho & -> & Hval & _)]; [done|].
    cbn [mpt_insert t_insert].
    destruct (short_cases _ _ _ _ Hwf Hkey) as [(-> & [(Ek & s1 & h1 & ->)|(ts & r & d' & -> & Ek & -> & Hr' & Ht & Hk & Hne)])|
      (c & x & y & ka & kb & d' & Ek & -> & Hxy & -> & Hc & Hx & Hy & -> & Hkb & Ht)].
    + apply hexkey_length in Hkey. rewrite Ek in Hkey. rewrite (proj2 (Nat.eqb_eq _ HexKeyLen)) by (unfold HexKeyLen; lia).
      rewrite Nat.eqb_refl. eexists. split; [done|]. constructor; [constructor|done..].
    + apply wf_pos in Ht as Hd'. rewrite (proj2 (Nat.eqb_neq _ HexKeyLen)) by (unfold HexKeyLen; lia). rewrite Nat.eqb_refl.
      destruct (cursor_move kbuf Hkbuf pos k r ltac:(lia) Ek) as [E1 E2].
      destruct (IH (pos + length k)%nat val (TFull ts) d') as (val' & Ev & Hv'); [by rewrite E1|by right|lia|done|by eapply vals_ok_short|..].
      { destruct k; [done|]. simpl in *. destruct (is_hash val); lia. }
      rewrite (bind_done _ _ _ _ _ Ev). eexists. split; [done|].
      rewrite E1, E2 in Hv'. rewrite Ek, drop_app_length. constructor; [done|done|done|]. intros ->.
      destruct (t_insert_shape r vs vh (TFull ts)) as [ts' Ets]; [by eexists|]. rewrite Ets in Hv'. inversion Hv'.
    + rewrite (proj2 (Nat.eqb_neq _ HexKeyLen)) by (unfold HexKeyLen; lia).
      rewrite (proj2 (Nat.eqb_neq (length c) _)) by (rewrite length_app; simpl; lia).
      rewrite list_lookup_middle by done. rewrite (bind_done _ _ _ x db eq_refl). rewrite (bind_done _ _ _ _ _ (child_empty x db Hx)).
      destruct (cursor_move kbuf Hkbuf pos c (y :: kb) ltac:(lia) Ek) as [E1 E2].
      rewrite Nat.add_1_r, !drop_past, E1.
      destruct (shift_down_sim db (take pos kbuf) c x ka val t Hdb Hval) as (shifted & Es & Hs).
      { destruct (wf_not_full_val _ _ _ Hwf) as [(s & h & -> & Hk)|(ts & ? & -> & _)]; [right|left; by eexists].
        destruct (vals_schema _ _ _ Hok). exists s, h. split_and!; try done. intros ->. simpl in Ht. by apply wf_not_val in Ht. }
      rewrite (bind_done _ _ _ _ _ Es). rewrite (bind_done _ _ _ _ _ (cursor_nibble kbuf _ _ _ db E2)).
      rewrite (bind_done _ _ _ _ _ (child_empty y db Hy)). eexists. split; [done|].
      replace (drop (pos + length c + 1) kbuf) with kb by (rewrite <- drop_drop, E2; done).
      rewrite Ek, take_app_length, !nth_middle, !drop_past.
      replace (take (length c) (drop pos kbuf)) with c by (by rewrite Ek, take_app_length). rewrite take_app_length.
      assert (repr (take pos kbuf ++ c) (NFull (set_child (set_child empty_children x shifted) y (NShort kb value None)) None)
        (junction x (t_short ka t) y (TShort kb (TVal vs vh)))) as Hj.
      { apply repr_junction; [done..|by rewrite <- app_assoc|]. constructor; [constructor|done..]. }
      destruct c as [|z c]; [by rewrite app_nil_r in Hj|]. by constructor.
  - destruct Hwf as [|Hwf]; [done|]. apply repr_full_inv in Hr as [(? & -> & _)|(cs & ho & -> & Hl & Hall & _)]; [done|].
    apply wf_full_inv in Hwf as (d' & i & j & ti & tj & -> & Hlen & _ & _ & _ & Hti & _ & Hwfs). apply wf_pos in Hti.
    destruct (drop pos kbuf) as [|x key] eqn:Ek; [inversion Hkey|].
    destruct (hexkey_nib _ d' [] _ _ Hkey eq_refl Hti) as [Hx Hkey'].
    destruct (cursor_move kbuf Hkbuf pos [x] key ltac:(lia) Ek) as [E1 E2]. simpl length in E1, E2.
    cbn [mpt_insert t_insert]. rewrite (bind_done _ _ _ _ _ (cursor_nibble kbuf _ _ _ db Ek)).
    unfold nib in Hx. destruct (lookup_lt_is_Some_2 ts (Z.to_nat x)) as [t Ht]; [rewrite Hlen; change full_node_child_cnt with 16%nat; lia|].
    destruct (lookup_lt_is_Some_2 cs (Z.to_nat x)) as [c Hc]; [rewrite Hl, Hlen; change full_node_child_cnt with 16%nat; lia|].
    rewrite (bind_done _ _ _ _ _ (child_done cs x c db Hx Hc)).
    pose proof (Hall _ _ _ Hc Ht) as Hct. rewrite Z2Nat.id in Hct by lia.
    destruct (IH (pos + 1)%nat c t d') as (c' & Ec & Hc'); [by rewrite E1|by eapply Hwfs|lia|done|by eapply vals_ok_full|destruct (is_hash c); lia|].
    rewrite (bind_done _ _ _ _ _ Ec). eexists. split; [done|]. rewrite E1, E2 in Hc'.
    replace (alter (t_insert key vs vh) (Z.to_nat x) ts) with (<[Z.to_nat x := t_insert key vs vh t]> ts).
    2: { apply list_eq. intros m. destruct (decide (m = Z.to_nat x)) as [->|].
         - rewrite list_lookup_alter_eq, Ht. apply list_lookup_insert_eq. by eapply lookup_lt_Some.
         - by rewrite list_lookup_alter_ne, list_lookup_insert_ne by done. }
    by apply repr_set_child.
Qed.
End insert.

(** ** [mpt_del] follows [t_delete] *)

(** The only other child, in memory and in the tree. *)
Lemma only_child_spec pfx cs ts x : nib x -> length cs = length ts ->
  (forall i c t, cs !! i = Some c -> ts !! i = Some t -> repr (pfx ++ [Z.of_nat i]) c t) ->
  match only_child_nibble cs x with
  | Some z => exists i t, z = Z.of_nat i /\ t_only (<[Z.to_nat x := TNil]> ts) = Some (i, t) /\ ts !! i = Some t /\ i <> Z.to_nat x
  | None => forall i t, ts !! i = Some t -> t <> TNil -> i <> Z.to_nat x -> t_only (<[Z.to_nat x := TNil]> ts) = None
  end.
Proof.
  intros Hx Hl Hall. unfold only_child_nibble. unfold nib in Hx.
  pose proof (filter_only (fun p : nat * node => negb (is_nil (snd p)) && negb (Z.of_nat (fst p) =? x)) cs) as H1.
  pose proof (t_only_spec (<[Z.to_nat x := TNil]> ts)) as H2.
  assert (forall i c t, cs !! i = Some c -> ts !! i = Some t -> (negb (is_nil c) && negb (Z.of_nat i =? x)) <-> t <> TNil /\ i <> Z.to_nat x) as Hiff.
  { intros i c t Hc Ht. pose proof (repr_nil_iff _ _ _ (Hall i c t Hc Ht)) as Hn.
    assert (is_nil c = true <-> c = NNil) as Hc' by (by destruct c).
    rewrite Is_true_true, andb_true_iff, !negb_true_iff, Z.eqb_neq, <- not_true_iff_false, Hc', Hn.
    split; (intros [? ?]; split; [done|lia]). }
  assert (forall i t, <[Z.to_nat x := TNil]> ts !! i = Some t -> t <> TNil <-> ts !! i = Some t /\ t <> TNil /\ i <> Z.to_nat x) as Hins.
  { intros i t Ht. split; [|by intros (_ & ? & _)]. intros Hne.
    apply list_lookup_insert_Some in Ht as [(_ & <- & _)|[? ?]]; [done|]. by split_and!. }
  assert (forall i t, ts !! i = Some t -> exists c, cs !! i = Some c) as Hcs.
  { intros i t Ht. apply lookup_lt_is_Some_2. rewrite Hl. by eapply lookup_lt_Some. }
  assert (forall i c, cs !! i = Some c -> exists t, ts !! i = Some t) as Hts.
  { intros i c Hc. apply lookup_lt_is_Some_2. rewrite <- Hl. by eapply lookup_lt_Some. }
  destruct (filter _ _) as [|[i c] [|[j c'] r]].
  - intros i t Ht Hne Hi. destruct (Hcs i t Ht) as [c Hc]. destruct (H1 i c Hc). simpl. by apply (Hiff i c t).
  - destruct H1 as (Hi & Hp & Huniq). simpl in Hp, Huniq. destruct (Hts i c Hi) as [t Ht].
    apply (Hiff i c t Hi Ht) in Hp as [Hne Hix].
    assert (<[Z.to_nat x := TNil]> ts !! i = Some t) as Hit by (by rewrite list_lookup_insert_ne).
    exists i, t. split_and!; [done| |done|done].
    destruct (t_only _) as [[j t']|].
    + destruct H2 as (Hj & Hj' & Hu). rewrite <- (Hu i t Hit Hne) in *. congruence.
    + destruct (H2 i t Hit Hne) as (j & t' & Hji & Hj & Hj'). apply (Hins j t' Hj) in Hj' as (Hj1 & Hj2 & Hj3).
      destruct (Hcs j t' Hj1) as [c' Hc']. destruct Hji. apply (Huniq j c' Hc'). by apply (Hiff j c' t').
  - destruct H1 as (Hij & Hi & Hp & Hj & Hq). simpl in Hp, Hq.
    destruct (Hts i c Hi) as [t Ht]. destruct (Hts j c' Hj) as [t' Ht'].
    apply (Hiff i c t Hi Ht) in Hp as [Hne Hix]. apply (Hiff j c' t' Hj Ht') in Hq as [Hne' Hjx].
    intros _ _ _ _ _. destruct (t_only _) as [[m tm]|]; [|done]. destruct H2 as (_ & _ & Hu). destruct Hij.
    by rewrite (Hu i t), (Hu j t') by (rewrite ?list_lookup_insert_ne; done).
Qed.

Section delete.
Context (db : TrieDB) (Hdb : Dbs db) (kbuf : list Z) (Hkbuf : hexkey 65 kbuf).

Definition val_known (n : node) : Prop := forall k v h, n = NShort k v h -> v <> NValue None.

Lemma collapse_sim pfx cs ts x c' t' d :
  nib x -> length ts = full_node_child_cnt -> length cs = length ts -> pfx ++ [x] <> [] ->
  (forall i c t, cs !! i = Some c -> ts !! i = Some t -> repr (pfx ++ [Z.of_nat i]) c t) ->
  (forall i t, ts !! i = Some t -> wf0 d t /\ vals_ok t) -> (S (length pfx) + d = 65)%nat ->
  (exists i t, ts !! i = Some t /\ t <> TNil /\ i <> Z.to_nat x) ->
  repr (pfx ++ [x]) c' t' ->
  exists n,
    (match (if is_nil c' then only_child_nibble cs x else None) with
     | None => ret (NFull (set_child cs x c') None, true)
     | Some i =>
         only_child ← child cs i;
         only_child ← (match only_child with NHash h => resolve schema h (pfx ++ [i]) | c => ret c end);
         match only_child with
         | NShort key_part val _ => n ← shift schema val None pfx i key_part key_part true; ret (n, true)
         | c => ret (NShort [i] c None, true)
         end
     end) db = Done (n, true) db /\ repr pfx n (t_collapse (<[Z.to_nat x := t']> ts)) /\ val_known n.
Proof.
  intros Hx Hlen Hl Hne Hall Hwf Hd (j & tj & Hj & Hjn & Hjx) Hc'.
  Transparent t_collapse. unfold t_collapse. Opaque t_collapse.
  assert (repr pfx (NFull (set_child cs x c') None) (TFull (<[Z.to_nat x := t']> ts))) as Hfull by (by apply repr_set_child).
  assert (forall n, t_only (<[Z.to_nat x := t']> ts) = None -> n = NFull (set_child cs x c') None ->
    repr pfx n (match t_only (<[Z.to_nat x := t']> ts) with Some (i, t) => t_push [Z.of_nat i] t | None => TFull (<[Z.to_nat x := t']> ts) end)) as Hnone.
  { intros n E ->. by rewrite E. }
  destruct (is_nil c') eqn:En.
  - assert (c' = NNil) as -> by (by destruct c'). assert (t' = TNil) as -> by (by apply (repr_nil_iff _ _ _ Hc')).
    pose proof (only_child_spec pfx cs ts x Hx Hl Hall) as Ho. destruct (only_child_nibble cs x) as [z|].
    + destruct Ho as (i & t & -> & Eo & Ht & Hix). rewrite Eo.
      apply lookup_lt_Some in Ht as Hlt. destruct (lookup_lt_is_Some_2 cs i) as [c Hc]; [by rewrite Hl|].
      assert (nib (Z.of_nat i)) as Hi by (rewrite Hlen in Hlt; change full_node_child_cnt with 16%nat in Hlt; unfold nib; lia).
      rewrite (bind_done _ _ _ c db) by (apply child_done; [done|by rewrite Nat2Z.id]).
      pose proof (Hall i c t Hc Ht) as Hr. destruct (Hwf i t Ht) as [Hwt Hok].
      pose proof (t_only_spec (<[Z.to_nat x := TNil]> ts)) as Hs. rewrite Eo in Hs. destruct Hs as (_ & Htn & _).
      destruct Hwt as [|Hwt]; [done|].
      assert (exists c1, (match c with NHash h => resolve schema h (pfx ++ [Z.of_nat i]) | c => ret c end) db = Done c1 db /\
        repr (pfx ++ [Z.of_nat i]) c1 t /\ is_hash c1 = false) as (c1 & E1 & Hr1 & Hh1).
      { destruct (is_hash c) eqn:Eh; [|exists c; by destruct c].
        destruct c as [|h| | |]; try done. assert (cached (pfx ++ [Z.of_nat i]) t h /\ (pfx ++ [Z.of_nat i] = [] \/ is_full t)) as [Hca Hfu] by (by inversion Hr).
        destruct (resolve_loaded db d _ h t Hdb Hca Hfu Hok Hwt ltac:(lia)) as [Er Hrl].
        exists (loaded_root t). split_and!; [done..|apply loaded_root_not_hash]. }
      rewrite (bind_done _ _ _ _ _ E1). destruct t as [|k t|ts'|]; [done| | |by apply wf_not_val in Hwt].
      * destruct (repr_short_inv _ _ _ _ Hr1) as [(? & -> & _)|(val & ho & -> & Hval & Hho)]; [done|].
        destruct (shift_up_sim db pfx (Z.of_nat i) k val t ho Hdb Hr1) as (val' & Es & Hrs & Hv').
        { destruct (wf_not_full_val _ _ _ Hwt) as [(s & h & -> & Hk)|(ts' & ? & -> & _)]; [right|left; by eexists].
          destruct (vals_schema _ _ _ Hok). by exists s, h. }
        rewrite (bind_done _ _ _ _ _ Es). eexists. split; [done|]. split; [done|]. by intros ? ? ? [= <- <- <-].
      * destruct (repr_full_inv _ _ _ Hr1) as [(? & -> & _)|(cs' & ho & -> & _)]; [done|].
        eexists. split; [done|]. split; [by constructor|]. by intros ? ? ? [= <- <- <-].
    + eexists. split; [done|]. split; [by apply Hnone; [apply (Ho j tj)|]|]. by intros ? ? ?.
  - eexists. split; [done|]. split; [|by intros ? ? ?]. apply Hnone; [|done].
    pose proof (t_only_spec (<[Z.to_nat x := t']> ts)) as Hs. destruct (t_only _) as [[m tm]|]; [|done].
    destruct Hs as (_ & _ & Hu). exfalso. assert (j = m) as <- by (apply (Hu j tj); [by rewrite list_lookup_insert_ne|done]).
    destruct Hjx. symmetry. apply (Hu (Z.to_nat x) t').
    + apply list_lookup_insert_eq. unfold nib in Hx. rewrite Hlen. change full_node_child_cnt with 16%nat. lia.
    + intros ->. destruct (repr_nil_iff _ _ _ Hc') as [_ E]. rewrite E in En by done. done.
Qed.

Lemma delete_sim fuel : forall pos n t d,
  repr (take pos kbuf) n t -> wf0 d t -> (pos + d = 65)%nat -> (1 <= d)%nat -> vals_ok t ->
  ((if is_hash n then 2 * d + 2 else 2 * d + 1) <= fuel)%nat ->
  exists n' found, mpt_del schema fuel kbuf n pos db = Done (n', found) db /\
    match t_delete (drop pos kbuf) t with
    | Some t' => found = true /\ repr (take pos kbuf) n' t' /\ val_known n'
    | None => found = false /\ repr (take pos kbuf) n' t
    end.
Proof.
  induction fuel as [|fuel IH]; intros pos n t d Hr Hwf Hpos Hd Hok Hf; [destruct (is_hash n); lia|].
  pose proof (cursor_key kbuf Hkbuf pos d Hpos Hd) as Hkey.
  destruct (is_hash n) eqn:Ehash.
  { destruct n as [|h| | |]; try done. assert (cached (take pos kbuf) t h /\ t <> TNil /\ (take pos kbuf = [] \/ is_full t)) as (Hc & Hne & Hfull) by (by inversion Hr).
    destruct Hwf as [|Hwf]; [done|]. destruct (resolve_loaded db d _ h t Hdb Hc Hfull Hok Hwf ltac:(lia)) as [Er Hrl].
    destruct (IH pos _ t d Hrl (or_intror Hwf) Hpos Hd Hok) as (n' & found & E & Hres); [rewrite loaded_root_not_hash; lia|].
    cbn [mpt_del]. rewrite (bind_done _ _ _ _ _ Er), (bind_done _ _ _ _ _ E). eexists _, _. split; [done|].
    destruct (t_delete _ t) as [t'|]; destruct Hres as [-> Hres]; done. }
  destruct t as [|k t|ts|s h]; [| | |by destruct Hwf as [|Hwf%wf_not_val]].
  - apply (repr_nil_iff _ _ _) in Hr as E. rewrite (proj2 E) by done. eexists _, _. split; [done|]. split; [done|constructor].
  - destruct Hwf as [|Hwf]; [done|]. destruct (repr_short_inv _ _ _ _ Hr) as [(? & -> & _)|(val & ho & -> & Hval & _)]; [done|].
    cbn [mpt_del]. rewrite t_delete_short.
    destruct (short_cases _ _ _ _ Hwf Hkey) as [(-> & [(Ek & s1 & h1 & ->)|(ts & r & d' & -> & Ek & -> & Hr' & Ht & Hk & Hne)])|
      (c & x & y & ka & kb & d' & Ek & -> & Hxy & -> & Hc & Hx & Hy & -> & Hkb & Ht)].
    + rewrite Nat.eqb_refl. cbn [negb]. apply hexkey_length in Hkey as Hlk. rewrite Ek in Hlk.
      rewrite (proj2 (Nat.eqb_eq _ (length kbuf))) by (apply hexkey_length in Hkbuf; lia).
      eexists _, _. split; [done|]. rewrite Ek, strip_refl. simpl. split; [done|]. split; [constructor|by intros ? ? ?].
    + rewrite Nat.eqb_refl. cbn [negb]. apply wf_pos in Ht as Hd'.
      rewrite (proj2 (Nat.eqb_neq _ (length kbuf))) by (apply hexkey_length in Hkbuf; lia).
      destruct (cursor_move kbuf Hkbuf pos k r ltac:(lia) Ek) as [E1 E2].
      destruct (IH (pos + length k)%nat val (TFull ts) d') as (c & found & Ec & Hc); [by rewrite E1|by right|lia|done|by eapply vals_ok_short|..].
      { destruct k; [done|]. simpl in *. destruct (is_hash val); lia. }
      rewrite (bind_done _ _ _ _ _ Ec). eexists _, _. split; [done|]. rewrite Ek, strip_self. rewrite E1, E2 in Hc.
      destruct (t_delete r (TFull ts)) as [t'|] eqn:Ed; cbn [fmap option_fmap option_map].
      * destruct Hc as (-> & Hc & Hv). split; [done|].
        pose proof (t_delete_spec (TFull ts) d' r (or_intror Ht) Hr') as Hdel.
        assert (wf d' t') as Ht' by (by eapply t_delete_full_some). rewrite Ed in Hdel.
        destruct t' as [|k' t'|ts'|]; [by apply wf_not_nil in Ht'| | |by apply wf_not_val in Ht'].
        -- destruct (repr_short_inv _ _ _ _ Hc) as [(? & -> & _ & E0)|(val' & ho' & -> & Hval' & _)]; [by destruct (take pos kbuf), k|].
           pose proof (Hv _ _ _ eq_refl) as Hv'. simpl t_push. split; [|by intros ? ? ? [= <- <- <-]].
           constructor; [by rewrite app_assoc|done..].
        -- destruct (repr_full_inv _ _ _ Hc) as [(? & -> & _)|(cs' & ho' & -> & _)]; simpl t_push;
             (split; [by constructor|by intros ? ? ? [= <- <- <-]]).
      * destruct Hc as [-> Hc]. split; [done|].
        destruct (repr_full_inv _ _ _ Hc) as [(? & -> & _)|(cs' & ho' & -> & _)]; by constructor.
    + rewrite (proj2 (Nat.eqb_neq (length c) _)) by (rewrite length_app; simpl; lia). cbn [negb].
      eexists _, _. split; [done|]. destruct (strip _ _) as [r|] eqn:Es; [|done]. apply strip_app in Es. exfalso.
      rewrite Ek, <- app_assoc in Es. apply app_inv_head in Es. simpl in Es. congruence.
  - destruct Hwf as [|Hwf]; [done|]. destruct (repr_full_inv _ _ _ Hr) as [(? & -> & _)|(cs & ho & -> & Hl & Hall & Hho)]; [done|].
    apply wf_full_inv in Hwf as (d' & i & j & ti & tj & -> & Hlen & Hij & Hi & Hj & Hti & Htj & Hwfs).
    apply wf_pos in Hti as Hd'.
    destruct (drop pos kbuf) as [|x key] eqn:Ek; [inversion Hkey|].
    destruct (hexkey_nib _ d' [] _ _ Hkey eq_refl Hd') as [Hx Hkey'].
    destruct (cursor_move kbuf Hkbuf pos [x] key ltac:(lia) Ek) as [E1 E2]. simpl length in E1, E2.
    cbn [mpt_del]. rewrite t_delete_full. rewrite (bind_done _ _ _ _ _ (cursor_nibble kbuf _ _ _ db Ek)).
    pose proof Hx as Hx'. unfold nib in Hx'. destruct (lookup_lt_is_Some_2 ts (Z.to_nat x)) as [t Ht]; [rewrite Hlen; change full_node_child_cnt with 16%nat; lia|].
    destruct (lookup_lt_is_Some_2 cs (Z.to_nat x)) as [c Hc]; [rewrite Hl, Hlen; change full_node_child_cnt with 16%nat; lia|].
    rewrite (bind_done _ _ _ _ _ (child_done cs x c db Hx Hc)).
    pose proof (Hall _ _ _ Hc Ht) as Hct. rewrite Z2Nat.id in Hct by lia.
    destruct (IH (pos + 1)%nat c t d') as (c' & found & Ec & Hc'); [by rewrite E1|by eapply Hwfs|lia|done|by eapply vals_ok_full|destruct (is_hash c); lia|].
    rewrite (bind_done _ _ _ _ _ Ec), Ht. rewrite E1, E2 in Hc'.
    destruct (t_delete key t) as [t'|]; cbn [fmap option_fmap option_map].
    + destruct Hc' as (-> & Hc' & Hv'). cbn [negb].
      destruct (collapse_sim (take pos kbuf) cs ts x c' t' d' Hx Hlen Hl) as (n & En & Hn & Hvn); [by destruct (take pos kbuf)|done| | | |done|by exists n, true].
      * intros m tm Hm. split; [by eapply Hwfs|by eapply vals_ok_full].
      * rewrite length_take. apply hexkey_length in Hkbuf. lia.
      * destruct (decide (i = Z.to_nat x)) as [->|Hix].
        -- exists j, tj. split_and!; [done|by intros ->; apply wf_not_nil in Htj|congruence].
        -- exists i, ti. split_and!; [done|by intros ->; apply wf_not_nil in Hti|done].
    + destruct Hc' as [-> Hc']. cbn [negb]. eexists _, _. split; [done|]. split; [done|].
      rewrite <- (list_insert_id ts (Z.to_nat x) t Ht). apply repr_set_child; [done..| |done].
      by rewrite list_insert_id.
Qed.
End delete.
End sim.
