(* ===== verification/TrieCommit.v ===== *)
(** * [Writer.commit] computes the root hash and writes what reads back

    Whatever is cached, the two encoders receive [ref] and [sref] of the tree
    that is committed, and a database in which the writes hold represents the
    committed node. *)
From S2P Require Import Prelude Bytes Rlp RlpEncode RlpDecode RlpRoundtrip RlpRaw Crypto Trie TrieSpec TrieEnc TrieSim.

(** ** The hash encoder *)
Definition he_grown (he he' : hash_encoder) (b : bytes) : Prop :=
  (disabled he = true /\ he' = he) \/
  (disabled he = false /\ disabled he' = false /\ grown (encoder he) (encoder he') b).

Definition he_room (he : hash_encoder) (n : Z) : Prop := disabled he = false -> room (encoder he) n.

Definition he_started (he : hash_encoder) : hash_encoder :=
  if disabled he then he else mkHashEncoder (started (encoder he)) false.

Lemma he_grown_trans he he1 he2 b1 b2 : he_grown he he1 b1 -> he_grown he1 he2 b2 -> he_grown he he2 (b1 ++ b2).
Proof.
  intros [[Hd ->]|(Hd & Hd1 & G1)] [[Hd' ->]|(Hd' & Hd2 & G2)]; [by left|congruence..|].
  right. split_and!; [done..|by eapply grown_trans].
Qed.

Lemma he_grown_room he he' b n : he_grown he he' b -> he_room he (blen b + n) -> he_room he' n.
Proof.
  intros [[Hd ->]|(Hd & Hd1 & G1)] Hr Hd'; [congruence|]. eapply grown_room; [done|by apply Hr].
Qed.

Lemma he_room_le he m n : he_room he m -> n <= m -> he_room he n.
Proof. intros Hr Hle Hd. eapply room_le; [by apply Hr|done]. Qed.

Lemma he_started_room he n : he_room he n -> he_room (he_started he) n.
Proof. unfold he_started, he_room. destruct he as [e []]; simpl; [done|]. intros H _. by apply started_room, H. Qed.

Lemma he_started_disabled he : disabled (he_started he) = disabled he.
Proof. unfold he_started. by destruct (disabled he) eqn:E. Qed.

Lemma he_grown_disabled he he' b : he_grown he he' b -> disabled he' = disabled he.
Proof. intros [[Hd ->]|(Hd & Hd1 & _)]; congruence. Qed.

Lemma append_done e s : room e (blen (enc_string s)) -> exists e', AppendString s e = Done tt e' /\ grown e e' (enc_string s).
Proof. intros Hr. destruct (appends_string s e Hr) as ([] & e' & E & G). eauto. Qed.

Lemma he_append_done he s : he_room he (blen (enc_string s)) ->
  exists he', he_AppendString s he = Done tt he' /\ he_grown he he' (enc_string s).
Proof.
  intros Hr. unfold he_AppendString, enabled. destruct (disabled he) eqn:Ed; [exists he; split; [done|by left]|].
  destruct (append_done (encoder he) s (Hr Ed)) as (e' & -> & G). eexists. split; [done|]. right. by split_and!.
Qed.

Lemma he_ListStart_done he : exists pos, he_ListStart he = Done pos (he_started he) /\
  (disabled he = false -> pos = length (lheads (encoder he))).
Proof.
  unfold he_ListStart, enabled, he_started. destruct (disabled he); [by exists 0%nat|].
  rewrite ListStart_started. by eexists.
Qed.

Section commit_sim.
Context `{Crypto} {laws : CryptoLaws} {V : Type} (EncodeForTrie : V -> bytes * bytes) (schema : Schema).
Context (Hmax : MaxValueSizeToStoreInTrie schema < 32).

Abbreviation node := (@Trie.node V).

(** [ListEnd] of the hash encoder: the hash, and what its parent sees. *)
Lemma he_ListEnd_done he he1 p pos (is_root : bool) :
  he_grown (he_started he) he1 p -> (disabled he = false -> pos = length (lheads (encoder he))) ->
  he_room he (blen (enc_list p) + 33) ->
  exists he2, he_ListEnd pos is_root he1 =
      Done (if disabled he then None else if is_root || negb (blen (enc_list p) <? 32) then Some (keccak256 (enc_list p)) else None) he2 /\
    disabled he2 = disabled he /\ (is_root = false -> he_grown he he2 (ref_of (enc_list p))).
Proof.
  intros G Hpos Hr. apply he_grown_disabled in G as Ed1. rewrite he_started_disabled in Ed1.
  unfold he_ListEnd, enabled. rewrite Ed1. destruct (disabled he) eqn:Ed.
  { exists he1. split; [done|]. split; [done|]. intros _. left. split; [done|].
    destruct G as [[_ ->]|(Hd & _)]; [unfold he_started; by rewrite Ed|]. rewrite he_started_disabled in Hd. congruence. }
  rewrite Hpos by done. clear Hpos. destruct G as [[Hd _]|(_ & _ & G)]; [rewrite he_started_disabled in Hd; congruence|].
  unfold he_started in G. rewrite Ed in G. simpl in G. specialize (Hr Ed).
  destruct (ListEnd_grown _ _ _ G) as (e2 & E2 & G2 & Esz & Efl & Erev); [eapply room_le; [done|lia]|].
  unfold ListEnd_hash. rewrite (bind_done _ _ _ _ _ E2). rewrite (bind_done get_st _ _ _ _ eq_refl), Esz, Efl.
  destruct is_root; [rewrite andb_false_r|rewrite andb_true_r]; cbn [negb orb when].
  - cbn. eexists. split; [done|]. split; [done|]. done.
  - unfold ref_of. destruct (Z.ltb_spec (blen (enc_list p)) 32) as [Hlt|Hge]; cbn [negb].
    + eexists. split; [done|]. split; [done|]. intros _. right. by split_and!.
    + destruct (append_done (encoder he) (keccak256 (enc_list p))) as (e3 & E3 & G3).
      { eapply room_le; [done|]. rewrite blen_enc_hash. pose proof (blen_nonneg (enc_list p)). lia. }
      cbn [when]. unfold bindM. rewrite Erev, E3. eexists. split; [done|]. split; [done|]. intros _. right. by split_and!.
Qed.

(** ** Writes *)
Definition holds (F : TrieDB) (w : Write) : Prop :=
  match w with PutValue k s => GetValue F k = Some s | PutNode h b => GetNode F h = Some b end.

(** Writes of values and nodes of the tree. *)
Definition good (pfx : list Z) (t : tree) (w : Write) : Prop :=
  match w with
  | PutValue kb s => exists key h, t_lookup key t = Some (s, h) /\ hex_to_keybytes (pfx ++ key) = Some kb
  | PutNode h b => exists u, stored pfx t u /\ h = node_hash u /\ b = body schema u
  end.

Lemma good_short pfx k t w : k <> [] -> good (pfx ++ k) t w -> good pfx (TShort k t) w.
Proof.
  intros Hk. destruct w as [kb s|h b]; simpl.
  - intros (key & h & Hl & Hkb). exists (k ++ key), h. by rewrite strip_self, app_assoc.
  - intros (u & [[E _]|[Hs Hh]] & -> & ->); [by destruct pfx, k|]. exists u. split; [|done]. right. by split; [constructor|].
Qed.

Lemma good_full pfx ts i t w : ts !! i = Some t -> good (pfx ++ [Z.of_nat i]) t w -> good pfx (TFull ts) w.
Proof.
  intros Hi. destruct w as [kb s|h b]; cbn [good].
  - intros (key & h & Hl & Hkb). exists (Z.of_nat i :: key), h. rewrite t_lookup_child, Hi. by rewrite <- app_assoc in Hkb.
  - intros (u & [[E _]|[Hs Hh]] & -> & ->); [by destruct pfx|]. exists u. split; [|done]. right. by split; [econstructor|].
Qed.

Abbreviation reprF F := (repr EncodeForTrie schema (fun db => db = F)).
Abbreviation inF F := (in_db schema (fun db => db = F)).

(** Where the writes hold, the old node and the new one represent the tree,
    and all of the tree is in the database. *)
Definition provides (pfx : list Z) (n n' : node) (t : tree) (ws : list Write) : Prop :=
  forall F, Forall (holds F) ws -> reprF F pfx n t -> reprF F pfx n' t /\ inF F pfx t.

Lemma inF_short_intro F pfx k t : inF F (pfx ++ k) t ->
  (pfx = [] -> GetNode F (node_hash (TShort k t)) = Some (body schema (TShort k t))) -> inF F pfx (TShort k t).
Proof.
  intros Hin Hroot db ->. destruct (Hin F eq_refl) as [Hv Hn]. split.
  - intros key s h Hl. rewrite t_lookup_short in Hl. destruct (strip k key) as [r|] eqn:Es; [|done].
    apply strip_app in Es as ->. rewrite app_assoc. by eapply Hv.
  - intros u [[-> ->]|[Hs Hh]]; [by apply Hroot|]. inversion Hs; subst. apply Hn. by right.
Qed.

Lemma inF_full_intro F pfx ts : (forall i t, ts !! i = Some t -> inF F (pfx ++ [Z.of_nat i]) t) ->
  (pfx = [] \/ hashed (TFull ts) = true -> GetNode F (node_hash (TFull ts)) = Some (body schema (TFull ts))) -> inF F pfx (TFull ts).
Proof.
  intros Hin Hroot db ->. split.
  - intros [|x key] s h Hl; [done|]. apply t_lookup_full_inv in Hl as (Hx & t & Ht & Hl).
    destruct (Hin _ _ Ht F eq_refl) as [Hv _]. specialize (Hv _ _ _ Hl). by rewrite Z2Nat.id, <- app_assoc in Hv by done.
  - intros u [[-> ->]|[Hs Hh]]; [apply Hroot; by left|]. inversion Hs; subst; [apply Hroot; by right|].
    destruct (Hin _ _ ltac:(eassumption) F eq_refl) as [_ Hn]. apply Hn. by right.
Qed.

(** ** Room in the encoders *)
Definition HR (d : nat) : Z := 700 * Z.of_nat d + 2 ^ 31 + 100.
Definition SR (d : nat) : Z := 40000 * Z.of_nat d.

Lemma on_hash_done {A} (m : M hash_encoder A) a he he' es io :
  m he = Done a he' -> on_hash m (mkCtx he es io) = Done a (mkCtx he' es io).
Proof. unfold on_hash. simpl. by intros ->. Qed.

Lemma on_storage_done {A} (m : M Encoder A) a he es es' io :
  m es = Done a es' -> on_storage m (mkCtx he es io) = Done a (mkCtx he es' io).
Proof. unfold on_storage. simpl. by intros ->. Qed.

Lemma ctx_panics_some {A} msg (a : A) c : ctx_panics msg (Some a) c = Done a c.
Proof. done. Qed.

Context (Dbs : TrieDB -> Prop).
Abbreviation rep := (repr EncodeForTrie schema Dbs).

(** What [commit] does with a node that represents [t]. *)
Definition commits (t : tree) : Prop := forall d levels above pfx n he es io,
  rep pfx n t -> wf d t -> (length pfx + d = 65)%nat -> Forall nib pfx -> vals_ok schema t ->
  (pfx = [] -> get_hash n = None /\ disabled he = false) ->
  (disabled he = true -> hashed t = false \/ (get_hash n <> None /\ forall k v h, n <> NShort k v h)) ->
  he_room he (HR d) -> room es (SR d) ->
  exists n' he' es' ws,
    commit EncodeForTrie schema levels above pfx n (mkCtx he es io) =
      Done n' (mkCtx he' es' (mkIO (committed io) (writes io ++ ws))) /\
    (pfx <> [] -> he_grown he he' (ref t) /\ grown es es' (sref schema t)) /\
    (pfx = [] -> get_hash n' = Some (node_hash t)) /\
    Forall (good pfx t) ws /\ provides pfx n n' t ws /\ (forall cs, n' = NFull cs None -> hashed t = false).

Lemma io_nil io : io = mkIO (committed io) (writes io ++ []).
Proof. destruct io. simpl. by rewrite app_nil_r. Qed.

(** The value of a leaf. *)
Lemma commit_value_done pfx k val_n s h ho he es io :
  rep (pfx ++ k) (NValue val_n) (TVal s h) -> hexkey 65 (pfx ++ k) -> (val_n = None -> ho <> None /\ disabled he = true) ->
  he_room he (blen (enc_string h)) ->
  exists enc_s he' ws,
    commit_value EncodeForTrie pfx k val_n ho (mkCtx he es io) = Done enc_s (mkCtx he' es (mkIO (committed io) (writes io ++ ws))) /\
    he_grown he he' (enc_string h) /\ (val_n <> None -> enc_s = s) /\
    Forall (good pfx (TShort k (TVal s h))) ws /\ provides (pfx ++ k) (NValue val_n) (NValue val_n) (TVal s h) ws.
Proof.
  intros Hr Hkey Hnone Hroom. unfold commit_value.
  destruct (hexkey_65 _ Hkey) as (kb & Ekb & Hkb). pose proof (hex_to_keybytes_full kb Hkb) as Ek. rewrite <- Ekb in Ek.
  assert (forall F s', (forall db, db = F -> value_in db (pfx ++ k) s) -> in_db schema (fun db => db = F) (pfx ++ k) (TVal s s') ) as Hval.
  { intros F s' Hv db Hdb. split.
    - intros [|] s1 h1 Hl; [|done]. injection Hl as <- <-. rewrite app_nil_r. by apply Hv.
    - intros u [[E _]|[Hs _]]; [|by inversion Hs]. apply hexkey_length in Hkey. by rewrite E in Hkey. }
  destruct val_n as [v|].
  - destruct (he_append_done he h Hroom) as (he' & Eh & Gh).
    assert (encode_value EncodeForTrie v = (s, h)) as Ee by (inversion Hr; subst; simpl; [done|by destruct (EncodeForTrie _)]).
    rewrite Ee. destruct v as [s' h'|v]; cbn [encode_value] in Ee.
    + injection Ee as -> ->. exists s, he', []. rewrite bind_ret_l, (bind_done _ _ _ _ _ (on_hash_done _ _ _ _ _ _ Eh)), <- io_nil.
      split_and!; [done|done|done|constructor|]. intros F _ HF. split; [done|]. apply Hval. by inversion HF.
    + exists s, he', [PutValue kb s]. rewrite bind_assoc, Ek. rewrite (bind_done _ _ _ _ _ (ctx_panics_some _ kb _)).
      unfold put. rewrite (bind_done (modify_st _) _ _ _ _ eq_refl). cbn [enc_hash enc_storage db_tx].
      rewrite (bind_done _ _ _ _ _ (on_hash_done _ _ _ _ _ _ Eh)). split_and!; [done|done|done| |].
      * repeat constructor. exists k, h. split; [apply lookup_leaf_self|done].
      * intros F [HF _]%Forall_cons HrF. split; [done|]. apply Hval. intros db ->. by exists kb.
  - destruct (Hnone eq_refl) as [Hho Hd]. destruct ho as [h0|]; [|done]. exists [], he, []. unfold ret. rewrite <- io_nil.
    split_and!; [done|by left|done|constructor|]. intros F _ HF. split; [done|]. apply Hval. by inversion HF.
Qed.

(** A node with its hash. *)
Lemma commit_hash t pfx n h he es io (n' : node) d :
  cached schema Dbs pfx t h -> is_full t -> pfx <> [] -> wf d t -> he_room he (HR d) -> room es (SR d) ->
  (forall F, reprF F pfx n t -> cached schema (fun db => db = F) pfx t h /\ (n' = NHash h \/ n' = n)) -> (forall cs, n' <> NFull cs None) ->
  exists he' es',
    (_ ← on_hash (he_AppendString h); _ ← on_storage (AppendString h); ret n') (mkCtx he es io) = Done n' (mkCtx he' es' (mkIO (committed io) (writes io ++ []))) /\
    he_grown he he' (ref t) /\ grown es es' (sref schema t) /\ provides pfx n n' t [].
Proof.
  intros (-> & Hh & Hin) Hf Hp Hwf Hhr Hsr HF Hn'. destruct Hh as [Hh|]; [|done].
  assert (blen (enc_string (node_hash t)) = 33) as Hb by apply blen_enc_hash. apply wf_pos in Hwf as Hd.
  destruct (he_append_done he (node_hash t)) as (he' & E1 & G1); [eapply he_room_le; [done|rewrite Hb; unfold HR; lia]|].
  destruct (append_done es (node_hash t)) as (es' & E2 & G2); [eapply room_le; [done|rewrite Hb; unfold SR; lia]|].
  exists he', es'. rewrite (bind_done _ _ _ _ _ (on_hash_done _ _ _ _ _ _ E1)), (bind_done _ _ _ _ _ (on_storage_done _ _ _ _ _ _ E2)), <- io_nil.
  split; [done|]. split; [by rewrite ref_hashed, Hh|]. split; [destruct t; try done; unfold sref; by rewrite Hh|].
  intros F _ HrF. destruct (HF F HrF) as [Hc [->| ->]].
  - split; [|apply Hc]. constructor; [done|by destruct t|by right].
  - split; [done|apply Hc].
Qed.

Lemma is_root_true (pfx : list Z) : (length pfx =? 0)%nat = true <-> pfx = [].
Proof. rewrite Nat.eqb_eq. apply length_zero_iff_nil. Qed.

Lemma is_root_false (pfx : list Z) : (length pfx =? 0)%nat = false <-> pfx <> [].
Proof. rewrite <- is_root_true. by rewrite not_true_iff_false. Qed.

(** ** Short nodes *)
Section short.
Context (k : list Z) (t' : tree) (pfx : list Z) (d : nat).
Abbreviation t := (TShort k t').
Abbreviation is_root := (length pfx =? 0)%nat.
Context (Hwf : wf d t) (Hd : (length pfx + d = 65)%nat) (ho : option bytes).
Context (Hho : forall h, ho = Some h -> h = node_hash t /\ hashed t = true /\ pfx <> []).
Context (he : hash_encoder) (es : Encoder).
Context (Hdis : disabled he = true -> pfx <> [] /\ hashed t = false).
Context (Hhr : he_room he (HR d)) (Hsr : room es (SR d)).

(** A cached node appends its hash and disables the encoder. *)
Definition opened (heA : hash_encoder) : Prop :=
  match ho with
  | Some h => disabled heA = true /\ exists he1, he_Toggle heA = Done tt he1 /\ he_grown he he1 (enc_string h)
  | None => heA = he
  end.

Lemma short_open io : exists heA,
  (match ho with Some h => _ ← on_hash (he_AppendString h); on_hash he_Toggle | None => ret tt end) (mkCtx he es io) =
    Done tt (mkCtx heA es io) /\ opened heA /\ he_room heA (HR d).
Proof.
  unfold opened. destruct ho as [h|]; [|by exists he].
  destruct (Hho h eq_refl) as (-> & Hh & Hp). apply wf_pos in Hwf as Hpos.
  destruct (he_append_done he (node_hash t)) as (he1 & E1 & G1).
  { eapply he_room_le; [done|]. unfold node_hash. rewrite blen_enc_hash. unfold HR. lia. }
  rewrite (bind_done _ _ _ _ _ (on_hash_done _ _ _ _ _ _ E1)).
  assert (disabled he1 = false) as Ed1.
  { rewrite (he_grown_disabled _ _ _ G1). destruct (disabled he) eqn:E; [|done]. destruct (Hdis eq_refl). congruence. }
  exists (mkHashEncoder (encoder he1) true). unfold on_hash, he_Toggle, modify_st. cbn [enc_hash enc_storage db_tx disabled encoder].
  rewrite Ed1. split; [done|]. split; [|done]. split; [done|]. exists he1. split; [|done].
  by destruct he1; simpl in *; subst.
Qed.

(** The hash that the node has afterwards. *)
Definition hash_after : option bytes := if is_root || hashed t then Some (node_hash t) else None.

Lemma short_hash_out heA he3 p pos :
  opened heA -> he_room heA (HR d) -> he_grown (he_started heA) he3 p -> enc_list p = enc_c t ->
  (disabled heA = false -> pos = length (lheads (encoder heA))) -> blen p <= 2 ^ 31 + 200 ->
  exists out heB, (forall es io, on_hash (he_ListEnd pos is_root) (mkCtx he3 es io) = Done out (mkCtx heB es io)) /\
    out_hash ho out = hash_after /\
    exists he', (forall es io, (when (match ho with Some _ => true | None => false end) (on_hash he_Toggle)) (mkCtx heB es io) = Done tt (mkCtx he' es io)) /\
      (pfx <> [] -> he_grown he he' (ref t)).
Proof.
  intros Hop HrA G Ep Hpos Hsize. pose proof (blen_enc_list_bounds p) as Hb. apply wf_pos in Hwf as Hd1.
  destruct (he_ListEnd_done heA he3 p pos is_root G Hpos) as (heB & E & EdB & GB); [eapply he_room_le; [done|unfold HR; lia]|].
  eexists _, heB. split; [intros es0 io0; by apply on_hash_done|]. rewrite Ep in *. unfold opened in Hop.
  fold (hashed t). fold (node_hash t). destruct ho as [h|].
  - destruct (Hho h eq_refl) as (-> & Hh & Hp). destruct Hop as (Ed & he1 & Et & G1). rewrite Ed.
    unfold hash_after. rewrite Hh, orb_true_r. split; [done|].
    apply is_root_false in Hp as Hp'. assert (heB = heA) as ->.
    { rewrite Hp' in GB. destruct (GB eq_refl) as [[_ ?]|(? & _)]; congruence. }
    exists he1. split; [intros es1 io1; cbn [when]; by apply on_hash_done|]. intros _. by rewrite ref_hashed, Hh.
  - subst heA. split.
    + unfold hash_after, hashed. destruct (disabled he) eqn:Ed; [|by destruct (is_root || _)]. destruct (Hdis eq_refl) as [Hp Hh].
      apply is_root_false in Hp. rewrite Hp. unfold hashed in Hh. by rewrite Hh.
    + exists heB. split; [done|]. intros Hp%is_root_false. by apply GB.
Qed.

(** The end of the list in the storage, and the put of the root. *)
Lemma short_close es3 q heB n io :
  grown (started es) es3 q -> enc_list q = enc_s schema is_root t -> blen q <= 2100 -> get_hash n = hash_after ->
  exists es' ws, (pfx <> [] -> grown es es' (sref schema t)) /\
    ws = (if is_root then [PutNode (node_hash t) (body schema t)] else []) /\
    forall A (rest : M Ctx A),
    (_ ← on_storage (ListEnd (length (lheads es)));
     _ ← when is_root (h ← ctx_panics "invalid memory address or nil pointer dereference" (get_hash (V := V) n);
                       encoding ← storage_ToBytes (length (lheads es)); put (PutNode h encoding));
     rest) (mkCtx heB es3 io) = rest (mkCtx heB es' (mkIO (committed io) (writes io ++ ws))).
Proof.
  intros G Eq Hq Hn. pose proof (blen_enc_list_bounds q) as Hb. apply wf_pos in Hwf as Hd1.
  destruct (ListEnd_grown _ _ _ G) as (es' & E & G' & _ & Efl & _); [eapply room_le; [done|unfold SR; lia]|].
  exists es'. eexists. split; [intros Hp%is_root_false; rewrite Eq, Hp in G'; exact G'|]. split; [reflexivity|]. intros A rest.
  rewrite (bind_done _ _ _ _ _ (on_storage_done _ _ _ _ _ _ E)). rewrite Hn. unfold hash_after.
  destruct is_root eqn:Ep; cbn [when orb].
  - unfold bindM at 1. unfold storage_ToBytes. rewrite (bind_done _ _ _ _ _ (ctx_panics_some _ _ _)), bind_assoc.
    rewrite (bind_done get_st _ _ _ _ eq_refl). cbn [enc_storage]. rewrite Efl, Eq.
    by rewrite (bind_done _ _ _ _ _ (ctx_panics_some _ _ _)).
  - rewrite bind_ret_l. by rewrite <- io_nil.
Qed.
End short.

(** Lists start and the path is appended. *)
Lemma short_path d k t' (pfx : list Z) heA es io : wf d (TShort k t') -> (length pfx + d = 65)%nat -> he_room heA (HR d) -> room es (SR d) ->
  exists pos he2 es2,
    he_ListStart heA = Done pos (he_started heA) /\ (disabled heA = false -> pos = length (lheads (encoder heA))) /\
    he_grown (he_started heA) he2 (enc_string (compact k)) /\ grown (started es) es2 (enc_string (compact k)) /\
    forall A (f : nat -> nat -> M Ctx A),
      (storage_list_start ← on_storage ListStart; hash_list_start ← on_hash he_ListStart;
       hashed_key_ext ← ctx_panics "slice bounds out of range" (hex_to_compact k);
       _ ← on_storage (AppendString hashed_key_ext); _ ← on_hash (he_AppendString hashed_key_ext);
       f storage_list_start hash_list_start) (mkCtx heA es io) = f (length (lheads es)) pos (mkCtx he2 es2 io).
Proof.
  intros Hwf Hd HrA Hsr. apply wf_pos in Hwf as Hpos. destruct (wf_path _ _ _ Hwf) as [Hp Hl].
  destruct (compact_spec k Hp ltac:(lia)) as (Ec & _ & _). pose proof (blen_compact d k _ ltac:(lia) Hwf) as Hb.
  destruct (he_ListStart_done heA) as (pos & E1 & Hpos1).
  destruct (append_done (started es) (compact k)) as (es2 & E2 & G2); [eapply started_room, room_le; [done|unfold SR; lia]|].
  destruct (he_append_done (he_started heA) (compact k)) as (he2 & E3 & G3); [eapply he_started_room, he_room_le; [done|unfold HR; lia]|].
  exists pos, he2, es2. split_and!; [done..|]. intros A f.
  rewrite (bind_done _ _ _ _ _ (on_storage_done _ _ _ _ _ _ (ListStart_started es))), (bind_done _ _ _ _ _ (on_hash_done _ _ _ _ _ _ E1)).
  rewrite Ec, (bind_done _ _ _ _ _ (ctx_panics_some _ _ _)).
  by rewrite (bind_done _ _ _ _ _ (on_storage_done _ _ _ _ _ _ E2)), (bind_done _ _ _ _ _ (on_hash_done _ _ _ _ _ _ E3)).
Qed.

(** The inversion with the conditions on the cached hash. *)
Lemma repr_short_full D pfx n k t : repr EncodeForTrie schema D pfx n (TShort k t) ->
  (exists h, n = NHash h /\ pfx = []) \/
  (exists val ho, n = NShort k val ho /\ repr EncodeForTrie schema D (pfx ++ k) val t /\
     (forall h, ho = Some h -> cached schema D pfx (TShort k t) h) /\
     (forall h cs, ho = Some h -> val = NFull cs None -> hashed t = false) /\ (val = NValue None -> ho <> None)).
Proof. inversion 1 as [|? ? ? ? ? [?|?]| | | | |]; subst; [left; eauto|done|right; eauto 10]. Qed.

Lemma cached_cond pfx k t' (ho : option bytes) (he : hash_encoder) val :
  (pfx = [] -> get_hash (NShort k val ho : node) = None /\ disabled he = false) ->
  (forall h, ho = Some h -> cached schema Dbs pfx (TShort k t') h) ->
  (disabled he = true -> hashed (TShort k t') = false \/ (get_hash (NShort k val ho : node) <> None /\ forall k0 v0 h0, (NShort k val ho : node) <> NShort k0 v0 h0)) ->
  (forall h, ho = Some h -> h = node_hash (TShort k t') /\ hashed (TShort k t') = true /\ pfx <> []) /\
  (disabled he = true -> pfx <> [] /\ hashed (TShort k t') = false).
Proof.
  intros Hroot Hc Hdis. split.
  - intros h Eh. destruct (Hc h Eh) as (-> & Hh & _). assert (pfx <> []) as Hp by (intros E; destruct (Hroot E) as [E0 _]; simpl in E0; congruence).
    split_and!; [done| |done]. by destruct Hh.
  - intros Hd. split; [intros E; destruct (Hroot E); congruence|]. destruct (Hdis Hd) as [?|[_ Hn]]; [done|]. by destruct (Hn k val ho).
Qed.

Lemma get_hash_after pfx k t' : pfx = [] -> hash_after k t' pfx = Some (node_hash (TShort k t')).
Proof. intros ->. done. Qed.

Lemma hash_after_cached F k t' pfx h :
  inF F pfx (TShort k t') -> hash_after k t' pfx = Some h -> cached schema (fun db => db = F) pfx (TShort k t') h.
Proof.
  intros Hin. unfold hash_after. destruct ((length pfx =? 0)%nat || hashed (TShort k t')) eqn:E; [|done]. intros [= <-].
  split; [done|]. split; [|done]. apply orb_true_iff in E as [E|E]; [right; by apply is_root_true|by left].
Qed.

Lemma commit_leaf k s h : commits (TShort k (TVal s h)).
Proof.
  intros d levels above pfx n he es io Hr Hwf Hd Hpn Hok Hroot Hdis Hhr Hsr.
  apply repr_short_full in Hr as [(? & -> & E)|(val & ho & -> & Hval & Hho & _ & Hnone)]; [by destruct (Hroot E)|].
  destruct (cached_cond _ _ _ _ _ _ Hroot Hho Hdis) as [Hho' Hdis'].
  destruct (wf_not_full_val _ _ _ Hwf) as [(? & ? & [= <- <-] & Hk)|(? & ? & [=] & _)]. apply wf_pos in Hwf as Hd1.
  assert (hexkey 65 (pfx ++ k)) as Hkey by (rewrite <- Hd; by apply hexkey_app).
  destruct (repr_val_inv _ _ _ _ _ _ _ Hval) as [val_n ->]; [intros E; apply hexkey_length in Hkey; by rewrite E in Hkey|].
  destruct (Hok k s h (lookup_leaf_self _ _ _)) as (Hs & _ & Hbh).
  destruct (short_open k (TVal s h) pfx d Hwf Hd ho Hho' he es Hdis' Hhr io) as (heA & EA & Hop & HrA).
  destruct (short_path d k (TVal s h) pfx heA es io Hwf Hd HrA Hsr) as (pos & he2 & es2 & EL & Hpos & G2 & Ges2 & Epath).
  pose proof (blen_compact d k _ ltac:(lia) Hwf) as Hbk. pose proof (blen_enc_string_le h) as Hbh'.
  destruct (commit_value_done pfx k val_n s h ho he2 es2 io Hval Hkey) as (encs & he3 & ws & Ev & G3 & Hs3 & Hgood & Hprov).
  { intros ->. destruct ho as [h0|]; [|by destruct Hnone]. split; [done|]. destruct Hop as [Ed _].
    by rewrite (he_grown_disabled _ _ _ G2), he_started_disabled. }
  { eapply he_grown_room; [exact G2|]. apply he_started_room. eapply he_room_le; [done|]. unfold HR. lia. }
  destruct (short_hash_out k (TVal s h) pfx d Hwf Hd ho Hho' he Hdis' heA he3 (enc_string (compact k) ++ enc_string h) pos)
    as (out & heB & Eout & Ehash & he' & Etog & G'); [done|done|by eapply he_grown_trans|done|done|rewrite blen_app; lia|].
  set (q2 := match hash_after k (TVal s h) pfx with Some hh => enc_string hh
    | None => if blen s <=? MaxValueSizeToStoreInTrie schema then enc_string s else [] end).
  assert (blen q2 <= 33) as Hq2.
  { unfold q2, hash_after. destruct (_ || _); [unfold node_hash; by rewrite blen_enc_hash|].
    destruct (Z.leb_spec (blen s) (MaxValueSizeToStoreInTrie schema)); [|by rewrite blen_nil].
    pose proof (blen_enc_string_short s). lia. }
  assert (exists es3, grown es2 es3 q2 /\
    forall he io, (match out_hash ho out with
     | Some h => on_storage (AppendString h)
     | None => if Z.of_nat (length encs) <=? MaxValueSizeToStoreInTrie schema then on_storage (AppendString encs) else ret tt
     end) (mkCtx he es2 io) = Done tt (mkCtx he es3 io)) as (es3 & Ges3 & Est).
  { assert (room es2 33) as Hr2 by (eapply grown_room; [exact Ges2|]; eapply started_room, room_le; [done|unfold SR; lia]).
    rewrite Ehash. unfold q2, hash_after in *. destruct (_ || _) eqn:Eh.
    - destruct (append_done es2 (node_hash (TShort k (TVal s h)))) as (es3 & E3 & Ges3); [by eapply room_le|].
      exists es3. split; [done|]. intros. by apply on_storage_done.
    - assert (encs = s) as ->.
      { apply Hs3. intros ->. destruct ho as [h0|]; [|by destruct Hnone]. destruct (Hho' h0 eq_refl) as (_ & Hh & _).
        by rewrite Hh, orb_true_r in Eh. }
      change (Z.of_nat (length s)) with (blen s). destruct (blen s <=? _).
      + destruct (append_done es2 s) as (es3 & E3 & Ges3); [by eapply room_le|].
        exists es3. split; [done|]. intros. by apply on_storage_done.
      + exists es2. split; [apply grown_refl|]. done. }
  destruct (short_close k (TVal s h) pfx d Hwf Hd es Hsr es3 (enc_string (compact k) ++ q2) heB
    (NShort k (NValue val_n) (hash_after k (TVal s h) pfx)) (mkIO (committed io) (writes io ++ ws)))
    as (es' & ws' & Ges' & Ews' & Erest); [by eapply grown_trans| |rewrite blen_app; lia|done|].
  { unfold q2, hash_after. cbn [enc_s]. by destruct (_ || _). }
  exists (NShort k (NValue val_n) (hash_after k (TVal s h) pfx)), he', es', (ws ++ ws').
  split; [|split; [auto|split; [by intros; apply get_hash_after|split_and!]]].
  - cbn [commit]. rewrite (bind_done _ _ _ _ _ EA). rewrite Epath.
    rewrite (bind_done _ _ _ (NShort k (NValue val_n) (hash_after k (TVal s h) pfx)) (mkCtx heB es3 (mkIO (committed io) (writes io ++ ws)))).
    2: { rewrite (bind_done _ _ _ _ _ Ev), (bind_done _ _ _ _ _ (Eout es2 _)), (bind_done _ _ _ _ _ (Est heB _)). by rewrite Ehash. }
    rewrite Erest. rewrite (bind_done _ _ _ _ _ (Etog _ _)). by rewrite app_assoc.
  - apply Forall_app. split; [done|]. rewrite Ews'. destruct (length pfx =? 0)%nat eqn:Ep; [|constructor].
    repeat constructor. exists (TShort k (TVal s h)). split; [left; by split; [apply is_root_true|]|done].
  - intros F [HF1 HF2]%Forall_app HrF. apply repr_short_full in HrF as [(? & ? & _)|(? & ? & [= <- <-] & HvF & HhoF & _ & HnF)]; [done|].
    destruct (Hprov F HF1 HvF) as [_ HinF].
    assert (inF F pfx (TShort k (TVal s h))) as Hin.
    { apply inF_short_intro; [done|]. intros ->. rewrite Ews' in HF2. by apply Forall_cons in HF2 as [? _]. }
    split; [|done]. constructor; [done| |done|].
    + intros h0 Eh. by apply hash_after_cached.
    + intros [= ->]. destruct ho as [h0|]; [|by destruct HnF]. destruct (Hho' h0 eq_refl) as (_ & Hh & _).
      unfold hash_after. by rewrite Hh, orb_true_r.
  - done.
Qed.

Lemma commit_ext k ts : commits (TFull ts) -> commits (TShort k (TFull ts)).
Proof.
  intros IH d levels above pfx n he es io Hr Hwf Hd Hpn Hok Hroot Hdis Hhr Hsr.
  apply repr_short_full in Hr as [(? & -> & E)|(val & ho & -> & Hval & Hho & Hfull & Hnone)]; [by destruct (Hroot E)|].
  destruct (cached_cond _ _ _ _ _ _ Hroot Hho Hdis) as [Hho' Hdis'].
  destruct (wf_not_full_val _ _ _ Hwf) as [(? & ? & [=] & _)|(? & d' & [= <-] & Hk & Hne & Ed & Ht)]. apply wf_pos in Hwf as Hd1.
  destruct (short_open k (TFull ts) pfx d Hwf Hd ho Hho' he es Hdis' Hhr io) as (heA & EA & Hop & HrA).
  destruct (short_path d k (TFull ts) pfx heA es io Hwf Hd HrA Hsr) as (pos & he2 & es2 & EL & Hpos & G2 & Ges2 & Epath).
  pose proof (blen_compact d k _ ltac:(lia) Hwf) as Hbk. apply wf_pos in Ht as Hd1'.
  assert (1 <= length k)%nat as Hlk by (destruct k; [done|simpl; lia]).
  destruct (IH d' levels above (pfx ++ k) val he2 es2 io Hval Ht) as (val' & he3 & es3 & ws & Ec & HG & _ & Hgood & Hprov & Hnf).
  { rewrite length_app. lia. }
  { by apply Forall_app. }
  { by eapply vals_ok_short. }
  { intros E. by destruct pfx, k. }
  { intros Ed2. rewrite (he_grown_disabled _ _ _ G2), he_started_disabled in Ed2. unfold opened in Hop. destruct ho as [h0|].
    - destruct (repr_full_inv _ _ _ _ _ _ Hval) as [(h1 & -> & _)|(cs & [h1|] & -> & _)]; [right; by split..|].
      left. by eapply Hfull.
    - subst heA. destruct (Hdis' Ed2) as [_ Hh]. left. destruct (hashed (TFull ts)) eqn:Eh; [|done].
      apply hashed_false in Hh. rewrite enc_c_ext, ref_hashed, Eh in Hh.
      pose proof (blen_enc_list_bounds (enc_string (compact k) ++ enc_string (node_hash (TFull ts)))) as Hb.
      rewrite blen_app in Hb. unfold node_hash in *. rewrite blen_enc_hash in Hb. lia. }
  { eapply he_grown_room; [exact G2|]. apply he_started_room. eapply he_room_le; [done|]. unfold HR. lia. }
  { eapply grown_room; [exact Ges2|]. apply started_room. eapply room_le; [done|]. unfold SR. lia. }
  destruct (HG ltac:(by destruct pfx, k)) as [G3 Ges3]. clear HG.
  pose proof (blen_ref (TFull ts)) as Hbr. pose proof (blen_sref schema Hmax d' (TFull ts) ltac:(lia) (or_intror Ht)) as Hbs.
  destruct (short_hash_out k (TFull ts) pfx d Hwf Hd ho Hho' he Hdis' heA he3 (enc_string (compact k) ++ ref (TFull ts)) pos)
    as (out & heB & Eout & Ehash & he' & Etog & G'); [done|done|by eapply he_grown_trans|done|done|rewrite blen_app; lia|].
  destruct (short_close k (TFull ts) pfx d Hwf Hd es Hsr es3 (enc_string (compact k) ++ sref schema (TFull ts)) heB
    (NShort k val' (hash_after k (TFull ts) pfx)) (mkIO (committed io) (writes io ++ ws)))
    as (es' & ws' & Ges' & Ews' & Erest); [by eapply grown_trans|done|rewrite blen_app; lia|done|].
  exists (NShort k val' (hash_after k (TFull ts) pfx)), he', es', (ws ++ ws').
  split; [|split; [auto|split; [by intros; apply get_hash_after|split_and!]]].
  - cbn [commit]. rewrite (bind_done _ _ _ _ _ EA). rewrite Epath.
    rewrite (bind_done _ _ _ (NShort k val' (hash_after k (TFull ts) pfx)) (mkCtx heB es3 (mkIO (committed io) (writes io ++ ws)))).
    2: { destruct val; try (by inversion Hval); rewrite (bind_done _ _ _ _ _ Ec), (bind_done _ _ _ _ _ (Eout es3 _)); by rewrite Ehash. }
    rewrite Erest. rewrite (bind_done _ _ _ _ _ (Etog _ _)). by rewrite app_assoc.
  - apply Forall_app. split; [eapply Forall_impl; [exact Hgood|]; intros w; by apply good_short|].
    rewrite Ews'. destruct (length pfx =? 0)%nat eqn:Ep; [|constructor].
    repeat constructor. exists (TShort k (TFull ts)). split; [left; by split; [apply is_root_true|]|done].
  - intros F [HF1 HF2]%Forall_app HrF. apply repr_short_full in HrF as [(? & ? & _)|(? & ? & [= <- <-] & HvF & _)]; [done|].
    destruct (Hprov F HF1 HvF) as [HvF' HinF].
    assert (inF F pfx (TShort k (TFull ts))) as Hin.
    { apply inF_short_intro; [done|]. intros ->. rewrite Ews' in HF2. by apply Forall_cons in HF2 as [? _]. }
    split; [|done]. constructor; [done| | |].
    + intros h0 Eh. by apply hash_after_cached.
    + intros h0 cs _ ->. by eapply Hnf.
    + intros ->. inversion HvF'.
  - done.
Qed.

(** ** Full nodes *)

(** The loop over the children. *)
Definition commit_children (levels above : Z) (pfx : list Z) := fix go (i : Z) (cs : list node) : M Ctx (list node) :=
  match cs with
  | [] => ret []
  | c :: cs =>
      c ← (match c with
           | NNil => _ ← on_hash (he_AppendString []); _ ← on_storage (AppendString []); ret NNil
           | _ => commit EncodeForTrie schema levels above (pfx ++ [i]) c
           end);
      cs ← go (i + 1) cs; ret (c :: cs)
  end.

Lemma commit_full_eq levels above pfx cs :
  commit EncodeForTrie schema levels above pfx (NFull cs None) =
    (hash_list_start ← on_hash he_ListStart;
     storage_list_start ← on_storage ListStart;
     children ← commit_children levels (above + 1) pfx 0 cs;
     _ ← on_storage (ListEnd storage_list_start);
     _ ← on_hash (he_AppendString []);
     out ← on_hash (he_ListEnd hash_list_start (length pfx =? 0)%nat);
     match out with
     | None => ret (NFull children None)
     | Some h =>
         encoding ← storage_ToBytes storage_list_start;
         _ ← put (PutNode h encoding);
         _ ← when (negb (length pfx =? 0)%nat) (_ ← on_storage (RevertToListStart storage_list_start); on_storage (AppendString h));
         ret (if levels <=? above then NHash h else NFull children (Some h))
     end).
Proof.
  reflexivity.
Qed.

Lemma inF_nil F pfx : pfx <> [] -> inF F pfx TNil.
Proof. intros Hp db _. split; [done|]. intros u [[E _]|[Hs _]]; [done|inversion Hs]. Qed.

Lemma app_one_not_nil (pfx : list Z) i : pfx ++ [i] <> [].
Proof. by destruct pfx. Qed.

(** One child. *)
Lemma commit_child d levels above pfx i c t he es io :
  (t <> TNil -> commits t) -> rep (pfx ++ [i]) c t -> wf0 d t -> (1 <= d)%nat -> (S (length pfx) + d = 65)%nat -> Forall nib pfx -> nib i ->
  vals_ok schema t -> (disabled he = true -> hashed t = false) -> he_room he (HR d) -> room es (SR d) ->
  exists c' he' es' ws,
    (match c with
     | NNil => _ ← on_hash (he_AppendString []); _ ← on_storage (AppendString []); ret NNil
     | _ => commit EncodeForTrie schema levels above (pfx ++ [i]) c
     end) (mkCtx he es io) = Done c' (mkCtx he' es' (mkIO (committed io) (writes io ++ ws))) /\
    he_grown he he' (ref t) /\ grown es es' (sref schema t) /\ Forall (good (pfx ++ [i]) t) ws /\ provides (pfx ++ [i]) c c' t ws.
Proof.
  intros IH Hr Hwf Hd1 Hd Hpn Hi Hok Hdis Hhr Hsr. destruct Hwf as [->|Hwf].
  - rewrite (proj2 (repr_nil_iff _ _ _ _ _ _ Hr)) by done.
    destruct (he_append_done he []) as (he' & E1 & G1); [eapply he_room_le; [done|change (blen (enc_string [])) with 1; unfold HR; lia]|].
    destruct (append_done es []) as (es' & E2 & G2); [eapply room_le; [done|change (blen (enc_string [])) with 1; unfold SR; lia]|].
    exists NNil, he', es', []. rewrite (bind_done _ _ _ _ _ (on_hash_done _ _ _ _ _ _ E1)), (bind_done _ _ _ _ _ (on_storage_done _ _ _ _ _ _ E2)), <- io_nil.
    split_and!; [done|exact G1|exact G2|constructor|]. intros F _ HF. split; [constructor|apply inF_nil, app_one_not_nil].
  - assert (t <> TNil) as Hne by (intros ->; by apply wf_not_nil in Hwf).
    destruct (IH Hne d levels above (pfx ++ [i]) c he es io Hr Hwf) as (c' & he' & es' & ws & E & HG & _ & Hgood & Hprov & _).
    { rewrite length_app. simpl. lia. }
    { apply Forall_app. split; [done|]. apply List.Forall_cons; [done|apply List.Forall_nil]. }
    { done. }
    { intros E. by apply app_one_not_nil in E. }
    { intros Ed. left. auto. }
    { done. }
    { done. }
    destruct (HG (app_one_not_nil _ _)) as [G1 G2]. exists c', he', es', ws. split_and!; [|done..].
    destruct c; [by destruct Hne; apply (repr_nil_iff _ _ _ _ _ _ Hr)|done..].
Qed.

Lemma commit_children_done d levels above pfx ts : Forall (fun t => t <> TNil -> commits t) ts -> forall i cs he es io,
  (1 <= d)%nat -> (S (length pfx) + d = 65)%nat -> Forall nib pfx -> 0 <= i -> i + Z.of_nat (length ts) <= 16 ->
  length cs = length ts ->
  (forall j c t, cs !! j = Some c -> ts !! j = Some t -> rep (pfx ++ [i + Z.of_nat j]) c t) ->
  (forall j t, ts !! j = Some t -> wf0 d t /\ vals_ok schema t /\ (disabled he = true -> hashed t = false)) ->
  he_room he (33 * Z.of_nat (length ts) + HR d) -> room es (2000 * Z.of_nat (length ts) + SR d) ->
  exists cs' he' es' ws,
    commit_children levels above pfx i cs (mkCtx he es io) = Done cs' (mkCtx he' es' (mkIO (committed io) (writes io ++ ws))) /\
    he_grown he he' (concat (map ref ts)) /\ grown es es' (concat (map (sref schema) ts)) /\ length cs' = length ts /\
    Forall (fun w => exists j t, ts !! j = Some t /\ good (pfx ++ [i + Z.of_nat j]) t w) ws /\
    forall F, Forall (holds F) ws ->
      (forall j c t, cs !! j = Some c -> ts !! j = Some t -> reprF F (pfx ++ [i + Z.of_nat j]) c t) ->
      forall j t, ts !! j = Some t -> inF F (pfx ++ [i + Z.of_nat j]) t /\
        forall c', cs' !! j = Some c' -> reprF F (pfx ++ [i + Z.of_nat j]) c' t.
Proof.
  induction 1 as [|t ts Ht Hts IH]; intros i cs he es io Hd1 Hd Hpn Hi Hi16 Hl Hall Hwf Hhr Hsr.
  - destruct cs; [|done]. exists [], he, es, []. rewrite <- io_nil.
    split_and!; [done| |apply grown_refl|done|constructor|done].
    destruct (disabled he) eqn:E; [by left|right; split_and!; [done..|apply grown_refl]].
  - destruct cs as [|c cs]; [done|]. injection Hl as Hl. cbn [length] in *.
    destruct (Hwf 0%nat t eq_refl) as (Hwt & Hokt & Hdt). pose proof (Hall 0%nat c t eq_refl eq_refl) as Hrt. rewrite Z.add_0_r in Hrt.
    destruct (commit_child d levels above pfx i c t he es io Ht Hrt Hwt Hd1 Hd Hpn) as (c' & he1 & es1 & ws1 & E1 & G1 & G1' & Hg1 & Hp1);
      [unfold nib; lia|done|done|eapply he_room_le; [done|lia]|eapply room_le; [done|lia]|].
    pose proof (blen_ref t) as Hbr. pose proof (blen_sref schema Hmax d t ltac:(lia) Hwt) as Hbs.
    destruct (IH (i + 1) cs he1 es1 (mkIO (committed io) (writes io ++ ws1))) as (cs' & he' & es' & ws2 & E2 & G2 & G2' & Hl2 & Hg2 & Hp2);
      [done..|lia|lia|done| | | | |].
    { intros j c0 t0 Hc Ht0. rewrite <- Z.add_assoc, (Z.add_comm 1). replace (Z.of_nat j + 1) with (Z.of_nat (S j)) by lia. by apply Hall. }
    { intros j t0 Ht0. rewrite (he_grown_disabled _ _ _ G1). apply (Hwf (S j) t0 Ht0). }
    { eapply he_grown_room; [exact G1|]. eapply he_room_le; [done|lia]. }
    { eapply grown_room; [exact G1'|]. eapply room_le; [done|lia]. }
    exists (c' :: cs'), he', es', (ws1 ++ ws2).
    assert (forall j, i + 1 + Z.of_nat j = i + Z.of_nat (S j)) as Ej by lia.
    split_and!.
    + cbn [commit_children]. fold (commit_children levels above pfx). rewrite (bind_done _ _ _ _ _ E1), (bind_done _ _ _ _ _ E2).
      unfold ret. cbn [committed writes]. by rewrite app_assoc.
    + by eapply he_grown_trans.
    + by eapply grown_trans.
    + cbn [length]. lia.
    + apply Forall_app. split.
      * eapply Forall_impl; [exact Hg1|]. intros w Hw. exists 0%nat, t. by rewrite Z.add_0_r.
      * eapply Forall_impl; [exact Hg2|]. intros w (j & t0 & Hj & Hw). exists (S j), t0. by rewrite <- Ej.
    + intros F [HF1 HF2]%Forall_app HrF [|j] t0 Ht0.
      * injection Ht0 as <-. rewrite Z.add_0_r. pose proof (HrF 0%nat c t eq_refl eq_refl) as HrF0. rewrite Z.add_0_r in HrF0.
        destruct (Hp1 F HF1 HrF0) as [Hc' Hin]. split; [done|]. by intros ? [= <-].
      * rewrite <- Ej. apply (Hp2 F HF2); [|done]. intros j0 c0 t1 Hc0 Ht1. rewrite Ej. by apply HrF.
Qed.

Lemma commit_full ts : Forall (fun t => t <> TNil -> commits t) ts -> commits (TFull ts).
Proof.
  intros IH d levels above pfx n he es io Hr Hwf Hd Hpn Hok Hroot Hdis Hhr Hsr.
  destruct (repr_full_inv _ _ _ _ _ _ Hr) as [(h & -> & Hc)|(cs & ho & -> & Hl & Hall & Hho)].
  { assert (pfx <> []) as Hp by (intros E; by destruct (Hroot E)).
    destruct (commit_hash (TFull ts) pfx (NHash h) h he es io (NHash h) d Hc I Hp Hwf Hhr Hsr) as (he' & es' & E & G1 & G2 & Hprov); [|done|].
    { intros F HF. split; [|by left]. by inversion HF. }
    exists (NHash h), he', es', []. split_and!; [exact E|done|done|constructor|done|done]. }
  destruct ho as [h|].
  { assert (pfx <> []) as Hp by (intros E; by destruct (Hroot E)).
    destruct (commit_hash (TFull ts) pfx (NFull cs (Some h)) h he es io (if levels <=? above then NHash h else NFull cs (Some h)) d (Hho h eq_refl) I Hp Hwf Hhr Hsr)
      as (he' & es' & E & G1 & G2 & Hprov).
    { intros F HF. split; [|destruct (_ <=? _); auto]. inversion HF; subst; auto. }
    { intros ?. by destruct (_ <=? _). }
    eexists _, he', es', []. split_and!; [exact E|done|done|constructor|done|intros ?; by destruct (_ <=? _)]. }
  pose proof (wf_full_inv _ _ Hwf) as (d' & i0 & j0 & ti & tj & -> & Hlen & Hij & Hi & Hj & Hti & Htj & Hwfs). apply wf_pos in Hti as Hd1.
  assert (Z.of_nat (length ts) = 16) as Hlen' by (by rewrite Hlen).
  assert (disabled he = true -> hashed (TFull ts) = false) as Hdis' by (intros E; by destruct (Hdis E) as [|[? _]]).
  destruct (he_ListStart_done he) as (pos & EL & Hpos).
  destruct (commit_children_done d' levels (above + 1) pfx ts IH 0 cs (he_started he) (started es) io) as (cs' & he1 & es1 & ws & Ec & G1 & G1' & Hl' & Hgood & Hprov); [done|lia|done|lia|lia|done|..].
  { intros j c t Hc Ht. by apply Hall. }
  { intros j t Ht. rewrite he_started_disabled. split_and!; [by eapply Hwfs|by eapply vals_ok_full|].
    intros Ed. destruct (Hwfs j t Ht) as [->|Hwt]; [done|].
    destruct (unhashed_child (S d') ts t Hwf (Hdis' Ed)) as [Hh _]; [by eapply list_elem_of_lookup_2| |done]. intros ->. by apply wf_not_nil in Hwt. }
  { apply he_started_room. eapply he_room_le; [done|]. rewrite Hlen'. unfold HR. lia. }
  { apply started_room. eapply room_le; [done|]. rewrite Hlen'. unfold SR. lia. }
  set (p := concat (map ref ts)) in *. set (q := concat (map (sref schema) ts)) in *.
  assert (blen p <= 528) as Hbp.
  { pose proof (blen_concat_bounds ref ts 1 33 (fun x _ => blen_ref x)) as Hb. fold p in Hb. lia. }
  assert (blen q <= 32000) as Hbq.
  { pose proof (blen_concat_bounds (sref schema) ts 1 2000) as Hb. fold q in Hb. assert (blen q <= 2000 * Z.of_nat (length ts)); [|lia]. apply Hb.
    intros t [j Ht]%list_elem_of_lookup. eapply (blen_sref schema Hmax d'); [lia|by eapply Hwfs]. }
  pose proof (blen_enc_list_bounds q) as Hbq'. pose proof (blen_enc_list_bounds (p ++ enc_string [])) as Hbp'.
  rewrite blen_app in Hbp'. change (blen (enc_string [])) with 1 in Hbp'.
  destruct (ListEnd_grown es es1 q G1') as (es2 & E2 & G2' & _ & Efl & Erev); [eapply room_le; [done|unfold SR; lia]|].
  destruct (he_append_done he1 []) as (he2 & E3 & G3).
  { eapply he_grown_room; [exact G1|]. apply he_started_room. eapply he_room_le; [done|]. change (blen (enc_string [])) with 1. unfold HR. lia. }
  destruct (he_ListEnd_done he he2 (p ++ enc_string []) pos (length pfx =? 0)%nat) as (he3 & E4 & _ & G4); [by eapply he_grown_trans|done|eapply he_room_le; [done|unfold HR; lia]|].
  fold (enc_c (TFull ts)) in *. change (enc_list (p ++ enc_string [])) with (enc_c (TFull ts)) in *. fold (hashed (TFull ts)) (node_hash (TFull ts)) in *.
  change (enc_list q) with (body schema (TFull ts)) in *.
  assert ((if disabled he then None else if (length pfx =? 0)%nat || hashed (TFull ts) then Some (node_hash (TFull ts)) else None) =
    (if (length pfx =? 0)%nat || hashed (TFull ts) then Some (node_hash (TFull ts)) else None)) as Eout.
  { destruct (disabled he) eqn:Ed; [|done]. rewrite (Hdis' eq_refl), orb_false_r. destruct (length pfx =? 0)%nat eqn:Ep; [|done].
    apply is_root_true in Ep. by destruct (Hroot Ep). }
  rewrite Eout in E4. clear Eout.
  assert (forall A (f : list node -> nat -> nat -> option bytes -> M Ctx A),
    (hash_list_start ← on_hash he_ListStart; storage_list_start ← on_storage ListStart;
     children ← commit_children levels (above + 1) pfx 0 cs; _ ← on_storage (ListEnd storage_list_start);
     _ ← on_hash (he_AppendString []); out ← on_hash (he_ListEnd hash_list_start (length pfx =? 0)%nat);
     f children hash_list_start storage_list_start out) (mkCtx he es io) =
    f cs' pos (length (lheads es)) (if (length pfx =? 0)%nat || hashed (TFull ts) then Some (node_hash (TFull ts)) else None)
      (mkCtx he3 es2 (mkIO (committed io) (writes io ++ ws)))) as Erun.
  { intros A f. rewrite (bind_done _ _ _ _ _ (on_hash_done _ _ _ _ _ _ EL)), (bind_done _ _ _ _ _ (on_storage_done _ _ _ _ _ _ (ListStart_started es))), (bind_done _ _ _ _ _ Ec).
    rewrite (bind_done _ _ _ _ _ (on_storage_done _ _ _ _ _ _ E2)), (bind_done _ _ _ _ _ (on_hash_done _ _ _ _ _ _ E3)). by rewrite (bind_done _ _ _ _ _ (on_hash_done _ _ _ _ _ _ E4)). }
  assert (Forall (good pfx (TFull ts)) ws) as Hg.
  { eapply Forall_impl; [exact Hgood|]. intros w (j & t & Hj' & Hw). by eapply good_full. }
  assert (forall F, Forall (holds F) ws -> reprF F pfx (NFull cs None) (TFull ts) ->
    (forall i t, ts !! i = Some t -> inF F (pfx ++ [Z.of_nat i]) t) /\
    (forall i c t, cs' !! i = Some c -> ts !! i = Some t -> reprF F (pfx ++ [Z.of_nat i]) c t)) as Hkids.
  { intros F HF HrF. destruct (repr_full_inv _ _ _ _ _ _ HrF) as [(? & ? & _)|(? & ? & [= <- <-] & _ & HallF & _)]; [done|].
    split; intros; eapply (Hprov F HF); eauto. }
  rewrite commit_full_eq. rewrite (Erun _ (fun children _ storage_list_start out => match out with
     | None => ret (NFull children None)
     | Some h =>
         encoding ← storage_ToBytes storage_list_start; _ ← put (PutNode h encoding);
         _ ← when (negb (length pfx =? 0)%nat) (_ ← on_storage (RevertToListStart storage_list_start); on_storage (AppendString h));
         ret (if levels <=? above then NHash h else NFull children (Some h))
     end)). clear Erun.
  destruct ((length pfx =? 0)%nat || hashed (TFull ts)) eqn:Eh.
  - set (h := node_hash (TFull ts)).
    assert (exists es', (pfx <> [] -> grown es es' (sref schema (TFull ts))) /\
      (when (negb (length pfx =? 0)%nat) (_ ← on_storage (RevertToListStart (length (lheads es))); on_storage (AppendString h)))
        (mkCtx he3 es2 (mkIO (committed io) ((writes io ++ ws) ++ [PutNode h (body schema (TFull ts))]))) =
        Done tt (mkCtx he3 es' (mkIO (committed io) ((writes io ++ ws) ++ [PutNode h (body schema (TFull ts))])))) as (es' & Ges' & Ees').
    { destruct (length pfx =? 0)%nat eqn:Ep; cbn [negb when].
      - exists es2. split; [|done]. intros Hp. by apply is_root_true in Ep.
      - destruct (append_done es h) as (es' & E5 & G5); [eapply room_le; [done|unfold h, node_hash; rewrite blen_enc_hash; unfold SR; lia]|].
        exists es'. cbn [orb] in Eh. split; [intros _; unfold sref; by rewrite Eh|].
        by rewrite (bind_done _ _ _ _ _ (on_storage_done _ _ _ _ _ _ Erev)), (on_storage_done _ _ _ _ _ _ E5). }
    exists (if levels <=? above then NHash h else NFull cs' (Some h)), he3, es', (ws ++ [PutNode h (body schema (TFull ts))]).
    split_and!.
    + unfold storage_ToBytes. rewrite bind_assoc, (bind_done get_st _ _ _ _ eq_refl). cbn [enc_storage]. rewrite Efl, (bind_done _ _ _ _ _ (ctx_panics_some _ _ _)).
      unfold put. rewrite (bind_done (modify_st _) _ _ _ _ eq_refl). cbn [db_tx enc_hash enc_storage committed writes].
      rewrite (bind_done _ _ _ _ _ Ees'). by rewrite app_assoc.
    + intros Hp. split; [apply G4; by apply is_root_false|by apply Ges'].
    + intros _. by destruct (levels <=? above).
    + apply Forall_app. split; [done|]. repeat constructor. exists (TFull ts). split; [|done].
      apply orb_true_iff in Eh as [Ep|Eh]; [left; by split; [apply is_root_true|]|right; split; [constructor|done]].
    + intros F [HF1 HF2]%Forall_app HrF. destruct (Hkids F HF1 HrF) as [HinF HrF'].
      assert (inF F pfx (TFull ts)) as Hin by (apply inF_full_intro; [done|]; intros _; by apply Forall_cons in HF2 as [? _]).
      assert (cached schema (fun db => db = F) pfx (TFull ts) h) as Hca.
      { split; [done|]. split; [|done]. apply orb_true_iff in Eh as [Ep|Eh]; [right; by apply is_root_true|by left]. }
      split; [|done]. destruct (levels <=? above); [constructor; [done|done|by right]|].
      constructor; [done|done|]. by intros ? [= <-].
    + intros ?. by destruct (levels <=? above).
  - apply orb_false_iff in Eh as [Ep Eh]. exists (NFull cs' None), he3, es2, ws. split_and!; [done| | |done| |done].
    + intros Hp. split; [by apply G4|]. unfold sref. by rewrite Eh.
    + intros Hp. apply is_root_true in Hp. congruence.
    + intros F HF HrF. destruct (Hkids F HF HrF) as [HinF HrF']. split; [by constructor|].
      apply inF_full_intro; [done|]. intros [Hp|Hh]; [|congruence]. by apply is_root_true in Hp; rewrite Hp in Ep.
Qed.

(** Every node that represents a tree is committed. *)
Lemma commit_sim t : t <> TNil -> commits t.
Proof.
  induction t as [|k t IH|ts IH|s h] using tree_ind'; intros Hne; [done| | |].
  - destruct t as [|k' t|ts|s h].
    + intros ? ? ? ? ? ? ? ? _ Hwf. inversion Hwf.
    + intros ? ? ? ? ? ? ? ? _ Hwf. inversion Hwf.
    + apply commit_ext. by apply IH.
    + apply commit_leaf.
  - by apply commit_full.
  - intros ? ? ? ? ? ? ? ? _ Hwf. by apply wf_not_val in Hwf.
Qed.
End commit_sim.
