(* ===== verification/TrieProps.v ===== *)
(** * What the tries promise

    A [Writer] over a database refines a finite map from keys of 32 bytes to
    values: [Put] and [Delete] change one key, [Commit] returns a root hash
    that depends on the contents only, and after the writes of the block are
    applied the trie of that root holds exactly these contents. *)
From S2P Require Import Prelude Bytes Rlp RlpEncode RlpDecode RlpRoundtrip RlpRaw Crypto Trie TrieSpec TrieEnc TrieSim TrieCommit.

Section props.
Context `{Crypto} {laws : CryptoLaws} {V : Type} (EncodeForTrie : V -> bytes * bytes) (schema : Schema).
Context (Hmax : MaxValueSizeToStoreInTrie schema < 32).

(** ** Frames *)

(** [t] is the part of [T] under a prefix. *)
Definition part (T : tree) (pfx : list Z) (t : tree) : Prop :=
  (forall key v, t_lookup key t = Some v -> t_lookup (pfx ++ key) T = Some v) /\
  (forall u, full_sub u t -> full_sub u T) /\ (pfx = [] -> t = T) /\
  ((exists s h, t = TVal s h) \/ exists d, wf0 d t).

Lemma part_short T pfx k t : part T pfx (TShort k t) -> part T (pfx ++ k) t.
Proof.
  intros (Hl & Hs & _ & [(? & ? & ?)|(d & [|Hwf])]); [done..|]. split_and!.
  - intros key v Hv. rewrite <- app_assoc. apply Hl. by rewrite t_lookup_short, strip_self.
  - intros u Hu. apply Hs. by constructor.
  - intros [-> ->]%app_eq_nil. destruct (wf_not_full_val _ _ _ Hwf) as [(? & ? & _ & Hk)|(? & ? & _ & _ & Hk & _)]; [inversion Hk|done].
  - destruct (wf_not_full_val _ _ _ Hwf) as [(? & ? & -> & _)|(? & d' & -> & _ & _ & _ & Ht)]; [left; eauto|right; exists d'; by right].
Qed.

Lemma part_full T pfx ts i t : ts !! i = Some t -> part T pfx (TFull ts) -> part T (pfx ++ [Z.of_nat i]) t.
Proof.
  intros Hi (Hl & Hs & _ & [(? & ? & ?)|(d & [|Hwf])]); [done..|]. split_and!.
  - intros key v Hv. rewrite <- app_assoc. apply Hl. simpl app. by rewrite t_lookup_child, Hi.
  - intros u Hu. apply Hs. by econstructor.
  - by intros [_ ?]%app_eq_nil.
  - apply wf_full_inv in Hwf as (d' & ? & ? & ? & ? & -> & _ & _ & _ & _ & _ & _ & Hall). right. exists d'. by eapply Hall.
Qed.

Lemma part_stored T pfx t u : part T pfx t -> stored pfx t u -> stored [] T u.
Proof. intros (_ & Hs & Hp & _) [[E ->]|[Hu Hh]]; [left; by rewrite <- (Hp E)|right; auto]. Qed.

(** Databases that have what these have of a tree. *)
Definition frame (T : tree) (Dbs Dbs' : TrieDB -> Prop) : Prop :=
  (forall key s h, t_lookup key T = Some (s, h) -> (forall db, Dbs db -> value_in db key s) -> forall db, Dbs' db -> value_in db key s) /\
  (forall u, stored [] T u -> (forall db, Dbs db -> GetNode db (node_hash u) = Some (body schema u)) ->
    forall db, Dbs' db -> GetNode db (node_hash u) = Some (body schema u)).

Lemma frame_in_db T Dbs Dbs' pfx t : frame T Dbs Dbs' -> part T pfx t -> in_db schema Dbs pfx t -> in_db schema Dbs' pfx t.
Proof.
  intros [Fv Fn] Hp Hin db Hdb. split.
  - intros key s h Hl. apply (Fv (pfx ++ key) s h); [by apply Hp| |done]. intros db0 Hdb0. by eapply Hin.
  - intros u Hu. apply Fn; [by eapply part_stored| |done]. intros db0 Hdb0. by apply Hin.
Qed.

Lemma frame_cached T Dbs Dbs' pfx t h : frame T Dbs Dbs' -> part T pfx t -> cached schema Dbs pfx t h -> cached schema Dbs' pfx t h.
Proof. intros HF Hp (-> & Hh & Hin). split_and!; [done..|by eapply frame_in_db]. Qed.

Lemma repr_frame T Dbs Dbs' pfx n t : frame T Dbs Dbs' -> part T pfx t ->
  repr EncodeForTrie schema Dbs pfx n t -> repr EncodeForTrie schema Dbs' pfx n t.
Proof.
  intros HF Hp Hr. induction Hr as [pfx|pfx h t Hc Hne Hf|pfx k n t ho Hr IH Hho Hfull Hnone|pfx cs ts ho Hl Hr IH Hho|pfx s h Hv|pfx s h Hv|pfx v].
  - constructor.
  - constructor; [by eapply frame_cached|done..].
  - constructor; [by apply IH, part_short| |done|done]. intros h0 E0. eapply frame_cached; eauto.
  - constructor; [done| |intros h0 E0; eapply frame_cached; eauto].
    intros i c t Hc Ht. apply (IH i c t Hc Ht). by eapply part_full.
  - constructor. intros db Hdb. destruct Hp as [Hl _]. destruct HF as [Fv _]. specialize (Hl [] (s, h) eq_refl). rewrite app_nil_r in Hl. eauto.
  - constructor. intros db Hdb. destruct Hp as [Hl _]. destruct HF as [Fv _]. specialize (Hl [] (s, h) eq_refl). rewrite app_nil_r in Hl. eauto.
  - constructor.
Qed.

Lemma part_root T d : wf0 d T -> part T [] T.
Proof. intros Hwf. split_and!; [done..|right; by exists d]. Qed.

Lemma frame_sub T (Dbs Dbs' : TrieDB -> Prop) : (forall db, Dbs' db -> Dbs db) -> frame T Dbs Dbs'.
Proof. intros Hs. split; intros; eauto. Qed.

(** ** Writers *)
Definition dbs_of (io : IO) : TrieDB -> Prop := fun db => db = committed io \/ db = apply_writes (committed io) (writes io).

(** The writer's trie has the contents [T], in the database as it was
    committed and as the block has left it so far. *)
Definition represents (io : IO) (w : Writer (V := V)) (T : tree) : Prop :=
  wf0 65 T /\ vals_ok schema T /\ repr EncodeForTrie schema (dbs_of io) [] (root w) T.

(** A key of 32 bytes, and its value in both encodings. *)
Definition get (T : tree) (k : bytes) : option (bytes * bytes) := t_lookup (keybytes_to_hex k) T.

Definition value_ok (v : V) : Prop :=
  let '(s, h) := EncodeForTrie v in s <> [] /\ ValueStorageToHashEncoding schema s = Some h /\ blen h < 2 ^ 31.

Lemma hex_of_key k : length k = 32%nat -> hexkey 65 (keybytes_to_hex k).
Proof. intros Hk. apply hexkey_keybytes. by rewrite Hk. Qed.

Lemma keybytes_inj k k' : keybytes_to_hex k = keybytes_to_hex k' -> k = k'.
Proof.
  intros E. rewrite !keybytes_to_hex_nibbles in E. apply app_inv_tail in E.
  apply (f_equal decodeNibbles) in E. rewrite !decodeNibbles_nibbles in E. congruence.
Qed.

(** Only keys of full length are in a trie. *)
Lemma lookup_hexkey t : forall d key v, wf d t -> t_lookup key t = Some v -> hexkey d key.
Proof.
  induction t as [|k t IH|ts IH|s h] using tree_ind'; intros d key v Hwf Hl; [done| | |by apply wf_not_val in Hwf].
  - rewrite t_lookup_short in Hl. destruct (strip k key) as [r|] eqn:Es; [|done]. apply strip_app in Es as ->.
    destruct (wf_not_full_val _ _ _ Hwf) as [(s & h & -> & Hk)|(ts & d' & -> & Hk & Hne & -> & Ht)].
    + destruct r; [by rewrite app_nil_r|done].
    + apply hexkey_app; [done|by eapply IH].
  - destruct key as [|x key]; [done|]. apply t_lookup_full_inv in Hl as (Hx & t & Ht & Hl).
    apply wf_full_inv in Hwf as (d' & ? & ? & ? & ? & -> & Hlen & _ & _ & _ & _ & _ & Hall).
    apply lookup_lt_Some in Ht as Hlt. rewrite Hlen in Hlt. change full_node_child_cnt with 16%nat in Hlt.
    constructor; [unfold nib; lia|]. rewrite Forall_forall in IH. destruct (Hall _ _ Ht) as [->|Hwt]; [done|].
    eapply IH; [by eapply list_elem_of_lookup_2|done..].
Qed.

Lemma lookup_get T key v : wf0 65 T -> t_lookup key T = Some v -> exists k, length k = 32%nat /\ key = keybytes_to_hex k /\ get T k = Some v.
Proof.
  intros [->|Hwf] Hl; [done|]. destruct (hexkey_65 key (lookup_hexkey _ _ _ _ Hwf Hl)) as (k & -> & Hk). by exists k.
Qed.

(** [Put] sets the value of its key. *)
Lemma Put_spec io w T k v : represents io w T -> length k = 32%nat -> value_ok v ->
  exists w' T', Writer_Put schema w k v io = Done w' io /\ represents io w' T' /\
    forall k', length k' = 32%nat -> get T' k' = if decide (k = k') then Some (EncodeForTrie v) else get T k'.
Proof.
  intros (Hwf & Hok & Hr) Hk Hv. apply hex_of_key in Hk as Hkey. unfold value_ok in Hv.
  destruct (EncodeForTrie v) as [s h] eqn:Ev. destruct Hv as (Hs & Eh & Hh).
  assert (forall k', length k' = 32%nat -> get (t_insert (keybytes_to_hex k) s h T) k' = if decide (k = k') then Some (s, h) else get T k') as Hget.
  { intros k' Hk'. unfold get. rewrite (t_lookup_insert T 65) by (done || by apply hex_of_key).
    destruct (decide (k = k')) as [->|Hne]; [by rewrite decide_True|]. rewrite decide_False; [done|]. by intros ?%keybytes_inj. }
  destruct (insert_sim EncodeForTrie schema Hmax (dbs_of io) (committed io) (or_introl eq_refl) (keybytes_to_hex k) Hkey v key_fuel 0 (root w) T 65) as (n' & E & Hr');
    [done|done|done|lia|done|destruct (is_hash (root w)); unfold key_fuel; lia|]. rewrite Ev in Hr'. simpl in Hr'.
  exists (mkWriter n' (FullNodeLevelsToCache w)), (t_insert (keybytes_to_hex k) s h T). split_and!; [|split_and!|done].
  - unfold Writer_Put, reading, bindM. by rewrite E.
  - right. by apply wf_insert.
  - intros key s' h' Hl. destruct (lookup_get _ _ _ (or_intror (wf_insert T 65 _ s h Hwf Hkey)) Hl) as (k' & Hk' & -> & Hg).
    rewrite Hget in Hg by done. destruct (decide (k = k')); [injection Hg as <- <-; done|by eapply Hok].
  - done.
Qed.

(** ** Writes to the database *)
Definition wkey (w : Write) : bytes + bytes := match w with PutValue k _ => inl k | PutNode h _ => inr h end.
Definition content (w : Write) : bytes := match w with PutValue _ v => v | PutNode _ b => b end.

Lemma present_some b : b <> [] -> present (Some b) = Some b.
Proof. by destruct b. Qed.

Lemma holds_here db w : content w <> [] -> holds (apply_write db w) w.
Proof.
  destruct w as [k v|h b]; cbn [holds content apply_write GetValue GetNode]; intros Hc; rewrite decide_True by done; by apply present_some.
Qed.

Lemma holds_other db w w0 : wkey w <> wkey w0 -> holds db w0 -> holds (apply_write db w) w0.
Proof.
  destruct w as [k v|h b], w0 as [k0 v0|h0 b0]; cbn [holds wkey apply_write GetValue GetNode]; intros Hne; try done;
    rewrite decide_False by congruence; done.
Qed.

Lemma apply_writes_snoc db ws w : apply_writes db (ws ++ [w]) = apply_write (apply_writes db ws) w.
Proof. unfold apply_writes. by rewrite foldl_app. Qed.

Lemma apply_writes_app db ws ws' : apply_writes db (ws ++ ws') = apply_writes (apply_writes db ws) ws'.
Proof. unfold apply_writes. by rewrite foldl_app. Qed.

(** What is written is not overwritten by the same contents. *)
Lemma holds_after db ws w : content w <> [] -> (forall w', w' ∈ ws -> wkey w' = wkey w -> w' = w) ->
  holds db w \/ w ∈ ws -> holds (apply_writes db ws) w.
Proof.
  intros Hc. induction ws as [|w' ws IH] using rev_ind; intros Hsame Hor.
  - destruct Hor as [?|Hin]; [done|by apply not_elem_of_nil in Hin].
  - rewrite apply_writes_snoc. destruct (decide (wkey w' = wkey w)) as [E|Hne].
    + assert (w' = w) as -> by (apply Hsame; [|done]; apply elem_of_app; right; by left). by apply holds_here.
    + apply holds_other; [done|]. apply IH; [intros w2 Hw2; apply Hsame, elem_of_app; by left|].
      destruct Hor as [?|[?|Hin%list_elem_of_singleton]%elem_of_app]; [by left|by right|by subst].
Qed.

(** [Delete] removes its key and writes an empty value, if the key is there. *)
Lemma Delete_spec io w T k : represents io w T -> length k = 32%nat ->
  exists w' T' ws, let io' := mkIO (committed io) (writes io ++ ws) in
    Writer_Delete schema w k io = Done w' io' /\ represents io' w' T' /\
    (ws = match get T k with Some _ => [PutValue k []] | None => [] end) /\
    forall k', length k' = 32%nat -> get T' k' = if decide (k = k') then None else get T k'.
Proof.
  intros (Hwf & Hok & Hr) Hk. apply hex_of_key in Hk as Hkey.
  destruct (delete_sim EncodeForTrie schema Hmax (dbs_of io) (committed io) (or_introl eq_refl) (keybytes_to_hex k) Hkey key_fuel 0 (root w) T 65) as (n' & found & E & Hres);
    [done|done|done|lia|done|destruct (is_hash (root w)); unfold key_fuel; lia|]. rewrite drop_0, take_0 in Hres.
  pose proof (t_delete_spec T 65 (keybytes_to_hex k) Hwf Hkey) as Hdel.
  unfold deleted in Hdel. destruct (t_delete (keybytes_to_hex k) T) as [T'|].
  - destruct Hres as (-> & Hr' & _). destruct Hdel as (Hwf' & Hin & Hlook).
    assert (forall k', length k' = 32%nat -> get T' k' = if decide (k = k') then None else get T k') as Hget.
    { intros k' Hk'. unfold get. rewrite Hlook by (by apply hex_of_key).
      destruct (decide (k = k')) as [->|Hne]; [by rewrite decide_True|]. rewrite decide_False; [done|]. by intros ?%keybytes_inj. }
    exists (mkWriter n' (FullNodeLevelsToCache w)), T', [PutValue k []]. split_and!; [|split_and!; [done| |]| |done].
    + unfold Writer_Delete, reading, bindM. by rewrite E.
    + intros key s h Hl. destruct (lookup_get _ _ _ Hwf' Hl) as (k' & Hk' & -> & Hg).
      rewrite Hget in Hg by done. destruct (decide (k = k')); [done|by eapply Hok].
    + eapply repr_frame; [|by eapply part_root|exact Hr']. split.
      * intros key s h Hl Hv db [->| ->]; [apply Hv; by left|].
        destruct (lookup_get _ _ _ Hwf' Hl) as (k' & Hk' & -> & Hg). rewrite Hget in Hg by done. destruct (decide (k = k')) as [|Hne]; [done|].
        destruct (Hv _ (or_intror eq_refl)) as (kb & Ekb & Hgv). rewrite hex_to_keybytes_full in Ekb by done. injection Ekb as <-.
        exists k'. rewrite hex_to_keybytes_full by done. split; [done|]. cbn [writes committed]. rewrite apply_writes_snoc.
        change (holds (apply_write (apply_writes (committed io) (writes io)) (PutValue k [])) (PutValue k' s)). apply holds_other; [simpl; congruence|done].
      * intros u Hu Hn db [->| ->]; [apply Hn; by left|]. cbn [writes committed]. rewrite apply_writes_snoc.
        change (holds (apply_write (apply_writes (committed io) (writes io)) (PutValue k [])) (PutNode (node_hash u) (body schema u))).
        apply holds_other; [done|]. simpl. apply Hn. by right.
    + unfold get. by destruct (t_lookup _ T).
  - destruct Hres as (-> & Hr'). exists (mkWriter n' (FullNodeLevelsToCache w)), T, []. rewrite app_nil_r.
    split_and!; [|split_and!; [done|done|]| |].
    + unfold Writer_Delete, reading, bindM. rewrite E. by destruct io.
    + by destruct io.
    + unfold get. by rewrite Hdel.
    + intros k' _. case_decide; [by subst|done].
Qed.

(** ** Commit *)

(** Nodes that are stored under the same hash are the same. *)
Definition no_collision (T : tree) : Prop := forall u u', stored [] T u -> stored [] T u' ->
  node_hash u = node_hash u' -> body schema u = body schema u'.

Definition root_hash (T : tree) : option bytes := match T with TNil => None | _ => Some (node_hash T) end.

Lemma full_sub_is_full u t : full_sub u t -> exists ts, u = TFull ts.
Proof. induction 1; eauto. Qed.

Lemma stored_body T u : wf 65 T -> stored [] T u -> body schema u <> [].
Proof.
  intros Hwf [[_ ->]|[Hs _]]; [|destruct (full_sub_is_full _ _ Hs) as [ts ->]; apply enc_list_not_nil].
  destruct T; [by apply wf_not_nil in Hwf|apply enc_list_not_nil..|by apply wf_not_val in Hwf].
Qed.

(** Writes of nodes and values of the tree do not disturb each other. *)
Lemma good_same T w w' : wf 65 T -> no_collision T -> good schema [] T w -> good schema [] T w' -> wkey w = wkey w' -> w = w'.
Proof.
  intros Hwf Hnc. destruct w as [k v|h b], w' as [k' v'|h' b']; simpl; intros Hg Hg' E; simplify_eq.
  - destruct Hg as (key & h & Hl & Hkb), Hg' as (key' & h' & Hl' & Hkb').
    destruct (lookup_get _ _ _ (or_intror Hwf) Hl) as (k1 & Hk1 & -> & _), (lookup_get _ _ _ (or_intror Hwf) Hl') as (k2 & Hk2 & -> & _).
    rewrite hex_to_keybytes_full in Hkb, Hkb' by done. congruence.
  - destruct Hg as (u & Hu & -> & ->), Hg' as (u' & Hu' & E & ->). f_equal. by apply Hnc.
Qed.

Lemma good_content T w : wf 65 T -> vals_ok schema T -> good schema [] T w -> content w <> [].
Proof.
  intros Hwf Hok. destruct w as [k v|h b]; simpl.
  - intros (key & h & Hl & _). by destruct (Hok _ _ _ Hl).
  - intros (u & Hu & _ & ->). by eapply stored_body.
Qed.

Lemma good_writes_hold T db ws : wf 65 T -> vals_ok schema T -> no_collision T -> Forall (good schema [] T) ws ->
  Forall (holds (apply_writes db ws)) ws.
Proof.
  intros Hwf Hok Hnc Hg. rewrite Forall_forall in Hg. apply Forall_forall. intros w Hw.
  apply holds_after; [by eapply good_content, Hg| |by right]. intros w' Hw' E. eapply good_same; eauto.
Qed.

Lemma good_writes_frame T db ws Dbs : wf 65 T -> vals_ok schema T -> no_collision T -> Forall (good schema [] T) ws -> Dbs db ->
  frame T Dbs (fun db' => db' = apply_writes db ws).
Proof.
  intros Hwf Hok Hnc Hg Hdb. rewrite Forall_forall in Hg. split.
  - intros key s h Hl Hv db' ->. destruct (lookup_get _ _ _ (or_intror Hwf) Hl) as (k & Hk & -> & _).
    destruct (Hv db Hdb) as (kb & Ekb & Hgv). exists kb. split; [done|].
    assert (good schema [] T (PutValue kb s)) as Hw by (by exists (keybytes_to_hex k), h).
    apply (holds_after db ws (PutValue kb s)); [by eapply good_content| |by left]. intros w' Hw' E. eapply good_same; eauto.
  - intros u Hu Hn db' ->. assert (good schema [] T (PutNode (node_hash u) (body schema u))) as Hw by (by exists u).
    apply (holds_after db ws (PutNode (node_hash u) (body schema u))); [by eapply good_content| |left; by apply Hn].
    intros w' Hw' E. eapply good_same; eauto.
Qed.

Lemma root_cached Dbs n T h : repr EncodeForTrie schema Dbs [] n T -> wf0 65 T -> get_hash n = Some h -> (forall v, n <> NValue v) -> cached schema Dbs [] T h.
Proof.
  intros Hr Hwf Hh Hv. inversion Hr; subst; simpl in Hh; simplify_eq; eauto.
Qed.

(** A database with the trie of a root: a writer that is opened there. *)
Definition holds_trie (db : TrieDB) (root : option bytes) (T : tree) : Prop :=
  forall levels, levels <= MaxDepth -> exists w, Writer_Init root levels = Some w /\ represents (mkIO db []) w T.

(** [Commit] returns the hash of the contents and writes parts of the tree;
    a database in which the writes hold has all of it. *)
Lemma Commit_run io w T : represents io w T ->
  exists w' ws, Writer_Commit EncodeForTrie schema w io = Done (root_hash T, w') (mkIO (committed io) (writes io ++ ws)) /\
    Forall (good schema [] T) ws /\ (T = TNil -> ws = []) /\
    forall F, Forall (holds F) ws -> repr EncodeForTrie schema (fun db => db = F) [] (root w) T ->
      repr EncodeForTrie schema (fun db => db = F) [] (root w') T /\ (T <> TNil -> in_db schema (fun db => db = F) [] T).
Proof.
  intros (Hwf & Hok & Hr). destruct w as [n levels]. simpl in Hr.
  destruct Hwf as [->|Hwf].
  { assert (n = NNil) as -> by (by apply (repr_nil_iff _ _ _ _ _ _ Hr)). exists (mkWriter NNil levels), []. rewrite app_nil_r.
    split_and!; [unfold Writer_Commit; simpl; by destruct io|constructor|done|by intros F _ Hrep]. }
  assert (T <> TNil) as Hne by (intros ->; by apply wf_not_nil in Hwf).
  assert (root_hash T = Some (node_hash T)) as Eroot by (by destruct T). rewrite Eroot in *.
  assert (forall v, n <> NValue v) as Hnv.
  { intros v ->. inversion Hr; subst; by apply wf_not_val in Hwf. }
  destruct (get_hash n) as [h|] eqn:Eh.
  { destruct (root_cached _ _ _ _ Hr (or_intror Hwf) Eh Hnv) as (-> & _ & _).
    exists (mkWriter n levels), []. rewrite app_nil_r. split_and!; [|constructor|done|].
    - unfold Writer_Commit. cbn [root]. destruct n; try (by destruct (Hnv v)); rewrite ?Eh; try (destruct io; done).
    - intros F _ Hrep. split; [done|]. intros _. cbn [root] in Hrep. by destruct (root_cached _ _ _ _ Hrep (or_intror Hwf) Eh Hnv) as (_ & _ & Hin). }
  destruct (commit_sim EncodeForTrie schema Hmax (dbs_of io) T Hne 65%nat levels 0 [] n he_Reset Encoder_Reset io Hr Hwf eq_refl (List.Forall_nil _) Hok) as (n' & he' & es' & ws & E & _ & Hh & Hgood & Hprov & _).
  { done. }
  { done. }
  { intros _. split; [done|]. unfold he_Reset, Encoder_Reset, HR. simpl. unfold blen. simpl. lia. }
  { split; [done|]. unfold Encoder_Reset, SR. simpl. unfold blen. simpl. lia. }
  exists (mkWriter n' levels), ws. split_and!; [|done|done|].
  - unfold Writer_Commit. cbn [root Trie.FullNodeLevelsToCache].
    destruct n; [by destruct Hne; apply (repr_nil_iff _ _ _ _ _ _ Hr)|..|by destruct (Hnv v)]; rewrite Eh, E, Hh by done; done.
  - intros F HF Hrep. destruct (Hprov F HF Hrep) as [Hr' Hin]. by split.
Qed.

(** The database that a commit leaves has the trie of its root. *)
Lemma Commit_spec io w T : represents io w T -> no_collision T ->
  exists w' ws, let io' := mkIO (committed io) (writes io ++ ws) in
    let db' := apply_writes (committed io') (writes io') in
    Writer_Commit EncodeForTrie schema w io = Done (root_hash T, w') io' /\
    represents (mkIO db' []) w' T /\ holds_trie db' (root_hash T) T.
Proof.
  intros Hrep Hnc. destruct (Commit_run io w T Hrep) as (w' & ws & E & Hgood & Hnil & Hprov). destruct Hrep as (Hwf & Hok & Hr).
  exists w', ws. cbv zeta. cbn [committed writes]. rewrite apply_writes_app. set (D' := apply_writes (committed io) (writes io)) in *.
  assert (forall n' l, repr EncodeForTrie schema (fun db => db = apply_writes D' ws) [] n' T -> represents (mkIO (apply_writes D' ws) []) (mkWriter n' l) T) as Hrepr.
  { intros n' l Hr'. split_and!; [done..|]. eapply repr_frame; [|by eapply part_root|exact Hr']. apply frame_sub. by intros db [->| ->]. }
  assert (Forall (holds (apply_writes D' ws)) ws /\ repr EncodeForTrie schema (fun db => db = apply_writes D' ws) [] (root w) T) as [Hh Hr'].
  { destruct Hwf as [->|Hwf].
    - assert (root w = NNil) as -> by (by apply (repr_nil_iff _ _ _ _ _ _ Hr)). rewrite Hnil by done. split; constructor.
    - assert (frame T (dbs_of io) (fun db => db = apply_writes D' ws)) as Hf by (apply good_writes_frame; [done..|by right]).
      split; [by apply (good_writes_hold T)|]. eapply repr_frame; [exact Hf|by eapply part_root; right|done]. }
  destruct (Hprov _ Hh Hr') as [Hr2 Hin]. split_and!; [done|destruct w' as [n' l']; by apply Hrepr|].
  intros l Hl. unfold Writer_Init. rewrite (proj2 (Z.leb_le _ _)) by done. eexists. split; [done|]. apply Hrepr.
  unfold root_hash. destruct T; [constructor|..]; (constructor; [split_and!; [done|by right|by apply Hin]|done|by left]).
Qed.

(** What such a database holds. *)
Lemma holds_trie_cached db T : holds_trie db (root_hash T) T -> T <> TNil ->
  cached schema (fun x => x = db) [] T (node_hash T) /\ wf 65 T /\ vals_ok schema T.
Proof.
  intros Hh Hne. destruct (Hh 0 ltac:(done)) as (w & Ew & [|Hwf] & Hok & Hr); [done|].
  assert (root_hash T = Some (node_hash T)) as Er by (by destruct T). rewrite Er in Ew.
  unfold Writer_Init in Ew. change (0 <=? MaxDepth) with true in Ew. injection Ew as <-. cbn [root] in Hr.
  inversion Hr as [|pfx h t Hc| | | | |]; subst. split; [|done].
  eapply frame_cached; [|by eapply part_root; right|exact Hc]. apply frame_sub. intros x ->. by left.
Qed.

(** ** The finite map *)
Abbreviation contents := (gmap bytes (bytes * bytes)).

Definition keys_ok (m : contents) : Prop := forall k, is_Some (m !! k) -> length k = 32%nat.

(** The canonical tree of a map. *)
Definition tree_of (m : contents) : tree :=
  map_fold (fun k v t => t_insert (keybytes_to_hex k) (fst v) (snd v) t) TNil m.

Definition matches (T : tree) (m : contents) : Prop := forall k, length k = 32%nat -> get T k = m !! k.

Lemma matches_unique T T' m : wf0 65 T -> wf0 65 T' -> matches T m -> matches T' m -> T = T'.
Proof.
  intros Hwf Hwf' Hm Hm'. apply (wf0_ext T 65); [done..|]. intros key Hkey.
  destruct (hexkey_65 key Hkey) as (k & -> & Hk). specialize (Hm k Hk). specialize (Hm' k Hk). unfold get in *. congruence.
Qed.

Lemma tree_of_spec m : keys_ok m -> wf0 65 (tree_of m) /\ matches (tree_of m) m.
Proof.
  unfold tree_of. apply (map_fold_weak_ind (fun t (m : contents) => keys_ok m -> wf0 65 t /\ matches t m)).
  - intros _. split; [by left|]. done.
  - intros k [s h] m' t Hk IH Hok.
    destruct IH as [Hwf Hm]; [intros k' Hk'; apply Hok; rewrite lookup_insert_is_Some'; by right|].
    assert (length k = 32%nat) as Hlk by (apply Hok; rewrite lookup_insert_eq; by eexists).
    split; [right; apply wf_insert; [done|by apply hex_of_key]|].
    intros k' Hk'. unfold get. simpl fst. simpl snd. rewrite (t_lookup_insert t 65) by (done || by apply hex_of_key).
    destruct (decide (k = k')) as [->|Hne]; [by rewrite decide_True, lookup_insert_eq|].
    rewrite decide_False, lookup_insert_ne by (done || by intros ?%keybytes_inj). by apply Hm.
Qed.

Lemma tree_of_unique T m : keys_ok m -> wf0 65 T -> matches T m -> T = tree_of m.
Proof. intros Hk Hwf Hm. destruct (tree_of_spec m Hk). by eapply matches_unique. Qed.

(** The operations of a block and what they mean. *)
Inductive Op := OpPut (k : bytes) (v : V) | OpDelete (k : bytes).

Definition op_ok (o : Op) : Prop := match o with OpPut k v => length k = 32%nat /\ value_ok v | OpDelete k => length k = 32%nat end.

Definition run_op (o : Op) (w : Writer) : M IO Writer :=
  match o with OpPut k v => Writer_Put schema w k v | OpDelete k => Writer_Delete schema w k end.

Fixpoint run_ops (os : list Op) (w : Writer) : M IO Writer :=
  match os with [] => ret w | o :: os => w ← run_op o w; run_ops os w end.

Definition spec_op (m : contents) (o : Op) : contents :=
  match o with OpPut k v => <[k := EncodeForTrie v]> m | OpDelete k => delete k m end.
Definition spec_ops : contents -> list Op -> contents := foldl spec_op.

Lemma spec_op_keys m o : keys_ok m -> op_ok o -> keys_ok (spec_op m o).
Proof.
  intros Hm Ho k. destruct o as [k' v|k']; simpl.
  - intros [->|[_ ?]]%lookup_insert_is_Some; [by destruct Ho|auto].
  - rewrite lookup_delete_is_Some. intros [_ ?]. auto.
Qed.

Lemma run_op_spec io w m o : keys_ok m -> op_ok o -> represents io w (tree_of m) ->
  exists w' ws, run_op o w io = Done w' (mkIO (committed io) (writes io ++ ws)) /\
    represents (mkIO (committed io) (writes io ++ ws)) w' (tree_of (spec_op m o)).
Proof.
  intros Hm Ho Hr. destruct (tree_of_spec m Hm) as [_ Hmt]. pose proof (spec_op_keys m o Hm Ho) as Hm'.
  destruct o as [k v|k]; simpl in *.
  - destruct Ho as [Hk Hv]. destruct (Put_spec io w _ k v Hr Hk Hv) as (w' & T' & E & Hr' & Hget). exists w', []. rewrite app_nil_r.
    replace (mkIO (committed io) (writes io)) with io by (by destruct io). split; [done|].
    assert (T' = tree_of (<[k := EncodeForTrie v]> m)) as <-; [|done]. apply tree_of_unique; [done|apply Hr'|].
    intros k' Hk'. rewrite Hget by done. case_decide as Ek; [subst; by rewrite lookup_insert_eq|]. rewrite lookup_insert_ne by done. by apply Hmt.
  - destruct (Delete_spec io w _ k Hr Ho) as (w' & T' & ws & E & Hr' & _ & Hget). exists w', ws. split; [done|].
    assert (T' = tree_of (delete k m)) as <-; [|done]. apply tree_of_unique; [done|apply Hr'|].
    intros k' Hk'. rewrite Hget by done. case_decide as Ek; [subst; by rewrite lookup_delete_eq|]. rewrite lookup_delete_ne by done. by apply Hmt.
Qed.

Lemma run_ops_spec os : forall io w m, keys_ok m -> Forall op_ok os -> represents io w (tree_of m) ->
  exists w' ws, run_ops os w io = Done w' (mkIO (committed io) (writes io ++ ws)) /\ keys_ok (spec_ops m os) /\
    represents (mkIO (committed io) (writes io ++ ws)) w' (tree_of (spec_ops m os)).
Proof.
  induction os as [|o os IH]; intros io w m Hm Hos Hr.
  - exists w, []. rewrite app_nil_r. by destruct io.
  - apply Forall_cons in Hos as [Ho Hos]. destruct (run_op_spec io w m o Hm Ho Hr) as (w1 & ws1 & E1 & Hr1).
    destruct (IH _ _ _ (spec_op_keys _ _ Hm Ho) Hos Hr1) as (w2 & ws2 & E2 & Hk2 & Hr2). simpl in E2, Hr2.
    exists w2, (ws1 ++ ws2). rewrite app_assoc. split_and!; [|done..]. cbn [run_ops]. by rewrite (bind_done _ _ _ _ _ E1).
Qed.

(** C25: A block of insertions and deletions on a trie, from any mixture of
    nodes in memory and in the database, never panics; its commit returns
    the root hash of the resulting finite map, and in the database after the
    writes of the block both the writer and a reader opened at that root have
    this map. *)
Theorem trie_refines_map io w m os : keys_ok m -> represents io w (tree_of m) -> Forall op_ok os ->
  no_collision (tree_of (spec_ops m os)) ->
  exists w' ws, let db' := apply_writes (committed io) (writes io ++ ws) in
    (w ← run_ops os w; Writer_Commit EncodeForTrie schema w) io =
      Done (root_hash (tree_of (spec_ops m os)), w') (mkIO (committed io) (writes io ++ ws)) /\
    represents (mkIO db' []) w' (tree_of (spec_ops m os)) /\
    holds_trie db' (root_hash (tree_of (spec_ops m os))) (tree_of (spec_ops m os)).
Proof.
  intros Hm Hr Hos Hnc. destruct (run_ops_spec os io w m Hm Hos Hr) as (w1 & ws1 & E1 & _ & Hr1).
  destruct (Commit_spec _ _ _ Hr1 Hnc) as (w2 & ws2 & E2 & Hr2 & Hh2). cbn [committed writes] in *.
  exists w2, (ws1 ++ ws2). rewrite app_assoc. split_and!; [|done..]. by rewrite (bind_done _ _ _ _ _ E1).
Qed.

(** The root hash does not depend on history: two writers over any
    databases whose tries have the same contents commit without a panic and
    to the same root, whatever nodes they have in memory. *)
Theorem root_of_contents io1 w1 T1 io2 w2 T2 :
  represents io1 w1 T1 -> represents io2 w2 T2 -> no_collision T1 ->
  (forall k, length k = 32%nat -> get T1 k = get T2 k) ->
  exists h w1' w2' io1' io2',
    Writer_Commit EncodeForTrie schema w1 io1 = Done (h, w1') io1' /\
    Writer_Commit EncodeForTrie schema w2 io2 = Done (h, w2') io2'.
Proof.
  intros H1 H2 Hnc E. assert (T1 = T2) as <-.
  { apply (wf0_ext T1 65); [apply H1|apply H2|]. intros key Hkey. destruct (hexkey_65 key Hkey) as (k & -> & Hk). by apply E. }
  destruct (Commit_spec _ _ _ H1 Hnc) as (w1' & ws1 & E1 & _). destruct (Commit_spec _ _ _ H2 Hnc) as (w2' & ws2 & E2 & _). eauto 10.
Qed.
End props.
