(* ===== verification/TrieForEach.v ===== *)
(** * [ForEach] enumerates the contents of a trie *)
From S2P Require Import Prelude Bytes Rlp Crypto Trie TrieSpec TrieEnc TrieSim TrieCommit TrieProps.

(** The contents in the order of the iteration. *)
Fixpoint entries (pfx : list Z) (t : tree) : list (list Z * (bytes * bytes)) :=
  match t with
  | TNil => []
  | TVal s h => [(pfx, (s, h))]
  | TShort k t => entries (pfx ++ k) t
  | TFull ts => (fix go (i : nat) (ts : list tree) {struct ts} := match ts with
      | [] => []
      | t :: ts => entries (pfx ++ [Z.of_nat i]) t ++ go (S i) ts
      end) 0%nat ts
  end.

Lemma entries_full pfx ts : entries pfx (TFull ts) = concat (imap (fun i t => entries (pfx ++ [Z.of_nat i]) t) ts).
Proof.
  cbn [entries]. change (fun i t => entries (pfx ++ [Z.of_nat i]) t) with (fun i t => entries (pfx ++ [Z.of_nat (0 + i)]) t).
  generalize 0%nat as n. induction ts as [|t ts IH]; intros n; [done|]. cbn [imap concat]. rewrite Nat.add_0_r. f_equal.
  rewrite IH. f_equal. apply imap_ext. intros i x _. unfold compose. do 3 f_equal. lia.
Qed.

Lemma elem_of_concat_imap {A B} (f : nat -> A -> list B) l y :
  y ∈ concat (imap f l) <-> exists i x, l !! i = Some x /\ y ∈ f i x.
Proof.
  rewrite list_elem_of_In, in_concat. split.
  - intros (ys & Hys%list_elem_of_In & Hy%list_elem_of_In). apply elem_of_lookup_imap in Hys as (i & x & -> & Hi). eauto.
  - intros (i & x & Hi & Hy). exists (f i x). split; apply list_elem_of_In; [|done]. apply elem_of_lookup_imap. eauto.
Qed.

Lemma elem_of_entries t : forall pfx key v, (key, v) ∈ entries pfx t <-> exists r, key = pfx ++ r /\ t_lookup r t = Some v.
Proof.
  induction t as [|k t IH|ts IH|s h] using tree_ind'; intros pfx key v.
  - split; [intros H; by apply not_elem_of_nil in H|by intros (? & _ & ?)].
  - cbn [entries]. rewrite IH. split.
    + intros (r & -> & Hr). exists (k ++ r). by rewrite app_assoc, t_lookup_short, strip_self.
    + intros (r & -> & Hr). rewrite t_lookup_short in Hr. destruct (strip k r) as [r'|] eqn:Es; [|done]. apply strip_app in Es as ->.
      exists r'. by rewrite app_assoc.
  - rewrite entries_full, elem_of_concat_imap. rewrite Forall_forall in IH. split.
    + intros (i & t & Hi & Hin). apply (IH t (list_elem_of_lookup_2 _ _ _ Hi)) in Hin as (r & -> & Hr).
      exists (Z.of_nat i :: r). rewrite <- app_assoc, t_lookup_child, Hi. done.
    + intros ([|x r] & -> & Hr); [done|]. apply t_lookup_full_inv in Hr as (Hx & t & Ht & Hr). exists (Z.to_nat x), t. split; [done|].
      apply (IH t (list_elem_of_lookup_2 _ _ _ Ht)). exists r. by rewrite Z2Nat.id, <- app_assoc.
  - cbn [entries]. rewrite list_elem_of_singleton. split.
    + intros [= -> ->]. exists []. by rewrite app_nil_r.
    + intros ([|x r] & -> & [= <-]). by rewrite app_nil_r.
Qed.

Lemma NoDup_concat_imap {A B} (f : nat -> A -> list B) (l : list A) : forall n,
  (forall i x, l !! i = Some x -> NoDup (f (n + i)%nat x)) ->
  (forall i j x y z, l !! i = Some x -> l !! j = Some y -> z ∈ f (n + i)%nat x -> z ∈ f (n + j)%nat y -> i = j) ->
  NoDup (concat (imap (fun i => f (n + i)%nat) l)).
Proof.
  induction l as [|x l IH]; intros n Hnd Hdis; [constructor|]. cbn [imap concat].
  assert (imap (fun i => f (n + S i)%nat) l = imap (fun i => f (S n + i)%nat) l) as E by (apply imap_ext; intros i y _; f_equal; lia).
  apply NoDup_app. split_and!; [apply (Hnd 0%nat x eq_refl)| |].
  - intros z Hz Hz2. unfold compose in Hz2. rewrite E in Hz2. apply elem_of_concat_imap in Hz2 as (i & y & Hi & Hz2).
    replace (S n + i)%nat with (n + S i)%nat in Hz2 by lia. by specialize (Hdis 0%nat (S i) x y z eq_refl Hi Hz Hz2).
  - unfold compose. rewrite E. apply IH.
    + intros i y Hi. replace (S n + i)%nat with (n + S i)%nat by lia. by apply (Hnd (S i)).
    + intros i j y z w Hi Hj Hw Hw'. replace (S n + i)%nat with (n + S i)%nat in Hw by lia. replace (S n + j)%nat with (n + S j)%nat in Hw' by lia.
      by specialize (Hdis (S i) (S j) y z w Hi Hj Hw Hw') as [= ->].
Qed.

Lemma entries_NoDup t : forall pfx, NoDup (fst <$> entries pfx t).
Proof.
  induction t as [|k t IH|ts IH|s h] using tree_ind'; intros pfx; [constructor|apply IH| |by apply NoDup_singleton].
  rewrite entries_full. change (fst <$> ?l) with (map (@fst (list Z) (bytes * bytes)) l). rewrite concat_map. change (map ?f ?l) with (f <$> l) at 1.
  rewrite fmap_imap.
  match goal with |- NoDup (concat ?l) => replace l with (imap (fun i => (fun i t => fst <$> entries (pfx ++ [Z.of_nat i]) t) (0 + i)%nat) ts) by (by apply imap_ext) end.
  apply (NoDup_concat_imap (fun i t => fst <$> entries (pfx ++ [Z.of_nat i]) t) ts 0%nat).
  - intros i t Hi. rewrite Forall_forall in IH. apply IH. by eapply list_elem_of_lookup_2.
  - intros i j t t' z _ _ Hz Hz'. simpl in Hz, Hz'.
    apply list_elem_of_fmap in Hz as ((? & v) & -> & (r & -> & _)%elem_of_entries), Hz' as ((? & v') & E & (r' & -> & _)%elem_of_entries).
    simpl in E. rewrite <- !app_assoc in E. apply app_inv_head in E. injection E. lia.
Qed.

Section for_each.
Context `{Crypto} {laws : CryptoLaws} {V : Type} (EncodeForTrie : V -> bytes * bytes) (schema : Schema).
Context (Hmax : MaxValueSizeToStoreInTrie schema < 32).

(** A call of the callback and an entry. *)
Definition calls_entry (c : bytes * option (Value (V := V))) (e : list Z * (bytes * bytes)) : Prop :=
  hex_to_keybytes (fst e) = Some (fst c) /\ exists v, snd c = Some v /\ encode_value EncodeForTrie v = snd e.

Lemma map_each_done {St A B} (f : A -> M St B) s xs ys : Forall2 (fun x y => f x s = Done y s) xs ys -> map_each f xs s = Done ys s.
Proof.
  induction 1 as [|x y xs ys E _ IH]; [done|]. cbn [map_each]. by rewrite (bind_done _ _ _ _ _ E), (bind_done _ _ _ _ _ IH).
Qed.

(** The children of a full node, one after the other. *)
Lemma each_child {A B} (run : Z -> node -> M TrieDB (list A)) (R : A -> B -> Prop) (es : nat -> tree -> list B) db cs ts : forall n,
  length cs = length ts ->
  (forall i c t, cs !! i = Some c -> ts !! i = Some t -> exists ys, run (Z.of_nat (n + i)) c db = Done ys db /\ Forall2 R ys (es (n + i)%nat t)) ->
  exists yss, map_each (fun p => run (fst p) (snd p)) (imap (fun i (c : node (V := V)) => (Z.of_nat (n + i), c)) cs) db = Done yss db /\
    Forall2 R (concat yss) (concat (imap (fun i => es (n + i)%nat) ts)).
Proof.
  revert ts. induction cs as [|c cs IH]; intros [|t ts] n Hl Hall; try done; [exists []; by split|].
  destruct (Hall 0%nat c t eq_refl eq_refl) as (ys & E & HR). injection Hl as Hl.
  destruct (IH ts (S n) Hl) as (yss & E' & HR').
  { intros i c' t' Hc Ht. replace (S n + i)%nat with (n + S i)%nat by lia. by apply Hall. }
  exists (ys :: yss). cbn [imap map_each concat]. unfold compose. cbn [fst snd]. rewrite (bind_done _ _ _ _ _ E).
  replace (imap (fun i (c0 : node) => (Z.of_nat (n + S i), c0)) cs) with (imap (fun i (c0 : node) => (Z.of_nat (S n + i), c0)) cs) by (apply imap_ext; intros; do 2 f_equal; lia).
  rewrite (bind_done _ _ _ _ _ E'). split; [done|]. apply Forall2_app; [done|].
  by replace (imap (fun i => es (n + S i)%nat) ts) with (imap (fun i => es (S n + i)%nat) ts) by (apply imap_ext; intros; f_equal; lia).
Qed.

Lemma for_each_node_done db fuel : forall pfx n t d,
  repr EncodeForTrie schema (fun x => x = db) pfx n t -> wf d t -> (length pfx + d = 65)%nat -> Forall nib pfx -> vals_ok schema t ->
  ((if is_hash n then 2 * d + 2 else 2 * d + 1) <= fuel)%nat ->
  exists calls, for_each_node schema true fuel n pfx db = Done calls db /\ Forall2 calls_entry calls (entries pfx t).
Proof.
  induction fuel as [|fuel IH]; intros pfx n t d Hr Hwf Hd Hpn Hok Hf; [destruct (is_hash n); lia|].
  apply wf_pos in Hwf as Hd1.
  destruct (is_hash n) eqn:Ehash.
  { destruct n as [|h| | |]; try done. assert (cached schema (fun x => x = db) pfx t h /\ (pfx = [] \/ is_full t)) as (Hc & Hfull) by (by inversion Hr).
    destruct (resolve_loaded EncodeForTrie schema Hmax (fun x => x = db) db d _ h t eq_refl Hc Hfull Hok Hwf ltac:(lia)) as [Er Hrl].
    cbn [for_each_node]. rewrite (bind_done _ _ _ _ _ Er). apply (IH pfx _ t d); [done..|]. rewrite loaded_root_not_hash. lia. }
  destruct t as [|k t|ts|s h]; [by apply wf_not_nil in Hwf| | |by apply wf_not_val in Hwf].
  - destruct (repr_short_inv _ _ _ _ _ _ _ Hr) as [(? & -> & _)|(val & ho & -> & Hval & _)]; [done|].
    cbn [for_each_node entries]. destruct (wf_not_full_val _ _ _ Hwf) as [(s & h & -> & Hk)|(ts & d' & -> & Hk & Hne & -> & Ht)].
    + assert (hexkey 65 (pfx ++ k)) as Hkey by (rewrite <- Hd; by apply hexkey_app).
      destruct (hexkey_65 _ Hkey) as (kb & Ekb & Hkb). pose proof (hex_to_keybytes_full kb Hkb) as Ek. rewrite <- Ekb in Ek.
      destruct (vals_schema _ _ _ _ Hok) as [Hs Eh].
      destruct (repr_val_inv _ _ _ _ _ _ _ Hval) as [val_n ->]; [by intros E; rewrite E in Hkey; inversion Hkey|].
      rewrite Ek, (bind_done _ _ _ kb db eq_refl).
      assert (exists v, (match val_n with None => resolve_val_n schema kb | Some _ => ret (NValue val_n) end) db = Done (NValue (Some v)) db /\ encode_value EncodeForTrie v = (s, h)) as (v & Ev & Eev).
      { inversion Hval as [| | | |? ? ? Hv|? ? ? Hv|]; subst.
        - pose proof (resolve_val_done (V := V) schema db _ s h (Hv db eq_refl) Hs Eh) as E. unfold resolve_val_n_by_hex_k in E. rewrite Ek in E.
          rewrite (bind_done _ _ _ kb db eq_refl) in E. by exists (internal_value s h).
        - by exists (internal_value s h).
        - eexists. split; [done|]. simpl. by destruct (EncodeForTrie v). }
      rewrite (bind_done _ _ _ _ _ Ev). eexists. split; [done|]. repeat constructor; [done|]. by exists v.
    + assert (forall v, val <> NValue v) as Hv by (eapply repr_not_value; [exact Hval|done]).
      assert (exists calls, for_each_node schema true fuel val (pfx ++ k) db = Done calls db /\ Forall2 calls_entry calls (entries (pfx ++ k) (TFull ts))) as (calls & E & HR).
      { destruct k as [|x k]; [done|]. apply (IH (pfx ++ x :: k) val (TFull ts) d'); [done..|rewrite length_app; lia|by apply Forall_app|by eapply vals_ok_short|].
        simpl in Hf. destruct (is_hash val); lia. }
      exists calls. split; [|done]. destruct val; try done. by destruct (Hv v).
  - destruct (repr_full_inv _ _ _ _ _ _ Hr) as [(? & -> & _)|(cs & ho & -> & Hl & Hall & _)]; [done|].
    apply wf_full_inv in Hwf as (d' & ? & ? & ti & ? & -> & Hlen & _ & _ & _ & Hti & _ & Hwfs). apply wf_pos in Hti.
    cbn [for_each_node]. rewrite entries_full.
    destruct (each_child (fun i c => match c with
        | NNil => ret []
        | NHash h => for_each_node schema true fuel (NHash h) (pfx ++ [i])
        | NShort k v ho => for_each_node schema true fuel (NShort k v ho) (pfx ++ [i])
        | NFull cs ho => for_each_node schema true fuel (NFull cs ho) (pfx ++ [i])
        | NValue v => for_each_node schema true fuel (NValue v) (pfx ++ [i])
        end) calls_entry
      (fun i t => entries (pfx ++ [Z.of_nat i]) t) db cs ts 0%nat Hl) as (yss & E & HR).
    { intros i c t Hc Ht. specialize (Hall i c t Hc Ht). simpl plus. apply lookup_lt_Some in Ht as Hlt. rewrite Hlen in Hlt. change full_node_child_cnt with 16%nat in Hlt.
      destruct (Hwfs i t Ht) as [->|Hwt].
      - rewrite (proj2 (repr_nil_iff _ _ _ _ _ _ Hall)) by done. exists []. by split.
      - destruct (IH (pfx ++ [Z.of_nat i]) c t d' Hall Hwt) as (ys & E & HR).
        { rewrite length_app. simpl. lia. }
        { apply Forall_app. split; [done|]. apply List.Forall_cons; [unfold nib; lia|apply List.Forall_nil]. }
        { by eapply vals_ok_full. }
        { destruct (is_hash c); lia. }
        exists ys. split; [|done]. destruct c; [|done..]. apply (repr_nil_iff _ _ _ _ _ _) in Hall as [Hn _]. rewrite Hn in Hwt by done. by apply wf_not_nil in Hwt. }
    simpl plus in E. rewrite (bind_done _ _ _ _ _ E). by exists (concat yss).
Qed.

(** ** The nodes of a trie: [ForEachNodeHash] *)
Lemma map_each_exists {St A B} (f : A -> M St B) (P : A -> B -> Prop) s xs :
  (forall x, x ∈ xs -> exists y, f x s = Done y s /\ P x y) -> exists ys, map_each f xs s = Done ys s /\ Forall2 P xs ys.
Proof.
  induction xs as [|x xs IH]; intros Hall; [by exists []|]. destruct (Hall x) as (y & E & HP); [left|].
  destruct IH as (ys & E' & HPs); [intros x' Hx; apply Hall; by right|]. exists (y :: ys). cbn [map_each].
  rewrite (bind_done _ _ _ _ _ E), (bind_done _ _ _ _ _ E'). split; [done|]. by constructor.
Qed.

(** The nodes below the root are in the database. *)
Definition nodes_in (db : TrieDB) (t : tree) : Prop := forall u, full_sub u t -> hashed u = true -> GetNode db (node_hash u) = Some (body schema u).

(** A call is a hash with what the database has under it. *)
Definition node_call (db : TrieDB) (c : bytes * bytes) : Prop := snd c = default [] (GetNode db (fst c)).

Lemma for_each_node_hash_done db fuel : forall pfx n t d,
  n = loaded (V := V) t \/ n = loaded_root t -> wf d t -> (length pfx + d = 65)%nat -> vals_ok schema t -> bare_in schema db pfx t -> nodes_in db t ->
  ((if is_hash n then 2 * d + 2 else 2 * d + 1) <= fuel)%nat ->
  exists calls, for_each_node_hash schema fuel n pfx db = Done calls db /\ Forall (node_call db) calls /\
    forall u, full_sub u t -> hashed u = true -> (u = t /\ is_hash n = false) \/ (node_hash u, body schema u) ∈ calls.
Proof.
  induction fuel as [|fuel IH]; intros pfx n t d Hn Hwf Hd Hok Hb Hin Hf; [destruct (is_hash n); lia|].
  apply wf_pos in Hwf as Hd1.
  destruct t as [|k t|ts|s h]; [by apply wf_not_nil in Hwf| | |by apply wf_not_val in Hwf].
  - destruct (wf_not_full_val _ _ _ Hwf) as [(s & h & -> & Hk)|(ts & d' & -> & Hk & Hne & -> & Ht)].
    + exists []. split_and!; [|constructor|intros u Hu; inversion Hu as [|? ? ? Hu'|]; inversion Hu'].
      destruct Hn as [-> | ->]; cbn [loaded loaded_root]; [|done]. by destruct (hashed _).
    + assert (exists ho, n = NShort k (loaded (TFull ts)) ho) as [ho ->] by (destruct Hn as [-> | ->]; by eexists).
      assert (forall v, loaded (V := V) (TFull ts) <> NValue v) as Hv by (intros v; simpl; by destruct (hashed _)).
      destruct (IH (pfx ++ k) (loaded (TFull ts)) (TFull ts) d') as (calls & E & Hc & Hall);
        [by left|done|rewrite length_app; lia|by eapply vals_ok_short|by apply bare_short|intros u Hu; apply Hin; by constructor| |].
      { destruct k as [|x k]; [done|]. simpl in Hf. destruct (is_hash _); lia. }
      exists calls. split_and!; [|done|].
      * cbn [for_each_node_hash]. destruct (loaded (TFull ts)) eqn:El; try done. by destruct (Hv v).
      * intros u Hu Hh. inversion Hu as [|? ? ? Hu'|]; subst. destruct (Hall u Hu' Hh) as [[-> Eh]|Hc']; [|by right].
        simpl in Eh. by rewrite Hh in Eh.
  - destruct (is_hash n) eqn:Ehash; rewrite ?Ehash in Hf.
    + destruct Hn as [-> | ->]; [|by rewrite loaded_root_not_hash in Ehash]. cbn [loaded] in *. destruct (hashed (TFull ts)) eqn:Eh; [|done].
      assert (GetNode db (node_hash (TFull ts)) = Some (body schema (TFull ts))) as Eg by (apply Hin; [constructor|done]).
      assert (resolve (V := V) schema (node_hash (TFull ts)) pfx db = Done (loaded_root (TFull ts)) db) as Er.
      { unfold resolve, get_st, bindM. rewrite Eg, (loaded_root_dec schema Hmax (TFull ts) d) by (done || unfold dec_fuel; lia). done. }
      destruct (IH pfx (loaded_root (TFull ts)) (TFull ts) d) as (calls & E & Hc & Hall); [by right|done..|rewrite loaded_root_not_hash; lia|].
      cbn [for_each_node_hash]. rewrite (bind_done get_st _ _ _ _ eq_refl), (bind_done _ _ _ _ _ Er), (bind_done _ _ _ _ _ E).
      eexists. split; [done|]. rewrite Eg. split; [constructor; [unfold node_call; simpl; by rewrite Eg|done]|].
      intros u Hu Hh. right. destruct (Hall u Hu Hh) as [[-> _]|Hc']; [left|by right].
    + assert (exists ho, n = NFull (map loaded ts) ho) as [ho ->] by (destruct Hn as [-> | ->]; [cbn [loaded] in *; destruct (hashed _); [done|]|]; by eexists).
      apply wf_full_inv in Hwf as (d' & ? & ? & ti & ? & -> & Hlen & _ & _ & _ & Hti & _ & Hwfs). apply wf_pos in Hti.
      cbn [for_each_node_hash].
      match goal with |- context [map_each ?f ?l] => destruct (map_each_exists f (fun p calls => Forall (node_call db) calls /\
        forall i u t, p = (Z.of_nat i, loaded t) -> ts !! i = Some t -> full_sub u t -> hashed u = true -> (node_hash u, body schema u) ∈ calls) db l) as (ys & E & HP) end.
      { intros p (i & c & -> & Hi)%elem_of_lookup_imap. rewrite list_lookup_fmap in Hi. apply fmap_Some in Hi as (t & Hi & ->). cbn [fst snd].
        destruct (Hwfs i t Hi) as [->|Hwt]; [exists []; split_and!; [done|constructor|]|].
        { intros j u t [= Ej _]. assert (i = j) as <- by lia. rewrite Hi. intros [= <-] Hu. inversion Hu. }
        destruct (IH (pfx ++ [Z.of_nat i]) (loaded t) t d') as (calls & E & Hc & Hall);
          [by left|done|rewrite length_app; simpl; lia|by eapply vals_ok_full|by eapply bare_full|intros u Hu; apply Hin; by econstructor|clear -Hf; destruct (is_hash (loaded t)); lia|].
        exists calls. split_and!; [|done|].
        - assert (loaded (V := V) t <> NNil) as Hnn.
          { destruct t as [|k t|ts'|s h]; [by apply wf_not_nil in Hwt| | |by apply wf_not_val in Hwt]; [|simpl; by destruct (hashed _)].
            destruct t; simpl; repeat case_match; done. }
          by destruct (loaded t).
        - intros j u t' [= Ej _] Hj Hu Hh. assert (i = j) as <- by lia. rewrite Hi in Hj. injection Hj as <-.
          destruct (Hall u Hu Hh) as [[-> Eh]|]; [|done]. apply full_sub_is_full in Hu as [ts2 ->]. simpl in Eh. by rewrite Hh in Eh. }
      rewrite (bind_done _ _ _ _ _ E). exists (concat ys). split_and!; [done| |].
      * apply Forall_concat. clear -HP. induction HP as [|? ? ? ? [? _]]; by constructor.
      * intros u Hu Hh. inversion Hu as [ts' | |u' ts' i t Hi Hu']; subst; [by left|]. right.
        apply list_elem_of_In, in_concat.
        assert (imap (fun i c => (Z.of_nat i, c)) (map (loaded (V := V)) ts) !! i = Some (Z.of_nat i, loaded t)) as Hl by (by rewrite list_lookup_imap, list_lookup_fmap, Hi).
        destruct (Forall2_lookup_l _ _ _ _ _ HP Hl) as (y & Hy & _ & Hall). exists y. split; apply list_elem_of_In; [by eapply list_elem_of_lookup_2|].
        by eapply Hall.
Qed.

(** The nodes of the trie of a root are in the database, and no leaf that is
    part of another node has a value too large for it. *)
Record nodes_held (get_node : bytes -> option bytes) (h : bytes) (T : tree) : Prop := mkNodesHeld {
  held_hash : h = node_hash T;
  held_wf : wf 65 T;
  held_vals : vals_ok schema T;
  held_nodes u : stored [] T u -> get_node (node_hash u) = Some (body schema u);
  held_leaves key k s hh : leaf_under key (TShort k (TVal s hh)) T -> hashed (TShort k (TVal s hh)) = false -> blen s <= MaxValueSizeToStoreInTrie schema;
}.

(** The iteration returns, and its calls are the nodes of the trie. *)
Lemma for_each_node_hash_root db h T fuel : nodes_held (GetNode db) h T -> (132 <= fuel)%nat ->
  exists calls, for_each_node_hash (V := V) schema fuel (NHash h) [] db = Done calls db /\ Forall (node_call db) calls /\
    forall u, stored [] T u -> (node_hash u, body schema u) ∈ calls.
Proof.
  intros [-> Hwf Hok Hn Hl] Hf. destruct fuel as [|fuel]; [lia|].
  assert (bare_in schema db [] T) as Hb by (intros key k s hh Hlu Hh Hlt; specialize (Hl key k s hh Hlu Hh); lia).
  assert (GetNode db (node_hash T) = Some (body schema T)) as Eg by (apply Hn; by left).
  assert (resolve (V := V) schema (node_hash T) [] db = Done (loaded_root T) db) as Er.
  { unfold resolve, get_st, bindM. rewrite Eg, (loaded_root_dec schema Hmax T 65) by (done || unfold dec_fuel; lia).
    destruct T as [|k []|ts|s' h']; (done || by apply wf_not_nil in Hwf) || by apply wf_not_val in Hwf. }
  destruct (for_each_node_hash_done db fuel [] (loaded_root T) T 65) as (calls & E & Hc & Hall);
    [by right|done..|intros u Hu Hh; apply Hn; by right|rewrite loaded_root_not_hash; lia|].
  cbn [for_each_node_hash]. rewrite (bind_done get_st _ _ _ _ eq_refl), (bind_done _ _ _ _ _ Er), (bind_done _ _ _ _ _ E), Eg.
  eexists. split; [done|]. split; [constructor; [unfold node_call; simpl; by rewrite Eg|done]|].
  intros u [[_ ->]|[Hu Hh]]; [left|]. destruct (Hall u Hu Hh) as [[-> _]|]; [left|by right].
Qed.

(** C27: [ForEach] from the root of a trie in the database calls its callback
    once for each key of the trie, with its value. *)
Theorem ForEach_contents db h T fuel : cached schema (fun x => x = db) [] T h -> wf 65 T -> vals_ok schema T -> (132 <= fuel)%nat ->
  exists calls, ForEach schema fuel h true db = Done calls db /\ NoDup (fst <$> calls) /\
    forall k s hh, length k = 32%nat ->
      (exists v, (k, Some v) ∈ calls /\ encode_value EncodeForTrie v = (s, hh)) <-> get T k = Some (s, hh).
Proof.
  intros Hc Hwf Hok Hf. assert (T <> TNil) as Hne by (intros ->; by apply wf_not_nil in Hwf).
  destruct (for_each_node_done db fuel [] (NHash h) T 65) as (calls & E & HR); [by constructor; [|..|left]|done|done|constructor|done|simpl; lia|].
  exists calls. split; [done|].
  assert (forall e, e ∈ entries [] T -> exists k, fst e = keybytes_to_hex k /\ length k = 32%nat /\ hex_to_keybytes (fst e) = Some k) as Hkeys.
  { intros [key v] (r & -> & Hl)%elem_of_entries. destruct (lookup_get T _ _ (or_intror Hwf) Hl) as (k & Hk & -> & _).
    exists k. simpl. by rewrite hex_to_keybytes_full. }
  split.
  - assert (fst <$> entries [] T = keybytes_to_hex <$> (fst <$> calls)) as Ek.
    { clear -HR Hkeys. induction HR as [|c e calls es [Hc _] HR IH]; [done|]. cbn [fmap list_fmap]. f_equal.
      - destruct (Hkeys e) as (k & E & _ & E'); [left|]. congruence.
      - apply IH. intros e' He'. apply Hkeys. by right. }
    apply (NoDup_fmap_1 keybytes_to_hex). rewrite <- Ek. apply entries_NoDup.
  - intros k s hh Hk. split.
    + intros (v & Hin & Ev). apply list_elem_of_lookup in Hin as [i Hi]. destruct (Forall2_lookup_l _ _ _ _ _ HR Hi) as ([key vv] & He & Hke & v' & [= <-] & Ev').
      simpl in *. apply list_elem_of_lookup_2 in He. destruct (Hkeys _ He) as (k' & Ek & Hk' & E'). simpl in Ek, E'. assert (k' = k) as -> by congruence.
      apply elem_of_entries in He as (r & Er & Hl). simpl in Er. unfold get. congruence.
    + intros Hg. assert ((keybytes_to_hex k, (s, hh)) ∈ entries [] T) as He by (apply elem_of_entries; by exists (keybytes_to_hex k)).
      apply list_elem_of_lookup in He as [i Hi]. destruct (Forall2_lookup_r _ _ _ _ _ HR Hi) as ([k' ov] & Hc' & Hke & v & Hv & Ev). simpl in *. subst ov.
      rewrite hex_to_keybytes_full in Hke by done. injection Hke as <-. exists v. split; [by eapply list_elem_of_lookup_2|done].
Qed.
End for_each.
