(* ===== verification/TrieBinding.v ===== *)
(** * The root hash binds the contents

    Two tries with the same root hash have the same contents, or a node of one
    and a node of the other have different encodings with the same Keccak-256
    hash. *)
From S2P Require Import Prelude Bytes Rlp RlpEncode RlpDecode RlpRoundtrip RlpRaw Crypto Trie TrieSpec TrieEnc TrieSim TrieProps.

(** ** Reading back *)
Lemma enc_string_inj s s' r r' : blen (enc_string s ++ r) < 2 ^ 63 -> enc_string s ++ r = enc_string s' ++ r' -> s = s' /\ r = r'.
Proof.
  intros Hl E. pose proof (SplitString_enc s r Hl) as E1. rewrite E in Hl, E1. rewrite (SplitString_enc s' r' Hl) in E1. by simplify_eq.
Qed.

Lemma enc_list_inj p p' : blen (enc_list p) < 2 ^ 63 -> enc_list p = enc_list p' -> p = p'.
Proof.
  intros Hl E. rewrite <- (app_nil_r (enc_list p)), <- (app_nil_r (enc_list p')) in E. rewrite <- (app_nil_r (enc_list p)) in Hl.
  pose proof (SplitList_enc p [] Hl) as E1. rewrite E in Hl, E1. rewrite (SplitList_enc p' [] Hl) in E1. by simplify_eq.
Qed.

Lemma string_not_list s p : blen (enc_list p) < 2 ^ 63 -> enc_string s <> enc_list p.
Proof.
  intros Hl E. rewrite <- (app_nil_r (enc_list p)) in Hl. pose proof (SplitList_enc p [] Hl) as E1.
  rewrite app_nil_r in Hl, E1. rewrite <- E in Hl, E1. rewrite <- (app_nil_r (enc_string s)) in Hl, E1.
  pose proof (SplitString_enc s [] Hl) as E2. unfold SplitString, SplitList in *. by destruct (Split _) as [|[[[] ?] ?]].
Qed.

(** A sequence of values is read in one way. *)
Lemma concat_items_inj es : forall es', Forall item es -> Forall item es' -> length es = length es' -> blen (concat es) < 2 ^ 63 ->
  concat es = concat es' -> es = es'.
Proof.
  induction es as [|e es IH]; intros [|e' es'] H1 H2 Hl Hb E; try done. cbn [concat] in *.
  apply Forall_cons in H1 as [[_ He] H1], H2 as [[_ He'] H2].
  destruct (He (concat es) Hb) as (k & t & E1). pose proof Hb as Hb'. rewrite E in Hb'. destruct (He' (concat es') Hb') as (k' & t' & E2).
  rewrite E, E2 in E1. simplify_eq. apply app_inj_1 in E as [-> E]; [|unfold blen in *; lia].
  f_equal. apply IH; [done|done|simpl in Hl; lia| |done]. rewrite blen_app in Hb. pose proof (blen_nonneg e'). lia.
Qed.

Section binding.
Context `{Crypto} {laws : CryptoLaws} (schema : Schema).

(** The nodes of a tree, the root with them. *)
Inductive node_of (u : tree) : tree -> Prop :=
| node_self : node_of u u
| node_short k t : node_of u t -> node_of u (TShort k t)
| node_full ts i t : ts !! i = Some t -> node_of u t -> node_of u (TFull ts).

(** A node of each tree with the same hash and different encodings. *)
Definition clash (T T' : tree) : Prop :=
  exists u u', node_of u T /\ node_of u' T' /\ enc_c u <> enc_c u' /\ node_hash u = node_hash u'.

Lemma clash_root T T' : enc_c T <> enc_c T' -> node_hash T = node_hash T' -> clash T T'.
Proof. intros. exists T, T'. by split_and!; [constructor|constructor|..]. Qed.

Lemma clash_short k k' t t' : clash t t' -> clash (TShort k t) (TShort k' t').
Proof. intros (u & u' & ? & ? & ? & ?). exists u, u'. by split_and!; [constructor|constructor|..]. Qed.

Lemma clash_full ts ts' i t t' : ts !! i = Some t -> ts' !! i = Some t' -> clash t t' -> clash (TFull ts) (TFull ts').
Proof. intros ? ? (u & u' & ? & ? & ? & ?). exists u, u'. by split_and!; [econstructor|econstructor|..]. Qed.

(** The same keys, with the same encodings for the hash. *)
Definition same_contents (t t' : tree) : Prop := forall key, snd <$> t_lookup key t = snd <$> t_lookup key t'.

Lemma ref_inj t t' : ref t = ref t' -> enc_c t = enc_c t' \/ clash t t'.
Proof.
  rewrite !ref_hashed. intros E. destruct (hashed t) eqn:Eh, (hashed t') eqn:Eh'.
  - unfold node_hash in E. rewrite <- (app_nil_r (enc_string (keccak256 (enc_c t)))), <- (app_nil_r (enc_string (keccak256 (enc_c t')))) in E.
    apply enc_string_inj in E as [E _]; [|rewrite app_nil_r, blen_enc_hash; lia].
    destruct (decide (enc_c t = enc_c t')) as [|Hne]; [by left|right; by apply clash_root].
  - apply hashed_false in Eh'. rewrite <- E in Eh'. unfold node_hash in Eh'. rewrite blen_enc_hash in Eh'. lia.
  - apply hashed_false in Eh. rewrite E in Eh. unfold node_hash in Eh. rewrite blen_enc_hash in Eh. lia.
  - by left.
Qed.

Lemma item_ref d t : wf0 d t -> item (ref t).
Proof.
  intros Hwf. rewrite ref_hashed. destruct (hashed t); [apply item_string|].
  destruct Hwf as [->|Hwf]; [apply (item_string [])|]. destruct t; [by apply wf_not_nil in Hwf|apply item_list..|by apply wf_not_val in Hwf].
Qed.

(** Encodings are short enough to be read. *)
Lemma blen_enc_c_bound d t : wf0 d t -> (d <= 65)%nat -> vals_ok schema t -> blen (enc_c t) < 2 ^ 32.
Proof.
  intros [->|Hwf] Hd Hok; [done|]. destruct t as [|k t|ts|s h]; [done| | |by apply wf_not_val in Hwf].
  - pose proof (blen_compact d k t Hd Hwf) as Hc. destruct (wf_not_full_val _ _ _ Hwf) as [(s & h & -> & _)|(ts & d' & -> & _)].
    + destruct (Hok k s h (lookup_leaf_self _ _ _)) as (_ & _ & Hh). simpl. pose proof (blen_enc_list_bounds (enc_string (compact k) ++ enc_string h)) as Hb.
      rewrite blen_app in Hb. pose proof (blen_enc_string_le h). lia.
    + rewrite enc_c_ext. pose proof (blen_enc_list_bounds (enc_string (compact k) ++ ref (TFull ts))) as Hb. rewrite blen_app in Hb.
      pose proof (blen_ref (TFull ts)). lia.
  - apply wf_full_inv in Hwf as (d' & ? & ? & ? & ? & -> & Hlen & _). rewrite enc_c_full.
    pose proof (blen_enc_list_bounds (concat (map ref ts) ++ enc_string [])) as Hb. rewrite blen_app in Hb. change (blen (enc_string [])) with 1 in Hb.
    pose proof (blen_concat_bounds ref ts 1 33 (fun x _ => blen_ref x)) as Hc. rewrite Hlen in Hc. change (Z.of_nat full_node_child_cnt) with 16 in Hc. lia.
Qed.

Lemma forall_or {A} (P : nat -> A -> Prop) (C : Prop) (l : list A) :
  (forall i x, l !! i = Some x -> P i x \/ C) -> (forall i x, l !! i = Some x -> P i x) \/ C.
Proof.
  revert P. induction l as [|x l IH]; intros P Hl; [left; done|].
  destruct (Hl 0%nat x eq_refl) as [H0|]; [|by right].
  destruct (IH (fun i => P (S i))) as [H1|]; [intros i y Hi; by apply (Hl (S i))| |by right].
  left. intros [|i] y Hi; [by injection Hi as <-|by apply H1].
Qed.

Lemma list_parts k k' x x' p p' :
  p = enc_string (compact k) ++ x -> p' = enc_string (compact k') ++ x' -> blen (enc_list p) < 2 ^ 32 -> path k -> path k' ->
  (length k <= 65)%nat -> (length k' <= 65)%nat -> enc_list p = enc_list p' -> k = k' /\ x = x' /\ blen p < 2 ^ 32.
Proof.
  intros -> -> Hb Hk Hk' Hl Hl' E. apply enc_list_inj in E; [|lia].
  match type of Hb with blen (enc_list ?p) < _ => pose proof (blen_enc_list_bounds p) end.
  apply enc_string_inj in E as [E ->]; [|lia].
  destruct (compact_spec k Hk Hl) as (_ & E1 & _), (compact_spec k' Hk' Hl') as (_ & E2 & _).
  split_and!; [congruence|done|lia].
Qed.

Lemma binding t : forall d t', wf0 d t -> wf0 d t' -> (d <= 65)%nat -> vals_ok schema t -> vals_ok schema t' ->
  enc_c t = enc_c t' -> same_contents t t' \/ clash t t'.
Proof.
  assert (forall d k t ts, wf d (TShort k t) -> wf d (TFull ts) -> (d <= 65)%nat -> vals_ok schema (TFull ts) -> enc_c (TShort k t) <> enc_c (TFull ts)) as Hsf.
  { intros d k t0 ts Hwf Hwf' Hd Hok E. pose proof (blen_enc_c_bound d _ (or_intror Hwf') Hd Hok) as Hb. pose proof Hb as Hb0. rewrite <- E in Hb0.
    rewrite enc_c_full in E, Hb. pose proof (blen_enc_list_bounds (concat (map ref ts) ++ enc_string [])).
    apply wf_full_inv in Hwf' as (d' & ? & ? & ? & ? & -> & Hlen & _ & _ & _ & _ & _ & Hall).
    assert (concat (map ref ts) ++ enc_string [] = concat (map ref ts ++ [enc_string []])) as Ec by (rewrite concat_app; f_equal).
    assert (CountValues (concat (map ref ts) ++ enc_string []) = inr 17) as E17.
    { rewrite Ec, CountValues_concat; [by rewrite length_app, length_map, Hlen| |rewrite <- Ec; lia].
      apply Forall_app. split; [|apply List.Forall_cons; [apply item_string|apply List.Forall_nil]].
      apply List.Forall_map, Forall_forall. intros u [i Hi]%list_elem_of_lookup. by eapply item_ref, Hall. }
    destruct (wf_not_full_val _ _ _ Hwf) as [(s & h & -> & _)|(ts' & d2 & -> & _ & _ & _ & Ht)]; cbn [enc_c] in E, Hb0; apply enc_list_inj in E; try lia; rewrite <- E in E17.
    - rewrite CountValues_2 in E17; [done|apply item_string|rewrite E; lia].
    - rewrite CountValues_2 in E17; [done| |rewrite E; lia]. change (item (ref (TFull ts'))). eapply item_ref. by right. }
  assert (forall d t, wf d t -> (d <= 65)%nat -> vals_ok schema t -> enc_c t <> enc_c TNil) as Hn.
  { intros d t0 Hwf Hd Hok E. pose proof (blen_enc_c_bound d _ (or_intror Hwf) Hd Hok) as Hb.
    destruct t0; [by apply wf_not_nil in Hwf| | |by apply wf_not_val in Hwf]; cbn [enc_c] in *; symmetry in E; (eapply string_not_list; [|exact E]); lia. }
  induction t as [|k t IH|ts IH|s h] using tree_ind'; intros d t' Hwf Hwf' Hd Hok Hok' E;
    [| | |by destruct Hwf as [|Hwf%wf_not_val]]; (destruct Hwf' as [->|Hwf']; [destruct Hwf as [|Hwf]; [try done; by left|by destruct (Hn d _ Hwf Hd Hok)]|]).
  - symmetry in E. by destruct (Hn d _ Hwf' Hd Hok').
  - destruct Hwf as [|Hwf]; [done|]. destruct t' as [|k' t'|ts'|]; [by apply wf_not_nil in Hwf'| | |by apply wf_not_val in Hwf'].
    2: { by destruct (Hsf d k t ts' Hwf Hwf' Hd Hok'). }
    pose proof (blen_enc_c_bound d _ (or_intror Hwf) Hd Hok) as Hb.
    destruct (wf_path _ _ _ Hwf) as [Hp Hl], (wf_path _ _ _ Hwf') as [Hp' Hl'].
    destruct (list_parts k k' _ _ _ _ eq_refl eq_refl Hb Hp Hp' ltac:(lia) ltac:(lia) E) as (<- & Ex & Hb').
    destruct (wf_not_full_val _ _ _ Hwf) as [(s & h & -> & Hk)|(ts & d' & -> & Hk & Hne & -> & Ht)];
      destruct (wf_not_full_val _ _ _ Hwf') as [(s' & h' & -> & Hk')|(ts' & d2 & -> & Hk' & _ & Ed & Ht')].
    + left. rewrite <- (app_nil_r (enc_string h)), <- (app_nil_r (enc_string h')) in Ex. rewrite blen_app in Hb'. pose proof (blen_nonneg (enc_string (compact k))).
      apply enc_string_inj in Ex as [-> _]; [|rewrite app_nil_r; lia]. intros key. rewrite !lookup_leaf. by case_decide.
    + apply hexkey_hasTerm in Hk. by rewrite hasTerm_nib in Hk.
    + apply hexkey_hasTerm in Hk'. by rewrite hasTerm_nib in Hk'.
    + assert (d2 = d') as -> by lia. change (ref (TFull ts) = ref (TFull ts')) in Ex.
      destruct (ref_inj _ _ Ex) as [Ec|]; [|right; by apply clash_short].
      destruct (IH d' (TFull ts') (or_intror Ht) (or_intror Ht') ltac:(lia) (vals_ok_short _ _ _ Hok) (vals_ok_short _ _ _ Hok') Ec) as [Hs|]; [|right; by apply clash_short].
      left. intros key. rewrite !t_lookup_short. by destruct (strip k key).
  - destruct Hwf as [|Hwf]; [done|]. destruct t' as [|k' t'|ts'|]; [by apply wf_not_nil in Hwf'| | |by apply wf_not_val in Hwf'].
    { symmetry in E. by destruct (Hsf d k' t' ts Hwf' Hwf Hd Hok). }
    pose proof (blen_enc_c_bound d _ (or_intror Hwf) Hd Hok) as Hb. rewrite !enc_c_full in *.
    pose proof (blen_enc_list_bounds (concat (map ref ts) ++ enc_string [])) as Hb'. rewrite blen_app in Hb'. change (blen (enc_string [])) with 1 in Hb'.
    apply enc_list_inj, app_inv_tail in E; [|lia].
    apply wf_full_inv in Hwf as (d' & ? & ? & ? & ? & -> & Hlen & _ & _ & _ & _ & _ & Hall).
    apply wf_full_inv in Hwf' as (d2 & ? & ? & ? & ? & [= <-] & Hlen' & _ & _ & _ & _ & _ & Hall').
    apply concat_items_inj in E; [| | |by rewrite !length_map, Hlen, Hlen'|lia].
    2: { apply List.Forall_map, Forall_forall. intros u [i Hi]%list_elem_of_lookup. by eapply item_ref, Hall. }
    2: { apply List.Forall_map, Forall_forall. intros u [i Hi]%list_elem_of_lookup. by eapply item_ref, Hall'. }
    assert (forall i u, ts !! i = Some u -> (exists u', ts' !! i = Some u' /\ same_contents u u') \/ clash (TFull ts) (TFull ts')) as Hor.
    { intros i u Hu. destruct (lookup_lt_is_Some_2 ts' i) as [u' Hu']; [rewrite Hlen', <- Hlen; by eapply lookup_lt_Some|].
      assert (ref u = ref u') as Er.
      { apply (f_equal (fun l => l !! i)) in E. change (map ref ts) with (ref <$> ts) in E. change (map ref ts') with (ref <$> ts') in E.
        rewrite !list_lookup_fmap, Hu, Hu' in E. by injection E. }
      destruct (ref_inj _ _ Er) as [Ec|]; [|right; by eapply clash_full]. rewrite Forall_forall in IH.
      destruct (IH u (list_elem_of_lookup_2 _ _ _ Hu) d' u') as [Hs|]; [by eapply Hall|by eapply Hall'|lia|by eapply vals_ok_full|by eapply vals_ok_full|done| |right; by eapply clash_full].
      left. eauto. }
    apply forall_or in Hor as [Hsame|]; [|by right]. left. intros [|y key]; [done|].
    destruct (decide (0 <= y)) as [Hx|Hx].
    + rewrite !t_lookup_full by done. destruct (ts !! Z.to_nat y) as [u|] eqn:Eu.
      * destruct (Hsame _ _ Eu) as (u' & -> & Hs). apply Hs.
      * apply lookup_ge_None in Eu. rewrite (proj2 (lookup_ge_None ts' _)); [done|]. by rewrite Hlen', <- Hlen.
    + assert (forall ts, t_lookup (y :: key) (TFull ts) = None) as Hneg; [|by rewrite !Hneg].
      intros ts0. destruct (t_lookup (y :: key) (TFull ts0)) eqn:El; [|done]. apply t_lookup_full_inv in El as [? _]. lia.
Qed.

(** The same root. *)
Lemma root_hash_binding T T' : wf0 65 T -> wf0 65 T' -> vals_ok schema T -> vals_ok schema T' -> root_hash T = root_hash T' ->
  same_contents T T' \/ clash T T'.
Proof.
  intros Hwf Hwf' Hok Hok' E.
  assert (T = TNil /\ T' = TNil \/ node_hash T = node_hash T') as [[-> ->]|Eh].
  { destruct T, T'; try done; [by left|..]; right; by injection E. }
  { by left. }
  destruct (decide (enc_c T = enc_c T')) as [Ec|Hne]; [|right; by apply clash_root].
  by apply (binding T 65 T').
Qed.
End binding.

(** C26: The root that a commit returns commits to the contents. Two writers,
    each over a database and with any contents, take any operations and
    commit: both commits return, and if they return the same root, then the
    two tries have the same keys with the same values (in the encoding that is
    hashed), or else a node of the one and a node of the other are exhibited
    that have different encodings and the same Keccak-256 hash. *)
Theorem root_binds_contents `{Crypto} `{!CryptoLaws} {V} (EncodeForTrie : V -> bytes * bytes) (schema : Schema)
    io w m os io' w' m' os' :
  MaxValueSizeToStoreInTrie schema < 32 ->
  keys_ok m -> Forall (op_ok EncodeForTrie schema) os -> represents EncodeForTrie schema io w (tree_of m) ->
  keys_ok m' -> Forall (op_ok EncodeForTrie schema) os' -> represents EncodeForTrie schema io' w' (tree_of m') ->
  let after := spec_ops EncodeForTrie m os in
  let after' := spec_ops EncodeForTrie m' os' in
  exists h w1 io1 h' w1' io1',
    (w ← run_ops schema os w; Writer_Commit EncodeForTrie schema w) io = Done (h, w1) io1 /\
    (w ← run_ops schema os' w'; Writer_Commit EncodeForTrie schema w) io' = Done (h', w1') io1' /\
    (h = h' -> (forall k, length k = 32%nat -> snd <$> after !! k = snd <$> after' !! k) \/ clash (tree_of after) (tree_of after')).
Proof.
  intros Hmax Hm Hos Hr Hm' Hos' Hr'. cbv zeta.
  destruct (run_ops_spec EncodeForTrie schema Hmax os io w m Hm Hos Hr) as (w1 & ws & E & Hk & Hr1).
  destruct (run_ops_spec EncodeForTrie schema Hmax os' io' w' m' Hm' Hos' Hr') as (w1' & ws' & E' & Hk' & Hr1').
  destruct (Commit_run EncodeForTrie schema Hmax _ _ _ Hr1) as (w2 & ws2 & E2 & _).
  destruct (Commit_run EncodeForTrie schema Hmax _ _ _ Hr1') as (w2' & ws2' & E2' & _).
  eexists _, w2, _, _, w2', _. rewrite (bind_done _ _ _ _ _ E), (bind_done _ _ _ _ _ E'). split_and!; [exact E2|exact E2'|].
  intros Eh. destruct Hr1 as (Hwf & Hok & _), Hr1' as (Hwf' & Hok' & _).
  destruct (root_hash_binding schema _ _ Hwf Hwf' Hok Hok' Eh) as [Hs|]; [|by right].
  left. intros k Hlen. destruct (tree_of_spec _ Hk) as [_ M], (tree_of_spec _ Hk') as [_ M'].
  rewrite <- (M k Hlen), <- (M' k Hlen). apply Hs.
Qed.

