(* ===== verification/ChainConfig.v ===== *)
(** * Chain configuration: [taraxa/state/chain_config/chain_config.go]

    The configuration records and the hardfork predicates the contracts
    branch on.  Go maps that are ranged over ([GenesisBalances], a genesis
    validator's [Delegations]) are association lists in iteration order. *)
From S2P Require Import Prelude Bytes.

Definition BlockNumberNIL : Z := 2 ^ 64 - 1.

Record Redelegation := mkRedelegation {
  rd_Validator : Address;
  rd_Delegator : Address;
  rd_Amount : Z;
}.

Record MagnoliaHfConfig := mkMagnoliaHf { magnolia_BlockNum : Z; JailTime : Z }.

Record AspenHfConfig := mkAspenHf {
  BlockNumPartOne : Z;
  BlockNumPartTwo : Z;
  MaxSupply : Z;
  GeneratedRewards : Z;
}.

Record FicusHfConfig := mkFicusHf {
  ficus_BlockNum : Z;
  PillarBlocksInterval : Z;
  BridgeContractAddress : Address;
}.

Record CornusHfConfig := mkCornusHf {
  cornus_BlockNum : Z;
  cornus_DelegationLockingPeriod : Z;
  DagGasLimit : Z;
  PbftGasLimit : Z;
}.

Record SoleiroliaHfConfig := mkSoleiroliaHf {
  soleirolia_BlockNum : Z;
  TrxMinGasPrice : Z;
  TrxMaxGasLimit : Z;
}.

Record HardforksConfig := mkHardforks {
  FixRedelegateBlockNum : Z;
  Redelegations : list Redelegation;
  RewardsDistributionFrequency : gmap Z Z;   (* block -> frequency *)
  MagnoliaHf : MagnoliaHfConfig;
  PhalaenopsisHfBlockNum : Z;
  FixClaimAllBlockNum : Z;
  AspenHf : AspenHfConfig;
  FicusHf : FicusHfConfig;
  CornusHf : CornusHfConfig;
  SoleiroliaHf : SoleiroliaHfConfig;
}.

Definition IsOnFixClaimAllHardfork (c : HardforksConfig) (block : Z) : bool :=
  FixClaimAllBlockNum c <=? block.
Definition IsOnPhalaenopsisHardfork (c : HardforksConfig) (block : Z) : bool :=
  PhalaenopsisHfBlockNum c <=? block.
Definition IsOnMagnoliaHardfork (c : HardforksConfig) (block : Z) : bool :=
  magnolia_BlockNum (MagnoliaHf c) <=? block.
Definition IsOnAspenHardforkPartOne (c : HardforksConfig) (block : Z) : bool :=
  BlockNumPartOne (AspenHf c) <=? block.
Definition IsOnAspenHardforkPartTwo (c : HardforksConfig) (block : Z) : bool :=
  BlockNumPartTwo (AspenHf c) <=? block.
Definition IsOnFicusHardfork (c : HardforksConfig) (block : Z) : bool :=
  ficus_BlockNum (FicusHf c) <=? block.
Definition IsOnCornusHardfork (c : HardforksConfig) (block : Z) : bool :=
  cornus_BlockNum (CornusHf c) <=? block.
Definition IsCornusHardfork (c : HardforksConfig) (block : Z) : bool :=
  block =? cornus_BlockNum (CornusHf c).

Definition isForked (fork_start block_num : Z) : bool :=
  if (fork_start =? BlockNumberNIL) || (block_num =? BlockNumberNIL) then false
  else fork_start <=? block_num.

(** [vm.Rules] and [HardforksConfig.Rules]. *)
Record Rules := mkRules {
  IsMagnolia : bool;
  IsAspenPartOne : bool;
  IsAspenPartTwo : bool;
  IsFicus : bool;
  IsCornus : bool;
}.

Definition HardforksConfig_Rules (c : HardforksConfig) (num : Z) : Rules := {|
  IsMagnolia := isForked (magnolia_BlockNum (MagnoliaHf c)) num;
  IsAspenPartOne := isForked (BlockNumPartOne (AspenHf c)) num;
  IsAspenPartTwo := isForked (BlockNumPartTwo (AspenHf c)) num;
  IsFicus := isForked (ficus_BlockNum (FicusHf c)) num;
  IsCornus := isForked (cornus_BlockNum (CornusHf c)) num;
|}.

Record GenesisValidator := mkGenesisValidator {
  gv_Address : Address;
  gv_Owner : Address;
  gv_VrfKey : bytes;
  gv_Commission : Z;
  gv_Endpoint : string;
  gv_Description : string;
  gv_Delegations : list (Address * Z);
}.

Record DPOSConfig := mkDPOSConfig {
  EligibilityBalanceThreshold : Z;
  VoteEligibilityBalanceStep : Z;
  ValidatorMaximumStake : Z;
  MinimumDeposit : Z;
  MaxBlockAuthorReward : Z;       (* uint16 *)
  DagProposersReward : Z;         (* uint16 *)
  CommissionChangeDelta : Z;      (* uint16 *)
  CommissionChangeFrequency : Z;  (* uint32, blocks *)
  DelegationDelay : Z;            (* uint32, blocks *)
  DelegationLockingPeriod : Z;    (* uint32, blocks *)
  BlocksPerYear : Z;              (* uint32 *)
  YieldPercentage : Z;            (* uint16 *)
  InitialValidators : list GenesisValidator;
}.

Record ChainConfig := mkChainConfig {
  GenesisBalances : list (Address * Z);
  DPOS : DPOSConfig;
  Hardforks : HardforksConfig;
}.

Definition RewardsEnabled (c : ChainConfig) : bool := 0 <? YieldPercentage (DPOS c).

Definition GenesisBalancesSum (c : ChainConfig) : Z :=
  foldl (fun sum e => sum + snd e) 0 (GenesisBalances c).
