(* ===== verification/Uint256.v ===== *)
(** * 256 bit words: the interface of [github.com/holiman/uint256]

    The package is not part of the repository.  The contracts use the
    operations below; [Uint256Laws] states the behaviour its documentation
    promises: arithmetic modulo 2^256, division by zero yields zero. *)
From S2P Require Import Prelude Bytes.

Class Uint256 : Type := {
  u_add : Z -> Z -> Z;
  u_sub : Z -> Z -> Z;
  u_mul : Z -> Z -> Z;
  u_div : Z -> Z -> Z;
  (** the word and whether the integer overflowed it *)
  u_FromBig : Z -> Z * bool;
  u_SetBytes : bytes -> Z;
  u_Bytes : Z -> bytes;
}.

Definition word (x : Z) : Prop := 0 <= x < 2 ^ 256.

Class Uint256Laws `{Uint256} : Prop := {
  u_add_spec x y : word x -> word y -> u_add x y = (x + y) mod 2 ^ 256;
  u_sub_spec x y : word x -> word y -> u_sub x y = (x - y) mod 2 ^ 256;
  u_mul_spec x y : word x -> word y -> u_mul x y = (x * y) mod 2 ^ 256;
  u_div_spec x y : word x -> word y -> u_div x y = if y =? 0 then 0 else x / y;
  u_FromBig_spec x : u_FromBig x = (x mod 2 ^ 256, negb ((0 <=? x) && (x <? 2 ^ 256)));
  u_SetBytes_Bytes x : word x -> u_SetBytes (u_Bytes x) = x;
  u_Bytes_nil x : word x -> u_Bytes x = [] <-> x = 0;
}.

(** A concrete instance, for evaluating the model on examples. *)
Module Ref.
Definition ops : Uint256 := {|
  u_add x y := (x + y) mod 2 ^ 256;
  u_sub x y := (x - y) mod 2 ^ 256;
  u_mul x y := (x * y) mod 2 ^ 256;
  u_div x y := if y =? 0 then 0 else x / y;
  u_FromBig x := (x mod 2 ^ 256, negb ((0 <=? x) && (x <? 2 ^ 256)));
  u_SetBytes := big_SetBytes;
  u_Bytes := big_Bytes;
|}.

Lemma laws : @Uint256Laws ops.
Proof.
  split; try done; simpl.
  - intros x [Hx _]. by apply big_roundtrip.
  - intros x [Hx _]. unfold big_Bytes, big_len. destruct (Z.eqb_spec x 0) as [->|Hne]; [done|].
    split; [|done]. intros E. apply (f_equal length) in E. rewrite length_uint_to_be in E. simpl in E.
    assert (0 <= Z.log2 (Z.abs x) / 8) by (apply Z.div_pos; [apply Z.log2_nonneg|lia]). lia.
Qed.
End Ref.

Section bounds.
Context `{Uint256Laws}.

Lemma u_add_small x y : word x -> word y -> x + y < 2 ^ 256 -> u_add x y = x + y.
Proof. unfold word. intros. rewrite u_add_spec by done. apply Z.mod_small. lia. Qed.

Lemma u_sub_small x y : word x -> word y -> y <= x -> u_sub x y = x - y.
Proof. unfold word. intros. rewrite u_sub_spec by done. apply Z.mod_small. lia. Qed.

Lemma u_mul_small x y : word x -> word y -> x * y < 2 ^ 256 -> u_mul x y = x * y.
Proof. unfold word. intros. rewrite u_mul_spec by done. apply Z.mod_small. nia. Qed.

Lemma u_div_nonzero x y : word x -> word y -> y <> 0 -> u_div x y = x / y.
Proof. intros. rewrite u_div_spec by done. by destruct (Z.eqb_spec y 0). Qed.

Lemma word_add x y : word x -> word y -> word (u_add x y).
Proof. intros. rewrite u_add_spec by done. apply Z.mod_pos_bound. lia. Qed.

Lemma word_sub x y : word x -> word y -> word (u_sub x y).
Proof. intros. rewrite u_sub_spec by done. apply Z.mod_pos_bound. lia. Qed.

Lemma word_mul x y : word x -> word y -> word (u_mul x y).
Proof. intros. rewrite u_mul_spec by done. apply Z.mod_pos_bound. lia. Qed.

Lemma word_div x y : word x -> word y -> word (u_div x y).
Proof.
  unfold word. intros. rewrite u_div_spec by done. destruct (Z.eqb_spec y 0); [lia|].
  split; [apply Z.div_pos; lia|]. apply Z.div_lt_upper_bound; nia.
Qed.

Lemma FromBig_small x : word x -> u_FromBig x = (x, false).
Proof.
  unfold word. intros. rewrite u_FromBig_spec, Z.mod_small by lia. f_equal.
  apply negb_false_iff, andb_true_intro. split; [apply Z.leb_le|apply Z.ltb_lt]; lia.
Qed.
End bounds.

Create HintDb word discriminated.
#[export] Hint Resolve word_add word_sub word_mul word_div : word.
