(* ===== verification/EvmWord.v ===== *)
(** * The machine words of the interpreter

    A word is a [uint256.Int] of the library of [Uint256.v], represented by its
    value; [EvmWords] adds the operations that only the interpreter uses, and
    [EvmWordsLaws] states what their documentation promises, as far as the
    development needs it: every result is a word again.  Comparisons, the
    zero test and the conversion to [uint64] are those of the value. *)
From S2P Require Import Prelude Bytes Uint256.

Class EvmWords : Type := {
  words_uint256 :: Uint256;
  u_SDiv : Z -> Z -> Z;
  u_Mod : Z -> Z -> Z;
  u_SMod : Z -> Z -> Z;
  u_Exp : Z -> Z -> Z;
  u_ExtendSign : Z -> Z -> Z;
  u_Not : Z -> Z;
  u_Slt : Z -> Z -> bool;
  u_Sgt : Z -> Z -> bool;
  u_Neg : Z -> bool;
  u_And : Z -> Z -> Z;
  u_Or : Z -> Z -> Z;
  u_Xor : Z -> Z -> Z;
  u_Byte : Z -> Z -> Z;
  u_AddMod : Z -> Z -> Z -> Z;
  u_MulMod : Z -> Z -> Z -> Z;
  u_Lsh : Z -> Z -> Z;
  u_Rsh : Z -> Z -> Z;
  u_SRsh : Z -> Z -> Z;
  u_BitLen : Z -> Z;
  u_Bytes32 : Z -> bytes;
}.

Class EvmWordsLaws `{EvmWords} : Prop := {
  words_laws :: Uint256Laws;
  word_SDiv x y : word x -> word y -> word (u_SDiv x y);
  word_Mod x y : word x -> word y -> word (u_Mod x y);
  word_SMod x y : word x -> word y -> word (u_SMod x y);
  word_Exp x y : word x -> word y -> word (u_Exp x y);
  word_ExtendSign x y : word x -> word y -> word (u_ExtendSign x y);
  word_Not x : word x -> word (u_Not x);
  word_And x y : word x -> word y -> word (u_And x y);
  word_Or x y : word x -> word y -> word (u_Or x y);
  word_Xor x y : word x -> word y -> word (u_Xor x y);
  word_Byte x y : word x -> word y -> word (u_Byte x y);
  word_AddMod x y z : word x -> word y -> word z -> word (u_AddMod x y z);
  word_MulMod x y z : word x -> word y -> word z -> word (u_MulMod x y z);
  word_Lsh x n : word x -> word (u_Lsh x n);
  word_Rsh x n : word x -> word (u_Rsh x n);
  word_SRsh x n : word x -> word (u_SRsh x n);
  (** [SetBytes] keeps the last 32 bytes *)
  word_SetBytes b : word (u_SetBytes b);
  u_BitLen_spec x : word x -> u_BitLen x = if x =? 0 then 0 else Z.log2 x + 1;
  length_Bytes32 x : length (u_Bytes32 x) = 32%nat;
}.

#[export] Hint Resolve word_SDiv word_Mod word_SMod word_Exp word_ExtendSign word_Not word_And word_Or word_Xor
  word_Byte word_AddMod word_MulMod word_Lsh word_Rsh word_SRsh word_SetBytes : word.

Lemma word_0 : word 0. Proof. split; lia. Qed.
Lemma word_1 : word 1. Proof. split; lia. Qed.
Lemma word_u64 x : word (u64 x). Proof. pose proof (u64_range x). split; lia. Qed.
Lemma word_mod x : word (x mod 2 ^ 256). Proof. apply Z.mod_pos_bound. lia. Qed.
#[export] Hint Resolve word_0 word_1 word_u64 word_mod : word.

(** [x.Uint64()], [x.Uint64WithOverflow()], [common.Address(x.Bytes20())]. *)
Definition w_Uint64 (x : Z) : Z := u64 x.
Definition w_overflow (x : Z) : bool := negb (x <? 2 ^ 64).
Definition w_Address `{EvmWords} (x : Z) : Address := BytesToAddress (u_Bytes32 x).

(** [int64(x.Uint64())]. *)
Definition int64 (x : Z) : Z := let x := u64 x in if x <? 2 ^ 63 then x else x - 2 ^ 64.

(** ** A concrete instance, for evaluating the interpreter on examples *)
Module RefWords.
Definition signed (x : Z) : Z := if x <? 2 ^ 255 then x else x - 2 ^ 256.
Definition wrap (x : Z) : Z := x mod 2 ^ 256.

Fixpoint powmod (x : Z) (p : positive) : Z :=
  match p with
  | xH => wrap x
  | xO q => let r := powmod x q in wrap (r * r)
  | xI q => let r := powmod x q in wrap (wrap (r * r) * x)
  end.

Definition ops : EvmWords := {|
  words_uint256 := {|
    u_add x y := wrap (x + y);
    u_sub x y := wrap (x - y);
    u_mul x y := wrap (x * y);
    u_div x y := if y =? 0 then 0 else x / y;
    u_FromBig x := (wrap x, negb ((0 <=? x) && (x <? 2 ^ 256)));
    u_SetBytes b := wrap (be_to_uint b);
    u_Bytes := big_Bytes;
  |};
  u_SDiv x y := if y =? 0 then 0 else wrap (Z.quot (signed x) (signed y));
  u_Mod x y := if y =? 0 then 0 else x mod y;
  u_SMod x y := if y =? 0 then 0 else wrap (Z.rem (signed x) (signed y));
  u_Exp x y := match y with Zpos p => powmod x p | _ => 1 end;
  u_ExtendSign x b :=
    if b <? 31 then
      let n := 8 * (b + 1) in
      let low := x mod 2 ^ n in wrap (if low <? 2 ^ (n - 1) then low else low - 2 ^ n)
    else wrap x;
  u_Not x := wrap (- 1 - x);
  u_Slt x y := signed x <? signed y;
  u_Sgt x y := signed y <? signed x;
  u_Neg x := signed x <? 0;
  u_And x y := wrap (Z.land x y);
  u_Or x y := wrap (Z.lor x y);
  u_Xor x y := wrap (Z.lxor x y);
  u_Byte x n := if n <? 32 then Z.shiftr x (8 * (31 - n)) mod 256 else 0;
  u_AddMod x y m := if m =? 0 then 0 else (x + y) mod m;
  u_MulMod x y m := if m =? 0 then 0 else (x * y) mod m;
  u_Lsh x n := wrap (Z.shiftl x n);
  u_Rsh x n := wrap (Z.shiftr x n);
  u_SRsh x n := wrap (Z.shiftr (signed x) n);
  u_BitLen x := if x =? 0 then 0 else Z.log2 x + 1;
  u_Bytes32 x := uint_to_be 32 x;
|}.

Lemma word_wrap x : word (wrap x).
Proof. apply Z.mod_pos_bound. lia. Qed.
#[local] Hint Resolve word_wrap : word.

Lemma mod_word x m : word m -> word (if m =? 0 then 0 else x mod m).
Proof.
  intros Hm. destruct (Z.eqb_spec m 0); [apply word_0|]. unfold word in *.
  pose proof (Z.mod_pos_bound x m). lia.
Qed.

Lemma ref_words_laws : @EvmWordsLaws ops.
Proof.
  split; simpl; try (intros; auto using mod_word with word; fail).
  - destruct Ref.laws as [Ha Hs Hm Hd Hf _ Hn]. split; simpl; try done.
    intros x Hx. unfold wrap. pose proof (big_roundtrip x ltac:(destruct Hx; done)) as E. unfold big_SetBytes in E.
    rewrite E. by apply Z.mod_small.
  - intros x y _ _. case_match; auto with word.
  - intros x y _ _. case_match; auto with word.
  - intros x y _ _. destruct y as [|p|]; [apply word_1| |apply word_1]. destruct p; apply word_wrap.
  - intros x y _ _. case_match; auto with word.
  - intros x y _ _. case_match; [|apply word_0]. unfold word.
    pose proof (Z.mod_pos_bound (Z.shiftr x (8 * (31 - y))) 256). lia.
Qed.
End RefWords.
