(* ===== verification/EvmBase.v ===== *)
(** * The data of the virtual machine: [core/vm/interface.go], [contract.go], [errors.go], [evm.go]

    [VmState] is the interface [State] and [StateAccount] of
    [core/vm/interface.go]: what the EVM asks of the state it runs on.  In the
    files of the interpreter a Go [error] is a value ([VmError]); the [Fail] of
    the monad is used for exhausted fuel only. *)
From S2P Require Import Prelude Bytes Crypto Uint256 EvmWord.

(** ** Errors *)
Inductive VmError :=
| ErrOutOfGas
| ErrIntrinsicGas
| ErrCodeStoreOutOfGas
| ErrDepth
| ErrInsufficientBalanceForTransfer
| ErrContractAddressCollision
| ErrInsufficientBalanceForGas
| ErrNonceTooLow
| ErrWriteProtection
| ErrReturnDataOutOfBounds
| ErrExecutionReverted
| ErrMaxCodeSizeExceeded
| errGasUintOverflow
(** the errors built with [fmt.Errorf] *)
| ErrInvalidOpCode (op : Z)
| ErrStackUnderflow (len required : Z)
| ErrStackLimit (len : Z)
| ErrInvalidJump (op dest : Z)
(** an error of a precompiled contract *)
| ErrOther (msg : string).

#[export] Instance VmError_eq_dec : EqDecision VmError.
Proof. solve_decision. Defined.

Definition out_of_fuel {St A} : M St A := throw "out of fuel".

(** ** The state *)
Record LogRecord := mkLogRecord {
  log_Address : Address;
  log_Topics : list bytes;
  log_Data : bytes;
}.

Class VmState (St : Type) : Type := {
  GetAccount : Address -> M St ();
  GetBalance : Address -> M St Z;
  GetNonce : Address -> M St Z;
  GetCodeHash : Address -> M St (option bytes);
  GetCode : Address -> M St bytes;
  GetCodeSize : Address -> M St Z;
  GetCommittedState : Address -> Z -> M St Z;
  GetState : Address -> Z -> M St Z;
  HasSuicided : Address -> M St bool;
  IsNIL : Address -> M St bool;
  IsEIP161Empty : Address -> M St bool;
  SetCode : Address -> bytes -> M St ();
  AddBalance : Address -> Z -> M St ();
  SubBalance : Address -> Z -> M St ();
  IncrementNonce : Address -> M St ();
  SetNonce : Address -> Z -> M St ();
  SetState : Address -> Z -> Z -> M St ();
  Suicide : Address -> Address -> M St ();
  AddLog : LogRecord -> M St ();
  GetLogs : M St (list LogRecord);
  AddRefund : Z -> M St ();
  SubRefund : Z -> M St ();
  GetRefund : M St Z;
  Snapshot : M St Z;
  RevertToSnapshot : Z -> M St ();
  GetTransientState : Address -> bytes -> M St bytes;
  SetTransientState : Address -> bytes -> bytes -> M St ();
}.

Definition BalanceGTE {St} `{VmState St} (acc : Address) (val : Z) : M St bool :=
  if val =? 0 then ret true else b ← GetBalance acc; ret (val <=? b).

(** ** Contracts *)
Record CallFrame := mkCallFrame {
  CallerAccount : Address;
  Account : Address;
  Input : bytes;
  Gas : Z;
  Value : Z;
}.

Record CodeAndHash := mkCode {
  Code : bytes;
  CodeHash : option bytes;
}.

(** The analysis is [None] until the first jump of code without a hash. *)
Record Contract := mkContract {
  frame : CallFrame;
  code : CodeAndHash;
  code_jumpdest_analysis : option (list Z);
}.

Definition NewContract (f : CallFrame) (c : CodeAndHash) : Contract := mkContract f c None.

(** [ContractRef]: an account, or the contract that is running. *)
Inductive ContractRef :=
| ContractAccWrapper (caller : Address)
| RunningContract (c : Contract).

Definition ref_Account (c : ContractRef) : Address :=
  match c with ContractAccWrapper a => a | RunningContract c => Account (frame c) end.

Definition GetOp (c : Contract) (n : Z) : Z :=
  if n <? Z.of_nat (length (Code (code c)))
  then Z_of_byte (default Byte.x00 (Code (code c) !! Z.to_nat n)) else 0.

Definition set_gas (g : Z) (c : Contract) : Contract :=
  let f := frame c in
  mkContract (mkCallFrame (CallerAccount f) (Account f) (Input f) g (Value f)) (code c) (code_jumpdest_analysis c).

Definition contract_gas (c : Contract) : Z := Gas (frame c).

(** [UseGas]: [None] when there is not enough. *)
Definition UseGas (gas : Z) (c : Contract) : option Contract :=
  if contract_gas c <? gas then None else Some (set_gas (contract_gas c - gas) c).

(** What a call returns: a slice of its own, or the slice of its input, which
    is a part of the memory of the contract that made the call. *)
Inductive ret_slice :=
| Fresh (b : bytes)
| TheInput.

Definition slice_bytes (input : bytes) (r : ret_slice) : bytes :=
  match r with Fresh b => b | TheInput => input end.

(** ** Transactions and blocks *)
Record BlockInfo := mkBlockInfo {
  Number : Z;
  Author : Address;
  GasLimit : Z;
  Time : Z;
  Difficulty : Z;
}.

Record Rules := mkRules {
  IsMagnolia : bool;
  IsAspenPartOne : bool;
  IsAspenPartTwo : bool;
  IsFicus : bool;
  IsCornus : bool;
}.

Record Transaction := mkTransaction {
  tx_From : Address;
  tx_GasPrice : Z;
  tx_To : option Address;
  tx_Nonce : Z;
  tx_Value : Z;
  tx_Gas : Z;
  tx_Input : bytes;
}.

Record ExecutionResult := mkExecutionResult {
  CodeRetval : bytes;
  NewContractAddr : Address;
  Logs : list LogRecord;
  GasUsed : Z;
  ExecutionErr : option VmError;
  ConsensusErr : option VmError;
}.

(** ** The gas table *)
Record GasTable := mkGasTable {
  ExtcodeSize : Z;
  ExtcodeCopy : Z;
  ExtcodeHash : Z;
  Balance : Z;
  SLoad : Z;
  Calls : Z;
  gt_Suicide : Z;
  ExpByte : Z;
  CreateBySuicide : Z;
  WarmStorageReadCost : Z;
}.

Definition GasTableCalifornicum : GasTable :=
  mkGasTable 700 700 700 700 800 700 5000 50 25000 100.

(** What is fixed while a transaction is executed; [get_hash] gives the hash
    of a block as a number. *)
Record TxEnv := mkTxEnv {
  get_hash : Z -> Z;
  block : BlockInfo;
  ChainId : Z;
  rules : Rules;
  gas_table : GasTable;
  trx : Transaction;
}.

(** ** Constants of [core/vm/constants.go] *)
Definition CallValueTransferGas := 9000.
Definition CallNewAccountGas := 25000.
Definition TxGas := 21000.
Definition TxGasContractCreation := 53000.
Definition TxDataZeroGas := 4.
Definition QuadCoeffDiv := 512.
Definition LogDataGas := 8.
Definition CallStipend := 2300.
Definition Keccak256WordGas := 6.
Definition NetSstoreNoopGas := 200.
Definition NetSstoreInitGas := 20000.
Definition NetSstoreCleanGas := 5000.
Definition NetSstoreDirtyGas := 200.
Definition NetSstoreClearRefund := 15000.
Definition NetSstoreResetRefund := 4800.
Definition NetSstoreResetClearRefund := 19800.
Definition JumpdestGas := 1.
Definition CreateDataGas := 200.
Definition CallCreateDepth := 1024.
Definition ExpGas := 10.
Definition LogGas := 375.
Definition CopyGas := 3.
Definition StackLimit := CallCreateDepth.
Definition LogTopicGas := 375.
Definition CreateGas := 32000.
Definition Create2Gas := 32000.
Definition SuicideRefundGas := 24000.
Definition MemoryGas := 3.
Definition TxDataNonZeroGas := 68.
Definition MaxCodeSize := 24576.

Definition GasQuickStep := 2.
Definition GasFastestStep := 3.
Definition GasFastStep := 5.
Definition GasMidStep := 8.
Definition GasSlowStep := 10.
Definition GasExtStep := 20.

(** ** Checked 64 bit arithmetic: [common/math/integer.go] *)
Definition MaxUint64 := 2 ^ 64 - 1.
Definition SafeAdd (x y : Z) : Z * bool := (u64 (x + y), MaxUint64 - x <? y).
Definition SafeMul (x y : Z) : Z * bool :=
  if (x =? 0) || (y =? 0) then (0, false) else (u64 (x * y), MaxUint64 / x <? y).

(** Go's pattern [if z, overflow = f(x, y); overflow { return err }]. *)
Definition checked (p : Z * bool) : VmError + Z := if snd p then inl errGasUintOverflow else inr (fst p).

(** ** [core/vm/common.go] *)
Definition RightPadBytes (slice : bytes) (l : nat) : bytes :=
  if (l <=? length slice)%nat then slice else slice ++ replicate (l - length slice) Byte.x00.

(** [None] where Go panics: the end has wrapped around below the start. *)
Definition getData (data : bytes) (start size : Z) : option bytes :=
  let length := Z.of_nat (length data) in
  let start := if length <? start then length else start in
  let e := u64 (start + size) in
  let e := if length <? e then length else e in
  if e <? start then None
  else Some (RightPadBytes (drop (Z.to_nat start) (take (Z.to_nat e) data)) (Z.to_nat (int64 size))).

Definition toWordSize (size : Z) : Z :=
  if MaxUint64 - 31 <? size then MaxUint64 / 32 + 1 else (size + 31) / 32.

Section calcMemSize.
Context `{EvmWords}.
Definition calcMemSize (off l : Z) : Z := if l =? 0 then 0 else u_add off l.
End calcMemSize.
