(* ===== verification/EvmMemory.v ===== *)
(** * Memory and stack: [core/vm/memory.go], [memory_table.go], [stack.go], [stack_table.go]

    The memory of a call is a slice: of the buffer all calls share, from the
    offset the calls around it have reserved, or, once it does not fit, of an
    array of its own.  [flat] is the abstract memory, the bytes of the slice. *)
From S2P Require Import Prelude Bytes Uint256 EvmWord EvmBase.
Local Open Scope Z_scope.

(** ** Memory *)
Record MemoryPool := mkPool {
  buf : bytes;
  reserved : Z;
}.

Definition MemoryPool_Init (capacity : nat) : MemoryPool := mkPool (replicate capacity Byte.x00) 0.

(** While the pool is used the slice is [pool.buf[pool_offset:pool_offset+pool_len]]. *)
Record Memory := mkMemory {
  pool_offset : Z;
  using_pool : bool;
  pool_len : Z;
  own_store : bytes;
  lastGasCost : Z;
}.

Definition Memory_Init (pool : MemoryPool) : Memory := mkMemory (reserved pool) true 0 [] 0.

Definition sub (b : bytes) (lo hi : Z) : bytes := drop (Z.to_nat lo) (take (Z.to_nat hi) b).

(** Replaces the bytes from [pos] on, as far as both sides reach. *)
Definition overwrite (b : bytes) (pos : Z) (data : bytes) : bytes :=
  let data := take (length b - Z.to_nat pos) data in
  take (Z.to_nat pos) b ++ data ++ drop (Z.to_nat pos + length data) b.

(** The bytes of the slice. *)
Definition flat (pool : MemoryPool) (m : Memory) : bytes :=
  if using_pool m then sub (buf pool) (pool_offset m) (pool_offset m + pool_len m) else own_store m.

Definition Len (m : Memory) : Z := if using_pool m then pool_len m else Z.of_nat (length (own_store m)).

(** The capacity of the slice: a slice of the pool reaches to its end, but
    the empty one it starts with is nil. *)
Definition Cap (pool : MemoryPool) (m : Memory) : Z :=
  if using_pool m then (if pool_len m =? 0 then 0 else Z.of_nat (length (buf pool)) - pool_offset m)
  else Z.of_nat (length (own_store m)).

Section memory.
Context {St : Type} `{Lens St MemoryPool} `{Lens St Memory}.

Definition set_pool (p : MemoryPool) : M St () := modify_st (lset p).
Definition set_mem (m : Memory) : M St () := modify_st (lset m).
Definition get_pool : M St MemoryPool := fun s => Done (lget s) s.
Definition get_mem : M St Memory := fun s => Done (lget s) s.

(** [m.store[lo:hi]]. *)
Definition mem_slice (lo hi : Z) : M St bytes :=
  pool ← get_pool; m ← get_mem;
  if (lo <? 0) || (hi <? lo) || (Cap pool m <? hi) then panic "slice bounds out of range"
  else ret (if using_pool m then sub (buf pool) (pool_offset m + lo) (pool_offset m + hi) else sub (own_store m) lo hi).

(** [copy(m.store[offset:], value)], for an offset and bytes inside. *)
Definition mem_write (offset : Z) (value : bytes) : M St () :=
  pool ← get_pool; m ← get_mem;
  if using_pool m then set_pool (mkPool (overwrite (buf pool) (pool_offset m + offset) value) (reserved pool))
  else set_mem (mkMemory (pool_offset m) false 0 (overwrite (own_store m) offset value) (lastGasCost m)).

Definition Set_ (offset size : Z) (value : bytes) : M St () :=
  if 0 <? size then
    m ← get_mem;
    if Len m <? u64 (offset + size) then panic "invalid memory: store empty"
    else if u64 (offset + size) <? offset then panic "slice bounds out of range"
    else mem_write offset (take (Z.to_nat size) value)
  else ret tt.

Definition Set32 `{EvmWords} (offset val : Z) : M St () :=
  m ← get_mem;
  if Len m <? u64 (offset + 32) then panic "invalid memory: store empty"
  else if u64 (offset + 32) <? offset then panic "slice bounds out of range"
  else mem_write offset (u_Bytes32 val).

(** [release]: the slice moves to new memory; a part of the pool is zeroed
    and given back. *)
Definition release (move_to : bytes) : M St () :=
  pool ← get_pool; m ← get_mem;
  let store := overwrite move_to 0 (flat pool m) in
  _ ← (if using_pool m then
         set_pool (mkPool (overwrite (buf pool) (pool_offset m) (replicate (Z.to_nat (pool_len m)) Byte.x00)) (pool_offset m))
       else ret tt);
  set_mem (mkMemory (pool_offset m) false 0 store (lastGasCost m)).

Definition Release : M St () := release [].

Definition Resize (size : Z) : M St () :=
  pool ← get_pool; m ← get_mem;
  if size <=? Len m then ret tt else
  let pool_reserved := pool_offset m + size in
  if using_pool m && (pool_reserved <=? Z.of_nat (length (buf pool))) then
    _ ← set_pool (mkPool (buf pool) pool_reserved);
    set_mem (mkMemory (pool_offset m) true size [] (lastGasCost m))
  else release (replicate (Z.to_nat size) Byte.x00).

(** [GetPtr] and [GetCopy], with the [int64]s their callers pass; the bytes are
    read before anything is written. *)
Definition GetPtr (offset size : Z) : M St bytes :=
  if size =? 0 then ret [] else
  m ← get_mem;
  if offset <? Len m then mem_slice offset (offset + size) else ret [].

Definition GetCopy (offset size : Z) : M St bytes :=
  if size =? 0 then ret [] else
  m ← get_mem;
  if offset <? Len m then
    if size <? 0 then panic "makeslice: len out of range" else mem_slice offset (offset + size)
  else ret [].

Definition Memory_Copy (dst src len : Z) : M St () :=
  if len =? 0 then ret tt else
  m ← get_mem;
  if Len m <? dst then panic "slice bounds out of range" else
  data ← mem_slice src (u64 (src + len));
  mem_write dst (take (Z.to_nat (Len m - dst)) data).

(** [memory.store[off] = b]. *)
Definition store_byte (off : Z) (b : Byte.byte) : M St () :=
  m ← get_mem;
  if off <? Len m then mem_write off [b] else panic "index out of range".
End memory.

(** ** The stack: the top is the head of the list *)
Section stack.
Context {St : Type} `{Lens St (list Z)}.

Definition get_stack : M St (list Z) := fun s => Done (lget s) s.
Definition set_stack (st : list Z) : M St () := modify_st (lset st).

Definition push (d : Z) : M St () := st ← get_stack; set_stack (d :: st).

Definition pop : M St Z :=
  st ← get_stack;
  match st with [] => panic "index out of range" | d :: st => _ ← set_stack st; ret d end.

Definition peek : M St Z :=
  st ← get_stack;
  match st with [] => panic "index out of range" | d :: _ => ret d end.

(** Writing through the pointer that [peek] returned. *)
Definition set_peek (d : Z) : M St () :=
  st ← get_stack;
  match st with [] => panic "index out of range" | _ :: st => set_stack (d :: st) end.

Definition swap (n : nat) : M St () :=
  st ← get_stack;
  match st, st !! (n - 1)%nat with
  | top :: _, Some x => set_stack (<[0%nat := x]> (<[(n - 1)%nat := top]> st))
  | _, _ => panic "index out of range"
  end.

Definition dup (n : nat) : M St () :=
  st ← get_stack;
  match st !! (n - 1)%nat with Some x => push x | None => panic "index out of range" end.

Definition Back (n : nat) : M St Z :=
  st ← get_stack;
  match st !! n with Some x => ret x | None => panic "index out of range" end.
End stack.

Definition require (st : list Z) (n : nat) : option VmError :=
  if (length st <? n)%nat then Some (ErrStackUnderflow (Z.of_nat (length st)) (Z.of_nat n)) else None.

Definition makeStackFunc (pop push : nat) (st : list Z) : option VmError :=
  match require st pop with
  | Some err => Some err
  | None =>
      if StackLimit <? Z.of_nat (length st) + Z.of_nat push - Z.of_nat pop
      then Some (ErrStackLimit (Z.of_nat (length st))) else None
  end.

Definition makeDupStackFunc (n : nat) : list Z -> option VmError := makeStackFunc n (n + 1).
Definition makeSwapStackFunc (n : nat) : list Z -> option VmError := makeStackFunc n n.

(** ** Memory sizes *)
Section sizes.
Context {St : Type} `{Lens St (list Z)} `{EvmWords}.

Definition bigMax (x y : Z) : Z := if x <? y then y else x.

Definition calc2 (off l : nat) : M St Z := x ← Back off; y ← Back l; ret (calcMemSize x y).

Definition memoryKeccak256 : M St Z := calc2 0 1.
Definition memoryCallDataCopy : M St Z := calc2 0 2.
Definition memoryReturnDataCopy : M St Z := calc2 0 2.
Definition memoryCodeCopy : M St Z := calc2 0 2.
Definition memoryExtCodeCopy : M St Z := calc2 1 3.
Definition memoryMLoad : M St Z := x ← Back 0; ret (calcMemSize x 32).
Definition memoryMStore8 : M St Z := x ← Back 0; ret (calcMemSize x 1).
Definition memoryMStore : M St Z := x ← Back 0; ret (calcMemSize x 32).
Definition memoryMcopy : M St Z :=
  dest ← Back 0; source ← Back 1;
  let mStart := if dest <? source then source else dest in
  len ← Back 2;
  let size := calcMemSize mStart len in
  ret (if w_overflow size then 0 else size).
Definition memoryCreate : M St Z := calc2 1 2.
Definition memoryCreate2 : M St Z := calc2 1 2.
Definition memoryCall : M St Z := x ← calc2 5 6; y ← calc2 3 4; ret (bigMax x y).
Definition memoryDelegateCall : M St Z := x ← calc2 4 5; y ← calc2 2 3; ret (bigMax x y).
Definition memoryStaticCall : M St Z := x ← calc2 4 5; y ← calc2 2 3; ret (bigMax x y).
Definition memoryReturn : M St Z := calc2 0 1.
Definition memoryRevert : M St Z := calc2 0 1.
Definition memoryLog : M St Z := calc2 0 1.
End sizes.
