(* ===== verification/EvmGas.v ===== *)
(** * The machine and what its operations cost: [core/vm/gas.go], [gas_table.go], [evm.go]

    A [Machine] is the state of one run of the interpreter: the EVM, the
    contract, the stack, the memory and the program counter.  A gas function
    computes the cost of an operation before it is executed; some of them
    change the refund counter, the memory's last gas cost or the gas
    reserved for a call. *)
From S2P Require Import Prelude Bytes Crypto Uint256 EvmWord EvmBase EvmMemory.
Local Open Scope Z_scope.

(** ** The EVM *)
Record EVM (St : Type) := mkEVM {
  evm_state : St;
  mem_pool : MemoryPool;
  jumpdests : option (gmap bytes (list Z));
  call_gas_tmp : Z;
  read_only : bool;
  last_retval : bytes;
  depth : Z;
}.
Arguments mkEVM {St} _ _ _ _ _ _ _.
Arguments evm_state {St} _.
Arguments mem_pool {St} _.
Arguments jumpdests {St} _.
Arguments call_gas_tmp {St} _.
Arguments read_only {St} _.
Arguments last_retval {St} _.
Arguments depth {St} _.

Record Machine (St : Type) := mkMachine {
  m_evm : EVM St;
  m_contract : Contract;
  m_stack : list Z;
  m_mem : Memory;
  m_pc : Z;
}.
Arguments mkMachine {St} _ _ _ _ _.
Arguments m_evm {St} _.
Arguments m_contract {St} _.
Arguments m_stack {St} _.
Arguments m_mem {St} _.
Arguments m_pc {St} _.

Section setters.
Context {St : Type}.
Definition set_state (x : St) (e : EVM St) := mkEVM x (mem_pool e) (jumpdests e) (call_gas_tmp e) (read_only e) (last_retval e) (depth e).
Definition set_mem_pool x (e : EVM St) := mkEVM (evm_state e) x (jumpdests e) (call_gas_tmp e) (read_only e) (last_retval e) (depth e).
Definition set_jumpdests x (e : EVM St) := mkEVM (evm_state e) (mem_pool e) x (call_gas_tmp e) (read_only e) (last_retval e) (depth e).
Definition set_call_gas_tmp x (e : EVM St) := mkEVM (evm_state e) (mem_pool e) (jumpdests e) x (read_only e) (last_retval e) (depth e).
Definition set_read_only x (e : EVM St) := mkEVM (evm_state e) (mem_pool e) (jumpdests e) (call_gas_tmp e) x (last_retval e) (depth e).
Definition set_last_retval x (e : EVM St) := mkEVM (evm_state e) (mem_pool e) (jumpdests e) (call_gas_tmp e) (read_only e) x (depth e).
Definition set_depth x (e : EVM St) := mkEVM (evm_state e) (mem_pool e) (jumpdests e) (call_gas_tmp e) (read_only e) (last_retval e) x.
Definition set_evm (x : EVM St) (m : Machine St) := mkMachine x (m_contract m) (m_stack m) (m_mem m) (m_pc m).
Definition set_contract x (m : Machine St) := mkMachine (m_evm m) x (m_stack m) (m_mem m) (m_pc m).
Definition set_m_stack x (m : Machine St) := mkMachine (m_evm m) (m_contract m) x (m_mem m) (m_pc m).
Definition set_m_mem x (m : Machine St) := mkMachine (m_evm m) (m_contract m) (m_stack m) x (m_pc m).
Definition set_pc x (m : Machine St) := mkMachine (m_evm m) (m_contract m) (m_stack m) (m_mem m) x.
End setters.

#[export] Instance EVM_state_lens {St} : Lens (EVM St) St := {| lget := evm_state; lset := set_state |}.
#[export] Instance Machine_evm_lens {St} : Lens (Machine St) (EVM St) := {| lget := m_evm; lset := set_evm |}.
#[export] Instance Machine_stack_lens {St} : Lens (Machine St) (list Z) := {| lget := m_stack; lset := set_m_stack |}.
#[export] Instance Machine_mem_lens {St} : Lens (Machine St) Memory := {| lget := m_mem; lset := set_m_mem |}.
#[export] Instance Machine_pool_lens {St} : Lens (Machine St) MemoryPool :=
  {| lget m := mem_pool (m_evm m); lset p m := set_evm (set_mem_pool p (m_evm m)) m |}.

(** ** Gas *)
(** [IntrinsicGas]. *)
Definition IntrinsicGas (data : bytes) (contractCreation : bool) : VmError + Z :=
  let gas := if contractCreation then TxGasContractCreation else TxGas in
  if 0 <? Z.of_nat (length data) then
    let nz := Z.of_nat (length (filter (fun b => b <> Byte.x00) data)) in
    if (MaxUint64 - gas) / TxDataNonZeroGas <? nz then inl ErrOutOfGas else
    let gas := u64 (gas + u64 (nz * TxDataNonZeroGas)) in
    let z := Z.of_nat (length data) - nz in
    if (MaxUint64 - gas) / TxDataZeroGas <? z then inl ErrOutOfGas else
    inr (u64 (gas + u64 (z * TxDataZeroGas)))
  else inr gas.

(** [callGas]: all but one 64th, or less if less is asked for. *)
Definition callGas `{EvmWords} (gasTable : GasTable) (availableGas base callCost : Z) : VmError + Z :=
  if 0 <? CreateBySuicide gasTable then
    let availableGas := u64 (availableGas - base) in
    let gas := availableGas - availableGas / 64 in
    if (64 <? u_BitLen callCost) || (gas <? w_Uint64 callCost) then inr gas
    else inr (w_Uint64 callCost)
  else if 64 <? u_BitLen callCost then inl errGasUintOverflow else inr (w_Uint64 callCost).

Section gas.
Context {St : Type} `{VmState St} `{EvmWords} `{Crypto}.
Context (env : TxEnv).
Abbreviation X := (M (Machine St)).
Abbreviation gas_result := (VmError + Z)%type.

(** The operations of the state, run inside the machine. *)
Definition st {A} (m : M St A) : X A := zoom (St := Machine St) (K := EVM St) (zoom m).

(** Go's error checks: the rest is skipped after an error. *)
Definition andthen {A B} (m : X (VmError + A)) (f : A -> X (VmError + B)) : X (VmError + B) :=
  r ← m; match r with inl err => ret (inl err) | inr a => f a end.

Definition get_contract : X Contract := fun s => Done (m_contract s) s.
Definition get_account (addr_as_u256 : Z) : X Address :=
  let a := w_Address addr_as_u256 in _ ← st (GetAccount a); ret a.

Definition memoryGasCost (newMemSize : Z) : X gas_result :=
  if newMemSize =? 0 then ret (inr 0)
  else if 0xffffffffe0 <? newMemSize then ret (inl errGasUintOverflow)
  else
    mem ← get_mem;
    let newMemSizeWords := toWordSize newMemSize in
    let newMemSize := u64 (newMemSizeWords * 32) in
    if Len mem <? newMemSize then
      let square := u64 (newMemSizeWords * newMemSizeWords) in
      let linCoef := u64 (newMemSizeWords * MemoryGas) in
      let quadCoef := square / QuadCoeffDiv in
      let newTotalFee := u64 (linCoef + quadCoef) in
      let fee := u64 (newTotalFee - lastGasCost mem) in
      _ ← set_mem (mkMemory (pool_offset mem) (using_pool mem) (pool_len mem) (own_store mem) newTotalFee);
      ret (inr fee)
    else ret (inr 0).

Definition safe_add (x y : Z) : X gas_result := ret (checked (SafeAdd x y)).
Definition safe_mul (x y : Z) : X gas_result := ret (checked (SafeMul x y)).
Definition to_uint64 (x : Z) : X gas_result := ret (if w_overflow x then inl errGasUintOverflow else inr (w_Uint64 x)).

Definition constGasFunc (gas : Z) (memorySize : Z) : X gas_result := ret (inr gas).

(** The cost of the words at a stack position, added to [gas]. *)
Definition add_words (gas : Z) (stackpos : nat) (per_word : Z) : X gas_result :=
  x ← Back stackpos;
  andthen (to_uint64 x) (fun wordGas =>
  andthen (safe_mul (toWordSize wordGas) per_word) (fun wordGas =>
  safe_add gas wordGas)).

Definition memoryCopierGas (stackpos : nat) (staticGas memorySize : Z) : X gas_result :=
  andthen (memoryGasCost memorySize) (fun gas =>
  andthen (safe_add gas staticGas) (fun gas =>
  add_words gas stackpos CopyGas)).

Definition gasCallDataCopy := memoryCopierGas 2 GasFastestStep.
Definition gasCodeCopy := memoryCopierGas 2 GasFastestStep.
Definition gasMcopy := memoryCopierGas 2 GasFastestStep.
Definition gasReturnDataCopy := memoryCopierGas 2 GasFastestStep.

Definition gasSStore (memorySize : Z) : X gas_result :=
  y ← Back 1; x ← Back 0;
  c ← get_contract;
  let acc := Account (frame c) in
  current ← st (GetState acc x);
  if current =? y then ret (inr NetSstoreNoopGas) else
  original ← st (GetCommittedState acc x);
  if original =? current then
    if original =? 0 then ret (inr NetSstoreInitGas) else
    _ ← when (y =? 0) (st (AddRefund NetSstoreClearRefund));
    ret (inr NetSstoreCleanGas)
  else
    _ ← (if negb (original =? 0) then
           if current =? 0 then st (SubRefund NetSstoreClearRefund)
           else when (y =? 0) (st (AddRefund NetSstoreClearRefund))
         else ret tt);
    _ ← (if original =? y then
           if original =? 0 then st (AddRefund NetSstoreResetClearRefund)
           else st (AddRefund NetSstoreResetRefund)
         else ret tt);
    ret (inr NetSstoreDirtyGas).

Definition makeGasLog (n : Z) (memorySize : Z) : X gas_result :=
  x ← Back 1;
  andthen (to_uint64 x) (fun requestedSize =>
  andthen (memoryGasCost memorySize) (fun gas =>
  andthen (safe_add gas LogGas) (fun gas =>
  andthen (safe_add gas (u64 (n * LogTopicGas))) (fun gas =>
  andthen (safe_mul requestedSize LogDataGas) (fun memorySizeGas =>
  safe_add gas memorySizeGas))))).

Definition gasKeccak256 (memorySize : Z) : X gas_result :=
  andthen (memoryGasCost memorySize) (fun gas =>
  andthen (safe_add gas Keccak256WordGas) (fun gas =>
  add_words gas 1 Keccak256WordGas)).

Definition gasExtCodeCopy (memorySize : Z) : X gas_result :=
  andthen (memoryGasCost memorySize) (fun gas =>
  andthen (safe_add gas (ExtcodeCopy (gas_table env))) (fun gas =>
  add_words gas 3 CopyGas)).

Definition gasExtCodeHash (memorySize : Z) : X gas_result := ret (inr (ExtcodeHash (gas_table env))).

Definition memory_step (memorySize : Z) : X gas_result :=
  r ← memoryGasCost memorySize;
  match r with inl _ => ret (inl errGasUintOverflow) | inr gas => safe_add gas GasFastestStep end.
Definition gasMLoad := memory_step.
Definition gasMStore8 := memory_step.
Definition gasMStore := memory_step.

Definition gasCreate (memorySize : Z) : X gas_result :=
  andthen (memoryGasCost memorySize) (fun gas => safe_add gas CreateGas).

Definition gasCreate2 (memorySize : Z) : X gas_result :=
  andthen (memoryGasCost memorySize) (fun gas =>
  andthen (safe_add gas Create2Gas) (fun gas =>
  add_words gas 2 Keccak256WordGas)).

Definition gasBalance (memorySize : Z) : X gas_result := ret (inr (Balance (gas_table env))).
Definition gasExtCodeSize (memorySize : Z) : X gas_result := ret (inr (ExtcodeSize (gas_table env))).
Definition gasSLoad (memorySize : Z) : X gas_result := ret (inr (SLoad (gas_table env))).
Definition gasTLoad (memorySize : Z) : X gas_result := ret (inr (WarmStorageReadCost (gas_table env))).

Definition gasExp (memorySize : Z) : X gas_result :=
  x ← Back 1;
  let expByteLen := (u_BitLen x + 7) / 8 in
  safe_add (u64 (expByteLen * ExpByte (gas_table env))) ExpGas.

(** The gas a call may use is added to what it costs. *)
Definition reserve_call_gas (gas : Z) : X gas_result :=
  c ← get_contract;
  callCost ← Back 0;
  match callGas (gas_table env) (contract_gas c) gas callCost with
  | inl err => _ ← modify_st (fun s => set_evm (set_call_gas_tmp 0 (m_evm s)) s); ret (inl err)
  | inr tmp =>
      _ ← modify_st (fun s => set_evm (set_call_gas_tmp tmp (m_evm s)) s);
      safe_add gas tmp
  end.

Definition gasCall (memorySize : Z) : X gas_result :=
  value ← Back 2;
  let transfersValue := negb (value =? 0) in
  addr ← Back 1;
  acc ← get_account addr;
  empty ← (if transfersValue then st (IsEIP161Empty acc) else ret false);
  let gas := Calls (gas_table env) in
  let gas := if empty : bool then u64 (gas + CallNewAccountGas) else gas in
  let gas := if transfersValue then u64 (gas + CallValueTransferGas) else gas in
  andthen (memoryGasCost memorySize) (fun memoryGas =>
  andthen (safe_add gas memoryGas) reserve_call_gas).

Definition gasCallCode (memorySize : Z) : X gas_result :=
  value ← Back 2;
  let gas := Calls (gas_table env) in
  let gas := if negb (value =? 0) then u64 (gas + CallValueTransferGas) else gas in
  andthen (memoryGasCost memorySize) (fun memoryGas =>
  andthen (safe_add gas memoryGas) reserve_call_gas).

Definition gasReturn (memorySize : Z) : X gas_result := memoryGasCost memorySize.
Definition gasRevert (memorySize : Z) : X gas_result := memoryGasCost memorySize.

Definition gasSuicide (memorySize : Z) : X gas_result :=
  x ← Back 0;
  new_acc ← get_account x;
  c ← get_contract;
  let acc := Account (frame c) in
  empty ← st (IsEIP161Empty new_acc);
  pays ← (if empty : bool then b ← st (GetBalance acc); ret (negb (b =? 0)) else ret false);
  let gas := gt_Suicide (gas_table env) in
  let gas := if pays : bool then u64 (gas + CreateBySuicide (gas_table env)) else gas in
  suicided ← st (HasSuicided acc);
  _ ← when (negb suicided) (st (AddRefund SuicideRefundGas));
  ret (inr gas).

Definition gasDelegateCall (memorySize : Z) : X gas_result :=
  andthen (memoryGasCost memorySize) (fun gas =>
  andthen (safe_add gas (Calls (gas_table env))) reserve_call_gas).

Definition gasStaticCall (memorySize : Z) : X gas_result :=
  andthen (memoryGasCost memorySize) (fun gas =>
  andthen (safe_add gas (Calls (gas_table env))) reserve_call_gas).

Definition gasPush (memorySize : Z) : X gas_result := ret (inr GasFastestStep).
Definition gasSwap (memorySize : Z) : X gas_result := ret (inr GasFastestStep).
Definition gasDup (memorySize : Z) : X gas_result := ret (inr GasFastestStep).
End gas.
