(* ===== verification/EvmInstr.v ===== *)
(** * Instructions: [core/vm/instructions.go], [analysis.go], [eips.go], [opcodes.go]

    One definition per [op] function.  The calls of other contracts are the
    parameters [vm_call] and [vm_create]; [EvmRun.v] ties the knot. *)
From S2P Require Import Prelude Bytes Crypto Uint256 EvmWord EvmBase EvmMemory EvmGas.
Local Open Scope Z_scope.

(** ** Opcodes *)
Definition STOP : Z := 0x0.
Definition ADD : Z := 0x1.
Definition MUL : Z := 0x2.
Definition SUB : Z := 0x3.
Definition DIV : Z := 0x4.
Definition SDIV : Z := 0x5.
Definition MOD : Z := 0x6.
Definition SMOD : Z := 0x7.
Definition ADDMOD : Z := 0x8.
Definition MULMOD : Z := 0x9.
Definition EXP : Z := 0xa.
Definition SIGNEXTEND : Z := 0xb.
Definition LT : Z := 0x10.
Definition GT : Z := 0x11.
Definition SLT : Z := 0x12.
Definition SGT : Z := 0x13.
Definition EQ : Z := 0x14.
Definition ISZERO : Z := 0x15.
Definition AND : Z := 0x16.
Definition OR : Z := 0x17.
Definition XOR : Z := 0x18.
Definition NOT : Z := 0x19.
Definition BYTE : Z := 0x1a.
Definition SHL : Z := 0x1b.
Definition SHR : Z := 0x1c.
Definition SAR : Z := 0x1d.
Definition KECCAK256 : Z := 0x20.
Definition ADDRESS : Z := 0x30.
Definition BALANCE : Z := 0x31.
Definition ORIGIN : Z := 0x32.
Definition CALLER : Z := 0x33.
Definition CALLVALUE : Z := 0x34.
Definition CALLDATALOAD : Z := 0x35.
Definition CALLDATASIZE : Z := 0x36.
Definition CALLDATACOPY : Z := 0x37.
Definition CODESIZE : Z := 0x38.
Definition CODECOPY : Z := 0x39.
Definition GASPRICE : Z := 0x3a.
Definition EXTCODESIZE : Z := 0x3b.
Definition EXTCODECOPY : Z := 0x3c.
Definition RETURNDATASIZE : Z := 0x3d.
Definition RETURNDATACOPY : Z := 0x3e.
Definition EXTCODEHASH : Z := 0x3f.
Definition BLOCKHASH : Z := 0x40.
Definition COINBASE : Z := 0x41.
Definition TIMESTAMP : Z := 0x42.
Definition NUMBER : Z := 0x43.
Definition DIFFICULTY : Z := 0x44.
Definition GASLIMIT : Z := 0x45.
Definition CHAINID : Z := 0x46.
Definition SELFBALANCE : Z := 0x47.
Definition POP : Z := 0x50.
Definition MLOAD : Z := 0x51.
Definition MSTORE : Z := 0x52.
Definition MSTORE8 : Z := 0x53.
Definition SLOAD : Z := 0x54.
Definition SSTORE : Z := 0x55.
Definition JUMP : Z := 0x56.
Definition JUMPI : Z := 0x57.
Definition PC : Z := 0x58.
Definition MSIZE : Z := 0x59.
Definition GAS : Z := 0x5a.
Definition JUMPDEST : Z := 0x5b.
Definition MCOPY : Z := 0x5e.
Definition PUSH0 : Z := 0x5f.
Definition PUSH1 : Z := 0x60.
Definition LOG0 : Z := 0xa0.
Definition TLOAD : Z := 0xb3.
Definition TSTORE : Z := 0xb4.
Definition CREATE : Z := 0xf0.
Definition CALL : Z := 0xf1.
Definition CALLCODE : Z := 0xf2.
Definition RETURN : Z := 0xf3.
Definition DELEGATECALL : Z := 0xf4.
Definition CREATE2 : Z := 0xf5.
Definition STATICCALL : Z := 0xfa.
Definition REVERT : Z := 0xfd.
Definition INVALID : Z := 0xfe.
Definition SELFDESTRUCT : Z := 0xff.
Definition DUP1 : Z := 0x80.
Definition SWAP1 : Z := 0x90.
(** ** Which bytes of the code are data: [analysis.go] *)
Abbreviation bitvec := (list Z).

(** [None] where Go panics with an index out of range. *)
Definition bits_or (i : nat) (v : Z) (bits : bitvec) : option bitvec :=
  match bits !! i with Some b => Some (<[i := Z.lor b v]> bits) | None => None end.

Definition bits_set (pos : nat) (bits : bitvec) : option bitvec :=
  bits_or (pos / 8) (Z.shiftr 0x80 (Z.of_nat (pos mod 8))) bits.

Definition bits_set8 (pos : nat) (bits : bitvec) : option bitvec :=
  bits_or (pos / 8) (Z.shiftr 0xFF (Z.of_nat (pos mod 8))) bits ≫=
  bits_or (pos / 8 + 1) (0xFF - Z.shiftr 0xFF (Z.of_nat (pos mod 8))).

Definition codeSegment (bits : bitvec) (pos : nat) : option bool :=
  match bits !! (pos / 8)%nat with
  | Some b => Some (Z.land b (Z.shiftr 0x80 (Z.of_nat (pos mod 8))) =? 0)
  | None => None
  end.

(** The loops [for ; numbits >= 8; ...] and [for ; numbits > 0; ...]. *)
Fixpoint mark8 (n pc : nat) (bits : bitvec) : option bitvec :=
  match n with O => Some bits | S n => bits_set8 pc bits ≫= mark8 n (pc + 8) end.
Fixpoint mark1 (n pc : nat) (bits : bitvec) : option bitvec :=
  match n with O => Some bits | S n => bits_set pc bits ≫= mark1 n (pc + 1) end.

(** Every round passes at least one byte of the code. *)
Fixpoint codeBitmap_loop (fuel : nat) (code : bytes) (pc : nat) (bits : bitvec) : option bitvec :=
  match fuel, code !! pc with
  | _, None => Some bits
  | O, _ => None
  | S fuel, Some b =>
      let op := Z_of_byte b in
      if (PUSH1 <=? op) && (op <=? PUSH1 + 31) then
        let numbits := Z.to_nat (op - PUSH1 + 1) in
        mark8 (numbits / 8) (pc + 1) bits ≫= fun bits =>
        mark1 (numbits mod 8) (pc + 1 + 8 * (numbits / 8)) bits ≫=
        codeBitmap_loop fuel code (pc + 1 + numbits)
      else codeBitmap_loop fuel code (pc + 1) bits
  end.

Definition codeBitmap (code : bytes) : option bitvec :=
  codeBitmap_loop (length code) code 0 (replicate (length code / 8 + 1 + 4) 0).

Section instructions.
Context {St : Type} `{VmState St} `{EvmWords} `{Crypto}.
Context (env : TxEnv).
Abbreviation X := (M (Machine St)).
Abbreviation result := (VmError + bytes)%type.

Definition ok : X result := ret (inr []).
Definition get_evm : X (EVM St) := fun s => Done (m_evm s) s.
Definition set_gas_left (g : Z) : X () := modify_st (fun s => set_contract (set_gas g (m_contract s)) s).

(** ** Jump destinations *)
Definition analyze_jumpdests (code : CodeAndHash) : X (bitvec * bool) :=
  match CodeHash code with
  | Some h =>
      e ← get_evm;
      let known := default ∅ (jumpdests e) in
      match known !! h with
      | Some analysis => ret (analysis, true)
      | None =>
          match codeBitmap (Code code) with
          | None => panic "index out of range"
          | Some analysis =>
              _ ← modify_st (fun s => set_evm (set_jumpdests (Some (<[h := analysis]> known)) (m_evm s)) s);
              ret (analysis, true)
          end
      end
  | None =>
      match codeBitmap (Code code) with
      | None => panic "index out of range"
      | Some analysis => ret (analysis, false)
      end
  end.

Definition ValidJumpdest (dest : Z) : X bool :=
  c ← get_contract;
  let udest := w_Uint64 dest in
  if w_overflow dest || negb (GetOp c udest =? JUMPDEST) then ret false else
  analysis ←
    (match code_jumpdest_analysis c with
     | Some analysis => ret analysis
     | None =>
         '(analysis, cached) ← analyze_jumpdests (code c);
         _ ← (if cached : bool then ret tt
              else modify_st (fun s => set_contract (mkContract (frame (m_contract s)) (code (m_contract s)) (Some analysis)) s));
         ret analysis
     end);
  match codeSegment analysis (Z.to_nat udest) with
  | Some b => ret b
  | None => panic "index out of range"
  end.

(** ** Arithmetic *)
(** [x, y := stack.pop(), stack.peek(); y.F(&x, y)]. *)
Definition binop (f : Z -> Z -> Z) : X result :=
  x ← pop; y ← peek; _ ← set_peek (f x y); ok.

Definition opAdd := binop u_add.
Definition opSub := binop u_sub.
Definition opMul := binop u_mul.
Definition opDiv := binop u_div.
Definition opSdiv := binop u_SDiv.
Definition opMod := binop u_Mod.
Definition opSmod := binop u_SMod.
Definition opExp := binop u_Exp.
Definition opSignExtend := binop (fun back num => u_ExtendSign num back).
Definition opNot : X result := x ← peek; _ ← set_peek (u_Not x); ok.

Definition of_bool (b : bool) : Z := if b then 1 else 0.
Definition opLt := binop (fun x y => of_bool (x <? y)).
Definition opGt := binop (fun x y => of_bool (y <? x)).
Definition opSlt := binop (fun x y => of_bool (u_Slt x y)).
Definition opSgt := binop (fun x y => of_bool (u_Sgt x y)).
Definition opEq := binop (fun x y => of_bool (x =? y)).
Definition opIszero : X result := x ← peek; _ ← set_peek (of_bool (x =? 0)); ok.
Definition opAnd := binop u_And.
Definition opOr := binop u_Or.
Definition opXor := binop u_Xor.
Definition opByte := binop (fun th v => u_Byte v th).
Definition opAddmod : X result :=
  x ← pop; y ← pop; z ← peek; _ ← set_peek (if z =? 0 then 0 else u_AddMod x y z); ok.
Definition opMulmod : X result := x ← pop; y ← pop; z ← peek; _ ← set_peek (u_MulMod x y z); ok.
Definition opSHL := binop (fun shift value => if shift <? 256 then u_Lsh value (w_Uint64 shift) else 0).
Definition opSHR := binop (fun shift value => if shift <? 256 then u_Rsh value (w_Uint64 shift) else 0).
Definition opSAR := binop (fun shift value =>
  if 256 <? shift then (if u_Neg value then u_Not 0 else 0) else u_SRsh value (w_Uint64 shift)).

Definition opKeccak256 : X result :=
  offset ← pop; size ← peek;
  data ← GetPtr (int64 offset) (int64 size);
  _ ← set_peek (u_SetBytes (keccak256 data)); ok.

(** ** The environment *)
Definition push_address (a : Address) : X result := _ ← push (u_SetBytes (addr_bytes a)); ok.
Definition push_big (i : Z) : X result := _ ← push (fst (u_FromBig i)); ok.
Definition push_uint64 (i : Z) : X result := _ ← push (u64 i); ok.

Definition opAddress : X result := c ← get_contract; push_address (Account (frame c)).
Definition opBalance : X result :=
  slot ← peek; a ← get_account slot; b ← st (GetBalance a); _ ← set_peek (fst (u_FromBig b)); ok.
Definition opOrigin : X result := push_address (tx_From (trx env)).
Definition opCaller : X result := c ← get_contract; push_address (CallerAccount (frame c)).
Definition opCallValue : X result := c ← get_contract; push_big (Value (frame c)).

Definition get_data (data : bytes) (start size : Z) : X bytes :=
  match getData data start size with Some b => ret b | None => panic "slice bounds out of range" end.

Definition opCallDataLoad : X result :=
  x ← peek;
  if w_overflow x then _ ← set_peek 0; ok else
  c ← get_contract;
  data ← get_data (Input (frame c)) (w_Uint64 x) 32;
  _ ← set_peek (u_SetBytes data); ok.

Definition opCallDataSize : X result := c ← get_contract; push_uint64 (Z.of_nat (length (Input (frame c)))).

(** An offset that overflows is as good as the largest. *)
Definition offset64 (x : Z) : Z := if w_overflow x then 0xffffffffffffffff else w_Uint64 x.

Definition opCallDataCopy : X result :=
  memOffset ← pop; dataOffset ← pop; length ← pop;
  c ← get_contract;
  data ← get_data (Input (frame c)) (offset64 dataOffset) (w_Uint64 length);
  _ ← Set_ (w_Uint64 memOffset) (w_Uint64 length) data; ok.

Definition opReturnDataSize : X result := e ← get_evm; push_uint64 (Z.of_nat (length (last_retval e))).

Definition opReturnDataCopy : X result :=
  memOffset ← pop; dataOffset ← pop; length_ ← pop;
  e ← get_evm;
  let e_ := u_add dataOffset length_ in
  if w_overflow dataOffset then ret (inl ErrReturnDataOutOfBounds)
  else if w_overflow e_ || (Z.of_nat (length (last_retval e)) <? w_Uint64 e_) then ret (inl ErrReturnDataOutOfBounds)
  else if w_Uint64 e_ <? w_Uint64 dataOffset then panic "slice bounds out of range"
  else _ ← Set_ (w_Uint64 memOffset) (w_Uint64 length_) (sub (last_retval e) (w_Uint64 dataOffset) (w_Uint64 e_)); ok.

Definition opExtCodeSize : X result :=
  slot ← peek; a ← get_account slot; n ← st (GetCodeSize a); _ ← set_peek (u64 n); ok.
Definition opCodeSize : X result := c ← get_contract; push_uint64 (Z.of_nat (length (Code (code c)))).

Definition opCodeCopy : X result :=
  memOffset ← pop; codeOffset ← pop; length ← pop;
  c ← get_contract;
  codeCopy ← get_data (Code (code c)) (offset64 codeOffset) (w_Uint64 length);
  _ ← Set_ (w_Uint64 memOffset) (w_Uint64 length) codeCopy; ok.

Definition opExtCodeCopy : X result :=
  addr ← pop; memOffset ← pop; codeOffset ← pop; length ← pop;
  a ← get_account addr;
  code ← st (GetCode a);
  codeCopy ← get_data code (offset64 codeOffset) (w_Uint64 length);
  _ ← Set_ (w_Uint64 memOffset) (w_Uint64 length) codeCopy; ok.

Definition opExtCodeHash : X result :=
  slot ← peek; a ← get_account slot;
  empty ← st (IsEIP161Empty a);
  if empty : bool then _ ← set_peek 0; ok else
  h ← st (GetCodeHash a);
  match h with
  | Some h => _ ← set_peek (u_SetBytes h); ok
  | None => panic "nil pointer dereference"
  end.

Definition opGasprice : X result := push_big (tx_GasPrice (trx env)).

Definition opBlockhash : X result :=
  num ← peek;
  if w_overflow num then _ ← set_peek 0; ok else
  let num64 := w_Uint64 num in
  let upper := Number (block env) in
  let lower := if upper <? 257 then 0 else upper - 256 in
  if (lower <=? num64) && (num64 <? upper) then _ ← set_peek (fst (u_FromBig (get_hash env num64))); ok
  else _ ← set_peek 0; ok.

Definition opCoinbase : X result := push_address (Author (block env)).
Definition opTimestamp : X result := push_uint64 (Time (block env)).
Definition opNumber : X result := push_uint64 (Number (block env)).
Definition opDifficulty : X result := push_big (Difficulty (block env)).
Definition opGasLimit : X result := push_uint64 (GasLimit (block env)).
Definition opChainID : X result := push_uint64 (ChainId env).
Definition opSelfBalance : X result :=
  c ← get_contract; _ ← st (GetAccount (Account (frame c)));
  b ← st (GetBalance (Account (frame c))); push_big b.

(** ** Memory and storage *)
Definition opPop : X result := _ ← pop; ok.

Definition opMload : X result :=
  v ← peek; data ← GetPtr (int64 v) 32; _ ← set_peek (u_SetBytes data); ok.
Definition opMstore : X result :=
  mStart ← pop; v ← pop; _ ← Set32 (w_Uint64 mStart) v; ok.
Definition opMstore8 : X result :=
  off ← pop; v ← pop; _ ← store_byte (w_Uint64 off) (byte_of_Z (w_Uint64 v)); ok.
Definition opMcopy : X result :=
  dst ← pop; src ← pop; length ← pop;
  _ ← Memory_Copy (w_Uint64 dst) (w_Uint64 src) (w_Uint64 length); ok.

Definition opSload : X result :=
  loc ← peek; c ← get_contract;
  v ← st (GetState (Account (frame c)) loc); _ ← set_peek (fst (u_FromBig v)); ok.
Definition opSstore : X result :=
  loc ← pop; v ← pop; c ← get_contract;
  _ ← st (SetState (Account (frame c)) loc v); ok.

Definition opTload : X result :=
  loc ← peek; c ← get_contract;
  v ← st (GetTransientState (Account (frame c)) (u_Bytes32 loc)); _ ← set_peek (u_SetBytes v); ok.
Definition opTstore : X result :=
  e ← get_evm;
  if read_only e then ret (inl ErrWriteProtection) else
  loc ← pop; v ← pop; c ← get_contract;
  _ ← st (SetTransientState (Account (frame c)) (u_Bytes32 loc) (u_Bytes32 v)); ok.

(** ** Jumps *)
Definition get_pc : X Z := fun s => Done (m_pc s) s.
Definition put_pc (pc : Z) : X () := modify_st (set_pc pc).

Definition jump_to (pos : Z) : X result :=
  valid ← ValidJumpdest pos;
  if valid : bool then _ ← put_pc (w_Uint64 pos); ok else
  c ← get_contract;
  ret (inl (ErrInvalidJump (GetOp c (w_Uint64 pos)) pos)).

Definition opJump : X result := pos ← pop; jump_to pos.
Definition opJumpi : X result :=
  pos ← pop; cond ← pop;
  if negb (cond =? 0) then jump_to pos else pc ← get_pc; _ ← put_pc (u64 (pc + 1)); ok.
Definition opJumpdest : X result := ok.
Definition opPc : X result := pc ← get_pc; push_uint64 pc.
Definition opMsize : X result := m ← get_mem; push_uint64 (Len m).
Definition opGas : X result := c ← get_contract; push_uint64 (contract_gas c).

(** ** Pushing, duplicating, swapping *)
Definition opPush0 : X result := _ ← push 0; ok.

Definition makePush (size : Z) (pushByteSize : nat) : X result :=
  c ← get_contract; pc ← get_pc;
  let code := Code (code c) in
  let startMin := Nat.min (length code) (Z.to_nat (u64 (pc + 1))) in
  let endMin := Nat.min (length code) (startMin + pushByteSize) in
  _ ← push (u_SetBytes (RightPadBytes (drop startMin (take endMin code)) pushByteSize));
  _ ← put_pc (u64 (pc + size)); ok.

Definition makeDup (size : nat) : X result := _ ← dup size; ok.
Definition makeSwap (size : nat) : X result := _ ← swap (size + 1); ok.

(** ** Ends and logs *)
Definition opReturn : X result :=
  offset ← pop; size ← pop; b ← GetCopy (int64 offset) (int64 size); ret (inr b).
Definition opRevert : X result :=
  offset ← pop; size ← pop; b ← GetPtr (int64 offset) (int64 size); ret (inr b).
Definition opStop : X result := ok.
Definition opSuicide : X result :=
  beneficiary ← pop; c ← get_contract;
  _ ← st (Suicide (Account (frame c)) (w_Address beneficiary)); ok.

Fixpoint pop_topics (size : nat) : X (list bytes) :=
  match size with
  | O => ret []
  | S size => topic ← pop; topics ← pop_topics size; ret (u_Bytes32 topic :: topics)
  end.

Definition makeLog (size : nat) : X result :=
  mStart ← pop; mSize ← pop;
  topics ← pop_topics size;
  data ← GetCopy (int64 mStart) (int64 mSize);
  c ← get_contract;
  _ ← st (AddLog (mkLogRecord (Account (frame c)) topics data)); ok.

(** ** Calls *)
(** [evm.call]: kind, caller, callee, input, gas and value; result, gas left
    and error.  [evm.create_1] and [evm.create_2] also return the address. *)
Context (vm_call : Z -> ContractRef -> Address -> bytes -> Z -> Z -> M (EVM St) (ret_slice * Z * option VmError)).
Context (vm_create_1 : Address -> bytes -> Z -> Z -> M (EVM St) (bytes * Address * Z * option VmError)).
Context (vm_create_2 : Address -> bytes -> Z -> Z -> Z -> M (EVM St) (bytes * Address * Z * option VmError)).

Definition UseGas_ (gas : Z) : X () :=
  c ← get_contract;
  match UseGas gas c with Some c => modify_st (set_contract c) | None => ret tt end.

(** What follows a creation. *)
Definition after_create (res : bytes) (addr : Address) (returnGas : Z) (suberr : option VmError) : X result :=
  _ ← push (match suberr with None => u_SetBytes (addr_bytes addr) | Some _ => 0 end);
  c ← get_contract;
  _ ← set_gas_left (u64 (contract_gas c + returnGas));
  ret (inr (if bool_decide (suberr = Some ErrExecutionReverted) then res else [])).

Definition opCreate : X result :=
  value ← pop; offset ← pop; size ← pop;
  input ← GetCopy (int64 offset) (int64 size);
  c ← get_contract;
  let gas := contract_gas c in
  let gas := gas - gas / 64 in
  _ ← UseGas_ gas;
  '(res, addr, returnGas, suberr) ← zoom (vm_create_1 (Account (frame c)) input gas value);
  after_create res addr returnGas suberr.

Definition opCreate2 : X result :=
  endowment ← pop; offset ← pop; size ← pop; salt ← pop;
  input ← GetCopy (int64 offset) (int64 size);
  c ← get_contract;
  let gas := contract_gas c in
  let gas := gas - gas / 64 in
  _ ← UseGas_ gas;
  '(res, addr, returnGas, suberr) ← zoom (vm_create_2 (Account (frame c)) input gas endowment salt);
  after_create res addr returnGas suberr.

(** What follows a call.  A precompiled contract may return its input, which
    lies in the memory: the loop copies the result after [memory.Set]. *)
Definition after_call (inOffset inSize retOffset retSize : Z) (args : bytes)
    (r : ret_slice) (returnGas : Z) (err : option VmError) : X result :=
  _ ← push (of_bool (bool_decide (err = None)));
  _ ← when (bool_decide (err = None) || bool_decide (err = Some ErrExecutionReverted))
        (Set_ (w_Uint64 retOffset) (w_Uint64 retSize) (slice_bytes args r));
  c ← get_contract;
  _ ← set_gas_left (u64 (contract_gas c + returnGas));
  b ← match r with Fresh b => ret b | TheInput => GetPtr (int64 inOffset) (int64 inSize) end;
  ret (inr b).

(** [opCall] and [opCallCode]. *)
Definition call_with_value (typ : Z) : X result :=
  _ ← pop;
  e ← get_evm;
  let gas := call_gas_tmp e in
  addr ← pop; value ← pop; inOffset ← pop; inSize ← pop; retOffset ← pop; retSize ← pop;
  args ← GetPtr (int64 inOffset) (int64 inSize);
  let gas := if negb (value =? 0) then u64 (gas + CallStipend) else gas in
  callee ← get_account addr;
  c ← get_contract;
  '(r, returnGas, err) ← zoom (vm_call typ (RunningContract c) callee args gas value);
  after_call inOffset inSize retOffset retSize args r returnGas err.

(** [opDelegateCall] and [opStaticCall]. *)
Definition call_without_value (typ : Z) : X result :=
  _ ← pop;
  e ← get_evm;
  let gas := call_gas_tmp e in
  addr ← pop; inOffset ← pop; inSize ← pop; retOffset ← pop; retSize ← pop;
  args ← GetPtr (int64 inOffset) (int64 inSize);
  callee ← get_account addr;
  c ← get_contract;
  '(r, returnGas, err) ← zoom (vm_call typ (RunningContract c) callee args gas 0);
  after_call inOffset inSize retOffset retSize args r returnGas err.

Definition opCall := call_with_value CALL.
Definition opCallCode := call_with_value CALLCODE.
Definition opDelegateCall := call_without_value DELEGATECALL.
Definition opStaticCall := call_without_value STATICCALL.
End instructions.
