(* ===== verification/EvmTable.v ===== *)
(** * The instruction set: [core/vm/jump_table.go]

    What the interpreter has to know of an operation, and the tables. *)
From S2P Require Import Prelude Bytes Crypto Uint256 EvmWord EvmBase EvmMemory EvmGas EvmInstr.
Local Open Scope Z_scope.

Record flags := mkFlags {
  halts : bool;
  jumps : bool;
  writes : bool;
  reverts : bool;
  returns : bool;
}.
Definition no_flags : flags := mkFlags false false false false false.

Section table.
Context {St : Type} `{VmState St} `{EvmWords} `{Crypto}.
Context (env : TxEnv).
Context (vm_call : Z -> ContractRef -> Address -> bytes -> Z -> Z -> M (EVM St) (ret_slice * Z * option VmError)).
Context (vm_create_1 : Address -> bytes -> Z -> Z -> M (EVM St) (bytes * Address * Z * option VmError)).
Context (vm_create_2 : Address -> bytes -> Z -> Z -> Z -> M (EVM St) (bytes * Address * Z * option VmError)).
Abbreviation X := (M (Machine St)).

Record operation := mkOperation {
  execute : X (VmError + bytes);
  gasCost : Z -> X (VmError + Z);
  validateStack : list Z -> option VmError;
  memorySize : option (X Z);
  op_flags : flags;
}.

Definition byzantium_ops : list (Z * operation) := [
  (SHL, mkOperation opSHL (constGasFunc GasFastestStep) (makeStackFunc 2 1) None no_flags);
  (SHR, mkOperation opSHR (constGasFunc GasFastestStep) (makeStackFunc 2 1) None no_flags);
  (SAR, mkOperation opSAR (constGasFunc GasFastestStep) (makeStackFunc 2 1) None no_flags);
  (EXTCODEHASH, mkOperation opExtCodeHash (gasExtCodeHash env) (makeStackFunc 1 1) None no_flags);
  (CREATE2, mkOperation (opCreate2 vm_create_2) gasCreate2 (makeStackFunc 4 1) (Some memoryCreate2) (mkFlags false false true false true));
  (STATICCALL, mkOperation (opStaticCall vm_call) (gasStaticCall env) (makeStackFunc 6 1) (Some memoryStaticCall) (mkFlags false false false false true));
  (RETURNDATASIZE, mkOperation opReturnDataSize (constGasFunc GasQuickStep) (makeStackFunc 0 1) None no_flags);
  (RETURNDATACOPY, mkOperation opReturnDataCopy gasReturnDataCopy (makeStackFunc 3 0) (Some memoryReturnDataCopy) no_flags);
  (REVERT, mkOperation opRevert gasRevert (makeStackFunc 2 0) (Some memoryRevert) (mkFlags false false false true true));
  (DELEGATECALL, mkOperation (opDelegateCall vm_call) (gasDelegateCall env) (makeStackFunc 6 1) (Some memoryDelegateCall) (mkFlags false false false false true))
].

Definition arithmetic_ops : list (Z * operation) := [
  (STOP, mkOperation opStop (constGasFunc 0) (makeStackFunc 0 0) None (mkFlags true false false false false));
  (ADD, mkOperation opAdd (constGasFunc GasFastestStep) (makeStackFunc 2 1) None no_flags);
  (MUL, mkOperation opMul (constGasFunc GasFastStep) (makeStackFunc 2 1) None no_flags);
  (SUB, mkOperation opSub (constGasFunc GasFastestStep) (makeStackFunc 2 1) None no_flags);
  (DIV, mkOperation opDiv (constGasFunc GasFastStep) (makeStackFunc 2 1) None no_flags);
  (SDIV, mkOperation opSdiv (constGasFunc GasFastStep) (makeStackFunc 2 1) None no_flags);
  (MOD, mkOperation opMod (constGasFunc GasFastStep) (makeStackFunc 2 1) None no_flags);
  (SMOD, mkOperation opSmod (constGasFunc GasFastStep) (makeStackFunc 2 1) None no_flags);
  (ADDMOD, mkOperation opAddmod (constGasFunc GasMidStep) (makeStackFunc 3 1) None no_flags);
  (MULMOD, mkOperation opMulmod (constGasFunc GasMidStep) (makeStackFunc 3 1) None no_flags);
  (EXP, mkOperation opExp (gasExp env) (makeStackFunc 2 1) None no_flags);
  (SIGNEXTEND, mkOperation opSignExtend (constGasFunc GasFastStep) (makeStackFunc 2 1) None no_flags);
  (LT, mkOperation opLt (constGasFunc GasFastestStep) (makeStackFunc 2 1) None no_flags);
  (GT, mkOperation opGt (constGasFunc GasFastestStep) (makeStackFunc 2 1) None no_flags);
  (SLT, mkOperation opSlt (constGasFunc GasFastestStep) (makeStackFunc 2 1) None no_flags);
  (SGT, mkOperation opSgt (constGasFunc GasFastestStep) (makeStackFunc 2 1) None no_flags);
  (EQ, mkOperation opEq (constGasFunc GasFastestStep) (makeStackFunc 2 1) None no_flags);
  (ISZERO, mkOperation opIszero (constGasFunc GasFastestStep) (makeStackFunc 1 1) None no_flags);
  (AND, mkOperation opAnd (constGasFunc GasFastestStep) (makeStackFunc 2 1) None no_flags);
  (XOR, mkOperation opXor (constGasFunc GasFastestStep) (makeStackFunc 2 1) None no_flags);
  (OR, mkOperation opOr (constGasFunc GasFastestStep) (makeStackFunc 2 1) None no_flags);
  (NOT, mkOperation opNot (constGasFunc GasFastestStep) (makeStackFunc 1 1) None no_flags);
  (BYTE, mkOperation opByte (constGasFunc GasFastestStep) (makeStackFunc 2 1) None no_flags);
  (KECCAK256, mkOperation opKeccak256 gasKeccak256 (makeStackFunc 2 1) (Some memoryKeccak256) no_flags)
].

Definition environment_ops : list (Z * operation) := [
  (ADDRESS, mkOperation opAddress (constGasFunc GasQuickStep) (makeStackFunc 0 1) None no_flags);
  (BALANCE, mkOperation opBalance (gasBalance env) (makeStackFunc 1 1) None no_flags);
  (ORIGIN, mkOperation (opOrigin env) (constGasFunc GasQuickStep) (makeStackFunc 0 1) None no_flags);
  (CALLER, mkOperation opCaller (constGasFunc GasQuickStep) (makeStackFunc 0 1) None no_flags);
  (CALLVALUE, mkOperation opCallValue (constGasFunc GasQuickStep) (makeStackFunc 0 1) None no_flags);
  (CALLDATALOAD, mkOperation opCallDataLoad (constGasFunc GasFastestStep) (makeStackFunc 1 1) None no_flags);
  (CALLDATASIZE, mkOperation opCallDataSize (constGasFunc GasQuickStep) (makeStackFunc 0 1) None no_flags);
  (CALLDATACOPY, mkOperation opCallDataCopy gasCallDataCopy (makeStackFunc 3 0) (Some memoryCallDataCopy) no_flags);
  (CODESIZE, mkOperation opCodeSize (constGasFunc GasQuickStep) (makeStackFunc 0 1) None no_flags);
  (CODECOPY, mkOperation opCodeCopy gasCodeCopy (makeStackFunc 3 0) (Some memoryCodeCopy) no_flags);
  (GASPRICE, mkOperation (opGasprice env) (constGasFunc GasQuickStep) (makeStackFunc 0 1) None no_flags);
  (EXTCODESIZE, mkOperation opExtCodeSize (gasExtCodeSize env) (makeStackFunc 1 1) None no_flags);
  (EXTCODECOPY, mkOperation opExtCodeCopy (gasExtCodeCopy env) (makeStackFunc 4 0) (Some memoryExtCodeCopy) no_flags);
  (BLOCKHASH, mkOperation (opBlockhash env) (constGasFunc GasExtStep) (makeStackFunc 1 1) None no_flags);
  (COINBASE, mkOperation (opCoinbase env) (constGasFunc GasQuickStep) (makeStackFunc 0 1) None no_flags);
  (TIMESTAMP, mkOperation (opTimestamp env) (constGasFunc GasQuickStep) (makeStackFunc 0 1) None no_flags);
  (NUMBER, mkOperation (opNumber env) (constGasFunc GasQuickStep) (makeStackFunc 0 1) None no_flags);
  (DIFFICULTY, mkOperation (opDifficulty env) (constGasFunc GasQuickStep) (makeStackFunc 0 1) None no_flags);
  (GASLIMIT, mkOperation (opGasLimit env) (constGasFunc GasQuickStep) (makeStackFunc 0 1) None no_flags);
  (CHAINID, mkOperation (opChainID env) (constGasFunc GasQuickStep) (makeStackFunc 0 1) None no_flags);
  (SELFBALANCE, mkOperation opSelfBalance (constGasFunc GasFastStep) (makeStackFunc 0 1) None no_flags)
].

Definition memory_ops : list (Z * operation) := [
  (POP, mkOperation opPop (constGasFunc GasQuickStep) (makeStackFunc 1 0) None no_flags);
  (MLOAD, mkOperation opMload gasMLoad (makeStackFunc 1 1) (Some memoryMLoad) no_flags);
  (MSTORE, mkOperation opMstore gasMStore (makeStackFunc 2 0) (Some memoryMStore) no_flags);
  (MSTORE8, mkOperation opMstore8 gasMStore8 (makeStackFunc 2 0) (Some memoryMStore8) no_flags);
  (SLOAD, mkOperation opSload (gasSLoad env) (makeStackFunc 1 1) None no_flags);
  (SSTORE, mkOperation opSstore gasSStore (makeStackFunc 2 0) None (mkFlags false false true false false));
  (JUMP, mkOperation opJump (constGasFunc GasMidStep) (makeStackFunc 1 0) None (mkFlags false true false false false));
  (JUMPI, mkOperation opJumpi (constGasFunc GasSlowStep) (makeStackFunc 2 0) None (mkFlags false true false false false));
  (PC, mkOperation opPc (constGasFunc GasQuickStep) (makeStackFunc 0 1) None no_flags);
  (MSIZE, mkOperation opMsize (constGasFunc GasQuickStep) (makeStackFunc 0 1) None no_flags);
  (GAS, mkOperation opGas (constGasFunc GasQuickStep) (makeStackFunc 0 1) None no_flags);
  (JUMPDEST, mkOperation opJumpdest (constGasFunc JumpdestGas) (makeStackFunc 0 0) None no_flags);
  (PUSH0, mkOperation opPush0 (constGasFunc GasQuickStep) (makeStackFunc 0 1) None no_flags)
].

Definition system_ops : list (Z * operation) := [
  (TLOAD, mkOperation opTload (gasTLoad env) (makeStackFunc 1 1) None no_flags);
  (TSTORE, mkOperation opTstore (gasTLoad env) (makeStackFunc 2 0) None no_flags);
  (CREATE, mkOperation (opCreate vm_create_1) gasCreate (makeStackFunc 3 1) (Some memoryCreate) (mkFlags false false true false true));
  (CALL, mkOperation (opCall vm_call) (gasCall env) (makeStackFunc 7 1) (Some memoryCall) (mkFlags false false false false true));
  (CALLCODE, mkOperation (opCallCode vm_call) (gasCallCode env) (makeStackFunc 7 1) (Some memoryCall) (mkFlags false false false false true));
  (RETURN, mkOperation opReturn gasReturn (makeStackFunc 2 0) (Some memoryReturn) (mkFlags true false false false false));
  (SELFDESTRUCT, mkOperation opSuicide (gasSuicide env) (makeStackFunc 1 0) None (mkFlags true false true false false))
].

Definition push_ops : list (Z * operation) :=
  (fun n => (PUSH1 + Z.of_nat n - 1, mkOperation (makePush (Z.of_nat n) n) gasPush (makeStackFunc 0 1) None no_flags)) <$> seq 1 32.

Definition dup_ops : list (Z * operation) :=
  (fun n => (DUP1 + Z.of_nat n - 1, mkOperation (makeDup n) gasDup (makeDupStackFunc n) None no_flags)) <$> seq 1 16.

Definition swap_ops : list (Z * operation) :=
  (fun n => (SWAP1 + Z.of_nat n - 1, mkOperation (makeSwap n) gasSwap (makeSwapStackFunc (n + 1)) None no_flags)) <$> seq 1 16.

Definition log_ops : list (Z * operation) :=
  (fun n => (LOG0 + Z.of_nat n, mkOperation (makeLog n) (makeGasLog (Z.of_nat n)) (makeStackFunc (n + 2) 0)
                                  (Some memoryLog) (mkFlags false false true false false))) <$> seq 0 5.

Definition newCalifornicumInstructionSet : list (Z * operation) :=
  byzantium_ops ++ arithmetic_ops ++ environment_ops ++ memory_ops ++ push_ops ++ dup_ops ++ swap_ops ++ log_ops
  ++ system_ops.

Definition enable5656 (jt : list (Z * operation)) : list (Z * operation) :=
  (MCOPY, mkOperation opMcopy gasMcopy (makeStackFunc 3 0) (Some memoryMcopy) no_flags) :: jt.

Definition newFicusInstructionSet : list (Z * operation) := enable5656 newCalifornicumInstructionSet.

(** [SetBlock]: the set the rules of a block choose. *)
Definition instruction_set : list (Z * operation) :=
  if IsFicus (rules env) then newFicusInstructionSet else newCalifornicumInstructionSet.

Fixpoint find_op (jt : list (Z * operation)) (op : Z) : option operation :=
  match jt with
  | [] => None
  | (code, operation) :: jt => if code =? op then Some operation else find_op jt op
  end.
End table.
