(* ===== verification/EvmRun.v ===== *)
(** * Running contracts: [core/vm/evm.go]

    The interpreter loop, the calls and creations that start it, and the
    execution of a transaction.  One unit of fuel is spent per instruction
    and per nesting; [EvmTermination.v] shows that more fuel than gas always
    suffices.  The tracer and the timing of the debug mode are not modelled. *)
From S2P Require Import Prelude Bytes Rlp Crypto Uint256 EvmWord EvmBase EvmMemory EvmGas EvmInstr EvmTable.
Local Open Scope Z_scope.

Section run.
Context {St : Type} `{VmState St} `{EvmWords} `{Crypto}.
Context (env : TxEnv).
Abbreviation E := (M (EVM St)).
Abbreviation X := (M (Machine St)).

(** ** Precompiled contracts: [core/vm/contracts.go] *)
Record PrecompiledContract := mkPrecompiled {
  RequiredGas : CallFrame -> E Z;
  Run : CallFrame -> E (ret_slice * option VmError);
}.

Abbreviation Precompiles := (list (option PrecompiledContract)).
Context (precompiles : Precompiles).

Definition Precompiles_Get (address : Address) : option PrecompiledContract :=
  let last_byte := Z_of_byte (default Byte.x00 (addr_bytes address !! 19%nat)) in
  if last_byte =? 0 then None else
  match precompiles !! Z.to_nat (last_byte - 1) with
  | Some (Some c) =>
      if bool_decide (take 19 (addr_bytes address) = replicate 19 Byte.x00) then Some c else None
  | _ => None
  end.

(** ** One round of the loop of [run] *)
(** [Some]: the run ends with a result and an error. *)
Abbreviation stop := (option (bytes * option VmError)).

Section step.
Context (vm_call : Z -> ContractRef -> Address -> bytes -> Z -> Z -> E (ret_slice * Z * option VmError)).
Context (vm_create_1 : Address -> bytes -> Z -> Z -> E (bytes * Address * Z * option VmError)).
Context (vm_create_2 : Address -> bytes -> Z -> Z -> Z -> E (bytes * Address * Z * option VmError)).

Definition fails (err : VmError) : X stop := ret (Some ([], Some err)).

(** In read-only mode: is the operation forbidden? *)
Definition write_protected (op : Z) (o : operation (St := St)) : X bool :=
  e ← get_evm;
  if read_only e then
    if writes (op_flags o) then ret true
    else if op =? CALL then value ← Back 2; ret (0 <? u_BitLen value)
    else ret false
  else ret false.

Definition memory_size (o : operation (St := St)) : X (VmError + Z) :=
  match memorySize o with
  | None => ret (inr 0)
  | Some f =>
      size ← f;
      if w_overflow size then ret (inl errGasUintOverflow)
      else ret (checked (SafeMul (toWordSize (w_Uint64 size)) 32))
  end.

(** Executing an operation that has been paid for. *)
Definition execute_op (o : operation (St := St)) : X stop :=
  r ← execute o;
  let res := match r with inr res => res | inl _ => [] end in
  _ ← when (returns (op_flags o)) (modify_st (fun s => set_evm (set_last_retval res (m_evm s)) s));
  match r with
  | inl err => fails err
  | inr res =>
      if reverts (op_flags o) then ret (Some (res, Some ErrExecutionReverted))
      else if halts (op_flags o) then ret (Some (res, None))
      else
        _ ← when (negb (jumps (op_flags o))) (pc ← get_pc; put_pc (u64 (pc + 1)));
        ret None
  end.

Definition pay_and_execute (o : operation (St := St)) (memorySize : Z) : X stop :=
  cost ← gasCost o memorySize;
  c ← get_contract;
  match cost with
  | inl _ => fails ErrOutOfGas
  | inr cost =>
      match UseGas cost c with
      | None => fails ErrOutOfGas
      | Some c =>
          _ ← modify_st (set_contract c);
          _ ← when (0 <? memorySize) (Resize memorySize);
          execute_op o
      end
  end.

Definition step : X stop :=
  c ← get_contract; pc ← get_pc;
  let op := GetOp c pc in
  match find_op (instruction_set env vm_call vm_create_1 vm_create_2) op with
  | None => fails (ErrInvalidOpCode op)
  | Some operation =>
      stack ← get_stack;
      match validateStack operation stack with
      | Some err => fails err
      | None =>
          protected ← write_protected op operation;
          if protected : bool then fails ErrWriteProtection else
          size ← memory_size operation;
          match size with
          | inl err => fails err
          | inr size => pay_and_execute operation size
          end
      end
  end.
End step.

(** ** [run], over what the loop does *)
(** Result, error and the gas left in the contract. *)
Definition run_with (loop : X (bytes * option VmError)) (c : Contract) (readOnly : bool) :
    E (bytes * option VmError * Z) := fun e =>
  let protect := readOnly && negb (read_only e) in
  let inner := set_last_retval [] (set_depth (u16 (depth e + 1)) (set_read_only (read_only e || protect) e)) in
  match loop (mkMachine inner c [] (Memory_Init (mem_pool e)) 0) with
  | Done (r, err) m =>
      match Release m with
      | Done _ m =>
          let e := m_evm m in
          Done (r, err, contract_gas (m_contract m))
            (set_depth (u16 (depth e - 1)) (set_read_only (if protect then false else read_only e) e))
      | Fail msg m => Fail msg (m_evm m)
      | Panic msg => Panic msg
      end
  | Fail msg m => Fail msg (m_evm m)
  | Panic msg => Panic msg
  end.

(** The operations of the state, run inside the EVM. *)
Definition sto {A} (m : M St A) : E A := zoom m.

Definition transfer (from to : Address) (amount : Z) : E () :=
  _ ← sto (SubBalance from amount); sto (AddBalance to amount).

(** ** [call] and [create], over [run] *)
Section calls.
Context (run : Contract -> bool -> E (bytes * option VmError * Z)).

Definition call_frame (typ : Z) (caller : ContractRef) (callee : Address) (input : bytes) (gas value : Z) : E CallFrame :=
  if typ =? CALLCODE then ret (mkCallFrame (ref_Account caller) (ref_Account caller) input gas value)
  else if typ =? DELEGATECALL then
    match caller with
    | RunningContract parent =>
        ret (mkCallFrame (CallerAccount (frame parent)) (ref_Account caller) input gas (Value (frame parent)))
    | ContractAccWrapper _ => panic "interface conversion"
    end
  else ret (mkCallFrame (ref_Account caller) callee input gas value).

(** What is run: the precompiled contract or the code of the callee. *)
Definition run_callee (typ : Z) (f : CallFrame) (callee : Address) (gas : Z) : E (ret_slice * Z * option VmError) :=
  code ← sto (GetCode callee);
  match Precompiles_Get callee with
  | Some p =>
      gas_required ← RequiredGas p f;
      if gas_required <=? gas then
        '(r, err) ← Run p f; ret (r, gas - gas_required, err)
      else ret (Fresh [], gas, Some ErrOutOfGas)
  | None =>
      if negb (Z.of_nat (length code) =? 0) then
        h ← sto (GetCodeHash callee);
        '(r, err, gas_left) ← run (NewContract f (mkCode code h)) (typ =? STATICCALL);
        ret (Fresh r, gas_left, err)
      else ret (Fresh [], gas, None)
  end.

Definition call_with (typ : Z) (caller : ContractRef) (callee : Address) (input : bytes) (gas value : Z)
  : E (ret_slice * Z * option VmError) :=
  e ← get_st;
  if CallCreateDepth <? depth e then ret (Fresh [], gas, Some ErrDepth) else
  enough ← (if ((typ =? CALL) || (typ =? CALLCODE)) && negb (bool_decide (ref_Account caller = ZeroAddress))
            then sto (BalanceGTE (ref_Account caller) value) else ret true);
  if negb enough then ret (Fresh [], gas, Some ErrInsufficientBalanceForTransfer) else
  snapshot ← sto Snapshot;
  let precompiled := Precompiles_Get callee in
  nothing ← (if (typ =? CALL) && (value =? 0) then
               nil ← sto (IsNIL callee);
               ret (nil && match precompiled with None => true | Some _ => false end)
             else ret false);
  if nothing : bool then ret (Fresh [], gas, None) else
  _ ← (if typ =? CALL then transfer (ref_Account caller) callee value
       else if typ =? STATICCALL then sto (AddBalance callee 0) else ret tt);
  f ← call_frame typ caller callee input gas value;
  '(r, gas_left, err) ← run_callee typ f callee gas;
  match err with
  | None => ret (r, gas_left, None)
  | Some err =>
      _ ← sto (RevertToSnapshot snapshot);
      let gas_left :=
        if negb (bool_decide (err = ErrExecutionReverted)) && match precompiled with None => true | Some _ => false end
        then 0 else gas_left in
      ret (r, gas_left, Some err)
  end.

(** The end of [create]: the code is paid for and stored. *)
Definition store_code (new_acc : Address) (r : bytes) (err : option VmError) (gas_left : Z) : E (Z * option VmError) :=
  match err with
  | Some err => ret (gas_left, Some err)
  | None =>
      if MaxCodeSize <? Z.of_nat (length r) then ret (gas_left, Some ErrMaxCodeSizeExceeded) else
      let createDataGas := u64 (Z.of_nat (length r) * CreateDataGas) in
      if gas_left <? createDataGas then ret (gas_left, Some ErrCodeStoreOutOfGas)
      else _ ← sto (SetCode new_acc r); ret (gas_left - createDataGas, None)
  end.

(** [create] after the nonce of the caller has been raised. *)
Definition create_at (caller : Address) (code : CodeAndHash) (gas value : Z) (address : Address)
  : E (bytes * Z * option VmError) :=
  _ ← sto (GetAccount address);
  nonce ← sto (GetNonce address);
  size ← (if nonce =? 0 then sto (GetCodeSize address) else ret 0);
  if negb (nonce =? 0) || negb (size =? 0) then ret ([], 0, Some ErrContractAddressCollision) else
  snapshot ← sto Snapshot;
  _ ← sto (IncrementNonce address);
  _ ← transfer caller address value;
  '(r, err, gas_left) ← run (NewContract (mkCallFrame caller address [] gas value) code) false;
  '(gas_left, err) ← store_code address r err gas_left;
  match err with
  | None => ret (r, gas_left, None)
  | Some err =>
      _ ← sto (RevertToSnapshot snapshot);
      ret (r, if bool_decide (err = ErrExecutionReverted) then gas_left else 0, Some err)
  end.

Definition create (caller : Address) (code : CodeAndHash) (gas value : Z) (address : Address)
  : E (bytes * Z * option VmError) :=
  e ← get_st;
  if CallCreateDepth <? depth e then ret ([], gas, Some ErrDepth) else
  enough ← (if negb (bool_decide (caller = ZeroAddress)) then sto (BalanceGTE caller value) else ret true);
  if negb enough then ret ([], gas, Some ErrInsufficientBalanceForTransfer) else
  _ ← sto (IncrementNonce caller);
  create_at caller code gas value address.

(** [crypto.CreateAddress]: the hash of the encoded pair of address and nonce. *)
Definition create_address_typ : typ :=
  TStruct (FCons no_tags (TPtr (TByteArray 20)) (FCons no_tags TBigInt FNil)).

Definition CreateAddress (b : Address) (nonce : Z) : option Address :=
  match EncodeToBytes create_address_typ (VList [VPtr (VBytes (addr_bytes b)); VBig (Some nonce)]) with
  | inr (Some e) => Some (BytesToAddress (drop 12 (keccak256 e)))
  | _ => None
  end.

Definition CreateAddress2 (b : Address) (salt inithash : bytes) : Address :=
  BytesToAddress (drop 12 (keccak256 ([Byte.xff] ++ addr_bytes b ++ salt ++ inithash))).

Definition create_1 (caller : Address) (code : bytes) (gas value : Z) : E (bytes * Address * Z * option VmError) :=
  nonce ← sto (GetNonce caller);
  match CreateAddress caller nonce with
  | None => panic "rlp: cannot encode"
  | Some contractAddr =>
      '(r, gas_left, err) ← create caller (mkCode code None) gas value contractAddr;
      ret (r, contractAddr, gas_left, err)
  end.

Definition create_2 (caller : Address) (code : bytes) (gas endowment salt : Z) : E (bytes * Address * Z * option VmError) :=
  let h := keccak256 code in
  let contractAddr := CreateAddress2 caller (u_Bytes32 salt) h in
  '(r, gas_left, err) ← create caller (mkCode code (Some h)) gas endowment contractAddr;
  ret (r, contractAddr, gas_left, err).
End calls.

(** ** The interpreter *)
Fixpoint loop (fuel : nat) : X (bytes * option VmError) :=
  match fuel with
  | O => out_of_fuel
  | S fuel =>
      let run := run_with (loop fuel) in
      r ← step (call_with run) (create_1 run) (create_2 run);
      match r with
      | Some res => ret res
      | None => loop fuel
      end
  end.

Definition run (fuel : nat) : Contract -> bool -> E (bytes * option VmError * Z) := run_with (loop fuel).

(** [Call]. *)
Definition Call (fuel : nat) := call_with (run fuel) CALL.

(** ** Transactions: [Main] *)
Definition consensusErr (result : ExecutionResult) (trxGas : Z) (err : VmError) : ExecutionResult :=
  mkExecutionResult (CodeRetval result) (NewContractAddr result) (Logs result) trxGas (ExecutionErr result) (Some err).

Definition no_result : ExecutionResult := mkExecutionResult [] ZeroAddress [] 0 None None.

(** The call or the creation a transaction asks for. *)
Definition main_call (fuel : nat) (gas_left : Z) : E (bytes * Address * Z * option VmError) :=
  let trx := trx env in
  let caller := tx_From trx in
  match tx_To trx with
  | None =>
      _ ← sto (SetNonce caller (tx_Nonce trx));
      create_1 (run fuel) caller (tx_Input trx) gas_left (tx_Value trx)
  | Some to =>
      _ ← sto (GetAccount to);
      _ ← sto (SetNonce caller (tx_Nonce trx + 1));
      '(r, gas_left, err) ← Call fuel (ContractAccWrapper caller) to (tx_Input trx) gas_left (tx_Value trx);
      ret (slice_bytes (tx_Input trx) r, ZeroAddress, gas_left, err)
  end.

(** The result and [execError]. *)
Definition Main (fuel : nat) : E (ExecutionResult * option VmError) :=
  let trx := trx env in
  let caller := tx_From trx in
  let fail gas_used err : E (ExecutionResult * option VmError) :=
    _ ← modify_st (set_jumpdests None); ret (consensusErr no_result gas_used err, None) in
  _ ← sto (GetAccount caller);
  sender_nonce ← sto (GetNonce caller);
  let gas_cap := tx_Gas trx in
  let gas_price := tx_GasPrice trx in
  let gas_fee := gas_cap * gas_price in
  let contract_creation := match tx_To trx with None => true | Some _ => false end in
  enough ← (if negb (bool_decide (caller = ZeroAddress)) then sto (BalanceGTE caller gas_fee) else ret true);
  if negb enough then
    caller_balance ← sto (GetBalance caller);
    let available_funds_gas := caller_balance / gas_price in
    _ ← sto (SubBalance caller (available_funds_gas * gas_price));
    _ ← when (IsCornus (rules env) && (sender_nonce <=? tx_Nonce trx)) (sto (SetNonce caller (tx_Nonce trx + 1)));
    fail (u64 available_funds_gas) ErrInsufficientBalanceForGas
  else
  _ ← sto (SubBalance caller gas_fee);
  if tx_Nonce trx <? sender_nonce then fail gas_cap ErrNonceTooLow else
  let skip_nonce := when (IsCornus (rules env)) (sto (SetNonce caller (tx_Nonce trx + 1))) in
  match IntrinsicGas (tx_Input trx) contract_creation with
  | inl err => _ ← skip_nonce; fail gas_cap err
  | inr gas_intrinsic =>
      if gas_cap <? gas_intrinsic then _ ← skip_nonce; fail gas_cap ErrIntrinsicGas else
      '(r, addr, gas_left, err) ← main_call fuel (gas_cap - gas_intrinsic);
      let ret_ := mkExecutionResult r addr [] 0 None None in
      if bool_decide (err = Some ErrInsufficientBalanceForTransfer) then
        _ ← modify_st (set_jumpdests None);
        ret (consensusErr ret_ gas_cap ErrInsufficientBalanceForTransfer, None)
      else
        refund ← sto GetRefund;
        let gas_left := u64 (gas_left + Z.min refund (u64 (gas_cap - gas_left) / 2)) in
        logs ← sto GetLogs;
        _ ← sto (AddBalance caller (gas_left * gas_price));
        _ ← modify_st (set_jumpdests None);
        ret (mkExecutionResult r addr logs (u64 (gas_cap - gas_left)) err None, err)
  end.
End run.
