(* ===== verification/AccountMap.v ===== *)
(** * The hash table of accounts: [state_evm/account_map.go], [addr_hasher.go]

    The accounts of the state lie in a table of buckets of three entries and
    an overflow slice.  Accounts are pointers: a [Ref] is the index of the
    header of an account among all that were made, and the headers carry the
    position of the account in the table, by which [Delete] finds it.  The
    words drawn at random are parameters. *)
From S2P Require Import Prelude Bytes.
Local Open Scope Z_scope.

(** ** The hash of an address *)
Definition m1 : Z := 16877499708836156737.
Definition m2 : Z := 2820277070424839065.
Definition m3 : Z := 9497967016996688599.

Definition rotl_31 (x : Z) : Z := Z.lor (u64 (Z.shiftl x 31)) (Z.shiftr x (64 - 31)).

(** Eight bytes, little endian. *)
Definition read_mem_64 (b : bytes) : Z := default 0 (le_to_uint 8 b).

Definition hash_addr (hashkey0 : Z) (a : Address) (seed : Z) : Z :=
  let p := addr_bytes a in
  let h := u64 (seed + 20 * hashkey0) in
  let h := Z.lxor h (read_mem_64 p) in
  let h := u64 (rotl_31 (u64 (h * m1)) * m2) in
  let h := Z.lxor h (read_mem_64 (drop 8 p)) in
  let h := u64 (rotl_31 (u64 (h * m1)) * m2) in
  let h := Z.lxor h (read_mem_64 (drop 4 p)) in
  let h := u64 (rotl_31 (u64 (h * m1)) * m2) in
  let h := Z.lxor h (read_mem_64 (drop 12 p)) in
  let h := u64 (rotl_31 (u64 (h * m1)) * m2) in
  let h := Z.lxor h (Z.shiftr h 29) in
  let h := u64 (h * m3) in
  Z.lxor h (Z.shiftr h 32).

(** ** The table *)
Abbreviation Ref := nat.

Record AccountMapEntryHeader := mkHeader {
  hash_top : Z;         (* uint32 *)
  addr : Address;
  pos_of_bucket : Z;    (* uint32 *)
  pos_in_bucket : Z;    (* uint32 *)
}.

(** An overflow slice that is nil counts as empty, and its capacity is not
    modelled: it decides only when memory is allocated. *)
Record AccountMapBucket := mkBucket { entries : list (option Ref); entries_overflow : list Ref }.

Record AccountMap := mkAccountMap {
  num_entries : Z;      (* uint64 *)
  buckets : list AccountMapBucket;
  log2_buckets_count : Z;
  bucket_pos_last : Z;
  hasher_seed : Z;
  headers : list AccountMapEntryHeader;   (* of all accounts, by reference *)
}.

Definition AccountMapBucketBaseSize : Z := 3.
Definition MaxUint32 : Z := 2 ^ 32 - 1.

Definition set_num x m := mkAccountMap x (buckets m) (log2_buckets_count m) (bucket_pos_last m) (hasher_seed m) (headers m).
Definition set_buckets x m := mkAccountMap (num_entries m) x (log2_buckets_count m) (bucket_pos_last m) (hasher_seed m) (headers m).
Definition set_headers x m := mkAccountMap (num_entries m) (buckets m) (log2_buckets_count m) (bucket_pos_last m) (hasher_seed m) x.

Definition empty_bucket : AccountMapBucket := mkBucket (replicate 3 None) [].

(** The logarithm is computed in floating point, which is exact for the
    numbers of buckets that fit in memory. *)
Definition Init (hasher_seed NumBuckets BucketOverflowDesiredCapacity : Z) : option AccountMap :=
  if (0 <? NumBuckets) && (0 <? BucketOverflowDesiredCapacity) then
    let log2 := Z.log2_up NumBuckets in
    Some (mkAccountMap 0 (replicate (Z.to_nat (2 ^ log2)) empty_bucket) log2 (2 ^ log2 - 1) (Z.lor hasher_seed 1) [])
  else None.

Section table.
Context (hash : Address -> Z -> Z).
Abbreviation X := (M AccountMap).

(** ** Access *)
Definition get_bucket (pos : Z) : X AccountMapBucket :=
  s ← get_st; match buckets s !! Z.to_nat pos with Some b => ret b | None => panic "index out of range" end.
Definition put_bucket (pos : Z) (b : AccountMapBucket) : X () := modify_st (fun s => set_buckets (<[Z.to_nat pos := b]> (buckets s)) s).

Definition header (r : Ref) : X AccountMapEntryHeader :=
  s ← get_st; match headers s !! r with Some h => ret h | None => panic "nil pointer dereference" end.

Definition new_account (h : AccountMapEntryHeader) : X Ref :=
  s ← get_st; _ ← modify_st (set_headers (headers s ++ [h])); ret (length (headers s)).

Definition set_pos (r : Ref) (pos : Z) : X () :=
  h ← header r;
  modify_st (fun s => set_headers (<[r := mkHeader (hash_top h) (addr h) (pos_of_bucket h) pos]> (headers s)) s).

Definition entry (b : AccountMapBucket) (pos : Z) : option Ref := default None (entries b !! Z.to_nat pos).
Definition put_entry (pos : Z) (o : option Ref) (b : AccountMapBucket) : AccountMapBucket :=
  mkBucket (<[Z.to_nat pos := o]> (entries b)) (entries_overflow b).

(** ** [GetOrNew] *)
(** The loop over the positions of a bucket from [pos] on, [n] of them: the
    account, or the position of a new one. *)
Fixpoint scan (b : AccountMapBucket) (top : Z) (a : Address) (n : nat) (pos : Z) : X (Ref + Z) :=
  match n with
  | O => ret (inr pos)
  | S n =>
      let check r := (h ← header r;
        if bool_decide (hash_top h = top /\ addr h = a) then ret (inl r) else scan b top a n (u32 (pos + 1))) in
      if pos <? AccountMapBucketBaseSize then
        match entry b pos with None => ret (inr pos) | Some r => check r end
      else match entries_overflow b !! Z.to_nat (pos - AccountMapBucketBaseSize) with
           | Some r => check r
           | None => panic "index out of range"
           end
  end.

Definition get_or_new (a : Address) : X (Ref * bool) :=
  s ← get_st;
  let h := hash a (hasher_seed s) in
  let bucket_pos := u32 (Z.land h (bucket_pos_last s)) in
  let top := u32 (Z.shiftr h (log2_buckets_count s)) in
  b ← get_bucket bucket_pos;
  match entry b 1 with
  | Some _ =>
      found ← scan b top a (Z.to_nat (u32 (AccountMapBucketBaseSize + Z.of_nat (length (entries_overflow b))))) 0;
      match found with
      | inl r => ret (r, true)
      | inr pos =>
          r ← new_account (mkHeader top a bucket_pos pos);
          _ ← put_bucket bucket_pos (if pos <? AccountMapBucketBaseSize then put_entry pos (Some r) b
                                     else mkBucket (entries b) (entries_overflow b ++ [r]));
          ret (r, false)
      end
  | None =>
      let make pos := (r ← new_account (mkHeader top a bucket_pos pos); _ ← put_bucket bucket_pos (put_entry pos (Some r) b); ret (r, false)) in
      match entry b 0 with
      | Some r => h ← header r; if bool_decide (addr h = a) then ret (r, true) else make 1
      | None => make 0
      end
  end.

(** With the deferred count. *)
Definition GetOrNew (a : Address) : X (Ref * bool) :=
  '(r, was_present) ← get_or_new a;
  _ ← when (negb was_present) (modify_st (fun s => set_num (u64 (num_entries s + 1)) s));
  ret (r, was_present).

(** ** [Delete] *)
(** The loop from position [i] on: the last position that is taken, and its
    account if there is one beyond the first. *)
Fixpoint last_entry (b : AccountMapBucket) (fuel : nat) (i : Z) (last_acc : option Ref) : Z * option Ref :=
  match fuel with
  | O => (i - 1, last_acc)
  | S fuel =>
      if i <? AccountMapBucketBaseSize then
        match entry b i with Some r => last_entry b fuel (i + 1) (Some r) | None => (i - 1, last_acc) end
      else (i - 1, last_acc)
  end.

(** The last account takes the place of the deleted one. *)
Definition fill (bucket_pos pos : Z) (b : AccountMapBucket) (last_acc : option Ref) : X bool :=
  match last_acc with
  | None => panic "nil pointer dereference"
  | Some r =>
      _ ← set_pos r pos;
      _ ← put_bucket bucket_pos (if pos <? AccountMapBucketBaseSize then put_entry pos (Some r) b
                                 else mkBucket (entries b) (<[Z.to_nat (pos - AccountMapBucketBaseSize) := r]> (entries_overflow b)));
      ret true
  end.

Definition Delete (acc : Ref) : X bool :=
  h ← header acc;
  if pos_in_bucket h =? MaxUint32 then ret false else
  _ ← modify_st (fun s => set_num (u64 (num_entries s - 1)) s);
  b ← get_bucket (pos_of_bucket h);
  let pos := pos_in_bucket h in
  _ ← set_pos acc MaxUint32;
  let last_overflow_pos := Z.of_nat (length (entries_overflow b)) - 1 in
  if negb (last_overflow_pos =? -1) then
    let last_acc := entries_overflow b !! Z.to_nat last_overflow_pos in
    let b := mkBucket (entries b) (take (Z.to_nat last_overflow_pos) (entries_overflow b)) in
    _ ← put_bucket (pos_of_bucket h) b;
    if last_overflow_pos =? u32 (pos - AccountMapBucketBaseSize) then ret true else fill (pos_of_bucket h) pos b last_acc
  else
    let '(last_pos, last_acc) := last_entry b 3 (pos + 1) None in
    let b := put_entry last_pos None b in
    _ ← put_bucket (pos_of_bucket h) b;
    if last_pos =? pos then ret true else fill (pos_of_bucket h) pos b last_acc.
End table.
