(* ===== verification/AccountMapProps.v ===== *)
(** * The hash table refines a finite map

    A map from addresses to accounts, in which [GetOrNew] finds or makes an
    account and [Delete] takes one out by its reference, once. *)
From S2P Require Import Prelude Bytes AccountMap.
Local Open Scope Z_scope.

(** ** The abstract map *)
Record Spec := mkSpec { names : list Address; live : gmap Address Ref }.

Definition spec_get (a : Address) (s : Spec) : (Ref * bool) * Spec :=
  match live s !! a with
  | Some r => ((r, true), s)
  | None => let r := length (names s) in ((r, false), mkSpec (names s ++ [a]) (<[a := r]> (live s)))
  end.

Definition spec_delete (r : Ref) (s : Spec) : bool * Spec :=
  match names s !! r with
  | Some a => if decide (live s !! a = Some r) then (true, mkSpec (names s) (delete a (live s))) else (false, s)
  | None => (false, s)
  end.

(** ** A bucket and the list of its accounts *)
Definition bucket_of (l : list Ref) : AccountMapBucket := mkBucket (take 3 ((Some <$> l) ++ replicate 3 None)) (drop 3 l).

Lemma entry_bucket l (p : nat) : (p < 3)%nat -> entry (bucket_of l) (Z.of_nat p) = l !! p.
Proof.
  intros Hp. unfold entry. rewrite Nat2Z.id. unfold bucket_of. cbn [entries]. rewrite lookup_take_lt by done.
  destruct (decide (p < length l)%nat) as [Hl|Hl].
  - rewrite lookup_app_l by (by rewrite length_fmap). rewrite list_lookup_fmap. by destruct (l !! p).
  - rewrite lookup_app_r by (rewrite length_fmap; lia). rewrite lookup_replicate_2 by (rewrite length_fmap; lia). symmetry. apply lookup_ge_None_2. lia.
Qed.

Lemma overflow_bucket l (p : nat) : (3 <= p)%nat -> entries_overflow (bucket_of l) !! Z.to_nat (Z.of_nat p - AccountMapBucketBaseSize) = l !! p.
Proof. intros Hp. unfold bucket_of, AccountMapBucketBaseSize. cbn [entries_overflow]. rewrite lookup_drop. f_equal. lia. Qed.

(** Adding at the end, and putting the last account in a place. *)
Lemma bucket_snoc l r : bucket_of (l ++ [r]) =
  if Z.of_nat (length l) <? AccountMapBucketBaseSize then put_entry (Z.of_nat (length l)) (Some r) (bucket_of l)
  else mkBucket (entries (bucket_of l)) (entries_overflow (bucket_of l) ++ [r]).
Proof.
  destruct l as [|x [|y [|z l]]]; try done. destruct (Z.ltb_spec (Z.of_nat (length (x :: y :: z :: l))) AccountMapBucketBaseSize) as [Hl|_]; [|done].
  unfold AccountMapBucketBaseSize in Hl. simpl length in Hl. lia.
Qed.

Lemma bucket_insert l (p : nat) r : (p < length l)%nat -> bucket_of (<[p := r]> l) =
  if Z.of_nat p <? AccountMapBucketBaseSize then put_entry (Z.of_nat p) (Some r) (bucket_of l)
  else mkBucket (entries (bucket_of l)) (<[Z.to_nat (Z.of_nat p - AccountMapBucketBaseSize) := r]> (entries_overflow (bucket_of l))).
Proof.
  intros Hp. unfold AccountMapBucketBaseSize. destruct (Z.ltb_spec (Z.of_nat p) 3) as [H3|H3].
  - unfold put_entry, bucket_of. cbn [entries entries_overflow]. rewrite Nat2Z.id. f_equal.
    + rewrite list_fmap_insert, <- insert_app_l by (by rewrite length_fmap). by rewrite take_insert_lt by lia.
    + by rewrite drop_insert_lt by lia.
  - replace (Z.to_nat (Z.of_nat p - 3)) with (p - 3)%nat by lia. unfold bucket_of. cbn [entries entries_overflow]. f_equal.
    + rewrite list_fmap_insert, <- insert_app_l by (by rewrite length_fmap). by rewrite take_insert_ge by lia.
    + by rewrite drop_insert_ge by lia.
Qed.

(** Taking the last account out of a bucket. *)
Definition but_last (l : list Ref) : list Ref := take (length l - 1) l.

Lemma bucket_but_last l : (3 < length l)%nat ->
  mkBucket (entries (bucket_of l)) (take (length l - 4) (entries_overflow (bucket_of l))) = bucket_of (but_last l).
Proof.
  intros Hl. unfold bucket_of, but_last. cbn [entries entries_overflow]. destruct l as [|x [|y [|z [|u l]]]]; simpl in Hl; try lia. simpl. by rewrite !Nat.sub_0_r.
Qed.

Lemma bucket_small_but_last l : (0 < length l <= 3)%nat -> put_entry (Z.of_nat (length l) - 1) None (bucket_of l) = bucket_of (but_last l).
Proof. intros Hl. destruct l as [|x [|y [|z [|u l]]]]; simpl in Hl; try lia; done. Qed.

Lemma last_entry_small l (p : nat) : (p < length l <= 3)%nat ->
  last_entry (bucket_of l) 3 (Z.of_nat p + 1) None = (Z.of_nat (length l) - 1, if decide (p = length l - 1)%nat then None else l !! (length l - 1)%nat).
Proof.
  intros [Hp Hl]. destruct l as [|x [|y [|z [|u l]]]]; simpl in Hl, Hp; try lia; (destruct p as [|[|[|p]]]; [..|lia]); try lia; done.
Qed.

(** The bucket after the account at [p] is deleted. *)
Definition swap_remove (p : nat) (l : list Ref) : list Ref :=
  match l !! (length l - 1)%nat with
  | Some r => if decide (p = length l - 1)%nat then but_last l else <[p := r]> (but_last l)
  | None => l
  end.

Lemma length_but_last l : length (but_last l) = (length l - 1)%nat.
Proof. unfold but_last. rewrite length_take. lia. Qed.

Lemma lookup_swap_remove p l j : (p < length l)%nat -> swap_remove p l !! j =
  if decide (j < length l - 1)%nat then if decide (j = p) then l !! (length l - 1)%nat else l !! j else None.
Proof.
  intros Hp. unfold swap_remove. destruct (lookup_lt_is_Some_2 l (length l - 1)) as [r Hr]; [lia|]. rewrite Hr.
  destruct (decide (p = length l - 1)%nat) as [->|Hne].
  - unfold but_last. destruct (decide (j < length l - 1)%nat); [|apply lookup_ge_None_2; rewrite length_take; lia].
    rewrite lookup_take_lt by done. by rewrite decide_False by lia.
  - destruct (decide (j < length l - 1)%nat); [|apply lookup_ge_None_2; rewrite length_insert, length_but_last; lia].
    destruct (decide (j = p)) as [->|]; [by rewrite list_lookup_insert_eq by (rewrite length_but_last; lia)|].
    rewrite list_lookup_insert_ne by done. unfold but_last. by rewrite lookup_take_lt.
Qed.

(** ** The invariant *)
Section refine.
Context (hash : Address -> Z -> Z) (seed k : Z) (Hk : 0 <= k).
Abbreviation GetOrNew := (GetOrNew hash).

Definition bpos (a : Address) : Z := u32 (Z.land (hash a seed) (2 ^ k - 1)).
Definition top (a : Address) : Z := u32 (Z.shiftr (hash a seed) k).
Definition header_of (a : Address) (p : Z) : AccountMapEntryHeader := mkHeader (top a) a (bpos a) p.

(** The buckets are lists of the accounts that live, each under the hash of
    its address, and the headers know the positions. *)
Record table_of (s : Spec) (bs : list (list Ref)) (m : AccountMap) : Prop := mkTable {
  tb_buckets : buckets m = bucket_of <$> bs;
  tb_length : length bs = Z.to_nat (2 ^ k);
  tb_log2 : log2_buckets_count m = k;
  tb_last : bucket_pos_last m = 2 ^ k - 1;
  tb_seed : hasher_seed m = seed;
  tb_names : length (headers m) = length (names s);
  tb_header r a : names s !! r = Some a -> exists p, headers m !! r = Some (header_of a p) /\ (live s !! a <> Some r -> p = MaxUint32);
  tb_live a r : live s !! a = Some r -> names s !! r = Some a /\
    exists l j, bs !! Z.to_nat (bpos a) = Some l /\ l !! j = Some r;
  tb_cells i l j r : bs !! i = Some l -> l !! j = Some r -> exists a, names s !! r = Some a /\ live s !! a = Some r /\
    Z.to_nat (bpos a) = i /\ headers m !! r = Some (header_of a (Z.of_nat j));
  tb_num : num_entries m = u64 (Z.of_nat (size (live s)));
}.

Lemma bpos_range a : 0 <= bpos a < 2 ^ k.
Proof.
  unfold bpos. replace (2 ^ k - 1) with (Z.ones k) by (by rewrite Z.ones_equiv, Z.sub_1_r). rewrite Z.land_ones by done. pose proof (Z.mod_pos_bound (hash a seed) (2 ^ k) ltac:(lia)).
  pose proof (u32_range (hash a seed mod 2 ^ k)). pose proof (Z.mod_le (hash a seed mod 2 ^ k) (2 ^ 32) ltac:(lia) ltac:(lia)). unfold u32 in *. lia.
Qed.

Lemma bucket_at s bs m a : table_of s bs m -> exists l, bs !! Z.to_nat (bpos a) = Some l.
Proof. intros Ht. apply lookup_lt_is_Some_2. rewrite (tb_length _ _ _ Ht). pose proof (bpos_range a). lia. Qed.

Lemma get_bucket_done s bs m a l : table_of s bs m -> bs !! Z.to_nat (bpos a) = Some l -> get_bucket (bpos a) m = Done (bucket_of l) m.
Proof. intros Ht Hl. unfold get_bucket, get_st, bindM. by rewrite (tb_buckets _ _ _ Ht), list_lookup_fmap, Hl. Qed.

Lemma header_done r h m : headers m !! r = Some h -> header r m = Done h m.
Proof. intros E. unfold header, get_st, bindM. by rewrite E. Qed.

(** A bucket has no more accounts than there are. *)
Lemma cells_length s bs m i l : table_of s bs m -> bs !! i = Some l -> (length l <= length (names s))%nat.
Proof.
  intros Ht Hl. rewrite <- (length_seq (length (names s)) 0). apply submseteq_length, NoDup_submseteq.
  - apply NoDup_alt. intros j j' r Hj Hj'. destruct (tb_cells _ _ _ Ht i l j r Hl Hj) as (a & _ & _ & _ & E). destruct (tb_cells _ _ _ Ht i l j' r Hl Hj') as (a' & _ & _ & _ & E').
    rewrite E in E'. injection E' as _ _ _ E'. lia.
  - intros r [j Hj]%list_elem_of_lookup. destruct (tb_cells _ _ _ Ht i l j r Hl Hj) as (a & Hn & _). apply elem_of_seq. apply lookup_lt_Some in Hn. lia.
Qed.

(** ** Looking for an account *)
Definition named (s : Spec) (a : Address) (r : Ref) : Prop := names s !! r = Some a.
#[local] Instance named_dec s a r : Decision (named s a r) := decide_rel (=) (names s !! r) (Some a).

Lemma scan_done s bs m i l a : table_of s bs m -> bs !! i = Some l -> Z.of_nat (length (names s)) < MaxUint32 - 3 ->
  forall n p, (p <= length l)%nat -> (n + p = Nat.max 3 (length l))%nat ->
  scan (bucket_of l) (top a) a n (Z.of_nat p) m =
    Done (match list_find (named s a) (drop p l) with Some (_, r) => inl r | None => inr (Z.of_nat (length l)) end) m.
Proof.
  intros Ht Hl Hn n. pose proof (cells_length _ _ _ _ _ Ht Hl) as Hll. unfold MaxUint32 in Hn.
  induction n as [|n IH]; intros p Hp Hnp; cbn [scan].
  - assert (p = length l) as -> by lia. by rewrite drop_ge.
  - destruct (l !! p) as [r|] eqn:Er.
    + destruct (tb_cells _ _ _ Ht i l p r Hl Er) as (a' & Hna & _ & _ & Hh).
      assert ((if Z.of_nat p <? AccountMapBucketBaseSize then entry (bucket_of l) (Z.of_nat p)
               else entries_overflow (bucket_of l) !! Z.to_nat (Z.of_nat p - AccountMapBucketBaseSize)) = Some r) as Hent.
      { unfold AccountMapBucketBaseSize. destruct (Z.ltb_spec (Z.of_nat p) 3); [rewrite entry_bucket by lia; done|rewrite overflow_bucket by lia; done]. }
      pose proof (lookup_lt_Some _ _ _ Er) as Hlt.
      assert ((h ← header r; if bool_decide (hash_top h = top a /\ addr h = a) then ret (inl r) else scan (bucket_of l) (top a) a n (u32 (Z.of_nat p + 1))) m =
        Done (match list_find (named s a) (drop p l) with Some (_, r) => inl r | None => inr (Z.of_nat (length l)) end) m) as Hcheck.
      { rewrite (bind_done _ _ _ _ _ (header_done _ _ _ Hh)). cbn [hash_top addr header_of]. rewrite (drop_S l r p) by done. cbn [list_find].
        destruct (decide (named s a r)) as [Hna'|Hna'].
        - unfold named in Hna'. rewrite Hna in Hna'. injection Hna' as ->. by rewrite bool_decide_eq_true_2.
        - rewrite bool_decide_eq_false_2 by (intros [_ ->]; done). replace (u32 (Z.of_nat p + 1)) with (Z.of_nat (S p)) by (rewrite u32_small; lia).
          rewrite IH by lia. by destruct (list_find _ (drop (S p) l)) as [[? ?]|]. }
      destruct (_ <? _); rewrite Hent; exact Hcheck.
    + apply lookup_ge_None_1 in Er. assert (p = length l) as -> by lia. rewrite drop_ge by done. cbn [list_find].
      unfold AccountMapBucketBaseSize. rewrite (proj2 (Z.ltb_lt _ _)) by lia. rewrite entry_bucket by lia. by rewrite lookup_ge_None_2.
Qed.

(** What is found is the account of the map. *)
Lemma find_live s bs m a l : table_of s bs m -> bs !! Z.to_nat (bpos a) = Some l ->
  match list_find (named s a) l with Some (_, r) => live s !! a = Some r | None => live s !! a = None end.
Proof.
  intros Ht Hl. destruct (list_find _ l) as [[j r]|] eqn:E.
  - apply list_find_Some in E as (Hj & Hna & _). destruct (tb_cells _ _ _ Ht _ l j r Hl Hj) as (a' & Hna' & Hv & _). unfold named in Hna. congruence.
  - destruct (live s !! a) as [r|] eqn:Ev; [|done]. destruct (tb_live _ _ _ Ht a r Ev) as (Hna & l' & j & Hl' & Hj). rewrite Hl in Hl'. injection Hl' as <-.
    apply list_find_None in E. rewrite Forall_lookup in E. by destruct (E j r Hj).
Qed.

(** ** [GetOrNew] *)
Definition added (a : Address) (l : list Ref) (m : AccountMap) : AccountMap :=
  set_buckets (<[Z.to_nat (bpos a) := bucket_of (l ++ [length (headers m)])]> (buckets m))
    (set_headers (headers m ++ [header_of a (Z.of_nat (length l))]) m).

Lemma get_or_new_done s bs m a l : table_of s bs m -> bs !! Z.to_nat (bpos a) = Some l -> Z.of_nat (length (names s)) < MaxUint32 - 3 ->
  get_or_new hash a m = match list_find (named s a) l with Some (_, r) => Done (r, true) m | None => Done (length (headers m), false) (added a l m) end.
Proof.
  intros Ht Hl Hn. pose proof (cells_length _ _ _ _ _ Ht Hl) as Hll. unfold MaxUint32 in Hn.
  unfold get_or_new. unfold get_st at 1. unfold bindM at 1. cbv zeta. rewrite (tb_seed _ _ _ Ht), (tb_last _ _ _ Ht), (tb_log2 _ _ _ Ht).
  fold (bpos a) (top a). rewrite (bind_done _ _ _ _ _ (get_bucket_done _ _ _ _ _ Ht Hl)).
  change 1 with (Z.of_nat 1) at 1. rewrite entry_bucket by lia. destruct (l !! 1%nat) as [x|] eqn:E1.
  - apply lookup_lt_Some in E1.
    assert (Z.to_nat (u32 (AccountMapBucketBaseSize + Z.of_nat (length (entries_overflow (bucket_of l))))) = Nat.max 3 (length l)) as ->.
    { unfold AccountMapBucketBaseSize, bucket_of. cbn [entries_overflow]. rewrite length_drop, u32_small; lia. }
    pose proof (scan_done s bs m _ l a Ht Hl Hn (Nat.max 3 (length l)) 0 ltac:(lia) ltac:(lia)) as Es. rewrite drop_0 in Es. change (Z.of_nat 0) with 0 in Es.
    rewrite (bind_done _ _ _ _ _ Es). destruct (list_find _ l) as [[j r]|]; [done|].
    unfold new_account, put_bucket, bindM, get_st, modify_st, ret, added. cbn [headers set_headers buckets set_buckets]. by rewrite <- bucket_snoc.
  - change 0 with (Z.of_nat 0) at 1. rewrite entry_bucket by lia. destruct l as [|r [|? ?]]; [done| |done]. cbn [lookup list_lookup].
    destruct (tb_cells _ _ _ Ht _ [r] 0%nat r Hl eq_refl) as (a' & Hna & _ & _ & Hh). rewrite (bind_done _ _ _ _ _ (header_done _ _ _ Hh)).
    cbn [addr header_of list_find]. destruct (decide (named s a r)) as [Hna'|Hna'].
    + unfold named in Hna'. rewrite Hna in Hna'. injection Hna' as ->. by rewrite bool_decide_eq_true_2.
    + rewrite bool_decide_eq_false_2 by (intros ->; done). done.
Qed.

Lemma table_added s bs m a l : table_of s bs m -> bs !! Z.to_nat (bpos a) = Some l -> live s !! a = None ->
  table_of (mkSpec (names s ++ [a]) (<[a := length (names s)]> (live s))) (<[Z.to_nat (bpos a) := l ++ [length (headers m)]]> bs)
    (set_num (u64 (num_entries m + 1)) (added a l m)).
Proof.
  intros Ht Hl Hv. pose proof (tb_names _ _ _ Ht) as Hlen. rewrite Hlen. pose proof (lookup_lt_Some _ _ _ Hl) as Hi.
  assert (forall b r, live s !! b = Some r -> b <> a /\ r <> length (names s) /\ names s !! r = Some b) as Hold.
  { intros b r Hb. destruct (tb_live _ _ _ Ht b r Hb) as [Hnb _]. split; [intros ->; congruence|]. split; [|done]. apply lookup_lt_Some in Hnb. lia. }
  split; try (by apply Ht); cbn [names live headers buckets num_entries set_num set_buckets set_headers added].
  - rewrite Hlen, (tb_buckets _ _ _ Ht). by rewrite list_fmap_insert.
  - by rewrite length_insert, (tb_length _ _ _ Ht).
  - by rewrite !length_app, Hlen.
  - intros r b [Hr|[Hr Eb]]%lookup_app_Some.
    + destruct (tb_header _ _ _ Ht r b Hr) as (p & Hh & Hp). exists p. split; [by apply lookup_app_l_Some|]. intros Hne. apply Hp. intros Hb. destruct (Hold _ _ Hb).
      by rewrite lookup_insert_ne in Hne by done.
    + apply list_lookup_singleton_Some in Eb as [E <-]. assert (r = length (names s)) as -> by lia. eexists. split; [rewrite <- Hlen; apply list_lookup_middle; done|].
      by rewrite lookup_insert_eq.
  - intros b r. destruct (decide (b = a)) as [->|Hne].
    + rewrite lookup_insert_eq. intros [= <-]. split; [by apply list_lookup_middle|]. eexists _, (length l). rewrite list_lookup_insert_eq by done. split; [done|]. by apply list_lookup_middle.
    + rewrite lookup_insert_ne by done. intros Hb. destruct (tb_live _ _ _ Ht b r Hb) as (Hnb & l' & j & Hl' & Hj). split; [by apply lookup_app_l_Some|].
      destruct (decide (Z.to_nat (bpos b) = Z.to_nat (bpos a))) as [E|E].
      * exists (l ++ [length (names s)]), j. rewrite E, list_lookup_insert_eq by done. split; [done|]. apply lookup_app_l_Some. rewrite E in Hl'. congruence.
      * exists l', j. by rewrite list_lookup_insert_ne.
  - intros i l' j r Hl' Hj.
    assert (forall l0, bs !! i = Some l0 -> l0 !! j = Some r -> exists b, (names s ++ [a]) !! r = Some b /\ <[a := length (names s)]> (live s) !! b = Some r /\
      Z.to_nat (bpos b) = i /\ (headers m ++ [header_of a (Z.of_nat (length l))]) !! r = Some (header_of b (Z.of_nat j))) as Hc.
    { intros l0 Hl0 Hj0. destruct (tb_cells _ _ _ Ht i l0 j r Hl0 Hj0) as (b & Hnb & Hb & Ei & Eh). exists b. destruct (Hold _ _ Hb) as (Hne & _).
      split_and!; [by apply lookup_app_l_Some|by rewrite lookup_insert_ne|done|by apply lookup_app_l_Some]. }
    destruct (decide (i = Z.to_nat (bpos a))) as [->|Hne]; [|rewrite list_lookup_insert_ne in Hl' by done; by eapply Hc].
    rewrite list_lookup_insert_eq in Hl' by done. injection Hl' as <-. apply lookup_app_Some in Hj as [Hj|[Hj Er]]; [by eapply Hc|].
    apply list_lookup_singleton_Some in Er as [Ej <-]. exists a. split_and!; [by apply list_lookup_middle|by rewrite lookup_insert_eq|done|].
    assert (j = length l) as -> by lia. rewrite <- Hlen. by apply list_lookup_middle.
  - rewrite (tb_num _ _ _ Ht), map_size_insert_None by done. unfold u64. rewrite Zplus_mod_idemp_l. f_equal. lia.
Qed.

Lemma GetOrNew_done s bs m a : table_of s bs m -> Z.of_nat (length (names s)) < MaxUint32 - 3 ->
  exists bs' m', GetOrNew a m = Done (fst (spec_get a s)) m' /\ table_of (snd (spec_get a s)) bs' m'.
Proof.
  intros Ht Hn. destruct (bucket_at s bs m a Ht) as [l Hl]. pose proof (get_or_new_done s bs m a l Ht Hl Hn) as E. pose proof (find_live s bs m a l Ht Hl) as Hf.
  unfold AccountMap.GetOrNew, spec_get. destruct (list_find _ l) as [[j r]|].
  - rewrite Hf. exists bs, m. rewrite (bind_done _ _ _ _ _ E). by split.
  - rewrite Hf. eexists _, (set_num (u64 (num_entries m + 1)) (added a l m)). rewrite (bind_done _ _ _ _ _ E). split; [|by apply table_added].
    by rewrite (tb_names _ _ _ Ht).
Qed.

(** ** [Delete] *)
Lemma fill_done i (p : nat) l r h m : (p < length l - 1)%nat -> l !! (length l - 1)%nat = Some r -> headers m !! r = Some h ->
  fill i (Z.of_nat p) (bucket_of (but_last l)) (Some r) m =
    Done true (set_buckets (<[Z.to_nat i := bucket_of (swap_remove p l)]> (buckets m))
      (set_headers (<[r := mkHeader (hash_top h) (addr h) (pos_of_bucket h) (Z.of_nat p)]> (headers m)) m)).
Proof.
  intros Hp Hr Hh. unfold fill, set_pos. rewrite bind_assoc, (bind_done _ _ _ _ _ (header_done _ _ _ Hh)).
  unfold swap_remove. rewrite Hr, decide_False by lia. rewrite bucket_insert by (rewrite length_but_last; lia). reflexivity.
Qed.

(** The state after the account at position [p] of the bucket [l] is deleted. *)
Definition removed (a : Address) (r : Ref) (p : nat) (l : list Ref) (m : AccountMap) : AccountMap :=
  set_buckets (<[Z.to_nat (bpos a) := bucket_of (swap_remove p l)]> (buckets m))
    (set_headers
      (match l !! (length l - 1)%nat with
       | Some r' => if decide (p = length l - 1)%nat then id else alter (fun h => mkHeader (hash_top h) (addr h) (pos_of_bucket h) (Z.of_nat p)) r'
       | None => id
       end (<[r := header_of a MaxUint32]> (headers m)))
      (set_num (u64 (num_entries m - 1)) m)).

Lemma Delete_done s bs m a r l p : table_of s bs m -> Z.of_nat (length (names s)) < MaxUint32 - 3 ->
  bs !! Z.to_nat (bpos a) = Some l -> l !! p = Some r -> headers m !! r = Some (header_of a (Z.of_nat p)) ->
  Delete r m = Done true (removed a r p l m).
Proof.
  intros Ht Hn Hl Hp Hh. pose proof (cells_length _ _ _ _ _ Ht Hl) as Hll. pose proof (lookup_lt_Some _ _ _ Hp) as Hpl. unfold MaxUint32 in Hn.
  pose proof (lookup_lt_Some _ _ _ Hh) as Hrl.
  destruct (lookup_lt_is_Some_2 l (length l - 1)) as [r2 Hr2]; [lia|].
  destruct (tb_cells _ _ _ Ht _ l _ r2 Hl Hr2) as (a2 & _ & _ & _ & Hh2).
  assert (p <> length l - 1 -> r <> r2)%nat as Hne.
  { intros Hpn ->. rewrite Hh in Hh2. injection Hh2 as _ _ _ E. lia. }
  unfold Delete. rewrite (bind_done _ _ _ _ _ (header_done _ _ _ Hh)). cbn [pos_in_bucket pos_of_bucket header_of].
  rewrite (proj2 (Z.eqb_neq _ _)) by (unfold MaxUint32; lia).
  set (m1 := set_num (u64 (num_entries m - 1)) m). change (bindM (modify_st _) ?f m) with (f tt m1). cbv beta.
  assert (get_bucket (bpos a) m1 = Done (bucket_of l) m1) as Eb by (unfold get_bucket, get_st, bindM, m1; cbn; by rewrite (tb_buckets _ _ _ Ht), list_lookup_fmap, Hl).
  rewrite (bind_done _ _ _ _ _ Eb). cbv zeta.
  set (m2 := set_headers (<[r := header_of a MaxUint32]> (headers m)) m1).
  assert (set_pos r MaxUint32 m1 = Done tt m2) as Es by (unfold set_pos; by rewrite (bind_done _ _ m1 _ _ (header_done r (header_of a (Z.of_nat p)) m1 Hh))).
  rewrite (bind_done _ _ _ _ _ Es).
  assert (forall b i, put_bucket i b m2 = Done tt (set_buckets (<[Z.to_nat i := b]> (buckets m)) m2)) as Ep by done.
  assert (p <> length l - 1 -> forall m3, m3 = set_buckets (<[Z.to_nat (bpos a) := bucket_of (but_last l)]> (buckets m)) m2 ->
    fill (bpos a) (Z.of_nat p) (bucket_of (but_last l)) (Some r2) m3 = Done true (removed a r p l m))%nat as Hfill.
  { intros Hpn m3 ->. rewrite (fill_done _ p l r2 (header_of a2 (Z.of_nat (length l - 1)))); [|lia|done|cbn; by rewrite list_lookup_insert_ne by auto].
    unfold removed. rewrite Hr2, decide_False by done. unfold m2, m1, set_buckets, set_headers, set_num.
    cbn [buckets headers num_entries log2_buckets_count bucket_pos_last hasher_seed header_of hash_top addr pos_of_bucket]. rewrite list_insert_insert_eq. do 2 f_equal.
    apply list_eq. intros x. destruct (decide (x = r2)) as [->|Hx].
    - rewrite list_lookup_insert_eq by (rewrite length_insert; by eapply lookup_lt_Some). rewrite list_lookup_alter_eq, list_lookup_insert_ne by auto. by rewrite Hh2.
    - by rewrite list_lookup_insert_ne, list_lookup_alter_ne by done. }
  assert (p = length l - 1 -> removed a r p l m = set_buckets (<[Z.to_nat (bpos a) := bucket_of (but_last l)]> (buckets m)) m2)%nat as Hlast.
  { intros E. unfold removed, swap_remove. by rewrite Hr2, !decide_True by done. }
  assert (length (entries_overflow (bucket_of l)) = length l - 3)%nat as Eo by (unfold bucket_of; cbn [entries_overflow]; apply length_drop). rewrite Eo.
  destruct (Nat.le_gt_cases (length l) 3) as [Hs|Hs].
  - rewrite (proj2 (Z.eqb_eq _ _)) by lia. cbn [negb]. rewrite last_entry_small by lia. rewrite bucket_small_but_last by lia. rewrite (bind_done _ _ _ _ _ (Ep _ _)).
    destruct (decide (p = length l - 1)%nat) as [E|E].
    + rewrite (proj2 (Z.eqb_eq _ _)) by lia. by rewrite Hlast.
    + rewrite (proj2 (Z.eqb_neq _ _)) by lia. rewrite Hr2. by apply Hfill.
  - rewrite (proj2 (Z.eqb_neq _ _)) by lia. cbn [negb]. replace (Z.to_nat (Z.of_nat (length l - 3) - 1)) with (length l - 4)%nat by lia.
    rewrite bucket_but_last by lia. rewrite (bind_done _ _ _ _ _ (Ep _ _)).
    assert (entries_overflow (bucket_of l) !! (length l - 4)%nat = Some r2) as ->.
    { unfold bucket_of. cbn [entries_overflow]. rewrite lookup_drop. rewrite <- Hr2. f_equal. lia. }
    unfold AccountMapBucketBaseSize. destruct (Z.eqb_spec (Z.of_nat (length l - 3) - 1) (u32 (Z.of_nat p - 3))) as [E|E].
    + assert (p = length l - 1)%nat as E'; [|by rewrite Hlast].
      destruct (Nat.le_gt_cases 3 p) as [H3|H3]; [rewrite u32_small in E by lia; lia|]. unfold u32 in E. rewrite <- (Z_mod_plus_full _ 1), Z.mod_small in E by lia. lia.
    + apply Hfill; [|done]. intros ->. rewrite u32_small in E by lia. lia.
Qed.

Lemma removed_headers a r p l m x : l !! p = Some r -> (r < length (headers m))%nat ->
  (l !! (length l - 1)%nat = Some r -> p = length l - 1)%nat -> headers (removed a r p l m) !! x =
  if decide (x = r) then Some (header_of a MaxUint32)
  else if decide (l !! (length l - 1)%nat = Some x) then (fun h => mkHeader (hash_top h) (addr h) (pos_of_bucket h) (Z.of_nat p)) <$> headers m !! x
  else headers m !! x.
Proof.
  intros Hp Hr Hone. unfold removed. cbn [headers set_buckets set_headers]. destruct (l !! (length l - 1)%nat) as [r2|] eqn:E2.
  2: { apply lookup_ge_None_1 in E2. apply lookup_lt_Some in Hp. lia. }
  destruct (decide (p = length l - 1)%nat) as [E|E]; cbn [id].
  - assert (r2 = r) as -> by congruence. destruct (decide (x = r)) as [->|Hx]; [by rewrite list_lookup_insert_eq|]. rewrite list_lookup_insert_ne by done.
    by rewrite decide_False by congruence.
  - destruct (decide (r2 = r)) as [->|Hne]; [by destruct E; apply Hone|]. destruct (decide (x = r2)) as [->|Hx].
    + by rewrite list_lookup_alter_eq, list_lookup_insert_ne, decide_False, decide_True by done.
    + rewrite list_lookup_alter_ne by done. destruct (decide (x = r)) as [->|Hxr]; [by rewrite list_lookup_insert_eq|]. rewrite list_lookup_insert_ne by done.
      by rewrite decide_False by congruence.
Qed.

Lemma table_removed s bs m a r l p : table_of s bs m -> live s !! a = Some r -> bs !! Z.to_nat (bpos a) = Some l -> l !! p = Some r ->
  headers m !! r = Some (header_of a (Z.of_nat p)) ->
  table_of (mkSpec (names s) (delete a (live s))) (<[Z.to_nat (bpos a) := swap_remove p l]> bs) (removed a r p l m).
Proof.
  intros Ht Hv Hl Hp Hh. pose proof (lookup_lt_Some _ _ _ Hl) as Hi. pose proof (lookup_lt_Some _ _ _ Hp) as Hpl.
  assert (forall j x b q, l !! j = Some x -> headers m !! x = Some (header_of b (Z.of_nat q)) -> q = j) as Hpos.
  { intros j x b q Hj Hx. destruct (tb_cells _ _ _ Ht _ l j x Hl Hj) as (b' & _ & _ & _ & Hx'). rewrite Hx in Hx'. injection Hx' as _ _ _ E. lia. }
  assert (forall x, headers (removed a r p l m) !! x = if decide (x = r) then Some (header_of a MaxUint32)
    else if decide (l !! (length l - 1)%nat = Some x) then (fun h => mkHeader (hash_top h) (addr h) (pos_of_bucket h) (Z.of_nat p)) <$> headers m !! x
    else headers m !! x) as Hrh.
  { intros x. apply removed_headers; [done|by eapply lookup_lt_Some|]. intros E. by eapply Hpos. }
  assert (forall b x, live s !! b = Some x -> x <> r -> delete a (live s) !! b = Some x) as Hdel.
  { intros b x Hb Hx. rewrite lookup_delete_ne; [done|]. intros ->. congruence. }
  split; try (by apply Ht); cbn [names live].
  - cbn [removed buckets set_buckets]. by rewrite (tb_buckets _ _ _ Ht), list_fmap_insert.
  - by rewrite length_insert, (tb_length _ _ _ Ht).
  - rewrite <- (tb_names _ _ _ Ht). unfold removed. cbn [headers set_buckets set_headers].
    destruct (l !! (length l - 1)%nat) as [r2|]; [destruct (decide _)|]; cbn [id]; by rewrite ?length_alter, length_insert.
  - intros x b Hx. destruct (tb_header _ _ _ Ht x b Hx) as (q & Eq & Hq). rewrite Hrh. destruct (decide (x = r)) as [->|Hne].
    { assert (b = a) as -> by (destruct (tb_live _ _ _ Ht a r Hv); congruence). eexists. split; [done|done]. }
    destruct (decide (l !! _ = Some x)) as [Hlast|_].
    + rewrite Eq. eexists. split; [reflexivity|]. intros Hd. destruct (tb_cells _ _ _ Ht _ l _ x Hl Hlast) as (b' & Hb' & Hv' & _).
      assert (b' = b) as -> by congruence. destruct Hd. by apply Hdel.
    + exists q. split; [done|]. intros Hd. apply Hq. intros Hb. by destruct Hd; apply Hdel.
  - intros b x Hb. apply lookup_delete_Some in Hb as [Hba Hb]. destruct (tb_live _ _ _ Ht b x Hb) as (Hx & l' & j & Hl' & Hj). split; [done|].
    assert (x <> r) as Hne. { intros ->. destruct (tb_live _ _ _ Ht a r Hv). congruence. }
    destruct (decide (Z.to_nat (bpos b) = Z.to_nat (bpos a))) as [E|E]; [|exists l', j; by rewrite list_lookup_insert_ne].
    rewrite E in Hl' |- *. rewrite Hl in Hl'. injection Hl' as <-. rewrite list_lookup_insert_eq by done. exists (swap_remove p l).
    assert (j <> p) as Hjp by congruence. pose proof (lookup_lt_Some _ _ _ Hj). destruct (decide (j < length l - 1)%nat) as [Hlt|Hge].
    + exists j. split; [done|]. rewrite lookup_swap_remove, decide_True, decide_False by done. done.
    + exists p. split; [done|]. rewrite lookup_swap_remove, decide_True, decide_True by (done || lia). rewrite <- Hj. f_equal. lia.
  - intros i l' j x Hl' Hj. destruct (decide (i = Z.to_nat (bpos a))) as [->|Hne].
    + rewrite list_lookup_insert_eq in Hl' by done. injection Hl' as <-. rewrite lookup_swap_remove in Hj by done.
      destruct (decide (j < length l - 1)%nat) as [Hlt|]; [|done]. destruct (decide (j = p)) as [->|Hjp].
      * destruct (tb_cells _ _ _ Ht _ l _ x Hl Hj) as (b & Hx & Hb & Ei & Ex). assert (x <> r) as Hxr. { intros ->. assert (p = length l - 1)%nat; [by eapply Hpos|lia]. }
        exists b. split_and!; [done|by apply Hdel|done|]. rewrite Hrh, decide_False, decide_True, Ex by done. done.
      * destruct (tb_cells _ _ _ Ht _ l j x Hl Hj) as (b & Hx & Hb & Ei & Ex). assert (x <> r) as Hxr. { intros ->. apply Hjp. symmetry. by eapply Hpos. }
        exists b. split_and!; [done|by apply Hdel|done|]. rewrite Hrh, decide_False by done. rewrite decide_False; [done|]. intros Elast.
        assert (j = length l - 1)%nat; [by eapply Hpos|lia].
    + rewrite list_lookup_insert_ne in Hl' by done. destruct (tb_cells _ _ _ Ht i l' j x Hl' Hj) as (b & Hx & Hb & Ei & Ex).
      assert (forall q, l !! q = Some x -> False) as Hno.
      { intros q Hq. destruct (tb_cells _ _ _ Ht _ l q x Hl Hq) as (b' & Hx' & _ & Ei' & _). apply Hne. congruence. }
      exists b. split_and!; [done|apply Hdel; [done|intros ->; by eapply Hno]|done|]. rewrite Hrh, decide_False, decide_False; [done|intros E; by eapply Hno|intros ->; by eapply Hno].
  - unfold removed. cbn [num_entries set_buckets set_headers set_num]. rewrite (tb_num _ _ _ Ht), map_size_delete, Hv. cbn.
    assert (0 < size (live s))%nat as Hz. { destruct (decide (size (live s) = 0)%nat) as [E|]; [|lia]. apply map_size_empty_inv in E. rewrite E, lookup_empty in Hv. done. }
    unfold u64. rewrite Zminus_mod_idemp_l. f_equal. lia.
Qed.

Lemma Delete_step s bs m r : table_of s bs m -> Z.of_nat (length (names s)) < MaxUint32 - 3 -> (r < length (names s))%nat ->
  exists bs' m', Delete r m = Done (fst (spec_delete r s)) m' /\ table_of (snd (spec_delete r s)) bs' m'.
Proof.
  intros Ht Hn Hr. unfold spec_delete. destruct (lookup_lt_is_Some_2 _ _ Hr) as [a Ha]. rewrite Ha.
  destruct (decide (live s !! a = Some r)) as [Hv|Hv].
  - destruct (tb_live _ _ _ Ht a r Hv) as (_ & l & p & Hl & Hp). destruct (tb_cells _ _ _ Ht _ l p r Hl Hp) as (a' & Ha' & _ & _ & Hh).
    assert (a' = a) as -> by congruence. eexists _, (removed a r p l m). split; [by eapply Delete_done|]. by apply table_removed.
  - destruct (tb_header _ _ _ Ht r a Ha) as (p & Hh & Hp). rewrite (Hp Hv) in Hh. exists bs, m. split; [|done].
    unfold Delete. by rewrite (bind_done _ _ _ _ _ (header_done _ _ _ Hh)).
Qed.

(** ** Runs *)
Inductive Op := OGetOrNew (a : Address) | ODelete (acc : Ref).
Definition Res : Type := (Ref * bool) + bool.

Definition do_op (o : Op) : M AccountMap Res :=
  match o with OGetOrNew a => r ← GetOrNew a; ret (inl r) | ODelete r => b ← Delete r; ret (inr b) end.
Definition spec_op (o : Op) (s : Spec) : Res * Spec :=
  match o with OGetOrNew a => let '(r, s) := spec_get a s in (inl r, s) | ODelete r => let '(b, s) := spec_delete r s in (inr b, s) end.

Fixpoint do_ops (os : list Op) : M AccountMap (list Res) :=
  match os with [] => ret [] | o :: os => x ← do_op o; xs ← do_ops os; ret (x :: xs) end.
Fixpoint spec_ops (os : list Op) (s : Spec) : list Res * Spec :=
  match os with [] => ([], s) | o :: os => let '(x, s) := spec_op o s in let '(xs, s) := spec_ops os s in (x :: xs, s) end.

(** What is deleted is an account that the table has made. *)
Fixpoint made_before (os : list Op) (s : Spec) : Prop :=
  match os with
  | [] => True
  | o :: os => match o with OGetOrNew _ => True | ODelete r => (r < length (names s))%nat end /\ made_before os (snd (spec_op o s))
  end.

Lemma spec_op_names o s : (length (names (snd (spec_op o s))) <= S (length (names s)))%nat.
Proof.
  destruct o as [a|r]; cbn [spec_op].
  - unfold spec_get. destruct (live s !! a); cbn; [lia|]. rewrite length_app. simpl. lia.
  - unfold spec_delete. destruct (names s !! r); [|cbn; lia]. destruct (decide _); cbn; lia.
Qed.

Lemma ops_done os : forall s bs m, table_of s bs m -> Z.of_nat (length (names s) + length os) < MaxUint32 - 3 -> made_before os s ->
  exists bs' m', do_ops os m = Done (fst (spec_ops os s)) m' /\ table_of (snd (spec_ops os s)) bs' m'.
Proof.
  induction os as [|o os IH]; intros s bs m Ht Hn Hm; cbn [do_ops spec_ops]; [by exists bs, m|]. destruct Hm as [Ho Hm]. simpl length in Hn.
  assert (exists bs' m', do_op o m = Done (fst (spec_op o s)) m' /\ table_of (snd (spec_op o s)) bs' m') as (bs1 & m1 & E1 & Ht1).
  { destruct o as [a|r]; cbn [do_op spec_op].
    - destruct (GetOrNew_done s bs m a Ht ltac:(lia)) as (bs1 & m1 & E1 & Ht1). exists bs1, m1. rewrite (bind_done _ _ _ _ _ E1). by destruct (spec_get a s).
    - destruct (Delete_step s bs m r Ht ltac:(lia) Ho) as (bs1 & m1 & E1 & Ht1). exists bs1, m1. rewrite (bind_done _ _ _ _ _ E1). by destruct (spec_delete r s). }
  pose proof (spec_op_names o s) as Hlen. destruct (spec_op o s) as [x s1]. cbn [fst snd] in *.
  destruct (IH s1 bs1 m1 Ht1 ltac:(lia) Hm) as (bs2 & m2 & E2 & Ht2). exists bs2, m2. rewrite (bind_done _ _ _ _ _ E1), (bind_done _ _ _ _ _ E2). by destruct (spec_ops os s1).
Qed.
End refine.

Definition no_accounts : Spec := mkSpec [] ∅.

Lemma Init_table seed num capacity : 0 < num -> 0 < capacity -> exists m, Init seed num capacity = Some m /\
  forall hash, table_of hash (Z.lor seed 1) (Z.log2_up num) no_accounts (replicate (Z.to_nat (2 ^ Z.log2_up num)) []) m.
Proof.
  intros Hn Hc. unfold Init. rewrite (proj2 (Z.ltb_lt _ _) Hn), (proj2 (Z.ltb_lt _ _) Hc). eexists. split; [reflexivity|]. intros hash.
  split; try done; cbn [buckets names live].
  - by rewrite fmap_replicate.
  - by rewrite length_replicate.
  - intros i l j r [-> _]%lookup_replicate. done.
Qed.

(** C37: The hash table of accounts is a finite map from addresses to accounts.
    Whatever the hash function, the seed and the number of buckets, a run of
    [GetOrNew] and [Delete] (of accounts it has made, twice too) never panics
    and returns what the finite map returns: the account under the address or
    a new one, and whether it was there; the count is the size of the map.
    The move of the last account of a bucket into the gap that a deletion
    leaves loses none. *)
Theorem account_map_refines hash seed num capacity os :
  0 < num -> 0 < capacity -> Z.of_nat (length os) < MaxUint32 - 3 -> made_before os no_accounts ->
  exists m0 m, Init seed num capacity = Some m0 /\ do_ops hash os m0 = Done (fst (spec_ops os no_accounts)) m /\
    num_entries m = u64 (Z.of_nat (size (live (snd (spec_ops os no_accounts))))).
Proof.
  intros Hn Hc Hos Hm. destruct (Init_table seed num capacity Hn Hc) as (m0 & E0 & Ht).
  destruct (ops_done hash (Z.lor seed 1) (Z.log2_up num) (Z.log2_up_nonneg _) os no_accounts _ m0 (Ht hash) Hos Hm) as (bs & m & E & Htm).
  exists m0, m. split; [done|]. split; [exact E|]. apply (tb_num _ _ _ _ _ _ Htm).
Qed.

(** Seven accounts in two buckets, two deletions and one again. *)
Definition some_ops : list Op :=
  (OGetOrNew ∘ addr_of_Z <$> [1; 2; 3; 4; 5; 6; 7]) ++ [ODelete 2; ODelete 2; ODelete 6; OGetOrNew (addr_of_Z 3); OGetOrNew (addr_of_Z 5)]%nat.

Lemma account_map_refines_witness : exists m0 m, Init 12345 2 4 = Some m0 /\
  do_ops (hash_addr 99) some_ops m0 = Done (fst (spec_ops some_ops no_accounts)) m /\
  fst (spec_ops some_ops no_accounts) = ((fun n => inl (n, false)) <$> seq 0 7) ++ [inr true; inr false; inr true; inl (7, false); inl (4, true)]%nat.
Proof.
  destruct (account_map_refines (hash_addr 99) 12345 2 4 some_ops) as (m0 & m & E0 & E & _); [done|done|done|repeat split; vm_compute; lia|].
  exists m0, m. split; [exact E0|]. split; [exact E|vm_compute; reflexivity].
Defined.
