(* ===== verification/StateEvm.v ===== *)
(** * The state of the EVM: [taraxa/state/state_evm]

    [TransitionState] keeps the accounts a transaction has touched, with a
    journal of closures that undo its changes.  A closure is a constructor of
    [Revert].  Accounts are Go pointers: an operation on a pointer works on
    the entry of the account's address, which [GetAccount] has made.  The
    hash table of [account_map.go] is a finite map here.  What a commit writes
    is a trace of operations of the interface [Output]. *)
From S2P Require Import Prelude Bytes Crypto Uint256 EvmWord EvmBase.
Local Open Scope Z_scope.

(** ** Data *)
(** [state_db.Account]. *)
Record DbAccount := mkDbAccount {
  acc_Nonce : Z;
  acc_Balance : Z;
  StorageRootHash : option bytes;
  acc_CodeHash : option bytes;
  acc_CodeSize : Z;
}.

(** [Input]: what is read from the database.  [GetAccountStorage] calls its
    callback with a non-empty value only. *)
Record StateInput := mkStateInput {
  in_GetCode : option bytes -> bytes;
  in_GetAccount : Address -> option DbAccount;
  in_GetAccountStorage : Address -> bytes -> option bytes;
}.

(** [AccountBody], with the fields of [AccountChange].  The keys of the
    storage maps, strings of the words of the integer, stand for it. *)
Record AccountBody := mkBody {
  b_acc : DbAccount;
  StorageDirty : gmap Z Z;
  RawStorageDirty : gmap bytes bytes;
  b_Code : option bytes;
  CodeDirty : bool;
  suicided : bool;
  sink : option nat;
  storage_origin : option (gmap Z Z);
  times_touched : Z;
  mod_count : Z;
}.

Record AccountEntry := mkAccount {
  body : option AccountBody;
  in_dirties : bool;
  in_curr_version : bool;
  loaded_from_db : bool;
  deleted : bool;
}.

(** The closures of the journal; those of accounts first decrement
    [mod_count]. *)
Inductive Revert :=
| RevStorage (addr : Address) (key prev : Z)
| RevTouch (addr : Address)
| RevBalance (addr : Address) (prev : Z)
| RevNonce (addr : Address) (prev : Z)
| RevCode (addr : Address)
| RevSuicide (addr : Address) (suicided : bool) (balance_prev : Z)
| RevExists (addr : Address) (was_deleted : bool)
| RevLogs (pos : nat)
| RevRefund (prev : Z).

Record TransitionState := mkTransitionState {
  ts_in : StateInput;
  accounts : gmap Address AccountEntry;
  accounts_in_curr_ver : list Address;
  ts_reverts : list Revert;
  dirties : list Address;
  ts_logs : list LogRecord;
  refund : Z;
  transientStorage : gmap Address (gmap bytes bytes);
}.

Section setters.
Implicit Types (s : TransitionState) (b : AccountBody) (a : AccountEntry).
Definition set_accounts x s := mkTransitionState (ts_in s) x (accounts_in_curr_ver s) (ts_reverts s) (dirties s) (ts_logs s) (refund s) (transientStorage s).
Definition set_curr_ver x s := mkTransitionState (ts_in s) (accounts s) x (ts_reverts s) (dirties s) (ts_logs s) (refund s) (transientStorage s).
Definition set_reverts x s := mkTransitionState (ts_in s) (accounts s) (accounts_in_curr_ver s) x (dirties s) (ts_logs s) (refund s) (transientStorage s).
Definition set_ts_logs x s := mkTransitionState (ts_in s) (accounts s) (accounts_in_curr_ver s) (ts_reverts s) (dirties s) x (refund s) (transientStorage s).
Definition set_refund x s := mkTransitionState (ts_in s) (accounts s) (accounts_in_curr_ver s) (ts_reverts s) (dirties s) (ts_logs s) x (transientStorage s).
Definition set_dirties x s := mkTransitionState (ts_in s) (accounts s) (accounts_in_curr_ver s) (ts_reverts s) x (ts_logs s) (refund s) (transientStorage s).
Definition set_transient x s := mkTransitionState (ts_in s) (accounts s) (accounts_in_curr_ver s) (ts_reverts s) (dirties s) (ts_logs s) (refund s) x.

Definition set_body x a := mkAccount x (in_dirties a) (in_curr_version a) (loaded_from_db a) (deleted a).
Definition set_deleted x a := mkAccount (body a) (in_dirties a) (in_curr_version a) (loaded_from_db a) x.
Definition set_in_dirties x a := mkAccount (body a) x (in_curr_version a) (loaded_from_db a) (deleted a).
Definition set_in_curr x a := mkAccount (body a) (in_dirties a) x (loaded_from_db a) (deleted a).

Definition set_acc x b := mkBody x (StorageDirty b) (RawStorageDirty b) (b_Code b) (CodeDirty b) (suicided b) (sink b) (storage_origin b) (times_touched b) (mod_count b).
Definition set_dirty x b := mkBody (b_acc b) x (RawStorageDirty b) (b_Code b) (CodeDirty b) (suicided b) (sink b) (storage_origin b) (times_touched b) (mod_count b).
Definition set_raw x b := mkBody (b_acc b) (StorageDirty b) x (b_Code b) (CodeDirty b) (suicided b) (sink b) (storage_origin b) (times_touched b) (mod_count b).
Definition set_code x dirty b := mkBody (b_acc b) (StorageDirty b) (RawStorageDirty b) x dirty (suicided b) (sink b) (storage_origin b) (times_touched b) (mod_count b).
Definition set_suicided x b := mkBody (b_acc b) (StorageDirty b) (RawStorageDirty b) (b_Code b) (CodeDirty b) x (sink b) (storage_origin b) (times_touched b) (mod_count b).
Definition set_sink x b := mkBody (b_acc b) (StorageDirty b) (RawStorageDirty b) (b_Code b) (CodeDirty b) (suicided b) x (storage_origin b) (times_touched b) (mod_count b).
Definition set_origin x b := mkBody (b_acc b) (StorageDirty b) (RawStorageDirty b) (b_Code b) (CodeDirty b) (suicided b) (sink b) x (times_touched b) (mod_count b).
Definition set_touched x b := mkBody (b_acc b) (StorageDirty b) (RawStorageDirty b) (b_Code b) (CodeDirty b) (suicided b) (sink b) (storage_origin b) x (mod_count b).
Definition set_mod_count x b := mkBody (b_acc b) (StorageDirty b) (RawStorageDirty b) (b_Code b) (CodeDirty b) (suicided b) (sink b) (storage_origin b) (times_touched b) x.
Definition set_b_balance x b :=
  let d := b_acc b in set_acc (mkDbAccount (acc_Nonce d) x (StorageRootHash d) (acc_CodeHash d) (acc_CodeSize d)) b.
Definition set_b_nonce x b :=
  let d := b_acc b in set_acc (mkDbAccount x (acc_Balance d) (StorageRootHash d) (acc_CodeHash d) (acc_CodeSize d)) b.
Definition set_b_code h n b :=
  let d := b_acc b in set_acc (mkDbAccount (acc_Nonce d) (acc_Balance d) (StorageRootHash d) h n) b.
End setters.

Definition body_of (d : DbAccount) : AccountBody := mkBody d ∅ ∅ None false false None None 0 0.

(** ** Accounts *)
Abbreviation T := (M TransitionState).

(** [GetAccountConcrete]: a new entry is filled from the database. *)
Definition load (s : TransitionState) (addr : Address) : AccountEntry :=
  match accounts s !! addr with
  | Some a => a
  | None =>
      match in_GetAccount (ts_in s) addr with
      | Some d => mkAccount (Some (body_of d)) false false true false
      | None => mkAccount None false false false false
      end
  end.

Definition GetAccountConcrete (addr : Address) : T AccountEntry := fun s =>
  let a := load s addr in
  if in_curr_version a then Done a s
  else
    let a := set_in_curr true a in
    Done a (set_curr_ver (accounts_in_curr_ver s ++ [addr]) (set_accounts (<[addr := a]> (accounts s)) s)).

Definition put_account (addr : Address) (a : AccountEntry) : T () :=
  modify_st (fun s => set_accounts (<[addr := a]> (accounts s)) s).

Definition RegisterChange (r : Revert) : T () := modify_st (fun s => set_reverts (r :: ts_reverts s) s).

(** The body of an account; [None] for [IsNIL]. *)
Definition get_body (addr : Address) : T (option AccountBody) := a ← GetAccountConcrete addr; ret (body a).

(** Changing a body; the account is not nil. *)
Definition update_body (addr : Address) (f : AccountBody -> AccountBody) : T () :=
  a ← GetAccountConcrete addr;
  match body a with
  | None => panic "nil pointer dereference"
  | Some b => put_account addr (set_body (Some (f b)) a)
  end.

(** [register_change]; [None] for the changes that cannot be undone. *)
Definition register_change (addr : Address) (r : option Revert) : T () :=
  _ ← update_body addr (fun b => set_mod_count (u32 (mod_count b + 1)) b);
  match r with None => ret tt | Some r => RegisterChange r end.

Definition ensure_exists (addr : Address) : T () :=
  a ← GetAccountConcrete addr;
  match body a with
  | Some _ => ret tt
  | None =>
      _ ← put_account addr (set_deleted false (set_body (Some (body_of (mkDbAccount 0 0 None None 0))) a));
      register_change addr (Some (RevExists addr (deleted a)))
  end.

Definition ts_IsNIL (addr : Address) : T bool :=
  b ← get_body addr; ret (match b with None => true | Some _ => false end).

Definition body_empty (b : AccountBody) : bool :=
  (acc_Nonce (b_acc b) =? 0) && (acc_Balance (b_acc b) =? 0) && (acc_CodeSize (b_acc b) =? 0).

Definition ts_IsEIP161Empty (addr : Address) : T bool :=
  b ← get_body addr; ret (match b with None => true | Some b => body_empty b end).

Definition ts_GetBalance (addr : Address) : T Z :=
  b ← get_body addr; ret (match b with None => 0 | Some b => acc_Balance (b_acc b) end).

Definition ts_GetNonce (addr : Address) : T Z :=
  b ← get_body addr; ret (match b with None => 0 | Some b => acc_Nonce (b_acc b) end).

Section code.
Context `{Crypto}.

Definition EmptyBytesKeccak256 : bytes := keccak256 [].

Definition ts_GetCodeHash (addr : Address) : T (option bytes) :=
  b ← get_body addr;
  ret (match b with
       | None => None
       | Some b => if acc_CodeSize (b_acc b) =? 0 then Some EmptyBytesKeccak256 else acc_CodeHash (b_acc b)
       end).
End code.

(** The code is read once and kept. *)
Definition ts_GetCode (addr : Address) : T bytes :=
  b ← get_body addr;
  match b with
  | None => ret []
  | Some b =>
      if acc_CodeSize (b_acc b) =? 0 then ret [] else
      match b_Code b with
      | Some code => ret code
      | None =>
          s ← get_st;
          let code := in_GetCode (ts_in s) (acc_CodeHash (b_acc b)) in
          _ ← update_body addr (fun b => set_code (Some code) (CodeDirty b) b); ret code
      end
  end.

Definition ts_GetCodeSize (addr : Address) : T Z :=
  b ← get_body addr; ret (match b with None => 0 | Some b => acc_CodeSize (b_acc b) end).

(** ** Storage *)
Definition read_storage (i : StateInput) (addr : Address) (key : Z) : Z :=
  match in_GetAccountStorage i addr (uint_to_be 32 key) with Some v => be_to_uint v | None => 0 end.

Definition get_committed_state (addr : Address) (key : Z) : T Z :=
  b ← get_body addr;
  match b with
  | None => ret 0
  | Some b =>
      match storage_origin b with
      | None => if match StorageRootHash (b_acc b) with None => true | Some _ => false end then ret 0 else
                s ← get_st;
                let v := read_storage (ts_in s) addr key in
                _ ← update_body addr (set_origin (Some {[key := v]})); ret v
      | Some origin =>
          match origin !! key with
          | Some v => ret v
          | None =>
              s ← get_st;
              let v := read_storage (ts_in s) addr key in
              _ ← update_body addr (set_origin (Some (<[key := v]> origin))); ret v
          end
      end
  end.

Definition ts_GetCommittedState := get_committed_state.

Definition ts_GetState (addr : Address) (key : Z) : T Z :=
  b ← get_body addr;
  match b with
  | None => ret 0
  | Some b => match StorageDirty b !! key with Some v => ret v | None => get_committed_state addr key end
  end.

Definition ts_SetState (addr : Address) (key value : Z) : T () :=
  _ ← ensure_exists addr;
  prev ← ts_GetState addr key;
  if prev =? value then ret tt else
  _ ← register_change addr (Some (RevStorage addr key prev));
  update_body addr (fun b => set_dirty (<[key := value]> (StorageDirty b)) b).

Definition GetRawState (addr : Address) (key : bytes) : T (option bytes) :=
  b ← get_body addr;
  match b with
  | None => ret None
  | Some b =>
      match RawStorageDirty b !! key with
      | Some v => ret (Some v)
      | None => s ← get_st; ret (in_GetAccountStorage (ts_in s) addr key)
      end
  end.

Definition SetStateRawIrreversibly (addr : Address) (key value : bytes) : T () :=
  _ ← ensure_exists addr;
  _ ← update_body addr (fun b => set_raw (<[key := value]> (RawStorageDirty b)) b);
  register_change addr None.

(** ** Balances, nonces, code *)
Definition ripemd_addr : Address := addr_of_Z 3.

Definition set_balance (addr : Address) (amount : Z) : T () :=
  b ← get_body addr;
  match b with
  | None => panic "nil pointer dereference"
  | Some b =>
      _ ← update_body addr (set_b_balance amount);
      register_change addr (Some (RevBalance addr (acc_Balance (b_acc b))))
  end.

Definition ts_AddBalance (addr : Address) (amount : Z) : T () :=
  _ ← ensure_exists addr;
  balance ← ts_GetBalance addr;
  if negb (amount =? 0) then set_balance addr (balance + amount) else
  empty ← ts_IsEIP161Empty addr;
  if negb empty then ret tt else
  _ ← update_body addr (fun b => set_touched (u32 (times_touched b + 1)) b);
  _ ← register_change addr (Some (RevTouch addr));
  when (bool_decide (addr = ripemd_addr)) (update_body addr (fun b => set_mod_count (u32 (mod_count b + 1)) b)).

Definition ts_SubBalance (addr : Address) (amount : Z) : T () :=
  _ ← ensure_exists addr;
  balance ← ts_GetBalance addr;
  if negb (amount =? 0) then set_balance addr (balance - amount) else ret tt.

Definition change_nonce (addr : Address) (nonce : Z) : T () :=
  nonce_prev ← ts_GetNonce addr;
  _ ← update_body addr (set_b_nonce nonce);
  register_change addr (Some (RevNonce addr nonce_prev)).

Definition ts_SetNonce (addr : Address) (nonce : Z) : T () :=
  _ ← ensure_exists addr;
  current ← ts_GetNonce addr;
  if nonce <? current then panic "SetNonce: value to set should be >= current nonce" else change_nonce addr nonce.

Definition ts_IncrementNonce (addr : Address) : T () :=
  _ ← ensure_exists addr;
  current ← ts_GetNonce addr; change_nonce addr (current + 1).

Definition ts_SetCode `{Crypto} (addr : Address) (code : bytes) : T () :=
  _ ← ensure_exists addr;
  if Z.of_nat (length code) =? 0 then ret tt else
  _ ← register_change addr (Some (RevCode addr));
  update_body addr (fun b => set_code (Some code) true (set_b_code (Some (keccak256 code)) (Z.of_nat (length code)) b)).

(** [self.IsNIL() && self.suicided]: the field is only read of nil accounts. *)
Definition ts_HasSuicided (addr : Address) : T bool :=
  b ← get_body addr;
  match b with None => panic "nil pointer dereference" | Some _ => ret false end.

Definition ts_Suicide (addr newAddr : Address) : T () :=
  _ ← GetAccountConcrete newAddr;
  b ← get_body addr;
  match b with
  | None => ts_AddBalance newAddr 0
  | Some b =>
      _ ← ts_AddBalance newAddr (acc_Balance (b_acc b));
      b ← get_body addr;
      match b with
      | None => panic "nil pointer dereference"
      | Some b =>
          _ ← register_change addr (Some (RevSuicide addr (suicided b) (acc_Balance (b_acc b))));
          update_body addr (fun b => set_suicided true (set_b_balance 0 b))
      end
  end.

(** ** Logs, refund, transient storage *)
Definition ts_AddLog (log : LogRecord) : T () :=
  s ← get_st;
  _ ← RegisterChange (RevLogs (length (ts_logs s)));
  modify_st (fun s => set_ts_logs (ts_logs s ++ [log]) s).

Definition ts_GetLogs : T (list LogRecord) := fun s => Done (ts_logs s) s.
Definition ts_GetRefund : T Z := fun s => Done (refund s) s.

Definition ts_AddRefund (gas : Z) : T () :=
  s ← get_st;
  _ ← RegisterChange (RevRefund (refund s));
  modify_st (fun s => set_refund (u64 (refund s + gas)) s).

Definition ts_SubRefund (gas : Z) : T () :=
  s ← get_st;
  if refund s <? gas then panic "Refund counter below zero" else
  _ ← RegisterChange (RevRefund (refund s));
  modify_st (fun s => set_refund (refund s - gas) s).

Definition zero_hash : bytes := replicate 32 Byte.x00.

Definition transient (s : TransitionState) (addr : Address) (key : bytes) : bytes :=
  match transientStorage s !! addr with None => zero_hash | Some m => default zero_hash (m !! key) end.

Definition ts_GetTransientState (addr : Address) (key : bytes) : T bytes := fun s => Done (transient s addr key) s.

(** Nothing is written to the journal. *)
Definition ts_SetTransientState (addr : Address) (key value : bytes) : T () :=
  prev ← ts_GetTransientState addr key;
  if bool_decide (prev = value) then ret tt else
  modify_st (fun s => set_transient (<[addr := <[key := value]> (default ∅ (transientStorage s !! addr))]> (transientStorage s)) s).

(** ** Snapshots *)
Definition ts_Snapshot : T Z := fun s => Done (Z.of_nat (length (ts_reverts s))) s.

(** Running the closure on an account: [mod_count--], then the change.  The
    journal is cleared before accounts leave the map, so the entry of the
    address is the account the closure holds. *)
Definition undo_body (s : TransitionState) (addr : Address) (f : AccountBody -> AccountBody) : option TransitionState :=
  let a := load s addr in
  match body a with
  | Some b => Some (set_accounts (<[addr := set_body (Some (f (set_mod_count (u32 (mod_count b - 1)) b))) a]> (accounts s)) s)
  | None => None
  end.

(** [None] where the closure panics. *)
Definition undo (r : Revert) (s : TransitionState) : option TransitionState :=
  match r with
  | RevStorage addr key prev => undo_body s addr (fun b => set_dirty (<[key := prev]> (StorageDirty b)) b)
  | RevTouch addr => undo_body s addr (fun b => set_touched (u32 (times_touched b - 1)) b)
  | RevBalance addr prev => undo_body s addr (set_b_balance prev)
  | RevNonce addr prev => undo_body s addr (set_b_nonce prev)
  | RevCode addr => undo_body s addr (fun b => set_code None false (set_b_code None 0 b))
  | RevSuicide addr suic prev => undo_body s addr (fun b => set_suicided suic (set_b_balance prev b))
  | RevExists addr was_deleted =>
      let a := load s addr in
      match body a with
      | Some _ => Some (set_accounts (<[addr := set_deleted was_deleted (set_body None a)]> (accounts s)) s)
      | None => None
      end
  | RevLogs pos => Some (set_ts_logs (take pos (ts_logs s)) s)
  | RevRefund prev => Some (set_refund prev s)
  end.

(** The newest closures first, until [n] are left. *)
Fixpoint undo_all (rs : list Revert) (s : TransitionState) : option TransitionState :=
  match rs with
  | [] => Some s
  | r :: rs => match undo r s with Some s => undo_all rs s | None => None end
  end.

Definition ts_RevertToSnapshot (snapshot : Z) : T () := fun s =>
  let n := (length (ts_reverts s) - Z.to_nat snapshot)%nat in
  if (snapshot <? 0) || (Z.of_nat (length (ts_reverts s)) <? snapshot) then Panic "slice bounds out of range" else
  match undo_all (take n (ts_reverts s)) s with
  | Some s => Done tt (set_reverts (drop n (ts_reverts s)) s)
  | None => Panic "nil pointer dereference"
  end.

(** ** Committing *)
Record AccountChange := mkChange {
  ch_Account : DbAccount;
  ch_StorageDirty : gmap Z Z;
  ch_RawStorageDirty : gmap bytes bytes;
  ch_Code : option bytes;
  ch_CodeDirty : bool;
}.

(** The calls of [Output] and [AccountMutation].  A mutation is known by the
    position of the call that started it. *)
Inductive OutOp :=
| StartMutation (addr : Address)
| OutDelete (addr : Address)
| Update (mutation : nat) (change : AccountChange)
| CommitMutation (mutation : nat).

Inductive acc_dirty_status := Unmodified | Updated | Deleted.

Definition change_of (b : AccountBody) : AccountChange :=
  mkChange (b_acc b) (StorageDirty b) (RawStorageDirty b) (b_Code b) (CodeDirty b).

(** The body after its change has been passed on. *)
Definition settled (k : nat) (b : AccountBody) : AccountBody :=
  let origin := if bool_decide (StorageDirty b = ∅) then storage_origin b
                else Some (StorageDirty b ∪ default ∅ (storage_origin b)) in
  set_origin origin (set_dirty ∅ (set_raw ∅ (set_code (b_Code b) false (set_sink (Some k) b)))).

Definition flush (addr : Address) (out : list OutOp) (a : AccountEntry) : AccountEntry * list OutOp * acc_dirty_status :=
  match body a with
  | None => (a, out, Unmodified)
  | Some b =>
      let modified := mod_count b in
      let touched := times_touched b in
      let b := set_touched 0 (set_mod_count 0 b) in
      if modified =? 0 then (set_body (Some b) a, out, Unmodified)
      else if suicided b || body_empty b then (set_body None a, out ++ [OutDelete addr], Deleted)
      else if modified =? touched then (set_body (Some b) a, out, Unmodified)
      else
        let '(k, out) := match sink b with Some k => (k, out) | None => (length out, out ++ [StartMutation addr]) end in
        (set_body (Some (settled k b)) a, out ++ [Update k (change_of b)], Updated)
  end.

Definition is_status (x y : acc_dirty_status) : bool :=
  match x, y with Unmodified, Unmodified | Updated, Updated | Deleted, Deleted => true | _, _ => false end.

(** One account of [CommitTransaction]. *)
Definition commit_account (addr : Address) (out : list OutOp) : T (list OutOp) := fun s =>
  let a := set_in_curr false (load s addr) in
  if deleted a then Done out (set_accounts (<[addr := a]> (accounts s)) s) else
  let '(a, out, status) := flush addr out a in
  let a := set_deleted (is_status status Deleted) a in
  let enters := negb (in_dirties a) && (is_status status Updated || (deleted a && loaded_from_db a)) in
  let a := if enters then set_in_dirties true a else a in
  let s := if enters then set_dirties (dirties s ++ [addr]) s else s in
  if in_dirties a then Done out (set_accounts (<[addr := a]> (accounts s)) s)
  else Done out (set_accounts (delete addr (accounts s)) s).

Fixpoint commit_accounts (addrs : list Address) (out : list OutOp) : T (list OutOp) :=
  match addrs with
  | [] => ret out
  | addr :: addrs => out ← commit_account addr out; commit_accounts addrs out
  end.

Definition CommitTransaction (out : list OutOp) : T (list OutOp) :=
  s ← get_st;
  out ← commit_accounts (accounts_in_curr_ver s) out;
  _ ← modify_st (fun s => set_transient ∅ (set_refund 0 (set_ts_logs [] (set_reverts [] (set_curr_ver [] s)))));
  ret out.

(** One account of [Commit]. *)
Definition commit_dirty (addr : Address) (out : list OutOp) : T (list OutOp) := fun s =>
  match accounts s !! addr with
  | None => Panic "nil pointer dereference"
  | Some a =>
      let s := set_accounts (delete addr (accounts s)) s in
      if deleted a then Done out s else
      match body a with
      | Some b => match sink b with Some k => Done (out ++ [CommitMutation k]) s | None => Panic "nil pointer dereference" end
      | None => Panic "nil pointer dereference"
      end
  end.

Fixpoint commit_dirties (addrs : list Address) (out : list OutOp) : T (list OutOp) :=
  match addrs with
  | [] => ret out
  | addr :: addrs => out ← commit_dirty addr out; commit_dirties addrs out
  end.

Definition Commit (out : list OutOp) : T (list OutOp) :=
  s ← get_st;
  out ← commit_dirties (dirties s) out;
  _ ← modify_st (set_dirties []);
  ret out.

(** ** The interface the EVM uses *)
#[export] Instance TransitionState_VmState `{Crypto} : VmState TransitionState := {|
  GetAccount addr := _ ← GetAccountConcrete addr; ret tt;
  GetBalance := ts_GetBalance;
  GetNonce := ts_GetNonce;
  GetCodeHash := ts_GetCodeHash;
  GetCode := ts_GetCode;
  GetCodeSize := ts_GetCodeSize;
  GetCommittedState := ts_GetCommittedState;
  GetState := ts_GetState;
  HasSuicided := ts_HasSuicided;
  IsNIL := ts_IsNIL;
  IsEIP161Empty := ts_IsEIP161Empty;
  SetCode := ts_SetCode;
  AddBalance := ts_AddBalance;
  SubBalance := ts_SubBalance;
  IncrementNonce := ts_IncrementNonce;
  SetNonce := ts_SetNonce;
  SetState := ts_SetState;
  Suicide := ts_Suicide;
  AddLog := ts_AddLog;
  GetLogs := ts_GetLogs;
  AddRefund := ts_AddRefund;
  SubRefund := ts_SubRefund;
  GetRefund := ts_GetRefund;
  Snapshot := ts_Snapshot;
  RevertToSnapshot := ts_RevertToSnapshot;
  GetTransientState := ts_GetTransientState;
  SetTransientState := ts_SetTransientState;
|}.
