(* ===== verification/StateRevert.v ===== *)
(** * Reverting to a snapshot restores the state

    [same_state] is what can be observed of a [TransitionState]: caches of
    reads may differ, and so may slots that are dirty with the value they
    had.  Every operation of the EVM's interface leaves in the journal what
    undoes it up to that equivalence. *)
From S2P Require Import Prelude Bytes Crypto Uint256 EvmWord EvmBase StateEvm.
Local Open Scope Z_scope.

(** ** What can be observed *)
Definition committed_of (i : StateInput) (addr : Address) (b : AccountBody) (key : Z) : Z :=
  match storage_origin b with
  | None => match StorageRootHash (b_acc b) with None => 0 | Some _ => read_storage i addr key end
  | Some origin => default (read_storage i addr key) (origin !! key)
  end.

Definition state_of (i : StateInput) (addr : Address) (b : AccountBody) (key : Z) : Z :=
  default (committed_of i addr b key) (StorageDirty b !! key).

Definition code_of (i : StateInput) (b : AccountBody) : bytes :=
  default (in_GetCode i (acc_CodeHash (b_acc b))) (b_Code b).

(** The accounts of the two contracts of the chain, the only ones with raw
    storage, which is written outside the journal. *)
Definition has_raw (addr : Address) : Prop := addr = addr_of_Z 254 \/ addr = addr_of_Z 238.

(** The modification counter of the RIPEMD account is raised once more when it
    is touched, on purpose, and stays so; so does a raw write. *)
Definition off_journal (addr : Address) : Prop := addr = ripemd_addr \/ has_raw addr.

#[export] Instance has_raw_dec addr : Decision (has_raw addr).
Proof. unfold has_raw. apply _. Defined.
#[export] Instance off_journal_dec addr : Decision (off_journal addr).
Proof. unfold off_journal. apply _. Defined.

(** What can be observed of an account, with two reservations.  The hash and
    the code only count when there is code.  And the raw storage of the two
    contracts of the chain ([has_raw]: the DPOS contract at 0xfe and the
    slashing contract at 0xee) is not compared: [SetStateRawIrreversibly]
    ([account.go]) writes it without an entry in the journal, so no revert
    undoes what such a contract has stored.  A theorem that concludes
    [same_body], [same_entry] or [same_state] says nothing of that storage. *)
Record same_body (i : StateInput) (addr : Address) (b b' : AccountBody) : Prop := mkSameBody {
  sb_nonce : acc_Nonce (b_acc b) = acc_Nonce (b_acc b');
  sb_balance : acc_Balance (b_acc b) = acc_Balance (b_acc b');
  sb_root : StorageRootHash (b_acc b) = StorageRootHash (b_acc b');
  sb_size : acc_CodeSize (b_acc b) = acc_CodeSize (b_acc b');
  sb_hash : acc_CodeSize (b_acc b) <> 0 -> acc_CodeHash (b_acc b) = acc_CodeHash (b_acc b');
  sb_code : acc_CodeSize (b_acc b) <> 0 -> code_of i b = code_of i b';
  sb_code_dirty : acc_CodeSize (b_acc b) <> 0 -> CodeDirty b = CodeDirty b';
  sb_suicided : suicided b = suicided b';
  sb_sink : sink b = sink b';
  sb_raw : ~ has_raw addr -> RawStorageDirty b = RawStorageDirty b';
  sb_committed key : committed_of i addr b key = committed_of i addr b' key;
  sb_state key : state_of i addr b key = state_of i addr b' key;
  sb_touched : u32 (times_touched b) = u32 (times_touched b');
  sb_modified : ~ off_journal addr -> u32 (mod_count b) = u32 (mod_count b');
}.

Inductive same_entry (i : StateInput) (addr : Address) (a a' : AccountEntry) : Prop :=
| same_entry_intro
    (se_body : option_Forall2 (same_body i addr) (body a) (body a'))
    (se_deleted : deleted a = deleted a')
    (se_dirties : in_dirties a = in_dirties a')
    (se_loaded : loaded_from_db a = loaded_from_db a').

Record same_state (s s' : TransitionState) : Prop := mkSameState {
  ss_in : ts_in s = ts_in s';
  ss_logs : ts_logs s = ts_logs s';
  ss_refund : refund s = refund s';
  ss_dirties : dirties s = dirties s';
  ss_entry addr : same_entry (ts_in s) addr (load s addr) (load s' addr);
}.

#[export] Instance same_body_equiv i addr : Equivalence (same_body i addr).
Proof.
  split.
  - intros b. by split.
  - intros b b' []. split; try congruence; intros; symmetry; eauto;
      match goal with H : acc_CodeSize (b_acc b) <> 0 -> ?x = ?y |- ?x = ?y => apply H; congruence end.
  - intros b b' b'' [] []. split; try congruence; intros.
    + rewrite sb_hash0 by done. apply sb_hash1. congruence.
    + rewrite sb_code0 by done. apply sb_code1. congruence.
    + rewrite sb_code_dirty0 by done. apply sb_code_dirty1. congruence.
    + by rewrite sb_raw0, sb_raw1.
    + by rewrite sb_modified0, sb_modified1.
Qed.

#[export] Instance same_entry_equiv i addr : Equivalence (same_entry i addr).
Proof.
  split.
  - intros a. by split.
  - intros a a' []. by split.
  - intros a a' a'' [] []. split; [by etrans|congruence..].
Qed.

#[export] Instance same_state_equiv : Equivalence same_state.
Proof.
  split.
  - intros s. by split.
  - intros s s' []. split; try congruence. intros addr. rewrite <- ss_in0. by symmetry.
  - intros s s' s'' [] []. split; try congruence. intros addr. etrans; [apply ss_entry0|]. rewrite ss_in0. apply ss_entry1.
Qed.

(** ** Entries *)
Lemma load_insert s addr a addr' :
  load (set_accounts (<[addr := a]> (accounts s)) s) addr' = if decide (addr = addr') then a else load s addr'.
Proof.
  unfold load. simpl. destruct (decide (addr = addr')) as [->|Hne].
  - by rewrite lookup_insert_eq.
  - by rewrite lookup_insert_ne.
Qed.

(** Writing an entry respects the equivalence. *)
Lemma same_put s s' addr a a' :
  same_state s s' -> same_entry (ts_in s) addr a a' ->
  same_state (set_accounts (<[addr := a]> (accounts s)) s) (set_accounts (<[addr := a']> (accounts s')) s').
Proof.
  intros [] Ha. split; try done. intros addr'. rewrite !load_insert. simpl. case_decide; subst; auto; try reflexivity.
Qed.

Lemma same_put_r s s' addr a :
  same_state s s' -> same_entry (ts_in s) addr a (load s addr) ->
  same_state (set_accounts (<[addr := a]> (accounts s)) s) s'.
Proof.
  intros Hs Ha. transitivity s; [|done]. split; try done. intros addr'. rewrite load_insert. simpl.
  case_decide; subst; [done|reflexivity].
Qed.

(** ** Undoing respects the equivalence *)
Lemma u32_u32 x : u32 (u32 x) = u32 x.
Proof. apply u32_small, u32_range. Qed.

Lemma u32_add x d : u32 (u32 x + d) = u32 (x + d).
Proof. unfold u32. apply Zplus_mod_idemp_l. Qed.

Lemma u32_sub_cong x y d : u32 x = u32 y -> u32 (x - d) = u32 (y - d).
Proof. intros E. rewrite <- !Z.add_opp_r, <- (u32_add x), E. apply u32_add. Qed.

Lemma u32_back x : u32 (u32 (u32 (x + 1)) - 1) = u32 x.
Proof. rewrite u32_u32, <- Z.add_opp_r, u32_add. f_equal. lia. Qed.

Definition undo_fun (r : Revert) : option (Address * (AccountBody -> AccountBody)) :=
  match r with
  | RevStorage addr key prev => Some (addr, fun b => set_dirty (<[key := prev]> (StorageDirty b)) b)
  | RevTouch addr => Some (addr, fun b => set_touched (u32 (times_touched b - 1)) b)
  | RevBalance addr prev => Some (addr, set_b_balance prev)
  | RevNonce addr prev => Some (addr, set_b_nonce prev)
  | RevCode addr => Some (addr, fun b => set_code None false (set_b_code None 0 b))
  | RevSuicide addr suic prev => Some (addr, fun b => set_suicided suic (set_b_balance prev b))
  | _ => None
  end.

Definition untick (b : AccountBody) : AccountBody := set_mod_count (u32 (mod_count b - 1)) b.

Lemma undo_undo_fun r s addr f : undo_fun r = Some (addr, f) -> undo r s = undo_body s addr f.
Proof. destruct r; intros [= <- <-]; done. Qed.

Lemma same_body_untick i addr b b' : same_body i addr b b' -> same_body i addr (untick b) (untick b').
Proof. intros []. split; try done. intros. simpl. rewrite !u32_u32. auto using u32_sub_cong. Qed.

Lemma same_body_undo i addr r addr' f b b' :
  undo_fun r = Some (addr', f) -> same_body i addr b b' -> same_body i addr (f b) (f b').
Proof.
  destruct r; intros [= <- <-] []; split; simpl; try done.
  - intros k. unfold state_of. simpl. destruct (decide (key = k)) as [->|].
    + by rewrite !lookup_insert_eq.
    + rewrite !lookup_insert_ne by done. apply sb_state0.
  - rewrite !u32_u32. auto using u32_sub_cong.
Qed.

#[export] Instance undo_proper r : Proper (same_state ==> option_Forall2 same_state) (undo r).
Proof.
  intros s s' Hs. destruct (undo_fun r) as [[addr f]|] eqn:Hf.
  - rewrite !(undo_undo_fun _ _ _ _ Hf). unfold undo_body.
    destruct (ss_entry _ _ Hs addr) as [Hb Hd1 Hd2 Hd3]. destruct Hb as [b b' Hb|]; constructor.
    apply same_put; [done|]. split; [|done..]. simpl. constructor.
    eapply same_body_undo; [done|]. by apply same_body_untick.
  - destruct r; try discriminate Hf; simpl.
    + destruct (ss_entry _ _ Hs addr) as [Hb Hd1 Hd2 Hd3]. destruct Hb as [b b' Hb|]; constructor.
      apply same_put; [done|]. by split.
    + constructor. destruct Hs. split; simpl; try done. congruence.
    + constructor. destruct Hs. by split.
Qed.

#[export] Instance undo_all_proper rs : Proper (same_state ==> option_Forall2 same_state) (undo_all rs).
Proof.
  induction rs as [|r rs IH]; intros s s' Hs; simpl; [by constructor|].
  destruct (undo_proper r s s' Hs) as [t t' Ht|]; [by apply IH|constructor].
Qed.

Lemma undo_all_app rs rs' s : undo_all (rs ++ rs') s = undo_all rs s ≫= undo_all rs'.
Proof. revert s. induction rs as [|r rs IH]; intros s; simpl; [done|]. by destruct (undo r s); simpl. Qed.

(** ** What an operation leaves in the journal undoes it *)
Definition undoes (s s' : TransitionState) : Prop :=
  exists rs, ts_reverts s' = rs ++ ts_reverts s /\ option_Forall2 same_state (undo_all rs s') (Some s).

Lemma undoes_same s s' : ts_reverts s' = ts_reverts s -> same_state s' s -> undoes s s'.
Proof. intros E Hs. exists []. split; [done|]. by constructor. Qed.

Lemma undoes_refl s : undoes s s.
Proof. by apply undoes_same. Qed.

Lemma undoes_trans s1 s2 s3 : undoes s1 s2 -> undoes s2 s3 -> undoes s1 s3.
Proof.
  intros (rs & E & H1) (rs' & E' & H2). exists (rs' ++ rs). split; [by rewrite E', E, (assoc_L (++))|].
  rewrite undo_all_app. inversion H2 as [t ? Ht Et|]; subst. simpl.
  etrans; [|done]. by apply undo_all_proper.
Qed.

(** ** The steps of the operations *)
(** [s'] is [s] with another body for [addr] and [rs] written to the journal. *)
Record changed (addr : Address) (o : option AccountBody) (del : bool) (rs : list Revert) (s s' : TransitionState) : Prop := mkChanged {
  cg_in : ts_in s' = ts_in s;
  cg_logs : ts_logs s' = ts_logs s;
  cg_refund : refund s' = refund s;
  cg_list : dirties s' = dirties s;
  cg_reverts : ts_reverts s' = rs ++ ts_reverts s;
  cg_body : body (load s' addr) = o;
  cg_deleted : deleted (load s' addr) = del;
  cg_dirties : in_dirties (load s' addr) = in_dirties (load s addr);
  cg_loaded : loaded_from_db (load s' addr) = loaded_from_db (load s addr);
  cg_other addr' : addr' <> addr -> load s' addr' = load s addr';
}.

Lemma changed_trans addr o o' del del' rs rs' s1 s2 s3 :
  changed addr o del rs s1 s2 -> changed addr o' del' rs' s2 s3 -> changed addr o' del' (rs' ++ rs) s1 s3.
Proof.
  intros [] []. split; try congruence.
  - by rewrite cg_reverts1, cg_reverts0, (assoc_L (++)).
  - intros addr' Hne. by rewrite cg_other1, cg_other0.
Qed.

Lemma GetAccountConcrete_run addr s :
  exists s', GetAccountConcrete addr s = Done (load s' addr) s' /\
             changed addr (body (load s addr)) (deleted (load s addr)) [] s s'.
Proof.
  unfold GetAccountConcrete. destruct (in_curr_version (load s addr)) eqn:E.
  - exists s. split; [done|]. by split.
  - eexists. assert (Hl : forall addr', load (set_curr_ver (accounts_in_curr_ver s ++ [addr])
        (set_accounts (<[addr:=set_in_curr true (load s addr)]> (accounts s)) s)) addr' =
        if decide (addr = addr') then set_in_curr true (load s addr) else load s addr').
    { intros addr'. apply load_insert. }
    split; [by rewrite Hl, decide_True|].
    split; rewrite ?Hl, ?decide_True by done; try done.
    intros addr' Hne. by rewrite Hl, decide_False.
Qed.

Lemma get_body_run addr s :
  exists s', get_body addr s = Done (body (load s addr)) s' /\
             changed addr (body (load s addr)) (deleted (load s addr)) [] s s'.
Proof.
  destruct (GetAccountConcrete_run addr s) as (s' & E & Hc). exists s'. split; [|done].
  unfold get_body. rewrite (bind_done _ _ _ _ _ E). by rewrite (cg_body _ _ _ _ _ _ Hc).
Qed.

Lemma changed_put addr a s :
  in_dirties a = in_dirties (load s addr) -> loaded_from_db a = loaded_from_db (load s addr) ->
  changed addr (body a) (deleted a) [] s (set_accounts (<[addr := a]> (accounts s)) s).
Proof.
  intros. split; rewrite ?load_insert, ?decide_True by done; try done.
  intros addr' Hne. by rewrite load_insert, decide_False.
Qed.

Lemma update_body_run addr f s b :
  body (load s addr) = Some b ->
  exists s', update_body addr f s = Done tt s' /\ changed addr (Some (f b)) (deleted (load s addr)) [] s s'.
Proof.
  intros Hb. destruct (GetAccountConcrete_run addr s) as (s1 & E & Hc).
  unfold update_body. rewrite (bind_done _ _ _ _ _ E), (cg_body _ _ _ _ _ _ Hc), Hb.
  eexists. split; [done|]. eapply (changed_trans _ _ _ _ _ [] []); [done|].
  rewrite <- (cg_deleted _ _ _ _ _ _ Hc).
  by apply (changed_put addr (set_body (Some (f b)) (load s1 addr))).
Qed.

Definition tick (b : AccountBody) : AccountBody := set_mod_count (u32 (mod_count b + 1)) b.

Lemma register_change_run addr r s b :
  body (load s addr) = Some b ->
  exists s', register_change addr r s = Done tt s' /\
             changed addr (Some (tick b)) (deleted (load s addr)) (option_list r) s s'.
Proof.
  intros Hb. destruct (update_body_run addr tick s b Hb) as (s1 & E & Hc).
  unfold register_change. rewrite (bind_done _ _ _ _ _ E). destruct r as [r|]; simpl; eexists; (split; [done|]); [|done].
  eapply (changed_trans _ _ _ _ _ [] [r]); [done|]. destruct Hc. by split.
Qed.

Lemma changed_quiet addr del b b' s s' :
  changed addr (Some b') del [] s s' -> body (load s addr) = Some b -> del = deleted (load s addr) ->
  same_body (ts_in s) addr b' b -> ts_reverts s' = ts_reverts s /\ same_state s' s.
Proof.
  intros [] Hb Hdel Hs. split; [done|]. split; try done. rewrite cg_in0. intros addr'. destruct (decide (addr' = addr)) as [->|Hne].
  - split; try done; [|congruence]. rewrite cg_body0, Hb. by constructor.
  - by rewrite cg_other0.
Qed.

Lemma same_nil addr del s s' :
  changed addr (body (load s addr)) del [] s s' -> del = deleted (load s addr) -> same_state s' s.
Proof.
  intros [] Hdel. split; try done. rewrite cg_in0. intros addr'. destruct (decide (addr' = addr)) as [->|Hne].
  - split; try done; [|congruence]. by rewrite cg_body0.
  - by rewrite cg_other0.
Qed.

Lemma changed_undoes addr r f del b b' s s' :
  undo_fun r = Some (addr, f) -> changed addr (Some b') del [r] s s' -> body (load s addr) = Some b ->
  del = deleted (load s addr) -> same_body (ts_in s) addr (f (untick b')) b -> undoes s s'.
Proof.
  intros Hf [] Hb Hdel Hs. exists [r]. split; [done|]. simpl. rewrite (undo_undo_fun _ _ _ _ Hf). unfold undo_body.
  rewrite cg_body0. simpl. constructor. split; try done. simpl. rewrite cg_in0. intros addr'. rewrite load_insert.
  destruct (decide (addr = addr')) as [<-|Hne]; [|by rewrite cg_other0].
  split; simpl; try congruence. rewrite Hb. by constructor.
Qed.

(** ** Every operation is reversible *)
Definition reversible {A} (m : T A) : Prop := forall s a s', m s = Done a s' -> undoes s s'.

Lemma reversible_bind {A B} (m : T A) (f : A -> T B) :
  reversible m -> (forall a, reversible (f a)) -> reversible (x ← m; f x).
Proof.
  intros Hm Hf s b s' (a & s1 & E1 & E2)%bind_done_inv. eapply undoes_trans; [by eapply Hm|by eapply Hf].
Qed.

Lemma reversible_ret {A} (a : A) : reversible (ret a).
Proof. intros s ? ? [= <- <-]. apply undoes_refl. Qed.

Lemma reversible_panic {A} msg : reversible (A := A) (panic msg).
Proof. discriminate. Qed.

Lemma reversible_GetAccount addr : reversible (GetAccountConcrete addr).
Proof.
  intros s a s' E. destruct (GetAccountConcrete_run addr s) as (s1 & E1 & Hc).
  rewrite E in E1. injection E1 as -> ->. apply undoes_same; [apply (cg_reverts _ _ _ _ _ _ Hc)|by eapply same_nil].
Qed.

Lemma reversible_get_body addr : reversible (get_body addr).
Proof. apply reversible_bind; [apply reversible_GetAccount|]. intros. apply reversible_ret. Qed.

Lemma reversible_log r (f : TransitionState -> TransitionState) s :
  option_Forall2 same_state (undo r (f (set_reverts (r :: ts_reverts s) s))) (Some s) ->
  ts_reverts (f (set_reverts (r :: ts_reverts s) s)) = r :: ts_reverts s ->
  undoes s (f (set_reverts (r :: ts_reverts s) s)).
Proof. intros Hu Hr. exists [r]. split; [done|]. simpl. inversion Hu; subst. by constructor. Qed.

(** What a body read in an operation is worth later in it. *)
Lemma with_body {A} addr (k : option AccountBody -> T A) :
  (forall s a s' b, b = body (load s addr) -> k b s = Done a s' -> undoes s s') ->
  reversible (b ← get_body addr; k b).
Proof.
  intros Hk s a s' (b & s1 & E1 & E2)%bind_done_inv. eapply undoes_trans; [by eapply reversible_get_body|].
  destruct (get_body_run addr s) as (s2 & E & Hc). rewrite E in E1. injection E1 as <- <-.
  eapply Hk; [|done]. symmetry. apply (cg_body _ _ _ _ _ _ Hc).
Qed.

Lemma update_then_register addr f g r s s' b :
  undo_fun r = Some (addr, g) -> body (load s addr) = Some b ->
  same_body (ts_in s) addr (g (untick (tick (f b)))) b ->
  (_ ← update_body addr f; register_change addr (Some r)) s = Done tt s' -> undoes s s'.
Proof.
  intros Hr Hb Hs. destruct (update_body_run addr f s b Hb) as (s1 & E1 & H1). rewrite (bind_done _ _ _ _ _ E1).
  destruct (register_change_run addr (Some r) s1 (f b) (cg_body _ _ _ _ _ _ H1)) as (s2 & -> & H2). intros [= <-].
  eapply changed_undoes; [done|eapply (changed_trans _ _ _ _ _ [] [r]); done|done| |done].
  apply (cg_deleted _ _ _ _ _ _ H1).
Qed.

Lemma register_then_update addr f g r s s' b :
  undo_fun r = Some (addr, g) -> body (load s addr) = Some b ->
  same_body (ts_in s) addr (g (untick (f (tick b)))) b ->
  (_ ← register_change addr (Some r); update_body addr f) s = Done tt s' -> undoes s s'.
Proof.
  intros Hr Hb Hs. destruct (register_change_run addr (Some r) s b Hb) as (s1 & E1 & H1). rewrite (bind_done _ _ _ _ _ E1).
  destruct (update_body_run addr f s1 (tick b) (cg_body _ _ _ _ _ _ H1)) as (s2 & -> & H2). intros [= <-].
  eapply changed_undoes; [done|eapply (changed_trans _ _ _ _ _ [r] []); done|done| |done].
  apply (cg_deleted _ _ _ _ _ _ H1).
Qed.

(** Undoing gives back the counter. *)
Lemma mods_back x : u32 (u32 (u32 (x + 1) - 1)) = u32 x.
Proof. by rewrite u32_u32, <- Z.add_opp_r, u32_add, <- Z.add_assoc, Z.add_opp_diag_r, Z.add_0_r. Qed.

Ltac undone := split; simpl; try done; intros; rewrite ?mods_back; try done.

Lemma update_quiet addr f s s' b :
  body (load s addr) = Some b -> same_body (ts_in s) addr (f b) b ->
  update_body addr f s = Done tt s' -> undoes s s'.
Proof.
  intros Hb Hs. destruct (update_body_run addr f s b Hb) as (s1 & -> & H1). intros [= <-].
  destruct (changed_quiet addr _ b (f b) s s1 H1 Hb eq_refl Hs). by apply undoes_same.
Qed.

Lemma reversible_ensure_exists addr : reversible (ensure_exists addr).
Proof.
  intros s [] s'. unfold ensure_exists. destruct (GetAccountConcrete_run addr s) as (s1 & E1 & H1).
  rewrite (bind_done _ _ _ _ _ E1). destruct (body (load s1 addr)) as [b|] eqn:Hb.
  - intros [= <-]. eapply undoes_trans; [by eapply reversible_GetAccount|apply undoes_refl].
  - intros E. eapply undoes_trans; [by eapply reversible_GetAccount|].
    set (a := set_deleted false (set_body (Some (body_of (mkDbAccount 0 0 None None 0))) (load s1 addr))) in E.
    assert (H2 : changed addr (body a) (deleted a) [] s1 (set_accounts (<[addr:=a]> (accounts s1)) s1)) by (by apply (changed_put addr a)).
    apply bind_done_inv in E as ([] & s2 & [= <-] & E).
    edestruct (register_change_run addr) as (s3 & E3 & H3); [apply (cg_body _ _ _ _ _ _ H2)|]. rewrite E in E3. injection E3 as ->.
    pose proof (changed_trans _ _ _ _ _ _ _ _ _ _ H2 H3) as [].
    eexists. split; [done|]. simpl. rewrite cg_body0. constructor. split; try done. simpl. rewrite cg_in0. intros addr'.
    rewrite load_insert. destruct (decide (addr = addr')) as [<-|Hne]; [|by rewrite cg_other0].
    split; simpl; try congruence. rewrite Hb. constructor.
Qed.

Lemma update_body_nil addr f s a s' : body (load s addr) = None -> update_body addr f s <> Done a s'.
Proof.
  intros Hb. destruct (GetAccountConcrete_run addr s) as (s1 & E & Hc). unfold update_body.
  by rewrite (bind_done _ _ _ _ _ E), (cg_body _ _ _ _ _ _ Hc), Hb.
Qed.

Lemma reversible_query {A} addr (f : option AccountBody -> A) : reversible (b ← get_body addr; ret (f b)).
Proof. apply reversible_bind; [apply reversible_get_body|]. intros. apply reversible_ret. Qed.

Lemma reversible_GetCode addr : reversible (ts_GetCode addr).
Proof.
  apply with_body. intros s a s' [b|] Hb; [|intros [= <- <-]; apply undoes_refl].
  destruct (Z.eqb_spec (acc_CodeSize (b_acc b)) 0); [intros [= <- <-]; apply undoes_refl|].
  destruct (b_Code b) as [code|] eqn:Hc; [intros [= <- <-]; apply undoes_refl|].
  intros (? & ? & [= <- <-] & ([] & s1 & E & [= <- <-])%bind_done_inv)%bind_done_inv.
  eapply update_quiet; [done| |done]. undone. unfold code_of. simpl. by rewrite Hc.
Qed.

(** What [get_committed_state] returns and caches. *)
Lemma get_committed_state_run addr key s v s' b :
  body (load s addr) = Some b -> get_committed_state addr key s = Done v s' ->
  undoes s s' /\ v = committed_of (ts_in s) addr b key /\
  exists b', body (load s' addr) = Some b' /\ same_body (ts_in s) addr b' b /\ ts_in s' = ts_in s.
Proof.
  intros Hb. unfold get_committed_state. destruct (get_body_run addr s) as (s1 & E & H1).
  rewrite (bind_done _ _ _ _ _ E), Hb.
  assert (Hu : undoes s s1) by (by eapply reversible_get_body).
  assert (Hb1 : body (load s1 addr) = Some b) by (by rewrite (cg_body _ _ _ _ _ _ H1)).
  assert (Hin : ts_in s1 = ts_in s) by apply (cg_in _ _ _ _ _ _ H1).
  assert (Hcache : forall o, same_body (ts_in s1) addr (set_origin o b) b ->
    forall s2, update_body addr (set_origin o) s1 = Done tt s2 ->
    undoes s s2 /\ exists b', body (load s2 addr) = Some b' /\ same_body (ts_in s) addr b' b /\ ts_in s2 = ts_in s).
  { intros o Ho s2 E2. split; [eapply undoes_trans; [done|by eapply update_quiet]|].
    destruct (update_body_run addr (set_origin o) s1 b Hb1) as (s3 & E3 & H3). rewrite E2 in E3. injection E3 as <-.
    exists (set_origin o b). rewrite (cg_body _ _ _ _ _ _ H3), (cg_in _ _ _ _ _ _ H3), <- Hin. done. }
  unfold committed_of. rewrite <- Hin. destruct (storage_origin b) as [origin|] eqn:Ho.
  - destruct (origin !! key) as [v'|] eqn:Hk; [intros [= <- <-]; split; [done|split; [done|by exists b]]|].
    intros (? & ? & [= <- <-] & ([] & s2 & E2 & [= <- <-])%bind_done_inv)%bind_done_inv.
    apply Hcache in E2 as [? ?]; [by rewrite Hin|].
    assert (Hcom : forall k, committed_of (ts_in s1) addr (set_origin (Some (<[key:=read_storage (ts_in s1) addr key]> origin)) b) k
      = committed_of (ts_in s1) addr b k).
    { intros k. unfold committed_of. simpl. rewrite Ho. destruct (decide (key = k)) as [->|];
        [by rewrite lookup_insert_eq, Hk|by rewrite lookup_insert_ne]. }
    undone. unfold state_of. simpl. by rewrite Hcom.
  - destruct (StorageRootHash (b_acc b)) eqn:Hr; [|intros [= <- <-]; split; [done|split; [done|by exists b]]].
    intros (? & ? & [= <- <-] & ([] & s2 & E2 & [= <- <-])%bind_done_inv)%bind_done_inv.
    apply Hcache in E2 as [? ?]; [by rewrite Hin|].
    assert (Hcom : forall k, committed_of (ts_in s1) addr (set_origin (Some {[key := read_storage (ts_in s1) addr key]}) b) k
      = committed_of (ts_in s1) addr b k).
    { intros k. unfold committed_of. simpl. rewrite Ho, Hr. destruct (decide (key = k)) as [->|];
        [by rewrite lookup_singleton_eq|by rewrite lookup_singleton_ne]. }
    undone. unfold state_of. simpl. by rewrite Hcom.
Qed.

Lemma reversible_committed addr key : reversible (get_committed_state addr key).
Proof.
  intros s v s' E. destruct (body (load s addr)) as [b|] eqn:Hb; [by eapply get_committed_state_run|].
  unfold get_committed_state in E. destruct (get_body_run addr s) as (s1 & E1 & H1).
  rewrite (bind_done _ _ _ _ _ E1), Hb in E. injection E as <- <-. by eapply reversible_get_body.
Qed.

Lemma reversible_GetState addr key : reversible (ts_GetState addr key).
Proof.
  apply with_body. intros s a s' [b|] Hb; [|intros [= <- <-]; apply undoes_refl].
  destruct (_ !! _); [intros [= <- <-]; apply undoes_refl|apply reversible_committed].
Qed.

Lemma GetState_run addr key s v s' b :
  body (load s addr) = Some b -> ts_GetState addr key s = Done v s' ->
  exists b', body (load s' addr) = Some b' /\ v = state_of (ts_in s') addr b' key.
Proof.
  intros Hb. unfold ts_GetState. destruct (get_body_run addr s) as (s1 & E & H1).
  rewrite (bind_done _ _ _ _ _ E), Hb. pose proof (cg_body _ _ _ _ _ _ H1) as Hb1. rewrite Hb in Hb1.
  destruct (StorageDirty b !! key) as [v'|] eqn:Hd.
  - intros [= <- <-]. exists b. split; [done|]. unfold state_of. by rewrite Hd.
  - intros (_ & -> & b' & Hb' & Hs & Hin)%(get_committed_state_run _ _ _ _ _ b); [|done].
    exists b'. split; [done|]. rewrite Hin, (sb_state _ _ _ _ Hs). unfold state_of. by rewrite Hd.
Qed.

Lemma register_change_nil addr r s a s' : body (load s addr) = None -> register_change addr r s <> Done a s'.
Proof. intros Hb ([] & s1 & E & _)%bind_done_inv. by eapply update_body_nil. Qed.

Lemma reversible_SetState addr key value : reversible (ts_SetState addr key value).
Proof.
  apply reversible_bind; [apply reversible_ensure_exists|]. intros _ s a s' (prev & s1 & E1 & E2)%bind_done_inv.
  eapply undoes_trans; [by eapply reversible_GetState|].
  destruct (prev =? value); [injection E2 as <- <-; apply undoes_refl|].
  destruct (body (load s addr)) as [b0|] eqn:Hb0.
  - destruct (GetState_run _ _ _ _ _ _ Hb0 E1) as (b & Hb & ->). destruct a.
    eapply (register_then_update addr _ _ (RevStorage addr key _)); [done|done| |done]. undone. unfold state_of at 1. simpl.
    destruct (decide (key = key0)) as [->|]; [by rewrite lookup_insert_eq|]. by rewrite !lookup_insert_ne.
  - exfalso. unfold ts_GetState in E1. destruct (get_body_run addr s) as (s2 & E & H2).
    rewrite (bind_done _ _ _ _ _ E), Hb0 in E1. injection E1 as <- <-.
    apply bind_done_inv in E2 as ([] & s3 & E3 & _). eapply register_change_nil; [|done].
    by rewrite (cg_body _ _ _ _ _ _ H2).
Qed.

(** A query followed by what uses its answer. *)
Lemma reversible_bind_query {A B} addr (f : option AccountBody -> A) (k : A -> T B) :
  (forall s a s' b, b = body (load s addr) -> k (f b) s = Done a s' -> undoes s s') ->
  reversible (x ← (b ← get_body addr; ret (f b)); k x).
Proof.
  intros Hk s a s' (x & s1 & (b & s2 & E1 & [= <- <-])%bind_done_inv & E2)%bind_done_inv.
  eapply (with_body addr (fun b => k (f b)) Hk). by rewrite (bind_done _ _ _ _ _ E1).
Qed.

Lemma reversible_set_balance addr amount : reversible (set_balance addr amount).
Proof.
  apply with_body. intros s [] s' [b|] Hb E; [|discriminate].
  eapply (update_then_register addr _ _ (RevBalance addr _)); [done|done| |done]. undone.
Qed.

Lemma reversible_if {A} (c : bool) (m m' : T A) : reversible m -> reversible m' -> reversible (if c then m else m').
Proof. by destruct c. Qed.

(** Touching: the RIPEMD account is modified once more. *)
Lemma reversible_touch addr :
  reversible (_ ← update_body addr (fun b => set_touched (u32 (times_touched b + 1)) b);
              _ ← register_change addr (Some (RevTouch addr));
              when (bool_decide (addr = ripemd_addr)) (update_body addr (fun b => set_mod_count (u32 (mod_count b + 1)) b))).
Proof.
  intros s [] s' ([] & s1 & E1 & ([] & s2 & E2 & E3)%bind_done_inv)%bind_done_inv.
  destruct (body (load s addr)) as [b|] eqn:Hb; [|by apply update_body_nil in E1].
  eapply undoes_trans.
  - eapply (update_then_register addr _ _ (RevTouch addr) _ s2 b); [done|done| |by rewrite (bind_done _ _ _ _ _ E1)].
    undone.
  - destruct (decide (addr = ripemd_addr)) as [Hr|Hr].
    + rewrite bool_decide_true in E3 by done. simpl in E3.
      destruct (body (load s2 addr)) as [b2|] eqn:Hb2; [|by apply update_body_nil in E3].
      eapply update_quiet; [done| |done]. split; try done. intros Hn. exfalso. apply Hn. by left.
    + rewrite bool_decide_false in E3 by done. injection E3 as <-. apply undoes_refl.
Qed.

Lemma reversible_AddBalance addr amount : reversible (ts_AddBalance addr amount).
Proof.
  apply reversible_bind; [apply reversible_ensure_exists|]. intros _.
  apply reversible_bind; [apply reversible_query|]. intros balance.
  apply reversible_if; [apply reversible_set_balance|].
  apply reversible_bind; [apply reversible_query|]. intros empty.
  apply reversible_if; [apply reversible_ret|apply reversible_touch].
Qed.

Lemma reversible_SubBalance addr amount : reversible (ts_SubBalance addr amount).
Proof.
  apply reversible_bind; [apply reversible_ensure_exists|]. intros _.
  apply reversible_bind; [apply reversible_query|]. intros balance.
  apply reversible_if; [apply reversible_set_balance|apply reversible_ret].
Qed.

Lemma reversible_change_nonce addr nonce : reversible (change_nonce addr nonce).
Proof.
  apply reversible_bind_query with (f := fun b => match b with None => 0 | Some b => acc_Nonce (b_acc b) end).
  intros s [] s' b Hb E. destruct b as [b|].
  - eapply (update_then_register addr _ _ (RevNonce addr _)); [done|by symmetry| |done]. undone.
  - apply bind_done_inv in E as ([] & s1 & E1 & _). by apply update_body_nil in E1.
Qed.

Lemma reversible_SetNonce addr nonce : reversible (ts_SetNonce addr nonce).
Proof.
  apply reversible_bind; [apply reversible_ensure_exists|]. intros _.
  apply reversible_bind; [apply reversible_query|]. intros current.
  apply reversible_if; [apply reversible_panic|apply reversible_change_nonce].
Qed.

Lemma reversible_IncrementNonce addr : reversible (ts_IncrementNonce addr).
Proof.
  apply reversible_bind; [apply reversible_ensure_exists|]. intros _.
  apply reversible_bind; [apply reversible_query|]. intros current. apply reversible_change_nonce.
Qed.

Lemma reversible_HasSuicided addr : reversible (ts_HasSuicided addr).
Proof.
  apply reversible_bind; [apply reversible_get_body|]. intros [b|]; [apply reversible_ret|apply reversible_panic].
Qed.

Lemma reversible_Suicide addr newAddr : reversible (ts_Suicide addr newAddr).
Proof.
  apply reversible_bind; [apply reversible_GetAccount|]. intros _.
  apply reversible_bind; [apply reversible_get_body|]. intros [b|]; [|apply reversible_AddBalance].
  apply reversible_bind; [apply reversible_AddBalance|]. intros _.
  apply with_body. intros s [] s' [b'|] Hb E; [|discriminate].
  eapply (register_then_update addr _ _ (RevSuicide addr _ _)); [done|done| |done]. undone.
Qed.

Lemma reversible_AddLog log : reversible (ts_AddLog log).
Proof.
  intros s [] s' [= <-]. eexists [_]. split; [done|]. simpl. constructor. split; try done. simpl.
  apply take_app_length.
Qed.

Lemma reversible_AddRefund gas : reversible (ts_AddRefund gas).
Proof. intros s [] s' [= <-]. eexists [_]. split; [done|]. simpl. by constructor. Qed.

Lemma reversible_SubRefund gas : reversible (ts_SubRefund gas).
Proof.
  intros s [] s' (? & ? & [= <- <-] & E)%bind_done_inv. destruct (refund s <? gas); [discriminate|].
  injection E as <-. eexists [_]. split; [done|]. simpl. by constructor.
Qed.

Lemma reversible_SetTransientState addr key value : reversible (ts_SetTransientState addr key value).
Proof.
  intros s [] s' (? & ? & [= <- <-] & E)%bind_done_inv. case_bool_decide; injection E as <-; [apply undoes_refl|].
  apply undoes_same; [done|]. by split.
Qed.

(** Code is only ever set on an account without code. *)
Definition codeless (addr : Address) (s : TransitionState) : Prop :=
  match body (load s addr) with Some b => acc_CodeSize (b_acc b) = 0 | None => True end.

(** The entry afterwards, whether it was there or not. *)
Lemma ensure_exists_changed addr s :
  exists s' b del rs, ensure_exists addr s = Done tt s' /\ changed addr (Some b) del rs s s' /\
    (body (load s addr) = Some b \/ body (load s addr) = None /\ b = tick (body_of (mkDbAccount 0 0 None None 0))).
Proof.
  unfold ensure_exists. destruct (GetAccountConcrete_run addr s) as (s1 & E1 & H1).
  rewrite (bind_done _ _ _ _ _ E1). pose proof (cg_body _ _ _ _ _ _ H1) as Hb.
  destruct (body (load s1 addr)) as [b|] eqn:Hb1.
  - exists s1, b, (deleted (load s addr)), []. rewrite Hb. auto.
  - set (a := set_deleted false (set_body (Some (body_of (mkDbAccount 0 0 None None 0))) (load s1 addr))).
    assert (H2 : changed addr (body a) (deleted a) [] s1 (set_accounts (<[addr:=a]> (accounts s1)) s1)) by (by apply (changed_put addr a)).
    edestruct (register_change_run addr) as (s3 & E3 & H3); [apply (cg_body _ _ _ _ _ _ H2)|].
    eexists s3, _, _, _. split; [exact E3|]. split; [|by right].
    eapply changed_trans; [exact H1|]. eapply changed_trans; [exact H2|exact H3].
Qed.

Lemma ensure_exists_run addr s :
  exists s' b, ensure_exists addr s = Done tt s' /\ body (load s' addr) = Some b /\
    (body (load s addr) = Some b \/ body (load s addr) = None /\ b = tick (body_of (mkDbAccount 0 0 None None 0))) /\
    (forall addr', addr' <> addr -> load s' addr' = load s addr') /\ refund s' = refund s.
Proof.
  destruct (ensure_exists_changed addr s) as (s' & b & del & rs & E & [] & Hb). eauto 10.
Qed.

Lemma reversible_SetCode `{Crypto} addr code s a s' :
  codeless addr s -> ts_SetCode addr code s = Done a s' -> undoes s s'.
Proof.
  intros Hc ([] & s1 & E1 & E2)%bind_done_inv. eapply undoes_trans; [by eapply reversible_ensure_exists|].
  destruct (Z.of_nat (length code) =? 0); [injection E2 as <- <-; apply undoes_refl|].
  destruct (ensure_exists_run addr s) as (s2 & b & E & Hb & Hs & _ & _). rewrite E1 in E. injection E as <-.
  assert (Hn : acc_CodeSize (b_acc b) = 0).
  { unfold codeless in Hc. destruct Hs as [Hs|[_ ->]]; [by rewrite Hs in Hc|done]. }
  destruct a. eapply (register_then_update addr _ _ (RevCode addr)); [done|done| |done]. undone.
Qed.

(** A raw write is not undone. *)
Lemma reversible_SetStateRaw addr key value : has_raw addr -> reversible (SetStateRawIrreversibly addr key value).
Proof.
  intros Hr. apply reversible_bind; [apply reversible_ensure_exists|]. intros _ s [] s' ([] & s1 & E1 & E2)%bind_done_inv.
  destruct (body (load s addr)) as [b|] eqn:Hb; [|by apply update_body_nil in E1].
  destruct (update_body_run addr (fun b => set_raw (<[key:=value]> (RawStorageDirty b)) b) s b Hb) as (s2 & E & H2). rewrite E1 in E. injection E as <-.
  apply bind_done_inv in E2 as ([] & s2 & E2 & [= <-]). eapply undoes_trans.
  - eapply update_quiet; [done| |done]. by split.
  - eapply update_quiet; [apply (cg_body _ _ _ _ _ _ H2)| |exact E2]. split; try done. intros Hn. exfalso. apply Hn. by right.
Qed.

Lemma undo_raw r s t addr b' : undo r s = Some t -> body (load t addr) = Some b' ->
  exists b, body (load s addr) = Some b /\ RawStorageDirty b' = RawStorageDirty b.
Proof.
  destruct (undo_fun r) as [[a f]|] eqn:Hf.
  - rewrite (undo_undo_fun _ _ _ _ Hf). unfold undo_body. destruct (body (load s a)) as [b|] eqn:Hb; [|done]. intros [= <-].
    rewrite load_insert. case_decide as Ha; [subst|by exists b']. intros [= <-]. exists b. split; [done|]. by destruct r; simplify_eq/=.
  - destruct r; try discriminate Hf; simpl; [|intros [= <-]; by exists b'..].
    destruct (body (load s addr0)) as [b|]; [|done]. intros [= <-]. rewrite load_insert. case_decide; [done|by exists b'].
Qed.

Lemma undo_all_raw rs : forall s t addr b', undo_all rs s = Some t -> body (load t addr) = Some b' ->
  exists b, body (load s addr) = Some b /\ RawStorageDirty b' = RawStorageDirty b.
Proof.
  induction rs as [|r rs IH]; intros s t addr b'; cbn [undo_all]; [intros [= ->]; by exists b'|]. destruct (undo r s) as [s1|] eqn:E; [|done].
  intros Ht Hb. destruct (IH _ _ _ _ Ht Hb) as (b1 & H1 & ->). by eapply undo_raw.
Qed.

Lemma revert_raw k s a s' addr b' : ts_RevertToSnapshot k s = Done a s' -> body (load s' addr) = Some b' ->
  exists b, body (load s addr) = Some b /\ RawStorageDirty b' = RawStorageDirty b.
Proof.
  unfold ts_RevertToSnapshot. destruct (_ || _); [done|]. destruct (undo_all _ s) as [t|] eqn:E; [|done]. intros [= <- <-] Hb. exact (undo_all_raw _ _ _ _ _ E Hb).
Qed.

(** ** Snapshots *)
Lemma same_set_reverts rs s : same_state (set_reverts rs s) s.
Proof. by split. Qed.

Lemma undo_reverts r s t : undo r s = Some t -> ts_reverts t = ts_reverts s.
Proof.
  destruct (undo_fun r) as [[addr f]|] eqn:Hf.
  - rewrite (undo_undo_fun _ _ _ _ Hf). unfold undo_body. destruct (body _); [|done]. by intros [= <-].
  - destruct r; try discriminate Hf; simpl; [destruct (body _); [|done]|..]; by intros [= <-].
Qed.

Lemma undo_all_reverts rs s t : undo_all rs s = Some t -> ts_reverts t = ts_reverts s.
Proof.
  revert s. induction rs as [|r rs IH]; intros s; simpl; [by intros [= ->]|].
  destruct (undo r s) as [s1|] eqn:E; [|done]. intros Ht. rewrite (IH s1) by done. by eapply undo_reverts.
Qed.

Lemma RevertToSnapshot_run s rs n t :
  undo_all (take n (ts_reverts s)) s = Some t -> (n <= length (ts_reverts s))%nat ->
  rs = drop n (ts_reverts s) -> ts_RevertToSnapshot (Z.of_nat (length rs)) s = Done tt (set_reverts rs t).
Proof.
  intros Hu Hn ->. unfold ts_RevertToSnapshot. rewrite length_drop, Nat2Z.id.
  replace (length (ts_reverts s) - (length (ts_reverts s) - n))%nat with n by lia. rewrite Hu.
  rewrite (proj2 (Z.ltb_ge _ _)), (proj2 (Z.ltb_ge _ _)) by lia.
  simpl. by rewrite (undo_all_reverts _ _ _ Hu).
Qed.

(** Going back to where one was. *)
Lemma undoes_revert s s' :
  undoes s s' -> exists s'', ts_RevertToSnapshot (Z.of_nat (length (ts_reverts s))) s' = Done tt s'' /\
    ts_reverts s'' = ts_reverts s /\ same_state s'' s.
Proof.
  intros (rs & E & Hu). inversion Hu as [t ? Ht Et|]; subst. exists (set_reverts (ts_reverts s) t).
  split; [|split; [done|]].
  - apply (RevertToSnapshot_run s' _ (length rs)); rewrite E.
    + by rewrite take_app_length.
    + rewrite length_app. lia.
    + by rewrite drop_app_length.
  - etrans; [apply same_set_reverts|done].
Qed.

(** Going back less far than that. *)
Lemma undoes_revert_within s s' k a s'' :
  undoes s s' -> Z.of_nat (length (ts_reverts s)) <= k -> ts_RevertToSnapshot k s' = Done a s'' -> undoes s s''.
Proof.
  intros (rs & E & Hu) Hk. unfold ts_RevertToSnapshot. destruct (_ || _) eqn:Hb; [discriminate|].
  apply orb_false_elim in Hb as [_ Hb%Z.ltb_ge].
  destruct (undo_all (take _ _) s') as [t|] eqn:Ht; [|by intros]. rewrite (undo_all_reverts _ _ _ Ht). destruct a. intros [= <-].
  set (n := (length (ts_reverts s') - Z.to_nat k)%nat) in *.
  assert (Hn : (n <= length rs)%nat). { unfold n. rewrite E, length_app. lia. }
  exists (drop n rs). rewrite E in Ht |- *. rewrite drop_app_le, take_app_le in * by done. split; [done|].
  rewrite <- (take_drop n rs), undo_all_app, Ht in Hu. simpl in Hu. etrans; [|done].
  apply undo_all_proper, same_set_reverts.
Qed.
