(* ===== verification/StateDb.v ===== *)
(** * The state database: [taraxa/state/state_db]

    Columns and readers ([db.go]), the tries laid out in the columns
    ([main_trie.go], [account_trie.go]), accounts in both encodings, and the
    extended reader ([block_reader.go]). *)
From S2P Require Import Prelude Bytes Rlp Crypto StateEvm Trie.
Local Open Scope Z_scope.

(** ** Columns: [db.go] *)
Inductive Column := COL_code | COL_main_trie_node | COL_main_trie_value | COL_acc_trie_node | COL_acc_trie_value.

#[export] Instance Column_eq_dec : EqDecision Column.
Proof. solve_decision. Defined.

(** [Reader.Get]: what the callback is called with, if it is called. *)
Definition Reader : Type := Column -> bytes -> option bytes.

(** The calls of [ReadWriter.Put]. *)
Record DbPut := mkDbPut { put_col : Column; put_key : bytes; put_value : bytes }.

Record StateDescriptor := mkStateDescriptor { BlockNum : Z; StateRoot : bytes }.

(** [GetBlockStateReader]: [None] where it panics with [ErrFutureBlock]. *)
Definition GetBlockStateReader (committed : StateDescriptor) (reader : Z -> Reader) (blk_n : Z) : option Reader :=
  if BlockNum committed <? blk_n then None else Some (reader blk_n).

(** ** Panics *)
Definition must_be {St A} (r : string + A) : M St A := match r with inl err => panic err | inr a => ret a end.
Definition MustSplit {St} (b : bytes) : M St (Kind * bytes * bytes) := must_be (Split b).
Definition MustSplitString {St} (b : bytes) : M St (bytes * bytes) := must_be (SplitString b).
Definition MustSplitList {St} (b : bytes) : M St (bytes * bytes) := must_be (SplitList b).

(** [RLPListAt]: the content of an element. *)
Fixpoint nth_element {St} (n : nat) (rest : bytes) : M St bytes :=
  '(_, content, rest) ← MustSplit rest;
  match n with O => ret content | S n => nth_element n rest end.
Definition RLPListAt {St} (list : bytes) (pos : nat) : M St bytes :=
  '(_, rest, _) ← MustSplit list; nth_element pos rest.

(** [keccak256.HashView]. *)
Definition HashView {St} (b : bytes) : M St (option bytes) :=
  match b with
  | [] => ret None
  | _ => if (length b =? HashLength)%nat then ret (Some b) else panic "assertion error"
  end.

(** ** Encoders from the pool *)
Definition enc_Reset : M Encoder () := modify_st (fun _ => Encoder_Reset).
Definition take_acc_encoder : M Encoder () := enc_Reset.
Definition enc_ToBytes : M Encoder bytes := fun e =>
  match Flush e None with Some b => Done b e | None => Panic "list is not closed" end.

(** A call whose error is dropped. *)
Definition unchecked {St} (m : M St ()) : M St () := _ ← attempt m; ret tt.

Section state_db.
Context `{Crypto}.

(** [state_common]: the hash of the encoding of the empty string. *)
Definition EmptyRLPListHash : bytes := keccak256 (ToRLPString []).

Definition IsEmptyStateRoot (state_root : option bytes) : bool :=
  match state_root with
  | None => true
  | Some r => bool_decide (r = EmptyRLPListHash) || bool_decide (r = zero_hash)
  end.

(** ** The main trie: [main_trie.go] *)

(** From [ListStart] to [ToBytes(-1)]. *)
Definition list_ToBytes (fields : M Encoder ()) : M Encoder bytes :=
  rlp_list ← ListStart; _ ← fields; _ ← ListEnd rlp_list; enc_ToBytes.

Definition main_ValueStorageToHashEncoding (enc_storage : bytes) : M Encoder bytes :=
  _ ← take_acc_encoder;
  list_ToBytes (
    '(next, _) ← must_be (SplitList enc_storage);
    '(curr, next) ← must_be (SplitString next);
    _ ← AppendString curr;
    '(curr, next) ← must_be (SplitString next);
    _ ← AppendString curr;
    '(curr, next) ← must_be (SplitString next);
    _ ← AppendString (if (length curr =? 0)%nat then EmptyRLPListHash else curr);
    '(curr, next) ← must_be (SplitString next);
    AppendString (if (length curr =? 0)%nat then EmptyBytesKeccak256 else curr)).

Definition MainTrieSchema : Schema := {|
  ValueStorageToHashEncoding enc_storage :=
    match main_ValueStorageToHashEncoding enc_storage Encoder_Reset with Done enc_hash _ => Some enc_hash | _ => None end;
  MaxValueSizeToStoreInTrie := 8;
|}.

Definition DecodeAccountFromTrie {St} (enc_storage : bytes) : M St DbAccount :=
  '(rest, _) ← MustSplitList enc_storage;
  '(nonce, rest) ← MustSplitString rest;
  '(balance, rest) ← MustSplitString rest;
  '(storage_root, rest) ← MustSplitString rest;
  '(code_hash, rest) ← MustSplitString rest;
  '(code_size, _) ← MustSplitString rest;
  match DEC_b_endian_compact_64 code_size with
  | None => panic "index out of range"
  | Some code_size =>
      let hash b := if (length b =? 0)%nat then None else Some (pad_left HashLength b) in
      ret (mkDbAccount (be_to_uint nonce) (be_to_uint balance) (hash storage_root) (hash code_hash) code_size)
  end.

Definition acc_EncodeForTrie (self : DbAccount) : M Encoder (bytes * bytes) :=
  _ ← take_acc_encoder;
  enc_storage ← list_ToBytes (
    _ ← unchecked (AppendBigInt (Some (acc_Nonce self)));
    _ ← unchecked (AppendBigInt (Some (acc_Balance self)));
    _ ← match StorageRootHash self with Some h => AppendString h | None => AppendEmptyString end;
    _ ← match acc_CodeHash self with Some h => AppendString h | None => AppendEmptyString end;
    AppendUint (acc_CodeSize self));
  _ ← enc_Reset;
  enc_hash ← list_ToBytes (
    _ ← unchecked (AppendBigInt (Some (acc_Nonce self)));
    _ ← unchecked (AppendBigInt (Some (acc_Balance self)));
    _ ← match StorageRootHash self with Some h => AppendString h | None => AppendString EmptyRLPListHash end;
    match acc_CodeHash self with Some h => AppendString h | None => AppendString EmptyBytesKeccak256 end);
  ret (enc_storage, enc_hash).

Definition StorageRoot_of {St} (acc_enc_storage : bytes) : M St (option bytes) :=
  b ← RLPListAt acc_enc_storage 2; HashView b.
Definition CodeHash_of {St} (acc_enc_storage : bytes) : M St (option bytes) :=
  b ← RLPListAt acc_enc_storage 3; HashView b.

(** [MainTrieInputAdapter], [MainTrieIOAdapter]. *)
Definition MainTrieInput (r : Reader) : TrieDB := mkTrieDB (r COL_main_trie_value) (r COL_main_trie_node).
Definition MainTrieIO (w : Write) : DbPut :=
  match w with
  | PutValue k v => mkDbPut COL_main_trie_value k v
  | PutNode h n => mkDbPut COL_main_trie_node h n
  end.

(** ** The tries of accounts: [account_trie.go] *)
Definition AccountTrieSchema : Schema := {|
  ValueStorageToHashEncoding enc_storage := Some (ToRLPString enc_storage);
  MaxValueSizeToStoreInTrie := 8;
|}.

Record acc_storage_trie_value := mkAccStorageTrieValue { val_enc_storage : bytes; val_enc_hash : bytes }.
Definition NewAccStorageTrieValue (enc_storage : bytes) : acc_storage_trie_value :=
  mkAccStorageTrieValue enc_storage (ToRLPString enc_storage).
Definition val_EncodeForTrie (self : acc_storage_trie_value) : bytes * bytes := (val_enc_storage self, val_enc_hash self).

Definition acc_trie_db_key (addr : Address) (key : bytes) : bytes := keccak256 (addr_bytes addr ++ key).

(** [AccountTrieInputAdapter], [AccountTrieIOAdapter]. *)
Definition AccountTrieInput (addr : Address) (r : Reader) : TrieDB :=
  mkTrieDB (fun key => r COL_acc_trie_value (acc_trie_db_key addr key)) (r COL_acc_trie_node).
Definition AccountTrieIO (addr : Address) (w : Write) : DbPut :=
  match w with
  | PutValue k v => mkDbPut COL_acc_trie_value (acc_trie_db_key addr k) v
  | PutNode h n => mkDbPut COL_acc_trie_node h n
  end.

(** ** [ExtendedReader]: [block_reader.go] *)
Definition GetCode_of (r : Reader) (hash : bytes) : bytes := default [] (r COL_code hash).

Definition GetAccountStorage (r : Reader) (addr : Address) (key : bytes) : option bytes :=
  GetValue (AccountTrieInput addr r) (keccak256 key).

Definition GetRawAccount (r : Reader) (addr : Address) : option bytes :=
  GetValue (MainTrieInput r) (keccak256 (addr_bytes addr)).

Definition reader_GetAccount {St} (r : Reader) (addr : Address) : M St (option DbAccount) :=
  match GetRawAccount r addr with
  | None => ret None
  | Some v => a ← DecodeAccountFromTrie v; ret (Some a)
  end.

Definition GetCodeByAddress {St} (r : Reader) (addr : Address) : M St bytes :=
  match GetRawAccount r addr with
  | None => ret []
  | Some acc =>
      code_hash ← CodeHash_of acc;
      ret (match code_hash with Some h => GetCode_of r h | None => [] end)
  end.

(** A reading of a trie. *)
Definition in_trie {St A} (db : TrieDB) (m : M TrieDB A) : M St A := fun s =>
  match m db with Done a _ => Done a s | Fail err _ => Fail err s | Panic msg => Panic msg end.

(** [ForEachStorage]: the calls of [f]. *)
Definition ForEachStorage {St} (fuel : nat) (r : Reader) (addr : Address) : M St (list (bytes * bytes)) :=
  match GetRawAccount r addr with
  | None => ret []
  | Some acc =>
      storage_root ← StorageRoot_of acc;
      match storage_root with
      | None => ret []
      | Some storage_root =>
          calls ← in_trie (AccountTrieInput addr r)
                    (ForEach (V := acc_storage_trie_value) AccountTrieSchema fuel storage_root true);
          map_each (fun call => match call with
                                | (hash, Some val) => ret (hash, fst (encode_value val_EncodeForTrie val))
                                | (_, None) => panic "invalid memory address or nil pointer dereference"
                                end) calls
      end
  end.

Definition no_addr : Address := ZeroAddress.

Definition ForEachAccountNodeHashByRoot {St} (fuel : nat) (r : Reader) (storage_root : option bytes) : M St (list (bytes * bytes)) :=
  match storage_root with
  | None => ret []
  | Some root => in_trie (AccountTrieInput no_addr r)
                   (for_each_node_hash (V := acc_storage_trie_value) AccountTrieSchema fuel (NHash root) [])
  end.

Definition ForEachMainNodeHashByRoot {St} (fuel : nat) (r : Reader) (storage_root : option bytes) : M St (list (bytes * bytes)) :=
  match storage_root with
  | None => ret []
  | Some root => in_trie (MainTrieInput r)
                   (for_each_node_hash (V := acc_storage_trie_value) MainTrieSchema fuel (NHash root) [])
  end.
End state_db.
