(* ===== verification/StateDbProps.v ===== *)
(** * Accounts in the database

    An account that is written is read back, its encoding for the hash
    follows from the stored one, and its parts are found in place. *)
From S2P Require Import Prelude Bytes Rlp RlpEncode RlpDecode RlpRoundtrip RlpRaw Crypto StateEvm Trie TrieSpec TrieEnc StateDb.

(** ** Encoders that are run from the start *)
Lemma grown_Flush e b : grown Encoder_Reset e b -> Flush e None = Some b.
Proof.
  intros (s & hs & L & -> & _ & _ & Ho & Hseg). unfold Flush. cbn [str lheads Encoder_Reset app] in *.
  rewrite blen_nil, Z.add_0_l in *. rewrite Flush_loop_seg by done. rewrite <- (app_nil_r s) at 1. by rewrite Hseg.
Qed.

Lemma room_Reset n : n < 2 ^ 32 - 1 -> room Encoder_Reset n.
Proof. intros Hn. split; [done|]. change (blen (str Encoder_Reset)) with 0. change (lhsize Encoder_Reset) with 0. lia. Qed.

Lemma list_ToBytes_done m p : appends m p -> blen (enc_list p) < 2 ^ 32 - 1 ->
  exists e, list_ToBytes m Encoder_Reset = Done (enc_list p) e.
Proof.
  intros Hm Hp. destruct (appends_list m p Hm Encoder_Reset (room_Reset _ Hp)) as (a & e & E & G). exists e.
  unfold list_ToBytes, bindM in *. destruct (ListStart Encoder_Reset) as [start e0| |]; [|done..].
  destruct (m e0) as [x e1| |]; [|done..]. rewrite E. unfold enc_ToBytes. by rewrite (grown_Flush _ _ G).
Qed.

(** A step that only computes. *)
Lemma appends_must {A B} (a : A) (k : A -> M Encoder B) b : appends (k a) b -> appends (x ← must_be (inr a); k x) b.
Proof. done. Qed.

Lemma appends_big i : 0 <= i -> appends (unchecked (AppendBigInt (Some i))) (enc_string (big_Bytes i)).
Proof.
  intros Hi. assert (appends (AppendBigInt (Some i)) (enc_string (big_Bytes i))) as Ha.
  { unfold AppendBigInt. destruct (Z.eqb_spec i 0) as [->|]; [apply appends_raw|].
    rewrite (proj2 (Z.ltb_lt 0 i)) by lia. apply appends_string. }
  intros e He. destruct (Ha e He) as (a & e' & E & G). exists tt, e'. split; [|done].
  unfold unchecked, attempt, bindM. by rewrite E.
Qed.

(** ** The encodings of accounts *)
Definition acc_payload (a : DbAccount) (root code : bytes) : bytes :=
  enc_string (big_Bytes (acc_Nonce a)) ++ enc_string (big_Bytes (acc_Balance a)) ++ enc_string root ++ enc_string code.

Definition acc_storage (a : DbAccount) : bytes :=
  enc_list (acc_payload a (default [] (StorageRootHash a)) (default [] (acc_CodeHash a)) ++ enc_string (big_Bytes (acc_CodeSize a))).

Definition hash_ok (h : option bytes) : Prop := match h with Some b => length b = HashLength | None => True end.

(** Accounts as the EVM makes them. *)
Record account_ok (a : DbAccount) : Prop := mkAccountOk {
  ok_nonce : 0 <= acc_Nonce a;
  ok_balance : 0 <= acc_Balance a;
  ok_size : blen (big_Bytes (acc_Nonce a)) + blen (big_Bytes (acc_Balance a)) < 2 ^ 30;
  ok_root : hash_ok (StorageRootHash a);
  ok_code : hash_ok (acc_CodeHash a);
  ok_code_size : 0 <= acc_CodeSize a < 2 ^ 64;
}.

Section accounts.
Context `{Crypto} {laws : CryptoLaws}.

Definition acc_hash (a : DbAccount) : bytes :=
  enc_list (acc_payload a (default EmptyRLPListHash (StorageRootHash a)) (default EmptyBytesKeccak256 (acc_CodeHash a))).

Lemma blen_hash h : length h = HashLength -> blen h = 32.
Proof. unfold blen. intros ->. done. Qed.

Lemma length_EmptyRLPListHash : length EmptyRLPListHash = HashLength.
Proof. apply length_keccak256. Qed.
Lemma length_EmptyBytesKeccak256 : length EmptyBytesKeccak256 = HashLength.
Proof. apply length_keccak256. Qed.

Lemma blen_default h d : hash_ok h -> blen d <= 32 -> blen (default d h) <= 32.
Proof. destruct h as [b|]; simpl; [|done]. intros Hb%blen_hash. lia. Qed.

Lemma blen_acc_payload a root code : account_ok a -> blen root <= 32 -> blen code <= 32 -> blen (acc_payload a root code) < 2 ^ 30 + 128.
Proof.
  intros [_ _ Hsz _ _ _] Hr Hc. unfold acc_payload. rewrite !blen_app.
  pose proof (blen_enc_string_le (big_Bytes (acc_Nonce a))). pose proof (blen_enc_string_le (big_Bytes (acc_Balance a))).
  pose proof (blen_enc_string_le root). pose proof (blen_enc_string_le code). lia.
Qed.

Lemma blen_acc_storage_payload a : account_ok a ->
  blen (acc_payload a (default [] (StorageRootHash a)) (default [] (acc_CodeHash a)) ++ enc_string (big_Bytes (acc_CodeSize a))) < 2 ^ 30 + 256.
Proof.
  intros Ha. pose proof Ha as [_ _ _ Hr Hc Hs]. rewrite blen_app.
  pose proof (blen_acc_payload a _ _ Ha (blen_default _ [] Hr ltac:(done)) (blen_default _ [] Hc ltac:(done))).
  pose proof (blen_enc_string_le (big_Bytes (acc_CodeSize a))). pose proof (blen_big_64 _ Hs). lia.
Qed.

Lemma blen_acc_hash_payload a : account_ok a ->
  blen (acc_payload a (default EmptyRLPListHash (StorageRootHash a)) (default EmptyBytesKeccak256 (acc_CodeHash a))) < 2 ^ 30 + 128.
Proof.
  intros Ha. pose proof Ha as [_ _ _ Hr Hc _]. apply blen_acc_payload; [done| |]; (apply blen_default; [done|]).
  - rewrite (blen_hash _ length_EmptyRLPListHash). lia.
  - rewrite (blen_hash _ length_EmptyBytesKeccak256). lia.
Qed.

Lemma appends_hash_or h d : appends (match h with Some h => AppendString h | None => AppendString d end) (enc_string (default d h)).
Proof. destruct h; apply appends_string. Qed.

Lemma appends_hash_opt h : appends (match h with Some h => AppendString h | None => AppendEmptyString end) (enc_string (default [] h)).
Proof. destruct h; [apply appends_string|apply appends_raw]. Qed.

Lemma acc_EncodeForTrie_done a e : account_ok a -> exists e', acc_EncodeForTrie a e = Done (acc_storage a, acc_hash a) e'.
Proof.
  intros Ha. pose proof Ha as [Hn Hb _ _ _ Hs]. pose proof (blen_acc_storage_payload a Ha) as H1. pose proof (blen_acc_hash_payload a Ha) as H2.
  unfold acc_EncodeForTrie, acc_storage, acc_hash, acc_payload in *. rewrite <- !app_assoc in *.
  rewrite (bind_done _ _ e _ Encoder_Reset eq_refl).
  edestruct list_ToBytes_done as (e1 & E1); [| |rewrite (bind_done _ _ _ _ _ E1)].
  { repeat first [apply appends_big; done | apply appends_hash_opt | apply appends_uint; done | apply appends_bind; [|intros _]]. }
  { match type of H1 with blen ?p < _ => pose proof (blen_enc_list_bounds p) end. lia. }
  rewrite (bind_done _ _ e1 _ Encoder_Reset eq_refl).
  edestruct list_ToBytes_done as (e2 & E2); [| |rewrite (bind_done _ _ _ _ _ E2); by exists e2].
  { repeat first [apply appends_big; done | apply appends_hash_or | apply appends_bind; [|intros _]]. }
  { match type of H2 with blen ?p < _ => pose proof (blen_enc_list_bounds p) end. lia. }
Qed.

(** ** Reading *)
Lemma blen_rest s r n : blen (s ++ r) < n -> blen r < n.
Proof. rewrite blen_app. pose proof (blen_nonneg s). lia. Qed.

(** Reads one string after the other. *)
Ltac read_string H :=
  rewrite SplitString_enc by (eapply Z.lt_trans; [exact H|done]);
  match goal with |- context [must_be (inr ?x) ?st] => change (must_be (inr x) st) with (Done x st) end;
  apply blen_rest in H.

Lemma SplitList_all p : blen (enc_list p) < 2 ^ 63 -> SplitList (enc_list p) = inr (p, []).
Proof. intros Hl. pose proof (SplitList_enc p []) as E. rewrite app_nil_r in E. by apply E. Qed.

Lemma SplitString_all s : blen (enc_string s) < 2 ^ 63 -> SplitString (enc_string s) = inr (s, []).
Proof. intros Hl. pose proof (SplitString_enc s []) as E. rewrite app_nil_r in E. by apply E. Qed.

Lemma big_compact i : 0 <= i < 2 ^ 64 -> DEC_b_endian_compact_64 (big_Bytes i) = Some i.
Proof.
  intros Hi. destruct (decide (i = 0)) as [->|]; [done|]. rewrite big_Bytes_compact by lia.
  rewrite <- ENC_b_endian_compact_64_1_size. by apply compact_64_roundtrip.
Qed.

Lemma read_hash h : hash_ok h -> (if (length (default [] h) =? 0)%nat then None else Some (pad_left HashLength (default [] h))) = h.
Proof.
  destruct h as [b|]; simpl; [|done]. intros Hb. rewrite Hb. simpl. unfold pad_left. rewrite Hb, decide_False, Nat.sub_diag by lia. done.
Qed.

Lemma enc_list_short p n : blen p < n -> n < 2 ^ 62 -> blen (enc_list p) < 2 ^ 63.
Proof. intros. pose proof (blen_enc_list_bounds p). lia. Qed.

Lemma Decode_storage {St} a (st : St) : account_ok a -> DecodeAccountFromTrie (acc_storage a) st = Done a st.
Proof.
  intros Ha. pose proof Ha as [Hn Hb _ Hr Hc Hs]. pose proof (blen_acc_storage_payload a Ha) as H1.
  unfold DecodeAccountFromTrie, acc_storage, acc_payload in *. rewrite <- !app_assoc in *.
  unfold MustSplitList, MustSplitString, bindM. rewrite SplitList_all by (by eapply enc_list_short). cbn [must_be ret].
  do 4 (read_string H1; cbv beta iota). rewrite SplitString_all by lia. cbn [must_be ret].
  rewrite big_compact by done. unfold ret. rewrite !read_hash by done. destruct a; simpl in *.
  by rewrite !big_roundtrip by done.
Qed.
Lemma appends_default b d : appends (AppendString (if (length b =? 0)%nat then d else b)) (enc_string (if (length b =? 0)%nat then d else b)).
Proof. apply appends_string. Qed.

Lemma default_twice h d : hash_ok h -> (if (length (default [] h) =? 0)%nat then d else default [] h) = default d h.
Proof. destruct h as [b|]; simpl; [|done]. by intros ->. Qed.

Ltac parse_string H :=
  rewrite SplitString_enc by (eapply Z.lt_trans; [exact H|done]); apply appends_must; apply blen_rest in H; cbv beta iota.

(** What follows the list is not read. *)
Lemma storage_to_hash a rest e : account_ok a -> blen (acc_storage a ++ rest) < 2 ^ 63 ->
  exists e', main_ValueStorageToHashEncoding (acc_storage a ++ rest) e = Done (acc_hash a) e'.
Proof.
  intros Ha Hrest. pose proof Ha as [_ _ _ Hr Hc _]. pose proof (blen_acc_storage_payload a Ha) as H1. pose proof (blen_acc_hash_payload a Ha) as H2.
  unfold main_ValueStorageToHashEncoding, acc_storage in *. rewrite (bind_done _ _ e _ Encoder_Reset eq_refl).
  apply list_ToBytes_done; [|pose proof (enc_list_short _ _ H2); pose proof (blen_enc_list_bounds (acc_payload a (default EmptyRLPListHash (StorageRootHash a)) (default EmptyBytesKeccak256 (acc_CodeHash a)))); lia].
  rewrite SplitList_enc by done. apply appends_must. clear H2 Hrest. unfold acc_payload in *. rewrite <- !app_assoc in H1 |- *.
  do 2 (parse_string H1; apply appends_bind; [apply appends_string|intros _]).
  parse_string H1. apply appends_bind; [rewrite default_twice by done; apply appends_string|intros _].
  parse_string H1. rewrite default_twice by done. apply appends_string.
Qed.

Lemma blen_acc_storage a : account_ok a -> blen (acc_storage a) < 2 ^ 31.
Proof. intros Ha. unfold acc_storage. pose proof (blen_acc_storage_payload a Ha) as H1. match type of H1 with blen ?p < _ => pose proof (blen_enc_list_bounds p) end. lia. Qed.
Lemma blen_acc_hash a : account_ok a -> blen (acc_hash a) < 2 ^ 31.
Proof. intros Ha. unfold acc_hash. pose proof (blen_acc_hash_payload a Ha) as H1. match type of H1 with blen ?p < _ => pose proof (blen_enc_list_bounds p) end. lia. Qed.

(** ** Elements in place *)
Lemma Split_string s r : blen (enc_string s ++ r) < 2 ^ 63 -> exists k, Split (enc_string s ++ r) = inr (k, s, r).
Proof.
  intros Hl. pose proof (SplitString_enc s r Hl) as E. unfold SplitString in E.
  destruct (Split _) as [|[[[] c] r']]; [done|..|done]; simplify_eq; eauto.
Qed.

Lemma nth_element_S {St} n s r (st : St) : blen (enc_string s ++ r) < 2 ^ 63 -> nth_element (S n) (enc_string s ++ r) st = nth_element n r st.
Proof. intros Hl. destruct (Split_string s r Hl) as [k E]. cbn [nth_element]. unfold MustSplit. by rewrite E. Qed.

Lemma nth_element_0 {St} s r (st : St) : blen (enc_string s ++ r) < 2 ^ 63 -> nth_element 0 (enc_string s ++ r) st = Done s st.
Proof. intros Hl. destruct (Split_string s r Hl) as [k E]. cbn [nth_element]. unfold MustSplit. by rewrite E. Qed.

Lemma Split_list p : blen (enc_list p) < 2 ^ 63 -> Split (enc_list p) = inr (KList, p, []).
Proof.
  intros Hl. pose proof (SplitList_all p Hl) as E. unfold SplitList in E.
  destruct (Split _) as [|[[[] c] r']]; [done..|]; by simplify_eq.
Qed.

Lemma HashView_ok {St} h (st : St) : hash_ok h -> HashView (default [] h) st = Done h st.
Proof.
  destruct h as [b|]; simpl; [|done]. intros Hb. destruct b as [|x b]; [done|]. unfold HashView. by rewrite Hb.
Qed.

Ltac next_element H :=
  rewrite nth_element_S by (eapply Z.lt_trans; [exact H|done]); apply blen_rest in H.

Lemma hashes_in_place {St} a (st : St) : account_ok a ->
  StorageRoot_of (acc_storage a) st = Done (StorageRootHash a) st /\ CodeHash_of (acc_storage a) st = Done (acc_CodeHash a) st.
Proof.
  intros Ha. pose proof Ha as [_ _ _ Hr Hc _]. pose proof (blen_acc_storage_payload a Ha) as H1.
  unfold StorageRoot_of, CodeHash_of, RLPListAt, MustSplit, acc_storage.
  rewrite Split_list by (by eapply enc_list_short). unfold acc_payload in *. rewrite <- !app_assoc in H1 |- *.
  cbn [must_be]. unfold ret, bindM.
  split.
  - do 2 next_element H1. rewrite nth_element_0 by (eapply Z.lt_trans; [exact H1|done]). by apply HashView_ok.
  - do 3 next_element H1. rewrite nth_element_0 by (eapply Z.lt_trans; [exact H1|done]). by apply HashView_ok.
Qed.

(** An account that is encoded for the trie is decoded to itself, its
    storage root and code hash are found at their places in the encoding, and
    the encoding that is hashed is computed from the stored one exactly as
    from the account. *)
Theorem account_codec {St} a e (st : St) : account_ok a -> exists enc_storage enc_hash e',
  acc_EncodeForTrie a e = Done (enc_storage, enc_hash) e' /\
  DecodeAccountFromTrie enc_storage st = Done a st /\
  StorageRoot_of enc_storage st = Done (StorageRootHash a) st /\
  CodeHash_of enc_storage st = Done (acc_CodeHash a) st /\
  ValueStorageToHashEncoding MainTrieSchema enc_storage = Some enc_hash.
Proof.
  intros Ha. destruct (acc_EncodeForTrie_done a e Ha) as (e' & E). destruct (hashes_in_place a st Ha) as [E1 E2].
  destruct (storage_to_hash a [] Encoder_Reset Ha) as (e2 & E3); [rewrite app_nil_r; pose proof (blen_acc_storage a Ha); lia|rewrite app_nil_r in E3].
  exists (acc_storage a), (acc_hash a), e'. split_and!; [done|by apply Decode_storage|done|done|].
  simpl. by rewrite E3.
Qed.
End accounts.
