(* ===== verification/RocksDb.v ===== *)
(** * The database: [taraxa/state/state_db_rocksdb]

    Values of the tries are stored under versioned keys, a hash followed by
    the number of the block that wrote it, so that the state of every block
    can be read ([db.go], [latest_state.go], [misc.go]).  RocksDB itself is a
    C++ library: [RocksDB] has its operations on column families as the code
    uses them, [RocksDBLaws] what its documentation promises.  A block writes
    a batch, which [Commit] applies as a whole; the writer thread runs the
    submitted writes in order. *)
From S2P Require Import Prelude Bytes Rlp RlpDecode Crypto StateEvm Trie StateDb.
Local Open Scope Z_scope.

(** ** The library *)

(** The order of keys, byte by byte. *)
Fixpoint bytes_le (a b : bytes) : bool :=
  match a, b with
  | [], _ => true
  | _ :: _, [] => false
  | x :: a, y :: b => if Z_of_byte x <? Z_of_byte y then true else if Z_of_byte y <? Z_of_byte x then false else bytes_le a b
  end.

Class RocksDB (CF : Type) : Type := {
  cf_empty : CF;
  cf_Get : CF -> bytes -> option bytes;
  cf_Put : CF -> bytes -> bytes -> CF;
  cf_Delete : CF -> bytes -> CF;
  (** the last entry whose key is not after the target *)
  cf_SeekForPrev : CF -> bytes -> option (bytes * bytes);
  (** the entries from [SeekToFirst] on, by [Next] *)
  cf_entries : CF -> list (bytes * bytes);
}.

Class RocksDBLaws (CF : Type) `{RocksDB CF} : Prop := {
  Get_empty k : cf_Get cf_empty k = None;
  Get_Put cf k v k' : cf_Get (cf_Put cf k v) k' = if decide (k' = k) then Some v else cf_Get cf k';
  Get_Delete cf k k' : cf_Get (cf_Delete cf k) k' = if decide (k' = k) then None else cf_Get cf k';
  SeekForPrev_Some cf k k' v : cf_SeekForPrev cf k = Some (k', v) ->
    cf_Get cf k' = Some v /\ bytes_le k' k = true /\
    forall k'', is_Some (cf_Get cf k'') -> bytes_le k'' k = true -> bytes_le k'' k' = true;
  SeekForPrev_None cf k : cf_SeekForPrev cf k = None -> forall k', is_Some (cf_Get cf k') -> bytes_le k' k = false;
  entries_sorted cf i j e e' : cf_entries cf !! i = Some e -> cf_entries cf !! j = Some e' -> (i < j)%nat ->
    bytes_le (fst e) (fst e') = true /\ fst e <> fst e';
  elem_of_entries cf k v : (k, v) ∈ cf_entries cf <-> cf_Get cf k = Some v;
}.

(** ** Keys: [misc.go] *)
Definition BlockNumberNIL : Z := 2 ^ 64 - 1.
Definition VersionedKeyLength : nat := 40.
Definition VersionedKey (prefix : bytes) (block_num : Z) : bytes := take HashLength prefix ++ uint_to_be 8 block_num.

(** ** Columns: [db.go] *)
Inductive DbColumn :=
| cf_default
| state_col (c : Column)
| col_main_trie_value_latest
| col_acc_trie_value_latest
| col_config_changes.

#[export] Instance DbColumn_eq_dec : EqDecision DbColumn.
Proof. solve_decision. Defined.

(** [versioned_read_columns]. *)
Definition versioned (c : Column) : bool :=
  match c with COL_acc_trie_value | COL_main_trie_value => true | _ => false end.

(** The column with the most recent values. *)
Definition latest_col (c : Column) : option DbColumn :=
  match c with
  | COL_acc_trie_value => Some col_acc_trie_value_latest
  | COL_main_trie_value => Some col_main_trie_value_latest
  | _ => None
  end.

Section db.
Context `{Crypto} {CF : Type} {rocks : RocksDB CF}.

Record DB := mkDB {
  cf_handles : DbColumn -> CF;
  DisableMostRecentTrieValueViews : bool;
}.

Definition PutCF (col : DbColumn) (k v : bytes) (db : DB) : DB :=
  mkDB (fun c => if decide (c = col) then cf_Put (cf_handles db c) k v else cf_handles db c) (DisableMostRecentTrieValueViews db).
Definition set_cf (col : DbColumn) (cf : CF) (db : DB) : DB :=
  mkDB (fun c => if decide (c = col) then cf else cf_handles db c) (DisableMostRecentTrieValueViews db).

(** [block_state_reader.Get]. *)
Definition plain_Get (db : DB) (col : DbColumn) (k : bytes) : option bytes := present (cf_Get (cf_handles db col) k).

Definition block_state_reader_Get (db : DB) (blk_n : Z) (col : Column) (k : bytes) : option bytes :=
  if blk_n =? BlockNumberNIL then None else
  if versioned col then
    match cf_SeekForPrev (cf_handles db (state_col col)) (VersionedKey k blk_n) with
    | None => None
    | Some (key, v) => if bool_decide (take (length k) key = k) then present (Some v) else None
    end
  else plain_Get db (state_col col) k.

(** ** The latest state: [latest_state.go] *)
Record LatestState := mkLatestState {
  ls_db : DB;
  batch : list (DbColumn * bytes * bytes);
  state_desc : StateDescriptor;
  pending_blk_n : Z;
}.

Definition str_bytes (s : string) : bytes := String.list_byte_of_string s.
Definition last_committed_desc_key : bytes := str_bytes "last_committed_descriptor".
Definition most_recent_trie_value_views_status_key : bytes := str_bytes "most_recent_trie_value_views_status".

(** [StateDescriptor] as a type of the RLP codec. *)
Definition desc_typ : typ := TStruct (FCons no_tags (TUint 64) (FCons no_tags (TByteArray HashLength) FNil)).
Definition desc_val (d : StateDescriptor) : val := VList [VUint (BlockNum d); VBytes (StateRoot d)].
Definition val_desc (v : val) : option StateDescriptor :=
  match v with VList [VUint n; VBytes r] => Some (mkStateDescriptor n r) | _ => None end.

Definition put_status (s : string) (db : DB) : DB := PutCF cf_default most_recent_trie_value_views_status_key (str_bytes s) db.

(** The feature of the most recent views is switched off for good. *)
Definition init_views (d : StateDescriptor) : M DB () :=
  db ← get_st;
  let status := default [] (cf_Get (cf_handles db cf_default) most_recent_trie_value_views_status_key) in
  let disable := DisableMostRecentTrieValueViews db in
  status ← (if (length status =? 0)%nat then
              if disable then _ ← modify_st (put_status "disabled"); ret status
              else if BlockNum d =? BlockNumberNIL then _ ← modify_st (put_status "enabled"); ret status
              else panic "This database doesn't anymore support the most recent trie value views feature"
            else if negb (Bool.eqb (bool_decide (status = str_bytes "enabled")) (negb disable)) then
              if disable then _ ← modify_st (put_status "disabling"); ret (str_bytes "disabling")
              else panic "This database doesn't anymore support the most recent trie value views feature"
            else ret status);
  when (bool_decide (status = str_bytes "disabling"))
    (_ ← modify_st (set_cf col_main_trie_value_latest cf_empty);
     _ ← modify_st (set_cf col_acc_trie_value_latest cf_empty);
     modify_st (put_status "disabled")).

Definition LatestState_Init : M DB LatestState :=
  db ← get_st;
  let raw := default [] (cf_Get (cf_handles db cf_default) last_committed_desc_key) in
  desc ← (match raw with
          | [] => ret (mkStateDescriptor BlockNumberNIL zero_hash)
          | _ => match DecodeBytes desc_typ raw with
                 | Done v _ => match val_desc v with Some d => ret d | None => panic "rlp" end
                 | Fail err _ => panic err
                 | Panic msg => panic msg
                 end
          end);
  _ ← init_views desc;
  db ← get_st;
  ret (mkLatestState db [] desc (BlockNum desc)).

Definition set_batch (b : list (DbColumn * bytes * bytes)) (s : LatestState) : LatestState :=
  mkLatestState (ls_db s) b (state_desc s) (pending_blk_n s).

(** [GetBlockStateReader] of [state_db] on this database. *)
Definition GetBlockStateReader_db (s : LatestState) (blk_n : Z) : option Reader :=
  GetBlockStateReader (state_desc s) (block_state_reader_Get (ls_db s)) blk_n.

(** [PendingBlockState]: the block that is read, and its own number. *)
Record PendingBlockState := mkPending { read_blk_n : Z; blk_n : Z }.

Definition BeginPendingBlock : M LatestState PendingBlockState := fun s =>
  let s := mkLatestState (ls_db s) (batch s) (state_desc s) (u64 (pending_blk_n s + 1)) in
  Done (mkPending (BlockNum (state_desc s)) (pending_blk_n s)) s.

(** A read of a column under its real number. *)
Definition pending_Get (self : PendingBlockState) (s : LatestState) (col : Column) (k : bytes) : option bytes :=
  match (if DisableMostRecentTrieValueViews (ls_db s) then None else latest_col col) with
  | None => block_state_reader_Get (ls_db s) (read_blk_n self) col k
  | Some col => if read_blk_n self =? BlockNumberNIL then None else plain_Get (ls_db s) col k
  end.

(** The writes of one [Put], in the batch. *)
Definition put_writes (disable : bool) (n : Z) (p : DbPut) : list (DbColumn * bytes * bytes) :=
  if negb (versioned (put_col p)) then [(state_col (put_col p), put_key p, put_value p)] else
  (state_col (put_col p), VersionedKey (put_key p) n, put_value p) ::
  if disable then [] else match latest_col (put_col p) with Some c => [(c, put_key p, put_value p)] | None => [] end.

Definition pending_Put (self : PendingBlockState) (p : DbPut) : M LatestState () :=
  modify_st (fun s => set_batch (batch s ++ put_writes (DisableMostRecentTrieValueViews (ls_db s)) (blk_n self) p) s).

(** [db.Write]: the whole batch. *)
Definition write_batch (b : list (DbColumn * bytes * bytes)) (db : DB) : DB :=
  foldl (fun db w => let '(c, k, v) := w in PutCF c k v db) db b.

Definition LatestState_Commit (state_root : bytes) : M LatestState () := fun s =>
  let desc := mkStateDescriptor (pending_blk_n s) state_root in
  match EncodeToBytes desc_typ (desc_val desc) with
  | inr (Some enc) => Done tt (mkLatestState (write_batch (batch s ++ [(cf_default, last_committed_desc_key, enc)]) (ls_db s)) [] desc (pending_blk_n s))
  | inr None => Panic "rlp"
  | inl err => Panic err
  end.

(** ** Pruning: [db.go] *)
Definition db_prune_buffer_max_size : nat := 500 * 1000.

(** [binary.BigEndian.Uint64] of the version, and the hash of a key. *)
Definition key_version (key : bytes) : Z := be_to_uint (take 8 (drop HashLength key)).
Definition key_hash (key : bytes) : bytes := take HashLength key.

Definition delete_all (keys : list bytes) (cf : CF) : CF := foldl cf_Delete cf keys.

(** A version that is followed by another one before [blk_num]. *)
Definition superseded (blk_num : Z) (prev_key next_key : bytes) : bool :=
  bool_decide (key_hash prev_key = key_hash next_key) && (key_version next_key <? blk_num).

(** The loop of [deleteStateValues]; the iterator goes on over the entries
    as they were when it was made.  (The code reads the iterator before it
    asks whether it is valid, so an empty column is outside the documented
    use of the library; it counts as a loop without entries here.) *)
Fixpoint prune_values (blk_num : Z) (entries : list (bytes * bytes)) (to_prune : list bytes) (cf : CF) : CF :=
  match entries with
  | (prev_key, _) :: ((next_key, _) :: _) as entries =>
      let to_prune := if superseded blk_num prev_key next_key then to_prune ++ [prev_key] else to_prune in
      if (db_prune_buffer_max_size <? length to_prune)%nat then prune_values blk_num entries [] (delete_all to_prune cf)
      else prune_values blk_num entries to_prune cf
  | _ => delete_all to_prune cf
  end.

Definition deleteStateValues (blk_num : Z) (db : DB) : DB :=
  let cf := cf_handles db (state_col COL_acc_trie_value) in
  set_cf (state_col COL_acc_trie_value) (prune_values blk_num (cf_entries cf) [] cf) db.

(** [RecreateColumn]: only these nodes are left. *)
Definition RecreateColumn (column : Column) (nodes : list (bytes * bytes)) (db : DB) : DB :=
  set_cf (state_col column) (foldl (fun cf n => cf_Put cf (fst n) (snd n)) cf_empty nodes) db.

(** The nodes of the given roots; [fuel] for the depth of the tries. *)
Definition nodes_of_roots {St} (fuel : nat) (walk : nat -> option bytes -> M St (list (bytes * bytes))) (roots : list bytes) : M St (list (bytes * bytes)) :=
  nodes ← map_each (fun root => walk fuel (Some root)) roots; ret (concat nodes).

Definition recreateMainTrie (fuel : nat) (r : Reader) (state_root_to_keep : list bytes) : M DB () :=
  nodes ← nodes_of_roots fuel (fun fuel => ForEachMainNodeHashByRoot fuel r) state_root_to_keep;
  modify_st (RecreateColumn COL_main_trie_node nodes).

(** The loop of [deleteStateRoot]: every value is decoded as an account. *)
Fixpoint prune_accounts {St} (blk_num : Z) (entries : list (bytes * bytes)) (to_prune : list bytes) (roots_to_keep : list bytes) (cf : CF)
  : M St (CF * list bytes) :=
  match entries with
  | [] => ret (delete_all to_prune cf, roots_to_keep)
  | (prev_key, value) :: entries =>
      account ← DecodeAccountFromTrie value;
      let kept := roots_to_keep ++ match StorageRootHash account with Some root => [root] | None => [] end in
      match entries with
      | [] => ret (delete_all to_prune cf, kept)
      | (next_key, _) :: _ =>
          let pruned := superseded blk_num prev_key next_key in
          let to_prune := if pruned then to_prune ++ [prev_key] else to_prune in
          let roots_to_keep := if pruned then roots_to_keep else kept in
          if (db_prune_buffer_max_size <? length to_prune)%nat
          then prune_accounts blk_num entries [] roots_to_keep (delete_all to_prune cf)
          else prune_accounts blk_num entries to_prune roots_to_keep cf
      end
  end.

Definition deleteStateRoot (fuel : nat) (r : Reader) (blk_num : Z) : M DB () :=
  db ← get_st;
  let cf := cf_handles db (state_col COL_main_trie_value) in
  '(cf, roots) ← prune_accounts blk_num (cf_entries cf) [] [] cf;
  _ ← modify_st (set_cf (state_col COL_main_trie_value) cf);
  nodes ← nodes_of_roots fuel (fun fuel => ForEachAccountNodeHashByRoot fuel r) roots;
  modify_st (RecreateColumn COL_acc_trie_node nodes).

(** [Prune]: its three parts, which work on different columns, one after the
    other; [None] for a reader of a future block. *)
Definition Prune (fuel : nat) (state_root_to_keep : list bytes) (blk_num : Z) : M LatestState () := fun s =>
  match GetBlockStateReader_db s blk_num with
  | None => Panic "ErrFutureBlock"
  | Some r =>
      match (_ ← modify_st (deleteStateValues blk_num);
             _ ← recreateMainTrie fuel r state_root_to_keep;
             deleteStateRoot fuel r blk_num) (ls_db s) with
      | Done _ db => Done tt (mkLatestState db (batch s) (state_desc s) (pending_blk_n s))
      | Fail err db => Fail err (mkLatestState db (batch s) (state_desc s) (pending_blk_n s))
      | Panic msg => Panic msg
      end
  end.

(** ** Configuration changes *)
Definition GetDPOSConfigChanges (db : DB) : list (Z * bytes) :=
  map (fun e => (u64 (be_to_uint (fst e)), snd e)) (cf_entries (cf_handles db col_config_changes)).
Definition SaveDPOSConfigChange (blk : Z) (cfg : bytes) (db : DB) : DB := PutCF col_config_changes (big_Bytes blk) cfg db.
End db.
