(* ===== verification/RocksDbProps.v ===== *)
(** * Every block can be read

    The versioned keys keep the history of the values: a reader of block [n]
    sees what the blocks up to [n] have written last, and pruning before a
    block does not change what is read from it on. *)
From S2P Require Import Prelude Bytes Rlp RlpEncode RlpDecode RlpRoundtrip RlpRaw Crypto StateEvm Trie TrieEnc StateDb StateDbProps RocksDb.

(** ** The order of keys *)
Lemma bytes_le_be a : forall b, length a = length b -> bytes_le a b = bool_decide (be_to_uint a <= be_to_uint b).
Proof.
  assert (forall x c, be_to_uint (x :: c) = Z_of_byte x * 2 ^ (8 * blen c) + be_to_uint c) as Hcons.
  { intros x c. induction c as [|y c IH] using rev_ind; [pose proof (be_to_uint_snoc [] x) as E; simpl app in E; rewrite E; change (be_to_uint []) with 0; change (8 * blen []) with 0; lia|].
    rewrite app_comm_cons, !be_to_uint_snoc, IH. unfold blen. rewrite length_app. simpl.
    replace (8 * Z.of_nat (length c + 1)) with (8 + 8 * Z.of_nat (length c)) by lia. rewrite Z.pow_add_r by lia. change (2 ^ 8) with 256. ring. }
  induction a as [|x a IH]; intros [|y b] Hl; try done. simpl in Hl. injection Hl as Hl. cbn [bytes_le]. rewrite !Hcons.
  pose proof (be_to_uint_range a). pose proof (be_to_uint_range b). unfold blen in *. rewrite <- Hl in *.
  set (p := 2 ^ (8 * Z.of_nat (length a))) in *.
  destruct (Z.ltb_spec (Z_of_byte x) (Z_of_byte y)); [rewrite bool_decide_true; [done|nia]|].
  destruct (Z.ltb_spec (Z_of_byte y) (Z_of_byte x)); [rewrite bool_decide_false; [done|nia]|].
  rewrite IH by done. apply bool_decide_ext. assert (Z_of_byte x = Z_of_byte y) as -> by lia. lia.
Qed.

Lemma be_to_uint_app k n : 0 <= n < 2 ^ 64 -> be_to_uint (k ++ uint_to_be 8 n) = be_to_uint k * 2 ^ 64 + n.
Proof.
  intros Hn. assert (forall c, be_to_uint (k ++ c) = be_to_uint k * 2 ^ (8 * blen c) + be_to_uint c) as Ha.
  { intros c. induction c as [|y c IH] using rev_ind.
    - rewrite app_nil_r. change (be_to_uint []) with 0. change (8 * blen []) with 0. lia.
    - rewrite app_assoc, !be_to_uint_snoc, IH. unfold blen. rewrite length_app. simpl.
      replace (8 * Z.of_nat (length c + 1)) with (8 + 8 * Z.of_nat (length c)) by lia. rewrite Z.pow_add_r by lia. change (2 ^ 8) with 256. ring. }
  rewrite Ha, be_roundtrip. unfold blen. rewrite length_uint_to_be. rewrite Z.mod_small by done. done.
Qed.

Lemma be_to_uint_inj a b : length a = length b -> be_to_uint a = be_to_uint b -> a = b.
Proof. intros Hl E. rewrite <- (uint_to_be_be_to_uint a), <- (uint_to_be_be_to_uint b). by rewrite Hl, E. Qed.

Lemma VersionedKey_eq k n : length k = HashLength -> VersionedKey k n = k ++ uint_to_be 8 n.
Proof. intros Hk. unfold VersionedKey. by rewrite firstn_all2 by lia. Qed.

Lemma version_le k n k' n' : length k = HashLength -> length k' = HashLength -> 0 <= n < 2 ^ 64 -> 0 <= n' < 2 ^ 64 ->
  bytes_le (VersionedKey k n) (VersionedKey k' n') = bool_decide (be_to_uint k * 2 ^ 64 + n <= be_to_uint k' * 2 ^ 64 + n').
Proof.
  intros Hk Hk' Hn Hn'. rewrite !VersionedKey_eq by done. rewrite bytes_le_be by (by rewrite !length_app, !length_uint_to_be, Hk, Hk').
  by rewrite !be_to_uint_app.
Qed.

Lemma version_inj k n k' n' : length k = HashLength -> length k' = HashLength -> 0 <= n < 2 ^ 64 -> 0 <= n' < 2 ^ 64 ->
  VersionedKey k n = VersionedKey k' n' -> k = k' /\ n = n'.
Proof.
  intros Hk Hk' Hn Hn' E. rewrite !VersionedKey_eq in E by done. apply app_inj_1 in E as [-> E]; [|by rewrite Hk, Hk'].
  split; [done|]. apply (f_equal be_to_uint) in E. rewrite !be_roundtrip, !Z.mod_small in E by done. done.
Qed.

(** A key between two versions of the same hash is a version of it. *)
Lemma version_between k n k' n' m : length k = HashLength -> length k' = HashLength -> 0 <= n < 2 ^ 64 -> 0 <= n' < 2 ^ 64 -> 0 <= m < 2 ^ 64 ->
  bytes_le (VersionedKey k m) (VersionedKey k' n') = true -> bytes_le (VersionedKey k' n') (VersionedKey k n) = true -> k' = k /\ m <= n' <= n.
Proof.
  intros Hk Hk' Hn Hn' Hm. rewrite !version_le by done. rewrite !bool_decide_eq_true. intros H1 H2.
  assert (be_to_uint k' = be_to_uint k) as E by nia. apply be_to_uint_inj in E; [|by rewrite Hk, Hk']. subst. split_and!; [done|lia|lia].
Qed.

(** ** The last write *)

(** The last of the values that are selected. *)
Definition last_of {A} (sel : A -> option bytes) (l : list A) : option bytes :=
  foldl (fun o x => match sel x with Some v => Some v | None => o end) None l.

Definition or_else (o o' : option bytes) : option bytes := match o with Some v => Some v | None => o' end.

Lemma last_of_app {A} (sel : A -> option bytes) l l' : last_of sel (l ++ l') = or_else (last_of sel l') (last_of sel l).
Proof.
  unfold last_of. rewrite foldl_app. generalize (foldl (fun o x => match sel x with Some v => Some v | None => o end) None l) as o.
  induction l' as [|x l' IH] using rev_ind; intros o; [done|]. rewrite !foldl_app. simpl. rewrite IH. by destruct (sel x).
Qed.

Lemma last_of_single {A} (sel : A -> option bytes) x : last_of sel [x] = sel x.
Proof. unfold last_of. simpl. by destruct (sel x). Qed.

Lemma last_of_none {A} (sel : A -> option bytes) l : (forall x, x ∈ l -> sel x = None) -> last_of sel l = None.
Proof.
  induction l as [|x l IH] using rev_ind; intros Hn; [done|]. rewrite last_of_app, last_of_single, Hn by (apply elem_of_app; right; by left).
  simpl. apply IH. intros y Hy. apply Hn, elem_of_app. by left.
Qed.

Lemma last_of_concat {A B} (f : A -> list B) (sel : B -> option bytes) (sel' : A -> option bytes) l :
  (forall x, x ∈ l -> last_of sel (f x) = sel' x) -> last_of sel (concat (map f l)) = last_of sel' l.
Proof.
  induction l as [|x l IH] using rev_ind; intros Hf; [done|]. rewrite map_app, concat_app, !last_of_app, last_of_single.
  simpl. rewrite app_nil_r, Hf, IH; [done| |apply elem_of_app; right; by left]. intros y Hy. apply Hf, elem_of_app. by left.
Qed.

(** What a sequence of puts leaves in a column. *)
Definition put_at (c : Column) (k : bytes) (p : DbPut) : option bytes :=
  if decide (put_col p = c /\ put_key p = k) then Some (put_value p) else None.

(** A block: what it puts, and the root it commits. *)
Record Blk := mkBlk { blk_puts : list DbPut; blk_root : bytes }.

Definition put_ok (p : DbPut) : Prop := length (put_key p) = HashLength.
Definition blk_ok (b : Blk) : Prop := Forall put_ok (blk_puts b) /\ length (blk_root b) = HashLength.

Definition written (bs : list Blk) (c : Column) (k : bytes) : option bytes := last_of (put_at c k) (concat (map blk_puts bs)).
Definition written_in (bs : list Blk) (n : nat) (c : Column) (k : bytes) : option bytes :=
  bs !! n ≫= fun b => last_of (put_at c k) (blk_puts b).

Lemma written_snoc bs b c k : written (bs ++ [b]) c k = or_else (last_of (put_at c k) (blk_puts b)) (written bs c k).
Proof. unfold written. rewrite map_app, concat_app, last_of_app. simpl. by rewrite app_nil_r. Qed.

Lemma written_take_S bs n c k : written (take (S n) bs) c k = or_else (written_in bs n c k) (written (take n bs) c k).
Proof.
  unfold written_in. destruct (bs !! n) as [b|] eqn:E; simpl; [by rewrite (take_S_r _ _ _ E), written_snoc|].
  apply lookup_ge_None in E. by rewrite !firstn_all2 by lia.
Qed.

(** Blocks without a write do not matter. *)
Lemma written_skip bs c k m n : (m <= n)%nat -> (forall i, (m <= i < n)%nat -> written_in bs i c k = None) ->
  written (take n bs) c k = written (take m bs) c k.
Proof.
  intros Hmn Hn. induction n as [|n IH]; [by replace m with 0%nat by lia|]. destruct (decide (m = S n)) as [->|]; [done|].
  rewrite written_take_S, Hn by lia. simpl. apply IH; [lia|]. intros i Hi. apply Hn. lia.
Qed.

(** ** Runs *)
Section runs.
Context `{Crypto} {CF : Type} {rocks : RocksDB CF} {rlaws : RocksDBLaws CF}.

Definition run_blk (b : Blk) : M (LatestState (CF := CF)) () :=
  p ← BeginPendingBlock; _ ← for_each (pending_Put p) (blk_puts b); LatestState_Commit (blk_root b).
Definition run_blks : list Blk -> M (LatestState (CF := CF)) () := for_each run_blk.

Definition empty_db (disable : bool) : DB (CF := CF) := mkDB (fun _ => cf_empty) disable.

(** *** The batch *)
Definition write_at (c : DbColumn) (k : bytes) (w : DbColumn * bytes * bytes) : option bytes :=
  let '(c', k', v) := w in if decide (c' = c /\ k' = k) then Some v else None.

Lemma cf_PutCF col k v (db : DB (CF := CF)) c k' : cf_Get (cf_handles (PutCF col k v db) c) k' =
  if decide (col = c /\ k = k') then Some v else cf_Get (cf_handles db c) k'.
Proof.
  unfold PutCF. cbn [cf_handles]. destruct (decide (c = col)) as [->|Hne].
  - rewrite Get_Put. destruct (decide (k' = k)) as [->|]; [by rewrite decide_True|]. rewrite decide_False; [done|]. by intros [_ ->].
  - rewrite decide_False; [done|]. by intros [-> _].
Qed.

Lemma write_batch_Get ws : forall (db : DB (CF := CF)) c k,
  cf_Get (cf_handles (write_batch ws db) c) k = or_else (last_of (write_at c k) ws) (cf_Get (cf_handles db c) k).
Proof.
  induction ws as [|[[c' k'] v] ws IH] using rev_ind; intros db c k; [done|].
  unfold write_batch in *. rewrite foldl_app. cbn [foldl]. rewrite cf_PutCF, IH, last_of_app, last_of_single. cbn [write_at].
  by case_decide.
Qed.

Lemma write_batch_disable ws : forall db : DB (CF := CF), DisableMostRecentTrieValueViews (write_batch ws db) = DisableMostRecentTrieValueViews db.
Proof. induction ws as [|[[c k] v] ws IH] using rev_ind; intros db; [done|]. unfold write_batch in *. by rewrite foldl_app, <- (IH db). Qed.

Lemma for_each_put p ps : forall s : LatestState (CF := CF), for_each (pending_Put p) ps s =
  Done tt (set_batch (batch s ++ concat (map (put_writes (DisableMostRecentTrieValueViews (ls_db s)) (blk_n p)) ps)) s).
Proof.
  induction ps as [|x ps IH]; intros s; simpl; [rewrite app_nil_r; by destruct s|].
  rewrite (bind_done _ _ s tt (set_batch (batch s ++ put_writes (DisableMostRecentTrieValueViews (ls_db s)) (blk_n p) x) s) eq_refl), IH.
  unfold set_batch. cbn. by rewrite app_assoc.
Qed.

(** What the batch of a block writes to each kind of column. *)
Section batch.
Context (disable : bool) (n : Z) (Hn : 0 <= n < 2 ^ 64) (ps : list DbPut) (Hps : Forall put_ok ps).

Definition block_batch (enc : bytes) : list (DbColumn * bytes * bytes) :=
  concat (map (put_writes disable n) ps) ++ [(cf_default, last_committed_desc_key, enc)].

Lemma batch_drop_desc enc c k : c <> cf_default -> last_of (write_at c k) (block_batch enc) = last_of (write_at c k) (concat (map (put_writes disable n) ps)).
Proof.
  intros Hc. unfold block_batch. rewrite last_of_app, last_of_single. unfold write_at at 1. rewrite decide_False; [done|]. by intros [? _].
Qed.

Lemma batch_versioned enc c k m : versioned c = true -> length k = HashLength -> 0 <= m < 2 ^ 64 ->
  last_of (write_at (state_col c) (VersionedKey k m)) (block_batch enc) = if decide (m = n) then last_of (put_at c k) ps else None.
Proof.
  intros Hc Hk Hm. rewrite batch_drop_desc by done.
  assert (forall p, p ∈ ps -> last_of (write_at (state_col c) (VersionedKey k m)) (put_writes disable n p) = if decide (m = n) then put_at c k p else None) as Hp.
  { intros p Hin. rewrite Forall_forall in Hps. specialize (Hps p Hin). unfold put_writes, put_at.
    destruct (versioned (put_col p)) eqn:Ev; cbn [negb].
    - change ((state_col (put_col p), VersionedKey (put_key p) n, put_value p) :: ?l) with ([(state_col (put_col p), VersionedKey (put_key p) n, put_value p)] ++ l).
      rewrite last_of_app, last_of_single. assert (forall l, (forall w, w ∈ l -> exists d, latest_col (put_col p) = Some d /\ w.1.1 = d) -> last_of (write_at (state_col c) (VersionedKey k m)) l = None) as Hl.
      { intros l Hl. apply last_of_none. intros [[d k'] v] Hw. destruct (Hl _ Hw) as (d' & Ed & E). simpl in E. subst. unfold write_at. rewrite decide_False; [done|].
        intros [-> _]. by destruct (put_col p). }
      rewrite Hl.
      + cbn [or_else write_at]. destruct (decide (m = n)) as [->|Hne].
        * apply decide_ext. split; [intros [[= ->] E]; apply version_inj in E as [-> _]; done|intros [-> ->]; done].
        * rewrite decide_False; [done|]. intros [_ E]. apply version_inj in E as [_ ?]; done.
      + intros w Hw. destruct disable; [by apply not_elem_of_nil in Hw|]. destruct (latest_col (put_col p)) as [d|]; [|by apply not_elem_of_nil in Hw].
        apply list_elem_of_singleton in Hw as ->. eauto.
    - rewrite last_of_single. cbn [write_at]. rewrite decide_False by (intros [E1 _]; injection E1 as E1; congruence).
      destruct (decide (m = n)); [|done]. rewrite decide_False; [done|]. intros [E1 _]. congruence. }
  rewrite (last_of_concat _ _ _ _ Hp). destruct (decide (m = n)); [done|]. by apply last_of_none.
Qed.

(** Keys of other shapes are not written to versioned columns. *)
Lemma batch_shape enc c key : versioned c = true -> is_Some (last_of (write_at (state_col c) key) (block_batch enc)) ->
  exists k, length k = HashLength /\ key = VersionedKey k n.
Proof.
  intros Hc Hs. rewrite batch_drop_desc in Hs by done. clear Hn. induction ps as [|p l IH] using rev_ind; [by inversion Hs|].
  apply Forall_app in Hps as [Hl [Hp _]%Forall_cons]. rewrite map_app, concat_app, last_of_app in Hs. cbn [map concat] in Hs. rewrite app_nil_r in Hs.
  destruct (last_of (write_at (state_col c) key) (put_writes disable n p)) as [v|] eqn:E; [|by apply IH].
  exists (put_key p). split; [done|]. unfold put_writes in E. destruct (versioned (put_col p)) eqn:Ev; cbn [negb] in E.
  - destruct (decide (key = VersionedKey (put_key p) n)) as [->|Hne]; [done|]. rewrite last_of_none in E; [done|].
    intros [[d k'] v'] [[= -> -> ->]|Hw]%elem_of_cons; unfold write_at; [rewrite decide_False; [done|by intros [_ ?]]|].
    destruct disable; [by apply not_elem_of_nil in Hw|]. destruct (put_col p); try (by apply not_elem_of_nil in Hw);
      (apply list_elem_of_singleton in Hw as [= -> -> ->]; rewrite decide_False; [done|by intros [? _]]).
  - rewrite last_of_single in E. cbn [write_at] in E. case_decide as Ed; [|done]. destruct Ed as [E1 _]. injection E1 as E1. congruence.
Qed.

Lemma batch_plain enc c k : versioned c = false -> last_of (write_at (state_col c) k) (block_batch enc) = last_of (put_at c k) ps.
Proof.
  intros Hc. rewrite batch_drop_desc by done. apply last_of_concat. intros p _. unfold put_writes, put_at.
  destruct (versioned (put_col p)) eqn:Ev; cbn [negb].
  - rewrite decide_False by (intros [E1 _]; congruence). apply last_of_none.
    intros [[d k'] v'] [[= -> -> ->]|Hw]%elem_of_cons; unfold write_at; [rewrite decide_False; [done|intros [E1 _]; injection E1 as E1; congruence]|].
    destruct disable; [by apply not_elem_of_nil in Hw|]. destruct (put_col p); try (by apply not_elem_of_nil in Hw);
      (apply list_elem_of_singleton in Hw as [= -> -> ->]; rewrite decide_False; [done|by intros [? _]]).
  - rewrite last_of_single. cbn [write_at]. apply decide_ext. split; [intros [E1 ->]; by injection E1|by intros [-> ->]].
Qed.

Lemma batch_latest enc c d k : disable = false -> latest_col c = Some d -> last_of (write_at d k) (block_batch enc) = last_of (put_at c k) ps.
Proof.
  intros Hd Hc. rewrite batch_drop_desc by (by destruct c; simpl in *; simplify_eq). apply last_of_concat. intros p _. unfold put_writes, put_at. rewrite Hd.
  destruct p as [pc pk pv]. cbn [put_col put_key put_value].
  destruct pc, c; simpl in *; simplify_eq; unfold last_of; cbn [foldl write_at]; repeat case_decide; try done; naive_solver.
Qed.
End batch.

(** *** What the database keeps *)
Record keeps (bs : list Blk) (db : DB (CF := CF)) : Prop := mkKeeps {
  keeps_version c k n : versioned c = true -> length k = HashLength -> 0 <= n < 2 ^ 64 ->
    cf_Get (cf_handles db (state_col c)) (VersionedKey k n) = written_in bs (Z.to_nat n) c k;
  keeps_shape c key : versioned c = true -> is_Some (cf_Get (cf_handles db (state_col c)) key) ->
    exists k n, length k = HashLength /\ 0 <= n < 2 ^ 64 /\ key = VersionedKey k n;
  keeps_plain c k : versioned c = false -> cf_Get (cf_handles db (state_col c)) k = written bs c k;
  keeps_latest c d k : DisableMostRecentTrieValueViews db = false -> latest_col c = Some d -> cf_Get (cf_handles db d) k = written bs c k;
}.

Lemma keeps_block bs db b enc : keeps bs db -> Forall put_ok (blk_puts b) -> Z.of_nat (length bs) < 2 ^ 64 ->
  keeps (bs ++ [b]) (write_batch (block_batch (DisableMostRecentTrieValueViews db) (Z.of_nat (length bs)) (blk_puts b) enc) db).
Proof.
  intros [Hv Hs Hp Hl] Hps Hlen. split.
  - intros c k n Hc Hk Hn. rewrite write_batch_Get, batch_versioned by (done || lia). rewrite Hv by done. unfold written_in.
    destruct (decide (n = Z.of_nat (length bs))) as [->|Hne].
    + rewrite Nat2Z.id, list_lookup_middle, (proj2 (lookup_ge_None bs _)) by done. simpl. by destruct (last_of _ _).
    + cbn [or_else]. destruct (decide (Z.to_nat n < length bs)%nat); [by rewrite lookup_app_l|].
      rewrite !(proj2 (lookup_ge_None _ _)); [done|rewrite length_app; simpl; lia|lia].
  - intros c key Hc. rewrite write_batch_Get. destruct (last_of _ _) eqn:E.
    + intros _. destruct (batch_shape (DisableMostRecentTrieValueViews db) (Z.of_nat (length bs)) (blk_puts b) Hps enc c key Hc) as (k & Hk & ->); [by rewrite E|].
      exists k, (Z.of_nat (length bs)). split_and!; [done|lia|lia|done].
    + cbn [or_else]. by apply Hs.
  - intros c k Hc. by rewrite write_batch_Get, batch_plain, Hp, written_snoc.
  - intros c d k Hd Hc. rewrite write_batch_disable in Hd.
    rewrite write_batch_Get, (batch_latest _ (Z.of_nat (length bs)) ltac:(lia) _ _ c d k Hd Hc), (Hl c d k Hd Hc). by rewrite written_snoc.
Qed.

(** The state between blocks. *)
Record between (bs : list Blk) (disable : bool) (s : LatestState (CF := CF)) : Prop := mkBetween {
  bw_keeps : keeps bs (ls_db s);
  bw_batch : batch s = [];
  bw_pending : pending_blk_n s = u64 (Z.of_nat (length bs) - 1);
  bw_committed : BlockNum (state_desc s) = u64 (Z.of_nat (length bs) - 1);
  bw_root : forall b, last bs = Some b -> StateRoot (state_desc s) = blk_root b;
  bw_disable : DisableMostRecentTrieValueViews (ls_db s) = disable;
}.

Lemma desc_encodes d : 0 <= BlockNum d < 2 ^ 64 -> length (StateRoot d) = HashLength ->
  exists enc, EncodeToBytes desc_typ (desc_val d) = inr (Some enc).
Proof.
  intros Hn Hr. destruct d as [n r]. cbn [BlockNum StateRoot] in *.
  assert (encoding desc_typ no_tags (desc_val (mkStateDescriptor n r)) = Some (enc_list (enc_string (big_Bytes n) ++ enc_string r ++ []))) as E.
  { cbn [encoding encodings desc_typ desc_val BlockNum StateRoot]. change (2 ^ Z.min 64 64) with (2 ^ 64). rewrite (proj2 (Z.leb_le 0 n)), (proj2 (Z.ltb_lt n (2 ^ 64))) by lia.
    simpl andb. cbv iota. rewrite Hr. reflexivity. }
  eexists. apply (encoding_EncodeToBytes desc_typ _ _ eq_refl E). rewrite app_nil_r.
  pose proof (blen_enc_list_bounds (enc_string (big_Bytes n) ++ enc_string r)) as Hb. rewrite blen_app in Hb.
  pose proof (blen_enc_string_le (big_Bytes n)). pose proof (blen_enc_string_le r). pose proof (blen_big_64 n Hn). pose proof (blen_hash r Hr). lia.
Qed.

Lemma run_blk_done bs disable s b : between bs disable s -> blk_ok b -> Z.of_nat (length bs) < 2 ^ 64 ->
  exists s', run_blk b s = Done tt s' /\ between (bs ++ [b]) disable s'.
Proof.
  intros [Hk Hb Hp Hc Hr Hd] [Hps Hroot] Hlen.
  assert (u64 (u64 (Z.of_nat (length bs) - 1) + 1) = Z.of_nat (length bs)) as En.
  { unfold u64. rewrite Zplus_mod_idemp_l. replace (_ - 1 + 1) with (Z.of_nat (length bs)) by lia. apply Z.mod_small. lia. }
  unfold run_blk. rewrite (bind_done BeginPendingBlock _ s _ _ eq_refl). rewrite Hp, En, (bind_done _ _ _ _ _ (for_each_put _ _ _)).
  unfold LatestState_Commit, set_batch. cbn [ls_db batch state_desc pending_blk_n blk_n].
  destruct (desc_encodes (mkStateDescriptor (Z.of_nat (length bs)) (blk_root b))) as [enc ->]; [simpl; lia|done|].
  eexists. split; [done|]. rewrite Hb. cbn [app].
  pose proof (keeps_block bs (ls_db s) b enc Hk Hps Hlen) as Hk'. unfold block_batch in Hk'.
  assert (u64 (Z.of_nat (length (bs ++ [b])) - 1) = Z.of_nat (length bs)) as En'.
  { rewrite length_app. simpl. replace (_ - 1) with (Z.of_nat (length bs)) by lia. apply u64_small. lia. }
  split; cbn [ls_db batch state_desc pending_blk_n BlockNum StateRoot]; [done|done|by rewrite En'|by rewrite En'| |].
  - intros b'. rewrite last_snoc. by intros [= ->].
  - by rewrite write_batch_disable.
Qed.

Lemma run_blks_done bs : forall done_bs disable s, between done_bs disable s -> Forall blk_ok bs -> Z.of_nat (length (done_bs ++ bs)) < 2 ^ 64 ->
  exists s', run_blks bs s = Done tt s' /\ between (done_bs ++ bs) disable s'.
Proof.
  induction bs as [|b bs IH]; intros dbs disable s Hs Hok Hlen; [exists s; by rewrite app_nil_r|].
  apply Forall_cons in Hok as [Hb Hok]. rewrite length_app in Hlen. simpl in Hlen.
  destruct (run_blk_done dbs disable s b Hs Hb) as (s1 & E1 & Hs1); [lia|].
  destruct (IH (dbs ++ [b]) disable s1 Hs1 Hok) as (s2 & E2 & Hs2); [rewrite !length_app; simpl; lia|].
  exists s2. rewrite <- app_assoc in Hs2. split; [|done]. unfold run_blks. cbn [for_each]. by rewrite (bind_done _ _ _ _ _ E1).
Qed.

(** ** Reading *)
Lemma block_Get bs db n c k : keeps bs db -> 0 <= n < BlockNumberNIL -> length k = HashLength ->
  block_state_reader_Get db n c k = present (written (if versioned c then take (S (Z.to_nat n)) bs else bs) c k).
Proof.
  intros [Hv Hs Hp _] Hn Hk. unfold block_state_reader_Get, BlockNumberNIL in *. rewrite (proj2 (Z.eqb_neq _ _)) by lia.
  destruct (versioned c) eqn:Ev; [|unfold plain_Get; by rewrite Hp].
  assert (forall k' n' v, length k' = HashLength -> 0 <= n' < 2 ^ 64 -> written_in bs (Z.to_nat n') c k' = Some v ->
    is_Some (cf_Get (cf_handles db (state_col c)) (VersionedKey k' n'))) as Hin by (intros k' n' v Hk' Hn' E; rewrite Hv by done; by eexists).
  assert (forall i, (i <= Z.to_nat n)%nat -> bytes_le (VersionedKey k (Z.of_nat i)) (VersionedKey k n) = true) as Hle.
  { intros i Hi. rewrite version_le by (done || lia). apply bool_decide_true. lia. }
  assert ((forall i, (i <= Z.to_nat n)%nat -> written_in bs i c k = None) -> present (written (take (S (Z.to_nat n)) bs) c k) = None) as Hnone.
  { intros Hi. rewrite (written_skip bs c k 0) by (lia || (intros i ?; apply Hi; lia)). done. }
  destruct (cf_SeekForPrev _ _) as [[key v]|] eqn:E.
  - apply SeekForPrev_Some in E as (Eg & El & Emax). destruct (Hs c key Ev) as (k' & n' & Hk' & Hn' & ->); [by eexists|].
    rewrite Hv in Eg by done. 
    assert (take (length k) (VersionedKey k' n') = k') as -> by (rewrite VersionedKey_eq, Hk, <- Hk' by done; apply take_app_length).
    assert (forall i v', (i <= Z.to_nat n)%nat -> written_in bs i c k = Some v' -> k' = k /\ Z.of_nat i <= n' <= n) as Hbetween.
    { intros i v' Hi Ei. apply (version_between k n k' n' (Z.of_nat i)); [done..|lia|done|lia| |done].
      apply Emax; [|by apply Hle]. apply (Hin k (Z.of_nat i) v'); [done|lia|by rewrite Nat2Z.id]. }
    case_bool_decide as Ek.
    + subst k'. assert (Hn2 : n' <= n) by (rewrite version_le in El by (done || lia); apply bool_decide_eq_true in El; lia).
      rewrite (written_skip bs c k (S (Z.to_nat n'))); [|lia|].
      * by rewrite written_take_S, Eg.
      * intros i Hi. destruct (written_in bs i c k) as [v'|] eqn:Ei; [|done]. destruct (Hbetween i v' ltac:(lia) Ei). lia.
    + rewrite Hnone; [done|]. intros i Hi. destruct (written_in bs i c k) as [v'|] eqn:Ei; [|done]. by destruct (Hbetween i v' Hi Ei).
  - rewrite Hnone; [done|]. intros i Hi. destruct (written_in bs i c k) as [v'|] eqn:Ei; [|done].
    pose proof (SeekForPrev_None _ _ E (VersionedKey k (Z.of_nat i))) as Hf. rewrite Hle in Hf by done.
    discriminate Hf. apply (Hin _ _ v'); [done|lia|by rewrite Nat2Z.id].
Qed.

(** ** A new database *)
Definition new_db (disable : bool) : DB (CF := CF) := put_status (if disable then "disabled" else "enabled") (empty_db disable).

Lemma keeps_new disable : keeps [] (new_db disable).
Proof.
  assert (forall c k, c <> cf_default -> cf_Get (cf_handles (new_db disable) c) k = None) as Hn.
  { intros c k Hc. unfold new_db, put_status. rewrite cf_PutCF, decide_False by (by intros [<- _]). apply Get_empty. }
  split; [intros c k n _ _ _; by apply Hn| | |].
  - intros c key _ [v Hv]. by rewrite Hn in Hv.
  - intros c k _. by apply Hn.
  - intros c d k _ Hc. apply Hn. by destruct c; simpl in Hc; simplify_eq.
Qed.

Lemma init_new disable : exists s, LatestState_Init (empty_db disable) = Done s (new_db disable) /\ between [] disable s.
Proof.
  exists (mkLatestState (new_db disable) [] (mkStateDescriptor BlockNumberNIL zero_hash) BlockNumberNIL). split.
  - assert (forall c k, cf_Get (cf_handles (empty_db disable) c) k = None) as He by (intros c k; apply Get_empty).
    unfold LatestState_Init, init_views, bindM, get_st. rewrite !He. cbn [default ret BlockNum]. rewrite !He. by destruct disable.
  - split; [apply keeps_new|done..].
Qed.

(** C35: After any blocks on a new database every block can be read: a reader
    of block [n] sees in the columns of trie values what the blocks up to [n]
    have put last, and in the other columns what was put last; readers of
    later blocks are refused; and the pending block reads the last values,
    whether or not the most recent views are kept. *)
Theorem historical_reads disable bs : Forall blk_ok bs -> Z.of_nat (length bs) < BlockNumberNIL ->
  exists s0 db0 s, LatestState_Init (empty_db disable) = Done s0 db0 /\ run_blks bs s0 = Done tt s /\
    (forall n c k, 0 <= n < Z.of_nat (length bs) -> length k = HashLength -> exists r, GetBlockStateReader_db s n = Some r /\
      r c k = present (written (if versioned c then take (S (Z.to_nat n)) bs else bs) c k)) /\
    (forall n, bs <> [] -> Z.of_nat (length bs) <= n -> GetBlockStateReader_db s n = None) /\
    exists p s', BeginPendingBlock s = Done p s' /\ blk_n p = Z.of_nat (length bs) /\
      forall c k, length k = HashLength -> pending_Get p s' c k = present (written bs c k).
Proof.
  intros Hok Hlen. unfold BlockNumberNIL in Hlen. destruct (init_new disable) as (s0 & E0 & H0).
  destruct (run_blks_done bs [] disable s0 H0 Hok) as (s & E & [Hk Hb Hp Hc Hr Hd]); [simpl; lia|]. simpl app in *.
  assert (bs <> [] -> u64 (Z.of_nat (length bs) - 1) = Z.of_nat (length bs) - 1) as En.
  { intros Hne. destruct bs as [|b bs]; [done|]. simpl in *. apply u64_small. lia. }
  exists s0, (new_db disable), s. split_and!; [done|done| | |].
  - intros n c k Hn Hkl. unfold GetBlockStateReader_db, GetBlockStateReader. rewrite Hc, En by (intros ->; simpl in Hn; lia).
    rewrite (proj2 (Z.ltb_ge _ _)) by lia. eexists. split; [done|]. apply block_Get; [done|unfold BlockNumberNIL; lia|done].
  - intros n Hne Hn. unfold GetBlockStateReader_db, GetBlockStateReader. rewrite Hc, En by done. by rewrite (proj2 (Z.ltb_lt _ _)) by lia.
  - eexists _, _. split; [reflexivity|]. cbn [blk_n]. rewrite Hp. split.
    { unfold u64. rewrite Zplus_mod_idemp_l. replace (_ - 1 + 1) with (Z.of_nat (length bs)) by lia. apply Z.mod_small. lia. }
    intros c k Hkl. unfold pending_Get. cbn [ls_db read_blk_n state_desc]. rewrite Hc.
    destruct (decide (bs = [])) as [->|Hne].
    { change (u64 (Z.of_nat 0 - 1)) with BlockNumberNIL. unfold block_state_reader_Get. rewrite Z.eqb_refl. by destruct (if DisableMostRecentTrieValueViews (ls_db s) then None else latest_col c). }
    rewrite En by done. assert ((Z.of_nat (length bs) - 1 =? BlockNumberNIL) = false) as Enil by (unfold BlockNumberNIL; apply Z.eqb_neq; lia).
    assert (block_state_reader_Get (ls_db s) (Z.of_nat (length bs) - 1) c k = present (written bs c k)) as Hblk.
    { rewrite (block_Get bs) by (done || (unfold BlockNumberNIL; destruct bs; simpl in *; [done|lia])).
      rewrite firstn_all2 by lia. by destruct (versioned c). }
    destruct (DisableMostRecentTrieValueViews (ls_db s)) eqn:Ed; [done|]. destruct (latest_col c) as [d|] eqn:El; [|done].
    rewrite Enil. unfold plain_Get. by rewrite (keeps_latest bs (ls_db s) Hk c d k Ed El).
Qed.
End runs.
