(* ===== verification/RocksDbPrune.v ===== *)
(** * Pruning

    [Prune] deletes the superseded values before a block and leaves only the
    nodes of the tries that are asked for and of the storage of the accounts
    that are kept.  It returns, and what can be read from that block on is
    still there.  The loop over the accounts decodes every value, also the
    empty one of an account that was deleted, on which it panics.  The witness
    is in TrieExample. *)
From stdpp Require Import sorting.
From S2P Require Import Prelude Bytes Rlp RlpEncode RlpDecode RlpRoundtrip RlpRaw Crypto StateEvm Trie TrieSpec TrieEnc TrieSim TrieForEach StateDb StateDbProps RocksDb RocksDbProps.

Section prune.
Context `{Crypto} {laws : CryptoLaws} {CF : Type} {rocks : RocksDB CF} {rlaws : RocksDBLaws CF}.













Definition versions (cf : CF) : Prop :=
  forall key, is_Some (cf_Get cf key) -> exists k n, length k = HashLength /\ 0 <= n < 2 ^ 64 /\ key = VersionedKey k n.












(** ** The whole of [Prune] *)

(** Every account value decodes, and the trie of its storage is there. *)
Definition accounts_held (db : DB (CF := CF)) : Prop := forall key v, cf_Get (cf_handles db (state_col COL_main_trie_value)) key = Some v ->
  exists a, DecodeAccountFromTrie v tt = Done a tt /\
    forall r, StorageRootHash a = Some r -> exists T, nodes_held AccountTrieSchema (plain_Get db (state_col COL_acc_trie_node)) r T.

(** The database as [Prune] takes and leaves it: values are under versioned
    keys, as blocks write them ([blocks_prunable]). *)
Record prunable (db : DB (CF := CF)) : Prop := mkPrunable {
  pr_keys c : versioned c = true -> versions (cf_handles db (state_col c));
  pr_accounts : accounts_held db;
}.

Lemma blocks_prunable bs db : keeps bs db -> accounts_held db -> prunable db.
Proof. intros Hk Ha. split; [|done]. intros c Hc key Hs. by apply (keeps_shape bs db Hk c key Hc). Qed.



Section walks.
Context (db : DB (CF := CF)) (n : Z) (Hn : n <> BlockNumberNIL) (fuel : nat) (Hf : (132 <= fuel)%nat).



End walks.









(** A deleted account leaves an empty value, which does not decode: the loop
    panics on it. *)
Theorem prune_panics_on_deleted blk_num (cf : CF) key fuel r (db : DB (CF := CF)) :
  cf_handles db (state_col COL_main_trie_value) = cf -> cf_Get cf key = Some [] -> ~ exists st, deleteStateRoot fuel r blk_num db = Done tt st.
Proof.
  intros <- Hg [st E]. apply elem_of_entries in Hg. unfold deleteStateRoot in E.
  rewrite (bind_done get_st _ _ _ _ eq_refl) in E. apply bind_done_inv in E as ([cf' roots] & s1 & E & _).
  assert (forall es buf roots (cf : CF) (st : DB) x, (key, []) ∈ es -> prune_accounts blk_num es buf roots cf st <> Done x s1) as Hno; [|by eapply Hno].
  clear. induction es as [|[k v] es IH]; intros buf roots cf st x Hin E; [by apply not_elem_of_nil in Hin|].
  cbn [prune_accounts] in E. apply bind_done_inv in E as (a & s2 & Ea & E). apply elem_of_cons in Hin as [[= -> <-]|Hin]; [done|].
  destruct es as [|[k' v'] es]; [by apply not_elem_of_nil in Hin|]. cbv zeta in E. destruct (_ <? _)%nat; by eapply IH.
Qed.
End prune.

(** ** A concrete store: a finite map, listed in order *)
Definition key_le (e e' : bytes * bytes) : Prop := bytes_le (fst e) (fst e') = true.
#[export] Instance key_le_dec : RelDecision key_le.
Proof. intros e e'. unfold key_le. apply _. Defined.

Definition sorted_entries (m : gmap bytes bytes) : list (bytes * bytes) := merge_sort key_le (map_to_list m).
Definition seek_prev (m : gmap bytes bytes) (k : bytes) : option (bytes * bytes) :=
  last (List.filter (fun e => bytes_le (fst e) k) (sorted_entries m)).

Definition map_store : RocksDB (gmap bytes bytes) := {|
  cf_empty := ∅;
  cf_Get cf k := cf !! k;
  cf_Put cf k v := <[k := v]> cf;
  cf_Delete cf k := delete k cf;
  cf_SeekForPrev := seek_prev;
  cf_entries := sorted_entries;
|}.

Lemma bytes_le_refl a : bytes_le a a = true.
Proof. induction a as [|x a IH]; [done|]. simpl. by rewrite Z.ltb_irrefl. Qed.

Lemma bytes_le_total a : forall b, bytes_le a b = true \/ bytes_le b a = true.
Proof.
  induction a as [|x a IH]; intros [|y b]; simpl; [by left|by left|by right|].
  destruct (Z.ltb_spec (Z_of_byte x) (Z_of_byte y)); [by left|]. destruct (Z.ltb_spec (Z_of_byte y) (Z_of_byte x)); [by right|]. apply IH.
Qed.

Lemma bytes_le_trans a : forall b c, bytes_le a b = true -> bytes_le b c = true -> bytes_le a c = true.
Proof.
  induction a as [|x a IH]; intros [|y b] [|z c]; simpl; try done.
  repeat match goal with |- context [?u <? ?v] => destruct (Z.ltb_spec u v) end; try done; try lia. apply IH.
Qed.

Lemma bytes_le_antisymm a : forall b, bytes_le a b = true -> bytes_le b a = true -> a = b.
Proof.
  induction a as [|x a IH]; intros [|y b]; simpl; try done.
  repeat match goal with |- context [?u <? ?v] => destruct (Z.ltb_spec u v) end; try done; try lia. intros H1 H2. f_equal; [|by apply IH].
  rewrite <- (byte_of_Z_of_byte x), <- (byte_of_Z_of_byte y). f_equal. lia.
Qed.

#[export] Instance key_le_total : Total key_le.
Proof. intros e e'. apply bytes_le_total. Qed.
#[export] Instance key_le_trans : Transitive key_le.
Proof. intros a b c. apply bytes_le_trans. Qed.

Lemma sorted_entries_spec m k v : (k, v) ∈ sorted_entries m <-> m !! k = Some v.
Proof. unfold sorted_entries. rewrite merge_sort_Permutation. apply elem_of_map_to_list. Qed.

Lemma sorted_entries_sorted m : StronglySorted key_le (sorted_entries m).
Proof. apply (StronglySorted_merge_sort key_le). Qed.

Lemma sorted_entries_keys m : NoDup (fst <$> sorted_entries m).
Proof. unfold sorted_entries. rewrite merge_sort_Permutation. apply NoDup_fst_map_to_list. Qed.

Lemma StronglySorted_lookup {A} (R : relation A) l : StronglySorted R l -> forall i j x y, l !! i = Some x -> l !! j = Some y -> (i < j)%nat -> R x y.
Proof.
  induction 1 as [|a l Hs IH Ha]; intros i j x y Hi Hj Hij; [done|]. destruct j as [|j]; [lia|]. simpl in Hj. destruct i as [|i]; simpl in Hi.
  - injection Hi as <-. rewrite Forall_forall in Ha. apply Ha. by eapply list_elem_of_lookup_2.
  - eapply IH; [done..|lia].
Qed.

Lemma seek_prev_max l k : StronglySorted key_le l -> forall e, last (List.filter (fun e => bytes_le (fst e) k) l) = Some e ->
  e ∈ l /\ bytes_le (fst e) k = true /\ forall e', e' ∈ l -> bytes_le (fst e') k = true -> bytes_le (fst e') (fst e) = true.
Proof.
  intros Hs e. induction Hs as [|a l Hs IH Ha]; [done|]. rewrite Forall_forall in Ha. simpl. destruct (bytes_le a.1 k) eqn:Ea.
  - destruct (List.filter _ l) as [|b l'] eqn:El.
    + intros [= <-]. split_and!; [left|done|]. intros e' [->|Hin]%elem_of_cons Hle; [apply bytes_le_refl|].
      assert (e' ∈ List.filter (fun e => bytes_le (fst e) k) l) as Hf by (apply list_elem_of_In, filter_In; split; [by apply list_elem_of_In|done]).
      rewrite El in Hf. by apply not_elem_of_nil in Hf.
    + intros Hl. change (last (a :: b :: l')) with (last (b :: l')) in Hl. destruct (IH Hl) as (Hin & Hle & Hmax).
      split_and!; [by right|done|]. intros e' [->|Hin']%elem_of_cons Hle'; [by apply Ha|by apply Hmax].
  - intros Hl. destruct (IH Hl) as (Hin & Hle & Hmax). split_and!; [by right|done|]. intros e' [->|Hin']%elem_of_cons Hle'; [congruence|by apply Hmax].
Qed.

Lemma map_store_laws : @RocksDBLaws _ map_store.
Proof.
  split; unfold cf_Get, cf_Put, cf_Delete, cf_empty, cf_SeekForPrev, cf_entries, map_store, seek_prev.
  - intros k. apply lookup_empty.
  - intros cf k v k'. destruct (decide (k' = k)) as [->|]; [by rewrite lookup_insert_eq|by rewrite lookup_insert_ne].
  - intros cf k k'. destruct (decide (k' = k)) as [->|]; [by rewrite lookup_delete_eq|by rewrite lookup_delete_ne].
  - intros cf k k' v E. destruct (seek_prev_max _ _ (sorted_entries_sorted cf) _ E) as (Hin & Hle & Hmax).
    split_and!; [by apply sorted_entries_spec|done|]. intros k'' [v'' Hk'']. apply (Hmax (k'', v'')). by apply sorted_entries_spec.
  - intros cf k E k' [v' Hk']. apply last_None in E. destruct (bytes_le k' k) eqn:El; [|done].
    assert ((k', v') ∈ List.filter (fun e => bytes_le (fst e) k) (sorted_entries cf)) as Hf.
    { apply list_elem_of_In, filter_In. split; [by apply list_elem_of_In, sorted_entries_spec|done]. }
    rewrite E in Hf. by apply not_elem_of_nil in Hf.
  - intros cf i j e e' Hi Hj Hij. split; [by apply (StronglySorted_lookup _ _ (sorted_entries_sorted cf) i j)|].
    intros E. assert (i = j); [|lia]. apply (NoDup_lookup (fst <$> sorted_entries cf) i j (fst e)); [apply sorted_entries_keys|..].
    + by rewrite list_lookup_fmap, Hi.
    + by rewrite list_lookup_fmap, Hj, E.
  - intros cf k v. apply sorted_entries_spec.
Qed.

(** ** Three blocks of an account *)
#[local] Existing Instances map_store map_store_laws.

Definition account_key : bytes := replicate 32 Byte.x0a.
Definition storage_key : bytes := replicate 32 Byte.x0b.
Definition acct (nonce : Z) : DbAccount := mkDbAccount nonce 5 None None 0.
Definition enc_x : bytes := acc_storage (acct 1).
Definition enc_y : bytes := acc_storage (acct 2).

Lemma acct_ok n : 0 <= n < 256 -> account_ok (acct n).
Proof.
  intros Hn. split; simpl; try lia; try done. destruct (decide (n = 0)) as [->|]; [by vm_compute|].
  by rewrite big_Bytes_small by lia.
Qed.
Definition three_blocks : list Blk := [
  mkBlk [mkDbPut COL_main_trie_value account_key enc_x; mkDbPut COL_acc_trie_value storage_key [Byte.x01]] (replicate 32 Byte.x01);
  mkBlk [mkDbPut COL_acc_trie_value storage_key [Byte.x02]; mkDbPut COL_code account_key [Byte.x00]] (replicate 32 Byte.x02);
  mkBlk [mkDbPut COL_main_trie_value account_key enc_y; mkDbPut COL_acc_trie_value storage_key []] (replicate 32 Byte.x03)].

Lemma three_blocks_ok : Forall blk_ok three_blocks.
Proof. repeat (apply List.Forall_cons; [split; [repeat (apply List.Forall_cons; [done|]); apply List.Forall_nil|done]|]). apply List.Forall_nil. Qed.

Lemma historical_reads_witness : exists s0 db0 s r, LatestState_Init (empty_db false) = Done s0 db0 /\ run_blks three_blocks s0 = Done tt s /\
  GetBlockStateReader_db s 1 = Some r /\ r COL_main_trie_value account_key = Some enc_x /\ r COL_acc_trie_value storage_key = Some [Byte.x02].
Proof.
  destruct (historical_reads false three_blocks three_blocks_ok eq_refl) as (s0 & db0 & s & E0 & E & Hr & _).
  destruct (Hr 1 COL_main_trie_value account_key ltac:(done) eq_refl) as (r & Er & E1).
  destruct (Hr 1 COL_acc_trie_value storage_key ltac:(done) eq_refl) as (r' & Er' & E2). rewrite Er in Er'. injection Er' as <-.
  exists s0, db0, s, r. split_and!; [exact E0|exact E|exact Er| |]; [by rewrite E1; vm_compute|by rewrite E2; vm_compute].
Defined.
