(* ===== verification/TrieSink.v ===== *)
(** * From the EVM state to the tries: [state_transition/trie_sink.go]

    The sink receives the calls of [Output] ([OutOp]): a mutation collects
    the changes of an account, writes its storage trie and encodes it; the
    main trie holds the mutations themselves as values, which are encoded
    when it is committed.  The code runs the writes of the main trie in one
    thread and those of each account in another, in the order in which they
    are submitted, and joins the thread of an account before its encoding is
    taken; here each task runs when it is submitted.  A mutation is known by
    its position in the trace, as in [StateEvm]. *)
From S2P Require Import Prelude Bytes Rlp Crypto StateEvm Trie StateDb.
Local Open Scope Z_scope.

(** [TrieSinkAccountMutation]. *)
Record Mutation := mkMutation {
  mut_addr : Address;
  mut_acc : DbAccount;
  pending : bool;
  mut_enc : bytes * bytes;
  trie_writer : option (Writer (V := acc_storage_trie_value));
}.

(** [TrieSink]; [puts] are the writes of the block. *)
Record TrieSink := mkTrieSink {
  io : Reader;
  puts : list DbPut;
  main_trie_writer : Writer (V := nat);
  mutations : gmap nat Mutation;
}.

Definition set_io x (s : TrieSink) := mkTrieSink x (puts s) (main_trie_writer s) (mutations s).
Definition set_puts x (s : TrieSink) := mkTrieSink (io s) x (main_trie_writer s) (mutations s).
Definition set_main x (s : TrieSink) := mkTrieSink (io s) (puts s) x (mutations s).
Definition set_mutation k x (s : TrieSink) := mkTrieSink (io s) (puts s) (main_trie_writer s) (<[k := x]> (mutations s)).

Definition set_mut_acc x m := mkMutation (mut_addr m) x (pending m) (mut_enc m) (trie_writer m).
Definition set_pending x m := mkMutation (mut_addr m) (mut_acc m) x (mut_enc m) (trie_writer m).
Definition set_enc x m := mkMutation (mut_addr m) (mut_acc m) (pending m) x (trie_writer m).
Definition set_writer x m := mkMutation (mut_addr m) (mut_acc m) (pending m) (mut_enc m) x.
Definition set_root x (d : DbAccount) := mkDbAccount (acc_Nonce d) (acc_Balance d) x (acc_CodeHash d) (acc_CodeSize d).

Section sink.
Context `{Crypto}.

(** An operation on a trie, over the adapter of its columns. *)
Definition on_trie {A} (view : Reader -> TrieDB) (adapter : Write -> DbPut) (m : M IO A) : M TrieSink A := fun s =>
  match m (mkIO (view (io s)) []) with
  | Done a x => Done a (set_puts (puts s ++ map adapter (writes x)) s)
  | Fail err x => Fail err (set_puts (puts s ++ map adapter (writes x)) s)
  | Panic msg => Panic msg
  end.
Definition on_main {A} : M IO A -> M TrieSink A := on_trie MainTrieInput MainTrieIO.
Definition on_account {A} (addr : Address) : M IO A -> M TrieSink A := on_trie (AccountTrieInput addr) (AccountTrieIO addr).

Definition get_mutation (k : nat) : M TrieSink Mutation := fun s =>
  match mutations s !! k with Some m => Done m s | None => Panic "invalid memory address or nil pointer dereference" end.
Definition put_mutation (k : nat) (m : Mutation) : M TrieSink () := modify_st (set_mutation k m).

(** [Init]. *)
Definition TrieSink_Init (state_root : bytes) (levels : Z) : option TrieSink :=
  let state_root := if IsEmptyStateRoot (Some state_root) then None else Some state_root in
  (fun w => mkTrieSink (fun _ _ => None) [] w ∅) <$> Writer_Init state_root levels.

Definition SetIO (r : Reader) : M TrieSink () := modify_st (fun s => set_puts [] (set_io r s)).

Definition sink_StartMutation (k : nat) (addr : Address) : M TrieSink () :=
  put_mutation k (mkMutation addr (mkDbAccount 0 0 None None 0) false ([], []) None).

Definition main_Put (k : nat) (key : bytes) : M TrieSink () :=
  s ← get_st; w ← on_main (Writer_Put MainTrieSchema (main_trie_writer s) key k); modify_st (set_main w).

Definition sink_Delete (addr : Address) : M TrieSink () :=
  s ← get_st; w ← on_main (Writer_Delete MainTrieSchema (main_trie_writer s) (keccak256 (addr_bytes addr))); modify_st (set_main w).

(** One slot of the storage. *)
Definition write_slot (k_h v : bytes) (w : Writer) : M IO Writer :=
  match v with
  | [] => Writer_Delete AccountTrieSchema w k_h
  | _ => Writer_Put AccountTrieSchema w k_h (NewAccStorageTrieValue v)
  end.

Fixpoint write_slots (slots : list (bytes * bytes)) (w : Writer) : M IO Writer :=
  match slots with [] => ret w | (k_h, v) :: slots => w ← write_slot k_h v w; write_slots slots w end.

(** The slots of a change: hashed keys and values, empty for a deletion. *)
Definition dirty_slots (upd : AccountChange) : list (bytes * bytes) :=
  map (fun p => (keccak256 (uint_to_be 32 (fst p)), big_Bytes (snd p))) (map_to_list (ch_StorageDirty upd)) ++
  map (fun p => (keccak256 (fst p), snd p)) (map_to_list (ch_RawStorageDirty upd)).

(** The task of [Update] in the thread of the account. *)
Definition update_task (k : nat) (upd : AccountChange) : M TrieSink () :=
  m ← get_mutation k;
  let m := set_mut_acc (ch_Account upd) m in
  if bool_decide (ch_StorageDirty upd = ∅) && bool_decide (ch_RawStorageDirty upd = ∅) then put_mutation k m else
  match (match trie_writer m with Some w => Some w | None => Writer_Init (StorageRootHash (ch_Account upd)) 0 end) with
  | None => panic "assertion error"
  | Some w =>
      w ← on_account (mut_addr m) (write_slots (dirty_slots upd) w);
      put_mutation k (set_writer (Some w) m)
  end.

Definition sink_Update (k : nat) (upd : AccountChange) : M TrieSink () :=
  _ ← when (ch_CodeDirty upd)
        (match acc_CodeHash (ch_Account upd) with
         | Some h => modify_st (fun s => set_puts (puts s ++ [mkDbPut COL_code h (default [] (ch_Code upd))]) s)
         | None => panic "invalid memory address or nil pointer dereference"
         end);
  m ← get_mutation k;
  _ ← when (negb (pending m)) (_ ← put_mutation k (set_pending true m); main_Put k (keccak256 (addr_bytes (mut_addr m))));
  update_task k upd.

Definition encode_account (a : DbAccount) : M TrieSink (bytes * bytes) := fun s =>
  match acc_EncodeForTrie a Encoder_Reset with Done enc _ => Done enc s | Fail err _ => Fail err s | Panic msg => Panic msg end.

Definition sink_CommitMutation (k : nat) : M TrieSink () :=
  m ← get_mutation k;
  if negb (pending m) then ret tt else
  let m := set_pending false m in
  m ← (match trie_writer m with
       | None => ret m
       | Some w =>
           '(root, w) ← on_account (mut_addr m) (Writer_Commit val_EncodeForTrie AccountTrieSchema w);
           ret (set_writer (Some w) (set_mut_acc (set_root root (mut_acc m)) m))
       end);
  enc ← encode_account (mut_acc m);
  put_mutation k (set_enc enc m).

(** [EncodeForTrie] of a mutation. *)
Definition mut_EncodeForTrie (s : TrieSink) (k : nat) : bytes * bytes :=
  match mutations s !! k with Some m => mut_enc m | None => ([], []) end.

Definition sink_Commit : M TrieSink bytes :=
  s ← get_st;
  '(root, w) ← on_main (Writer_Commit (mut_EncodeForTrie s) MainTrieSchema (main_trie_writer s));
  _ ← modify_st (set_main w);
  ret (default EmptyRLPListHash root).

(** The calls of a trace, from position [i] on. *)
Definition sink_op (i : nat) (o : OutOp) : M TrieSink () :=
  match o with
  | StartMutation addr => sink_StartMutation i addr
  | OutDelete addr => sink_Delete addr
  | Update k change => sink_Update k change
  | CommitMutation k => sink_CommitMutation k
  end.

Fixpoint sink_ops (i : nat) (os : list OutOp) : M TrieSink () :=
  match os with [] => ret tt | o :: os => _ ← sink_op i o; sink_ops (S i) os end.
End sink.
