(* ===== verification/TrieSinkProps.v ===== *)
(** * The state root of a block

    What the sink receives in a block determines maps of storage slots and of
    accounts; the root that the sink returns is the root of the tries of
    these maps. *)
From S2P Require Import Prelude Bytes Rlp RlpEncode RlpDecode RlpRoundtrip RlpRaw Crypto StateEvm Trie TrieSpec TrieEnc TrieSim TrieCommit TrieProps StateDb StateDbProps TrieSink.

(** ** Operations on tries only append writes *)
Definition prepend {A} (ws : list Write) (r : outcome IO A) : outcome IO A :=
  match r with
  | Done a x => Done a (mkIO (committed x) (ws ++ writes x))
  | Fail err x => Fail err (mkIO (committed x) (ws ++ writes x))
  | Panic msg => Panic msg
  end.

Definition writes_only {A} (m : M IO A) : Prop := forall c ws, m (mkIO c ws) = prepend ws (m (mkIO c [])).

Lemma prepend_app {A} ws ws' (r : outcome IO A) : prepend ws (prepend ws' r) = prepend (ws ++ ws') r.
Proof. destruct r; simpl; by rewrite ?app_assoc. Qed.

Lemma writes_only_ret {A} (a : A) : writes_only (ret a).
Proof. intros c ws. simpl. by rewrite app_nil_r. Qed.

Lemma writes_only_bind {A B} (m : M IO A) (f : A -> M IO B) : writes_only m -> (forall a, writes_only (f a)) -> writes_only (x ← m; f x).
Proof.
  intros Hm Hf c ws. unfold bindM. rewrite (Hm c ws). destruct (m (mkIO c [])) as [a [c' ws']|e x|msg]; simpl; [|done|done].
  by rewrite (Hf a c' (ws ++ ws')), (Hf a c' ws'), prepend_app.
Qed.

Lemma writes_only_reading {A} (m : M TrieDB A) : writes_only (reading m).
Proof. intros c ws. unfold reading. simpl. destruct (m c); simpl; by rewrite ?app_nil_r. Qed.

(** Induction on nodes with the hypothesis for every child. *)
Section node_ind.
Context {V : Type} (P : @node V -> Prop).
Context (Hnil : P NNil) (Hhash : forall h, P (NHash h)) (Hshort : forall k v h, P v -> P (NShort k v h))
  (Hfull : forall cs h, Forall P cs -> P (NFull cs h)) (Hval : forall v, P (NValue v)).
Fixpoint node_ind' (n : node) : P n :=
  match n with
  | NNil => Hnil
  | NHash h => Hhash h
  | NShort k v h => Hshort k v h (node_ind' v)
  | NFull cs h => Hfull cs h ((fix go (cs : list node) : Forall P cs := match cs with
      | [] => List.Forall_nil P
      | c :: cs => List.Forall_cons P c cs (node_ind' c) (go cs)
      end) cs)
  | NValue v => Hval v
  end.
End node_ind.

Definition prepend_ctx {A} (ws : list Write) (r : outcome Ctx A) : outcome Ctx A :=
  match r with
  | Done a c => Done a (mkCtx (enc_hash c) (enc_storage c) (mkIO (committed (db_tx c)) (ws ++ writes (db_tx c))))
  | Fail err c => Fail err (mkCtx (enc_hash c) (enc_storage c) (mkIO (committed (db_tx c)) (ws ++ writes (db_tx c))))
  | Panic msg => Panic msg
  end.
Definition ctx_only {A} (m : M Ctx A) : Prop := forall he es c ws, m (mkCtx he es (mkIO c ws)) = prepend_ctx ws (m (mkCtx he es (mkIO c []))).

Lemma prepend_ctx_app {A} ws ws' (r : outcome Ctx A) : prepend_ctx ws (prepend_ctx ws' r) = prepend_ctx (ws ++ ws') r.
Proof. destruct r; simpl; by rewrite ?app_assoc. Qed.

Lemma ctx_only_ret {A} (a : A) : ctx_only (ret a).
Proof. intros he es c ws. simpl. by rewrite app_nil_r. Qed.
Lemma ctx_only_panic {A} msg : ctx_only (A := A) (panic msg).
Proof. done. Qed.
Lemma ctx_only_panics {A} msg (o : option A) : ctx_only (ctx_panics msg o).
Proof. destruct o; [apply ctx_only_ret|apply ctx_only_panic]. Qed.
Lemma ctx_only_bind {A B} (m : M Ctx A) (f : A -> M Ctx B) : ctx_only m -> (forall a, ctx_only (f a)) -> ctx_only (x ← m; f x).
Proof.
  intros Hm Hf he es c ws. unfold bindM. rewrite (Hm he es c ws). destruct (m (mkCtx he es (mkIO c []))) as [a [he' es' [c' ws']]|e x|msg]; simpl; [|done|done].
  by rewrite (Hf a he' es' c' (ws ++ ws')), (Hf a he' es' c' ws'), prepend_ctx_app.
Qed.
Lemma ctx_only_hash {A} (m : M hash_encoder A) : ctx_only (on_hash m).
Proof. intros he es c ws. unfold on_hash. simpl. destruct (m he); simpl; by rewrite ?app_nil_r. Qed.
Lemma ctx_only_storage {A} (m : M Encoder A) : ctx_only (on_storage m).
Proof. intros he es c ws. unfold on_storage. simpl. destruct (m es); simpl; by rewrite ?app_nil_r. Qed.
Lemma ctx_only_put w : ctx_only (put w).
Proof. intros he es c ws. done. Qed.
Lemma ctx_only_when b m : ctx_only m -> ctx_only (when b m).
Proof. destruct b; [done|intros _; apply ctx_only_ret]. Qed.
Lemma ctx_only_ToBytes pos : ctx_only (storage_ToBytes pos).
Proof. intros he es c ws. unfold storage_ToBytes, bindM, get_st. cbn [enc_storage]. destruct (Flush es (Some pos)); cbn; by rewrite ?app_nil_r. Qed.

Create HintDb ctx.
#[export] Hint Resolve ctx_only_ret ctx_only_panic ctx_only_panics ctx_only_hash ctx_only_storage ctx_only_put ctx_only_ToBytes : ctx.

Ltac ctx_steps := repeat first [solve [auto with ctx] | apply ctx_only_when | apply ctx_only_bind; [|intros ?] | case_match].

Section commit.
Context `{Crypto} {V : Type} (E : V -> bytes * bytes) (schema : Schema) (levels : Z).

Lemma commit_ctx_only n : forall above pfx, ctx_only (Trie.commit E schema levels above pfx n).
Proof.
  induction n as [|h|k v h IH|cs h IH|v] using node_ind'; intros above pfx; cbn [Trie.commit].
  - auto with ctx.
  - ctx_steps.
  - apply ctx_only_bind; [by ctx_steps|intros _]. do 3 (apply ctx_only_bind; [by ctx_steps|intros ?]). do 2 (apply ctx_only_bind; [by ctx_steps|intros _]).
    apply ctx_only_bind; [|intros ?; by ctx_steps].
    destruct v; [..|unfold commit_value; by ctx_steps]; (apply ctx_only_bind; [apply IH|intros ?; by ctx_steps]).
  - destruct h as [h|]; [by ctx_steps|]. do 2 (apply ctx_only_bind; [by ctx_steps|intros ?]). apply ctx_only_bind; [|intros ?; by ctx_steps].
    generalize 0. induction IH as [|c cs Hc _ IH]; intros i; [auto with ctx|].
    apply ctx_only_bind; [destruct c; first [apply Hc|by ctx_steps]|intros ?]. apply ctx_only_bind; [apply IH|intros ?; auto with ctx].
  - auto with ctx.
Qed.

End commit.

Lemma Writer_Commit_writes_only `{Crypto} {V : Type} (E : V -> bytes * bytes) (schema : Schema) w : writes_only (Writer_Commit E schema w).
Proof.
  intros c ws. unfold Writer_Commit.
  assert (forall n, match Trie.commit E schema (FullNodeLevelsToCache w) 0 [] n (mkCtx he_Reset Encoder_Reset (mkIO c ws)) with
    | Done n c0 => match get_hash n with Some h => Done (Some h, mkWriter n (FullNodeLevelsToCache w)) (db_tx c0) | None => Panic "invalid memory address or nil pointer dereference" end
    | Fail err c0 => Fail err (db_tx c0) | Panic msg => Panic msg end =
    prepend ws match Trie.commit E schema (FullNodeLevelsToCache w) 0 [] n (mkCtx he_Reset Encoder_Reset (mkIO c [])) with
    | Done n c0 => match get_hash n with Some h => Done (Some h, mkWriter n (FullNodeLevelsToCache w)) (db_tx c0) | None => Panic "invalid memory address or nil pointer dereference" end
    | Fail err c0 => Fail err (db_tx c0) | Panic msg => Panic msg end) as Hc.
  { intros n. rewrite (commit_ctx_only E schema _ n 0 [] he_Reset Encoder_Reset c ws). destruct (Trie.commit _ _ _ _ _ _ _); simpl; [by destruct (get_hash a)|done|done]. }
  destruct (root w); try (by destruct (get_hash _); simpl; rewrite ?app_nil_r); [simpl; by rewrite app_nil_r|..|done].
  all: destruct (get_hash _); [simpl; by rewrite app_nil_r|apply Hc].
Qed.

Section ops.
Context `{Crypto} {V : Type} (schema : Schema).

Lemma Writer_Put_writes_only (w : Writer (V := V)) k v : writes_only (Writer_Put schema w k v).
Proof. apply writes_only_bind; [apply writes_only_reading|intros ?; apply writes_only_ret]. Qed.

Lemma Writer_Delete_writes_only (w : Writer (V := V)) k : writes_only (Writer_Delete schema w k).
Proof.
  apply writes_only_bind; [apply writes_only_reading|intros [root found]]. apply writes_only_bind; [|intros ?; apply writes_only_ret].
  destruct found; [|apply writes_only_ret]. by intros c ws.
Qed.

Lemma run_op_writes_only (o : Op (V := V)) w : writes_only (run_op schema o w).
Proof. destruct o; [apply Writer_Put_writes_only|apply Writer_Delete_writes_only]. Qed.

Lemma run_ops_writes_only (os : list (Op (V := V))) : forall w, writes_only (run_ops schema os w).
Proof.
  induction os as [|o os IH]; intros w; [apply writes_only_ret|]. apply writes_only_bind; [apply run_op_writes_only|done].
Qed.
End ops.

(** ** Encodings that agree where they are used *)
Section agree.
Context `{Crypto} {laws : CryptoLaws} {V : Type} (E E' : V -> bytes * bytes) (schema : Schema).

Lemma repr_agree Dbs pfx n t : repr E schema Dbs pfx n t -> (forall v key, t_lookup key t = Some (E v) -> E v = E' v) ->
  repr E' schema Dbs pfx n t.
Proof.
  induction 1 as [pfx|pfx h t Hc Hne Hf|pfx k n t ho Hr IH Hho Hfull Hnone|pfx cs ts ho Hl Hr IH Hho|pfx s h Hv|pfx s h Hv|pfx v]; intros Ha.
  - constructor.
  - by constructor.
  - constructor; [|done..]. apply IH. intros v key Hk. apply (Ha v (k ++ key)). by rewrite t_lookup_short, strip_self.
  - constructor; [done| |done]. intros i c t Hc Ht. apply (IH i c t Hc Ht). intros v key Hk. apply (Ha v (Z.of_nat i :: key)). by rewrite t_lookup_child, Ht.
  - by constructor.
  - by constructor.
  - assert (E v = E' v) as Ev by (apply (Ha v []); simpl; by rewrite <- surjective_pairing). rewrite Ev. constructor.
Qed.

Lemma represents_agree io w T : represents E schema io w T -> (forall v k, length k = 32%nat -> get T k = Some (E v) -> E v = E' v) -> represents E' schema io w T.
Proof.
  intros (Hwf & Hok & Hr) Ha. split_and!; [done|done|]. apply repr_agree; [done|].
  intros v key Hl. destruct (lookup_get T key _ Hwf Hl) as (k & Hk & -> & Hg). by apply (Ha v k).
Qed.
End agree.

(** ** The specification: maps instead of tries *)
Abbreviation contents := (gmap bytes (bytes * bytes)).

(** A mutation: its account, whether it is pending, the slots of its trie
    once it has one, and the account that is encoded once it is committed. *)
Record SpecMut := mkSpecMut {
  sm_addr : Address;
  sm_acc : DbAccount;
  sm_pending : bool;
  sm_slots : option contents;
  sm_done : option DbAccount;
}.

(** The accounts of the committed state, replaced by mutations, and the
    mutations. *)
Record SpecSink := mkSpecSink {
  sp_main : gmap bytes (DbAccount + nat);
  sp_muts : gmap nat SpecMut;
}.

Definition slot_op (slot : bytes * bytes) : Op :=
  match snd slot with [] => OpDelete (fst slot) | _ => OpPut (fst slot) (NewAccStorageTrieValue (snd slot)) end.

Definition clean (ch : AccountChange) : bool := bool_decide (ch_StorageDirty ch = ∅) && bool_decide (ch_RawStorageDirty ch = ∅).

Definition no_account : DbAccount := mkDbAccount 0 0 None None 0.

Section spec.
Context `{Crypto}.
(** The slots of the accounts in the database. *)
Context (stored_slots : Address -> contents).

(** The slots before the first change: those of the root of the account. *)
Definition first_slots (addr : Address) (ch : AccountChange) : contents :=
  match StorageRootHash (ch_Account ch) with None => ∅ | Some _ => stored_slots addr end.

Definition spec_slots (slots : contents) (ch : AccountChange) : contents :=
  spec_ops val_EncodeForTrie slots (map slot_op (dirty_slots ch)).

Definition spec_update (m : SpecMut) (ch : AccountChange) : SpecMut :=
  mkSpecMut (sm_addr m) (ch_Account ch) true
    (if clean ch then sm_slots m else Some (spec_slots (default (first_slots (sm_addr m) ch) (sm_slots m)) ch))
    (sm_done m).

Definition spec_commit (m : SpecMut) : SpecMut :=
  if negb (sm_pending m) then m else
  let a := match sm_slots m with Some s => set_root (root_hash (tree_of s)) (sm_acc m) | None => sm_acc m end in
  mkSpecMut (sm_addr m) a false (sm_slots m) (Some a).

Definition spec_out (i : nat) (sp : SpecSink) (o : OutOp) : SpecSink :=
  match o with
  | StartMutation addr => mkSpecSink (sp_main sp) (<[i := mkSpecMut addr no_account false None None]> (sp_muts sp))
  | OutDelete addr => mkSpecSink (delete (keccak256 (addr_bytes addr)) (sp_main sp)) (sp_muts sp)
  | Update k ch =>
      match sp_muts sp !! k with
      | None => sp
      | Some m => mkSpecSink (if sm_pending m then sp_main sp else <[keccak256 (addr_bytes (sm_addr m)) := inr k]> (sp_main sp))
                    (<[k := spec_update m ch]> (sp_muts sp))
      end
  | CommitMutation k => mkSpecSink (sp_main sp) (alter spec_commit k (sp_muts sp))
  end.

Fixpoint spec_outs (i : nat) (sp : SpecSink) (os : list OutOp) : SpecSink :=
  match os with [] => sp | o :: os => spec_outs (S i) (spec_out i sp o) os end.
End spec.

Section roots.
Context `{Crypto}.
(** Accounts in their encodings. *)
Definition acc_pair (a : DbAccount) : bytes * bytes := (acc_storage a, acc_hash a).

Definition main_contents (E : nat -> bytes * bytes) (main : gmap bytes (DbAccount + nat)) : contents :=
  (fun v => match v with inl a => acc_pair a | inr k => E k end) <$> main.

(** The accounts after the block; a mutation that is not committed has none. *)
Definition final_account (sp : SpecSink) (k : nat) : option DbAccount := sp_muts sp !! k ≫= sm_done.
Definition all_done (sp : SpecSink) : Prop := forall key k, sp_main sp !! key = Some (inr k) -> is_Some (final_account sp k).
Definition accounts_after (sp : SpecSink) : gmap bytes DbAccount :=
  (fun v => match v with inl a => a | inr k => default no_account (final_account sp k) end) <$> sp_main sp.

(** The root of a map of accounts. *)
Definition accounts_root (m : gmap bytes DbAccount) : option bytes := root_hash (tree_of (acc_pair <$> m)).
End roots.

(** ** Legal calls *)
Section legal.
Context `{Crypto} (r : Reader) (stored_slots : Address -> contents).

Definition slot_ok (slot : bytes * bytes) : Prop := blen (snd slot) < 2 ^ 30.

(** A change that can be applied: the account is one that can be encoded, and
    its root is that of its slots in the database. *)
Record change_ok (addr : Address) (ch : AccountChange) : Prop := mkChangeOk {
  ch_account_ok : account_ok (ch_Account ch);
  ch_code_ok : ch_CodeDirty ch = true -> is_Some (acc_CodeHash (ch_Account ch));
  ch_slots_ok : Forall slot_ok (dirty_slots ch);
  ch_root_ok : forall root, StorageRootHash (ch_Account ch) = Some root ->
    keys_ok (stored_slots addr) /\ holds_trie val_EncodeForTrie AccountTrieSchema (AccountTrieInput addr r) (Some root) (tree_of (stored_slots addr));
}.

(** A mutation starts once, is changed before it is committed, and exists
    when it is committed. *)
Definition legal (sp : SpecSink) (i : nat) (o : OutOp) : Prop :=
  match o with
  | StartMutation _ => sp_muts sp !! i = None
  | OutDelete _ => True
  | Update k ch => exists m, sp_muts sp !! k = Some m /\ sm_done m = None /\ change_ok (sm_addr m) ch
  | CommitMutation k => is_Some (sp_muts sp !! k)
  end.

Fixpoint all_legal (i : nat) (sp : SpecSink) (os : list OutOp) : Prop :=
  match os with [] => True | o :: os => legal sp i o /\ all_legal (S i) (spec_out stored_slots i sp o) os end.

(** The state that is committed before the block. *)
Definition holds_accounts (root : option bytes) (m : gmap bytes DbAccount) : Prop :=
  keys_ok (acc_pair <$> m) /\ holds_trie (fun enc : bytes * bytes => enc) MainTrieSchema (MainTrieInput r) root (tree_of (acc_pair <$> m)).
End legal.

(** ** One trie *)
Section tries.
Context `{Crypto} {laws : CryptoLaws}.

Lemma acc_small : MaxValueSizeToStoreInTrie AccountTrieSchema < 32.
Proof. done. Qed.
Lemma main_small : MaxValueSizeToStoreInTrie MainTrieSchema < 32.
Proof. done. Qed.

Lemma on_trie_done {A} view adapter (m : M IO A) s (a : A) c ws ws' : writes_only m -> c = view (io s) ->
  m (mkIO c ws) = Done a (mkIO c (ws ++ ws')) ->
  on_trie view adapter m s = Done a (set_puts (puts s ++ map adapter ws') s).
Proof.
  intros Hm -> E. rewrite (Hm (view (io s)) ws) in E. unfold on_trie. destruct (m (mkIO (view (io s)) [])) as [b x| |]; simpl in E; [|done..].
  injection E as -> _ E. apply app_inv_head in E. by rewrite E.
Qed.

(** A writer of the block has the contents [m]. *)
Definition trie_ok {V} (E : V -> bytes * bytes) (schema : Schema) (db : TrieDB) (w : Writer) (m : contents) : Prop :=
  keys_ok m /\ exists ws, represents E schema (mkIO db ws) w (tree_of m).

Lemma trie_ok_ops {V} (E : V -> bytes * bytes) schema view adapter os s w m : MaxValueSizeToStoreInTrie schema < 32 ->
  trie_ok E schema (view (io s)) w m -> Forall (op_ok E schema) os ->
  exists w' ps, on_trie view adapter (run_ops schema os w) s = Done w' (set_puts ps s) /\ trie_ok E schema (view (io s)) w' (spec_ops E m os).
Proof.
  intros Hs (Hm & ws & Hr) Hos. destruct (run_ops_spec E schema Hs os _ w m Hm Hos Hr) as (w' & ws' & E1 & Hk & Hr'). cbn [committed writes] in *.
  exists w', (puts s ++ map adapter ws'). split; [|split; [done|by eexists]].
  eapply (on_trie_done _ _ _ _ _ _ ws); [apply run_ops_writes_only|done|done].
Qed.

Lemma trie_ok_op {V} (E : V -> bytes * bytes) schema view adapter o s w m : MaxValueSizeToStoreInTrie schema < 32 ->
  trie_ok E schema (view (io s)) w m -> op_ok E schema o ->
  exists w' ps, on_trie view adapter (run_op schema o w) s = Done w' (set_puts ps s) /\ trie_ok E schema (view (io s)) w' (spec_op E m o).
Proof.
  intros Hs (Hm & ws & Hr) Ho. destruct (run_op_spec E schema Hs _ w m o Hm Ho Hr) as (w' & ws' & E1 & Hr'). cbn [committed writes] in *.
  exists w', (puts s ++ map adapter ws'). split; [|split; [by eapply spec_op_keys|by eexists]].
  eapply (on_trie_done _ _ _ _ _ _ ws); [apply run_op_writes_only|done|done].
Qed.

Lemma trie_ok_commit {V} (E : V -> bytes * bytes) schema view adapter s w m : MaxValueSizeToStoreInTrie schema < 32 ->
  trie_ok E schema (view (io s)) w m ->
  exists w' ps, on_trie view adapter (Writer_Commit E schema w) s = Done (root_hash (tree_of m), w') (set_puts ps s).
Proof.
  intros Hs (Hm & ws & Hr). destruct (Commit_run E schema Hs _ w _ Hr) as (w' & ws' & E1 & _). cbn [committed writes] in *.
  exists w', (puts s ++ map adapter ws'). eapply (on_trie_done _ _ _ _ _ _ ws); [apply Writer_Commit_writes_only|done|done].
Qed.

(** A writer opened at a root. *)
Lemma holds_trie_any {V V'} (E : V -> bytes * bytes) (E' : V' -> bytes * bytes) schema db root T :
  holds_trie E schema db root T -> holds_trie E' schema db root T.
Proof.
  intros Hh levels Hl. destruct (Hh levels Hl) as (w & Ew & Hwf & Hok & Hr). unfold Writer_Init in *. rewrite (proj2 (Z.leb_le _ _) Hl) in *.
  injection Ew as <-. eexists. split; [done|]. split_and!; [done..|]. cbn [Trie.root] in *. destruct root; inversion Hr; subst; by constructor.
Qed.

Lemma value_ok_slot v : v <> [] -> blen v < 2 ^ 30 -> value_ok val_EncodeForTrie AccountTrieSchema (NewAccStorageTrieValue v).
Proof.
  intros Hv Hl. unfold value_ok. cbn. split_and!; [done|done|]. rewrite ToRLPString_spec by done. pose proof (blen_enc_string_le v). lia.
Qed.

Lemma slot_op_ok slot : length (fst slot) = 32%nat -> slot_ok slot -> op_ok val_EncodeForTrie AccountTrieSchema (slot_op slot).
Proof.
  destruct slot as [k v]. unfold slot_op, slot_ok. cbn [fst snd]. intros Hk Hv. destruct v as [|x v]; [done|]. split; [done|]. by apply value_ok_slot.
Qed.

Lemma dirty_slots_keys ch slot : slot ∈ dirty_slots ch -> length (fst slot) = 32%nat.
Proof.
  unfold dirty_slots. rewrite elem_of_app, !list_elem_of_In, !in_map_iff. intros [(p & <- & _)|(p & <- & _)]; apply length_keccak256.
Qed.

Lemma dirty_ops_ok ch : Forall slot_ok (dirty_slots ch) -> Forall (op_ok val_EncodeForTrie AccountTrieSchema) (map slot_op (dirty_slots ch)).
Proof.
  intros Hs. apply Forall_map, Forall_forall. intros slot Hin. apply slot_op_ok; [by eapply dirty_slots_keys|]. by eapply Forall_forall in Hs.
Qed.

Lemma write_slots_run slots w x : write_slots slots w x = run_ops AccountTrieSchema (map slot_op slots) w x.
Proof.
  revert w x. induction slots as [|[k v] slots IH]; intros w x; [done|]. cbn [write_slots map run_ops]. unfold slot_op at 1. cbn [fst snd].
  destruct v as [|b v]; cbn [write_slot run_op]; unfold bindM.
  - destruct (Writer_Delete AccountTrieSchema w k x); [apply IH|done..].
  - destruct (Writer_Put AccountTrieSchema w k (NewAccStorageTrieValue (b :: v)) x); [apply IH|done..].
Qed.

(** Encodings of accounts are values of the main trie; so is one that no
    account has. *)
Definition no_encoding : bytes * bytes := (acc_storage no_account ++ [Byte.x00], acc_hash no_account).

Lemma no_account_ok : account_ok no_account.
Proof. by split. Qed.

Lemma acc_storage_inj_len a x : account_ok a -> acc_storage a <> acc_storage no_account ++ [x].
Proof.
  intros Ha E. pose proof (blen_acc_storage a Ha) as Hl. pose proof Hl as Hl'. rewrite E in Hl'. unfold acc_storage in *.
  match type of Hl with blen (enc_list ?p) < _ => pose proof (SplitList_all p ltac:(lia)) as E1 end.
  rewrite E in E1. rewrite SplitList_enc in E1 by lia. by injection E1.
Qed.

Lemma value_ok_rest {V} (E : V -> bytes * bytes) v a rest : account_ok a -> blen rest < 2 ^ 31 ->
  E v = (acc_storage a ++ rest, acc_hash a) -> value_ok E MainTrieSchema v.
Proof.
  intros Ha Hrest Ev. pose proof (blen_acc_storage a Ha) as Hs. unfold value_ok. rewrite Ev. split_and!; [|..|by apply blen_acc_hash].
  - intros [Es _]%app_eq_nil. unfold acc_storage in Es. pose proof (f_equal blen Es) as El. change (blen []) with 0 in El.
    match type of El with blen (enc_list ?p) = _ => pose proof (blen_enc_list_bounds p); pose proof (blen_nonneg p) end. lia.
  - destruct (storage_to_hash a rest Encoder_Reset Ha) as (e' & E1); [rewrite blen_app; lia|]. simpl. by rewrite E1.
Qed.
End tries.

(** ** The sink follows the specification *)
Section sim.
Context `{Crypto} {laws : CryptoLaws} (r : Reader) (stored_slots : Address -> contents).

(** The encodings that the mutations have in the end. *)
Definition encodings (sp : SpecSink) (k : nat) : bytes * bytes :=
  match final_account sp k with Some a => acc_pair a | None => no_encoding end.

Definition done_ok (sp : SpecSink) : Prop := forall k a, final_account sp k = Some a -> account_ok a.

Lemma encodings_ok sp k : done_ok sp -> value_ok (encodings sp) MainTrieSchema k.
Proof.
  intros Hd. destruct (final_account sp k) as [a|] eqn:Ea.
  - apply (value_ok_rest _ _ a []); [by eapply Hd|done|]. unfold encodings, acc_pair. by rewrite Ea, app_nil_r.
  - apply (value_ok_rest _ _ no_account [Byte.x00]); [apply no_account_ok|done|]. unfold encodings. by rewrite Ea.
Qed.

Record sim_mut (m : Mutation) (sm : SpecMut) : Prop := mkSimMut {
  sim_addr : mut_addr m = sm_addr sm;
  sim_acc : mut_acc m = sm_acc sm;
  sim_pending : pending m = sm_pending sm;
  sim_acc_ok : sm_pending sm = true -> account_ok (sm_acc sm);
  sim_done : forall a, sm_done sm = Some a -> sm_pending sm = false /\ account_ok a /\ mut_enc m = acc_pair a;
  sim_slots : sm_done sm = None ->
    option_Forall2 (trie_ok val_EncodeForTrie AccountTrieSchema (AccountTrieInput (sm_addr sm) r)) (trie_writer m) (sm_slots sm);
}.

Context (E : nat -> bytes * bytes) (HE : forall k, value_ok E MainTrieSchema k).

(** All but the mutations that are excepted. *)
Record sim_but (X : nat -> Prop) (s : TrieSink) (sp : SpecSink) : Prop := mkSim {
  sim_io : io s = r;
  sim_main : trie_ok E MainTrieSchema (MainTrieInput r) (main_trie_writer s) (main_contents E (sp_main sp));
  sim_muts : forall k, ~ X k -> option_Forall2 sim_mut (mutations s !! k) (sp_muts sp !! k);
}.
Definition sim := sim_but (fun _ => False).

Lemma sim_puts X s sp ps : sim_but X s sp -> sim_but X (set_puts ps s) sp.
Proof. intros [? ? ?]. by constructor. Qed.

Lemma sim_set_mutation s sp k m sm : sim_but (fun k' => k' = k) s sp -> sim_mut m sm ->
  sim (set_mutation k m s) (mkSpecSink (sp_main sp) (<[k := sm]> (sp_muts sp))).
Proof.
  intros [? ? Hms] Hm. constructor; [done..|]. intros k' _. cbn. destruct (decide (k = k')) as [->|Hne]; [rewrite !lookup_insert_eq; by constructor|].
  rewrite !lookup_insert_ne by done. by apply Hms.
Qed.

Lemma sim_weaken k s sp : sim s sp -> sim_but (fun k' => k' = k) s sp.
Proof. intros [? ? Hms]. constructor; [done..|]. intros k' _. by apply (Hms k' (fun F => F)). Qed.

Lemma sim_but_mutation k m s sp : sim_but (fun k' => k' = k) s sp -> sim_but (fun k' => k' = k) (set_mutation k m s) sp.
Proof. intros [? ? Hms]. constructor; [done..|]. intros k' Hk. cbn. rewrite lookup_insert_ne by done. by apply Hms. Qed.

(** An operation on the main trie. *)
Lemma main_op X s sp o main : sim_but X s sp -> op_ok E MainTrieSchema o -> spec_op E (main_contents E (sp_main sp)) o = main_contents E main ->
  exists s', (w ← on_main (run_op MainTrieSchema o (main_trie_writer s)); modify_st (set_main w)) s = Done () s' /\
    sim_but X s' (mkSpecSink main (sp_muts sp)) /\ mutations s' = mutations s.
Proof.
  intros [Hio Hmain Hmuts] Ho Em. rewrite <- Hio in Hmain.
  destruct (trie_ok_op E MainTrieSchema _ MainTrieIO o s _ _ main_small Hmain Ho) as (w' & ps & E1 & Hok).
  unfold on_main. rewrite (bind_done _ _ _ _ _ E1). eexists. split; [done|]. split; [|done]. constructor; [done| |done]. cbn [main_trie_writer set_main set_puts sp_main]. by rewrite <- Hio, <- Em.
Qed.

Lemma main_insert k (v : DbAccount + nat) main : main_contents E (<[k := v]> main) = <[k := match v with inl a => acc_pair a | inr k => E k end]> (main_contents E main).
Proof. unfold main_contents. by rewrite fmap_insert. Qed.
Lemma main_delete k main : main_contents E (delete k main) = delete k (main_contents E main).
Proof. unfold main_contents. by rewrite fmap_delete. Qed.

Lemma sim_lookup s sp k sm : sim s sp -> sp_muts sp !! k = Some sm -> exists m, mutations s !! k = Some m /\ sim_mut m sm.
Proof. intros [_ _ Hms] Ek. specialize (Hms k (fun F => F)). rewrite Ek in Hms. inversion Hms; eauto. Qed.

Lemma get_mutation_done k m s : mutations s !! k = Some m -> get_mutation k s = Done m s.
Proof. unfold get_mutation. by intros ->. Qed.

(** The task of an update. *)
Lemma update_task_sim s sp k sm ch m : sim_but (fun k' => k' = k) s sp -> sm_done sm = None -> change_ok r stored_slots (sm_addr sm) ch ->
  mutations s !! k = Some m -> mut_addr m = sm_addr sm -> pending m = true ->
  option_Forall2 (trie_ok val_EncodeForTrie AccountTrieSchema (AccountTrieInput (sm_addr sm) r)) (trie_writer m) (sm_slots sm) ->
  exists s', update_task k ch s = Done () s' /\ sim s' (mkSpecSink (sp_main sp) (<[k := spec_update stored_slots sm ch]> (sp_muts sp))).
Proof.
  intros Hsim Hd Hch Em Ha Hp Hw. pose proof Hch as [Hacc _ Hslots Hroot]. unfold update_task. rewrite (bind_done _ _ _ _ _ (get_mutation_done _ _ _ Em)).
  unfold spec_update. fold (clean ch). destruct (clean ch) eqn:Ec.
  - eexists. split; [done|]. apply sim_set_mutation; [done|]. constructor; cbn; [done..|by rewrite Hd|done].
  - cbn [trie_writer set_mut_acc].
    assert (exists w, match trie_writer m with Some w => Some w | None => Writer_Init (StorageRootHash (ch_Account ch)) 0 end = Some w /\
      trie_ok val_EncodeForTrie AccountTrieSchema (AccountTrieInput (sm_addr sm) r) w (default (first_slots stored_slots (sm_addr sm) ch) (sm_slots sm))) as (w & -> & Hok).
    { inversion Hw as [w slots Hok|]; subst; [by exists w|]. cbn [default]. unfold first_slots. destruct (StorageRootHash (ch_Account ch)) as [root|] eqn:Er.
      - destruct (Hroot root eq_refl) as [Hk Hh]. destruct (Hh 0) as (w & -> & Hrep); [done|]. exists w. split; [done|]. split; [done|by eexists].
      - eexists. split; [done|]. split; [intros ? []%lookup_empty_is_Some|]. exists []. split_and!; [by left|done|constructor]. }
    pose proof (sim_io _ _ _ Hsim) as Hio. rewrite <- Hio in Hok.
    destruct (trie_ok_ops _ _ _ (AccountTrieIO (sm_addr sm)) _ s w _ acc_small Hok (dirty_ops_ok ch Hslots)) as (w' & ps & E1 & Hok').
    assert (on_account (mut_addr (set_mut_acc (ch_Account ch) m)) (write_slots (dirty_slots ch) w) s = Done w' (set_puts ps s)) as E2.
    { unfold on_account. cbn [mut_addr set_mut_acc]. rewrite Ha. unfold on_trie in *. by rewrite write_slots_run. }
    rewrite (bind_done _ _ _ _ _ E2). eexists. split; [done|]. rewrite Hio in Hok'. apply sim_set_mutation; [by apply sim_puts|].
    constructor; cbn; [done..|by rewrite Hd|]. intros _. by constructor.
Qed.

Lemma main_Put_run k key s : main_Put k key s = (w ← on_main (run_op MainTrieSchema (OpPut key k) (main_trie_writer s)); modify_st (set_main w)) s.
Proof. unfold main_Put. rewrite (bind_done get_st _ s s s eq_refl). cbn [run_op]. exact eq_refl. Qed.
Lemma sink_Delete_run addr s : sink_Delete addr s = (w ← on_main (run_op MainTrieSchema (OpDelete (keccak256 (addr_bytes addr))) (main_trie_writer s)); modify_st (set_main w)) s.
Proof. unfold sink_Delete. rewrite (bind_done get_st _ s s s eq_refl). cbn [run_op]. exact eq_refl. Qed.

Lemma put_code_done ch addr s : change_ok r stored_slots addr ch ->
  exists ps, when (ch_CodeDirty ch) match acc_CodeHash (ch_Account ch) with
    | Some h => modify_st (fun s => set_puts (puts s ++ [mkDbPut COL_code h (default [] (ch_Code ch))]) s)
    | None => panic "invalid memory address or nil pointer dereference" end s = Done () (set_puts ps s).
Proof.
  intros Hch. destruct (ch_CodeDirty ch) eqn:Ec; [|exists (puts s); by destruct s]. destruct (ch_code_ok _ _ _ _ Hch Ec) as [h ->]. by eexists.
Qed.

Lemma sink_Update_sim s sp k sm ch : sim s sp -> sp_muts sp !! k = Some sm -> sm_done sm = None -> change_ok r stored_slots (sm_addr sm) ch ->
  exists s', sink_Update k ch s = Done () s' /\ sim s' (mkSpecSink (if sm_pending sm then sp_main sp else <[keccak256 (addr_bytes (sm_addr sm)) := inr k]> (sp_main sp))
    (<[k := spec_update stored_slots sm ch]> (sp_muts sp))).
Proof.
  intros Hsim Ek Hd Hch. unfold sink_Update. destruct (put_code_done ch _ s Hch) as (ps & E1).
  rewrite (bind_done _ _ _ _ _ E1). apply (sim_puts _ _ _ ps) in Hsim. set (s1 := set_puts ps s) in *.
  destruct (sim_lookup _ _ _ _ Hsim Ek) as (m & Em & [Haddr Hacc Hpend Haok Hdone Hslots]). rewrite (bind_done _ _ _ _ _ (get_mutation_done _ _ _ Em)).
  apply (sim_weaken k) in Hsim. rewrite Hpend. destruct (sm_pending sm) eqn:Ep; cbn [negb when].
  - rewrite (bind_done _ _ s1 _ s1 eq_refl). eapply update_task_sim; eauto.
  - apply (sim_but_mutation k (set_pending true m)) in Hsim. set (s2 := set_mutation k (set_pending true m) s1) in *.
    destruct (main_op _ s2 sp (OpPut (keccak256 (addr_bytes (sm_addr sm))) k) (<[keccak256 (addr_bytes (sm_addr sm)) := inr k]> (sp_main sp)) Hsim) as (s3 & E3 & Hs3 & Hm3).
    { split; [apply length_keccak256|apply HE]. }
    { symmetry. apply main_insert. }
    assert ((_ ← put_mutation k (set_pending true m); main_Put k (keccak256 (addr_bytes (mut_addr m)))) s1 = Done () s3) as E2.
    { rewrite (bind_done _ _ s1 _ s2 eq_refl), Haddr, main_Put_run. exact E3. }
    rewrite (bind_done _ _ _ _ _ E2). apply (update_task_sim s3 (mkSpecSink _ (sp_muts sp)) k sm ch (set_pending true m)); [done..| |done|done|by apply Hslots].
    rewrite Hm3. cbn. by rewrite lookup_insert_eq.
Qed.

Lemma account_ok_root a root : account_ok a -> hash_ok root -> account_ok (set_root root a).
Proof. intros [] ?. by constructor. Qed.

Lemma root_hash_ok t : hash_ok (root_hash t).
Proof. destruct t; cbn; [done|..]; apply length_keccak256. Qed.

(** The end of a commit. *)
Lemma encode_sim s sp k sm m a : sim_but (fun k' => k' = k) s sp -> mut_acc m = a -> mut_addr m = sm_addr sm -> pending m = false -> account_ok a ->
  exists s', (enc ← encode_account (mut_acc m); put_mutation k (set_enc enc m)) s = Done () s' /\
    sim s' (mkSpecSink (sp_main sp) (<[k := mkSpecMut (sm_addr sm) a false (sm_slots sm) (Some a)]> (sp_muts sp))).
Proof.
  intros Hs <- Ha Hp Hok. destruct (acc_EncodeForTrie_done _ Encoder_Reset Hok) as (e' & E1).
  assert (encode_account (mut_acc m) s = Done (acc_pair (mut_acc m)) s) as E2 by (unfold encode_account; by rewrite E1).
  rewrite (bind_done _ _ _ _ _ E2). eexists. split; [done|]. apply sim_set_mutation; [done|]. constructor; cbn; [done..| |done]. by intros a [= <-].
Qed.

Lemma sink_Commit_sim s sp k sm : sim s sp -> sp_muts sp !! k = Some sm ->
  exists s', sink_CommitMutation k s = Done () s' /\ sim s' (mkSpecSink (sp_main sp) (<[k := spec_commit sm]> (sp_muts sp))).
Proof.
  intros Hsim Ek. unfold sink_CommitMutation. destruct (sim_lookup _ _ _ _ Hsim Ek) as (m & Em & [Haddr Hacc Hpend Haok Hdone Hslots]).
  rewrite (bind_done _ _ _ _ _ (get_mutation_done _ _ _ Em)). rewrite Hpend. unfold spec_commit. destruct (sm_pending sm) eqn:Ep; cbn [negb].
  - assert (sm_done sm = None) as Hd by (destruct (sm_done sm); [|done]; by destruct (Hdone _ eq_refl)).
    specialize (Hslots Hd). specialize (Haok eq_refl). apply (sim_weaken k) in Hsim.
    inversion Hslots as [w slots Hok Ew Es|Ew Es]; cbn [trie_writer set_pending]; rewrite <- Ew.
    + pose proof (sim_io _ _ _ Hsim) as Hio. rewrite <- Hio in Hok.
      destruct (trie_ok_commit _ _ _ (AccountTrieIO (sm_addr sm)) s w slots acc_small Hok) as (w' & ps & E1).
      unfold on_account. cbn [mut_addr set_pending]. rewrite Haddr.
      erewrite bind_done; [|rewrite (bind_done _ _ _ _ _ E1); reflexivity]. cbv beta zeta.
      rewrite Es. apply encode_sim; [by apply sim_puts|cbn; by rewrite Hacc|done|done|]. apply account_ok_root; [done|apply root_hash_ok].
    + erewrite bind_done; [|reflexivity]. cbv beta zeta. rewrite Es. by apply encode_sim.
  - exists s. split; [done|]. replace (<[k:=sm]> (sp_muts sp)) with (sp_muts sp) by (symmetry; by apply insert_id). by destruct sp.
Qed.
Lemma sink_op_sim s sp i o : sim s sp -> legal r stored_slots sp i o ->
  exists s', sink_op i o s = Done () s' /\ sim s' (spec_out stored_slots i sp o).
Proof.
  intros Hsim Hl. destruct o as [addr|addr|k ch|k]; cbn [sink_op spec_out legal] in *.
  - eexists. split; [reflexivity|]. apply sim_set_mutation; [by apply sim_weaken|]. constructor; cbn; [done..|]. intros _. constructor.
  - destruct (main_op _ s sp (OpDelete (keccak256 (addr_bytes addr))) (delete (keccak256 (addr_bytes addr)) (sp_main sp)) Hsim) as (s' & E1 & Hs' & _).
    { apply length_keccak256. }
    { symmetry. apply main_delete. }
    exists s'. split; [|done]. rewrite sink_Delete_run. exact E1.
  - destruct Hl as (m & Ek & Hd & Hch). rewrite Ek. by apply sink_Update_sim.
  - destruct Hl as [sm Ek]. destruct (sink_Commit_sim s sp k sm Hsim Ek) as (s' & E1 & Hs'). exists s'. split; [done|].
    replace (alter spec_commit k (sp_muts sp)) with (<[k := spec_commit sm]> (sp_muts sp)); [done|]. apply map_eq. intros k'.
    destruct (decide (k = k')) as [<-|Hne]; [by rewrite lookup_insert_eq, lookup_alter_eq, Ek|by rewrite lookup_insert_ne, lookup_alter_ne by done].
Qed.

Lemma sink_ops_sim os : forall s sp i, sim s sp -> all_legal r stored_slots i sp os ->
  exists s', sink_ops i os s = Done () s' /\ sim s' (spec_outs stored_slots i sp os).
Proof.
  induction os as [|o os IH]; intros s sp i Hsim Hl; [by exists s|]. destruct Hl as [Hl Hos].
  destruct (sink_op_sim s sp i o Hsim Hl) as (s1 & E1 & H1). destruct (IH _ _ _ H1 Hos) as (s2 & E2 & H2).
  exists s2. split; [|done]. cbn [sink_ops]. by rewrite (bind_done _ _ _ _ _ E1).
Qed.

Lemma init_sim m0 root levels : levels <= MaxDepth -> holds_accounts r (if IsEmptyStateRoot (Some root) then None else Some root) m0 ->
  exists s0, TrieSink_Init root levels = Some s0 /\ sim (set_puts [] (set_io r s0)) (mkSpecSink (inl <$> m0) ∅).
Proof.
  intros Hl [Hk Hh]. destruct (holds_trie_any _ E _ _ _ _ Hh levels Hl) as (w & Ew & Hrep). unfold TrieSink_Init. rewrite Ew. eexists. split; [done|].
  constructor; [done| |intros k _; constructor]. cbn [main_trie_writer set_puts set_io sp_main].
  replace (main_contents E (inl <$> m0)) with (acc_pair <$> m0) by (unfold main_contents; by rewrite <- map_fmap_compose). by split; [|eexists].
Qed.
End sim.

(** ** The root *)
Section root.
Context `{Crypto} {laws : CryptoLaws} (r : Reader) (stored_slots : Address -> contents).

Definition old_ok (sp : SpecSink) : Prop := forall key a, sp_main sp !! key = Some (inl a) -> account_ok a.

Lemma old_ok_out i sp o : old_ok sp -> old_ok (spec_out stored_slots i sp o).
Proof.
  intros Hok key a. destruct o as [addr|addr|k ch|k]; cbn [spec_out sp_main]; [apply Hok| | |apply Hok].
  - intros [_ Hl]%lookup_delete_Some. by eapply Hok.
  - destruct (sp_muts sp !! k) as [m|]; [|apply Hok]. cbn [sp_main]. destruct (sm_pending m); [apply Hok|].
    intros [[_ [=]]|[_ Hl]]%lookup_insert_Some. by eapply Hok.
Qed.

Lemma old_ok_outs os : forall i sp, old_ok sp -> old_ok (spec_outs stored_slots i sp os).
Proof. induction os as [|o os IH]; intros i sp Hok; [done|]. by apply IH, old_ok_out. Qed.

Lemma contents_after sp : all_done sp -> main_contents (encodings sp) (sp_main sp) = acc_pair <$> accounts_after sp.
Proof.
  intros Hd. unfold main_contents, accounts_after. rewrite <- map_fmap_compose. apply map_fmap_ext. intros key [a|k] Ek; [done|].
  destruct (Hd _ _ Ek) as [a Ea]. unfold encodings. cbn. by rewrite Ea.
Qed.

Lemma sim_done_ok E s sp : sim r E s sp -> done_ok sp.
Proof.
  intros Hsim k a Ea. unfold final_account in Ea. destruct (sp_muts sp !! k) as [sm|] eqn:Ek; [|done]. cbn in Ea.
  destruct (sim_lookup _ _ _ _ _ _ Hsim Ek) as (m & _ & [_ _ _ _ Hd _]). by apply Hd.
Qed.

(** The encodings are those of the mutations wherever the trie has them. *)
Lemma encodings_agree s sp v key : sim r (encodings sp) s sp -> all_done sp -> old_ok sp ->
  main_contents (encodings sp) (sp_main sp) !! key = Some (encodings sp v) -> encodings sp v = mut_EncodeForTrie s v.
Proof.
  intros Hsim Hd Hold Ek. destruct (final_account sp v) as [a|] eqn:Ea.
  - unfold encodings. rewrite Ea. unfold final_account in Ea. destruct (sp_muts sp !! v) as [sm|] eqn:Ev; [|done]. cbn in Ea.
    destruct (sim_lookup _ _ _ _ _ _ Hsim Ev) as (m & Em & [_ _ _ _ Hdone _]). destruct (Hdone _ Ea) as (_ & _ & E1). unfold mut_EncodeForTrie. by rewrite Em.
  - exfalso. unfold main_contents in Ek. rewrite lookup_fmap in Ek. destruct (sp_main sp !! key) as [e|] eqn:Ee; [|done]. cbn in Ek. injection Ek as Ek.
    assert (exists a, account_ok a /\ acc_pair a = encodings sp v) as (a & Hok & E1).
    { destruct e as [a|k]; [exists a; split; [by eapply Hold|done]|]. destruct (Hd _ _ Ee) as [a E2]. exists a. split; [by eapply (sim_done_ok _ _ _ Hsim)|].
      rewrite <- Ek. unfold encodings. by rewrite E2. }
    unfold encodings in E1. rewrite Ea in E1. injection E1 as E1 _. by apply (acc_storage_inj_len a Byte.x00 Hok).
Qed.

Lemma sink_root m0 root levels os : levels <= MaxDepth ->
  (forall key a, m0 !! key = Some a -> account_ok a) ->
  holds_accounts r (if IsEmptyStateRoot (Some root) then None else Some root) m0 ->
  all_legal r stored_slots 0 (mkSpecSink (inl <$> m0) ∅) os ->
  let sp := spec_outs stored_slots 0 (mkSpecSink (inl <$> m0) ∅) os in
  all_done sp ->
  exists s0 s, TrieSink_Init root levels = Some s0 /\
    (_ ← SetIO r; _ ← sink_ops 0 os; sink_Commit) s0 = Done (default EmptyRLPListHash (accounts_root (accounts_after sp))) s.
Proof.
  intros Hl Hm0 Hh Hlegal sp Hd.
  assert (old_ok sp) as Hold.
  { apply old_ok_outs. intros key a. cbn. rewrite lookup_fmap. destruct (m0 !! key) eqn:Ek; intros [= <-]. by eapply Hm0. }
  assert (done_ok sp) as Hdone.
  { assert (forall k : nat, value_ok (fun _ : nat => acc_pair no_account) MainTrieSchema k) as HE0.
    { intros k. apply (value_ok_rest _ _ no_account []); [apply no_account_ok|done|by rewrite app_nil_r]. }
    destruct (init_sim r (fun _ => acc_pair no_account) m0 root levels Hl Hh) as (s0 & _ & H0).
    destruct (sink_ops_sim r stored_slots _ HE0 os _ _ _ H0 Hlegal) as (s & _ & Hs). by eapply sim_done_ok. }
  destruct (init_sim r (encodings sp) m0 root levels Hl Hh) as (s0 & E0 & H0).
  destruct (sink_ops_sim r stored_slots _ (fun k => encodings_ok sp k Hdone) os _ _ _ H0 Hlegal) as (s & E1 & Hs). fold sp in Hs.
  assert (trie_ok (mut_EncodeForTrie s) MainTrieSchema (MainTrieInput (io s)) (main_trie_writer s) (acc_pair <$> accounts_after sp)) as Hok.
  { rewrite <- contents_after by done. rewrite (sim_io _ _ _ _ _ Hs). destruct (sim_main _ _ _ _ _ Hs) as (Hk & ws & Hrep). split; [done|]. exists ws.
    eapply represents_agree; [exact Hrep|]. intros v k Hk' Hg. destruct (tree_of_spec _ Hk) as [_ Hm]. rewrite Hm in Hg by done. by eapply encodings_agree. }
  destruct (trie_ok_commit _ _ _ MainTrieIO s _ _ main_small Hok) as (w' & ps & E2).
  exists s0. eexists. split; [done|]. unfold SetIO. rewrite (bind_done _ _ s0 () (set_puts [] (set_io r s0)) eq_refl), (bind_done _ _ _ _ _ E1).
  unfold sink_Commit. rewrite (bind_done get_st _ s s s eq_refl). unfold on_main. rewrite (bind_done _ _ _ _ _ E2). reflexivity.
Qed.

(** C31: The sink of a block refines a map of accounts: whatever the calls that
    it receives, as long as every account that is written is committed, it
    never panics, and the state root it returns is that of the trie of the
    accounts that the calls leave, each with the root of the slots that the
    calls leave in its storage, whichever nodes were loaded and in whatever
    order the slots were written. *)
Theorem state_root_refines m0 root levels os : levels <= MaxDepth ->
  (forall key a, m0 !! key = Some a -> account_ok a) ->
  holds_accounts r (if IsEmptyStateRoot (Some root) then None else Some root) m0 ->
  all_legal r stored_slots 0 (mkSpecSink (inl <$> m0) ∅) os ->
  let sp := spec_outs stored_slots 0 (mkSpecSink (inl <$> m0) ∅) os in
  all_done sp ->
  exists s0 s, TrieSink_Init root levels = Some s0 /\
    (_ ← SetIO r; _ ← sink_ops 0 os; sink_Commit) s0 = Done (default EmptyRLPListHash (accounts_root (accounts_after sp))) s.
Proof. apply sink_root. Qed.
End root.
