(* ===== verification/TrieExample.v ===== *)
(** * Tries on concrete contents

    The tries of accounts over the toy hash: witnesses of the theorems on
    tries, on accounts and on pruning. *)
From S2P Require Import Prelude Bytes Rlp Crypto StateEvm Trie TrieSpec TrieEnc TrieSim TrieCommit TrieProps TrieForEach TrieBinding StateDb StateDbProps RocksDb RocksDbProps RocksDbPrune TrieSink TrieSinkProps.

#[local] Existing Instance toy_crypto.
#[local] Existing Instance toy_crypto_laws.

Definition key_a : bytes := Byte.x12 :: replicate 31 Byte.x00.
Definition key_b : bytes := Byte.x13 :: replicate 31 Byte.x07.
Definition value_a : acc_storage_trie_value := NewAccStorageTrieValue [Byte.x2a].
Definition value_b : acc_storage_trie_value := NewAccStorageTrieValue (replicate 20 Byte.xff).

Definition no_db : TrieDB := mkTrieDB (fun _ => None) (fun _ => None).
Definition new_writer : Writer (V := acc_storage_trie_value) := mkWriter NNil 0.

Lemma new_represents : represents val_EncodeForTrie AccountTrieSchema (mkIO no_db []) new_writer (tree_of ∅).
Proof. split_and!; [by left|done|constructor]. Qed.

Lemma small_schema : MaxValueSizeToStoreInTrie AccountTrieSchema < 32.
Proof. done. Qed.

(** ** A trie with two keys *)
Definition ops_ab : list (Op (V := acc_storage_trie_value)) := [OpPut key_a value_b; OpPut key_b value_b; OpDelete key_b; OpPut key_b value_b; OpPut key_a value_a].
Definition tree_ab : tree := tree_of (spec_ops val_EncodeForTrie ∅ ops_ab).

Definition leaf_a : tree := TShort (drop 2 (keybytes_to_hex key_a)) (TVal [Byte.x2a] [Byte.x2a]).
Definition leaf_b : tree := TShort (drop 2 (keybytes_to_hex key_b)) (TVal (val_enc_storage value_b) (val_enc_hash value_b)).
Definition full_ab : tree := junction 2 leaf_a 3 leaf_b.

Lemma tree_ab_eq : tree_ab = TShort [1] full_ab.
Proof. vm_compute. reflexivity. Qed.

Lemma full_ab_children i t : (match full_ab with TFull ts => ts | _ => [] end) !! i = Some t -> t = TNil \/ t = leaf_a \/ t = leaf_b.
Proof.
  unfold full_ab, junction. change (Z.to_nat 2) with 2%nat. change (Z.to_nat 3) with 3%nat. unfold no_children, full_node_child_cnt.
  do 16 (destruct i as [|i]; [cbn; intros [= <-]; auto|]). cbn. done.
Qed.

Lemma stored_ab u : stored [] tree_ab u -> u = tree_ab \/ u = full_ab.
Proof.
  rewrite tree_ab_eq. intros [[_ ->]|[Hs _]]; [by left|]. right.
  inversion Hs as [|u' k t Hs'|]; subst. inversion Hs' as [ts Ets|u' k t Hs'' Et|u' ts i t Hi Hs'' Et]; subst; [done|].
  destruct (full_ab_children i t Hi) as [->|[->| ->]]; [inversion Hs''|..]; (inversion Hs'' as [|u' k t Hs3|]; subst; inversion Hs3).
Qed.

Lemma no_collision_ab : no_collision AccountTrieSchema tree_ab.
Proof.
  assert (node_hash tree_ab <> node_hash full_ab) as Hne by (rewrite tree_ab_eq; intros E; vm_compute in E; discriminate).
  intros u u' [->| ->]%stored_ab [->| ->]%stored_ab E; [reflexivity|by destruct Hne|by destruct Hne|reflexivity].
Qed.

Lemma ops_ab_ok : Forall (op_ok val_EncodeForTrie AccountTrieSchema) ops_ab.
Proof. repeat (apply List.Forall_cons; [by vm_compute|]). apply List.Forall_nil. Qed.

Lemma keys_ok_empty : keys_ok ∅.
Proof. intros k Hk. rewrite lookup_empty in Hk. by inversion Hk. Qed.

Lemma trie_refines_map_witness :
  keys_ok ∅ /\ represents val_EncodeForTrie AccountTrieSchema (mkIO no_db []) new_writer (tree_of ∅) /\
  exists w' ws, (w ← run_ops AccountTrieSchema ops_ab new_writer; Writer_Commit val_EncodeForTrie AccountTrieSchema w) (mkIO no_db []) =
    Done (root_hash tree_ab, w') (mkIO no_db ws).
Proof.
  split; [apply keys_ok_empty|]. split; [apply new_represents|].
  destruct (trie_refines_map val_EncodeForTrie AccountTrieSchema small_schema (mkIO no_db []) new_writer ∅ ops_ab
    keys_ok_empty new_represents ops_ab_ok no_collision_ab) as (w' & ws & E & _). eauto.
Defined.

(** ** The database after it *)
Definition db_ab : TrieDB :=
  match (w ← run_ops AccountTrieSchema ops_ab new_writer; Writer_Commit val_EncodeForTrie AccountTrieSchema w) (mkIO no_db []) with
  | Done _ io => apply_writes (committed io) (writes io)
  | _ => no_db
  end.

Lemma db_ab_cached : cached AccountTrieSchema (fun db => db = db_ab) [] tree_ab (node_hash tree_ab) /\ wf 65 tree_ab /\ vals_ok AccountTrieSchema tree_ab.
Proof.
  destruct (run_ops_spec val_EncodeForTrie AccountTrieSchema small_schema ops_ab (mkIO no_db []) new_writer ∅ keys_ok_empty ops_ab_ok new_represents)
    as (w1 & ws1 & E1 & _ & Hr1).
  destruct (Commit_spec val_EncodeForTrie AccountTrieSchema small_schema _ _ _ Hr1 no_collision_ab) as (w2 & ws2 & E2 & _ & Hh). cbn [committed writes] in *.
  assert (db_ab = apply_writes no_db (([] ++ ws1) ++ ws2)) as Edb.
  { unfold db_ab. rewrite (bind_done _ _ _ _ _ E1). by rewrite E2. }
  rewrite <- Edb in Hh. apply (holds_trie_cached _ _ _ _ Hh). change (tree_ab <> TNil). by rewrite tree_ab_eq.
Qed.

Lemma ForEach_contents_witness : exists calls,
  ForEach (V := acc_storage_trie_value) AccountTrieSchema 132 (node_hash tree_ab) true db_ab = Done calls db_ab /\ NoDup (fst <$> calls) /\ is_Some (get tree_ab key_a).
Proof.
  destruct db_ab_cached as (Hc & Hwf & Hok).
  destruct (ForEach_contents val_EncodeForTrie AccountTrieSchema small_schema db_ab _ tree_ab 132 Hc Hwf Hok (le_n _)) as (calls & E & Hnd & _).
  exists calls. split_and!; [done..|]. vm_compute. by eexists.
Defined.

(** Two writers with the contents of [tree_ab]: one that has just put them,
    one that is opened at the root in the database. *)
Lemma root_of_contents_witness : exists h w1 w2 io1 io2,
  Writer_Commit val_EncodeForTrie AccountTrieSchema (mkWriter (NHash (node_hash tree_ab)) 0) (mkIO db_ab []) = Done (h, w1) io1 /\
  Writer_Commit val_EncodeForTrie AccountTrieSchema (mkWriter (NHash (node_hash tree_ab)) 64) (mkIO db_ab []) = Done (h, w2) io2.
Proof.
  destruct db_ab_cached as (Hc & Hwf & Hok).
  assert (forall l, represents val_EncodeForTrie AccountTrieSchema (mkIO db_ab []) (mkWriter (NHash (node_hash tree_ab)) l) tree_ab) as Hr.
  { intros l. split_and!; [by right|done|]. constructor; [|by rewrite tree_ab_eq|by left].
    eapply (frame_cached AccountTrieSchema tree_ab (fun db => db = db_ab)); [|by eapply part_root; right|exact Hc]. apply frame_sub. by intros db [->| ->]. }
  apply (root_of_contents val_EncodeForTrie AccountTrieSchema small_schema (mkIO db_ab []) _ tree_ab (mkIO db_ab []) _ tree_ab); [apply Hr..|exact no_collision_ab|done].
Defined.

(** Operations in another order, which leave the same contents. *)
Definition ops_ba : list (Op (V := acc_storage_trie_value)) := [OpPut key_b value_b; OpPut key_a value_a].

Definition commit_root (os : list (Op (V := acc_storage_trie_value))) : option (option bytes) :=
  match (w ← run_ops AccountTrieSchema os new_writer; Writer_Commit val_EncodeForTrie AccountTrieSchema w) (mkIO no_db []) with
  | Done (h, _) _ => Some h
  | _ => None
  end.

Lemma same_root_ab : commit_root ops_ab = commit_root ops_ba.
Proof. vm_compute. reflexivity. Qed.

Lemma root_binds_contents_witness : exists h w1 io1 w1' io1',
  (w ← run_ops AccountTrieSchema ops_ab new_writer; Writer_Commit val_EncodeForTrie AccountTrieSchema w) (mkIO no_db []) = Done (h, w1) io1 /\
  (w ← run_ops AccountTrieSchema ops_ba new_writer; Writer_Commit val_EncodeForTrie AccountTrieSchema w) (mkIO no_db []) = Done (h, w1') io1' /\
  ((forall k, length k = 32%nat -> snd <$> spec_ops val_EncodeForTrie ∅ ops_ab !! k = snd <$> spec_ops val_EncodeForTrie ∅ ops_ba !! k) \/
   clash tree_ab (tree_of (spec_ops val_EncodeForTrie ∅ ops_ba))).
Proof.
  destruct (root_binds_contents val_EncodeForTrie AccountTrieSchema (mkIO no_db []) new_writer ∅ ops_ab (mkIO no_db []) new_writer ∅ ops_ba)
    as (h & w1 & io1 & h' & w1' & io1' & E & E' & Hsame); [exact small_schema|exact keys_ok_empty|exact ops_ab_ok|exact new_represents|exact keys_ok_empty| |exact new_represents|].
  { repeat (apply List.Forall_cons; [by vm_compute|]). apply List.Forall_nil. }
  assert (h = h') as <-.
  { pose proof same_root_ab as Er. unfold commit_root in Er. rewrite E, E' in Er. congruence. }
  exists h, w1, io1, w1', io1'. split; [exact E|]. split; [exact E'|]. exact (Hsame eq_refl).
Defined.

(** ** An account *)
Definition account_x : DbAccount := mkDbAccount 3 1000000 None (Some (replicate 32 Byte.xcc)) 40.

Lemma account_x_ok : account_ok account_x.
Proof. split; by vm_compute. Qed.

Lemma account_codec_witness : account_ok account_x /\ exists enc_storage enc_hash e',
  acc_EncodeForTrie account_x Encoder_Reset = Done (enc_storage, enc_hash) e' /\ DecodeAccountFromTrie enc_storage tt = Done account_x tt.
Proof.
  split; [apply account_x_ok|].
  destruct (account_codec account_x Encoder_Reset tt account_x_ok) as (s & h & e' & E & E' & _). eauto.
Defined.

(** ** Pruning

    Two blocks: one with an account without storage, one that gives it the
    storage [tree_ab]. *)
#[local] Existing Instances map_store map_store_laws.













(** ** Values that are written again

    [commit] keeps the encodings of a value in a copy of its node: when a
    cached leaf is passed again, its unchanged value is encoded and put again. *)
Definition commit_ops (os : list (Op (V := acc_storage_trie_value))) (w : Writer) : M IO (Writer (V := acc_storage_trie_value)) :=
  w ← run_ops AccountTrieSchema os w; '(_, w) ← Writer_Commit val_EncodeForTrie AccountTrieSchema w; ret w.

Definition value_writes (k : bytes) (ws : list Write) : nat :=
  length (List.filter (fun w => match w with PutValue k' _ => bool_decide (k' = k) | _ => false end) ws).

Lemma value_put_again : exists w io,
  (w ← commit_ops [OpPut key_a value_b; OpPut key_b value_b] (mkWriter NNil 64); commit_ops [OpPut key_b value_a] w) (mkIO no_db []) = Done w io /\
  value_writes key_a (writes io) = 2%nat.
Proof. vm_compute. eauto. Qed.

(** ** A block *)
Definition contract_x : Address := BytesToAddress [Byte.x11].
Definition no_reader : Reader := fun _ _ => None.
Definition no_slots : Address -> contents := fun _ => ∅.

(** A contract with code and two slots, of which one is deleted again. *)
Definition block_ops : list OutOp := [
  StartMutation contract_x;
  Update 0 (mkChange account_x {[1 := 5; 2 := 300]} ∅ (Some [Byte.x60]) true);
  Update 0 (mkChange account_x {[2 := 0]} {[[Byte.xaa] := [Byte.x01]]} None false);
  CommitMutation 0].

Lemma change_x_ok m m' c d : Forall slot_ok (dirty_slots (mkChange account_x m m' c d)) -> change_ok no_reader no_slots contract_x (mkChange account_x m m' c d).
Proof. intros Hs. split; [apply account_x_ok|by eexists|done|done]. Qed.

Lemma block_legal : all_legal no_reader no_slots 0 (mkSpecSink (inl <$> ∅) ∅) block_ops.
Proof.
  cbn [all_legal block_ops legal]. split_and!; [done| | |done|done].
  - eexists. split; [reflexivity|]. split; [done|]. apply change_x_ok. apply List.Forall_forall. intros slot Hin.
    vm_compute in Hin. destruct Hin as [<-|[<-|[]]]; done.
  - eexists. split; [reflexivity|]. split; [done|]. apply change_x_ok. apply List.Forall_forall. intros slot Hin.
    vm_compute in Hin. destruct Hin as [<-|[<-|[]]]; done.
Qed.

Lemma block_done : all_done (spec_outs no_slots 0 (mkSpecSink (inl <$> ∅) ∅) block_ops).
Proof.
  intros key k Hk. cbn [spec_outs block_ops spec_out sp_main sp_muts] in Hk. assert (k = 0%nat) as ->; [|by vm_compute; eexists].
  rewrite lookup_insert_eq in Hk. cbn [sm_pending sm_addr sp_main sp_muts spec_update] in Hk. rewrite lookup_insert_eq in Hk. cbn in Hk.
  apply lookup_insert_Some in Hk as [[_ [= <-]]|[_ Hk]]; [done|]. rewrite lookup_fmap, lookup_empty in Hk. done.
Qed.

Lemma no_state : holds_accounts no_reader None ∅.
Proof.
  split; [intros k Hk; rewrite lookup_fmap, lookup_empty in Hk; by inversion Hk|]. intros l Hl. exists (mkWriter NNil l).
  split; [unfold Writer_Init; by rewrite (proj2 (Z.leb_le _ _) Hl)|].
  split_and!; [by left|done|constructor].
Qed.

Lemma state_root_refines_witness : all_legal no_reader no_slots 0 (mkSpecSink (inl <$> ∅) ∅) block_ops /\
  exists s0 s, TrieSink_Init zero_hash 16 = Some s0 /\ (_ ← SetIO no_reader; _ ← sink_ops 0 block_ops; sink_Commit) s0 =
    Done (default EmptyRLPListHash (accounts_root (accounts_after (spec_outs no_slots 0 (mkSpecSink (inl <$> ∅) ∅) block_ops)))) s.
Proof.
  split; [apply block_legal|].
  apply (state_root_refines no_reader no_slots ∅ zero_hash 16 block_ops); [done| |apply no_state|apply block_legal|apply block_done].
  intros key a Hk. rewrite lookup_empty in Hk. discriminate.
Defined.
