(* ===== verification/EvmFrame.v ===== *)
(** * What every instruction leaves alone

    [within Fl Inv m]: from every state a run of [m] that returns ends in a
    state related by [Inv]; [Fl] says whether [m] may fail, which in the
    interpreter means to exhaust its fuel.  [MachineRel] states what a relation
    has to accept for all instructions but the six that call or create
    contracts to stay within it; the relations of the later files are
    instances. *)
From S2P Require Import Prelude Bytes Crypto Uint256 EvmWord EvmBase EvmMemory EvmGas EvmInstr EvmTable.
Local Open Scope Z_scope.

Definition post {S A} (Fl : Prop) (m : M S A) (s : S) (Q : A -> S -> Prop) : Prop :=
  match m s with Done a s' => Q a s' | Fail _ _ => Fl | Panic _ => True end.

Definition within {S A} (Fl : Prop) (Inv : S -> S -> Prop) (m : M S A) : Prop :=
  forall s, post Fl m s (fun _ s' => Inv s s').

Section post.
Context {S : Type} (Fl : Prop).

Lemma post_bind {A B} (m : M S A) (f : A -> M S B) s Q :
  post Fl m s (fun a s' => post Fl (f a) s' Q) -> post Fl (x ← m; f x) s Q.
Proof. unfold post, bindM. by destruct (m s). Qed.

Lemma post_ret {A} (a : A) s (Q : A -> S -> Prop) : Q a s -> post Fl (ret a) s Q.
Proof. done. Qed.

Lemma post_mono {A} (m : M S A) s (Q Q' : A -> S -> Prop) :
  post Fl m s Q -> (forall a s', Q a s' -> Q' a s') -> post Fl m s Q'.
Proof. unfold post. destruct (m s); auto. Qed.

Lemma post_done {A} (m : M S A) s (Q : A -> S -> Prop) a s' : post Fl m s Q -> m s = Done a s' -> Q a s'.
Proof. unfold post. intros H E. by rewrite E in H. Qed.

Lemma post_run {A} (m : M S A) s (Q : A -> S -> Prop) : (forall a s', m s = Done a s' -> Q a s') ->
  (forall e s', m s = Fail e s' -> Fl) -> post Fl m s Q.
Proof. unfold post. destruct (m s); eauto. Qed.

Context (Inv : S -> S -> Prop) `{!PreOrder Inv}.

Lemma within_bind {A B} (m : M S A) (f : A -> M S B) :
  within Fl Inv m -> (forall a, within Fl Inv (f a)) -> within Fl Inv (x ← m; f x).
Proof.
  intros Hm Hf s. apply post_bind. eapply post_mono; [apply Hm|]. intros a s1 H1.
  eapply post_mono; [apply Hf|]. intros b s2 H2. by transitivity s1.
Qed.

Lemma within_ret {A} (a : A) : within Fl Inv (ret a).
Proof. intros s. change (Inv s s). reflexivity. Qed.

Lemma within_panic {A} msg : within Fl Inv (panic (A := A) msg).
Proof. by intros s. Qed.

Lemma within_modify (f : S -> S) : (forall s, Inv s (f s)) -> within Fl Inv (modify_st f).
Proof. intros Hf s. apply Hf. Qed.

Lemma within_reads {A} (f : S -> A) : within Fl Inv (fun s => Done (f s) s).
Proof. intros s. change (Inv s s). reflexivity. Qed.
End post.

(** ** The operations of the state that instructions use *)
Inductive vm_op {St} `{VmState St} : forall A, M St A -> Prop :=
| vo_GetAccount a : vm_op _ (GetAccount a)
| vo_GetBalance a : vm_op _ (GetBalance a)
| vo_GetNonce a : vm_op _ (GetNonce a)
| vo_GetCodeHash a : vm_op _ (GetCodeHash a)
| vo_GetCode a : vm_op _ (GetCode a)
| vo_GetCodeSize a : vm_op _ (GetCodeSize a)
| vo_GetCommittedState a k : vm_op _ (GetCommittedState a k)
| vo_GetState a k : vm_op _ (GetState a k)
| vo_HasSuicided a : vm_op _ (HasSuicided a)
| vo_IsNIL a : vm_op _ (IsNIL a)
| vo_IsEIP161Empty a : vm_op _ (IsEIP161Empty a)
| vo_AddBalance a v : vm_op _ (AddBalance a v)
| vo_SubBalance a v : vm_op _ (SubBalance a v)
| vo_IncrementNonce a : vm_op _ (IncrementNonce a)
| vo_SetNonce a n : vm_op _ (SetNonce a n)
| vo_SetState a k v : vm_op _ (SetState a k v)
| vo_Suicide a b : vm_op _ (Suicide a b)
| vo_AddLog l : vm_op _ (AddLog l)
| vo_GetLogs : vm_op _ GetLogs
| vo_AddRefund g : vm_op _ (AddRefund g)
| vo_SubRefund g : vm_op _ (SubRefund g)
| vo_GetRefund : vm_op _ GetRefund
| vo_GetTransientState a k : vm_op _ (GetTransientState a k)
| vo_SetTransientState a k v : vm_op _ (SetTransientState a k v).
Create HintDb vm_op.
#[export] Hint Constructors vm_op : vm_op.

(** What gas functions may do, *)
Class GasRel {St} `{VmState St} (Fl : Prop) (Inv : Machine St -> Machine St -> Prop) : Prop := {
  mr_preorder :: PreOrder Inv;
  mr_mem s x : Inv s (set_m_mem x s);
  mr_tmp s x : Inv s (set_evm (set_call_gas_tmp x (m_evm s)) s);
  mr_op A (m : M St A) : vm_op A m -> within Fl Inv (st m);
}.

(** and all instructions. *)
Class MachineRel {St} `{VmState St} (Fl : Prop) (Inv : Machine St -> Machine St -> Prop) : Prop := {
  mr_gas :: GasRel Fl Inv;
  mr_stack s x : Inv s (set_m_stack x s);
  mr_pool s x : Inv s (set_evm (set_mem_pool x (m_evm s)) s);
  mr_jumpdests s x : Inv s (set_evm (set_jumpdests x (m_evm s)) s);
  mr_pc s x : Inv s (set_pc x s);
  mr_analysis s x : Inv s (set_contract (mkContract (frame (m_contract s)) (code (m_contract s)) x) s);
}.

Ltac within_field :=
  first [apply mr_mem | apply mr_tmp | apply mr_stack | apply mr_pool | apply mr_jumpdests | apply mr_pc | apply mr_analysis
        | solve [auto]].

(** Walks through the definition of an operation. *)
Ltac head_of t := match t with ?f _ => head_of f | _ => t end.
Ltac within_step :=
  match goal with
  | |- forall _, _ => intros ?
  | |- within _ _ (bindM _ _) => apply within_bind; [apply _| |intros ?]
  | |- within _ _ (ret _) => apply within_ret; apply _
  | |- within _ _ (panic _) => apply within_panic
  | |- within _ _ (st _) => apply mr_op; solve [eauto with vm_op]
  | |- within _ _ (modify_st _) => apply within_modify; intros ?; simpl; within_field
  | |- within _ _ (fun _ => Done _ _) => apply within_reads; apply _
  | |- within _ _ (match ?x with _ => _ end) => destruct x
  | |- within _ _ (let _ := _ in _) => cbv zeta
  | H : context [within _ _ _] |- _ => solve [apply H; assumption]
  | |- within _ _ ?m => let h := head_of m in progress unfold h
  end.
Ltac within := repeat within_step.

Section frame.
Context {St : Type} {VS : VmState St} {EW : EvmWords} {CR : Crypto} (env : TxEnv).
Context (Fl : Prop) (Inv : Machine St -> Machine St -> Prop) `{!GasRel Fl Inv}.

Context (vm_call : Z -> ContractRef -> Address -> bytes -> Z -> Z -> M (EVM St) (ret_slice * Z * option VmError)).
Context (vm_create_1 : Address -> bytes -> Z -> Z -> M (EVM St) (bytes * Address * Z * option VmError)).
Context (vm_create_2 : Address -> bytes -> Z -> Z -> Z -> M (EVM St) (bytes * Address * Z * option VmError)).

Definition is_call (code : Z) : bool :=
  bool_decide (code ∈ [CREATE; CREATE2; CALL; CALLCODE; DELEGATECALL; STATICCALL]).

Record op_within (code : Z) (o : operation (St := St)) : Prop := {
  ow_gas n : within Fl Inv (gasCost o n);
  ow_mem : match memorySize o with Some f => within Fl Inv f | None => True end;
  ow_exec : MachineRel Fl Inv -> is_call code = false -> within Fl Inv (execute o);
}.

Definition table_within (t : list (Z * operation)) : Prop := Forall (fun '(code, o) => op_within code o) t.

Ltac rows := repeat (apply Forall_cons; split); [..|apply Forall_nil]; split; [intros ?|..]; try discriminate; try intros ? _; simpl; try exact I; within.

Lemma arithmetic_within : table_within (arithmetic_ops env).
Proof. rows. Qed.

Lemma environment_within : table_within (environment_ops env).
Proof. rows. Qed.

Lemma memory_within : table_within (memory_ops env).
Proof. rows. Qed.

Lemma byzantium_within : table_within (byzantium_ops env vm_call vm_create_2).
Proof. rows. Qed.

Lemma system_within : table_within (system_ops env vm_call vm_create_1).
Proof. rows. Qed.

Lemma family_within (f : nat -> Z * operation) l :
  (forall n, op_within (f n).1 (f n).2) -> table_within (f <$> l).
Proof. intros Hf. apply Forall_fmap, Forall_forall. intros n _. specialize (Hf n). simpl. by destruct (f n). Qed.

Lemma pop_topics_within `{!MachineRel Fl Inv} n : within Fl Inv (pop_topics n).
Proof. induction n; within. Qed.

Ltac family := intros ?; split; [intros ?|..]; try intros ? _; simpl; try exact I; within.

Lemma push_within : table_within push_ops.
Proof. apply family_within. family. Qed.

Lemma dup_within : table_within dup_ops.
Proof. apply family_within. family. Qed.

Lemma swap_within : table_within swap_ops.
Proof. apply family_within. family. Qed.

Lemma log_within : table_within log_ops.
Proof.
  assert (Ht : MachineRel Fl Inv -> forall n, within Fl Inv (pop_topics n)) by (intros; apply pop_topics_within).
  apply family_within. family.
Qed.

(** Every instruction of both instruction sets. *)
Lemma instruction_set_within : table_within (instruction_set env vm_call vm_create_1 vm_create_2).
Proof.
  assert (Hc : table_within (newCalifornicumInstructionSet env vm_call vm_create_1 vm_create_2)).
  { unfold newCalifornicumInstructionSet, table_within. rewrite !Forall_app.
    split_and!; first [apply arithmetic_within | apply environment_within | apply memory_within | apply byzantium_within
      | apply system_within | apply push_within | apply dup_within | apply swap_within | apply log_within]. }
  unfold instruction_set. destruct (IsFicus _); [|done]. apply Forall_cons. split; [|done]. split; [intros n|..]; try intros ? _; simpl; within.
Qed.

Lemma find_op_in (t : list (Z * operation (St := St))) op o : find_op t op = Some o -> (op, o) ∈ t.
Proof.
  induction t as [|[code o'] t IH]; simpl; [done|]. destruct (Z.eqb_spec code op) as [->|]; [intros [= ->]; left|].
  intros. right. auto.
Qed.

Lemma find_op_within op o :
  find_op (instruction_set env vm_call vm_create_1 vm_create_2) op = Some o -> op_within op o.
Proof. intros Hf%find_op_in. pose proof instruction_set_within as Ht. unfold table_within in Ht. rewrite Forall_forall in Ht. apply (Ht _ Hf). Qed.

(** ** Calls and creations *)
Section calls.
Context `{!MachineRel Fl Inv}.
Context (Hgas : forall s g, Inv s (set_contract (set_gas g (m_contract s)) s)).
Context (Hcall : forall typ caller callee input gas value, within Fl Inv (zoom (St := Machine St) (vm_call typ caller callee input gas value))).
Context (Hcreate_1 : forall caller input gas value, within Fl Inv (zoom (St := Machine St) (vm_create_1 caller input gas value))).
Context (Hcreate_2 : forall caller input gas value salt, within Fl Inv (zoom (St := Machine St) (vm_create_2 caller input gas value salt))).

Lemma UseGas_within gas : within Fl Inv (UseGas_ gas).
Proof.
  intros s. unfold UseGas_, UseGas, bindM, get_contract, post. simpl. destruct (_ <? _); simpl; [reflexivity|apply Hgas].
Qed.

Lemma calls_within op o :
  is_call op = true -> find_op (instruction_set env vm_call vm_create_1 vm_create_2) op = Some o -> within Fl Inv (execute o).
Proof.
  pose proof UseGas_within. intros Hop.
  assert (Hop' : op ∈ [CREATE; CREATE2; CALL; CALLCODE; DELEGATECALL; STATICCALL]) by (by apply bool_decide_eq_true in Hop).
  unfold instruction_set. rewrite !elem_of_cons, elem_of_nil in Hop'.
  destruct_or! Hop'; subst op; destruct (IsFicus _); simpl; intros [= <-]; within.
Qed.
End calls.
End frame.
