(* ===== verification/EvmKeeps.v ===== *)
(** * What every run keeps: relations on the state that all programs respect

    [StateRel] states what a relation on states has to accept: the operations
    of the interface, going back to a snapshot, and giving code to an account
    that has just been created.  Whatever program is run, at any nesting, the
    state before and after it are then related. *)
From S2P Require Import Prelude Bytes Rlp Crypto Uint256 EvmWord EvmBase EvmMemory EvmGas EvmInstr EvmTable EvmRun EvmFrame.
Local Open Scope Z_scope.

Class StateRel {St} `{VmState St} (R : St -> St -> Prop) : Prop := {
  sr_preorder :: PreOrder R;
  sr_op A (m : M St A) : vm_op A m -> within True R m;
  sr_snapshot : within True R Snapshot;
  sr_revert s n s1 s2 : Snapshot s = Done n s1 -> R s1 s2 -> post True (RevertToSnapshot n) s2 (fun _ s3 => R s s3);
  sr_create addr code n s s' s'' s0 s1 s2 :
    GetNonce addr s = Done 0 s' -> GetCodeSize addr s' = Done 0 s'' -> Snapshot s'' = Done n s0 ->
    IncrementNonce addr s0 = Done tt s1 -> R s1 s2 -> post True (SetCode addr code) s2 (fun _ s3 => R s0 s3);
}.

Definition on_evm {St} (R : St -> St -> Prop) (e e' : EVM St) : Prop := R (evm_state e) (evm_state e').
Definition on_machine {St} (R : St -> St -> Prop) (s s' : Machine St) : Prop := on_evm R (m_evm s) (m_evm s').

Section keeps.
Context {St : Type} {VS : VmState St} {EW : EvmWords} {CR : Crypto} (env : TxEnv).
Context (R : St -> St -> Prop) `{!StateRel R}.

#[export] Instance on_evm_preorder : PreOrder (on_evm R).
Proof. split; [intros e|intros e e' e'']; unfold on_evm; [reflexivity|apply transitivity]. Qed.

#[export] Instance on_machine_preorder : PreOrder (on_machine R).
Proof. split; [intros e|intros e e' e'']; unfold on_machine; [reflexivity|apply transitivity]. Qed.

Lemma sto_within {A} (m : M St A) : within True R m -> within True (on_evm R) (sto m).
Proof.
  intros Hm e. specialize (Hm (evm_state e)). unfold post, sto, zoom in *. simpl.
  destruct (m (evm_state e)); try done.
Qed.

Lemma zoom_within {A} (m : M (EVM St) A) : within True (on_evm R) m -> within True (on_machine R) (zoom m).
Proof.
  intros Hm s. specialize (Hm (m_evm s)). unfold post, zoom in *. simpl. destruct (m (m_evm s)); try done.
Qed.

#[export] Instance on_machine_rel : MachineRel True (on_machine R).
Proof.
  split; [split|..]; try apply _; try (intros; unfold on_machine, on_evm; simpl; reflexivity).
  intros A m Hm. apply zoom_within, sto_within. by apply sr_op.
Qed.

Lemma sto_op {A} (m : M St A) : vm_op A m -> within True (on_evm R) (sto m).
Proof. intros. by apply sto_within, sr_op. Qed.

Lemma sto_BalanceGTE acc val : within True (on_evm R) (sto (BalanceGTE acc val)).
Proof.
  apply sto_within. unfold BalanceGTE. destruct (_ =? _); [apply within_ret; apply _|].
  apply within_bind; [apply _|by apply sr_op; constructor|]. intros. apply within_ret. apply _.
Qed.

Ltac keeps_step :=
  first [ progress within_step
        | apply sto_BalanceGTE
        | apply sto_op; solve [eauto with vm_op]
        | apply sto_within, sr_snapshot ].
Ltac keeps := repeat keeps_step.

Lemma transfer_within from to amount : within True (on_evm R) (transfer from to amount).
Proof. apply within_bind; [apply _|by apply sto_op; constructor|intros; by apply sto_op; constructor]. Qed.

Context (precompiles : list (option (PrecompiledContract (St := St)))).
Context (Hprecompiles : forall addr p f, Precompiles_Get precompiles addr = Some p ->
  within True (on_evm R) (RequiredGas p f) /\ within True (on_evm R) (Run p f)).

Section run.
Context (run : Contract -> bool -> M (EVM St) (bytes * option VmError * Z)).
Context (Hrun : forall c ro, within True (on_evm R) (run c ro)).

Lemma run_callee_within typ f callee gas : within True (on_evm R) (run_callee precompiles run typ f callee gas).
Proof.
  apply within_bind; [apply _|by apply sto_op; constructor|]. intros code.
  destruct (Precompiles_Get precompiles callee) as [p|] eqn:Hp.
  - destruct (Hprecompiles _ _ f Hp) as [Hg Hr]. keeps.
  - keeps.
Qed.

(** A step of a run that has to remember where it came from. *)
Lemma within_then {A B} (m : M (EVM St) A) (k : A -> M (EVM St) B) e1 e Q :
  within True (on_evm R) m -> on_evm R e1 e -> (forall a e2, on_evm R e1 e2 -> post True (k a) e2 Q) ->
  post True (x ← m; k x) e Q.
Proof.
  intros Hm He Hk. apply post_bind. eapply post_mono; [apply Hm|]. intros a e2 H2. apply Hk. by transitivity e.
Qed.

Lemma sto_snapshot (e : EVM St) {B} (k : Z -> M (EVM St) B) (Q : B -> EVM St -> Prop) :
  (forall n e1, Snapshot (evm_state e) = Done n (evm_state e1) -> on_evm R e e1 -> post True (k n) e1 Q) ->
  post True (n ← sto Snapshot; k n) e Q.
Proof.
  intros Hk. apply post_bind. pose proof (sr_snapshot (evm_state e)) as Hs. unfold post in Hs.
  unfold post at 1, sto, zoom. simpl. destruct (Snapshot (evm_state e)) as [n s1| |] eqn:E; try done. by apply Hk.
Qed.

Lemma sto_revert (e e1 e2 : EVM St) n :
  Snapshot (evm_state e) = Done n (evm_state e1) -> on_evm R e1 e2 ->
  post True (sto (RevertToSnapshot n)) e2 (fun _ e3 => on_evm R e e3).
Proof.
  intros Hs H2. pose proof (sr_revert _ _ _ _ Hs H2) as Hr. unfold post, sto, zoom in *. simpl.
  destruct (RevertToSnapshot n (evm_state e2)); try done.
Qed.

Lemma call_with_within typ caller callee input gas value :
  within True (on_evm R) (call_with precompiles run typ caller callee input gas value).
Proof.
  unfold call_with. apply within_bind; [apply _|apply within_reads; apply _|]. intros e0.
  destruct (CallCreateDepth <? depth e0); [keeps|].
  apply within_bind; [apply _|keeps|]. intros enough. destruct (negb enough); [keeps|].
  intros e. apply sto_snapshot. intros n e1 Hn H1.
  eapply (within_then _ _ e1); [keeps|reflexivity|]. intros nothing e2 H2. destruct nothing; [apply post_ret; by transitivity e1|].
  eapply (within_then _ _ e1); [|done|].
  { destruct (_ =? _); [apply transfer_within|]. keeps. }
  intros [] e3 H3. eapply (within_then _ _ e1); [|done|]; [unfold call_frame; keeps|]. intros f e4 H4.
  eapply (within_then _ _ e1); [apply run_callee_within|done|]. intros [[r gas_left] err] e5 H5. destruct err as [err|].
  - apply post_bind. eapply post_mono; [by eapply sto_revert|]. intros [] e6 H6. exact H6.
  - apply post_ret. by transitivity e1.
Qed.

(** The account code is given to is the one whose nonce was raised. *)
Lemma store_code_within addr r err gas n e e0 e1 s s' s'' :
  GetNonce addr s = Done 0 s' -> GetCodeSize addr s' = Done 0 s'' -> Snapshot s'' = Done n (evm_state e) ->
  IncrementNonce addr (evm_state e) = Done tt (evm_state e0) -> on_evm R e0 e1 ->
  post True (store_code addr r err gas) e1 (fun p e2 => on_evm R e e2 /\ (p.2 <> None -> e2 = e1)).
Proof.
  intros Hn Hc Hs Hi H1.
  assert (H0' : on_evm R e e1).
  { transitivity e0; [|done]. pose proof (sr_op _ _ (vo_IncrementNonce addr) (evm_state e)) as Hp. unfold post in Hp. by rewrite Hi in Hp. }
  unfold store_code. destruct err as [err|]; [done|]. destruct (_ <? _); [done|]. destruct (_ <? _); [done|].
  apply post_bind. pose proof (sr_create _ r _ _ _ _ _ _ _ Hn Hc Hs Hi H1) as Hp. unfold post, sto, zoom in *. simpl.
  destruct (SetCode addr r (evm_state e1)); try done.
Qed.

(** Remembering what an operation of the state did. *)
Lemma sto_eq {A B} (m : M St A) (k : A -> M (EVM St) B) e Q :
  (forall a e1, m (evm_state e) = Done a (evm_state e1) -> post True (k a) e1 Q) -> post True (x ← sto m; k x) e Q.
Proof.
  intros Hk. apply post_bind. unfold post at 1, sto, zoom. simpl. destruct (m (evm_state e)) eqn:E; try done. by apply Hk.
Qed.

Lemma op_rel {A} (m : M St A) e a e1 : vm_op A m -> m (evm_state e) = Done a (evm_state e1) -> on_evm R e e1.
Proof. intros Hm E. pose proof (sr_op _ _ Hm (evm_state e)) as Hp. unfold post in Hp. by rewrite E in Hp. Qed.

Lemma create_at_within caller code gas value address : within True (on_evm R) (create_at run caller code gas value address).
Proof.
  unfold create_at. apply within_bind; [apply _|keeps|]. intros _.
  intros e. apply sto_eq. intros nonce e1 E1. pose proof (op_rel _ _ _ _ (vo_GetNonce _) E1) as H1.
  destruct (Z.eqb_spec nonce 0) as [->|Hn]; [|exact H1].
  apply sto_eq. intros size e2 E2. pose proof (op_rel _ _ _ _ (vo_GetCodeSize _) E2) as H2.
  destruct (Z.eqb_spec size 0) as [->|Hs]; [|apply post_ret; by transitivity e1].
  apply sto_snapshot. intros n e3 Hsn H3.
  apply sto_eq. intros [] e4 E4. pose proof (op_rel _ _ _ _ (vo_IncrementNonce _) E4) as H4.
  eapply (within_then _ _ e4); [apply transfer_within|reflexivity|]. intros [] e5 H5.
  eapply (within_then _ _ e4); [apply Hrun|done|]. intros [[r err] gas_left] e6 H6.
  apply post_bind. eapply post_mono; [by eapply store_code_within|]. intros [gas' err'] e7 [H7 _].
  assert (He : on_evm R e e2) by (by transitivity e1).
  destruct err' as [err'|].
  - apply post_bind. eapply post_mono; [by eapply sto_revert|]. intros [] e8 H8. apply post_ret. by transitivity e2.
  - apply post_ret. transitivity e3; [by transitivity e2|done].
Qed.

Lemma create_within caller code gas value address : within True (on_evm R) (create run caller code gas value address).
Proof.
  unfold create. apply within_bind; [apply _|apply within_reads; apply _|]. intros e0.
  destruct (CallCreateDepth <? depth e0); [keeps|].
  apply within_bind; [apply _|keeps|]. intros enough. destruct (negb enough); [keeps|].
  apply within_bind; [apply _|keeps|]. intros _. apply create_at_within.
Qed.

Lemma create_1_within caller code gas value : within True (on_evm R) (create_1 run caller code gas value).
Proof.
  apply within_bind; [apply _|keeps|]. intros nonce. destruct (CreateAddress caller nonce) as [a|]; [|keeps].
  apply within_bind; [apply _|apply create_within|]. intros. keeps.
Qed.

Lemma create_2_within caller code gas value salt : within True (on_evm R) (create_2 run caller code gas value salt).
Proof. apply within_bind; [apply _|apply create_within|]. intros. keeps. Qed.

(** One round of the loop. *)
Lemma step_within :
  within True (on_machine R) (step env (call_with precompiles run) (create_1 run) (create_2 run)).
Proof.
  assert (Hset : forall s f, (forall e, evm_state (f e) = evm_state e) -> on_machine R s (set_evm (f (m_evm s)) s)).
  { intros s f Hf. unfold on_machine, on_evm. simpl. rewrite Hf. reflexivity. }
  unfold step. apply within_bind; [apply _|apply within_reads; apply _|]. intros c.
  apply within_bind; [apply _|apply within_reads; apply _|]. intros pc.
  destruct (find_op _ _) as [o|] eqn:Ho; [|keeps].
  destruct (find_op_within env True (on_machine R) _ _ _ _ _ Ho) as [Hgas Hmem Hexec]. specialize (Hexec _).
  assert (Hex : within True (on_machine R) (execute o)).
  { destruct (is_call (GetOp c pc)) eqn:Hc; [|by apply Hexec].
    eapply calls_within; [apply _|apply _|..|exact Hc|exact Ho]; intros;
      [|apply zoom_within..]; auto using call_with_within, create_1_within, create_2_within.
    unfold on_machine. reflexivity. }
  assert (Hsize : within True (on_machine R) (memory_size o)).
  { unfold memory_size. destruct (memorySize o); keeps. }
  apply within_bind; [apply _|apply within_reads; apply _|]. intros stack. destruct (validateStack _ _); [keeps|].
  apply within_bind; [apply _|unfold write_protected; keeps|]. intros protected. destruct protected; [keeps|].
  apply within_bind; [apply _|done|]. intros [err|size]; [keeps|].
  unfold pay_and_execute, execute_op. keeps.
  apply within_modify. intros s. unfold on_machine. reflexivity.
Qed.
End run.

Lemma Release_state (s : Machine St) : post True Release s (fun _ s' => on_machine R s s').
Proof.
  assert (Hw : within True (on_machine R) Release) by (unfold Release; keeps). apply Hw.
Qed.

Lemma run_with_within loop c ro :
  within True (on_machine R) loop -> within True (on_evm R) (run_with loop c ro).
Proof.
  intros Hl e. unfold run_with, post. cbv beta zeta. match goal with |- context [loop ?x] => set (m0 := x) end. specialize (Hl m0). unfold post in Hl.
  assert (H0 : on_evm R e (m_evm m0)) by (unfold on_evm; simpl; reflexivity).
  destruct (loop m0) as [[r err] m1| |]; try done. pose proof (Release_state m1) as Hr. unfold post in Hr.
  destruct (Release m1) as [[] m2| |]; try done.
  change (R (evm_state e) (evm_state (m_evm m2))). transitivity (evm_state (m_evm m1)); [|exact Hr].
  by transitivity (evm_state (m_evm m0)).
Qed.

Lemma loop_within fuel : within True (on_machine R) (loop env precompiles fuel).
Proof.
  induction fuel as [|fuel IH]; [by intros s|]. simpl.
  apply within_bind; [apply _|apply step_within; intros; by apply run_with_within|].
  intros [res|]; [|done]. apply within_ret. apply _.
Qed.

(** The state before and after a run, a call and a creation. *)
Theorem run_within fuel c ro : within True (on_evm R) (run env precompiles fuel c ro).
Proof. apply run_with_within, loop_within. Qed.

Lemma jumpdests_within x : within True (on_evm R) (modify_st (set_jumpdests x)).
Proof. intros e. unfold post, modify_st, on_evm. simpl. reflexivity. Qed.

Lemma main_call_within fuel gas : within True (on_evm R) (main_call env precompiles fuel gas).
Proof.
  unfold main_call. destruct (tx_To (trx env)) as [to|].
  - apply within_bind; [apply _|keeps|]. intros _. apply within_bind; [apply _|keeps|]. intros _.
    apply within_bind; [apply _|apply call_with_within, run_within|]. intros. keeps.
  - apply within_bind; [apply _|keeps|]. intros _. apply create_1_within, run_within.
Qed.

(** The state before and after a transaction. *)
Theorem main_within fuel : within True (on_evm R) (Main env precompiles fuel).
Proof.
  pose proof jumpdests_within as Hj. unfold Main.
  repeat first [ apply Hj | apply main_call_within | keeps_step ].
Qed.
End keeps.
