(* ===== verification/StateKeeps.v ===== *)
(** * A failed call leaves the state of the EVM as it was

    [kept] relates the states before and after anything the EVM does on a
    [TransitionState]: the journal can undo it, nonces do not fall, and the
    code of an account that has been used does not change. *)
From S2P Require Import Prelude Bytes Rlp Crypto Uint256 EvmWord EvmBase EvmMemory EvmGas EvmInstr EvmTable EvmRun StateEvm StateRevert EvmFrame EvmKeeps.
Local Open Scope Z_scope.

Definition nonce_at (s : TransitionState) (a : Address) : Z :=
  match body (load s a) with Some b => acc_Nonce (b_acc b) | None => 0 end.
(** The size of the code and, if there is code, its hash. *)
Definition body_code (b : AccountBody) : Z * option bytes :=
  (acc_CodeSize (b_acc b), if acc_CodeSize (b_acc b) =? 0 then None else acc_CodeHash (b_acc b)).
Definition code_at (s : TransitionState) (a : Address) : Z * option bytes :=
  match body (load s a) with Some b => body_code b | None => (0, None) end.

(** What every operation but [SetCode] does to nonces and code. *)
Record grows (s s' : TransitionState) : Prop := mkGrows {
  grows_refund : 0 <= refund s -> 0 <= refund s';
  grows_at a : nonce_at s a <= nonce_at s' a /\ code_at s' a = code_at s a;
}.

Record kept (s s' : TransitionState) : Prop := mkKept {
  kept_undoes : undoes s s';
  kept_refund : 0 <= refund s -> 0 <= refund s';
  kept_used a : nonce_at s a <= nonce_at s' a /\ (0 < nonce_at s a -> code_at s' a = code_at s a);
}.

#[export] Instance grows_preorder : PreOrder grows.
Proof.
  split; [by intros s; split|]. intros s s' s'' [R1 H1] [R2 H2]. split; [auto|]. intros a. destruct (H1 a), (H2 a).
  split; [lia|congruence].
Qed.

#[export] Instance kept_preorder : PreOrder kept.
Proof.
  split; [split; [apply undoes_refl|done|]; by intros a|].
  intros s s' s'' [U1 R1 H1] [U2 R2 H2]. split; [by eapply undoes_trans|auto|]. intros a. destruct (H1 a) as [? E1], (H2 a) as [? E2].
  split; [lia|]. intros. rewrite E2 by lia. auto.
Qed.

Lemma grows_changed addr o del rs s s' :
  changed addr o del rs s s' ->
  nonce_at s addr <= match o with Some b => acc_Nonce (b_acc b) | None => 0 end ->
  match o with Some b => body_code b | None => (0, None) end = code_at s addr -> grows s s'.
Proof.
  intros [] Hn Hs. split; [by rewrite cg_refund|]. intros a. unfold nonce_at, code_at in *. destruct (decide (a = addr)) as [->|Hne].
  - by rewrite cg_body.
  - by rewrite cg_other.
Qed.

Lemma grows_GetAccount addr : within True grows (GetAccountConcrete addr).
Proof.
  intros s. destruct (GetAccountConcrete_run addr s) as (s' & E & Hc). unfold post. rewrite E.
  eapply grows_changed; [done|unfold nonce_at; lia|done].
Qed.

Lemma grows_update addr f :
  (forall b, acc_Nonce (b_acc b) <= acc_Nonce (b_acc (f b)) /\ body_code (f b) = body_code b) ->
  within True grows (update_body addr f).
Proof.
  intros Hf s. destruct (body (load s addr)) as [b|] eqn:Hb.
  - destruct (update_body_run addr f s b Hb) as (s' & E & Hc). unfold post. rewrite E. destruct (Hf b).
    eapply grows_changed; [done|unfold nonce_at; by rewrite Hb|unfold code_at; by rewrite Hb].
  - unfold post. destruct (update_body addr f s) eqn:E; try done. exfalso. by eapply update_body_nil.
Qed.

Ltac grows_step :=
  match goal with
  | |- within _ _ (GetAccountConcrete _) => apply grows_GetAccount
  | |- within _ _ (update_body _ _) => apply grows_update; intros ?; simpl; (split; [lia|done])
  | |- within _ _ get_st => apply within_reads; apply _
  | |- within _ _ (modify_st _) => apply within_modify; intros ?; by split
  | |- within _ _ (put_account _ _) => fail 1
  | |- within _ _ (change_nonce _ _) => fail 1
  | _ => within_step
  end.
Ltac grows := repeat grows_step.

Lemma grows_ensure_exists addr : within True grows (ensure_exists addr).
Proof.
  intros s. destruct (ensure_exists_run addr s) as (s' & b & E & Hb & Hs & Ho & Hr). unfold post. rewrite E. split; [by rewrite Hr|]. intros a.
  unfold nonce_at, code_at. destruct (decide (a = addr)) as [->|Hne]; [|by rewrite Ho].
  rewrite Hb. destruct Hs as [->|[-> ->]]; done.
Qed.

Lemma grows_change_nonce addr nonce s :
  nonce_at s addr <= nonce -> post True (change_nonce addr nonce) s (fun _ s' => grows s s').
Proof.
  intros Hle. unfold change_nonce. apply post_bind. unfold ts_GetNonce. apply post_bind.
  destruct (get_body_run addr s) as (s1 & E1 & H1). unfold post at 1. rewrite E1. apply post_ret. apply post_bind.
  assert (Hg : grows s s1) by (eapply grows_changed; [done|unfold nonce_at; lia|done]).
  unfold nonce_at in Hle. rewrite <- (cg_body _ _ _ _ _ _ H1) in Hle.
  destruct (body (load s1 addr)) as [b|] eqn:Hb.
  - destruct (update_body_run addr (set_b_nonce nonce) s1 b Hb) as (s2 & E2 & H2). unfold post at 1. rewrite E2.
    assert (H3 : within True grows (register_change addr (Some (RevNonce addr match body (load s addr) with Some b => acc_Nonce (b_acc b) | None => 0 end)))) by grows.
    eapply post_mono; [apply H3|]. intros [] s3 H4. transitivity s1; [done|]. transitivity s2; [|done].
    eapply grows_changed; [done|unfold nonce_at; by rewrite Hb|unfold code_at; by rewrite Hb].
  - unfold post at 1. destruct (update_body addr _ s1) eqn:E; try done. exfalso. by eapply update_body_nil.
Qed.

Lemma grows_nonce addr f :
  (forall n, n <= f n) ->
  within True grows (_ ← ensure_exists addr; current ← ts_GetNonce addr; change_nonce addr (f current)).
Proof.
  intros Hf. apply within_bind; [apply _|apply grows_ensure_exists|]. intros _ s. apply post_bind.
  unfold ts_GetNonce. apply post_bind.
  destruct (get_body_run addr s) as (s1 & E1 & H1). unfold post at 1. rewrite E1. apply post_ret.
  assert (Hg : grows s s1) by (eapply grows_changed; [done|unfold nonce_at; lia|done]).
  eapply post_mono; [apply grows_change_nonce|]; [|intros; by transitivity s1].
  unfold nonce_at. rewrite (cg_body _ _ _ _ _ _ H1). apply Hf.
Qed.

(** A read of the nonce, and what follows it. *)
Lemma grows_read_nonce {A} addr (k : Z -> T A) :
  (forall s n, nonce_at s addr = n -> post True (k n) s (fun _ s' => grows s s')) ->
  within True grows (n ← ts_GetNonce addr; k n).
Proof.
  intros Hk s. apply post_bind. unfold ts_GetNonce. apply post_bind.
  destruct (get_body_run addr s) as (s1 & E1 & H1). unfold post at 1. rewrite E1. apply post_ret.
  assert (Hg : grows s s1) by (eapply grows_changed; [done|unfold nonce_at; lia|done]).
  eapply post_mono; [apply Hk|]; [|intros; by transitivity s1].
  unfold nonce_at. by rewrite (cg_body _ _ _ _ _ _ H1).
Qed.

Lemma grows_SetNonce addr nonce : within True grows (ts_SetNonce addr nonce).
Proof.
  apply within_bind; [apply _|apply grows_ensure_exists|]. intros _. apply grows_read_nonce. intros s n Hn.
  destruct (Z.ltb_spec nonce n); [done|]. apply grows_change_nonce. lia.
Qed.

Lemma grows_IncrementNonce addr : within True grows (ts_IncrementNonce addr).
Proof.
  apply within_bind; [apply _|apply grows_ensure_exists|]. intros _. apply grows_read_nonce. intros s n Hn.
  apply grows_change_nonce. lia.
Qed.

Lemma grows_AddRefund gas : within True grows (ts_AddRefund gas).
Proof. intros s. split; [intros _; apply u64_range|done]. Qed.

Lemma grows_SubRefund gas : within True grows (ts_SubRefund gas).
Proof.
  intros s. unfold ts_SubRefund, post, bindM, get_st. destruct (Z.ltb_spec (refund s) gas); [done|].
  split; [intros _; simpl; lia|done].
Qed.

Section rel.
Context {CR : Crypto}.

Lemma grows_op A (m : T A) : vm_op A m -> within True grows m.
Proof.
  intros Hm. destruct Hm; simpl; try apply grows_SetNonce; try apply grows_IncrementNonce;
    try apply grows_AddRefund; try apply grows_SubRefund;
    pose proof grows_ensure_exists; grows.
Qed.

Lemma undoes_op A (m : T A) s a s' : vm_op A m -> m s = Done a s' -> undoes s s'.
Proof.
  intros Hm. revert a s'. change (forall a s', m s = Done a s' -> undoes s s').
  assert (Hr : reversible m); [|apply Hr].
  destruct Hm; simpl; try apply reversible_query;
    first [ apply reversible_GetCode | apply reversible_committed | apply reversible_GetState | apply reversible_HasSuicided
          | apply reversible_AddBalance | apply reversible_SubBalance | apply reversible_IncrementNonce | apply reversible_SetNonce
          | apply reversible_SetState | apply reversible_Suicide | apply reversible_AddLog | apply reversible_AddRefund
          | apply reversible_SubRefund | apply reversible_SetTransientState
          | apply reversible_bind; [apply reversible_GetAccount|intros; apply reversible_ret]
          | intros ? ? ? [= <- <-]; apply undoes_refl ].
Qed.

Lemma same_nonce s s' a : same_state s s' -> nonce_at s a = nonce_at s' a.
Proof. intros Hs. unfold nonce_at. destruct (ss_entry _ _ Hs a) as [Hb _ _ _]. destruct Hb as [b b' []|]; done. Qed.

Lemma same_size s s' a : same_state s s' -> code_at s a = code_at s' a.
Proof.
  intros Hs. unfold code_at. destruct (ss_entry _ _ Hs a) as [Hb _ _ _]. destruct Hb as [b b' []|]; [|done].
  unfold body_code. rewrite <- sb_size. destruct (Z.eqb_spec (acc_CodeSize (b_acc b)) 0); [done|]. by rewrite sb_hash.
Qed.

Lemma GetNonce_result addr s n s' : ts_GetNonce addr s = Done n s' -> n = nonce_at s' addr.
Proof.
  unfold ts_GetNonce, nonce_at. destruct (get_body_run addr s) as (s1 & E & H1). rewrite (bind_done _ _ _ _ _ E).
  intros [= <- <-]. by rewrite (cg_body _ _ _ _ _ _ H1).
Qed.

Lemma GetCodeSize_result addr s n s' : ts_GetCodeSize addr s = Done n s' -> n = fst (code_at s' addr) /\ nonce_at s' addr = nonce_at s addr.
Proof.
  unfold ts_GetCodeSize, code_at, nonce_at. destruct (get_body_run addr s) as (s1 & E & H1). rewrite (bind_done _ _ _ _ _ E).
  intros [= <- <-]. rewrite (cg_body _ _ _ _ _ _ H1). by destruct (body (load s addr)).
Qed.

Lemma IncrementNonce_result addr s a s' :
  ts_IncrementNonce addr s = Done a s' -> nonce_at s' addr = nonce_at s addr + 1 /\ code_at s' addr = code_at s addr.
Proof.
  intros E. pose proof (grows_IncrementNonce addr s) as Hg. unfold post in Hg. rewrite E in Hg. split; [|apply Hg].
  apply bind_done_inv in E as ([] & s1 & E1 & E). destruct (ensure_exists_run addr s) as (s1' & b & E1' & Hb & Hs & _ & _).
  rewrite E1 in E1'. injection E1' as <-.
  apply bind_done_inv in E as (n & s2 & E2 & E). unfold ts_GetNonce in E2. destruct (get_body_run addr s1) as (s2' & E2' & H2).
  rewrite (bind_done _ _ _ _ _ E2'), Hb in E2. injection E2 as <- <-. rewrite Hb in H2.
  apply bind_done_inv in E as (n' & s3 & E3 & E). destruct (get_body_run addr s2') as (s3' & E3' & H3).
  unfold ts_GetNonce in E3. rewrite (bind_done _ _ _ _ _ E3') in E3. injection E3 as <- <-.
  pose proof (cg_body _ _ _ _ _ _ H3) as Hb3. rewrite (cg_body _ _ _ _ _ _ H2) in Hb3.
  apply bind_done_inv in E as ([] & s4 & E4 & E5).
  destruct (update_body_run addr (set_b_nonce (acc_Nonce (b_acc b) + 1)) s3' b Hb3) as (s4' & E4' & H4).
  rewrite E4 in E4'. injection E4' as <-.
  edestruct (register_change_run addr) as (s5 & E5' & H5); [apply (cg_body _ _ _ _ _ _ H4)|]. rewrite E5 in E5'. injection E5' as _ <-.
  unfold nonce_at. rewrite (cg_body _ _ _ _ _ _ H5). simpl. destruct Hs as [->|[-> ->]]; done.
Qed.

(** [SetCode] on an account without code. *)
Lemma SetCode_rel addr code s a s' :
  codeless addr s -> ts_SetCode addr code s = Done a s' ->
  undoes s s' /\ refund s' = refund s /\
  forall a, nonce_at s a <= nonce_at s' a /\ (a <> addr -> code_at s' a = code_at s a).
Proof.
  intros Hc E. split; [by eapply reversible_SetCode|]. apply bind_done_inv in E as ([] & s1 & E1 & E2).
  pose proof (grows_ensure_exists addr s) as Hg. unfold post in Hg. rewrite E1 in Hg. destruct Hg as [_ Hg].
  destruct (ensure_exists_run addr s) as (s1' & b1 & E1' & _ & _ & _ & R1). rewrite E1 in E1'. injection E1' as <-.
  destruct (Z.of_nat (length code) =? 0); [injection E2 as <- <-; split; [done|]; intros x; destruct (Hg x); auto|].
  apply bind_done_inv in E2 as ([] & s2 & E2 & E3).
  assert (Hr : within True grows (register_change addr (Some (RevCode addr)))) by grows.
  specialize (Hr s1). unfold post in Hr. rewrite E2 in Hr. destruct Hr as [_ Hr].
  assert (R2 : refund s2 = refund s1).
  { apply bind_done_inv in E2 as ([] & s2' & E2' & [= <-]). destruct (body (load s1 addr)) as [b2|] eqn:Hb2.
    - destruct (update_body_run addr tick s1 b2 Hb2) as (s3 & E3' & H3). unfold tick in E3'. rewrite E2' in E3'. injection E3' as <-.
      apply (cg_refund _ _ _ _ _ _ H3).
    - by apply update_body_nil in E2'. }
  destruct (body (load s2 addr)) as [b|] eqn:Hb; [|by apply update_body_nil in E3].
  destruct (update_body_run addr (fun b => set_code (Some code) true (set_b_code (Some (keccak256 code)) (Z.of_nat (length code)) b)) s2 b Hb)
    as (s3 & E4 & H4).
  rewrite E3 in E4. injection E4 as -> <-. split; [rewrite (cg_refund _ _ _ _ _ _ H4); congruence|]. intros x. destruct (Hg x) as [N1 S1], (Hr x) as [N2 S2].
  unfold nonce_at, code_at in *. destruct (decide (x = addr)) as [->|Hne].
  - rewrite (cg_body _ _ _ _ _ _ H4). simpl. rewrite Hb in N2. split; [lia|done].
  - rewrite (cg_other _ _ _ _ _ _ H4) by done. split; [lia|]. intros _. congruence.
Qed.

(** The account of a creation has no code, whatever its constructor did. *)
Lemma created_codeless addr n s s' s'' s0 s1 s2 :
  ts_GetNonce addr s = Done 0 s' -> ts_GetCodeSize addr s' = Done 0 s'' -> ts_Snapshot s'' = Done n s0 ->
  ts_IncrementNonce addr s0 = Done tt s1 -> kept s1 s2 -> codeless addr s2.
Proof.
  intros En%GetNonce_result [Es Hn']%GetCodeSize_result [= _ <-] [Hinc Hsz]%IncrementNonce_result [_ _ Hg].
  destruct (Hg addr) as [_ Hs2]. specialize (Hs2 ltac:(lia)). rewrite Hsz in Hs2. unfold codeless. unfold code_at in *.
  destruct (body (load s2 addr)); [|done]. rewrite <- Hs2 in Es. by symmetry.
Qed.

Lemma kept_op A (m : T A) : vm_op A m -> within True kept m.
Proof.
  intros Hm s. pose proof (grows_op A m Hm s) as Hg. apply post_run; [|done]. intros a s' E.
  unfold post in Hg. rewrite E in Hg. destruct Hg as [Hr Hg]. split; [by eapply undoes_op|done|].
  intros x. destruct (Hg x). auto.
Qed.

#[export] Instance kept_rel : StateRel kept.
Proof.
  split.
  - apply _.
  - apply kept_op.
  - intros s. change (kept s s). reflexivity.
  - intros s n s1 s2 [= <- <-] [Hu _ Hg]. apply post_run; [|done]. intros [] s3 E3.
    destruct (undoes_revert s s2 Hu) as (s4 & E4 & Hr & Hs). simpl in E3. rewrite E4 in E3. injection E3 as <-.
    split; [by apply undoes_same|by rewrite (ss_refund _ _ Hs)|]. intros a. rewrite (same_nonce _ _ a Hs), (same_size _ _ a Hs). split; [lia|done].
  - intros addr code n s s' s'' s0 s1 s2 En Es Hsn Ei Hk2. apply post_run; [|done]. intros [] s3 E3.
    pose proof (created_codeless addr n s s' s'' s0 s1 s2 En Es Hsn Ei Hk2) as Hcl. injection Hsn as _ <-.
    pose proof (post_done True _ s'' _ tt s1 (kept_op _ _ (vo_IncrementNonce addr) s'') Ei) as [Hu1 Hr1 Hg1]. destruct Hk2 as [Hu Hr Hg].
    destruct (SetCode_rel _ _ _ _ _ Hcl E3) as (Hu3 & Hr3 & Hg3).
    apply GetNonce_result in En. apply GetCodeSize_result in Es as [_ Hn']. apply IncrementNonce_result in Ei as [Hinc _].
    split; [eapply undoes_trans; [done|]; by eapply undoes_trans|rewrite Hr3; auto|]. intros x.
    destruct (Hg x) as [N2 S2], (Hg3 x) as [N3 S3], (Hg1 x) as [N1 S1]. split; [lia|]. intros Hx.
    rewrite S3 by (intros ->; lia). rewrite S2 by lia. auto.
Qed.

Lemma kept_raw addr key value : has_raw addr -> within True kept (SetStateRawIrreversibly addr key value).
Proof.
  intros Hr s. apply post_run; [|done]. intros [] s' E.
  assert (within True grows (SetStateRawIrreversibly addr key value)) as Hg by (apply within_bind; [apply _|apply grows_ensure_exists|intros; grows]).
  pose proof (post_done True _ s _ tt s' (Hg s) E) as [Hr' Ha]. split; [by eapply reversible_SetStateRaw|done|]. intros a. destruct (Ha a). auto.
Qed.
End rel.

(** ** Sequences of operations *)
(** Journalled operations from a state whose snapshot is [base]; nested
    reverts stay within it. *)
Inductive journalled `{Crypto} (base : Z) (s : TransitionState) : TransitionState -> Prop :=
| j_start : journalled base s s
| j_op A (m : T A) s1 a s2 : journalled base s s1 -> vm_op A m -> m s1 = Done a s2 -> journalled base s s2
| j_SetCode addr code s1 s2 : journalled base s s1 -> codeless addr s1 -> ts_SetCode addr code s1 = Done tt s2 -> journalled base s s2
| j_raw addr key value s1 s2 : journalled base s s1 -> has_raw addr -> SetStateRawIrreversibly addr key value s1 = Done tt s2 -> journalled base s s2
| j_revert k s1 s2 : journalled base s s1 -> base <= k -> ts_RevertToSnapshot k s1 = Done tt s2 -> journalled base s s2.

(** What they leave in the journal undoes them. *)
Lemma journalled_undoes `{Crypto} base s s' : base = Z.of_nat (length (ts_reverts s)) -> journalled base s s' -> undoes s s'.
Proof.
  intros -> Hj. induction Hj as [|A m s1 a s2 Hj IH Hm E|addr code s1 s2 Hj IH Hc E|addr key value s1 s2 Hj IH Hr E|k s1 s2 Hj IH Hk E]; [apply undoes_refl|..].
  - eapply undoes_trans; [done|by eapply undoes_op].
  - eapply undoes_trans; [done|by eapply reversible_SetCode].
  - eapply undoes_trans; [done|by eapply reversible_SetStateRaw].
  - by eapply undoes_revert_within.
Qed.

(** C18: [RevertToSnapshot] restores what can be observed of the state, for
    any sequence of journalled operations after the snapshot was taken, with
    reverts to later snapshots among them; and it does not panic.  The raw
    writes of the contracts of the chain stay, as they are meant to. *)
Theorem revert_restores `{Crypto} s s1 snapshot s2 :
  ts_Snapshot s = Done snapshot s1 -> journalled snapshot s1 s2 ->
  exists s3, ts_RevertToSnapshot snapshot s2 = Done tt s3 /\ same_state s3 s /\
    forall addr b3, body (load s3 addr) = Some b3 -> exists b2, body (load s2 addr) = Some b2 /\ RawStorageDirty b3 = RawStorageDirty b2.
Proof.
  intros [= <- <-] Hj%journalled_undoes; [|done]. rename Hj into Hu.
  destruct (undoes_revert s s2 Hu) as (s3 & E & _ & Hs). exists s3. split_and!; [done|done|]. intros addr b3. by apply (revert_raw _ _ _ _ _ _ E).
Qed.

(** ** Calls and creations that fail *)
Section failed.
Context {CR : Crypto} {EW : EvmWords} (env : TxEnv).
Context (precompiles : list (option (PrecompiledContract (St := TransitionState)))).
Context (Hprecompiles : forall addr p f, Precompiles_Get precompiles addr = Some p ->
  within True (on_evm kept) (RequiredGas p f) /\ within True (on_evm kept) (Run p f)).

(** Reading the balance only fills caches. *)
Lemma BalanceGTE_same acc val e b e' :
  sto (BalanceGTE acc val) e = Done b e' -> same_state (evm_state e') (evm_state e).
Proof.
  unfold sto, zoom, BalanceGTE. destruct (val =? 0); [intros [= <- <-]; reflexivity|]. simpl.
  unfold bindM, ts_GetBalance. destruct (get_body_run acc (evm_state e)) as (s1 & E & Hc).
  rewrite (bind_done _ _ _ _ _ E). intros [= <- <-]. by eapply same_nil.
Qed.

(** The state after going back to a snapshot. *)
Lemma revert_same (e e1 e2 : EVM TransitionState) n :
  Snapshot (evm_state e) = Done n (evm_state e1) -> on_evm kept e1 e2 ->
  post True (sto (RevertToSnapshot n)) e2 (fun _ e3 => same_state (evm_state e3) (evm_state e)).
Proof.
  intros [= <- Hs] [Hu _ _]. unfold post, sto, zoom. simpl. rewrite <- Hs in Hu.
  destruct (undoes_revert _ _ Hu) as (s3 & E & _ & H3). by rewrite E.
Qed.

Lemma run_keeps fuel c ro : within True (on_evm kept) (run env precompiles fuel c ro).
Proof. apply run_within; [apply kept_rel|done]. Qed.

Lemma failed_call_post fuel typ caller callee input gas value e :
  post True (call_with precompiles (run env precompiles fuel) typ caller callee input gas value) e
    (fun res e' => res.2 <> None -> same_state (evm_state e') (evm_state e)).
Proof.
  unfold call_with. apply post_bind, post_ret.
  destruct (CallCreateDepth <? depth e); [by apply post_ret|].
  apply post_bind. apply (post_mono _ _ _ (fun _ e' => same_state (evm_state e') (evm_state e))).
  { destruct (_ && _); [|by apply post_ret]. apply post_run; [|done]. intros b e' E. by eapply BalanceGTE_same. }
  intros enough e0 H0. destruct (negb enough); [by apply post_ret|].
  apply (sto_snapshot kept). intros n e1 Hn _.
  eapply (within_then kept _ _ e1); [|reflexivity|].
  { destruct (_ && _); [|apply within_ret; apply _].
    apply within_bind; [apply _|apply sto_op; [apply kept_rel|constructor]|]. intros. apply within_ret. apply _. }
  intros nothing e2 H2. destruct nothing; [by apply post_ret|].
  eapply (within_then kept _ _ e1); [|done|].
  { destruct (_ =? _); [apply transfer_within; apply kept_rel|]. destruct (_ =? _); [|apply within_ret; apply _].
    apply sto_op; [apply kept_rel|constructor]. }
  intros [] e3 H3. eapply (within_then kept _ _ e1); [|done|].
  { unfold call_frame. destruct (_ =? _); [|destruct (_ =? _); [destruct caller|]]; try (apply within_ret; apply _). apply within_panic. }
  intros f e4 H4. eapply (within_then kept _ _ e1); [|done|].
  { apply run_callee_within; [apply kept_rel|done|]. intros. apply run_keeps. }
  intros [[r gas_left] [err|]] e5 H5; [|by apply post_ret].
  apply post_bind. eapply post_mono; [by eapply revert_same|]. intros [] e6 H6. apply post_ret. intros _. by rewrite H6.
Qed.

(** C15: a call of any kind that returns an error - out of gas, a revert, a
    stack or jump error, at whatever nesting - leaves every account, its
    balance, nonce, code and storage, the logs and the refund counter as they
    were before the call, whatever program the callee and the contracts it
    calls consist of.  Exempt is what the journal does not record: the raw
    storage of the DPOS and the slashing contract ([same_body]) keeps what
    calls to them have written inside the failed call, which for the DPOS
    contract is a bug ([DposFindings.reverted_frame_keeps_stake]), and so
    does the transient storage ([EvmFindings.transient_survives_revert]). *)
Theorem failed_call_restores fuel typ caller callee input gas value e r gas_left err e' :
  call_with precompiles (run env precompiles fuel) typ caller callee input gas value e = Done (r, gas_left, Some err) e' ->
  same_state (evm_state e') (evm_state e).
Proof.
  intros E. pose proof (failed_call_post fuel typ caller callee input gas value e) as Hp. unfold post in Hp.
  rewrite E in Hp. by apply Hp.
Qed.

(** C21: nothing a call does, failed or not, lowers a nonce or changes the
    code of an account whose nonce is not zero: deployed code is immutable
    within a transaction. *)
Theorem used_code_immutable fuel typ caller callee input gas value e res e' addr :
  call_with precompiles (run env precompiles fuel) typ caller callee input gas value e = Done res e' ->
  nonce_at (evm_state e) addr <= nonce_at (evm_state e') addr /\
  (0 < nonce_at (evm_state e) addr -> code_at (evm_state e') addr = code_at (evm_state e) addr).
Proof.
  intros E. assert (Hw : within True (on_evm kept) (call_with precompiles (run env precompiles fuel) typ caller callee input gas value)).
  { apply call_with_within; [apply kept_rel|done|]. intros. apply run_keeps. }
  specialize (Hw e). unfold post in Hw. rewrite E in Hw. apply Hw.
Qed.
End failed.

(** ** Runs as sequences of operations

    Whatever the EVM runs, what it does to the state is a sequence of
    journalled operations: [scripted] is one of the relations that all
    programs respect.  A transaction is such a sequence, and with it all that
    is shown of them. *)
Section script.
Context {CR : Crypto}.

(** What comes after a sequence of operations and makes a longer one. *)
Definition extends (s s' : TransitionState) : Prop := forall s0, journalled 0 s0 s -> journalled 0 s0 s'.

#[export] Instance extends_preorder : PreOrder extends.
Proof. split; [by intros s s0|]. intros s s' s'' H1 H2 s0 Hj. auto. Qed.

Record scripted (s s' : TransitionState) : Prop := mkScripted {
  scr_kept : kept s s';
  scr_journalled : extends s s';
}.

#[export] Instance scripted_preorder : PreOrder scripted.
Proof. split; [intros s; by split|]. intros s s' s'' [] []. split; by etrans. Qed.

Lemma scripted_op A (m : T A) : vm_op A m -> within True scripted m.
Proof.
  intros Hm s. apply post_run; [|done]. intros a s' E. split; [exact (post_done True m s _ a s' (kept_op A m Hm s) E)|].
  intros s0 Hj. by eapply j_op.
Qed.

Lemma scripted_raw addr key value : has_raw addr -> within True scripted (SetStateRawIrreversibly addr key value).
Proof.
  intros Hr s. apply post_run; [|done]. intros [] s' E. split; [exact (post_done True _ s _ tt s' (kept_raw addr key value Hr s) E)|].
  intros s0 Hj. by eapply j_raw.
Qed.

#[export] Instance scripted_rel : StateRel scripted.
Proof.
  split.
  - apply _.
  - apply scripted_op.
  - intros s. change (scripted s s). reflexivity.
  - intros s n s1 s2 E1 [Hk Hj]. apply post_run; [|done]. intros [] s3 E3. split; [exact (post_done True _ s2 _ tt s3 (sr_revert s n s1 s2 E1 Hk) E3)|].
    injection E1 as <- <-. intros s0 Hs. eapply j_revert; [by apply Hj| |exact E3]. lia.
  - intros addr code n s s' s'' s0 s1 s2 En Es Hsn Ei [Hk Hj]. apply post_run; [|done]. intros [] s3 E3.
    split; [exact (post_done True _ s2 _ tt s3 (sr_create addr code n s s' s'' s0 s1 s2 En Es Hsn Ei Hk) E3)|].
    intros x Hx. eapply j_SetCode; [|exact (created_codeless addr n s s' s'' s0 s1 s2 En Es Hsn Ei Hk)|exact E3].
    apply Hj. eapply j_op; [exact Hx|apply vo_IncrementNonce|exact Ei].
Qed.
End script.
