(* ===== verification/EvmTermination.v ===== *)
(** * Every run ends, and never gives back more gas than it got

    With more fuel than gas, no run, call, creation or transaction exhausts
    its fuel: every instruction that does not end the run costs at least one
    unit, and what a call or a creation gets has been paid for.  [NeverFails]
    is what the state has to promise: its operations have no error result. *)
From S2P Require Import Prelude Bytes Rlp Crypto Uint256 EvmWord EvmBase EvmMemory EvmGas EvmInstr EvmTable EvmRun EvmFrame.
Local Open Scope Z_scope.

Definition any {S} (s s' : S) : Prop := True.
#[export] Instance any_preorder {S} : PreOrder (any (S := S)).
Proof. by split. Qed.

Class NeverFails {St} `{VmState St} : Prop := {
  nf_op A (m : M St A) : vm_op A m -> within False any m;
  nf_snapshot : within False any Snapshot;
  nf_revert n : within False any (RevertToSnapshot n);
  nf_SetCode addr code : within False any (SetCode addr code);
}.

Definition gas_of {St} (s : Machine St) : Z := contract_gas (m_contract s).
Definition same_gas {St} (s s' : Machine St) : Prop := gas_of s' = gas_of s.
(** What a gas function leaves alone. *)
Definition only_costs {St} (s s' : Machine St) : Prop := m_contract s' = m_contract s /\ m_stack s' = m_stack s.

Section gas.
Context {St : Type} {VS : VmState St} {EW : EvmWords} {CR : Crypto} {NF : NeverFails} (env : TxEnv).
Context (Henv : gas_table env = GasTableCalifornicum).
Abbreviation X := (M (Machine St)).

Lemma st_any {A} (m : M St A) (Inv : Machine St -> Machine St -> Prop) :
  (forall s x, Inv s (set_evm (set_state x (m_evm s)) s)) -> within False any m -> within False Inv (st m).
Proof.
  intros Hi Hm s. specialize (Hm (evm_state (m_evm s))). unfold post, st, zoom in *. simpl.
  destruct (m (evm_state (m_evm s))); try done; apply Hi.
Qed.

#[export] Instance same_gas_rel : MachineRel (St := St) False same_gas.
Proof.
  split; [split|..]; try done.
  - split; [done|]. unfold same_gas. congruence.
  - intros A m Hm. apply st_any; [done|by apply nf_op].
Qed.

#[export] Instance only_costs_rel : GasRel (St := St) False only_costs.
Proof.
  split; try done.
  - split; [done|]. intros s s' s'' [] []. split; congruence.
  - intros A m Hm. apply st_any; [done|by apply nf_op].
Qed.

#[export] Instance any_rel : MachineRel (St := St) False any.
Proof. split; [split|..]; try done. intros A m Hm. apply st_any; [done|by apply nf_op]. Qed.

(** ** What an operation costs *)
Definition atleast (k : Z) (m : X (VmError + Z)) : Prop :=
  forall s, post False m s (fun r _ => match r with inr c => k <= c | inl _ => True end).

Lemma atleast_ret k r : match r with inr c => k <= c | inl _ => True end -> atleast k (ret r).
Proof. intros Hr s. by apply post_ret. Qed.

Lemma atleast_bind {A} k (m : X A) f : within False any m -> (forall a, atleast k (f a)) -> atleast k (x ← m; f x).
Proof. intros Hm Hf s. apply post_bind. eapply post_mono; [apply Hm|]. intros. apply Hf. Qed.

Lemma atleast_andthen a k m f :
  atleast a m -> (forall x, a <= x -> atleast k (f x)) -> atleast k (andthen m f).
Proof.
  intros Hm Hf s. apply post_bind. eapply post_mono; [apply Hm|]. intros [err|x] s' Hx; [done|]. by apply Hf.
Qed.

Lemma atleast_le k k' m : atleast k m -> k' <= k -> atleast k' m.
Proof. intros Hm Hk s. eapply post_mono; [apply Hm|]. intros [err|x] s'; [done|lia]. Qed.

Lemma SafeAdd_spec x y : 0 <= x -> 0 <= y ->
  checked (SafeAdd x y) = inl errGasUintOverflow \/ checked (SafeAdd x y) = inr (x + y).
Proof.
  intros Hx Hy. unfold checked, SafeAdd, MaxUint64. simpl. destruct (Z.ltb_spec (2 ^ 64 - 1 - x) y); [by left|].
  right. rewrite u64_small by lia. done.
Qed.

Lemma atleast_safe_add k x y : 0 <= x -> 0 <= y -> k <= x + y -> atleast k (safe_add x y).
Proof. intros Hx Hy Hk. apply atleast_ret. destruct (SafeAdd_spec x y Hx Hy) as [->| ->]; done. Qed.

Lemma atleast_safe_mul x y : atleast 0 (safe_mul x y).
Proof.
  apply atleast_ret. unfold checked, SafeMul. destruct (_ || _); simpl; [done|]. destruct (_ <? _); [done|]. apply u64_range.
Qed.

Lemma atleast_to_uint64 x : atleast 0 (to_uint64 x).
Proof. apply atleast_ret. destruct (w_overflow x); [done|]. apply u64_range. Qed.

Lemma any_stack (x : list Z) : within False any (set_stack (St := Machine St) x).
Proof. by intros s. Qed.

Lemma Back_any n : within False any (Back (St := Machine St) n).
Proof. intros s. unfold Back, bindM, get_stack, post. by destruct (_ !! _). Qed.

Lemma op_any A (m : M St A) : vm_op A m -> within False any (st m).
Proof. intros Hm. apply st_any; [done|by apply nf_op]. Qed.

Lemma atleast_memory n : atleast 0 (memoryGasCost n).
Proof.
  intros s. unfold memoryGasCost. destruct (n =? 0); [by apply post_ret|]. destruct (_ <? _); [by apply post_ret|].
  apply post_bind. unfold post at 1, get_mem. destruct (_ <? _); [|by apply post_ret].
  apply post_bind. unfold post at 1, set_mem, modify_st. apply post_ret. apply u64_range.
Qed.

Lemma atleast_add_words gas pos w : 0 <= gas -> atleast gas (add_words gas pos w).
Proof.
  intros Hg. apply atleast_bind; [apply Back_any|]. intros x.
  eapply atleast_andthen; [apply atleast_to_uint64|]. intros y Hy.
  eapply atleast_andthen; [apply atleast_safe_mul|]. intros z Hz. apply atleast_safe_add; lia.
Qed.

Ltac consts := rewrite ?Henv in *; simpl in *; unfold CopyGas, LogGas, LogDataGas, LogTopicGas, Keccak256WordGas, CreateGas, Create2Gas, ExpGas,
  GasQuickStep, GasFastestStep, GasFastStep, GasMidStep, GasSlowStep, GasExtStep, JumpdestGas,
  NetSstoreNoopGas, NetSstoreInitGas, NetSstoreCleanGas, NetSstoreDirtyGas in *;
  repeat match goal with |- context [u64 ?x] => generalize (u64_range x); generalize (u64 x); intros ? ? end;
  first [lia | match goal with H : context [u64 ?x] |- _ => pose proof (u64_range x); lia end].
Ltac costs_step :=
  match goal with
  | |- forall _, _ => intros ?
  | |- atleast _ (ret _) => apply atleast_ret; simpl; try exact I; try consts
  | |- atleast _ (bindM (Back _) _) => apply atleast_bind; [apply Back_any|]
  | |- atleast _ (bindM (st _) _) => apply atleast_bind; [apply op_any; solve [eauto with vm_op]|]
  | |- atleast _ (bindM get_contract _) => apply atleast_bind; [by intros ?|]
  | |- atleast _ (bindM (get_account _) _) => apply atleast_bind; [intros ?; apply post_bind; eapply post_mono; [apply op_any; constructor|done]|]
  | |- atleast _ (bindM (memoryGasCost _) _) => fail 1
  | |- atleast _ (andthen (memoryGasCost _) _) => eapply atleast_andthen; [apply atleast_memory|]
  | |- atleast _ (andthen (to_uint64 _) _) => eapply atleast_andthen; [apply atleast_to_uint64|]
  | |- atleast _ (andthen (safe_mul _ _) _) => eapply atleast_andthen; [apply atleast_safe_mul|]
  | |- atleast _ (andthen (safe_add ?x ?y) _) =>
      apply (atleast_andthen (x + y)); [apply atleast_safe_add; try apply u64_range; simpl; try consts|]
  | |- atleast _ (safe_add _ _) => apply atleast_safe_add; try apply u64_range; simpl; try consts
  | |- atleast _ (add_words _ _ _) => eapply atleast_le; [apply atleast_add_words; consts|consts]
  | |- atleast _ (if ?b then _ else _) => destruct b
  | |- atleast _ (bindM _ _) => apply atleast_bind; [solve [within]|]
  end.
Ltac costs := rewrite ?Henv; simpl; repeat costs_step.

Lemma cost_copier pos k n : 0 <= k -> atleast k (memoryCopierGas pos k n).
Proof. intros Hk. unfold memoryCopierGas. costs. Qed.

Lemma cost_SStore n : atleast 200 (gasSStore n).
Proof.
  unfold gasSStore. costs; repeat (apply atleast_bind; [within|intros []]); apply atleast_ret; consts.
Qed.

Lemma cost_memory_step n : atleast 3 (memory_step n).
Proof.
  intros s. unfold memory_step. apply post_bind. eapply post_mono; [apply atleast_memory|].
  intros [err|c] s' Hc; [done|]. eapply post_mono; [apply (atleast_safe_add 3); consts|done].
Qed.

(** What is set aside for a call is part of the price. *)
Lemma reserve_spec base (s : Machine St) :
  0 <= base -> post False (reserve_call_gas env base) s (fun r (s' : Machine St) =>
    only_costs s s' /\
    match r with inr c => 0 <= call_gas_tmp (m_evm s') < 2 ^ 64 /\ c = base + call_gas_tmp (m_evm s') | inl _ => True end).
Proof.
  intros Hb. unfold reserve_call_gas, Back, post, bindM, get_contract, get_stack, modify_st, safe_add, ret. simpl.
  destruct (m_stack s !! 0%nat) as [callCost|]; [|exact I]. simpl.
  destruct (callGas (gas_table env) (contract_gas (m_contract s)) base callCost) as [err|tmp] eqn:E; simpl.
  - done.
  - split; [done|].
    assert (Ht : 0 <= tmp < 2 ^ 64).
    { unfold callGas in E. rewrite Henv in E. simpl in E.
      pose proof (u64_range (contract_gas (m_contract s) - base)) as Hr. pose proof (u64_range callCost) as Hc.
      set (av := u64 (contract_gas (m_contract s) - base)) in *. pose proof (Z.div_le_upper_bound av 64 av).
      pose proof (Z.div_pos av 64). unfold w_Uint64 in E. destruct (_ || _); injection E as <-; lia. }
    destruct (SafeAdd_spec base tmp) as [->| ->]; try lia; done.
Qed.

(** What the price of a call consists of. *)
Definition call_priced (base : Z) (m : X (VmError + Z)) (s : Machine St) : Prop :=
  post False m s (fun r (s' : Machine St) => only_costs s s' /\
    match r with inr c => 0 <= call_gas_tmp (m_evm s') < 2 ^ 64 /\ base + call_gas_tmp (m_evm s') <= c | inl _ => True end).

Lemma memory_only_costs n : within False (only_costs (St := St)) (memoryGasCost n).
Proof. unfold memoryGasCost. within. Qed.

Lemma call_priced_intro base n x y s :
  (forall m, 0 <= m -> 0 <= x m /\ 0 <= y m /\ base <= x m + y m) -> 0 <= base ->
  call_priced base (andthen (memoryGasCost n) (fun m => andthen (safe_add (x m) (y m)) (reserve_call_gas env))) s.
Proof.
  intros Hxy Hb. unfold call_priced. apply post_bind.
  pose proof (memory_only_costs n s) as Ho. pose proof (atleast_memory n s) as Hm. unfold post in Hm, Ho. unfold post at 1.
  destruct (memoryGasCost n s) as [[err|m] s1| |]; [by apply post_ret| |done|done]. destruct (Hxy m Hm) as (Hx & Hy & Hxy').
  apply post_bind. unfold safe_add. apply post_ret.
  destruct (SafeAdd_spec (x m) (y m) Hx Hy) as [->| ->]; [by apply post_ret|].
  eapply post_mono; [apply reserve_spec; lia|]. intros r s' [Hc Hr]. split; [by transitivity s1|].
  destruct r as [err|c]; [done|]. lia.
Qed.

Lemma call_priced_then {A} base (m : X A) f s :
  within False (only_costs (St := St)) m -> (forall a s1, only_costs s s1 -> call_priced base (f a) s1) ->
  call_priced base (x ← m; f x) s.
Proof.
  intros Hm Hf. apply post_bind. eapply post_mono; [apply Hm|]. intros a s1 H1.
  eapply post_mono; [by apply Hf|]. intros r s2 [H2 Hr]. split; [by transitivity s1|done].
Qed.

Definition value_fee (value : Z) : Z := if value =? 0 then 0 else CallValueTransferGas.

Lemma value_fee_nonneg value : 0 <= value_fee value.
Proof. unfold value_fee. by destruct (value =? 0). Qed.

Lemma call_base value (empty : bool) :
  let gas := 700 in
  let gas := if empty then u64 (gas + CallNewAccountGas) else gas in
  let gas := if negb (value =? 0) then u64 (gas + CallValueTransferGas) else gas in
  0 <= 700 + value_fee value <= gas.
Proof. unfold value_fee. destruct (value =? 0), empty; simpl; done. Qed.

(** The value is the third item of the stack. *)
Lemma Back_then {A} base pos (f : Z -> X (VmError + A)) s Q :
  (forall v, m_stack s !! pos = Some v -> post base (f v) s Q) -> post base (v ← Back pos; f v) s Q.
Proof.
  intros Hf. apply post_bind. unfold Back, bindM, get_stack, post at 1. simpl.
  destruct (m_stack s !! pos) eqn:E; [|done]. by apply Hf.
Qed.

Lemma gasCall_priced n s value :
  m_stack s !! 2%nat = Some value -> call_priced (700 + value_fee value) (gasCall env n) s.
Proof.
  intros Hv. unfold gasCall, call_priced. apply Back_then. rewrite Hv. intros ? [= <-]. apply Back_then. intros addr _.
  rewrite Henv. simpl. apply (call_priced_then _ (get_account addr)); [unfold get_account; within|]. intros acc s1 _.
  apply (call_priced_then _ _ (fun empty : bool => _)); [within|]. intros empty s2 _.
  apply (call_priced_intro _ n (fun _ => _) (fun m => m)); [|apply (call_base value empty)].
  intros m Hm. pose proof (call_base value empty). simpl in *. lia.
Qed.

Lemma gasCallCode_priced n s value :
  m_stack s !! 2%nat = Some value -> call_priced (700 + value_fee value) (gasCallCode env n) s.
Proof.
  intros Hv. unfold gasCallCode, call_priced. apply Back_then. rewrite Hv. intros ? [= <-]. rewrite Henv. simpl.
  apply (call_priced_intro _ n (fun _ => _) (fun m => m)); [|apply (call_base value false)].
  intros m Hm. pose proof (call_base value false). simpl in *. lia.
Qed.

Lemma gasDelegateCall_priced n s : call_priced 700 (gasDelegateCall env n) s.
Proof. unfold gasDelegateCall. rewrite Henv. apply (call_priced_intro _ n (fun m => m) (fun _ => _)); simpl; lia. Qed.

Lemma gasStaticCall_priced n s : call_priced 700 (gasStaticCall env n) s.
Proof. apply gasDelegateCall_priced. Qed.

Lemma priced_atleast base m s :
  0 <= base -> call_priced base m s -> post False m s (fun r _ => match r with inr c => base <= c | inl _ => True end).
Proof. intros Hb Hp. eapply post_mono; [apply Hp|]. intros [err|c] s' [_ Hc]; [done|lia]. Qed.

Lemma cost_Call n : atleast 700 (gasCall env n).
Proof.
  intros s. unfold atleast. destruct (m_stack s !! 2%nat) as [v|] eqn:E.
  - eapply post_mono; [apply (priced_atleast (700 + value_fee v)); [|by apply gasCall_priced]|];
      pose proof (value_fee_nonneg v); [lia|]. intros [err|c] s' Hc; [done|lia].
  - unfold gasCall. apply Back_then. rewrite E. done.
Qed.

Lemma cost_CallCode n : atleast 700 (gasCallCode env n).
Proof.
  intros s. unfold atleast. destruct (m_stack s !! 2%nat) as [v|] eqn:E.
  - eapply post_mono; [apply (priced_atleast (700 + value_fee v)); [|by apply gasCallCode_priced]|];
      pose proof (value_fee_nonneg v); [lia|]. intros [err|c] s' Hc; [done|lia].
  - unfold gasCallCode. apply Back_then. rewrite E. done.
Qed.

Lemma cost_DelegateCall n : atleast 700 (gasDelegateCall env n).
Proof. intros s. apply (priced_atleast 700); [lia|apply gasDelegateCall_priced]. Qed.

Lemma cost_StaticCall n : atleast 700 (gasStaticCall env n).
Proof. apply cost_DelegateCall. Qed.

(** ** The table *)
Context (vm_call : Z -> ContractRef -> Address -> bytes -> Z -> Z -> M (EVM St) (ret_slice * Z * option VmError)).
Context (vm_create_1 : Address -> bytes -> Z -> Z -> M (EVM St) (bytes * Address * Z * option VmError)).
Context (vm_create_2 : Address -> bytes -> Z -> Z -> Z -> M (EVM St) (bytes * Address * Z * option VmError)).

Definition ends (o : operation (St := St)) : bool := halts (op_flags o) || reverts (op_flags o).

Definition op_costs (o : operation (St := St)) : Prop :=
  forall n, atleast (if ends o then 0 else 1) (gasCost o n).

Definition table_costs (t : list (Z * operation)) : Prop := Forall (fun '(_, o) => op_costs o) t.

Ltac head_costs := match goal with |- atleast _ ?m => let h := head_of m in unfold h end.
Ltac row_costs := intros ?; simpl; repeat first [progress costs_step | rewrite Henv; simpl | consts | solve [match goal with |- _ <= (if ?b then _ else _) => destruct b; done end] | apply atleast_memory | (eapply atleast_le; [apply cost_memory_step|consts]) | (eapply atleast_le; [apply cost_SStore|consts]) | (eapply atleast_le; [apply cost_Call|consts]) | (eapply atleast_le; [apply cost_CallCode|consts])
    | (eapply atleast_le; [first [apply cost_DelegateCall|apply cost_StaticCall]|consts]) | head_costs].
Ltac rows_costs := unfold table_costs; repeat (apply Forall_cons; split; [row_costs|]); try apply List.Forall_nil.

Lemma arithmetic_costs : table_costs (arithmetic_ops env).
Proof. rows_costs. Qed.
Lemma environment_costs : table_costs (environment_ops env).
Proof. rows_costs. Qed.
Lemma memory_costs : table_costs (memory_ops env).
Proof. rows_costs. Qed.
Lemma byzantium_costs : table_costs (byzantium_ops env vm_call vm_create_2).
Proof. rows_costs. Qed.
Lemma system_costs : table_costs (system_ops env vm_call vm_create_1).
Proof. rows_costs. Qed.

Lemma family_costs (f : nat -> Z * operation) l : (forall n, op_costs (f n).2) -> table_costs (f <$> l).
Proof. intros Hf. apply Forall_fmap, Forall_forall. intros n _. specialize (Hf n). simpl. by destruct (f n). Qed.

Lemma instruction_set_costs : table_costs (instruction_set env vm_call vm_create_1 vm_create_2).
Proof.
  assert (Hc : table_costs (newCalifornicumInstructionSet env vm_call vm_create_1 vm_create_2)).
  { unfold newCalifornicumInstructionSet, table_costs. rewrite !Forall_app.
    split_and!; first [apply arithmetic_costs | apply environment_costs | apply memory_costs | apply byzantium_costs
      | apply system_costs | apply family_costs; intros ?; row_costs]. }
  unfold instruction_set. destruct (IsFicus _); [|done]. apply Forall_cons. split; [row_costs|done].
Qed.

Lemma find_op_costs op o :
  find_op (instruction_set env vm_call vm_create_1 vm_create_2) op = Some o -> op_costs o.
Proof.
  intros Hf%find_op_in. pose proof instruction_set_costs as Ht. unfold table_costs in Ht.
  rewrite Forall_forall in Ht. apply (Ht _ Hf).
Qed.

(** ** Calls and creations *)
Lemma pop_then {A} (k : Z -> X A) s Q :
  (forall d st, m_stack s = d :: st -> post False (k d) (set_m_stack st s) Q) -> post False (d ← pop; k d) s Q.
Proof.
  intros Hk. apply post_bind. unfold pop, bindM, get_stack, post at 1. simpl.
  destruct (m_stack s) as [|d st] eqn:E; [done|]. simpl. by apply Hk.
Qed.

(** A step that leaves the gas alone. *)
Lemma same_gas_then {A B} (m : X A) (k : A -> X B) s Q :
  within False same_gas m -> (forall a s', gas_of s' = gas_of s -> post False (k a) s' Q) -> post False (a ← m; k a) s Q.
Proof. intros Hm Hk. apply post_bind. eapply post_mono; [apply Hm|]. intros a s' Hs. by apply Hk. Qed.

Lemma set_gas_left_then {A} g (k : () -> X A) s Q :
  (forall s', gas_of s' = g -> post False (k tt) s' Q) -> post False (a ← set_gas_left g; k a) s Q.
Proof. intros Hk. apply post_bind, post_ret. by apply Hk. Qed.

Lemma read_contract_then {A} (k : Contract -> X A) s Q :
  post False (k (m_contract s)) s Q -> post False (c ← get_contract; k c) s Q.
Proof. intros Hk. by apply post_bind. Qed.

Lemma after_call_spec inOffset inSize retOffset retSize args r returnGas err (s : Machine St) :
  0 <= gas_of s + returnGas < 2 ^ 64 ->
  post False (after_call inOffset inSize retOffset retSize args r returnGas err) s
    (fun _ (s' : Machine St) => gas_of s' = gas_of s + returnGas).
Proof.
  intros Hg. unfold after_call. apply same_gas_then; [within|]. intros _ s1 H1.
  apply same_gas_then; [within|]. intros _ s2 H2. apply read_contract_then, set_gas_left_then. intros s3 H3.
  apply same_gas_then; [within|]. intros b s4 H4. apply post_ret. rewrite H4, H3. fold (gas_of s2).
  rewrite H2, H1. by apply u64_small.
Qed.

Lemma after_create_spec res addr returnGas err (s : Machine St) :
  0 <= gas_of s + returnGas < 2 ^ 64 ->
  post False (after_create res addr returnGas err) s (fun _ (s' : Machine St) => gas_of s' = gas_of s + returnGas).
Proof.
  intros Hg. unfold after_create. apply same_gas_then; [within|]. intros _ s1 H1.
  apply read_contract_then, set_gas_left_then. intros s2 H2. apply post_ret. rewrite H2. fold (gas_of s1).
  rewrite H1. by apply u64_small.
Qed.

(** What calls and creations promise, for at most [bound] gas. *)
Context (bound : Z).
Context (Hcall : forall typ caller callee input gas value e, 0 <= gas < 2 ^ 64 -> gas < bound ->
  post False (vm_call typ caller callee input gas value) e (fun res _ => 0 <= res.1.2 <= gas)).
Context (Hcreate_1 : forall caller input gas value e, 0 <= gas < 2 ^ 64 -> gas < bound ->
  post False (vm_create_1 caller input gas value) e (fun res _ => 0 <= res.1.2 <= gas)).
Context (Hcreate_2 : forall caller input gas value salt e, 0 <= gas < 2 ^ 64 -> gas < bound ->
  post False (vm_create_2 caller input gas value salt) e (fun res _ => 0 <= res.1.2 <= gas)).

Lemma zoom_post {A} (m : M (EVM St) A) (s : Machine St) (P : A -> Prop) :
  post False m (m_evm s) (fun a _ => P a) -> post False (zoom m) s (fun a s' => P a /\ gas_of s' = gas_of s).
Proof. unfold post, zoom. simpl. destruct (m (m_evm s)); done. Qed.

Definition stipend (value : Z) : Z := if value =? 0 then 0 else CallStipend.

Lemma call_with_value_spec typ s value :
  m_stack s !! 2%nat = Some value -> 0 <= gas_of s -> 0 <= call_gas_tmp (m_evm s) ->
  gas_of s + call_gas_tmp (m_evm s) + stipend value < 2 ^ 64 -> call_gas_tmp (m_evm s) + stipend value < bound ->
  post False (call_with_value vm_call typ) s
    (fun _ (s' : Machine St) => gas_of s <= gas_of s' <= gas_of s + call_gas_tmp (m_evm s) + stipend value).
Proof.
  intros Hv Hg Ht Hw Hb. unfold call_with_value. apply pop_then. intros d st Es. rewrite Es in Hv. simpl in Hv.
  apply post_bind, post_ret. simpl. apply pop_then. intros addr st1 E1. simpl in E1. subst st.
  apply pop_then. intros v st2 E2. simpl in E2. subst st1. simpl in Hv. injection Hv as ->.
  assert (Hs : 0 <= stipend value) by (unfold stipend; destruct (value =? 0); done).
  set (gas' := if negb (value =? 0) then u64 (call_gas_tmp (m_evm s) + CallStipend) else call_gas_tmp (m_evm s)).
  assert (Hgas : gas' = call_gas_tmp (m_evm s) + stipend value).
  { unfold gas', stipend in *. destruct (value =? 0); simpl; [lia|]. apply u64_small. lia. }
  do 4 (apply same_gas_then; [within|]; intros ? ? ?). apply same_gas_then; [within|]. intros args s5 H5.
  apply same_gas_then; [within|]. intros callee s6 H6. apply read_contract_then.
  eapply post_bind, post_mono; [apply zoom_post, Hcall; fold gas'; rewrite Hgas; lia|].
  fold gas'. rewrite Hgas. intros [[r g] err] s7 [Hr H7]. simpl in Hr.
  assert (Hsame : gas_of s7 = gas_of s) by (by repeat match goal with Hs : gas_of ?x = _ |- gas_of ?x = _ => rewrite Hs end).
  eapply post_mono; [apply after_call_spec; lia|]. intros b s8 ->. lia.
Qed.

Lemma call_without_value_spec typ s :
  0 <= gas_of s -> 0 <= call_gas_tmp (m_evm s) -> gas_of s + call_gas_tmp (m_evm s) < 2 ^ 64 -> call_gas_tmp (m_evm s) < bound ->
  post False (call_without_value vm_call typ) s (fun _ (s' : Machine St) => gas_of s <= gas_of s' <= gas_of s + call_gas_tmp (m_evm s)).
Proof.
  intros Hg Ht Hw Hb. unfold call_without_value. apply pop_then. intros d st Es.
  apply post_bind, post_ret. simpl.
  do 5 (apply same_gas_then; [within|]; intros ? ? ?). apply same_gas_then; [within|]. intros args s5 H5.
  apply same_gas_then; [within|]. intros callee s6 H6. apply read_contract_then.
  eapply post_bind, post_mono; [apply zoom_post, Hcall; lia|].
  intros [[r g] err] s7 [Hr H7]. simpl in Hr.
  assert (Hsame : gas_of s7 = gas_of s) by (by repeat match goal with Hs : gas_of ?x = _ |- gas_of ?x = _ => rewrite Hs end).
  eapply post_mono; [apply after_call_spec; lia|]. intros b s8 ->. lia.
Qed.

(** What is left of the gas, and what the creation gets. *)
Lemma UseGas_then {A} g (k : () -> X A) s Q :
  g <= gas_of s -> (forall s', gas_of s' = gas_of s - g -> post False (k tt) s' Q) -> post False (a ← UseGas_ g; k a) s Q.
Proof.
  intros Hg Hk. apply post_bind. unfold UseGas_, UseGas, bindM, get_contract, post at 1. simpl.
  unfold gas_of in Hg. rewrite (proj2 (Z.ltb_ge _ _)) by done. simpl. by apply Hk.
Qed.

Lemma div64 g : 0 <= g -> 0 <= g - g / 64 <= g.
Proof. intros Hg. pose proof (Z.div_le_upper_bound g 64 g). pose proof (Z.div_pos g 64). lia. Qed.

Lemma create_spec (m : Z -> M (EVM St) (bytes * Address * Z * option VmError)) (s : Machine St) :
  (forall gas e, 0 <= gas < 2 ^ 64 -> gas < bound -> post False (m gas) e (fun res _ => 0 <= res.1.2 <= gas)) ->
  0 <= gas_of s < 2 ^ 64 -> gas_of s < bound ->
  post False (c ← get_contract; let gas := contract_gas c in let gas := gas - gas / 64 in
              _ ← UseGas_ gas; '(res, addr, returnGas, suberr) ← zoom (m gas); after_create res addr returnGas suberr) s
    (fun _ (s' : Machine St) => 0 <= gas_of s' <= gas_of s).
Proof.
  intros Hm Hg Hb. apply read_contract_then. fold (gas_of s). cbv zeta. pose proof (div64 (gas_of s)) as Hd.
  apply UseGas_then; [lia|]. intros s1 H1.
  eapply post_bind, post_mono; [apply zoom_post, Hm; lia|]. intros [[[r a] g] err] s2 [Hr H2]. simpl in Hr.
  eapply post_mono; [apply after_create_spec; lia|]. intros b s3 ->. lia.
Qed.

Lemma opCreate_spec s : 0 <= gas_of s < 2 ^ 64 -> gas_of s < bound ->
  post False (opCreate vm_create_1) s (fun _ (s' : Machine St) => 0 <= gas_of s' <= gas_of s).
Proof.
  intros Hg Hb. unfold opCreate. do 3 (apply same_gas_then; [within|]; intros ? ? ?).
  apply same_gas_then; [within|]. intros input s4 H4.
  eapply post_mono; [apply (create_spec (fun gas => vm_create_1 _ input gas _))|]; [intros; by apply Hcreate_1|..];
    repeat match goal with Hs : gas_of ?x = _ |- context [gas_of ?x] => rewrite Hs end; try done.
Qed.

Lemma opCreate2_spec s : 0 <= gas_of s < 2 ^ 64 -> gas_of s < bound ->
  post False (opCreate2 vm_create_2) s (fun _ (s' : Machine St) => 0 <= gas_of s' <= gas_of s).
Proof.
  intros Hg Hb. unfold opCreate2. do 4 (apply same_gas_then; [within|]; intros ? ? ?).
  apply same_gas_then; [within|]. intros input s5 H5.
  eapply post_mono; [apply (create_spec (fun gas => vm_create_2 _ input gas _ _))|]; [intros; by apply Hcreate_2|..];
    repeat match goal with Hs : gas_of ?x = _ |- context [gas_of ?x] => rewrite Hs end; try done.
Qed.

(** ** One instruction *)
(** After an instruction the gas has not grown, and it is less unless the run ends. *)
Definition uses_gas (s : Machine St) (r : option (bytes * option VmError)) (s' : Machine St) : Prop :=
  0 <= gas_of s' <= gas_of s /\ (r = None -> gas_of s' < gas_of s).

(** The machine when the operation is executed. *)
Record paid (c : Z) (s s' : Machine St) : Prop := {
  pd_gas : gas_of s' = gas_of s - c;
  pd_stack : m_stack s' = m_stack s;
  pd_tmp : call_gas_tmp (m_evm s') = call_gas_tmp (m_evm s);
}.

Definition resized (s s' : Machine St) : Prop :=
  m_contract s' = m_contract s /\ m_stack s' = m_stack s /\ call_gas_tmp (m_evm s') = call_gas_tmp (m_evm s).

Lemma Resize_post size (s : Machine St) : post False (Resize size) s (fun _ s' => resized s s').
Proof.
  unfold Resize, release, set_pool, set_mem, get_pool, get_mem, bindM, modify_st, ret, post. simpl.
  destruct (size <=? _); [done|]. destruct (using_pool (m_mem s)) eqn:E; simpl; [destruct (_ <=? _); simpl|]; rewrite ?E; done.
Qed.

Lemma pay_spec o n s Q :
  post False (gasCost o n) s (fun r s1 =>
    Q (Some ([], Some ErrOutOfGas)) s1 /\
    match r with inr c => c <= gas_of s1 -> forall s2, paid c s1 s2 -> post False (execute_op o) s2 Q | inl _ => True end) ->
  post False (pay_and_execute o n) s Q.
Proof.
  intros Hc. unfold pay_and_execute. apply post_bind. eapply post_mono; [exact Hc|]. intros r s1 [Hq Hr].
  apply read_contract_then. destruct r as [err|c]; [by apply post_ret|].
  unfold UseGas. fold (gas_of s1). destruct (Z.ltb_spec (gas_of s1) c) as [?|Hle]; [by apply post_ret|].
  apply post_bind, post_ret. set (s2 := set_contract _ s1). apply post_bind.
  apply (post_mono _ _ _ (fun _ s' => resized s2 s')).
  { destruct (0 <? n); [apply Resize_post|by apply post_ret]. }
  intros _ s3 (H1 & H2 & H3). apply Hr; [lia|]. split; [|done..]. unfold gas_of. by rewrite H1.
Qed.

Lemma execute_op_spec o s Q :
  post False (execute o) s (fun r s1 => forall res s2, gas_of s2 = gas_of s1 ->
    (res = None -> ends o = false) -> Q res s2) -> post False (execute_op o) s Q.
Proof.
  intros He. unfold execute_op. apply post_bind. eapply post_mono; [exact He|]. intros r s1 Hq.
  apply same_gas_then; [destruct (returns _); [by intros ?|apply within_ret; apply _]|]. intros _ s2 H2.
  destruct r as [err|res]; [apply post_ret; by apply Hq|]. unfold ends in Hq.
  destruct (reverts (op_flags o)) eqn:Er; [apply post_ret; by apply Hq|].
  destruct (halts (op_flags o)) eqn:Eh; [apply post_ret; by apply Hq|].
  apply same_gas_then; [destruct (negb _); within|]. intros _ s3 H3. apply post_ret. apply Hq; [by rewrite H3|done].
Qed.

Lemma post_conj {A} (m : X A) s (Q1 Q2 : A -> Machine St -> Prop) :
  post False m s Q1 -> post False m s Q2 -> post False m s (fun a s' => Q1 a s' /\ Q2 a s').
Proof. unfold post. by destruct (m s). Qed.

(** An instruction that is not a call. *)
Lemma plain_uses_gas o n s :
  within False same_gas (gasCost o n) -> op_costs o -> within False same_gas (execute o) -> 0 <= gas_of s ->
  post False (pay_and_execute o n) s (uses_gas s).
Proof.
  intros Hsame Hcost Hexec Hg. apply pay_spec. eapply post_mono; [apply post_conj; [apply Hsame|apply Hcost]|].
  intros r s1 [H1 Hr]. split; [unfold uses_gas; rewrite H1; split; [lia|done]|].
  destruct r as [err|c]; [done|]. intros Hc s2 [H2 _ _]. rewrite H1 in *. apply execute_op_spec.
  eapply post_mono; [apply Hexec|]. intros r s3 H3 res s4 H4 Hend. unfold uses_gas. rewrite H4, H3, H2.
  destruct (ends o); (split; [lia|]); intros Hres; [by specialize (Hend Hres)|lia].
Qed.

(** An instruction that pays for what it gives away. *)
Lemma call_uses_gas o n base extra s :
  ends o = false -> 0 <= extra -> extra < base -> 0 <= gas_of s ->
  (call_priced base (gasCost o n) s) ->
  (forall s2, 0 <= gas_of s2 -> 0 <= call_gas_tmp (m_evm s2) -> m_stack s2 = m_stack s ->
     gas_of s2 + call_gas_tmp (m_evm s2) + base <= gas_of s ->
     post False (execute o) s2 (fun _ (s3 : Machine St) => gas_of s2 <= gas_of s3 <= gas_of s2 + call_gas_tmp (m_evm s2) + extra)) ->
  post False (pay_and_execute o n) s (uses_gas s).
Proof.
  intros Hend He Hb Hg Hp Hx. apply pay_spec. eapply post_mono; [apply Hp|]. intros r s1 [[Hcon Hst] Hr].
  assert (H1 : gas_of s1 = gas_of s) by (unfold gas_of; by rewrite Hcon).
  split; [unfold uses_gas; rewrite H1; split; [lia|done]|]. destruct r as [err|c]; [done|].
  intros Hc s2 [H2 Hst2 Htmp]. rewrite H1 in *. destruct Hr as [Ht Hcost]. rewrite <- Htmp in *. apply execute_op_spec.
  eapply post_mono; [apply Hx; [lia|lia|by rewrite Hst2|lia]|].
  intros r s3 H3 res s4 H4 _. unfold uses_gas. rewrite H4. simpl in *. split; [lia|]. intros _. lia.
Qed.

Lemma create_uses_gas o n s :
  atleast 1 (gasCost o n) -> within False same_gas (gasCost o n) -> ends o = false -> 0 <= gas_of s ->
  (forall s2, 0 <= gas_of s2 < gas_of s -> post False (execute o) s2 (fun _ (s3 : Machine St) => 0 <= gas_of s3 <= gas_of s2)) ->
  post False (pay_and_execute o n) s (uses_gas s).
Proof.
  intros Hcost Hsame Hend Hg Hx. apply pay_spec. eapply post_mono; [apply post_conj; [apply Hsame|apply Hcost]|].
  intros r s1 [H1 Hr]. split; [unfold uses_gas; rewrite H1; split; [lia|done]|].
  destruct r as [err|c]; [done|]. intros Hc s2 [H2 _ _]. rewrite H1 in *. apply execute_op_spec.
  eapply post_mono; [apply Hx; lia|]. intros r s3 H3 res s4 H4 _. unfold uses_gas. rewrite H4. simpl in *. split; [lia|]. intros _. lia.
Qed.

Lemma fee_stipend value : 0 <= stipend value < 700 + value_fee value.
Proof. unfold stipend, value_fee. by destruct (value =? 0). Qed.

Lemma value_call_uses_gas typ gas vs mem fl n s :
  halts fl || reverts fl = false -> 0 <= gas_of s < 2 ^ 64 -> gas_of s <= bound ->
  (forall value, m_stack s !! 2%nat = Some value -> call_priced (700 + value_fee value) (gas n) s) ->
  (forall Q, m_stack s !! 2%nat = None -> post False (gas n) s Q) ->
  post False (pay_and_execute (mkOperation (call_with_value vm_call typ) gas vs mem fl) n) s (uses_gas s).
Proof.
  intros Hend Hg Hb Hp Hnone. destruct (m_stack s !! 2%nat) as [value|] eqn:Hv.
  - pose proof (fee_stipend value). apply (call_uses_gas _ _ (700 + value_fee value) (stipend value)); try done; try lia; [by apply Hp|].
    intros s2 H1 H2 H3 H4. eapply post_mono; [apply (call_with_value_spec typ s2 value); [by rewrite H3|lia..]|]. intros; simpl in *; lia.
  - apply pay_spec. by apply Hnone.
Qed.

Lemma table_uses_gas op o n s :
  find_op (instruction_set env vm_call vm_create_1 vm_create_2) op = Some o ->
  0 <= gas_of s < 2 ^ 64 -> gas_of s <= bound -> post False (pay_and_execute o n) s (uses_gas s).
Proof.
  intros Ho Hg Hb. pose proof (find_op_costs _ _ Ho) as Hcost.
  destruct (find_op_within env False same_gas _ _ _ _ _ Ho) as [Hsame _ Hexec]. specialize (Hexec _).
  destruct (is_call op) eqn:Hop; [|apply plain_uses_gas; auto; lia].
  assert (Hcreate : forall o', ends o' = false -> op_costs o' -> atleast 1 (gasCost o' n)).
  { intros o' He Hc'. specialize (Hc' n). by rewrite He in Hc'. }
  apply bool_decide_eq_true in Hop. unfold instruction_set in Ho. rewrite !elem_of_cons, elem_of_nil in Hop.
  destruct_or! Hop; subst op; destruct (IsFicus _); simpl in Ho; injection Ho as <-.
  1,2: apply create_uses_gas; [by apply Hcreate|apply Hsame|done|lia|]; intros; apply opCreate_spec; lia.
  1,2: apply create_uses_gas; [by apply Hcreate|apply Hsame|done|lia|]; intros; apply opCreate2_spec; lia.
  1-4: apply value_call_uses_gas; [done|lia|lia| |];
    [first [apply gasCall_priced|apply gasCallCode_priced]|intros Q Hn; apply Back_then; by rewrite Hn].
  all: apply (call_uses_gas _ _ 700 0); [done|lia|lia|lia|apply gasDelegateCall_priced|];
    intros s2 H1 H2 H3 H4; eapply post_mono; [apply call_without_value_spec; lia|]; intros; simpl in *; lia.
Qed.

Lemma step_uses_gas s :
  0 <= gas_of s < 2 ^ 64 -> gas_of s <= bound ->
  post False (step env vm_call vm_create_1 vm_create_2) s (uses_gas s).
Proof.
  intros Hg Hb. unfold step. apply read_contract_then. apply post_bind, post_ret.
  assert (Hstop : forall err s', gas_of s' = gas_of s -> post False (fails err) s' (uses_gas s)).
  { intros err s' Hs. apply post_ret. unfold uses_gas. rewrite Hs. split; [lia|done]. }
  destruct (find_op _ _) as [o|] eqn:Ho; [|by apply Hstop].
  destruct (find_op_within env False same_gas _ _ _ _ _ Ho) as [_ Hmem _].
  apply post_bind, post_ret. destruct (validateStack _ _); [by apply Hstop|].
  apply same_gas_then; [unfold write_protected; within|]. intros protected s1 H1. destruct protected; [by apply Hstop|].
  apply same_gas_then. { unfold memory_size. destruct (memorySize o); within. }
  intros [err|n] s2 H2; [apply Hstop; by rewrite H2|].
  assert (Hs2 : gas_of s2 = gas_of s) by (by rewrite H2).
  eapply post_mono; [eapply table_uses_gas; [done|lia..]|]. intros r s3. unfold uses_gas. by rewrite Hs2.
Qed.
End gas.

(** ** Runs *)
Section runs.
Context {St : Type} {VS : VmState St} {EW : EvmWords} {CR : Crypto} {NF : NeverFails} (env : TxEnv).
Context (Henv : gas_table env = GasTableCalifornicum).
Context (precompiles : list (option (PrecompiledContract (St := St)))).

(** A precompiled contract has no error result of the monad, and asks for a
    [uint64] of gas. *)
Definition precompiles_total : Prop := forall addr p f, Precompiles_Get precompiles addr = Some p ->
  (forall e, post False (RequiredGas p f) e (fun g _ => 0 <= g)) /\ within False any (Run p f).
Context (Hprecompiles : precompiles_total).

Abbreviation E := (M (EVM St)).

Lemma any_then {A B} (m : E A) (k : A -> E B) e Q :
  within False any m -> (forall a e', post False (k a) e' Q) -> post False (a ← m; k a) e Q.
Proof. intros Hm Hk. apply post_bind. eapply post_mono; [apply Hm|]. intros. apply Hk. Qed.

Lemma sto_any {A} (m : M St A) : within False any m -> within False any (sto m).
Proof. intros Hm e. specialize (Hm (evm_state e)). unfold post, sto, zoom in *. simpl. by destruct (m (evm_state e)). Qed.

Lemma sto_op_any {A} (m : M St A) : vm_op A m -> within False any (sto m).
Proof. intros. by apply sto_any, nf_op. Qed.

Lemma BalanceGTE_any acc val : within False any (sto (BalanceGTE acc val)).
Proof.
  apply sto_any. unfold BalanceGTE. destruct (_ =? _); [by intros ?|]. apply within_bind; [apply _|by apply nf_op; constructor|].
  intros. by intros ?.
Qed.

Lemma transfer_any from to amount : within False any (transfer from to amount).
Proof. apply within_bind; [apply _|by apply sto_op_any; constructor|intros; by apply sto_op_any; constructor]. Qed.

Ltac any_step :=
  match goal with
  | |- post _ (ret _) _ _ => apply post_ret
  | |- post _ (bindM (sto (BalanceGTE _ _)) _) _ _ => apply any_then; [apply BalanceGTE_any|intros ? ?]
  | |- post _ (bindM (sto Snapshot) _) _ _ => apply any_then; [apply sto_any, nf_snapshot|intros ? ?]
  | |- post _ (bindM (sto (RevertToSnapshot _)) _) _ _ => apply any_then; [apply sto_any, nf_revert|intros ? ?]
  | |- post _ (bindM (sto (SetCode _ _)) _) _ _ => apply any_then; [apply sto_any, nf_SetCode|intros ? ?]
  | |- post _ (bindM (sto _) _) _ _ => apply any_then; [apply sto_op_any; solve [eauto with vm_op]|intros ? ?]
  | |- post _ (bindM (transfer _ _ _) _) _ _ => apply any_then; [apply transfer_any|intros ? ?]
  | |- post _ (bindM get_st _) _ _ => apply post_bind, post_ret
  | |- post _ (bindM (if ?b then _ else _) _) _ _ => destruct b
  | |- post _ (bindM (ret _) _) _ _ => apply post_bind, post_ret
  | |- post _ (bindM (bindM _ _) _) _ _ => apply post_bind
  | |- post _ (if ?b then _ else _) _ _ => destruct b
  end.

Section over_run.
Context (bound : Z) (run : Contract -> bool -> E (bytes * option VmError * Z)).
Context (Hrun : forall c ro e, 0 <= contract_gas c < 2 ^ 64 -> contract_gas c < bound ->
  post False (run c ro) e (fun res _ => 0 <= res.2 <= contract_gas c)).

Lemma run_callee_gas typ f callee gas e :
  Gas f = gas -> 0 <= gas < 2 ^ 64 -> gas < bound ->
  post False (run_callee precompiles run typ f callee gas) e (fun res _ => 0 <= res.1.2 <= gas).
Proof.
  intros Hf Hg Hb. unfold run_callee. any_step. destruct (Precompiles_Get precompiles callee) as [p|] eqn:Hp.
  - destruct (Hprecompiles _ _ f Hp) as [Hreq Hr]. apply post_bind. eapply post_mono; [apply Hreq|]. intros g e1 Hg1.
    destruct (Z.leb_spec g gas); [|apply post_ret; simpl; lia]. apply any_then; [done|]. intros [r err] e2. apply post_ret. simpl in *. lia.
  - destruct (negb _); [|apply post_ret; simpl; lia]. any_step.
    apply post_bind. eapply post_mono; [apply Hrun; simpl; unfold contract_gas; simpl; lia|].
    intros [[r err] g] e2 Hg2. apply post_ret. unfold contract_gas in Hg2. simpl in *. lia.
Qed.

Lemma call_with_gas typ caller callee input gas value e :
  0 <= gas < 2 ^ 64 -> gas < bound ->
  post False (call_with precompiles run typ caller callee input gas value) e (fun res _ => 0 <= res.1.2 <= gas).
Proof.
  intros Hg Hb. unfold call_with. any_step. any_step; [apply post_ret; simpl; lia|].
  apply any_then. { destruct (_ && _); [apply BalanceGTE_any|by intros ?]. } intros enough e1.
  any_step; [apply post_ret; simpl; lia|]. any_step.
  apply any_then. { destruct (_ && _); [|by intros ?]. apply within_bind; [apply _|by apply sto_op_any; constructor|]. intros. by intros ?. }
  intros nothing e2. any_step; [apply post_ret; simpl; lia|].
  apply any_then. { destruct (_ =? _); [apply transfer_any|]. destruct (_ =? _); [by apply sto_op_any; constructor|by intros ?]. }
  intros [] e3. apply post_bind. apply (post_mono _ _ _ (fun f _ => Gas f = gas)).
  { unfold call_frame. destruct (_ =? _); [done|]. destruct (_ =? _); [|done]. by destruct caller. }
  intros f e4 Hf. apply post_bind. eapply post_mono; [by apply run_callee_gas|].
  intros [[r g] [err|]] e5 Hg5; simpl in Hg5; [|by apply post_ret].
  any_step. apply post_ret. simpl. destruct (_ && _); lia.
Qed.

Lemma store_code_gas addr r err gas_left e :
  0 <= gas_left -> post False (store_code addr r err gas_left) e (fun res _ => 0 <= res.1 <= gas_left).
Proof.
  intros Hg. unfold store_code. destruct err; [apply post_ret; simpl; lia|]. any_step; [apply post_ret; simpl; lia|].
  destruct (Z.ltb_spec gas_left (u64 (Z.of_nat (length r) * CreateDataGas))); [apply post_ret; simpl; lia|].
  any_step. apply post_ret. simpl. pose proof (u64_range (Z.of_nat (length r) * CreateDataGas)). lia.
Qed.

Lemma create_gas caller code gas value address e :
  0 <= gas < 2 ^ 64 -> gas < bound ->
  post False (create run caller code gas value address) e (fun res _ => 0 <= res.1.2 <= gas).
Proof.
  intros Hg Hb. unfold create. any_step. any_step; [apply post_ret; simpl; lia|].
  apply any_then. { destruct (negb _); [apply BalanceGTE_any|by intros ?]. } intros enough e1.
  any_step; [apply post_ret; simpl; lia|]. any_step. unfold create_at. do 2 any_step.
  apply any_then. { destruct (_ =? _); [by apply sto_op_any; constructor|by intros ?]. } intros size e2.
  any_step; [apply post_ret; simpl; lia|]. do 3 any_step.
  apply post_bind. eapply post_mono; [apply Hrun; unfold contract_gas; simpl; lia|].
  intros [[r err] g] e3 Hg3. unfold contract_gas in Hg3. simpl in Hg3. apply post_bind.
  eapply post_mono; [apply store_code_gas; lia|]. intros [g' [err'|]] e4 Hg4; simpl in Hg4; [|apply post_ret; simpl; lia].
  any_step. apply post_ret. simpl. destruct (bool_decide _); lia.
Qed.

Lemma create_1_gas caller code gas value e :
  0 <= gas < 2 ^ 64 -> gas < bound ->
  post False (create_1 run caller code gas value) e (fun res _ => 0 <= res.1.2 <= gas).
Proof.
  intros Hg Hb. unfold create_1. any_step. destruct (CreateAddress _ _); [|done].
  apply post_bind. eapply post_mono; [by apply create_gas|]. intros [[r g] err] e1 Hg1. by apply post_ret.
Qed.

Lemma create_2_gas caller code gas value salt e :
  0 <= gas < 2 ^ 64 -> gas < bound ->
  post False (create_2 run caller code gas value salt) e (fun res _ => 0 <= res.1.2 <= gas).
Proof.
  intros Hg Hb. unfold create_2. apply post_bind. eapply post_mono; [by apply create_gas|].
  intros [[r g] err] e1 Hg1. by apply post_ret.
Qed.
End over_run.

Lemma Release_gas (s : Machine St) : post False Release s (fun _ s' => same_gas s s').
Proof. assert (Hw : within False (same_gas (St := St)) Release) by (unfold Release; within). apply Hw. Qed.

Lemma run_with_gas bound (loop : M (Machine St) (bytes * option VmError)) :
  (forall s, 0 <= gas_of s < 2 ^ 64 -> gas_of s < bound -> post False loop s (fun _ s' => 0 <= gas_of s' <= gas_of s)) ->
  forall c ro e, 0 <= contract_gas c < 2 ^ 64 -> contract_gas c < bound ->
  post False (run_with loop c ro) e (fun res _ => 0 <= res.2 <= contract_gas c).
Proof.
  intros Hl c ro e Hg Hb. unfold run_with, post. cbv beta zeta.
  match goal with |- context [loop ?x] => set (m0 := x) end. specialize (Hl m0 Hg Hb). unfold post in Hl.
  destruct (loop m0) as [[r err] m1| |]; try done. pose proof (Release_gas m1) as Hr. unfold post in Hr.
  destruct (Release m1) as [[] m2| |]; try done. simpl. fold (gas_of m2). rewrite Hr. exact Hl.
Qed.

Lemma loop_gas fuel s :
  0 <= gas_of s < 2 ^ 64 -> gas_of s < Z.of_nat fuel ->
  post False (loop env precompiles fuel) s (fun _ s' => 0 <= gas_of s' <= gas_of s).
Proof.
  revert s. induction fuel as [|fuel IH]; intros s Hg Hb; [lia|]. simpl.
  pose proof (run_with_gas (Z.of_nat fuel) _ IH) as Hrun.
  apply post_bind. eapply post_mono.
  { apply (step_uses_gas env Henv _ _ _ (Z.of_nat fuel)); try lia; intros;
      [by apply (call_with_gas (Z.of_nat fuel))|by apply (create_1_gas (Z.of_nat fuel))|by apply (create_2_gas (Z.of_nat fuel))]. }
  intros [res|] s1 [Hs1 Hlt]; [by apply post_ret|]. specialize (Hlt eq_refl).
  eapply post_mono; [apply IH; lia|]. intros r s2 Hs2. simpl in Hs2. lia.
Qed.

Lemma run_gas fuel c ro e :
  0 <= contract_gas c < 2 ^ 64 -> contract_gas c < Z.of_nat fuel ->
  post False (run env precompiles fuel c ro) e (fun res _ => 0 <= res.2 <= contract_gas c).
Proof. intros. apply (run_with_gas (Z.of_nat fuel)); [intros; by apply loop_gas|done..]. Qed.

(** C17: every call and creation ends. With more fuel than gas the fuel is
    never exhausted, at any nesting of calls, and the gas that comes back is
    between zero and the gas that was given: an instruction that does not end
    the run costs at least one unit, and a call never receives more than what
    was paid for it. *)
Theorem runs_end fuel typ caller callee input gas value e :
  0 <= gas < 2 ^ 64 -> gas < Z.of_nat fuel ->
  match call_with precompiles (run env precompiles fuel) typ caller callee input gas value e with
  | Done (_, gas_left, _) _ => 0 <= gas_left <= gas
  | Fail _ _ => False
  | Panic _ => True
  end /\
  forall from code, match create_1 (run env precompiles fuel) from code gas value e with
  | Done (_, _, gas_left, _) _ => 0 <= gas_left <= gas
  | Fail _ _ => False
  | Panic _ => True
  end.
Proof.
  intros Hg Hf. assert (Hr := fun c ro e H => run_gas fuel c ro e H). split.
  - pose proof (call_with_gas (Z.of_nat fuel) _ Hr typ caller callee input gas value e Hg Hf) as Hc. unfold post in Hc.
    by destruct (call_with _ _ _ _ _ _ _ _ e) as [[[? ?] ?]| |].
  - intros from code. pose proof (create_1_gas (Z.of_nat fuel) _ Hr from code gas value e Hg Hf) as Hc. unfold post in Hc.
    by destruct (create_1 _ _ _ _ _ e) as [[[[? ?] ?] ?]| |].
Qed.
End runs.
