(* ===== verification/EvmMain.v ===== *)
(** * Transactions on the state of the EVM: [EVM.Main]

    What a transaction pays, which errors leave what untouched, and that no
    transaction is executed twice. *)
From S2P Require Import Prelude Bytes Rlp Crypto Uint256 EvmWord EvmBase EvmMemory EvmGas EvmInstr EvmTable EvmRun StateEvm StateRevert EvmFrame EvmKeeps StateKeeps EvmTermination.
Local Open Scope Z_scope.

(** ** The operations of the state never fail *)
Lemma GetAccountConcrete_any addr : within False any (GetAccountConcrete addr).
Proof. intros s. unfold GetAccountConcrete, post. by destruct (in_curr_version _). Qed.

Ltac total_step :=
  match goal with
  | |- within _ _ (GetAccountConcrete _) => apply GetAccountConcrete_any
  | |- within _ _ get_st => apply within_reads; apply _
  | |- within _ _ (modify_st _) => apply within_modify; intros ?; done
  | _ => within_step
  end.

Lemma RevertToSnapshot_any n : within False any (ts_RevertToSnapshot n).
Proof. intros s. unfold ts_RevertToSnapshot, post. destruct (_ || _); [done|]. by destruct (undo_all _ _). Qed.

#[export] Instance TransitionState_NeverFails `{Crypto} : NeverFails (St := TransitionState).
Proof.
  split.
  - intros A m Hm. destruct Hm; simpl; repeat total_step.
  - by intros s.
  - apply RevertToSnapshot_any.
  - intros addr code. simpl. repeat total_step.
Qed.

(** ** What a transaction may do to the account that pays for it *)
Definition balance_at (s : TransitionState) (a : Address) : Z :=
  match body (load s a) with Some b => acc_Balance (b_acc b) | None => 0 end.

Definition storage_at (s : TransitionState) (a : Address) (key : Z) : Z :=
  match body (load s a) with Some b => state_of (ts_in s) a b key | None => 0 end.

(** Only the account [addr] differs, in its nonce, which is now [n], and in
    its balance, which is less by [d]. *)
Record pays (addr : Address) (d n : Z) (s s' : TransitionState) : Prop := mkPays {
  pays_in : ts_in s' = ts_in s;
  pays_logs : ts_logs s' = ts_logs s;
  pays_refund : refund s' = refund s;
  pays_other a : a <> addr -> same_entry (ts_in s) a (load s' a) (load s a);
  pays_code : code_at s' addr = code_at s addr;
  pays_storage key : storage_at s' addr key = storage_at s addr key;
  pays_balance : balance_at s' addr = balance_at s addr - d;
  pays_nonce : nonce_at s' addr = n;
}.

Lemma pays_trans addr d d' n n' s s' s'' : pays addr d n s s' -> pays addr d' n' s' s'' -> pays addr (d + d') n' s s''.
Proof.
  intros [] []. apply mkPays; try congruence; try lia.
  - intros a Ha. etrans; [|by apply pays_other0]. rewrite <- pays_in0. by apply pays_other1.
Qed.

Lemma same_balance s s' a : same_state s s' -> balance_at s a = balance_at s' a.
Proof. intros Hs. unfold balance_at. destruct (ss_entry _ _ Hs a) as [Hb _ _ _]. destruct Hb as [b b' []|]; done. Qed.

Lemma same_storage s s' a key : same_state s s' -> storage_at s a key = storage_at s' a key.
Proof.
  intros Hs. unfold storage_at. rewrite <- (ss_in _ _ Hs). destruct (ss_entry _ _ Hs a) as [Hb _ _ _]. destruct Hb as [b b' []|]; done.
Qed.

Lemma pays_same addr s s' : same_state s' s -> pays addr 0 (nonce_at s addr) s s'.
Proof.
  intros Hs. apply mkPays; try apply Hs.
  - intros a _. pose proof (ss_entry _ _ Hs a) as He. by rewrite (ss_in _ _ Hs) in He.
  - by apply same_size.
  - intros key. by apply same_storage.
  - rewrite (same_balance _ _ addr Hs). lia.
  - by apply same_nonce.
Qed.

(** A step on the account that is not nil. *)
Lemma pays_changed addr b b' del rs s s' :
  body (load s addr) = Some b -> changed addr (Some b') del rs s s' ->
  body_code b' = body_code b -> (forall i key, state_of i addr b' key = state_of i addr b key) ->
  pays addr (acc_Balance (b_acc b) - acc_Balance (b_acc b')) (acc_Nonce (b_acc b')) s s'.
Proof.
  intros Hb [] Hc Hk. apply mkPays; try done; unfold code_at, storage_at, balance_at, nonce_at; rewrite ?cg_body, ?Hb; try done; try lia.
  - intros a Ha. by rewrite cg_other.
  - intros key. rewrite cg_in. apply Hk.
Qed.

Lemma pays_ensure_exists addr s :
  exists s' b, ensure_exists addr s = Done tt s' /\ pays addr 0 (nonce_at s addr) s s' /\ body (load s' addr) = Some b.
Proof.
  destruct (ensure_exists_changed addr s) as (s' & b & del & rs & E & Hc & Hb). exists s', b. split; [done|].
  split; [|apply (cg_body _ _ _ _ _ _ Hc)]. unfold nonce_at. destruct Hb as [Hb|[Hb ->]]; rewrite Hb.
  - rewrite <- (Z.sub_diag (acc_Balance (b_acc b))). by eapply pays_changed.
  - destruct Hc. apply mkPays; try done; unfold code_at, storage_at, balance_at, nonce_at; rewrite ?cg_body, ?Hb; try done; try lia.
    intros a Ha. by rewrite cg_other.
Qed.

(** Reading a field of an account. *)
Lemma query_run {A} addr (f : option AccountBody -> A) s :
  exists s', (b ← get_body addr; ret (f b)) s = Done (f (body (load s addr))) s' /\ same_state s' s /\
             body (load s' addr) = body (load s addr).
Proof.
  destruct (get_body_run addr s) as (s' & E & Hc). exists s'. rewrite (bind_done _ _ _ _ _ E). split; [done|].
  split; [by eapply same_nil|apply (cg_body _ _ _ _ _ _ Hc)].
Qed.

(** What [ensure_exists] and a query are followed by. *)
Lemma pays_existing {A} addr d n (k : T A) s :
  (forall s1 b, body (load s1 addr) = Some b -> nonce_at s1 addr = nonce_at s addr -> post True k s1 (fun _ s' => pays addr d n s1 s')) ->
  post True (_ ← ensure_exists addr; k) s (fun _ s' => pays addr d n s s').
Proof.
  intros Hk. apply post_bind. destruct (pays_ensure_exists addr s) as (s1 & b & E & H1 & Hb). unfold post at 1. rewrite E.
  eapply post_mono; [eapply Hk; [done|apply H1]|]. intros a s' H2. eapply (pays_trans _ 0 d); [apply H1|done].
Qed.

Lemma pays_query {A B} addr d n (f : option AccountBody -> A) (k : A -> T B) s :
  (forall s1, body (load s1 addr) = body (load s addr) -> post True (k (f (body (load s addr)))) s1 (fun _ s' => pays addr d n s1 s')) ->
  post True (x ← (b ← get_body addr; ret (f b)); k x) s (fun _ s' => pays addr d n s s').
Proof.
  intros Hk. apply post_bind. destruct (query_run addr f s) as (s1 & E & H1 & Hb). unfold post at 1. rewrite E.
  eapply post_mono; [by apply Hk|]. intros a s' H2. eapply (pays_trans _ 0 d); [by apply pays_same|done].
Qed.

(** An update of the body and its entry in the journal. *)
Lemma pays_update addr f r s b :
  body (load s addr) = Some b -> body_code (f b) = body_code b -> (forall i key, state_of i addr (f b) key = state_of i addr b key) ->
  post True (_ ← update_body addr f; register_change addr r) s
    (fun _ s' => pays addr (acc_Balance (b_acc b) - acc_Balance (b_acc (f b))) (acc_Nonce (b_acc (f b))) s s').
Proof.
  intros Hb Hc Hk. apply post_bind. destruct (update_body_run addr f s b Hb) as (s1 & E1 & H1). unfold post at 1. rewrite E1.
  edestruct (register_change_run addr r) as (s2 & E2 & H2); [apply (cg_body _ _ _ _ _ _ H1)|]. unfold post. rewrite E2.
  assert (H12 := changed_trans _ _ _ _ _ _ _ _ _ _ H1 H2).
  exact (pays_changed addr b (tick (f b)) _ _ s s2 Hb H12 Hc Hk).
Qed.

Lemma set_balance_pays addr x s b :
  body (load s addr) = Some b ->
  post True (set_balance addr x) s (fun _ s' => pays addr (acc_Balance (b_acc b) - x) (acc_Nonce (b_acc b)) s s').
Proof.
  intros Hb. unfold set_balance. apply post_bind. destruct (get_body_run addr s) as (s1 & E & Hc). unfold post at 1. rewrite E, Hb.
  eapply post_mono; [apply (pays_update addr (set_b_balance x) _ s1 b); [by rewrite (cg_body _ _ _ _ _ _ Hc)|done..]|].
  intros [] s' H2. eapply (pays_trans _ 0); [apply pays_same; by eapply same_nil|exact H2].
Qed.

Lemma SubBalance_pays addr d s : post True (ts_SubBalance addr d) s (fun _ s' => pays addr d (nonce_at s addr) s s').
Proof.
  apply pays_existing. intros s1 b Hb <-. apply pays_query. intros s2 Hb2. rewrite Hb in *. unfold nonce_at. rewrite Hb.
  destruct (Z.eqb_spec d 0) as [->|Hd]; simpl.
  - apply post_ret. replace (acc_Nonce (b_acc b)) with (nonce_at s2 addr); [by apply pays_same|]. unfold nonce_at. by rewrite Hb2.
  - eapply post_mono; [by apply set_balance_pays|]. intros [] s' H2. by replace d with (acc_Balance (b_acc b) - (acc_Balance (b_acc b) - d)) by lia.
Qed.

Lemma change_nonce_pays addr n s b :
  body (load s addr) = Some b -> post True (change_nonce addr n) s (fun _ s' => pays addr 0 n s s').
Proof.
  intros Hb. unfold change_nonce, ts_GetNonce. apply pays_query. intros s1 Hb1. rewrite Hb in *.
  eapply post_mono; [apply (pays_update addr (set_b_nonce n) _ s1 b); done|]. intros [] s' H2. simpl in H2. by rewrite Z.sub_diag in H2.
Qed.

Lemma SetNonce_pays addr n s : post True (ts_SetNonce addr n) s (fun _ s' => pays addr 0 n s s' /\ nonce_at s addr <= n).
Proof.
  destruct (Z.ltb_spec n (nonce_at s addr)) as [Hlt|Hle].
  - unfold ts_SetNonce. apply post_bind. destruct (pays_ensure_exists addr s) as (s1 & b & E & H1 & Hb). unfold post at 1. rewrite E.
    apply post_bind. destruct (query_run addr (fun b => match b with None => 0 | Some b => acc_Nonce (b_acc b) end) s1) as (s2 & E2 & _ & _).
    unfold post at 1, ts_GetNonce. rewrite E2. pose proof (pays_nonce _ _ _ _ _ H1) as Hn. unfold nonce_at at 1 in Hn. rewrite Hn.
    destruct (Z.ltb_spec n (nonce_at s addr)); [done|lia].
  - apply (post_mono _ _ _ (fun _ s' => pays addr 0 n s s')); [|by intros].
    apply pays_existing. intros s1 b Hb Hn. apply pays_query. intros s2 Hb2. rewrite Hb in *.
    destruct (Z.ltb_spec n (acc_Nonce (b_acc b))); [done|]. by eapply change_nonce_pays.
Qed.

Lemma IncrementNonce_pays addr s : post True (ts_IncrementNonce addr) s (fun _ s' => pays addr 0 (nonce_at s addr + 1) s s').
Proof.
  apply pays_existing. intros s1 b Hb <-. apply pays_query. intros s2 Hb2. rewrite Hb in *. unfold nonce_at. rewrite Hb.
  by eapply change_nonce_pays.
Qed.

Lemma pays_then {A B} addr d d' n n' (m : T A) (k : A -> T B) s :
  post True m s (fun _ s' => pays addr d n s s') ->
  (forall a s', pays addr d n s s' -> post True (k a) s' (fun _ s'' => pays addr d' n' s' s'')) ->
  post True (a ← m; k a) s (fun _ s' => pays addr (d + d') n' s s').
Proof.
  intros Hm Hk. apply post_bind. eapply post_mono; [exact Hm|]. intros a s1 H1. eapply post_mono; [by apply Hk|].
  intros b s2 H2. exact (pays_trans _ _ _ _ _ _ _ _ H1 H2).
Qed.

Lemma touch_pays addr s b :
  body (load s addr) = Some b ->
  post True (_ ← update_body addr (fun b => set_touched (u32 (times_touched b + 1)) b);
             _ ← register_change addr (Some (RevTouch addr));
             when (bool_decide (addr = ripemd_addr)) (update_body addr (fun b => set_mod_count (u32 (mod_count b + 1)) b))) s
    (fun _ s' => pays addr 0 (acc_Nonce (b_acc b)) s s').
Proof.
  intros Hb. set (f := fun b => set_touched (u32 (times_touched b + 1)) b). apply post_bind.
  destruct (update_body_run addr f s b Hb) as (s1 & E1 & H1). unfold post at 1. rewrite E1. apply post_bind.
  edestruct (register_change_run addr) as (s2 & E2 & H2); [apply (cg_body _ _ _ _ _ _ H1)|]. unfold post at 1. rewrite E2.
  assert (H12 := changed_trans _ _ _ _ _ _ _ _ _ _ H1 H2).
  pose proof (pays_changed addr b (tick (f b)) _ _ s s2 Hb H12 eq_refl ltac:(done)) as Hp. simpl in Hp. rewrite Z.sub_diag in Hp.
  case_bool_decide; [|exact Hp]. simpl.
  destruct (update_body_run addr (fun b => set_mod_count (u32 (mod_count b + 1)) b) s2 _ (cg_body _ _ _ _ _ _ H2)) as (s3 & E3 & H3).
  unfold post. rewrite E3. eapply (pays_trans _ 0 0); [exact Hp|].
  pose proof (pays_changed addr (tick (f b)) _ _ _ s2 s3 (cg_body _ _ _ _ _ _ H2) H3 eq_refl ltac:(done)) as Hq.
  simpl in Hq. by rewrite Z.sub_diag in Hq.
Qed.

Lemma AddBalance_pays addr x s : post True (ts_AddBalance addr x) s (fun _ s' => pays addr (- x) (nonce_at s addr) s s').
Proof.
  apply pays_existing. intros s1 b Hb <-. apply pays_query. intros s2 Hb2. rewrite Hb in *. unfold nonce_at. rewrite Hb.
  destruct (Z.eqb_spec x 0) as [->|Hd]; simpl.
  - apply (pays_query addr (- 0)). intros s3 Hb3. rewrite Hb2 in *. destruct (negb _).
    + apply post_ret. replace (acc_Nonce (b_acc b)) with (nonce_at s3 addr); [by apply pays_same|]. unfold nonce_at. by rewrite Hb3.
    + by apply touch_pays.
  - eapply post_mono; [by apply set_balance_pays|]. intros [] s' H2.
    by replace (- x) with (acc_Balance (b_acc b) - (acc_Balance (b_acc b) + x)) by lia.
Qed.

(** ** Creations *)
Lemma post_and {S A} Fl (m : M S A) s (Q Q' : A -> S -> Prop) :
  post Fl m s Q -> post Fl m s Q' -> post Fl m s (fun a s' => Q a s' /\ Q' a s').
Proof. unfold post. destruct (m s); auto. Qed.

Section main.
Context {CR : Crypto} {EW : EvmWords} (env : TxEnv).
Context (precompiles : list (option (PrecompiledContract (St := TransitionState)))).
Context (Hprecompiles : forall addr p f, Precompiles_Get precompiles addr = Some p ->
  within True (on_evm kept) (RequiredGas p f) /\ within True (on_evm kept) (Run p f)).
Context (Htotal : precompiles_total precompiles) (Henv : gas_table env = GasTableCalifornicum).

Abbreviation E := (M (EVM TransitionState)).
Abbreviation at_ e := (evm_state e).

Lemma sto_then {A B} (m : T A) (k : A -> E B) e Q Q' :
  post True m (at_ e) Q -> (forall a e', Q a (at_ e') -> depth e' = depth e -> post True (k a) e' Q') ->
  post True (a ← sto m; k a) e Q'.
Proof.
  intros Hm Hk. apply post_bind. unfold post in Hm. unfold post at 1, sto, zoom. simpl.
  destruct (m (at_ e)) eqn:Em; try done. by apply Hk.
Qed.

Lemma create_at_post fuel caller code gas value address e :
  post True (create_at (run env precompiles fuel) caller code gas value address) e
    (fun res e' => res.2 <> None -> same_state (at_ e') (at_ e)).
Proof.
  unfold create_at. apply (sto_then _ _ _ (fun _ s => same_state s (at_ e))).
  { apply post_bind. destruct (GetAccountConcrete_run address (at_ e)) as (s1 & E1 & H1). unfold post at 1. rewrite E1.
    apply post_ret. by eapply same_nil. }
  intros [] e1 H1 _. apply sto_eq. intros nonce e2 E2. assert (H2 : same_state (at_ e2) (at_ e)).
  { destruct (query_run address (fun b => match b with None => 0 | Some b => acc_Nonce (b_acc b) end) (at_ e1)) as (s2 & E2' & H2 & _).
    change (ts_GetNonce address (at_ e1) = Done nonce (at_ e2)) in E2. unfold ts_GetNonce in E2. rewrite E2' in E2.
    injection E2 as _ <-. by rewrite H2. }
  destruct (Z.eqb_spec nonce 0) as [->|Hn]; [|by apply post_ret].
  apply sto_eq. intros size e3 E3. assert (H3 : same_state (at_ e3) (at_ e)).
  { destruct (query_run address (fun b => match b with None => 0 | Some b => acc_CodeSize (b_acc b) end) (at_ e2)) as (s3 & E3' & H3 & _).
    change (ts_GetCodeSize address (at_ e2) = Done size (at_ e3)) in E3. unfold ts_GetCodeSize in E3. rewrite E3' in E3.
    injection E3 as _ <-. by rewrite H3. }
  destruct (Z.eqb_spec size 0) as [->|Hs]; [|by apply post_ret].
  apply (sto_snapshot kept). intros n e4 Hsn _. apply sto_eq. intros [] e5 E5.
  eapply (within_then kept _ _ e5); [apply transfer_within; apply kept_rel|reflexivity|]. intros [] e6 H6.
  eapply (within_then kept _ _ e5); [by apply run_keeps|done|]. intros [[r err] gas_left] e7 H7.
  apply post_bind. eapply post_mono; [by eapply (store_code_within kept)|]. intros [gas' [err'|]] e8 [_ H8]; [|by apply post_ret].
  rewrite (H8 ltac:(done)). assert (H47 : on_evm kept e4 e7).
  { transitivity e5; [|done]. eapply (op_rel kept); [apply (vo_IncrementNonce address)|exact E5]. }
  apply post_bind. eapply post_mono; [exact (revert_same e3 e4 e7 n Hsn H47)|].
  intros [] e9 H9. apply post_ret. intros _. by rewrite H9.
Qed.

Lemma create_post fuel caller code gas value address e :
  post True (create (run env precompiles fuel) caller code gas value address) e (fun res e' =>
    (res.2 <> None -> exists n, nonce_at (at_ e) caller <= n <= nonce_at (at_ e) caller + 1 /\ pays caller 0 n (at_ e) (at_ e')) /\
    (depth e <= CallCreateDepth -> res.2 <> Some ErrInsufficientBalanceForTransfer ->
     nonce_at (at_ e) caller + 1 <= nonce_at (at_ e') caller)).
Proof.
  set (n0 := nonce_at (at_ e) caller). unfold create. apply post_bind, post_ret.
  assert (Hstop : forall err e', same_state (at_ e') (at_ e) -> (depth e <= CallCreateDepth -> err = Some ErrInsufficientBalanceForTransfer) ->
    (err <> None -> exists n, n0 <= n <= n0 + 1 /\ pays caller 0 n (at_ e) (at_ e')) /\
    (depth e <= CallCreateDepth -> err <> Some ErrInsufficientBalanceForTransfer -> n0 + 1 <= nonce_at (at_ e') caller)).
  { intros err e' Hs He. split; [|intros Hd Hne; by destruct Hne; auto]. intros _. exists n0. split; [lia|]. by apply pays_same. }
  destruct (Z.ltb_spec CallCreateDepth (depth e)); [apply post_ret, Hstop; [reflexivity|lia]|].
  apply post_bind. apply (post_mono _ _ _ (fun _ e' => same_state (at_ e') (at_ e))).
  { destruct (negb _); [|by apply post_ret]. apply post_run; [|done]. intros b e' Eb. by eapply BalanceGTE_same. }
  intros enough e1 H1. destruct (negb enough); [by apply post_ret, Hstop|].
  eapply sto_then; [apply IncrementNonce_pays|]. intros [] e2 H2 _.
  assert (Hn : nonce_at (at_ e1) caller = n0) by (by apply same_nonce). rewrite Hn in H2.
  eapply post_mono; [apply post_and; [apply create_at_post|]|].
  - apply (create_at_within kept). intros. by apply run_keeps.
  - intros [[r g] err] e3 [Hf Hk]. simpl in *. pose proof (pays_nonce _ _ _ _ _ H2) as Hn2. split.
    + intros Herr. exists (n0 + 1). split; [lia|]. apply (pays_trans _ 0 0 n0 _ _ (at_ e1)); [rewrite <- Hn; by rewrite Hn; apply pays_same|].
      apply (pays_trans _ 0 0 (n0 + 1) _ _ (at_ e2)); [done|]. rewrite <- Hn2. apply pays_same. auto.
    + intros _ _. rewrite <- Hn2. apply (kept_used _ _ Hk caller).
Qed.

(** ** The call or creation of a transaction *)
Abbreviation caller := (tx_From (trx env)).
Abbreviation nonce_ := (tx_Nonce (trx env)).

Lemma main_call_post fuel gas e :
  post True (main_call env precompiles fuel gas) e (fun res e' =>
    (res.2 <> None -> exists n, nonce_at (at_ e) caller <= n <= nonce_ + 1 /\ pays caller 0 n (at_ e) (at_ e')) /\
    (depth e <= CallCreateDepth -> res.2 <> Some ErrInsufficientBalanceForTransfer -> nonce_ + 1 <= nonce_at (at_ e') caller) /\
    (0 <= refund (at_ e) -> 0 <= refund (at_ e'))).
Proof.
  unfold main_call. destruct (tx_To (trx env)) as [to|].
  - apply (sto_then _ _ _ (fun _ s => same_state s (at_ e))).
    { apply post_bind. destruct (GetAccountConcrete_run to (at_ e)) as (s1 & E1 & H1). unfold post at 1. rewrite E1.
      apply post_ret. by eapply same_nil. }
    intros [] e1 H1 _. eapply sto_then; [apply SetNonce_pays|]. intros [] e2 [H2 Hle] _. apply post_bind.
    eapply post_mono; [apply post_and; [by apply failed_call_post|]|].
    { apply (call_with_within kept); [done|]. intros. by apply run_keeps. }
    intros [[r g] err] e3 [Hf Hk]. apply post_ret. simpl in *.
    rewrite (same_nonce _ _ caller H1) in Hle. assert (H02 : pays caller 0 (nonce_ + 1) (at_ e) (at_ e2)).
    { apply (pays_trans _ 0 0 (nonce_at (at_ e) caller) _ _ (at_ e1)); [by apply pays_same|done]. }
    pose proof (pays_nonce _ _ _ _ _ H02) as Hn. split_and!.
    + intros Herr. exists (nonce_ + 1). split; [lia|]. apply (pays_trans _ 0 0 (nonce_ + 1) _ _ (at_ e2)); [done|].
      rewrite <- Hn. apply pays_same. auto.
    + intros _ _. rewrite <- Hn. apply (kept_used _ _ Hk caller).
    + intros Hr. apply (kept_refund _ _ Hk). by rewrite (pays_refund _ _ _ _ _ H02).
  - eapply sto_then; [apply SetNonce_pays|]. intros [] e1 [H1 Hle] Hd. unfold create_1.
    eapply sto_then; [apply (post_run _ _ _ (fun _ s => same_state s (at_ e1))); [|done]|].
    { intros n s E. destruct (query_run caller (fun b => match b with None => 0 | Some b => acc_Nonce (b_acc b) end) (at_ e1)) as (s' & E' & Hs & _).
      change (ts_GetNonce caller (at_ e1) = Done n s) in E. unfold ts_GetNonce in E. rewrite E' in E. by injection E as _ <-. }
    intros n e2 H2 Hd2. destruct (CreateAddress caller n) as [a|]; [|done]. apply post_bind.
    eapply post_mono; [apply post_and; [apply create_post|]|].
    { apply (create_within kept). intros. by apply run_keeps. }
    intros [[r g] err] e3 [[Hf Hn] Hk]. apply post_ret. simpl in *.
    assert (H02 : pays caller 0 nonce_ (at_ e) (at_ e2)).
    { pose proof (pays_nonce _ _ _ _ _ H1) as Hn1. apply (pays_trans _ 0 0 nonce_ _ _ (at_ e1)); [done|]. rewrite <- Hn1. by apply pays_same. }
    pose proof (pays_nonce _ _ _ _ _ H02) as Hn2. rewrite Hn2 in *. split_and!.
    + intros Herr. destruct (Hf Herr) as (m & Hm & Hp). exists m. split; [lia|]. by apply (pays_trans _ 0 0 nonce_ m _ (at_ e2)).
    + intros Hd'. apply Hn. lia.
    + intros Hr. apply (kept_refund _ _ Hk). by rewrite (pays_refund _ _ _ _ _ H02).
Qed.

Lemma main_call_gas fuel gas e :
  0 <= gas < 2 ^ 64 -> gas < Z.of_nat fuel ->
  post False (main_call env precompiles fuel gas) e (fun res _ => 0 <= res.1.2 <= gas).
Proof.
  intros Hg Hf. assert (Hr := fun c ro e H => run_gas env Henv precompiles Htotal fuel c ro e H).
  unfold main_call. destruct (tx_To (trx env)) as [to|].
  - apply any_then; [by apply sto_op_any; constructor|]. intros [] e1. apply any_then; [by apply sto_op_any; constructor|]. intros [] e2.
    apply post_bind. eapply post_mono; [by apply (call_with_gas precompiles Htotal (Z.of_nat fuel))|].
    intros [[r g] err] e3 H3. exact H3.
  - apply any_then; [by apply sto_op_any; constructor|]. intros [] e1.
    eapply post_mono; [by apply (create_1_gas (Z.of_nat fuel))|]. intros [[[r a] g] err] e2 H2. exact H2.
Qed.

(** ** [Main] *)
Abbreviation cap := (tx_Gas (trx env)).
Abbreviation price := (tx_GasPrice (trx env)).

Record outcome (s : TransitionState) (res : ExecutionResult) (s' : TransitionState) : Prop := mkOutcome {
  out_bounds : 0 <= GasUsed res <= cap;
  out_failed : ConsensusErr res <> None \/ ExecutionErr res <> None ->
    exists n, nonce_at s caller <= n <= Z.max (nonce_at s caller) (nonce_ + 1) /\ pays caller (GasUsed res * price) n s s';
  out_executed : ConsensusErr res = None ->
    nonce_ + 1 <= nonce_at s' caller /\
    exists g, IntrinsicGas (tx_Input (trx env)) (match tx_To (trx env) with None => true | Some _ => false end) = inr g /\ g <= 2 * GasUsed res;
}.

Lemma sto_sure {A B} (m : T A) (k : A -> E B) e Q Q' :
  within False any m -> post True m (at_ e) Q ->
  (forall a e', Q a (at_ e') -> depth e' = depth e -> post False (k a) e' Q') -> post False (a ← sto m; k a) e Q'.
Proof.
  intros Hs Hm Hk. specialize (Hs (at_ e)). apply post_bind. unfold post in Hm, Hs. unfold post at 1, sto, zoom. simpl.
  destruct (m (at_ e)) eqn:Em; try done. by apply Hk.
Qed.

(** A transaction that is refused. *)
Lemma refused_post g err n s e :
  0 <= g <= cap -> nonce_at s caller <= n <= Z.max (nonce_at s caller) (nonce_ + 1) -> pays caller (g * price) n s (at_ e) ->
  forall r, post False (_ ← modify_st (set_jumpdests None); ret (consensusErr r g err, None (A := VmError))) e (fun res e' => outcome s res.1 (at_ e')).
Proof. intros Hg Hn Hp r. apply post_bind, post_ret. split; simpl; [done| |done]. intros _. eauto. Qed.

(** Since Cornus the nonce of a refused transaction is used up. *)
Lemma skip_nonce_post {B} (c : bool) (k : E B) e s d n Q :
  pays caller d n s (at_ e) -> n = nonce_at s caller ->
  (forall e' n', pays caller d n' s (at_ e') -> nonce_at s caller <= n' <= Z.max (nonce_at s caller) (nonce_ + 1) -> post False k e' Q) ->
  post False (_ ← when c (sto (SetNonce caller (nonce_ + 1))); k) e Q.
Proof.
  intros Hp Hn Hk. destruct c; simpl.
  - eapply sto_sure; [by apply (nf_op (NeverFails := TransitionState_NeverFails)); constructor|apply SetNonce_pays|].
    intros [] e1 [H1 Hle] _. rewrite (pays_nonce _ _ _ _ _ Hp), Hn in Hle.
    apply (Hk _ (nonce_ + 1)); [|lia]. replace d with (d + 0) by lia. by eapply pays_trans.
  - apply post_bind, post_ret. apply (Hk _ n); [done|lia].
Qed.

Lemma enough_post e :
  post False (if negb (bool_decide (caller = ZeroAddress)) then sto (BalanceGTE caller (cap * price)) else ret true) e
    (fun enough e' => same_state (at_ e') (at_ e) /\ depth e' = depth e /\
       (enough = false -> cap * price <> 0 /\ balance_at (at_ e) caller < cap * price)).
Proof.
  destruct (negb _); [|by apply post_ret]. unfold BalanceGTE. destruct (Z.eqb_spec (cap * price) 0); [done|].
  unfold post, sto, zoom. simpl.
  destruct (query_run caller (fun b => match b with None => 0 | Some b => acc_Balance (b_acc b) end) (at_ e)) as (s' & E & Hs & _).
  change (b ← ts_GetBalance caller; ret (cap * price <=? b)) with
    (b ← (b ← get_body caller; ret (match b with None => 0 | Some b => acc_Balance (b_acc b) end)); ret (cap * price <=? b)).
  rewrite (bind_done _ _ _ _ _ E). simpl. split; [done|]. split; [done|]. intros Hb. split; [done|].
  apply Z.leb_gt in Hb. exact Hb.
Qed.

Lemma nf {A} (m : T A) : vm_op A m -> within False any m.
Proof. apply (nf_op (NeverFails := TransitionState_NeverFails)). Qed.

(** The part of [Main] after the fee has been taken. *)
Lemma executed_post fuel gas_intrinsic s e :
  IntrinsicGas (tx_Input (trx env)) (match tx_To (trx env) with None => true | Some _ => false end) = inr gas_intrinsic ->
  0 <= gas_intrinsic <= cap -> cap < 2 ^ 64 -> cap < Z.of_nat fuel -> depth e <= CallCreateDepth -> 0 <= refund (at_ e) ->
  pays caller (cap * price) (nonce_at s caller) s (at_ e) ->
  post False ('(r, addr, gas_left, err) ← main_call env precompiles fuel (cap - gas_intrinsic);
      let ret_ := mkExecutionResult r addr [] 0 None None in
      if bool_decide (err = Some ErrInsufficientBalanceForTransfer) then
        _ ← modify_st (set_jumpdests None);
        ret (consensusErr ret_ cap ErrInsufficientBalanceForTransfer, None)
      else
        refund ← sto GetRefund;
        let gas_left := u64 (gas_left + Z.min refund (u64 (cap - gas_left) / 2)) in
        logs ← sto GetLogs;
        _ ← sto (AddBalance caller (gas_left * price));
        _ ← modify_st (set_jumpdests None);
        ret (mkExecutionResult r addr logs (u64 (cap - gas_left)) err None, err)) e (fun res e' => outcome s res.1 (at_ e')).
Proof.
  intros Hi Hg Hc Hf Hd Hr Hp. apply post_bind. pose proof (main_call_post fuel (cap - gas_intrinsic) e) as Hm.
  pose proof (main_call_gas fuel (cap - gas_intrinsic) e ltac:(lia) ltac:(lia)) as Hm'.
  unfold post at 1. unfold post in Hm, Hm'. destruct (main_call _ _ _ _ e) as [[[[r addr] g] err] e1| |]; try done.
  simpl in Hm, Hm'. destruct Hm as (H1 & H2 & H3). rewrite (pays_nonce _ _ _ _ _ Hp) in H1. case_bool_decide as He.
  - destruct H1 as (n & Hn & Hp1); [by rewrite He|]. eapply refused_post; [lia|split; [apply Hn|lia]|].
    replace (cap * price) with (cap * price + 0) by lia. by eapply pays_trans.
  - apply (sto_sure _ _ _ (fun x t => x = refund (at_ e1) /\ t = at_ e1)); [apply nf; constructor|by split|]. intros rf e2 [-> E2] _.
    set (used := u64 (cap - g)). assert (Hused : used = cap - g) by (apply u64_small; lia). specialize (H3 Hr).
    set (back := u64 (g + Z.min (refund (at_ e1)) (used / 2))).
    clearbody used. assert (Hu0 : 0 <= used / 2) by (apply Z.div_pos; lia).
    assert (Hmin : 0 <= Z.min (refund (at_ e1)) (used / 2) <= used / 2) by lia.
    assert (Hdiv : 2 * (used / 2) <= used) by (apply Z.mul_div_le; lia).
    assert (Hback : back = g + Z.min (refund (at_ e1)) (used / 2)) by (apply u64_small; lia). clearbody back.
    apply (sto_sure _ _ _ (fun _ t => t = at_ e2)); [apply nf; constructor|done|]. intros logs e3 E3 _.
    eapply sto_sure; [by apply nf; constructor|apply AddBalance_pays|]. intros [] e4 H4 _. apply post_bind, post_ret.
    rewrite E3, E2 in H4. split; simpl.
    + rewrite u64_small; lia.
    + intros [Hx|Hx]; [done|]. destruct (H1 Hx) as (n & Hn & Hp1). exists n. split; [lia|].
      rewrite (pays_nonce _ _ _ _ _ Hp1) in H4. rewrite u64_small by lia.
      replace ((cap - back) * price) with (cap * price + (0 + - (back * price))) by lia.
      eapply pays_trans; [done|]. by eapply pays_trans.
    + intros _. split; [rewrite (pays_nonce _ _ _ _ _ H4); auto|]. exists gas_intrinsic. split; [done|].
      rewrite u64_small; lia.
Qed.

Lemma IntrinsicGas_nonneg data creation g : IntrinsicGas data creation = inr g -> 0 <= g.
Proof.
  unfold IntrinsicGas. destruct (_ <? _); [|intros [= <-]; by destruct creation].
  destruct (_ <? _); [done|]. destruct (_ <? _); [done|]. intros [= <-]. apply u64_range.
Qed.

(** The reads [Main] starts with. *)
Lemma main_reads_post {B} (k : Z -> E B) e Q :
  (forall e', same_state (at_ e') (at_ e) -> depth e' = depth e -> post False (k (nonce_at (at_ e) caller)) e' Q) ->
  post False (_ ← sto (GetAccount caller); sender_nonce ← sto (GetNonce caller); k sender_nonce) e Q.
Proof.
  intros Hk. apply (sto_sure _ _ _ (fun _ s => same_state s (at_ e))); [apply nf; constructor|..].
  { apply post_bind. destruct (GetAccountConcrete_run caller (at_ e)) as (s1 & E1 & H1). unfold post at 1. rewrite E1.
    apply post_ret. by eapply same_nil. }
  intros [] e1 H1 D1. apply (sto_sure _ _ _ (fun n s => n = nonce_at (at_ e) caller /\ same_state s (at_ e))); [apply nf; constructor|..].
  { destruct (query_run caller (fun b => match b with None => 0 | Some b => acc_Nonce (b_acc b) end) (at_ e1)) as (s' & E' & Hs & _).
    unfold post. simpl. unfold ts_GetNonce. rewrite E'. split; [by apply (same_nonce (at_ e1) (at_ e) caller)|by rewrite Hs]. }
  intros n e2 [-> H2] D2. apply Hk; [done|congruence].
Qed.

Lemma main_post fuel e :
  0 <= cap < 2 ^ 64 -> 0 <= price -> cap < Z.of_nat fuel -> depth e <= CallCreateDepth -> 0 <= refund (at_ e) ->
  0 <= balance_at (at_ e) caller ->
  post False (Main env precompiles fuel) e (fun res e' => outcome (at_ e) res.1 (at_ e')).
Proof.
  intros Hc Hpr Hf Hd Hr Hb. unfold Main. apply main_reads_post. intros e1 H1 D1.
  apply post_bind. eapply post_mono; [apply enough_post|]. intros enough e2 (H2 & D2 & Hn). cbv beta.
  destruct enough; simpl negb; cbv iota.
  2: { destruct (Hn eq_refl) as [Hne Hlt]. rewrite (same_balance _ _ caller H1) in Hlt. set (bal := balance_at (at_ e) caller) in *.
    assert (Hp0 : 0 < price) by nia.
    assert (Hq : 0 <= bal / price < cap) by (split; [by apply Z.div_pos|apply Z.div_lt_upper_bound; lia]).
    apply (sto_sure _ _ _ (fun b s => b = bal /\ same_state s (at_ e))); [apply nf; constructor|..].
    { destruct (query_run caller (fun b => match b with None => 0 | Some b => acc_Balance (b_acc b) end) (at_ e2)) as (s' & E' & Hs & _).
      assert (He2 : same_state (at_ e2) (at_ e)) by (by rewrite H2).
      unfold post. simpl. unfold ts_GetBalance. rewrite E'. split; [by apply (same_balance (at_ e2) (at_ e) caller)|by rewrite Hs]. }
    intros b e3 [-> H3] _. eapply sto_sure; [apply nf; constructor|apply SubBalance_pays|]. intros [] e4 H4 _.
    assert (Hpay : pays caller (bal / price * price) (nonce_at (at_ e) caller) (at_ e) (at_ e4)).
    { rewrite (same_nonce _ _ caller H3) in H4. apply (pays_trans _ 0 _ (nonce_at (at_ e) caller) _ _ (at_ e3)); [by apply pays_same|done]. }
    eapply skip_nonce_post; [done|done|]. intros e5 n H5 Hn5. eapply refused_post; rewrite ?u64_small by lia; [lia|done|done]. }
  eapply sto_sure; [apply nf; constructor|apply SubBalance_pays|]. intros [] e3 H3 D3.
  assert (H02 : same_state (at_ e2) (at_ e)) by (by rewrite H2).
  assert (Hpay : pays caller (cap * price) (nonce_at (at_ e) caller) (at_ e) (at_ e3)).
  { rewrite (same_nonce _ _ caller H02) in H3. apply (pays_trans _ 0 _ (nonce_at (at_ e) caller) _ _ (at_ e2)); [by apply pays_same|done]. }
  destruct (Z.ltb_spec nonce_ (nonce_at (at_ e) caller)); [by eapply refused_post; [lia|split; [reflexivity|lia]|]|].
  destruct (IntrinsicGas _ _) as [err|g] eqn:Hi.
  { eapply skip_nonce_post; [done|done|]. intros e5 n H5 Hn5. by eapply refused_post; [lia|done|]. }
  pose proof (IntrinsicGas_nonneg _ _ _ Hi). destruct (Z.ltb_spec cap g).
  { eapply skip_nonce_post; [done|done|]. intros e5 n H5 Hn5. by eapply refused_post; [lia|done|]. }
  apply (executed_post fuel g); try done; try lia. by rewrite (pays_refund _ _ _ _ _ Hpay).
Qed.

Lemma stale_post fuel e :
  nonce_ < nonce_at (at_ e) caller -> post True (Main env precompiles fuel) e (fun res _ => ConsensusErr res.1 <> None).
Proof.
  intros Hn. assert (Hl : forall m : E (ExecutionResult * option VmError), post False m e (fun res _ => ConsensusErr res.1 <> None) ->
    post True m e (fun res _ => ConsensusErr res.1 <> None)) by (intros m; unfold post; by destruct (m e)).
  apply Hl. clear Hl. unfold Main. apply main_reads_post. intros e1 H1 D1.
  apply post_bind. eapply post_mono; [apply enough_post|]. intros enough e2 _. cbv beta. destruct enough; simpl negb; cbv iota.
  - apply any_then; [by apply sto_any, nf; constructor|]. intros [] e3. destruct (Z.ltb_spec nonce_ (nonce_at (at_ e) caller)); [done|lia].
  - apply any_then; [by apply sto_any, nf; constructor|]. intros b e3. apply any_then; [by apply sto_any, nf; constructor|]. intros [] e4.
    apply any_then; [|done]. destruct (_ && _); [by apply sto_any, nf; constructor|by intros ?].
Qed.

Context (Hcap : 0 <= cap < 2 ^ 64) (Hprice : 0 <= price).

(** C20: executing a transaction ends within its gas: with more fuel than gas
    the fuel is never exhausted, the gas used is at most the gas of the
    transaction, and if the transaction is executed it is at least half its
    intrinsic gas, however much the program refunds. *)
Theorem main_gas_bounded fuel e :
  cap < Z.of_nat fuel -> depth e <= CallCreateDepth -> 0 <= refund (at_ e) -> 0 <= balance_at (at_ e) caller ->
  match Main env precompiles fuel e with
  | Done (res, _) _ =>
      0 <= GasUsed res <= cap /\
      (ConsensusErr res = None ->
       exists g, IntrinsicGas (tx_Input (trx env)) (match tx_To (trx env) with None => true | Some _ => false end) = inr g /\ g <= 2 * GasUsed res)
  | Fail _ _ => False
  | Panic _ => True
  end.
Proof.
  intros Hf Hd Hr Hb. pose proof (main_post fuel e Hcap Hprice Hf Hd Hr Hb) as Hp. unfold post in Hp.
  destruct (Main _ _ _ _) as [[res ex] e'| |]; try done. destruct Hp as [Ho _ He]. split; [done|]. intros Hx. by apply He.
Qed.

(** C16: a transaction that is refused or whose execution fails changes no
    account but its sender's, except the raw storage of the DPOS and the
    slashing contract, which keeps what the failed execution has made them
    write ([same_body] in [StateRevert]); of the sender it changes only the
    nonce, which does not fall and is at most one more than that of the
    transaction, and the balance, which is less by exactly the gas used times
    the gas price; no log and no refund is left. *)
Theorem failed_transaction_pays_gas fuel e res ex e' :
  cap < Z.of_nat fuel -> depth e <= CallCreateDepth -> 0 <= refund (at_ e) -> 0 <= balance_at (at_ e) caller ->
  Main env precompiles fuel e = Done (res, ex) e' -> ConsensusErr res <> None \/ ExecutionErr res <> None ->
  exists n, nonce_at (at_ e) caller <= n <= Z.max (nonce_at (at_ e) caller) (nonce_ + 1) /\
            pays caller (GasUsed res * price) n (at_ e) (at_ e').
Proof.
  intros Hf Hd Hr Hb E Herr. pose proof (main_post fuel e Hcap Hprice Hf Hd Hr Hb) as Hp. unfold post in Hp. rewrite E in Hp.
  by apply Hp.
Qed.

(** C19: no transaction is executed twice: once it has been executed, with or
    without an error, it is refused in every later state whose nonce of the
    sender is at least the one it left. *)
Theorem no_replay fuel fuel' e res ex e' e2 res2 ex2 e2' :
  cap < Z.of_nat fuel -> depth e <= CallCreateDepth -> 0 <= refund (at_ e) -> 0 <= balance_at (at_ e) caller ->
  Main env precompiles fuel e = Done (res, ex) e' -> ConsensusErr res = None ->
  nonce_at (at_ e') caller <= nonce_at (at_ e2) caller ->
  Main env precompiles fuel' e2 = Done (res2, ex2) e2' -> ConsensusErr res2 <> None.
Proof.
  intros Hf Hd Hr Hb E Hx Hn E2. pose proof (main_post fuel e Hcap Hprice Hf Hd Hr Hb) as Hp. unfold post in Hp. rewrite E in Hp.
  destruct (out_executed _ _ _ Hp Hx) as [Hn' _]. pose proof (stale_post fuel' e2 ltac:(lia)) as Hs. unfold post in Hs. by rewrite E2 in Hs.
Qed.
End main.
