(* ===== verification/EvmContracts.v ===== *)
(** * The precompiled contracts of Ethereum: [core/vm/contracts.go]

    Gas and parsing of every contract of the two tables, over what the Go
    code imports for the mathematics: the hashes, the compression function of
    BLAKE2b and the curves are the operations of [Curves].  [crypto/bn256],
    vendored under src, is one of them. *)
From S2P Require Import Prelude Bytes Rlp RlpEncode RlpDecode RlpRoundtrip RlpRaw Crypto Uint256 EvmWord EvmBase EvmMemory EvmGas EvmRun EvmFrame EvmKeeps EvmTermination.
Local Open Scope Z_scope.
Local Close Scope go_scope.

(** ** What is imported *)
Class Curves : Type := {
  Sum256 : bytes -> bytes;
  Ripemd160 : bytes -> bytes;
  (** [blake2b.F]: state, message, offset counters, final, rounds *)
  blake2b_F : list Z -> list Z -> list Z -> bool -> Z -> list Z;
  bn_G1 : Type;
  bn_G2 : Type;
  bn_G1_Unmarshal : bytes -> string + bn_G1;
  bn_G2_Unmarshal : bytes -> string + bn_G2;
  bn_G1_Marshal : bn_G1 -> bytes;
  bn_Add : bn_G1 -> bn_G1 -> bn_G1;
  bn_ScalarMult : bn_G1 -> Z -> bn_G1;
  bn_PairingCheck : list bn_G1 -> list bn_G2 -> bool;
  (** [fp.Element], [fr.Element] of BLS12-381 *)
  fp : Type;
  fr : Type;
  fp_Element : bytes -> string + fp;
  fp_PutElement : fp -> bytes;
  fr_SetBytes : bytes -> fr;
  g1_IsOnCurve : fp * fp -> bool;
  g1_IsInSubGroup : fp * fp -> bool;
  g1_Add : fp * fp -> fp * fp -> fp * fp;
  g1_ScalarMultiplication : fp * fp -> Z -> fp * fp;
  g1_MultiExp : list (fp * fp) -> list fr -> fp * fp;
  g2_IsOnCurve : (fp * fp) * (fp * fp) -> bool;
  g2_IsInSubGroup : (fp * fp) * (fp * fp) -> bool;
  g2_Add : (fp * fp) * (fp * fp) -> (fp * fp) * (fp * fp) -> (fp * fp) * (fp * fp);
  g2_ScalarMultiplication : (fp * fp) * (fp * fp) -> Z -> (fp * fp) * (fp * fp);
  g2_MultiExp : list ((fp * fp) * (fp * fp)) -> list fr -> (fp * fp) * (fp * fp);
  bls_PairingCheck : list (fp * fp) -> list ((fp * fp) * (fp * fp)) -> string + bool;
  MapToG1 : fp -> fp * fp;
  MapToG2 : fp * fp -> (fp * fp) * (fp * fp);
}.

(** ** Constants *)
Definition EcrecoverGas := 3000.
Definition Sha256BaseGas := 60.
Definition Sha256PerWordGas := 12.
Definition Ripemd160BaseGas := 600.
Definition Ripemd160PerWordGas := 120.
Definition IdentityBaseGas := 15.
Definition IdentityPerWordGas := 3.
Definition ModExpQuadCoeffDiv := 20.
Definition Bn256AddGas := 500.
Definition Bn256ScalarMulGas := 40000.
Definition Bn256PairingBaseGas := 100000.
Definition Bn256PairingPerPointGas := 80000.
Definition Bls12381G1AddGas := 600.
Definition Bls12381G1MulGas := 12000.
Definition Bls12381G2AddGas := 4500.
Definition Bls12381G2MulGas := 55000.
Definition Bls12381PairingBaseGas := 115000.
Definition Bls12381PairingPerPairGas := 23000.
Definition Bls12381MapG1Gas := 5500.
Definition Bls12381MapG2Gas := 110000.

Definition Bls12381MultiExpDiscountTable : list Z :=
  [1200; 888; 764; 641; 594; 547; 500; 453; 438; 423; 408; 394; 379; 364; 349; 334; 330; 326; 322; 318; 314; 310; 306; 302;
   298; 294; 289; 285; 281; 277; 273; 269; 268; 266; 265; 263; 262; 260; 259; 257; 256; 254; 253; 251; 250; 248; 247; 245;
   244; 242; 241; 239; 238; 236; 235; 233; 232; 231; 229; 228; 226; 225; 223; 222; 221; 220; 219; 219; 218; 217; 216; 216;
   215; 214; 213; 213; 212; 211; 211; 210; 209; 208; 208; 207; 206; 205; 205; 204; 203; 202; 202; 201; 200; 199; 199; 198;
   197; 196; 196; 195; 194; 193; 193; 192; 191; 191; 190; 189; 188; 188; 187; 186; 185; 185; 184; 183; 182; 182; 181; 180;
   179; 179; 178; 177; 176; 176; 175; 174].

(** ** Helpers *)
(** [common.LeftPadBytes]. *)
Definition LeftPadBytes (slice : bytes) (l : Z) : bytes :=
  if l <=? Z.of_nat (length slice) then slice else replicate (Z.to_nat l - length slice) Byte.x00 ++ slice.

Definition allZero (b : bytes) : bool := forallb (fun x => Z_of_byte x =? 0) b.

(** [uint64(len(input)+31)/32*word + base]. *)
Definition per_word (word base : Z) (input : bytes) : Z := u64 (u64 (Z.of_nat (length input) + 31) / 32 * word + base).

(** [crypto.ValidateSignatureValues]. *)
Definition secp256k1N : Z := 0xfffffffffffffffffffffffffffffffebaaedce6af48a03bbfd25e8cd0364141.
Definition secp256k1halfN : Z := secp256k1N / 2.
Definition ValidateSignatureValues (v r s : Z) (homestead : bool) : bool :=
  if (r <? 1) || (s <? 1) then false else
  if homestead && (secp256k1halfN <? s) then false else
  (r <? secp256k1N) && (s <? secp256k1N) && ((v =? 0) || (v =? 1)).

(** [big.Int.BitLen] of a number that is not negative. *)
Definition big_BitLen (x : Z) : Z := if x =? 0 then 0 else Z.log2 x + 1.

(** ** The contracts: what they cost and what they return, given the input *)
Abbreviation answer := (VmError + ret_slice)%type.
Abbreviation err_or A := (VmError + A)%type.

Definition bindE {A B} (r : err_or A) (k : A -> err_or B) : err_or B := match r with inl e => inl e | inr a => k a end.
Local Notation "x ⇐ r ; k" := (bindE r (fun x => k)) (at level 20, r at level 100, k at level 200).

Definition imported {A} (r : string + A) : err_or A := match r with inl msg => inl (ErrOther msg) | inr a => inr a end.
Definition errors_New {A} (msg : string) : err_or A := inl (ErrOther msg).

Section contracts.
Context `{Crypto} `{Curves}.

Definition ecrecover_Run (input : bytes) : answer :=
  let input := RightPadBytes input 128 in
  let r := be_to_uint (sub input 64 96) in
  let s := be_to_uint (sub input 96 128) in
  let v := (Z_of_byte (default Byte.x00 (input !! 63%nat)) - 27) mod 256 in
  if negb (allZero (sub input 32 63)) || negb (ValidateSignatureValues v r s false) then inr (Fresh []) else
  match Ecrecover (take 32 input) (sub input 64 128 ++ [byte_of_Z v]) with
  | inl _ => inr (Fresh [])
  | inr pubKey => inr (Fresh (LeftPadBytes (drop 12 (keccak256 (drop 1 pubKey))) 32))
  end.

Definition sha256_Run (input : bytes) : answer := inr (Fresh (Sum256 input)).
Definition ripemd160_Run (input : bytes) : answer := inr (Fresh (LeftPadBytes (Ripemd160 input) 32)).
(** The input itself, not a copy. *)
Definition dataCopy_Run (input : bytes) : answer := inr TheInput.

(** *** Modular exponentiation *)
(** [getData], where the end does not wrap around. *)
Definition big_at (input : bytes) (start size : Z) : option Z := be_to_uint <$> getData input start size.

(** [None] where Go panics, here and below. *)
Definition bigModExp_RequiredGas (input : bytes) : option Z :=
  baseLen ← big_at input 0 32; expLen ← big_at input 32 32; modLen ← big_at input 64 32;
  let input := drop 96 input in
  expHead ← (if Z.of_nat (length input) <=? baseLen then Some 0
             else if 32 <? expLen then big_at input (u64 baseLen) 32 else big_at input (u64 baseLen) (u64 expLen));
  let bitlen := big_BitLen expHead in
  let msb := if 0 <? bitlen then bitlen - 1 else 0 in
  let adjExpLen := (if 32 <? expLen then 8 * (expLen - 32) else 0) + msb in
  let gas := Z.max modLen baseLen in
  let gas := if gas <=? 64 then gas * gas
             else if gas <=? 1024 then gas * gas / 4 + (96 * gas - 3072)
             else gas * gas / 16 + (480 * gas - 199680) in
  let gas := gas * Z.max adjExpLen 1 / ModExpQuadCoeffDiv in
  Some (if 64 <? big_BitLen gas then MaxUint64 else u64 gas).

Definition bigModExp_Run (input : bytes) : option answer :=
  baseLen ← big_at input 0 32; expLen ← big_at input 32 32; modLen ← big_at input 64 32;
  let baseLen := u64 baseLen in let expLen := u64 expLen in let modLen := u64 modLen in
  let input := drop 96 input in
  if (baseLen =? 0) && (modLen =? 0) then Some (inr (Fresh [])) else
  base ← big_at input 0 baseLen; exp ← big_at input baseLen expLen; modulus ← big_at input (u64 (baseLen + expLen)) modLen;
  Some (inr (Fresh (if big_BitLen modulus =? 0 then LeftPadBytes [] (int64 modLen)
                    else LeftPadBytes (big_Bytes (base ^ exp mod modulus)) (int64 modLen)))).

(** *** The curve of Byzantium *)
Definition newCurvePoint (blob : bytes) : err_or bn_G1 := imported (bn_G1_Unmarshal blob).
Definition newTwistPoint (blob : bytes) : err_or bn_G2 := imported (bn_G2_Unmarshal blob).

Definition bn256Add_Run (input : bytes) : option answer :=
  d1 ← getData input 0 64; d2 ← getData input 64 64;
  Some (x ⇐ newCurvePoint d1; y ⇐ newCurvePoint d2; inr (Fresh (bn_G1_Marshal (bn_Add x y)))).

Definition bn256ScalarMul_Run (input : bytes) : option answer :=
  d1 ← getData input 0 64; scalar ← big_at input 64 32;
  Some (p ⇐ newCurvePoint d1; inr (Fresh (bn_G1_Marshal (bn_ScalarMult p scalar)))).

Definition true32Byte : bytes := replicate 31 Byte.x00 ++ [Byte.x01].
Definition false32Byte : bytes := replicate 32 Byte.x00.

Definition bn256Pairing_RequiredGas (input : bytes) : Z :=
  u64 (Bn256PairingBaseGas + u64 (Z.of_nat (length input / 192) * Bn256PairingPerPointGas)).

(** The pieces of [size] bytes an input consists of, [k] of them. *)
Definition pieces (size k : nat) (input : bytes) : list bytes := (fun i => take size (drop (size * i) input)) <$> seq 0 k.

(** Decoding piece by piece, up to the first error. *)
Fixpoint decode_all {A} (decode : bytes -> err_or A) (l : list bytes) : err_or (list A) :=
  match l with
  | [] => inr []
  | b :: l => a ⇐ decode b; rest ⇐ decode_all decode l; inr (a :: rest)
  end.

Definition bn256Pairing_Run (input : bytes) : answer :=
  if (0 <? length input mod 192)%nat then errors_New "bad elliptic curve pairing size" else
  pairs ⇐ decode_all (fun b => c ⇐ newCurvePoint (sub b 0 64); t ⇐ newTwistPoint (sub b 64 192); inr (c, t))
            (pieces 192 (length input / 192) input);
  inr (Fresh (if bn_PairingCheck (fst <$> pairs) (snd <$> pairs) then true32Byte else false32Byte)).

(** *** BLAKE2b *)
Definition blake2FInputLength : nat := 213.

Definition blake2F_RequiredGas (input : bytes) : Z :=
  if negb (length input =? blake2FInputLength)%nat then 0 else be_to_uint (take 4 input).

(** [binary.LittleEndian.Uint64] and [PutUint64]. *)
Definition le_Uint64 (b : bytes) : Z := be_to_uint (rev (take 8 b)).
Definition le_PutUint64 (x : Z) : bytes := rev (uint_to_be 8 x).

Definition blake2F_Run (input : bytes) : answer :=
  if negb (length input =? blake2FInputLength)%nat then errors_New "invalid input length" else
  let flag := Z_of_byte (default Byte.x00 (input !! 212%nat)) in
  if negb (flag =? 0) && negb (flag =? 1) then errors_New "invalid final flag" else
  let rounds := be_to_uint (take 4 input) in
  let final := flag =? 1 in
  let h := (fun i => le_Uint64 (drop (4 + i * 8) input)) <$> seq 0 8 in
  let m := (fun i => le_Uint64 (drop (68 + i * 8) input)) <$> seq 0 16 in
  let t := [le_Uint64 (drop 196 input); le_Uint64 (drop 204 input)] in
  inr (Fresh (flat_map le_PutUint64 (take 8 (blake2b_F h m t final rounds)))).

(** *** BLS12-381 *)
Abbreviation G1Affine := (fp * fp)%type.
Abbreviation G2Affine := ((fp * fp) * (fp * fp))%type.

Definition errInvalidInputLength {A} : err_or A := errors_New "invalid input length".

Definition decodeBLS12381FieldElement (b : bytes) : err_or fp :=
  if negb (length b =? 64)%nat then errors_New "invalid field element length" else
  if negb (allZero (take 16 b)) then errors_New "invalid field element top bytes" else
  imported (fp_Element (drop 16 b)).

Definition decodePointG1 (b : bytes) : err_or G1Affine :=
  if negb (length b =? 128)%nat then errors_New "invalid g1 point length" else
  x ⇐ decodeBLS12381FieldElement (sub b 0 64); y ⇐ decodeBLS12381FieldElement (sub b 64 128);
  if negb (g1_IsOnCurve (x, y)) then errors_New "invalid point: not on curve" else inr (x, y).

Definition decodePointG2 (b : bytes) : err_or G2Affine :=
  if negb (length b =? 256)%nat then errors_New "invalid g2 point length" else
  x0 ⇐ decodeBLS12381FieldElement (sub b 0 64); x1 ⇐ decodeBLS12381FieldElement (sub b 64 128);
  y0 ⇐ decodeBLS12381FieldElement (sub b 128 192); y1 ⇐ decodeBLS12381FieldElement (sub b 192 256);
  if negb (g2_IsOnCurve ((x0, x1), (y0, y1))) then errors_New "invalid point: not on curve" else inr ((x0, x1), (y0, y1)).

Definition encode_field (x : fp) : bytes := replicate 16 Byte.x00 ++ fp_PutElement x.
Definition encodePointG1 (p : G1Affine) : bytes := encode_field (fst p) ++ encode_field (snd p).
Definition encodePointG2 (p : G2Affine) : bytes :=
  encode_field (fst (fst p)) ++ encode_field (snd (fst p)) ++ encode_field (fst (snd p)) ++ encode_field (snd (snd p)).

Definition bls12381G1Add_Run (input : bytes) : answer :=
  if negb (length input =? 256)%nat then errInvalidInputLength else
  p0 ⇐ decodePointG1 (sub input 0 128); p1 ⇐ decodePointG1 (sub input 128 256);
  inr (Fresh (encodePointG1 (g1_Add p0 p1))).

Definition bls12381G1Mul_Run (input : bytes) : answer :=
  if negb (length input =? 160)%nat then errInvalidInputLength else
  p0 ⇐ decodePointG1 (sub input 0 128);
  inr (Fresh (encodePointG1 (g1_ScalarMultiplication p0 (be_to_uint (drop 128 input))))).

(** The gas of [k] pairs; [k] itself is cut off at the end of the table. *)
Definition multiexp_gas (mul : Z) (k : nat) : Z :=
  if (k =? 0)%nat then 0 else
  let k := Nat.min k (length Bls12381MultiExpDiscountTable) in
  let discount := default 0 (Bls12381MultiExpDiscountTable !! (k - 1)%nat) in
  Z.of_nat k * mul * discount / 1000.

Definition bls12381G1MultiExp_RequiredGas (input : bytes) : Z := multiexp_gas Bls12381G1MulGas (length input / 160).

Definition bls12381G1MultiExp_Run (input : bytes) : answer :=
  if (length input =? 0)%nat || negb (length input mod 160 =? 0)%nat then errInvalidInputLength else
  pairs ⇐ decode_all (fun b => p ⇐ decodePointG1 (sub b 0 128); inr (p, fr_SetBytes (sub b 128 160)))
            (pieces 160 (length input / 160) input);
  inr (Fresh (encodePointG1 (g1_MultiExp (fst <$> pairs) (snd <$> pairs)))).

Definition bls12381G2Add_Run (input : bytes) : answer :=
  if negb (length input =? 512)%nat then errInvalidInputLength else
  p0 ⇐ decodePointG2 (sub input 0 256); p1 ⇐ decodePointG2 (sub input 256 512);
  inr (Fresh (encodePointG2 (g2_Add p0 p1))).

Definition bls12381G2Mul_Run (input : bytes) : answer :=
  if negb (length input =? 288)%nat then errInvalidInputLength else
  p0 ⇐ decodePointG2 (sub input 0 256);
  inr (Fresh (encodePointG2 (g2_ScalarMultiplication p0 (be_to_uint (drop 256 input))))).

Definition bls12381G2MultiExp_RequiredGas (input : bytes) : Z := multiexp_gas Bls12381G2MulGas (length input / 288).

Definition bls12381G2MultiExp_Run (input : bytes) : answer :=
  if (length input =? 0)%nat || negb (length input mod 288 =? 0)%nat then errInvalidInputLength else
  pairs ⇐ decode_all (fun b => p ⇐ decodePointG2 (sub b 0 256); inr (p, fr_SetBytes (sub b 256 288)))
            (pieces 288 (length input / 288) input);
  inr (Fresh (encodePointG2 (g2_MultiExp (fst <$> pairs) (snd <$> pairs)))).

Definition bls12381Pairing_RequiredGas (input : bytes) : Z :=
  u64 (Bls12381PairingBaseGas + u64 (Z.of_nat (length input / 384) * Bls12381PairingPerPairGas)).

Definition bls12381Pairing_Run (input : bytes) : answer :=
  if (length input =? 0)%nat || negb (length input mod 384 =? 0)%nat then errInvalidInputLength else
  pairs ⇐ decode_all (fun b =>
              p1 ⇐ decodePointG1 (sub b 0 128); p2 ⇐ decodePointG2 (sub b 128 384);
              if negb (g1_IsInSubGroup p1) then errors_New "g1 point is not on correct subgroup" else
              if negb (g2_IsInSubGroup p2) then errors_New "g2 point is not on correct subgroup" else inr (p1, p2))
            (pieces 384 (length input / 384) input);
  inr (Fresh (match bls_PairingCheck (fst <$> pairs) (snd <$> pairs) with inr true => true32Byte | _ => false32Byte end)).

Definition bls12381MapG1_Run (input : bytes) : answer :=
  if negb (length input =? 64)%nat then errInvalidInputLength else
  fe ⇐ decodeBLS12381FieldElement input; inr (Fresh (encodePointG1 (MapToG1 fe))).

Definition bls12381MapG2_Run (input : bytes) : answer :=
  if negb (length input =? 128)%nat then errInvalidInputLength else
  c0 ⇐ decodeBLS12381FieldElement (sub input 0 64); c1 ⇐ decodeBLS12381FieldElement (sub input 64 128);
  inr (Fresh (encodePointG2 (MapToG2 (c0, c1)))).

(** ** The tables *)
Section tables.
Context {St : Type}.
Abbreviation Precompiles := (list (option (PrecompiledContract (St := St)))).
Local Open Scope go_scope.

Definition or_panic {A} (o : option A) : M (EVM St) A :=
  match o with Some a => ret a | None => panic "slice bounds out of range" end.

Definition answered (r : answer) : ret_slice * option VmError :=
  match r with inl err => (Fresh [], Some err) | inr r => (r, None) end.

(** A contract that looks at nothing but the input of its call. *)
Definition contract_of (gas : bytes -> option Z) (run : bytes -> option answer) : PrecompiledContract (St := St) :=
  mkPrecompiled (fun ctx => or_panic (gas (Input ctx)))
                (fun ctx => r ← or_panic (run (Input ctx)); ret (answered r)).

Definition always {A B} (x : B) : A -> option B := fun _ => Some x.
Definition total {A B} (f : A -> B) : A -> option B := fun a => Some (f a).

Definition PrecompiledContractsCalifornicum : Precompiles := [
  Some (contract_of (always EcrecoverGas) (total ecrecover_Run));
  Some (contract_of (total (per_word Sha256PerWordGas Sha256BaseGas)) (total sha256_Run));
  Some (contract_of (total (per_word Ripemd160PerWordGas Ripemd160BaseGas)) (total ripemd160_Run));
  Some (contract_of (total (per_word IdentityPerWordGas IdentityBaseGas)) (total dataCopy_Run));
  Some (contract_of bigModExp_RequiredGas bigModExp_Run);
  Some (contract_of (always Bn256AddGas) bn256Add_Run);
  Some (contract_of (always Bn256ScalarMulGas) bn256ScalarMul_Run);
  Some (contract_of (total bn256Pairing_RequiredGas) (total bn256Pairing_Run))].

Definition PrecompiledContractsFicus : Precompiles := PrecompiledContractsCalifornicum ++ [
  Some (contract_of (total blake2F_RequiredGas) (total blake2F_Run));
  None;
  Some (contract_of (always Bls12381G1AddGas) (total bls12381G1Add_Run));
  Some (contract_of (always Bls12381G1MulGas) (total bls12381G1Mul_Run));
  Some (contract_of (total bls12381G1MultiExp_RequiredGas) (total bls12381G1MultiExp_Run));
  Some (contract_of (always Bls12381G2AddGas) (total bls12381G2Add_Run));
  Some (contract_of (always Bls12381G2MulGas) (total bls12381G2Mul_Run));
  Some (contract_of (total bls12381G2MultiExp_RequiredGas) (total bls12381G2MultiExp_Run));
  Some (contract_of (total bls12381Pairing_RequiredGas) (total bls12381Pairing_Run));
  Some (contract_of (always Bls12381MapG1Gas) (total bls12381MapG1_Run));
  Some (contract_of (always Bls12381MapG2Gas) (total bls12381MapG2_Run))].

(** [Put] of a contract of another package; [None] where an assertion fails. *)
Definition Precompiles_Put (address : Address) (contract : PrecompiledContract (St := St)) (t : Precompiles) : option (Precompiles) :=
  let last_addr_byte := Z_of_byte (default Byte.x00 (addr_bytes address !! 19%nat)) in
  if negb (bool_decide (take 19 (addr_bytes address) = replicate 19 Byte.x00)) || (last_addr_byte =? 0) then None else
  let pos := Z.to_nat (last_addr_byte - 1) in
  let t := t ++ replicate (255 - length t) None in
  match t !! pos with Some None => Some (<[pos := Some contract]> t) | _ => None end.
End tables.
End contracts.

(** ** Modular exponentiation is EIP-198 wherever it can be paid for *)
(** [len] bytes from [start] of the input followed by zeros. *)
Definition operand (input : bytes) (start len : Z) : Z :=
  be_to_uint (RightPadBytes (take (Z.to_nat len) (drop (Z.to_nat start) input)) (Z.to_nat len)).

(** The value and the number of bytes of the result. *)
Definition eip198 (input : bytes) : Z * Z :=
  let base_len := operand input 0 32 in let exp_len := operand input 32 32 in let mod_len := operand input 64 32 in
  let base := operand input 96 base_len in
  let exp := operand input (96 + base_len) exp_len in
  let modulus := operand input (96 + base_len + exp_len) mod_len in
  (if modulus =? 0 then 0 else base ^ exp mod modulus, mod_len).

Lemma RightPadBytes_length b n : (length b <= n)%nat -> length (RightPadBytes b n) = n.
Proof. intros. unfold RightPadBytes. destruct (Nat.leb_spec n (length b)); rewrite ?length_app, ?length_replicate; lia. Qed.

Lemma getData_small data start size :
  0 <= start -> 0 <= size < 2 ^ 63 -> start + size < 2 ^ 64 -> Z.of_nat (length data) < 2 ^ 63 ->
  getData data start size = Some (RightPadBytes (take (Z.to_nat size) (drop (Z.to_nat start) data)) (Z.to_nat size)).
Proof.
  intros Hs Hz Hw Hl. unfold getData, int64. rewrite (u64_small size) by lia.
  destruct (Z.ltb_spec size (2 ^ 63)); [|lia]. cbv zeta.
  destruct (Z.ltb_spec (Z.of_nat (length data)) start) as [Hlt|Hge].
  - rewrite (u64_small (Z.of_nat (length data) + size)) by lia.
    destruct (Z.ltb_spec (Z.of_nat (length data)) (Z.of_nat (length data) + size)).
    + destruct (Z.ltb_spec (Z.of_nat (length data)) (Z.of_nat (length data))); [lia|].
      rewrite Nat2Z.id, take_ge, !drop_ge, take_nil by lia. done.
    + destruct (Z.ltb_spec (Z.of_nat (length data) + size) (Z.of_nat (length data))); [lia|].
      rewrite !drop_ge, take_nil; [done|lia|rewrite length_take; lia].
  - rewrite (u64_small (start + size)) by lia.
    destruct (Z.ltb_spec (Z.of_nat (length data)) (start + size)).
    + destruct (Z.ltb_spec (Z.of_nat (length data)) start); [lia|]. rewrite Nat2Z.id, (take_ge data) by lia.
      by rewrite (take_ge (drop _ _)) by (rewrite length_drop; lia).
    + destruct (Z.ltb_spec (start + size) start); [lia|]. rewrite Z2Nat.inj_add, <- take_drop_commute by lia. done.
Qed.

Lemma big_at_small data start size :
  0 <= start -> 0 <= size < 2 ^ 63 -> start + size < 2 ^ 64 -> Z.of_nat (length data) < 2 ^ 63 ->
  big_at data start size = Some (operand data start size).
Proof. intros. unfold big_at. by rewrite getData_small. Qed.

Lemma operand_drop input n start len : 0 <= start -> operand (drop n input) start len = operand input (Z.of_nat n + start) len.
Proof. intros. unfold operand. by rewrite drop_drop, Z2Nat.inj_add, Nat2Z.id by lia. Qed.

Lemma operand_range input start len : 0 <= len -> 0 <= operand input start len < 2 ^ (8 * len).
Proof.
  intros Hl. unfold operand. pose proof (be_to_uint_range (RightPadBytes (take (Z.to_nat len) (drop (Z.to_nat start) input)) (Z.to_nat len))) as Hr.
  unfold blen in Hr. rewrite RightPadBytes_length, Z2Nat.id in Hr by (rewrite ?length_take; lia). done.
Qed.

Lemma be_to_uint_zeros n b : be_to_uint (replicate n Byte.x00 ++ b) = be_to_uint b.
Proof.
  unfold be_to_uint. rewrite foldl_app. f_equal. induction n as [|n IH]; [done|]. simpl. exact IH.
Qed.

Lemma LeftPadBytes_value b n : 0 <= n -> Z.of_nat (length b) <= n ->
  Z.of_nat (length (LeftPadBytes b n)) = n /\ be_to_uint (LeftPadBytes b n) = be_to_uint b.
Proof.
  intros Hn Hb. unfold LeftPadBytes. destruct (Z.leb_spec n (Z.of_nat (length b))); [split; [lia|done]|].
  rewrite length_app, length_replicate, be_to_uint_zeros. split; [lia|done].
Qed.

(** The lengths that affordable gas leaves. *)
Definition modexp_complexity (x : Z) : Z :=
  if x <=? 64 then x * x else if x <=? 1024 then x * x / 4 + (96 * x - 3072) else x * x / 16 + (480 * x - 199680).

Lemma complexity_grows x : 0 < x -> 1 <= modexp_complexity x /\ x <= modexp_complexity x.
Proof.
  intros Hx. unfold modexp_complexity. destruct (Z.leb_spec x 64); [nia|].
  assert (0 <= x * x / 4) by (apply Z.div_pos; nia). assert (0 <= x * x / 16) by (apply Z.div_pos; nia).
  destruct (Z.leb_spec x 1024); lia.
Qed.

Lemma modexp_lengths x adj :
  0 <= x -> let gas := modexp_complexity x * Z.max adj 1 / ModExpQuadCoeffDiv in
  (if 64 <? big_BitLen gas then MaxUint64 else u64 gas) < 2 ^ 56 -> x = 0 \/ x < 2 ^ 61 /\ adj < 2 ^ 61.
Proof.
  intros Hx gas. destruct (Z.eq_dec x 0) as [->|Hne]; [by left|]. intros Hg. right.
  destruct (complexity_grows x ltac:(lia)) as [H1 H2].
  assert (Hpos : 0 <= gas). { apply Z.div_pos; [nia|done]. }
  assert (Hsmall : gas < 2 ^ 56).
  { unfold big_BitLen in Hg. destruct (Z.eqb_spec gas 0); [lia|]. destruct (Z.ltb_spec 64 (Z.log2 gas + 1)); [done|].
    rewrite u64_small in Hg; [done|]. split; [done|]. apply Z.log2_lt_pow2; lia. }
  assert (Hm : modexp_complexity x * Z.max adj 1 < 20 * 2 ^ 56 + 20).
  { pose proof (Z.mul_succ_div_gt (modexp_complexity x * Z.max adj 1) ModExpQuadCoeffDiv ltac:(done)) as Hd.
    fold gas in Hd. unfold ModExpQuadCoeffDiv in Hd. lia. }
  nia.
Qed.

(** C22: the contract at address 5 computes what EIP-198 asks for: the price is
    always defined, and whenever it is below 2^56 - beyond any gas limit in
    use - the lengths in the input do not wrap around, nothing panics, and the
    result is [base ^ exp mod modulus], zero for a zero modulus, in exactly the
    number of bytes the input asks for. *)
Theorem modexp_implements_eip198 input :
  Z.of_nat (length input) < 2 ^ 63 ->
  exists g, bigModExp_RequiredGas input = Some g /\
    (g < 2 ^ 56 ->
     exists out, bigModExp_Run input = Some (inr (Fresh out)) /\
                 eip198 input = (be_to_uint out, Z.of_nat (length out))).
Proof.
  intros Hl. unfold bigModExp_RequiredGas, bigModExp_Run, eip198.
  rewrite !(big_at_small input _ 32) by (simpl; lia). cbn [mbind option_bind].
  pose proof (operand_range input 0 32 ltac:(lia)) as Hb. pose proof (operand_range input 32 32 ltac:(lia)) as He.
  pose proof (operand_range input 64 32 ltac:(lia)) as Hm.
  set (bl := operand input 0 32) in *. set (el := operand input 32 32) in *. set (ml := operand input 64 32) in *. cbv zeta.
  assert (Hhead : exists h, 0 <= h /\ (if Z.of_nat (length (drop 96 input)) <=? bl then Some 0
      else if 32 <? el then big_at (drop 96 input) (u64 bl) 32 else big_at (drop 96 input) (u64 bl) (u64 el)) = Some h).
  { destruct (Z.leb_spec (Z.of_nat (length (drop 96 input))) bl) as [|Hlt]; [by exists 0|].
    assert (Hd : Z.of_nat (length (drop 96 input)) < 2 ^ 63) by (rewrite length_drop; lia).
    rewrite (u64_small bl) by lia. destruct (Z.ltb_spec 32 el); rewrite ?(u64_small el), big_at_small by lia; eexists; (split; [|done]);
      apply operand_range; lia. }
  destruct Hhead as (h & Hh & ->). cbn [mbind option_bind]. eexists. split; [reflexivity|]. intros Hg.
  set (adj := (if 32 <? el then 8 * (el - 32) else 0) + (if 0 <? big_BitLen h then big_BitLen h - 1 else 0)) in Hg.
  assert (Hadj : el < 2 ^ 61 + 33 \/ 8 * (el - 32) <= adj).
  { unfold adj. destruct (Z.ltb_spec 32 el); [right|left; lia]. destruct (Z.ltb_spec 0 (big_BitLen h)); lia. }
  clearbody adj. destruct (modexp_lengths (Z.max ml bl) adj ltac:(lia)) as [H0|[Hx Ha]]; [exact Hg|..].
  - assert (bl = 0) as -> by lia. assert (ml = 0) as -> by lia. rewrite (u64_small 0) by lia. exists []. split; [done|].
    pose proof (operand_range input (96 + 0 + el) 0 ltac:(lia)) as Hz. simpl in Hz.
    assert (operand input (96 + 0 + el) 0 = 0) as -> by lia. done.
  - rewrite (u64_small bl), (u64_small el), (u64_small ml), (u64_small (bl + el)) by lia.
    assert (Hd : Z.of_nat (length (drop 96 input)) < 2 ^ 63) by (rewrite length_drop; lia).
    destruct ((bl =? 0) && (ml =? 0)) eqn:Ez.
    { apply andb_prop in Ez as [->%Z.eqb_eq ->%Z.eqb_eq]. exists []. split; [done|].
      pose proof (operand_range input (96 + 0 + el) 0 ltac:(lia)) as Hz. simpl in Hz.
      assert (operand input (96 + 0 + el) 0 = 0) as -> by lia. done. }
    rewrite !big_at_small, !operand_drop by lia. cbn [mbind option_bind].
    change (Z.of_nat 96) with 96. rewrite Z.add_0_r, Z.add_assoc.
    set (m := operand input (96 + bl + el) ml). pose proof (operand_range input (96 + bl + el) ml ltac:(lia)) as Hmr. fold m in Hmr.
    assert (Hi : int64 ml = ml). { unfold int64. rewrite u64_small by lia. destruct (Z.ltb_spec ml (2 ^ 63)); lia. }
    rewrite Hi. eexists. split; [reflexivity|]. unfold big_BitLen. destruct (Z.eqb_spec m 0) as [Hm0|Hm0].
    + simpl. destruct (LeftPadBytes_value [] ml ltac:(lia) ltac:(simpl; lia)) as [-> ->]. done.
    + pose proof (Z.log2_nonneg m). destruct (Z.eqb_spec (Z.log2 m + 1) 0); [lia|].
      match goal with |- context [big_Bytes ?x] => set (v := x) end.
      assert (Hv : 0 <= v < m) by (apply Z.mod_pos_bound; lia).
      destruct (LeftPadBytes_value (big_Bytes v) ml ltac:(lia) ltac:(apply length_big_Bytes; lia)) as [-> ->].
      pose proof (big_roundtrip v ltac:(lia)) as Hbr. unfold big_SetBytes in Hbr. by rewrite Hbr.
Qed.

(** the gas of the two multi-exponentiations stops growing at 128 pairs:
    what is cut off at the end of the discount table is the number of pairs,
    not only the index into the table, so that any number of further pairs is
    free. *)
Theorem multiexp_gas_capped mul k : (128 <= k)%nat -> multiexp_gas mul k = multiexp_gas mul 128.
Proof.
  intros Hk. unfold multiexp_gas. change (length Bls12381MultiExpDiscountTable) with 128%nat.
  rewrite (Nat.min_r k), (Nat.min_l 128) by lia. destruct (Nat.eqb_spec k 0); [lia|done].
Qed.

Lemma multiexp_gas_capped_witness : (128 <= 1000)%nat /\ multiexp_gas 12000 1000 = multiexp_gas 12000 128.
Proof. split; [lia|]. apply (multiexp_gas_capped 12000 1000). lia. Defined.

(** ** The tables only look at the input *)
Section pure.
Context {St : Type} {CR : Crypto} {CV : Curves}.

Lemma contract_of_gas g r f (e : EVM St) :
  (forall input x, g input = Some x -> 0 <= x) -> post False (RequiredGas (contract_of g r) f) e (fun x e' => 0 <= x /\ e' = e).
Proof. intros Hg. unfold post. simpl. unfold or_panic. destruct (g (Input f)) eqn:E; [|done]. exact (conj (Hg _ _ E) eq_refl). Qed.

Lemma contract_of_run g r f (e : EVM St) : post False (Run (contract_of g r) f) e (fun _ e' => e' = e).
Proof. unfold post. simpl. unfold or_panic, bindM. by destruct (r (Input f)). Qed.

(** A contract that is built by [contract_of] from a price that is not
    negative. *)
Definition from_input (p : PrecompiledContract (St := St)) : Prop :=
  exists g r, p = contract_of g r /\ forall input x, g input = Some x -> 0 <= x.

Lemma from_input_always c r : 0 <= c -> from_input (contract_of (always c) r).
Proof. intros Hc. exists (always c), r. split; [done|]. by intros input x [= <-]. Qed.

Lemma from_input_total g r : (forall input, 0 <= g input) -> from_input (contract_of (total g) r).
Proof. intros Hg. exists (total g), r. split; [done|]. intros input x [= <-]. apply Hg. Qed.

Lemma per_word_nonneg w b input : 0 <= per_word w b input.
Proof. apply u64_range. Qed.

Lemma modexp_gas_nonneg input x : bigModExp_RequiredGas input = Some x -> 0 <= x.
Proof.
  unfold bigModExp_RequiredGas. intros Hx. repeat (apply bind_Some in Hx as (? & _ & Hx)).
  destruct (64 <? big_BitLen _); injection Hx as <-; [done|apply u64_range].
Qed.

Lemma multiexp_gas_nonneg mul k : 0 <= mul -> 0 <= multiexp_gas mul k.
Proof.
  intros Hm. unfold multiexp_gas. destruct (_ =? _)%nat; [done|]. apply Z.div_pos; [|done].
  assert (Hd : Forall (fun d => 0 <= d) Bls12381MultiExpDiscountTable) by (apply (bool_decide_unpack _); by vm_compute).
  destruct (Bls12381MultiExpDiscountTable !! _) as [d|] eqn:E; simpl; [|lia].
  pose proof (Forall_lookup_1 _ _ _ _ Hd E). simpl in *. nia.
Qed.

Lemma Ficus_from_input : Forall (fun o => match o with Some p => from_input p | None => True end) (PrecompiledContractsFicus (St := St)).
Proof.
  unfold PrecompiledContractsFicus, PrecompiledContractsCalifornicum. cbn [app].
  repeat (apply List.Forall_cons; [first [done | by apply from_input_always
    | by apply from_input_total; intros; first [apply u64_range | apply per_word_nonneg | apply multiexp_gas_nonneg]
    | exists bigModExp_RequiredGas, bigModExp_Run; split; [done|apply modexp_gas_nonneg]
    | apply from_input_total; intros input; unfold blake2F_RequiredGas; destruct (negb _); [done|apply be_to_uint_range] ]|]).
  apply List.Forall_nil.
Qed.

Lemma Get_lookup (t : list (option (PrecompiledContract (St := St)))) addr p :
  Precompiles_Get t addr = Some p -> exists i, t !! i = Some (Some p).
Proof.
  unfold Precompiles_Get. destruct (_ =? _); [done|]. destruct (t !! _) as [[c|]|] eqn:E; try done.
  destruct (bool_decide _); [|done]. intros [= <-]. eauto.
Qed.

Lemma Ficus_Get addr p : Precompiles_Get (PrecompiledContractsFicus (St := St)) addr = Some p -> from_input p.
Proof. intros [i Hi]%Get_lookup. exact (Forall_lookup_1 _ _ _ _ Ficus_from_input Hi). Qed.

(** What the properties of the interpreter ask of precompiled contracts. *)
Lemma Ficus_within (R : St -> St -> Prop) `{!Reflexive R} addr p f :
  Precompiles_Get (PrecompiledContractsFicus (St := St)) addr = Some p ->
  within True (on_evm R) (RequiredGas p f) /\ within True (on_evm R) (Run p f).
Proof.
  intros (g & r & -> & Hg)%Ficus_Get. assert (Hrefl : forall e : EVM St, on_evm R e e) by (intros e; unfold on_evm; reflexivity).
  split; intros e.
  - pose proof (contract_of_gas g r f e Hg) as Hp. unfold post in *. destruct (RequiredGas _ _ e); [|done..]. by destruct Hp as [_ ->].
  - pose proof (contract_of_run g r f e) as Hp. unfold post in *. destruct (Run _ _ e); [|done..]. by rewrite Hp.
Qed.

Lemma Ficus_total : precompiles_total (PrecompiledContractsFicus (St := St)).
Proof.
  intros addr p f (g & r & -> & Hg)%Ficus_Get. split; intros e.
  - eapply post_mono; [by apply contract_of_gas|]. intros x e' Hx. apply Hx.
  - eapply post_mono; [apply contract_of_run|]. done.
Qed.
End pure.

(** ** Registering a contract *)
Section put.
Context {St : Type}.
Abbreviation Precompiles := (list (option (PrecompiledContract (St := St)))).
Abbreviation last_byte a := (Z_of_byte (default Byte.x00 (addr_bytes a !! 19%nat))).

Lemma addr_split a : addr_bytes a = take 19 (addr_bytes a) ++ [default Byte.x00 (addr_bytes a !! 19%nat)].
Proof.
  pose proof (addr_length a) as Hl. destruct (lookup_lt_is_Some_2 (addr_bytes a) 19 ltac:(lia)) as [b Hb]. rewrite Hb. simpl.
  rewrite <- (take_S_r _ _ _ Hb). by rewrite take_ge by lia.
Qed.

Lemma addr_of_parts a a' : take 19 (addr_bytes a) = take 19 (addr_bytes a') -> last_byte a = last_byte a' -> a = a'.
Proof.
  intros Ht Hl. apply Address_eq. rewrite (addr_split a), (addr_split a'), Ht. do 2 f_equal.
  rewrite <- (byte_of_Z_of_byte (default _ (addr_bytes a !! _))), <- (byte_of_Z_of_byte (default _ (addr_bytes a' !! _))). by rewrite Hl.
Qed.

(** What is found at a position of the table. *)
Definition entry (t : Precompiles) (i : nat) : option PrecompiledContract := mjoin (t !! i).

Lemma Get_entry (t : Precompiles) a :
  Precompiles_Get t a = if (last_byte a =? 0) || negb (bool_decide (take 19 (addr_bytes a) = replicate 19 Byte.x00)) then None
                        else entry t (Z.to_nat (last_byte a - 1)).
Proof.
  unfold Precompiles_Get, entry. destruct (_ =? 0); [done|]. simpl.
  destruct (t !! _) as [[c|]|]; simpl; destruct (bool_decide _); done.
Qed.

Lemma entry_padded (t : Precompiles) n i : entry (t ++ replicate n None) i = entry t i.
Proof.
  unfold entry. destruct (decide (i < length t)%nat); [by rewrite lookup_app_l|].
  rewrite lookup_app_r, (lookup_ge_None_2 t) by lia. simpl.
  destruct (replicate n None !! _) as [o|] eqn:E; [|done]. by apply lookup_replicate in E as [-> _].
Qed.

(** a contract that [Put] accepts is found under its address and nothing
    else about the table changes: every other address, with whatever prefix,
    finds what it found before.  An address is accepted exactly when it has
    the prefix of precompiled contracts, is not zero and is free. *)
Theorem put_get (t : Precompiles) addr c :
  (length t <= 255)%nat ->
  match Precompiles_Put addr c t with
  | Some t' => length t' = 255%nat /\
      forall a, Precompiles_Get t' a = if bool_decide (a = addr) then Some c else Precompiles_Get t a
  | None => take 19 (addr_bytes addr) <> replicate 19 Byte.x00 \/ last_byte addr = 0 \/ Precompiles_Get t addr <> None
  end.
Proof.
  intros Hlen. unfold Precompiles_Put. case_bool_decide as Hp; [|by left]. simpl.
  destruct (Z.eqb_spec (last_byte addr) 0) as [|Hne]; [auto|]. pose proof (Z_of_byte_range (default Byte.x00 (addr_bytes addr !! 19%nat))) as Hr.
  set (pos := Z.to_nat (last_byte addr - 1)). set (padded := t ++ replicate (255 - length t) None).
  assert (Hl : length padded = 255%nat) by (unfold padded; rewrite length_app, length_replicate; lia).
  destruct (lookup_lt_is_Some_2 padded pos ltac:(lia)) as [o Ho]. rewrite Ho. destruct o as [c'|].
  - right; right. rewrite Get_entry, bool_decide_true, orb_false_r by done. destruct (Z.eqb_spec (last_byte addr) 0); [done|].
    rewrite <- (entry_padded t (255 - length t)). fold padded pos. unfold entry. by rewrite Ho.
  - split; [by rewrite length_insert|]. intros a. rewrite !Get_entry. destruct (decide (a = addr)) as [->|Ha].
    + rewrite (bool_decide_true (addr = addr)) by done. rewrite bool_decide_true, orb_false_r by done. destruct (Z.eqb_spec (last_byte addr) 0); [done|].
      fold pos. unfold entry. by rewrite list_lookup_insert_eq by lia.
    + rewrite (bool_decide_false (a = addr)) by done. destruct (Z.eqb_spec (last_byte a) 0) as [|Hne']; [done|]. case_bool_decide as Hp'; [|done]. simpl.
      rewrite <- (entry_padded t (255 - length t)). fold padded. unfold entry. rewrite list_lookup_insert_ne; [done|].
      unfold pos. pose proof (Z_of_byte_range (default Byte.x00 (addr_bytes a !! 19%nat))).
      intros Hpos. apply Ha. symmetry. apply addr_of_parts; [congruence|lia].
Qed.
End put.
