(* ===== verification/EvmExample.v ===== *)
(** * A concrete machine

    A state with an account that pays, a contract that stores a word and
    stops, and one that stores a word and reverts; the precompiled contracts
    of the Ficus table over trivial curves.  The witnesses of the properties
    of the interpreter are stated here. *)
From S2P Require Import Prelude Bytes Rlp Crypto Uint256 EvmWord EvmBase EvmMemory EvmGas EvmInstr EvmTable EvmRun StateEvm StateRevert EvmFrame EvmKeeps StateKeeps EvmTermination EvmContracts EvmMain.
Local Open Scope Z_scope.
#[local] Existing Instance RefWords.ops.
#[local] Existing Instance toy_crypto.

(** Curves with one point. *)
Definition toy_curves : Curves := {|
  Sum256 b := take 32 (b ++ replicate 32 Byte.x00);
  Ripemd160 b := take 20 (b ++ replicate 20 Byte.x00);
  blake2b_F h m t final rounds := h;
  bn_G1 := (); bn_G2 := ();
  bn_G1_Unmarshal _ := inr tt; bn_G2_Unmarshal _ := inr tt;
  bn_G1_Marshal _ := replicate 64 Byte.x00;
  bn_Add _ _ := tt; bn_ScalarMult _ _ := tt; bn_PairingCheck _ _ := true;
  fp := (); fr := ();
  fp_Element _ := inr tt; fp_PutElement _ := replicate 48 Byte.x00; fr_SetBytes _ := tt;
  g1_IsOnCurve _ := true; g1_IsInSubGroup _ := true; g1_Add p _ := p; g1_ScalarMultiplication p _ := p; g1_MultiExp _ _ := (tt, tt);
  g2_IsOnCurve _ := true; g2_IsInSubGroup _ := true; g2_Add p _ := p; g2_ScalarMultiplication p _ := p;
  g2_MultiExp _ _ := ((tt, tt), (tt, tt));
  bls_PairingCheck _ _ := inr true; MapToG1 x := (x, x); MapToG2 p := (p, p);
|}.
#[local] Existing Instance toy_curves.

Definition precompiles : list (option (PrecompiledContract (St := TransitionState))) := PrecompiledContractsFicus.

Lemma precompiles_kept addr p f :
  Precompiles_Get precompiles addr = Some p -> within True (on_evm kept) (RequiredGas p f) /\ within True (on_evm kept) (Run p f).
Proof. apply (Ficus_within kept). Qed.

Lemma precompiles_total_ : precompiles_total precompiles.
Proof. apply Ficus_total. Qed.

(** ** The state *)
Definition payer : Address := addr_of_Z 256.
Definition storing : Address := addr_of_Z 512.
Definition reverting : Address := addr_of_Z 513.

Definition code_bytes (l : list Z) : bytes := byte_of_Z <$> l.
(** [PUSH1 1 PUSH1 0 SSTORE STOP]; [PUSH1 1 PUSH1 0 SSTORE PUSH1 0 PUSH1 0 REVERT]. *)
Definition storing_code : bytes := code_bytes [0x60; 1; 0x60; 0; 0x55; 0].
Definition reverting_code : bytes := code_bytes [0x60; 1; 0x60; 0; 0x55; 0x60; 0; 0x60; 0; 0xfd].

Definition contract_account (code : bytes) : DbAccount := mkDbAccount 1 0 None (Some (keccak256 code)) (Z.of_nat (length code)).

(** A database with the payer and some contracts. *)
Definition db_of (contracts : list (Address * bytes)) : StateInput := {|
  in_GetCode h := default [] (snd <$> list_find (fun c => Some (keccak256 c) = h) (snd <$> contracts));
  in_GetAccount a :=
    if bool_decide (a = payer) then Some (mkDbAccount 5 1000000000 None None 0)
    else contract_account ∘ snd ∘ snd <$> list_find (fun c => fst c = a) contracts;
  in_GetAccountStorage _ _ := None;
|}.

Definition state_of_db (i : StateInput) : TransitionState := mkTransitionState i ∅ [] [] [] [] 0 ∅.
Definition evm_of_db (i : StateInput) : EVM TransitionState :=
  mkEVM (state_of_db i) (MemoryPool_Init 4096) None 0 false [] 0.

Definition ex_state : TransitionState := state_of_db (db_of [(storing, storing_code); (reverting, reverting_code)]).
Definition ex_evm : EVM TransitionState := evm_of_db (db_of [(storing, storing_code); (reverting, reverting_code)]).

Definition ex_trx (to : option Address) (nonce value gas : Z) (input : bytes) : Transaction :=
  mkTransaction payer 2 to nonce value gas input.
Definition ex_env (t : Transaction) : TxEnv :=
  mkTxEnv (fun _ => 0) (mkBlockInfo 10 payer 100000000 0 0) 841 (mkRules true true true true true) GasTableCalifornicum t.

(** The state and the result of a run. *)
Definition after {S A} (m : M S A) (s : S) : S := match m s with Done _ s' => s' | _ => s end.
Definition gives {S A} (m : M S A) (s : S) (f : A -> S -> bool) : bool := match m s with Done a s' => f a s' | _ => false end.
Definition panics {S A} (m : M S A) (s : S) : bool := match m s with Panic _ => true | _ => false end.

Lemma gives_done {S A} (m : M S A) s f : gives m s f = true -> exists a, m s = Done a (after m s) /\ f a (after m s) = true.
Proof. unfold gives, after. destruct (m s); [by eexists|done..]. Qed.

Definition fuel : nat := Z.to_nat 100001.

Lemma fuel_enough n : n <= 100000 -> n < Z.of_nat fuel.
Proof. intros Hn. unfold fuel. rewrite Z2Nat.id; lia. Qed.

Abbreviation ex_call callee value :=
  (call_with precompiles (run (ex_env (ex_trx (Some callee) 5 value 100000 [])) precompiles fuel) CALL (ContractAccWrapper payer) callee [] 90000 value).

Definition failed_ (r : ret_slice * Z * option VmError) : bool := match snd r with Some _ => true | None => false end.

(** ** Witnesses *)
Lemma reverting_call_fails :
  exists r gas_left err, ex_call reverting 7 ex_evm = Done (r, gas_left, Some err) (after (ex_call reverting 7) ex_evm).
Proof.
  destruct (gives_done (ex_call reverting 7) ex_evm (fun r _ => failed_ r)) as (r & E & Hr); [by vm_compute|].
  destruct r as [[r gas_left] [err|]]; [by eexists _, _, _|done].
Defined.

Lemma failed_call_restores_witness :
  exists e', same_state (evm_state e') (evm_state ex_evm) /\ size (accounts (evm_state e')) = 2%nat.
Proof.
  destruct reverting_call_fails as (r & gas_left & err & E). exists (after (ex_call reverting 7) ex_evm). split.
  - exact (failed_call_restores (ex_env (ex_trx (Some reverting) 5 7 100000 [])) precompiles precompiles_kept fuel CALL
      (ContractAccWrapper payer) reverting [] 90000 7 ex_evm r gas_left err _ E).
  - by vm_compute.
Defined.

Lemma used_code_immutable_witness :
  exists e', nonce_at (evm_state ex_evm) storing <= nonce_at (evm_state e') storing /\
    (0 < nonce_at (evm_state ex_evm) storing -> code_at (evm_state e') storing = code_at (evm_state ex_evm) storing) /\
    storage_at (evm_state e') storing 0 = 1.
Proof.
  destruct (gives_done (ex_call storing 7) ex_evm (fun r _ => negb (failed_ r))) as (r & E & _); [by vm_compute|].
  exists (after (ex_call storing 7) ex_evm).
  pose proof (used_code_immutable (ex_env (ex_trx (Some storing) 5 7 100000 [])) precompiles precompiles_kept fuel CALL
      (ContractAccWrapper payer) storing [] 90000 7 ex_evm r _ storing E) as [H1 H2].
  split; [exact H1|]. split; [exact H2|by vm_compute].
Defined.

Lemma runs_end_witness :
  match ex_call storing 7 ex_evm with
  | Done (_, gas_left, _) _ => 0 <= gas_left <= 90000
  | Fail _ _ => False
  | Panic _ => True
  end.
Proof.
  assert (Hg : 0 <= 90000 < 2 ^ 64) by (split; [by apply Z.leb_le|by apply Z.ltb_lt]).
  assert (Hf : 90000 < Z.of_nat fuel) by (apply fuel_enough; by apply Z.leb_le).
  pose proof (runs_end (ex_env (ex_trx (Some storing) 5 7 100000 [])) eq_refl precompiles precompiles_total_ fuel CALL
    (ContractAccWrapper payer) storing [] 90000 7 ex_evm Hg Hf) as [Hr _].
  exact Hr.
Defined.

(** Three journalled operations, the second of which is reverted by itself. *)
Definition j1 : TransitionState := after (ts_AddBalance payer 5) ex_state.
Definition j2 : TransitionState := after (ts_SetState storing 3 4) j1.
Definition j3 : TransitionState := after (ts_Suicide storing payer) j2.

Lemma revert_restores_witness :
  exists s3, ts_RevertToSnapshot 0 j3 = Done tt s3 /\ same_state s3 ex_state /\
             balance_at j3 payer = 1000000005 /\ balance_at s3 payer = 1000000000.
Proof.
  assert (Hj : journalled 0 ex_state j3).
  { destruct (gives_done (ts_AddBalance payer 5) ex_state (fun _ _ => true)) as (a1 & E1 & _); [by vm_compute|].
    destruct (gives_done (ts_SetState storing 3 4) j1 (fun _ _ => true)) as (a2 & E2 & _); [by vm_compute|].
    destruct (gives_done (ts_Suicide storing payer) j2 (fun _ _ => true)) as (a3 & E3 & _); [by vm_compute|].
    eapply j_op; [eapply j_op; [eapply j_op; [apply j_start|apply (vo_AddBalance payer 5)|exact E1]
                               |apply (vo_SetState storing 3 4)|exact E2]|apply (vo_Suicide storing payer)|exact E3]. }
  destruct (revert_restores ex_state ex_state 0 j3 eq_refl Hj) as (s3 & E & Hs & _). exists s3.
  split; [exact E|]. split; [exact Hs|]. split; [by vm_compute|].
  rewrite (same_balance _ _ payer Hs). by vm_compute.
Defined.

(** *** Transactions *)
Definition revert_trx : Transaction := ex_trx (Some reverting) 5 7 100000 [].
Definition store_trx : Transaction := ex_trx (Some storing) 5 7 100000 [].
Abbreviation run_trx t := (Main (ex_env t) precompiles fuel).

Ltac main_hyps := first [by apply fuel_enough; apply Z.leb_le | by split; [apply Z.leb_le|apply Z.ltb_lt] | by apply Z.leb_le; vm_compute].

Lemma main_gas_bounded_witness :
  match run_trx store_trx ex_evm with
  | Done (res, _) _ =>
      0 <= GasUsed res <= 100000 /\ (ConsensusErr res = None -> exists g, IntrinsicGas [] false = inr g /\ g <= 2 * GasUsed res)
  | Fail _ _ => False
  | Panic _ => True
  end.
Proof.
  exact (main_gas_bounded (ex_env store_trx) precompiles precompiles_kept precompiles_total_ eq_refl
    ltac:(main_hyps) ltac:(main_hyps) fuel ex_evm ltac:(main_hyps) ltac:(main_hyps) ltac:(main_hyps) ltac:(main_hyps)).
Defined.

(** The contract reverts: 2 wei for each unit of the gas used are gone and
    the nonce of the payer is 6. *)
Lemma failed_transaction_pays_gas_witness :
  exists res ex e', run_trx revert_trx ex_evm = Done (res, ex) e' /\ ExecutionErr res = Some ErrExecutionReverted /\
    exists n, pays payer (GasUsed res * 2) n (evm_state ex_evm) (evm_state e').
Proof.
  destruct (gives_done (run_trx revert_trx) ex_evm (fun r _ => bool_decide (ExecutionErr r.1 = Some ErrExecutionReverted)))
    as ([res ex] & E & Hx%bool_decide_eq_true); [by vm_compute|].
  exists res, ex, (after (run_trx revert_trx) ex_evm). split; [exact E|]. split; [exact Hx|].
  destruct (failed_transaction_pays_gas (ex_env revert_trx) precompiles precompiles_kept precompiles_total_ eq_refl
    ltac:(main_hyps) ltac:(main_hyps) fuel ex_evm res ex _ ltac:(main_hyps) ltac:(main_hyps) ltac:(main_hyps) ltac:(main_hyps) E)
    as (n & _ & Hp); [right; simpl in Hx; by rewrite Hx|]. by exists n.
Defined.

Lemma no_replay_witness :
  exists res ex e' res2 ex2 e2', run_trx store_trx ex_evm = Done (res, ex) e' /\ ConsensusErr res = None /\
    run_trx store_trx e' = Done (res2, ex2) e2' /\ ConsensusErr res2 <> None.
Proof.
  destruct (gives_done (run_trx store_trx) ex_evm (fun r _ => bool_decide (ConsensusErr r.1 = None)))
    as ([res ex] & E & Hx%bool_decide_eq_true); [by vm_compute|].
  destruct (gives_done (run_trx store_trx) (after (run_trx store_trx) ex_evm) (fun _ _ => true)) as ([res2 ex2] & E2 & _); [by vm_compute|].
  exists res, ex, (after (run_trx store_trx) ex_evm), res2, ex2, (after (run_trx store_trx) (after (run_trx store_trx) ex_evm)).
  split; [exact E|]. split; [exact Hx|]. split; [exact E2|].
  exact (no_replay (ex_env store_trx) precompiles precompiles_kept precompiles_total_ eq_refl
    ltac:(main_hyps) ltac:(main_hyps) fuel fuel ex_evm res ex _ _ res2 ex2 _ ltac:(main_hyps) ltac:(main_hyps) ltac:(main_hyps) ltac:(main_hyps)
    E Hx (Z.le_refl _) E2).
Defined.

(** ** The exponentiation at address 5: [3 ^ 5 mod 7 = 5] *)
Definition modexp_input : bytes := uint_to_be 32 1 ++ uint_to_be 32 1 ++ uint_to_be 32 2 ++ [byte_of_Z 3; byte_of_Z 5; byte_of_Z 0; byte_of_Z 7].

Lemma modexp_implements_eip198_witness :
  eip198 modexp_input = (5, 2) /\
  exists g, bigModExp_RequiredGas modexp_input = Some g /\
    (g < 2 ^ 56 -> exists out, bigModExp_Run modexp_input = Some (inr (Fresh out)) /\ eip198 modexp_input = (be_to_uint out, Z.of_nat (length out))).
Proof. split; [by vm_compute|]. apply (modexp_implements_eip198 modexp_input). by vm_compute. Defined.

Lemma put_get_witness :
  match Precompiles_Put (addr_of_Z 254) (contract_of (always 1) (total dataCopy_Run)) precompiles with
  | Some t' => length t' = 255%nat /\
      forall a, Precompiles_Get t' a = if bool_decide (a = addr_of_Z 254) then Some (contract_of (always 1) (total dataCopy_Run)) else Precompiles_Get precompiles a
  | None => take 19 (addr_bytes (addr_of_Z 254)) <> replicate 19 Byte.x00 \/
            Z_of_byte (default Byte.x00 (addr_bytes (addr_of_Z 254) !! 19%nat)) = 0 \/ Precompiles_Get precompiles (addr_of_Z 254) <> None
  end.
Proof. apply (put_get precompiles (addr_of_Z 254) (contract_of (always 1) (total dataCopy_Run))). by apply Nat.leb_le. Defined.
