(* ===== verification/EvmFindings.v ===== *)
(** * Runs of the interpreter that go wrong

    Programs and transactions, evaluated on the machine of [EvmExample.v], for
    which the code does not do what it means to. *)
From S2P Require Import Prelude Bytes Rlp Crypto Uint256 EvmWord EvmBase EvmMemory EvmGas EvmInstr EvmTable EvmRun StateEvm StateRevert EvmFrame EvmKeeps StateKeeps EvmTermination EvmContracts EvmMain EvmExample.
Local Open Scope Z_scope.
#[local] Existing Instance RefWords.ops.
#[local] Existing Instance toy_crypto.
#[local] Existing Instance toy_curves.

(** A machine whose account [storing] has the given code, and the call of it. *)
Definition with_code (prog : list Z) : EVM TransitionState := evm_of_db (db_of [(storing, code_bytes prog); (reverting, code_bytes [0x60; 0; 0xff])]).
Abbreviation call_it := (ex_call storing 0).
Definition max_word : list Z := replicate 32 255.

(** ** Memory sizes *)
(** [off + l] is computed modulo 2^256: [MLOAD] of the last address asks for
    31 bytes of memory, is paid for, and slices the memory at -1. *)
Example mload_wraps : panics call_it (with_code ([0x7f] ++ max_word ++ [0x51; 0])) = true.
Proof. by vm_compute. Qed.

(** [MSTORE8] of the last address asks for no memory at all. *)
Example mstore8_wraps : panics call_it (with_code ([0x60; 0; 0x7f] ++ max_word ++ [0x53; 0])) = true.
Proof. by vm_compute. Qed.

(** Where the size of [MCOPY] does not fit 64 bits it is taken to be zero. *)
Example mcopy_overflow : panics call_it (with_code ([0x60; 1; 0x60; 0; 0x68; 1; 0; 0; 0; 0; 0; 0; 0; 0; 0x5e; 0])) = true.
Proof. by vm_compute. Qed.

(** ** Return data *)
(** The contract at address 4 returns its input, a slice of the caller's
    memory; the result written to [16, 48) of the memory changes it before
    it becomes the return data.  The program stores a word, calls address 4
    and returns the 32 bytes of return data. *)
Definition identity_prog : list Z :=
  [0x7f] ++ (Z.of_nat <$> seq 1 32) ++ [0x60; 0; 0x52;
   0x60; 32; 0x60; 16; 0x60; 32; 0x60; 0; 0x60; 0; 0x60; 4; 0x5a; 0xf1;
   0x60; 32; 0x60; 0; 0x60; 64; 0x3e; 0x60; 32; 0x60; 64; 0xf3].

Example identity_return_data :
  gives call_it (with_code identity_prog)
    (fun r _ => match r with (Fresh b, _, None) => bool_decide (b = code_bytes ((Z.of_nat <$> seq 1 16) ++ (Z.of_nat <$> seq 1 16))) | _ => false end) = true.
Proof. by vm_compute. Qed.

(** ** The refund of [SELFDESTRUCT] *)
(** [HasSuicided] is true of nil accounts only, so that an account that calls
    [SELFDESTRUCT] twice is refunded twice. *)
Definition call_reverting : list Z := [0x60; 0; 0x60; 0; 0x60; 0; 0x60; 0; 0x60; 0; 0x61; 2; 1; 0x5a; 0xf1].

Example refunded_twice :
  gives call_it (with_code (call_reverting ++ call_reverting ++ [0])) (fun _ e => refund (evm_state e) =? 48000) = true.
Proof. by vm_compute. Qed.

(** ** Transient storage *)
(** A write is not in the journal: going back to a snapshot keeps it. *)
Example transient_survives_revert :
  gives (n ← ts_Snapshot; _ ← ts_SetTransientState storing zero_hash (uint_to_be 32 1); _ ← ts_RevertToSnapshot n;
         ts_GetTransientState storing zero_hash) ex_state (fun v _ => be_to_uint v =? 1) = true.
Proof. by vm_compute. Qed.

(** ** Storage of a contract that was destroyed *)
(** In one block a contract with 7 in slot 0 is destroyed and an account made
    at its address, which writes slot 1; the next transaction then reads slot
    0 from the database, where the old contract still is. *)
Definition stored_state : TransitionState := state_of_db {|
  in_GetCode _ := storing_code;
  in_GetAccount a := if bool_decide (a = storing)
    then Some (mkDbAccount 1 0 (Some zero_hash) (Some zero_hash) (Z.of_nat (length storing_code))) else None;
  in_GetAccountStorage a k := if bool_decide (a = storing) && (be_to_uint k =? 0) then Some (uint_to_be 32 7) else None;
|}.

Definition destroy_and_recreate : M TransitionState (Z * Z) :=
  _ ← ts_Suicide storing payer; out ← CommitTransaction [];
  _ ← ts_IncrementNonce storing; _ ← ts_SetState storing 1 1; v ← ts_GetState storing 0; out ← CommitTransaction out;
  w ← ts_GetState storing 0; ret (v, w).

Example stale_storage : gives destroy_and_recreate stored_state (fun p _ => (fst p =? 0) && (snd p =? 7)) = true.
Proof. by vm_compute. Qed.

(** ** Nonces of refused transactions *)
(** A transfer of more than the balance is refused and uses up the nonce; a
    creation with more than the balance is refused, charged, and leaves the
    nonce at that of the transaction, which can be charged again. *)
Example refused_call_nonce :
  gives (run_trx (ex_trx (Some storing) 5 1000000000 100000 [])) ex_evm
    (fun r e => bool_decide (ConsensusErr r.1 = Some ErrInsufficientBalanceForTransfer) && (nonce_at (evm_state e) payer =? 6)) = true.
Proof. by vm_compute. Qed.

Example refused_creation_nonce :
  let t := ex_trx None 5 1000000000 100000 [] in
  gives (r ← run_trx t; r2 ← run_trx t; ret (r.1, r2.1)) ex_evm
    (fun p e => bool_decide (ConsensusErr p.1 = Some ErrInsufficientBalanceForTransfer) &&
       bool_decide (ConsensusErr p.2 = Some ErrInsufficientBalanceForTransfer) &&
       (nonce_at (evm_state e) payer =? 5) && (balance_at (evm_state e) payer =? 1000000000 - 400000)) = true.
Proof. by vm_compute. Qed.
