(* ===== verification/DposStorage.v ===== *)
(** * The DPOS contract's records and its storage interface

    The records of [dpos/precompiled] that live in contract storage, and
    [DposKV]: reading and writing one record of each kind.  The contract code
    is written against [DposKV]; [TStore] is the typed implementation the
    invariants are stated on. *)
From S2P Require Import Prelude Bytes Storage IterableMap.

(** ** Records *)

(** [Validator] embeds [*ValidatorV1] and adds the count of undelegations. *)
Record ValidatorV1 := mkValidatorV1 {
  TotalStake : Z;
  Commission : Z;            (* uint16 *)
  LastCommissionChange : Z;  (* block *)
  LastUpdated : Z;           (* block *)
}.

Record Validator := mkValidator {
  v1 :> ValidatorV1;
  UndelegationsCount : Z;    (* uint16 *)
}.

Definition set_TotalStake (z : Z) (v : Validator) : Validator :=
  mkValidator (mkValidatorV1 z (Commission v) (LastCommissionChange v) (LastUpdated v)) (UndelegationsCount v).
Definition set_Commission (c b : Z) (v : Validator) : Validator :=
  mkValidator (mkValidatorV1 (TotalStake v) c b (LastUpdated v)) (UndelegationsCount v).
Definition set_LastUpdated (b : Z) (v : Validator) : Validator :=
  mkValidator (mkValidatorV1 (TotalStake v) (Commission v) (LastCommissionChange v) b) (UndelegationsCount v).
Definition set_UndelegationsCount (n : Z) (v : Validator) : Validator := mkValidator (v1 v) n.

(** What is stored: the record before the Magnolia hardfork, or after. *)
Inductive StoredValidator :=
| StoredV1 (v : ValidatorV1)
| StoredV2 (v : Validator).

Record ValidatorInfo := mkValidatorInfo { Description : string; Endpoint : string }.

Record ValidatorRewards := mkValidatorRewards {
  RewardsPool : Z;
  CommissionRewardsPool : Z;
}.

(** State of the F1 reward distribution: rewards accumulated per unit of
    stake, and the number of records that refer to it. *)
Record State := mkState {
  RewardsPer1Stake : Z;
  Count : Z;                 (* uint32 *)
}.

Record Delegation := mkDelegation {
  d_Stake : Z;
  d_LastUpdated : Z;         (* block *)
}.

Record UndelegationV1 := mkUndelegationV1 {
  u_Amount : Z;
  u_Block : Z;               (* block *)
}.

Record UndelegationV2 := mkUndelegationV2 {
  u_V1 :> UndelegationV1;
  u_Id : Z;                  (* uint64 *)
}.

(** ** The iterable maps the contract keeps *)
Inductive imap_id :=
| ImValidators                          (* all validators *)
| ImDelegator (delegator : Address)     (* validators a delegator delegates to *)
| ImUndelV1 (delegator : Address)       (* validators of its V1 undelegations *)
| ImUndelV2 (delegator : Address)       (* validators of its V2 undelegations *)
| ImUndelIds (delegator validator : Address).  (* ids of V2 undelegations *)

Inductive imkey := IKItem (pos : bytes) | IKCount | IKPos (item : bytes).

#[export] Instance imap_id_eq_dec : EqDecision imap_id.
Proof. solve_decision. Defined.
#[export] Instance imkey_eq_dec : EqDecision imkey.
Proof. solve_decision. Defined.

#[export] Instance imap_id_countable : Countable imap_id.
Proof.
  refine (inj_countable'
    (fun i => match i with
              | ImValidators => inl (inl ())
              | ImDelegator a => inl (inr (inl a))
              | ImUndelV1 a => inl (inr (inr a))
              | ImUndelV2 a => inr (inl a)
              | ImUndelIds a b => inr (inr (a, b))
              end)
    (fun c => match c with
              | inl (inl ()) => ImValidators
              | inl (inr (inl a)) => ImDelegator a
              | inl (inr (inr a)) => ImUndelV1 a
              | inr (inl a) => ImUndelV2 a
              | inr (inr (a, b)) => ImUndelIds a b
              end) _).
  by intros [].
Defined.

#[export] Instance imkey_countable : Countable imkey.
Proof.
  refine (inj_countable'
    (fun i => match i with IKItem p => inl p | IKCount => inr (inl ()) | IKPos x => inr (inr x) end)
    (fun c => match c with inl p => IKItem p | inr (inl ()) => IKCount | inr (inr x) => IKPos x end) _).
  by intros [].
Defined.

(** ** Kinds of stored records *)
Inductive scalar := SEligibleVoteCount | SAmountDelegated | SMintedTokens | STotalSupply.

#[export] Instance scalar_eq_dec : EqDecision scalar.
Proof. solve_decision. Defined.
#[export] Instance scalar_countable : Countable scalar.
Proof.
  refine (inj_countable'
    (fun i => match i with SEligibleVoteCount => 0%nat | SAmountDelegated => 1%nat
                         | SMintedTokens => 2%nat | STotalSupply => 3%nat end)
    (fun n => match n with 0%nat => SEligibleVoteCount | 1%nat => SAmountDelegated
                         | 2%nat => SMintedTokens | _ => STotalSupply end) _).
  by intros [].
Defined.

Inductive kind :=
| KdValidator | KdInfo | KdRewards | KdOwner | KdVrf | KdState | KdDelegation
| KdUndelV1 | KdUndelV2 | KdUniqueId | KdIMap | KdScalar | KdYield.

(** The index of a record: the variable parts of its storage key. *)
Definition idx (k : kind) : Type :=
  match k with
  | KdValidator | KdInfo | KdRewards | KdOwner | KdVrf | KdUniqueId => Address
  | KdState => Address * Z                (* validator, block *)
  | KdDelegation | KdUndelV1 => Address * Address  (* validator, delegator *)
  | KdUndelV2 => Address * Address * Z    (* delegator, validator, id *)
  | KdIMap => imap_id * imkey
  | KdScalar => scalar
  | KdYield => unit
  end.

Definition val (k : kind) : Type :=
  match k with
  | KdValidator => StoredValidator
  | KdInfo => ValidatorInfo
  | KdRewards => ValidatorRewards
  | KdState => State
  | KdDelegation => Delegation
  | KdUndelV1 => UndelegationV1
  | KdUndelV2 => UndelegationV2
  | KdOwner | KdVrf | KdUniqueId | KdIMap | KdScalar => bytes
  | KdYield => Z
  end.

(** RLP refuses negative integers ([MustEncodeToBytes] panics on them). *)
Definition encodable (k : kind) : val k -> bool :=
  match k return val k -> bool with
  | KdValidator => fun v => match v with StoredV1 w => 0 <=? TotalStake w | StoredV2 w => 0 <=? TotalStake w end
  | KdRewards => fun r => (0 <=? RewardsPool r) && (0 <=? CommissionRewardsPool r)
  | KdState => fun s => 0 <=? RewardsPer1Stake s
  | KdDelegation => fun d => 0 <=? d_Stake d
  | KdUndelV1 => fun u => 0 <=? u_Amount u
  | KdUndelV2 => fun u => 0 <=? u_Amount u
  | _ => fun _ => true
  end.

(** A raw byte value that is empty is stored as an absence. *)
Definition present (k : kind) : val k -> bool :=
  match k return val k -> bool with
  | KdOwner | KdVrf | KdUniqueId | KdIMap | KdScalar => fun b => negb (Nat.eqb (length b) 0)
  | _ => fun _ => true
  end.

Class DposKV (St : Type) : Type := {
  kv_get k : idx k -> M St (option (val k));
  kv_put k : idx k -> option (val k) -> M St ();
}.

(** The keys of an iterable map inside the contract's storage. *)
#[export] Instance kv_bytestore {St} `{DposKV St} : ByteStore St (imap_id * imkey) := {|
  Get i := kv_get KdIMap i;
  Put i b := kv_put KdIMap i (nonempty b);
|}.

Definition imap_of (id : imap_id) : imap (imap_id * imkey) :=
  mkImap (fun p => (id, IKItem p)) (id, IKCount) (fun x => (id, IKPos x)).

(** ** The typed store *)
Record TStore := mkTStore {
  ts_validator : gmap Address StoredValidator;
  ts_info : gmap Address ValidatorInfo;
  ts_rewards : gmap Address ValidatorRewards;
  ts_owner : gmap Address bytes;
  ts_vrf : gmap Address bytes;
  ts_state : gmap (Address * Z) State;
  ts_delegation : gmap (Address * Address) Delegation;
  ts_undel1 : gmap (Address * Address) UndelegationV1;
  ts_undel2 : gmap (Address * Address * Z) UndelegationV2;
  ts_uid : gmap Address bytes;
  ts_imap : gmap (imap_id * imkey) bytes;
  ts_scalar : gmap scalar bytes;
  ts_yield : gmap unit Z;
}.

Definition empty_tstore : TStore := mkTStore ∅ ∅ ∅ ∅ ∅ ∅ ∅ ∅ ∅ ∅ ∅ ∅ ∅.

Definition ts_lookup (s : TStore) (k : kind) : idx k -> option (val k) :=
  match k return idx k -> option (val k) with
  | KdValidator => fun i => ts_validator s !! i
  | KdInfo => fun i => ts_info s !! i
  | KdRewards => fun i => ts_rewards s !! i
  | KdOwner => fun i => ts_owner s !! i
  | KdVrf => fun i => ts_vrf s !! i
  | KdState => fun i => ts_state s !! i
  | KdDelegation => fun i => ts_delegation s !! i
  | KdUndelV1 => fun i => ts_undel1 s !! i
  | KdUndelV2 => fun i => ts_undel2 s !! i
  | KdUniqueId => fun i => ts_uid s !! i
  | KdIMap => fun i => ts_imap s !! i
  | KdScalar => fun i => ts_scalar s !! i
  | KdYield => fun i => ts_yield s !! i
  end.

Definition mput `{Countable K} {V} (i : K) (o : option V) (m : gmap K V) : gmap K V :=
  match o with Some v => <[i := v]> m | None => delete i m end.

Definition ts_update (s : TStore) (k : kind) : idx k -> option (val k) -> TStore :=
  match k return idx k -> option (val k) -> TStore with
  | KdValidator => fun i x => mkTStore (mput i x (ts_validator s)) (ts_info s) (ts_rewards s) (ts_owner s) (ts_vrf s) (ts_state s)
      (ts_delegation s) (ts_undel1 s) (ts_undel2 s) (ts_uid s) (ts_imap s) (ts_scalar s) (ts_yield s)
  | KdInfo => fun i x => mkTStore (ts_validator s) (mput i x (ts_info s)) (ts_rewards s) (ts_owner s) (ts_vrf s) (ts_state s)
      (ts_delegation s) (ts_undel1 s) (ts_undel2 s) (ts_uid s) (ts_imap s) (ts_scalar s) (ts_yield s)
  | KdRewards => fun i x => mkTStore (ts_validator s) (ts_info s) (mput i x (ts_rewards s)) (ts_owner s) (ts_vrf s) (ts_state s)
      (ts_delegation s) (ts_undel1 s) (ts_undel2 s) (ts_uid s) (ts_imap s) (ts_scalar s) (ts_yield s)
  | KdOwner => fun i x => mkTStore (ts_validator s) (ts_info s) (ts_rewards s) (mput i x (ts_owner s)) (ts_vrf s) (ts_state s)
      (ts_delegation s) (ts_undel1 s) (ts_undel2 s) (ts_uid s) (ts_imap s) (ts_scalar s) (ts_yield s)
  | KdVrf => fun i x => mkTStore (ts_validator s) (ts_info s) (ts_rewards s) (ts_owner s) (mput i x (ts_vrf s)) (ts_state s)
      (ts_delegation s) (ts_undel1 s) (ts_undel2 s) (ts_uid s) (ts_imap s) (ts_scalar s) (ts_yield s)
  | KdState => fun i x => mkTStore (ts_validator s) (ts_info s) (ts_rewards s) (ts_owner s) (ts_vrf s) (mput i x (ts_state s))
      (ts_delegation s) (ts_undel1 s) (ts_undel2 s) (ts_uid s) (ts_imap s) (ts_scalar s) (ts_yield s)
  | KdDelegation => fun i x => mkTStore (ts_validator s) (ts_info s) (ts_rewards s) (ts_owner s) (ts_vrf s) (ts_state s)
      (mput i x (ts_delegation s)) (ts_undel1 s) (ts_undel2 s) (ts_uid s) (ts_imap s) (ts_scalar s) (ts_yield s)
  | KdUndelV1 => fun i x => mkTStore (ts_validator s) (ts_info s) (ts_rewards s) (ts_owner s) (ts_vrf s) (ts_state s)
      (ts_delegation s) (mput i x (ts_undel1 s)) (ts_undel2 s) (ts_uid s) (ts_imap s) (ts_scalar s) (ts_yield s)
  | KdUndelV2 => fun i x => mkTStore (ts_validator s) (ts_info s) (ts_rewards s) (ts_owner s) (ts_vrf s) (ts_state s)
      (ts_delegation s) (ts_undel1 s) (mput i x (ts_undel2 s)) (ts_uid s) (ts_imap s) (ts_scalar s) (ts_yield s)
  | KdUniqueId => fun i x => mkTStore (ts_validator s) (ts_info s) (ts_rewards s) (ts_owner s) (ts_vrf s) (ts_state s)
      (ts_delegation s) (ts_undel1 s) (ts_undel2 s) (mput i x (ts_uid s)) (ts_imap s) (ts_scalar s) (ts_yield s)
  | KdIMap => fun i x => mkTStore (ts_validator s) (ts_info s) (ts_rewards s) (ts_owner s) (ts_vrf s) (ts_state s)
      (ts_delegation s) (ts_undel1 s) (ts_undel2 s) (ts_uid s) (mput i x (ts_imap s)) (ts_scalar s) (ts_yield s)
  | KdScalar => fun i x => mkTStore (ts_validator s) (ts_info s) (ts_rewards s) (ts_owner s) (ts_vrf s) (ts_state s)
      (ts_delegation s) (ts_undel1 s) (ts_undel2 s) (ts_uid s) (ts_imap s) (mput i x (ts_scalar s)) (ts_yield s)
  | KdYield => fun i x => mkTStore (ts_validator s) (ts_info s) (ts_rewards s) (ts_owner s) (ts_vrf s) (ts_state s)
      (ts_delegation s) (ts_undel1 s) (ts_undel2 s) (ts_uid s) (ts_imap s) (ts_scalar s) (mput i x (ts_yield s))
  end.

Definition ts_put (k : kind) (i : idx k) (o : option (val k)) : M TStore () := fun s =>
  match o with
  | Some v =>
      if encodable k v then Done tt (ts_update s k i (if present k v then Some v else None))
      else Panic "rlp: cannot encode negative *big.Int"
  | None => Done tt (ts_update s k i None)
  end.

#[export] Instance TStore_kv : DposKV TStore := {|
  kv_get k i := fun s => Done (ts_lookup s k i) s;
  kv_put := ts_put;
|}.
