(* ===== verification/Validators.v ===== *)
(** * Validators, delegations and undelegations

    [validators.go], [delegations.go] and [undelegations.go] of
    [taraxa/state/contracts/dpos/precompiled]: the operations on the three
    record families, over the storage interface [DposKV].  A pointer that may
    be nil is an [option]; dereferencing nil panics. *)
From S2P Require Import Prelude Bytes Storage IterableMap DposStorage.

Section ops.
Context {St : Type} `{DposKV St}.

Definition deref {A} (p : option A) : M St A :=
  match p with Some a => ret a | None => panic "nil pointer dereference" end.

(** ** [validators.go] *)
Abbreviation validators_list := (imap_of ImValidators).

Definition GetValidatorOwner (validator : Address) : M St Address :=
  o ← kv_get KdOwner validator;
  ret (match o : option bytes with Some b => BytesToAddress b | None => ZeroAddress end).

Definition CheckValidatorOwner (owner validator : Address) : M St bool :=
  saved_addr ← GetValidatorOwner validator;
  ret (bool_decide (owner = saved_addr)).

Definition GetVrfKey (validator : Address) : M St bytes :=
  o ← kv_get KdVrf validator; ret (default [] (o : option bytes)).

Definition ValidatorExists (validator_address : Address) : M St bool :=
  AccountExists validators_list validator_address.

Definition GetValidatorsAddresses (batch count : Z) : M St (list Address * bool) :=
  GetAccounts validators_list batch count.

Definition GetValidatorsCount : M St Z := GetCount validators_list.

(** The types [Save], [Modify] and [Get] are instantiated at. *)
Inductive Field := FValidatorV1 | FValidator | FValidatorInfo | FValidatorRewards.

Definition field_data (f : Field) : Type :=
  match f with
  | FValidatorV1 => ValidatorV1
  | FValidator => Validator
  | FValidatorInfo => ValidatorInfo
  | FValidatorRewards => ValidatorRewards
  end.

Definition Save (f : Field) (address : Address) : field_data f -> M St () :=
  match f return field_data f -> M St () with
  | FValidatorV1 => fun data => kv_put KdValidator address (Some (StoredV1 data))
  | FValidator => fun data => kv_put KdValidator address (Some (StoredV2 data))
  | FValidatorInfo => fun data => kv_put KdInfo address (Some data)
  | FValidatorRewards => fun data => kv_put KdRewards address (Some data)
  end.

Definition Modify (f : Field) (address : Address) (data : option (field_data f)) : M St () :=
  match data with
  | None => panic "Modify: data to modify cannot be nil"
  | Some data =>
      b ← ValidatorExists address;
      if negb b then panic "Modify: non existent validator" else Save f address data
  end.

Definition CreateValidator (extended_validator : bool) (owner_address validator_address : Address)
    (vrf_key : bytes) (block commission : Z) (description endpoint : string) : M St Validator :=
  let validator := mkValidator (mkValidatorV1 0 commission block block) 0 in
  _ ← (if extended_validator then Save FValidator validator_address validator
       else Save FValidatorV1 validator_address (v1 validator));
  _ ← Save FValidatorInfo validator_address (mkValidatorInfo description endpoint);
  _ ← Save FValidatorRewards validator_address (mkValidatorRewards 0 0);
  _ ← kv_put KdOwner validator_address (Some (addr_bytes owner_address));
  _ ← kv_put KdVrf validator_address (Some vrf_key);
  _ ← CreateAccount validators_list validator_address;
  ret validator.

Definition DeleteValidator (validator_address : Address) : M St () :=
  _ ← kv_put KdValidator validator_address None;
  _ ← kv_put KdInfo validator_address None;
  _ ← kv_put KdOwner validator_address None;
  _ ← kv_put KdVrf validator_address None;
  _ ← kv_put KdRewards validator_address None;
  _ ← RemoveAccount validators_list validator_address;
  ret tt.

(** Records written before the Magnolia hardfork have no undelegation
    count; it reads as zero. *)
Definition validator_of (v : StoredValidator) : Validator :=
  match v with StoredV1 w => mkValidator w 0 | StoredV2 w => w end.

Definition GetValidator (validator_address : Address) : M St (option Validator) :=
  o ← kv_get KdValidator validator_address; ret (validator_of <$> (o : option StoredValidator)).

Definition ModifyValidator (extended_validator : bool) (validator_address : Address) (validator : Validator)
  : M St () :=
  if extended_validator then Modify FValidator validator_address (Some validator)
  else Modify FValidatorV1 validator_address (Some (v1 validator)).

Definition GetValidatorInfo (a : Address) : M St (option ValidatorInfo) := kv_get KdInfo a.
Definition ModifyValidatorInfo (a : Address) (i : ValidatorInfo) : M St () :=
  Modify FValidatorInfo a (Some i).
Definition GetValidatorRewards (a : Address) : M St (option ValidatorRewards) := kv_get KdRewards a.
Definition ModifyValidatorRewards (a : Address) (r : option ValidatorRewards) : M St () :=
  Modify FValidatorRewards a r.

Definition AddValidatorRewards (validator_address : Address) (commission_reward reward : Z) : M St () :=
  b ← ValidatorExists validator_address;
  if negb b then panic "AddValidatorRewards: non existent validator"
  else
    o ← GetValidatorRewards validator_address;
    r ← deref o;
    ModifyValidatorRewards validator_address
      (Some (mkValidatorRewards (RewardsPool r + reward) (CommissionRewardsPool r + commission_reward))).

(** ** [delegations.go] *)
Definition getDelegatorValidatorsList (delegator_address : Address) : imap (imap_id * imkey) :=
  imap_of (ImDelegator delegator_address).

Definition DelegationExists (delegator_address validator_address : Address) : M St bool :=
  AccountExists (getDelegatorValidatorsList delegator_address) validator_address.

Definition GetDelegationsCount (delegator_address : Address) : M St Z :=
  GetCount (getDelegatorValidatorsList delegator_address).

Definition GetDelegation (delegator_address validator_address : Address) : M St (option Delegation) :=
  kv_get KdDelegation (validator_address, delegator_address).

Definition ModifyDelegation (delegator_address validator_address : Address) (delegation : Delegation)
  : M St () :=
  b ← AccountExists (getDelegatorValidatorsList delegator_address) validator_address;
  if negb b then panic "ModifyDelegation: non existent delegation"
  else kv_put KdDelegation (validator_address, delegator_address) (Some delegation).

Definition CreateDelegation (delegator_address validator_address : Address) (block stake : Z) : M St () :=
  _ ← kv_put KdDelegation (validator_address, delegator_address) (Some (mkDelegation stake block));
  _ ← CreateAccount (getDelegatorValidatorsList delegator_address) validator_address;
  ret tt.

Definition RemoveDelegation (delegator_address validator_address : Address) : M St () :=
  _ ← kv_put KdDelegation (validator_address, delegator_address) None;
  _ ← RemoveAccount (getDelegatorValidatorsList delegator_address) validator_address;
  ret tt.

Definition GetDelegatorValidatorsAddresses (delegator_address : Address) (batch count : Z)
  : M St (list Address * bool) :=
  GetAccounts (getDelegatorValidatorsList delegator_address) batch count.

Definition GetAllDelegatorValidatorsAddresses (delegator_address : Address) : M St (list Address) :=
  GetAllAccounts (getDelegatorValidatorsList delegator_address).

(** ** [undelegations.go] *)
Definition getUndelegationsV1ValidatorsMap (delegator : Address) : imap (imap_id * imkey) :=
  imap_of (ImUndelV1 delegator).

(** [GetUndelegationsV2Maps]: the validators map and the ids map. *)
Definition undelegations_v2_validators (delegator : Address) : imap (imap_id * imkey) :=
  imap_of (ImUndelV2 delegator).
Definition undelegations_v2_ids (delegator validator : Address) : imap (imap_id * imkey) :=
  imap_of (ImUndelIds delegator validator).

Definition UndelegationV1Exists (delegator validator : Address) : M St bool :=
  AccountExists (getUndelegationsV1ValidatorsMap delegator) validator.

Definition undelegationV2Exists (delegator validator : Address) (undelegation_id : Z) : M St bool :=
  IdExists (undelegations_v2_ids delegator validator) undelegation_id.

Definition UndelegationExists (delegator validator : Address) (undelegation_id : option Z) : M St bool :=
  match undelegation_id with
  | Some id => undelegationV2Exists delegator validator id
  | None => UndelegationV1Exists delegator validator
  end.

Definition GetUndelegationV1 (delegator validator : Address) : M St (option UndelegationV1) :=
  kv_get KdUndelV1 (validator, delegator).

Definition GetUndelegationV2 (delegator validator : Address) (undelegation_id : Z)
  : M St (option UndelegationV2) :=
  kv_get KdUndelV2 (delegator, validator, undelegation_id).

Definition GetUndelegationBaseObject (delegator validator : Address) (undelegation_id : option Z)
  : M St (option UndelegationV1) :=
  match undelegation_id with
  | Some id => o ← GetUndelegationV2 delegator validator id; ret (u_V1 <$> o)
  | None => GetUndelegationV1 delegator validator
  end.

Definition GetUndelegationsV1Count (delegator : Address) : M St Z :=
  GetCount (getUndelegationsV1ValidatorsMap delegator).

Definition GetUndelegationsV2Count (delegator : Address) : M St Z :=
  accounts ← GetAllAccounts (undelegations_v2_validators delegator);
  counts ← map_each (fun v => GetCount (undelegations_v2_ids delegator v)) accounts;
  ret (foldl (fun c n => u32 (c + n)) 0 counts).

Definition CreateUndelegationV1 (delegator validator : Address) (block amount : Z) : M St () :=
  _ ← kv_put KdUndelV1 (validator, delegator) (Some (mkUndelegationV1 amount block));
  _ ← CreateAccount (getUndelegationsV1ValidatorsMap delegator) validator;
  ret tt.

(** Ids are per delegator and start at 1. *)
Definition genUniqueId (delegator : Address) : M St Z :=
  o ← kv_get KdUniqueId delegator;
  unique_id ← (match o : option bytes with Some b => id_of_bytes b | None => ret 0 end);
  let unique_id := u64 (unique_id + 1) in
  _ ← kv_put KdUniqueId delegator (Some (Uint64ToBytes unique_id));
  ret unique_id.

Definition CreateUndelegationV2 (delegator validator : Address) (block amount : Z) : M St Z :=
  id ← genUniqueId delegator;
  _ ← kv_put KdUndelV2 (delegator, validator, id) (Some (mkUndelegationV2 (mkUndelegationV1 amount block) id));
  n ← CreateId (undelegations_v2_ids delegator validator) id;
  _ ← (if n =? 1 then _ ← CreateAccount (undelegations_v2_validators delegator) validator; ret tt
       else ret tt);
  ret id.

Definition removeUndelegationV1 (delegator validator : Address) : M St () :=
  _ ← kv_put KdUndelV1 (validator, delegator) None;
  _ ← RemoveAccount (getUndelegationsV1ValidatorsMap delegator) validator;
  ret tt.

Definition removeUndelegationV2 (delegator validator : Address) (undelegation_id : Z) : M St () :=
  _ ← kv_put KdUndelV2 (delegator, validator, undelegation_id) None;
  n ← RemoveId (undelegations_v2_ids delegator validator) undelegation_id;
  if n =? 0 then _ ← RemoveAccount (undelegations_v2_validators delegator) validator; ret tt
  else ret tt.

Definition RemoveUndelegation (delegator validator : Address) (undelegation_id : option Z) : M St () :=
  match undelegation_id with
  | Some id => removeUndelegationV2 delegator validator id
  | None => removeUndelegationV1 delegator validator
  end.

Definition GetUndelegationsV1Validators (delegator : Address) (batch count : Z)
  : M St (list Address * bool) :=
  GetAccounts (getUndelegationsV1ValidatorsMap delegator) batch count.

Definition GetUndelegationsV2Validator (delegator : Address) (validator_idx : Z)
  : M St (option Address * bool) :=
  r ← GetAccounts (undelegations_v2_validators delegator) validator_idx 1;
  ret (head (fst (r : list Address * bool)), snd r).
End ops.
