(* ===== verification/Dpos.v ===== *)
(** * The DPOS contract: [dpos_contract.go], [yield_curve.go], [dpos_hardforks.go]

    State, handlers and reward distribution of the precompiled staking
    contract.  A handler runs in the monad [M (Contract KV)]: it may return
    an error (its writes stay) or panic.  The contract storage is any
    [DposKV]; balances and logs are those of the EVM state the contract is
    called in.  [block] is the handler's block argument, [evm_block] the
    number of the EVM's current block. *)
From S2P Require Import Prelude Bytes Crypto ChainConfig Uint256 Storage IterableMap DposStorage Validators.
Local Open Scope string_scope.

(** ** Constants *)
Definition RegisterValidatorGas : Z := 80000.
Definition SetCommissionGas : Z := 20000.
Definition DelegateGas : Z := 40000.
Definition UndelegateGas : Z := 60000.
Definition ConfirmUndelegateGas : Z := 20000.
Definition CancelUndelegateGas : Z := 60000.
Definition ReDelegateGas : Z := 80000.
Definition ClaimRewardsGas : Z := 40000.
Definition ClaimCommissionRewardsGas : Z := 20000.
Definition SetValidatorInfoGas : Z := 20000.
Definition DposGetMethodsGas : Z := 5000.
Definition DposBatchGetMethodsGas : Z := 5000.
Definition DefaultDposMethodGas : Z := 20000.
Definition TransferIntoDPoSContractGas : Z := 1000.

Definition ErrNonExistentValidator := "Validator does not exist".
Definition ErrNonExistentDelegation := "Delegation does not exist".
Definition ErrExistentDelegation := "Delegation already exist".
Definition ErrExistentUndelegation := "Undelegation already exist".
Definition ErrNonExistentUndelegation := "Undelegation does not exist".
Definition ErrLockedUndelegation := "Undelegation is not yet ready to be withdrawn".
Definition ErrExistentValidator := "Validator already exist".
Definition ErrSameValidator := "From and to validators are the same".
Definition ErrInvalidRedelegation := "Redelegation has to be more than 0".
Definition ErrBrokenState := "Fatal error state is broken".
Definition ErrValidatorsMaxStakeExceeded := "Validator's max stake exceeded".
Definition ErrInsufficientDelegation := "Insufficient delegation".
Definition ErrCallIsNotToplevel := "only top-level calls are allowed".
Definition ErrWrongProof := "Wrong proof, validator address could not be recovered".
Definition ErrWrongOwnerAcc := "This account is not owner of specified validator".
Definition ErrWrongVrfKey := "Wrong vrf key specified in validator arguments".
Definition ErrForbiddenCommissionChange := "Forbidden commission change".
Definition ErrCommissionOverflow := "Commission is bigger than maximum value".
Definition ErrMaxEndpointLengthExceeded := "Max endpoint length exceeded".
Definition ErrMaxDescriptionLengthExceeded := "Max description length exceeded".
Definition ErrMethodNotSupported := "Method not supported".
Definition ErrNonPayableMethod := "Method is not payable".

Definition MaxEndpointLength : nat := 50.
Definition MaxDescriptionLength : nat := 100.
Definition MaxCommission : Z := 10000.
Definition VrfKeyLength : nat := 32.
Definition ClaimAllRewardsMaxCount : Z := 10.
Definition GetValidatorsMaxCount : Z := 20.
Definition GetDelegationsMaxCount : Z := 20.
Definition GetUndelegationsMaxCount : Z := 20.
Local Close Scope string_scope.

Definition dpos_contract_address : Address := addr_of_Z 254.

(** ** Events ([dpos_logs.go]): one constructor per [Make...Log] *)
Inductive Log :=
| Delegated (delegator validator : Address) (amount : Z)
| UndelegatedV1 (delegator validator : Address) (amount : Z)
| UndelegatedV2 (delegator validator : Address) (undelegation_id amount : Z)
| UndelegateConfirmedV1 (delegator validator : Address) (amount : Z)
| UndelegateConfirmedV2 (delegator validator : Address) (undelegation_id amount : Z)
| UndelegateCanceledV1 (delegator validator : Address) (amount : Z)
| UndelegateCanceledV2 (delegator validator : Address) (undelegation_id amount : Z)
| Redelegated (delegator from to : Address) (amount : Z)
| RewardsClaimed (account validator : Address) (amount : Z)
| CommissionRewardsClaimed (account validator : Address) (amount : Z)
| CommissionSet (validator : Address) (commission : Z)
| ValidatorRegistered (validator : Address)
| ValidatorInfoSet (validator : Address).

Definition MakeUndelegateConfirmedLog (delegator validator : Address) (id : option Z) (amount : Z) : Log :=
  match id with
  | Some id => UndelegateConfirmedV2 delegator validator id amount
  | None => UndelegateConfirmedV1 delegator validator amount
  end.

Definition MakeUndelegateCanceledLog (delegator validator : Address) (id : option Z) (amount : Z) : Log :=
  match id with
  | Some id => UndelegateCanceledV2 delegator validator id amount
  | None => UndelegateCanceledV1 delegator validator amount
  end.

(** ** The contract's state *)
Record Contract (KV : Type) := mkContract {
  c_storage : KV;
  c_balances : gmap Address Z;   (* EVM account balances *)
  c_logs : list Log;             (* the EVM's log, oldest first *)
  c_nonce : Z;                   (* nonce of the contract's account *)
  eligible_vote_count_orig : Z;  (* uint64 *)
  eligible_vote_count : Z;       (* uint64 *)
  amount_delegated_orig : Z;     (* uint256 *)
  amount_delegated : Z;          (* uint256 *)
  minted_tokens : Z;             (* uint256 *)
  total_supply : option Z;       (* uint256, nil until computed *)
  lazy_init_done : bool;
}.

Arguments mkContract {KV}.
Arguments c_storage {KV}.
Arguments c_balances {KV}.
Arguments c_logs {KV}.
Arguments c_nonce {KV}.
Arguments eligible_vote_count_orig {KV}.
Arguments eligible_vote_count {KV}.
Arguments amount_delegated_orig {KV}.
Arguments amount_delegated {KV}.
Arguments minted_tokens {KV}.
Arguments total_supply {KV}.
Arguments lazy_init_done {KV}.

Section setters.
Context {KV : Type}.
Implicit Types s : Contract KV.

Definition set_storage (kv : KV) s : Contract KV :=
  mkContract kv (c_balances s) (c_logs s) (c_nonce s) (eligible_vote_count_orig s) (eligible_vote_count s)
    (amount_delegated_orig s) (amount_delegated s) (minted_tokens s) (total_supply s) (lazy_init_done s).
Definition set_balances (b : gmap Address Z) s : Contract KV :=
  mkContract (c_storage s) b (c_logs s) (c_nonce s) (eligible_vote_count_orig s) (eligible_vote_count s)
    (amount_delegated_orig s) (amount_delegated s) (minted_tokens s) (total_supply s) (lazy_init_done s).
Definition set_logs (l : list Log) s : Contract KV :=
  mkContract (c_storage s) (c_balances s) l (c_nonce s) (eligible_vote_count_orig s) (eligible_vote_count s)
    (amount_delegated_orig s) (amount_delegated s) (minted_tokens s) (total_supply s) (lazy_init_done s).
Definition set_nonce (n : Z) s : Contract KV :=
  mkContract (c_storage s) (c_balances s) (c_logs s) n (eligible_vote_count_orig s) (eligible_vote_count s)
    (amount_delegated_orig s) (amount_delegated s) (minted_tokens s) (total_supply s) (lazy_init_done s).
Definition set_votes (orig cur : Z) s : Contract KV :=
  mkContract (c_storage s) (c_balances s) (c_logs s) (c_nonce s) orig cur
    (amount_delegated_orig s) (amount_delegated s) (minted_tokens s) (total_supply s) (lazy_init_done s).
Definition set_amount (orig cur : Z) s : Contract KV :=
  mkContract (c_storage s) (c_balances s) (c_logs s) (c_nonce s) (eligible_vote_count_orig s) (eligible_vote_count s)
    orig cur (minted_tokens s) (total_supply s) (lazy_init_done s).
Definition set_supply (minted : Z) (supply : option Z) s : Contract KV :=
  mkContract (c_storage s) (c_balances s) (c_logs s) (c_nonce s) (eligible_vote_count_orig s) (eligible_vote_count s)
    (amount_delegated_orig s) (amount_delegated s) minted supply (lazy_init_done s).
Definition set_lazy (b : bool) s : Contract KV :=
  mkContract (c_storage s) (c_balances s) (c_logs s) (c_nonce s) (eligible_vote_count_orig s) (eligible_vote_count s)
    (amount_delegated_orig s) (amount_delegated s) (minted_tokens s) (total_supply s) b.
End setters.

(** The storage operations run on the storage component. *)
#[export] Instance contract_kv {KV} `{DposKV KV} : DposKV (Contract KV) := {|
  kv_get k i := fun s =>
    match kv_get k i (c_storage s) with
    | Done a kv => Done a (set_storage kv s)
    | Fail e kv => Fail e (set_storage kv s)
    | Panic m => Panic m
    end;
  kv_put k i o := fun s =>
    match kv_put k i o (c_storage s) with
    | Done a kv => Done a (set_storage kv s)
    | Fail e kv => Fail e (set_storage kv s)
    | Panic m => Panic m
    end;
|}.

(** [vm.CallFrame], the fields the contract uses. *)
Record CallFrame := mkCallFrame {
  CallerAccount : Address;
  Account : Address;
  Value : Z;
}.

(** Uint arithmetic helpers of [dpos_contract.go]. *)
Definition getDelta (x y : Z) : Z := if x <? y then u16 (y - x) else u16 (x - y).
Definition Max (x y : Z) : Z := if x <? y then y else x.
Definition BlockToBytes (number : Z) : bytes := big_Bytes number.

(** [registerValidator]'s arguments. *)
Record RegisterValidatorArgs := mkRegisterArgs {
  ra_Validator : Address;
  ra_Proof : bytes;
  ra_VrfKey : bytes;
  ra_Commission : Z;
  ra_Description : string;
  ra_Endpoint : string;
}.

Section contract.
Context {KV : Type} `{DposKV KV} `{Uint256} `{Crypto}.
Context (cfg : ChainConfig) (evm_block : Z).

Abbreviation C := (M (Contract KV)).
Abbreviation hf := (Hardforks cfg).
Abbreviation dp := (DPOS cfg).

Definition gets {A} (f : Contract KV -> A) : C A := fun s => Done (f s) s.

(** ** EVM state *)
Definition balance_of (s : Contract KV) (a : Address) : Z := default 0 (c_balances s !! a).
Definition AddBalance (a : Address) (amount : Z) : C () :=
  modify_st (fun s => set_balances (<[a := balance_of s a + amount]> (c_balances s)) s).
Definition SubBalance (a : Address) (amount : Z) : C () :=
  modify_st (fun s => set_balances (<[a := balance_of s a - amount]> (c_balances s)) s).
Definition AddLog (l : Log) : C () := modify_st (fun s => set_logs (c_logs s ++ [l]) s).

(** [EVMStateStorage.SubBalance]: only if the balance suffices. *)
Definition storage_SubBalance (a : Address) (amount : Z) : C bool :=
  b ← gets (fun s => balance_of s a);
  if (amount =? 0) || (amount <=? b) then _ ← SubBalance a amount; ret true else ret false.

(** The contract pays its caller; it panics when its own balance is short. *)
Definition transferContractBalance (ctx : CallFrame) (balance : Z) : C () :=
  availableBalance ← gets (fun s => balance_of s (Account ctx));
  if availableBalance <? balance then panic "Contract balance is smaller than required amount"
  else
    _ ← SubBalance (Account ctx) balance;
    AddBalance (CallerAccount ctx) balance.

(** ** Arithmetic *)

(** [big.Int.Div]: Euclidean division, which panics on zero. *)
Definition big_div {St} (x y : Z) : M St Z :=
  if y =? 0 then panic "division by zero"
  else ret (if y <? 0 then - (x / - y) else x / y).

Definition calculateRewardPer1Stake {St} (rewardsPool stake : Z) : M St Z :=
  big_div (rewardsPool * ValidatorMaximumStake dp) stake.

Definition calculateDelegatorReward {St} (rewardPer1Stake stake : Z) : M St Z :=
  big_div (rewardPer1Stake * stake) (ValidatorMaximumStake dp).

(** Safe [add64], that panics on overflow. *)
Definition add64p {St} (a b : Z) : M St Z :=
  let c := u64 (a + b) in
  if (c <? a) || (c <? b) then panic "addition overflow" else ret c.

Definition voteCount {St} (staking_balance block : Z) : M St Z :=
  tmp ← (if IsOnAspenHardforkPartOne hf block && (ValidatorMaximumStake dp <=? staking_balance)
         then big_div (ValidatorMaximumStake dp) (VoteEligibilityBalanceStep dp) else ret 0);
  tmp ← (if EligibilityBalanceThreshold dp <=? staking_balance
         then big_div staking_balance (VoteEligibilityBalanceStep dp) else ret tmp);
  if (0 <=? tmp) && (tmp <? 2 ^ 64) then ret tmp else panic "assertion error".

(** The eligible vote count follows a validator's change of votes. *)
Definition update_eligible_votes (prev_vote_count new_vote_count : Z) : C () :=
  if prev_vote_count =? new_vote_count then ret tt
  else
    e ← gets eligible_vote_count;
    e' ← add64p (u64 (e - prev_vote_count)) new_vote_count;
    modify_st (fun s => set_votes (eligible_vote_count_orig s) e' s).

Definition add_amount_delegated (value : Z) : C () :=
  modify_st (fun s => set_amount (amount_delegated_orig s)
                        (u_add (amount_delegated s) (fst (u_FromBig value))) s).
Definition sub_amount_delegated (value : Z) : C () :=
  modify_st (fun s => set_amount (amount_delegated_orig s)
                        (u_sub (amount_delegated s) (fst (u_FromBig value))) s).

(** ** F1 states *)
Definition state_get (validator_addr : Address) (block : Z) : C (option State) :=
  kv_get KdState (validator_addr, block).

Definition state_put (validator_addr : Address) (block : Z) (state : option State) : C () :=
  kv_put KdState (validator_addr, block) state.

(** Gets a state and drops one reference; the last one removes it. *)
Definition state_get_and_decrement (validator_addr : Address) (block : Z) : C State :=
  o ← state_get validator_addr block;
  match o with
  | None => panic "state_get_and_decrement - unable to fetch undelegation data"
  | Some st =>
      let st' := mkState (RewardsPer1Stake st) (u32 (Count st - 1)) in
      _ ← state_put validator_addr block (if Count st' =? 0 then None else Some st');
      ret st'
  end.

(** The validator's new state at [block]: it absorbs the rewards pool.
    Returns the state, the validator and its rewards as the handler goes on
    to use them. *)
Definition new_state (validator_addr : Address) (block : Z) (validator : Validator)
    (validator_rewards : option ValidatorRewards)
  : C (State * Validator * option ValidatorRewards) :=
  old_state ← state_get_and_decrement validator_addr (LastUpdated validator);
  r ← (if 0 <? TotalStake validator then
         rewards ← deref validator_rewards;
         q ← calculateRewardPer1Stake (RewardsPool rewards) (TotalStake validator);
         ret (RewardsPer1Stake old_state + q)
       else ret (RewardsPer1Stake old_state));
  rewards ← deref validator_rewards;
  ret (mkState r (u32 (0 + 1)), set_LastUpdated block validator,
       Some (mkValidatorRewards 0 (CommissionRewardsPool rewards))).

(** The part every handler starts with: the validator's state at [block], a
    new one if there is none. *)
Definition current_state (validator_addr : Address) (block : Z) (validator : Validator)
    (validator_rewards : option ValidatorRewards)
  : C (State * Validator * option ValidatorRewards) :=
  state ← state_get validator_addr block;
  match state with
  | Some state => ret (state, validator, validator_rewards)
  | None => new_state validator_addr block validator validator_rewards
  end.

(** "We need to claim rewards first": pays the caller what its delegation
    earned since its last update. *)
Definition claim_delegation (ctx : CallFrame) (validator_addr : Address) (state : State)
    (delegation : Delegation) : C () :=
  old_state ← state_get_and_decrement validator_addr (d_LastUpdated delegation);
  let reward_per_stake := RewardsPer1Stake state - RewardsPer1Stake old_state in
  reward ← calculateDelegatorReward reward_per_stake (d_Stake delegation);
  when (0 <? reward)
    (_ ← transferContractBalance ctx reward;
     AddLog (RewardsClaimed (CallerAccount ctx) validator_addr reward)).

Definition state_inc (st : State) : State := mkState (RewardsPer1Stake st) (u32 (Count st + 1)).
Definition set_stake (z b : Z) : Delegation := mkDelegation z b.

(** ** Delegating *)
Definition delegate_update_values (ctx : CallFrame) (validator : Validator) (prev_vote_count : Z)
  : C Validator :=
  let validator := set_TotalStake (TotalStake validator + Value ctx) validator in
  _ ← add_amount_delegated (Value ctx);
  new_vote_count ← voteCount (TotalStake validator) evm_block;
  _ ← update_eligible_votes prev_vote_count new_vote_count;
  ret validator.

Definition delegate (ctx : CallFrame) (block : Z) (args_Validator : Address) : C () :=
  validator ← GetValidator args_Validator;
  match validator with
  | None => throw ErrNonExistentValidator
  | Some validator =>
  validator_rewards ← GetValidatorRewards args_Validator;
  if ValidatorMaximumStake dp <? Value ctx + TotalStake validator then throw ErrValidatorsMaxStakeExceeded
  else
  delegation ← GetDelegation (CallerAccount ctx) args_Validator;
  if bool_decide (delegation = None) && (Value ctx <? MinimumDeposit dp)
  then throw ErrInsufficientDelegation
  else
  '(state, validator, validator_rewards) ← current_state args_Validator block validator validator_rewards;
  prev_vote_count ← voteCount (TotalStake validator) block;
  _ ← (match delegation with
       | None => CreateDelegation (CallerAccount ctx) args_Validator block (Value ctx)
       | Some delegation =>
           _ ← claim_delegation ctx args_Validator state delegation;
           ModifyDelegation (CallerAccount ctx) args_Validator
             (set_stake (d_Stake delegation + Value ctx) block)
       end);
  validator ← delegate_update_values ctx validator prev_vote_count;
  _ ← state_put args_Validator block (Some (state_inc state));
  _ ← ModifyValidator (IsOnMagnoliaHardfork hf block) args_Validator validator;
  _ ← ModifyValidatorRewards args_Validator validator_rewards;
  AddLog (Delegated (CallerAccount ctx) args_Validator (Value ctx))
  end.

(** ** Undelegating *)
Definition locking_period (block : Z) : Z :=
  if negb (IsOnCornusHardfork hf block) then DelegationLockingPeriod dp
  else cornus_DelegationLockingPeriod (CornusHf hf).

(** The last part of [undelegate]: the undelegation request. *)
Definition create_undelegation (v2 : bool) (ctx : CallFrame) (validator : Address) (block amount : Z) : C Z :=
  if v2 then
    undelegation_id ← CreateUndelegationV2 (CallerAccount ctx) validator block amount;
    _ ← AddLog (UndelegatedV2 (CallerAccount ctx) validator undelegation_id amount);
    ret undelegation_id
  else
    _ ← CreateUndelegationV1 (CallerAccount ctx) validator block amount;
    _ ← AddLog (UndelegatedV1 (CallerAccount ctx) validator amount);
    ret 0.

Definition undelegate (ctx : CallFrame) (block : Z) (args_Validator : Address) (args_Amount : Z) (v2 : bool)
  : C Z :=
  exists_v1 ← (if v2 then ret false else UndelegationV1Exists (CallerAccount ctx) args_Validator);
  if exists_v1 : bool then throw ErrExistentUndelegation else
  validator ← GetValidator args_Validator;
  match validator with
  | None => throw ErrNonExistentValidator
  | Some validator =>
  validator_rewards ← GetValidatorRewards args_Validator;
  delegation ← GetDelegation (CallerAccount ctx) args_Validator;
  match delegation with
  | None => throw ErrNonExistentDelegation
  | Some delegation =>
  if d_Stake delegation <? args_Amount then throw ErrInsufficientDelegation else
  if negb (d_Stake delegation =? args_Amount) && (d_Stake delegation - args_Amount <? MinimumDeposit dp)
  then throw ErrInsufficientDelegation else
  prev_vote_count ← voteCount (TotalStake validator) block;
  '(state, validator, validator_rewards) ← current_state args_Validator block validator validator_rewards;
  _ ← claim_delegation ctx args_Validator state delegation;
  let stake := d_Stake delegation - args_Amount in
  let validator := set_UndelegationsCount (u16 (UndelegationsCount validator + 1))
                     (set_TotalStake (TotalStake validator - args_Amount) validator) in
  state ← (if stake =? 0 then
             _ ← RemoveDelegation (CallerAccount ctx) args_Validator; ret state
           else
             _ ← ModifyDelegation (CallerAccount ctx) args_Validator (set_stake stake block);
             ret (state_inc state));
  _ ← sub_amount_delegated args_Amount;
  new_vote_count ← voteCount (TotalStake validator) block;
  _ ← update_eligible_votes prev_vote_count new_vote_count;
  delete ← (if negb (IsOnMagnoliaHardfork hf block) && (TotalStake validator =? 0) then
              rewards ← deref validator_rewards; ret (CommissionRewardsPool rewards =? 0)
            else ret false);
  _ ← (if delete : bool then
         _ ← DeleteValidator args_Validator;
         state_put args_Validator block None
       else
         _ ← state_put args_Validator block (Some state);
         _ ← ModifyValidator (IsOnMagnoliaHardfork hf block) args_Validator validator;
         ModifyValidatorRewards args_Validator validator_rewards);
  create_undelegation v2 ctx args_Validator (u64 (block + locking_period block)) args_Amount
  end end.

(** One undelegation fewer; it may already be 0 for undelegations from
    before the Magnolia hardfork. *)
Definition drop_undelegation (v : Validator) : Validator :=
  if 0 <? UndelegationsCount v then set_UndelegationsCount (u16 (UndelegationsCount v - 1)) v else v.

Definition confirmUndelegate (ctx : CallFrame) (block : Z) (validator_addr : Address)
    (undelegation_id : option Z) : C () :=
  e ← UndelegationExists (CallerAccount ctx) validator_addr undelegation_id;
  if negb e then throw ErrNonExistentUndelegation else
  o ← GetUndelegationBaseObject (CallerAccount ctx) validator_addr undelegation_id;
  undelegation ← deref o;
  if block <? u_Block undelegation then throw ErrLockedUndelegation else
  _ ← RemoveUndelegation (CallerAccount ctx) validator_addr undelegation_id;
  _ ← (if IsOnMagnoliaHardfork hf block then
         v ← GetValidator validator_addr;
         match v with
         | None => ret tt
         | Some v =>
             let validator := drop_undelegation v in
             validator_rewards ← GetValidatorRewards validator_addr;
             delete ← (if (UndelegationsCount validator =? 0) && (TotalStake validator =? 0) then
                         rewards ← deref validator_rewards; ret (CommissionRewardsPool rewards =? 0)
                       else ret false);
             if delete : bool then
               _ ← DeleteValidator validator_addr;
               _ ← state_get_and_decrement validator_addr (LastUpdated validator);
               ret tt
             else
               when (IsOnFicusHardfork hf block)
                 (ModifyValidator (IsOnMagnoliaHardfork hf block) validator_addr validator)
         end
       else ret tt);
  _ ← transferContractBalance ctx (u_Amount undelegation);
  AddLog (MakeUndelegateConfirmedLog (CallerAccount ctx) validator_addr undelegation_id (u_Amount undelegation)).

(** The part shared by [cancelUndelegate] and [redelegate]: the delegation
    grows by [amount], after paying its rewards. *)
Definition increase_delegation (ctx : CallFrame) (block : Z) (validator_addr : Address) (state : State)
    (amount : Z) : C () :=
  delegation ← GetDelegation (CallerAccount ctx) validator_addr;
  match delegation with
  | None => CreateDelegation (CallerAccount ctx) validator_addr block amount
  | Some delegation =>
      _ ← claim_delegation ctx validator_addr state delegation;
      ModifyDelegation (CallerAccount ctx) validator_addr (set_stake (d_Stake delegation + amount) block)
  end.

Definition cancelUndelegate (ctx : CallFrame) (block : Z) (validator_addr : Address)
    (undelegation_id : option Z) : C () :=
  e ← UndelegationExists (CallerAccount ctx) validator_addr undelegation_id;
  if negb e then throw ErrNonExistentUndelegation else
  v ← GetValidator validator_addr;
  match v with
  | None => throw ErrNonExistentValidator
  | Some v =>
  validator_rewards ← GetValidatorRewards validator_addr;
  prev_vote_count ← voteCount (TotalStake v) block;
  o ← GetUndelegationBaseObject (CallerAccount ctx) validator_addr undelegation_id;
  _ ← RemoveUndelegation (CallerAccount ctx) validator_addr undelegation_id;
  '(state, validator, validator_rewards) ← current_state validator_addr block v validator_rewards;
  undelegation ← deref o;
  _ ← increase_delegation ctx block validator_addr state (u_Amount undelegation);
  let validator := drop_undelegation (set_TotalStake (TotalStake validator + u_Amount undelegation) validator) in
  _ ← add_amount_delegated (u_Amount undelegation);
  new_vote_count ← voteCount (TotalStake validator) block;
  _ ← update_eligible_votes prev_vote_count new_vote_count;
  _ ← state_put validator_addr block (Some (state_inc state));
  _ ← ModifyValidator (IsOnMagnoliaHardfork hf block) validator_addr validator;
  _ ← ModifyValidatorRewards validator_addr validator_rewards;
  AddLog (MakeUndelegateCanceledLog (CallerAccount ctx) validator_addr undelegation_id (u_Amount undelegation))
  end.

(** ** Redelegating *)

(** The first half of [redelegate]: the caller takes [amount] back from
    [from].  [from_is_to_be_deleted]: the validator is left without stake and
    commission rewards; it is removed unless undelegations wait for it. *)
Definition redelegate_from (ctx : CallFrame) (block : Z) (from : Address) (amount : Z)
    (validator_from : Validator) (validator_rewards_from : option ValidatorRewards)
    (prev_vote_count_from : Z) : C () :=
  delegation ← GetDelegation (CallerAccount ctx) from;
  match delegation with
  | None => throw ErrNonExistentDelegation
  | Some delegation =>
  if d_Stake delegation <? amount then throw ErrInsufficientDelegation else
  if negb (d_Stake delegation =? amount) && (d_Stake delegation - amount <? MinimumDeposit dp)
  then throw ErrInsufficientDelegation else
  '(state, validator_from, validator_rewards_from) ←
     current_state from block validator_from validator_rewards_from;
  _ ← claim_delegation ctx from state delegation;
  let stake := d_Stake delegation - amount in
  let validator_from := set_TotalStake (TotalStake validator_from - amount) validator_from in
  state ← (if stake =? 0 then
             _ ← RemoveDelegation (CallerAccount ctx) from; ret state
           else
             _ ← ModifyDelegation (CallerAccount ctx) from (set_stake stake block);
             ret (state_inc state));
  from_is_empty ← (if TotalStake validator_from =? 0 then
                     rewards ← deref validator_rewards_from; ret (CommissionRewardsPool rewards =? 0)
                   else ret false);
  _ ← (if from_is_empty : bool then
         if negb (IsOnMagnoliaHardfork hf block) || (UndelegationsCount validator_from =? 0) then
           _ ← DeleteValidator from;
           state_put from block None
         else
           when (IsOnFicusHardfork hf block)
             (ModifyValidator (IsOnMagnoliaHardfork hf block) from validator_from)
       else
         _ ← state_put from block (Some state);
         _ ← ModifyValidator (IsOnMagnoliaHardfork hf block) from validator_from;
         ModifyValidatorRewards from validator_rewards_from);
  new_vote_count ← voteCount (TotalStake validator_from) block;
  update_eligible_votes prev_vote_count_from new_vote_count
  end.

(** The second half: [amount] is delegated to [to]. *)
Definition redelegate_to (ctx : CallFrame) (block : Z) (to : Address) (amount : Z)
    (validator_to : Validator) (validator_rewards_to : option ValidatorRewards)
    (prev_vote_count_to : Z) : C () :=
  '(state, validator_to, validator_rewards_to) ← current_state to block validator_to validator_rewards_to;
  _ ← increase_delegation ctx block to state amount;
  let validator_to := set_TotalStake (TotalStake validator_to + amount) validator_to in
  new_vote_count ← voteCount (TotalStake validator_to) block;
  _ ← update_eligible_votes prev_vote_count_to new_vote_count;
  _ ← state_put to block (Some (state_inc state));
  _ ← ModifyValidator (IsOnMagnoliaHardfork hf block) to validator_to;
  ModifyValidatorRewards to validator_rewards_to.

Definition redelegate (ctx : CallFrame) (block : Z) (args_ValidatorFrom args_ValidatorTo : Address)
    (args_Amount : Z) : C () :=
  if (FixRedelegateBlockNum hf <? block) && bool_decide (args_ValidatorFrom = args_ValidatorTo)
  then throw ErrSameValidator else
  if IsOnAspenHardforkPartTwo hf block && (args_Amount <=? 0) then throw ErrInvalidRedelegation else
  validator_from ← GetValidator args_ValidatorFrom;
  match validator_from with
  | None => throw ErrNonExistentValidator
  | Some validator_from =>
  validator_rewards_from ← GetValidatorRewards args_ValidatorFrom;
  validator_to ← GetValidator args_ValidatorTo;
  match validator_to with
  | None => throw ErrNonExistentValidator
  | Some validator_to =>
  validator_rewards_to ← GetValidatorRewards args_ValidatorTo;
  if negb (ValidatorMaximumStake dp =? 0)
     && (ValidatorMaximumStake dp <? args_Amount + TotalStake validator_to)
  then throw ErrValidatorsMaxStakeExceeded else
  prev_vote_count_from ← voteCount (TotalStake validator_from) block;
  prev_vote_count_to ← voteCount (TotalStake validator_to) block;
  _ ← redelegate_from ctx block args_ValidatorFrom args_Amount validator_from validator_rewards_from
        prev_vote_count_from;
  _ ← redelegate_to ctx block args_ValidatorTo args_Amount validator_to validator_rewards_to
        prev_vote_count_to;
  AddLog (Redelegated (CallerAccount ctx) args_ValidatorFrom args_ValidatorTo args_Amount)
  end end.

(** ** Claiming *)
Definition claimRewards (ctx : CallFrame) (block : Z) (args_Validator : Address) : C () :=
  delegation ← GetDelegation (CallerAccount ctx) args_Validator;
  match delegation with
  | None => throw ErrNonExistentDelegation
  | Some delegation =>
  state ← state_get args_Validator block;
  state ← (match state with
           | Some state => ret state
           | None =>
               validator ← GetValidator args_Validator;
               match validator with
               | None => throw ErrNonExistentValidator
               | Some validator =>
                   validator_rewards ← GetValidatorRewards args_Validator;
                   '(state, validator, validator_rewards) ←
                      new_state args_Validator block validator validator_rewards;
                   _ ← ModifyValidator (IsOnMagnoliaHardfork hf block) args_Validator validator;
                   _ ← ModifyValidatorRewards args_Validator validator_rewards;
                   ret state
               end
           end);
  _ ← claim_delegation ctx args_Validator state delegation;
  _ ← ModifyDelegation (CallerAccount ctx) args_Validator (set_stake (d_Stake delegation) block);
  state_put args_Validator block (Some (state_inc state))
  end.

(** An error of one claim stops the loop and names the validator. *)
Definition claim_each (ctx : CallFrame) (block : Z) (validators : list Address) : C () :=
  for_each (fun validatorAddress s =>
    match claimRewards ctx block validatorAddress s with
    | Fail tmp_err s' => Fail (tmp_err ++ " -> validator: " ++ Address_String validatorAddress) s'
    | r => r
    end) validators.

Definition claimAllRewards (ctx : CallFrame) (block : Z) : C () :=
  validators ← GetAllDelegatorValidatorsAddresses (CallerAccount ctx);
  claim_each ctx block validators.

(** [dpos_hardforks.go]: the batched version before the Aspen hardfork. *)
Definition claimAllRewardsPreAspenHF (ctx : CallFrame) (block args_Batch : Z) : C bool :=
  '(validators, end_) ← GetDelegatorValidatorsAddresses (CallerAccount ctx) args_Batch ClaimAllRewardsMaxCount;
  _ ← claim_each ctx block validators;
  ret end_.

Definition claimCommissionRewards (ctx : CallFrame) (block : Z) (args_Validator : Address) : C () :=
  owner ← CheckValidatorOwner (CallerAccount ctx) args_Validator;
  if negb owner then throw ErrWrongOwnerAcc else
  validator ← GetValidator args_Validator;
  match validator with
  | None => throw ErrNonExistentValidator
  | Some validator =>
  o ← GetValidatorRewards args_Validator;
  rewards ← deref o;
  _ ← transferContractBalance ctx (CommissionRewardsPool rewards);
  _ ← AddLog (CommissionRewardsClaimed (CallerAccount ctx) args_Validator (CommissionRewardsPool rewards));
  let validator_rewards := mkValidatorRewards (RewardsPool rewards) 0 in
  if TotalStake validator =? 0 then
    if negb (IsOnMagnoliaHardfork hf block) || (UndelegationsCount validator =? 0) then
      _ ← DeleteValidator args_Validator;
      _ ← state_get_and_decrement args_Validator (LastUpdated validator);
      ret tt
    else
      when (IsOnPhalaenopsisHardfork hf block)
        (ModifyValidatorRewards args_Validator (Some validator_rewards))
  else ModifyValidatorRewards args_Validator (Some validator_rewards)
  end.

(** ** Registering and changing validators *)
Definition validateProof (proof : bytes) (validator : Address) : C () :=
  if negb (Nat.eqb (length proof) 65) then throw ErrWrongProof else
  let v := byte_of_Z (Z_of_byte (default Byte.x00 (proof !! 64%nat)) - 27) in
  match Ecrecover (keccak256 (addr_bytes validator)) (take 64 proof ++ [v]) with
  | inl err => throw err
  | inr pubKey =>
      match pubKey with
      | [] => panic "slice bounds out of range"
      | _ :: pubKey =>
          if bool_decide (BytesToAddress (drop 12 (keccak256 pubKey)) = validator) then ret tt
          else throw ErrWrongProof
      end
  end.

Definition registerValidatorWithoutChecks (ctx : CallFrame) (block : Z) (args : RegisterValidatorArgs)
  : C () :=
  let args_Validator := ra_Validator args in
  if Nat.ltb MaxEndpointLength (String.length (ra_Endpoint args)) then throw ErrMaxEndpointLengthExceeded else
  if Nat.ltb MaxDescriptionLength (String.length (ra_Description args))
  then throw ErrMaxDescriptionLengthExceeded else
  if negb (Nat.eqb (length (ra_VrfKey args)) VrfKeyLength) then throw ErrWrongVrfKey else
  if MaxCommission <? ra_Commission args then throw ErrCommissionOverflow else
  e ← ValidatorExists args_Validator;
  if e : bool then throw ErrExistentValidator else
  let owner_address := CallerAccount ctx in
  delegation ← GetDelegation owner_address args_Validator;
  match delegation with
  | Some _ => throw ErrExistentDelegation
  | None =>
  state ← state_get args_Validator block;
  match state with
  | Some _ => throw ErrBrokenState
  | None =>
  if ValidatorMaximumStake dp <? Value ctx then throw ErrValidatorsMaxStakeExceeded else
  let state := mkState 0 0 in
  validator ← CreateValidator (IsOnMagnoliaHardfork hf block) owner_address args_Validator (ra_VrfKey args)
                block (ra_Commission args) (ra_Description args) (ra_Endpoint args);
  let state := state_inc state in
  _ ← AddLog (ValidatorRegistered args_Validator);
  state ← (if 0 <? Value ctx then
             _ ← AddLog (Delegated owner_address args_Validator (Value ctx));
             _ ← CreateDelegation owner_address args_Validator block (Value ctx);
             validator ← delegate_update_values ctx validator 0;
             _ ← ModifyValidator (IsOnMagnoliaHardfork hf block) args_Validator validator;
             ret (state_inc state)
           else ret state);
  state_put args_Validator block (Some state)
  end end.

Definition registerValidator (ctx : CallFrame) (block : Z) (args : RegisterValidatorArgs) : C () :=
  _ ← validateProof (ra_Proof args) (ra_Validator args);
  if Value ctx <? MinimumDeposit dp then throw ErrInsufficientDelegation
  else registerValidatorWithoutChecks ctx block args.

Definition setValidatorInfo (ctx : CallFrame) (args_Validator : Address)
    (args_Description args_Endpoint : string) : C () :=
  if Nat.ltb MaxEndpointLength (String.length args_Endpoint) then throw ErrMaxEndpointLengthExceeded else
  if Nat.ltb MaxDescriptionLength (String.length args_Description)
  then throw ErrMaxDescriptionLengthExceeded else
  owner ← CheckValidatorOwner (CallerAccount ctx) args_Validator;
  if negb owner then throw ErrWrongOwnerAcc else
  validator_info ← GetValidatorInfo args_Validator;
  match validator_info with
  | None => throw ErrNonExistentValidator
  | Some _ =>
      _ ← ModifyValidatorInfo args_Validator (mkValidatorInfo args_Description args_Endpoint);
      AddLog (ValidatorInfoSet args_Validator)
  end.

Definition setCommission (ctx : CallFrame) (block : Z) (args_Validator : Address) (args_Commission : Z)
  : C () :=
  owner ← CheckValidatorOwner (CallerAccount ctx) args_Validator;
  if negb owner then throw ErrWrongOwnerAcc else
  if MaxCommission <? args_Commission then throw ErrCommissionOverflow else
  validator ← GetValidator args_Validator;
  match validator with
  | None => throw ErrNonExistentValidator
  | Some validator =>
  if negb (CommissionChangeFrequency dp =? 0)
     && (u64 (block - LastCommissionChange validator) <? CommissionChangeFrequency dp)
  then throw ErrForbiddenCommissionChange else
  if negb (CommissionChangeDelta dp =? 0)
     && (CommissionChangeDelta dp <? getDelta (Commission validator) args_Commission)
  then throw ErrForbiddenCommissionChange else
  _ ← ModifyValidator (IsOnMagnoliaHardfork hf block) args_Validator
        (set_Commission args_Commission block validator);
  AddLog (CommissionSet args_Validator args_Commission)
  end.
End contract.
