(* ===== verification/DposRewards.v ===== *)
(** * The DPOS contract's block cycle: genesis, rewards, end of block

    [yield_curve.go], [dpos_hardforks.go], [api.go] and the parts of
    [dpos_contract.go] that the state transition calls itself: [lazy_init],
    [ApplyGenesis], [DistributeRewards] and [EndBlockCall].  Go maps that are
    ranged over (a block's validator statistics, a genesis validator's
    delegations) are lists in the iteration order of the run. *)
From S2P Require Import Prelude Bytes Crypto ChainConfig Uint256 Storage IterableMap DposStorage Validators Dpos.

(** ** [rewards_stats.go] *)
Record ValidatorStats := mkValidatorStats {
  DagBlocksCount : Z;          (* uint32 *)
  VoteWeight : Z;              (* uint64 *)
  FeesRewards : option Z;      (* *big.Int *)
}.

Record RewardsStats := mkRewardsStats {
  BlockAuthor : Address;
  ValidatorsStats : list (Address * ValidatorStats);
  TotalDagBlocksCount : Z;     (* uint32 *)
  TotalVotesWeight : Z;        (* uint64 *)
  MaxVotesWeight : Z;          (* uint64 *)
}.

Definition YieldFractionDecimalPrecision : Z := 10 ^ 6.

Section block_cycle.
Context {KV : Type} `{DposKV KV} `{Uint256} `{Crypto}.
Context (cfg : ChainConfig).

Abbreviation C := (M (Contract KV)).
Abbreviation hf := (Hardforks cfg).
Abbreviation dp := (DPOS cfg).

(** ** The yield curve *)

(** [YieldCurve.Init]: the maximal supply as a word. *)
Definition yield_max_supply {St} : M St Z :=
  let '(max_supply, overflow) := u_FromBig (MaxSupply (AspenHf hf)) in
  if overflow : bool then panic "YieldCurve max supply overflow" else ret max_supply.

Definition calculateCurrentYield (max_supply current_total_tara_supply : Z) : Z :=
  u_div (u_mul (u_sub max_supply current_total_tara_supply) YieldFractionDecimalPrecision)
    current_total_tara_supply.

(** The block reward and the yield. *)
Definition CalculateBlockReward (max_supply current_total_delegation current_total_tara_supply : Z)
  : Z * Z :=
  let yield := calculateCurrentYield max_supply current_total_tara_supply in
  (u_div (u_mul current_total_delegation yield)
     (u_mul YieldFractionDecimalPrecision (BlocksPerYear dp)), yield).

Definition CalculateTotalSupply {St} (minted_tokens : Z) : M St Z :=
  let '(total_supply, overflow) :=
    u_FromBig (GenesisBalancesSum cfg + minted_tokens + GeneratedRewards (AspenHf hf)) in
  if overflow : bool then panic "CalculateTotalSupply: Genesis balances sum oveflow" else ret total_supply.

(** ** Initialisation and end of block *)
Definition scalar_get (f : scalar) : C (option bytes) := kv_get KdScalar f.
Definition scalar_put (f : scalar) (b : option bytes) : C () := kv_put KdScalar f b.

Definition DEC_votes (b : bytes) : C Z :=
  match DEC_b_endian_compact_64 b with Some v => ret v | None => panic "index out of range" end.

Definition lazy_init : C () :=
  d ← gets lazy_init_done;
  if d : bool then ret tt else
  _ ← yield_max_supply;
  votes ← scalar_get SEligibleVoteCount;
  votes ← (match votes with None => ret 0 | Some b => DEC_votes b end);
  _ ← modify_st (set_votes votes votes);
  amount ← scalar_get SAmountDelegated;
  let amount := from_option u_SetBytes 0 amount in
  _ ← modify_st (set_amount amount amount);
  supply ← scalar_get STotalSupply;
  let supply := u_SetBytes <$> supply in
  minted ← (match supply with
            | None => minted ← scalar_get SMintedTokens; ret (from_option u_SetBytes 0 minted)
            | Some _ => ret 0
            end);
  _ ← modify_st (set_supply minted supply);
  modify_st (set_lazy true).

(** [fixRedelegateBlockNumFunc]: repairs the validators that a
    redelegation to themselves had corrupted. *)
Definition fix_redelegation (block_num : Z) (r : Redelegation) : C () :=
  delegation ← GetDelegation (rd_Delegator r) (rd_Validator r);
  val ← GetValidator (rd_Validator r);
  delegation ← deref delegation;
  state ← state_get (rd_Validator r) (d_LastUpdated delegation);
  val ← deref val;
  wrong_state ← state_get (rd_Validator r) (LastUpdated val);
  match wrong_state, state with
  | None, Some _ =>
      ModifyValidator (IsOnMagnoliaHardfork hf block_num) (rd_Validator r)
        (set_TotalStake (TotalStake val - rd_Amount r) (set_LastUpdated (d_LastUpdated delegation) val))
  | _, _ => panic "HF on wrong account"
  end.

Definition fixRedelegateBlockNumFunc (block_num : Z) : C () :=
  for_each (fix_redelegation block_num) (Redelegations hf).

Definition EndBlockCall (block_num : Z) : C () :=
  s ← get_st;
  if negb (lazy_init_done s) then ret tt else
  _ ← when (negb (eligible_vote_count_orig s =? eligible_vote_count s))
        (_ ← scalar_put SEligibleVoteCount (Some (ENC_b_endian_compact_64_1 (eligible_vote_count s)));
         modify_st (set_votes (eligible_vote_count s) (eligible_vote_count s)));
  _ ← when (negb (amount_delegated_orig s =? amount_delegated s))
        (_ ← scalar_put SAmountDelegated (Some (u_Bytes (amount_delegated s)));
         modify_st (set_amount (amount_delegated s) (amount_delegated s)));
  when (block_num =? FixRedelegateBlockNum hf) (fixRedelegateBlockNumFunc block_num).

(** ** Block rewards *)
Definition saveTotalSupplyDb : C () :=
  o ← gets total_supply; t ← deref o; scalar_put STotalSupply (Some (u_Bytes t)).
Definition saveMintedTokensDb : C () :=
  m ← gets minted_tokens; scalar_put SMintedTokens (Some (u_Bytes m)).
Definition eraseMintedTokensDb : C () := scalar_put SMintedTokens None.
Definition saveYieldDb (yield : Z) : C () := kv_put KdYield tt (Some yield).

Definition processBlockReward (block_num : Z) : C (option Z) :=
  if negb (IsOnAspenHardforkPartTwo hf block_num) then ret None else
  max_supply ← yield_max_supply;
  o ← gets total_supply;
  _ ← (match o with
       | Some _ => ret tt
       | None =>
           minted ← gets minted_tokens;
           t ← CalculateTotalSupply minted;
           _ ← modify_st (set_supply minted (Some t));
           _ ← saveTotalSupplyDb;
           eraseMintedTokensDb
       end);
  o ← gets total_supply;
  supply ← deref o;
  amount ← gets amount_delegated;
  let '(blockReward, yield) := CalculateBlockReward max_supply amount supply in
  _ ← saveYieldDb (u64 yield);
  ret (Some blockReward).

(** The block reward's three parts: for DAG proposers, for voters and the
    author's bonus. *)
Definition reward_parts (blockReward : Z) (stats : RewardsStats) : Z * Z * Z :=
  if 0 <? TotalVotesWeight stats then
    let dagProposersReward := u_div (u_mul blockReward (DagProposersReward dp)) 100 in
    let votesReward := u_sub blockReward dagProposersReward in
    let bonusReward := u_div (u_mul blockReward (MaxBlockAuthorReward dp)) 100 in
    let votesReward := u_sub votesReward bonusReward in
    let maxVotesWeigh := Max (MaxVotesWeight stats) (TotalVotesWeight stats) in
    let blockAuthorReward :=
      if maxVotesWeigh =? TotalVotesWeight stats then bonusReward
      else
        let twoTPlusOne := u64 (u64 (maxVotesWeigh * 2) / 3 + 1) in
        let bonusVotesWeight :=
          if twoTPlusOne <=? TotalVotesWeight stats then u64 (TotalVotesWeight stats - twoTPlusOne) else 0 in
        u_div (u_mul bonusReward bonusVotesWeight) (u64 (maxVotesWeigh - twoTPlusOne)) in
    (dagProposersReward, votesReward, blockAuthorReward)
  else (blockReward, 0, 0).

(** What a validator earns for its DAG blocks and votes. *)
Definition validator_reward (dagProposersReward votesReward : Z) (stats : RewardsStats) (vs : ValidatorStats)
  : Z :=
  let validatorReward :=
    if 0 <? DagBlocksCount vs
    then u_div (u_mul (DagBlocksCount vs) dagProposersReward) (TotalDagBlocksCount stats) else 0 in
  if 0 <? VoteWeight vs
  then u_add validatorReward (u_div (u_mul (VoteWeight vs) votesReward) (TotalVotesWeight stats))
  else validatorReward.

Definition commission_of (reward : Z) (v : Validator) : Z := u_div (u_mul reward (Commission v)) MaxCommission.

(** One iteration over [ValidatorsStats]; [acc] is [newMintedRewards] and
    [totalReward]. *)
Definition reward_validator (dagProposersReward votesReward : Z) (stats : RewardsStats)
    (e : Address * ValidatorStats) (acc : Z * Z) : C (Z * Z) :=
  let '(validatorAddress, vs) := e in
  let reward := validator_reward dagProposersReward votesReward stats vs in
  v ← GetValidator validatorAddress;
  match v with
  | None => ret acc
  | Some v =>
      let acc := (u_add (fst acc) reward, u_add (snd acc) reward) in
      let validatorCommission := commission_of reward v in
      let delegatorRewards := u_sub reward validatorCommission in
      validatorCommission ←
        (match FeesRewards vs with
         | Some fees =>
             if 0 <? fees then
               _ ← AddBalance dpos_contract_address fees;
               ret (u_add validatorCommission (fst (u_FromBig fees)))
             else ret validatorCommission
         | None => ret validatorCommission
         end);
      _ ← AddValidatorRewards validatorAddress validatorCommission delegatorRewards;
      ret acc
  end.

Fixpoint reward_validators (dagProposersReward votesReward : Z) (stats : RewardsStats)
    (es : list (Address * ValidatorStats)) (acc : Z * Z) : C (Z * Z) :=
  match es with
  | [] => ret acc
  | e :: es =>
      acc ← reward_validator dagProposersReward votesReward stats e acc;
      reward_validators dagProposersReward votesReward stats es acc
  end.

(** The author's bonus, if there is one and the author still is a validator. *)
Definition reward_author (author : Address) (blockAuthorReward : Z) : C (Z * Z) :=
  if 0 <? blockAuthorReward then
    v ← GetValidator author;
    match v with
    | None => ret (0, 0)
    | Some v =>
        let commission := commission_of blockAuthorReward v in
        _ ← AddValidatorRewards author commission (u_sub blockAuthorReward commission);
        ret (u_add 0 blockAuthorReward, u_add 0 blockAuthorReward)
    end
  else ret (0, 0).

Definition DistributeRewards (current_block_num : Z) (rewardsStats : RewardsStats) : C Z :=
  _ ← lazy_init;
  blockReward ←
    (if IsOnAspenHardforkPartTwo hf current_block_num then
       o ← processBlockReward current_block_num; deref o
     else
       amount ← gets amount_delegated;
       ret (u_div (u_mul amount (YieldPercentage dp)) (u_mul 100 (BlocksPerYear dp))));
  let '(dagProposersReward, votesReward, blockAuthorReward) := reward_parts blockReward rewardsStats in
  acc ← reward_author (BlockAuthor rewardsStats) blockAuthorReward;
  '(newMintedRewards, totalReward) ←
    reward_validators dagProposersReward votesReward rewardsStats (ValidatorsStats rewardsStats) acc;
  _ ← AddBalance dpos_contract_address totalReward;
  _ ← (if IsOnAspenHardforkPartTwo hf current_block_num then
         s ← get_st;
         t ← deref (total_supply s);
         _ ← modify_st (set_supply (minted_tokens s) (Some (u_add t newMintedRewards)));
         saveTotalSupplyDb
       else if IsOnAspenHardforkPartOne hf current_block_num then
         _ ← modify_st (fun s => set_supply (u_add (minted_tokens s) newMintedRewards) (total_supply s) s);
         saveMintedTokensDb
       else ret tt);
  ret newMintedRewards.

(** ** Genesis *)
Definition genesis_context (caller : Address) (value : Z) : CallFrame :=
  mkCallFrame caller dpos_contract_address value.

(** An error while the genesis state is built is a panic. *)
Definition must {A} (prefix : string) (m : C A) : C A := fun s =>
  match m s with Fail e _ => Panic (prefix ++ e) | r => r end.

Definition genesis_delegation (validator : Address) (d : Address * Z) : C () :=
  let '(delegator, amount) := d in
  _ ← storage_SubBalance delegator amount;
  _ ← AddBalance dpos_contract_address amount;
  must "apply_genesis_entry: delegationError: "
    (delegate cfg 0 (genesis_context delegator amount) 0 validator).

Definition apply_genesis_entry (g : GenesisValidator) : C () :=
  _ ← must "apply_genesis_entry: registrationError: "
        (registerValidatorWithoutChecks cfg 0 (genesis_context (gv_Owner g) 0) 0
           (mkRegisterArgs (gv_Address g) [] (gv_VrfKey g) (gv_Commission g) (gv_Description g) (gv_Endpoint g)));
  for_each (genesis_delegation (gv_Address g)) (gv_Delegations g).

Definition ApplyGenesis : C () :=
  _ ← lazy_init;
  _ ← for_each apply_genesis_entry (InitialValidators dp);
  _ ← processBlockReward 0;
  _ ← EndBlockCall 0;
  modify_st (fun s => set_nonce (c_nonce s + 1) s).
End block_cycle.
