(* ===== verification/DposRun.v ===== *)
(** * The DPOS contract's views, gas and dispatch

    [reader.go], the [get...] methods of [dpos_contract.go], [RequiredGas]
    and [Run].  A call arrives decoded: [accounts/abi] finds the method by
    its selector and unpacks its arguments, or fails with an error text.  The
    loops over an unknown number of storage entries carry [fuel]. *)
From S2P Require Import Prelude Bytes Crypto ChainConfig Uint256 Storage IterableMap DposStorage Validators Dpos DposRewards.

(** ** [reader.go]: reading the contract's storage of some block *)
Record ValidatorStake := mkValidatorStake { vs_Address : Address; vs_TotalStake : Z }.
Record ValidatorVoteCount := mkValidatorVoteCount { vc_Address : Address; vc_VoteCount : Z }.

Section reader.
Context {KV : Type} `{DposKV KV} `{Uint256}.
Context (cfg : ChainConfig) (block_n : Z).

Abbreviation R := (M KV).

(** [InitDelayedReader]: the block the delayed storage is read at. *)
Definition delayed_block (blk_n : Z) : Z :=
  if DelegationDelay (DPOS cfg) <? blk_n then u64 (blk_n - DelegationDelay (DPOS cfg)) else 0.

Definition GetStakingBalance (addr : Address) : R Z :=
  v ← GetValidator addr; ret (from_option (fun v : Validator => TotalStake v) 0 v).

Definition GetEligibleVoteCount (addr : Address) : R Z :=
  b ← GetStakingBalance addr; voteCount cfg b block_n.

(** [jailed]: the slashing reader's [GetJailedValidators]. *)
Fixpoint subtract_votes (jailed : list Address) (votes : Z) : R Z :=
  match jailed with
  | [] => ret votes
  | addr :: jailed => v ← GetEligibleVoteCount addr; subtract_votes jailed (u64 (votes - v))
  end.

Definition TotalEligibleVoteCount (jailed : list Address) : R Z :=
  o ← kv_get KdScalar SEligibleVoteCount;
  votes ← (match o : option bytes with
           | None => ret 0
           | Some b => match DEC_b_endian_compact_64 b with
                       | Some v => ret v | None => panic "index out of range" end
           end);
  subtract_votes jailed votes.

Definition TotalAmountDelegated : R Z :=
  o ← kv_get KdScalar SAmountDelegated; ret (from_option big_SetBytes 0 (o : option bytes)).

Definition IsEligible (address : Address) : R bool :=
  b ← GetStakingBalance address; ret (EligibilityBalanceThreshold (DPOS cfg) <=? b).

Definition GetValidatorsTotalStakes : R (list ValidatorStake) :=
  validators ← GetAllAccounts (imap_of ImValidators);
  map_each (fun addr => b ← GetStakingBalance addr; ret (mkValidatorStake addr b)) validators.

Definition GetValidatorsVoteCounts : R (list ValidatorVoteCount) :=
  validators ← GetAllAccounts (imap_of ImValidators);
  map_each (fun addr => n ← GetEligibleVoteCount addr; ret (mkValidatorVoteCount addr n)) validators.

Definition Reader_GetVrfKey (addr : Address) : R bytes :=
  o ← kv_get KdVrf addr; ret (default [] (o : option bytes)).

Definition GetYield : R Z :=
  if negb (IsOnAspenHardforkPartTwo (Hardforks cfg) block_n) then ret 0
  else o ← kv_get KdYield tt; ret (default 0 (o : option Z)).

Definition GetTotalSupply : R Z :=
  if negb (IsOnAspenHardforkPartTwo (Hardforks cfg) block_n) then ret 0
  else o ← kv_get KdScalar STotalSupply; ret (from_option u_SetBytes 0 (o : option bytes)).
End reader.

(** ** Results of the views ([dpos_sol]) *)
Record ValidatorBasicInfo := mkBasicInfo {
  bi_TotalStake : Z;
  bi_CommissionReward : Z;
  bi_Commission : Z;
  bi_LastCommissionChange : Z;
  bi_UndelegationsCount : Z;
  bi_Owner : Address;
  bi_Description : string;
  bi_Endpoint : string;
}.
Record ValidatorData := mkValidatorData { vd_Account : Address; vd_Info : ValidatorBasicInfo }.
Record DelegationData := mkDelegationData { dd_Account : Address; dd_Stake : Z; dd_Rewards : Z }.
Record UndelegationData := mkUndelegationData {
  ud_Stake : Z; ud_Block : Z; ud_Validator : Address; ud_ValidatorExists : bool;
}.
Record UndelegationV2Data := mkUndelegationV2Data {
  ud2_UndelegationData : UndelegationData; ud2_UndelegationId : Z;
}.

Section views.
Context {KV : Type} `{DposKV KV} `{Uint256} `{Crypto}.
Context (cfg : ChainConfig) (fuel : nat).
Abbreviation C := (M (Contract KV)).
Abbreviation out_of_fuel := (panic "out of fuel").

(** The body shared by [getValidator] and [to_validator_data]. *)
Definition basic_info (a : Address) (validator : Validator) (info : ValidatorInfo) : C ValidatorBasicInfo :=
  o ← GetValidatorRewards a;
  rewards ← deref o;
  owner ← GetValidatorOwner a;
  ret (mkBasicInfo (TotalStake validator) (CommissionRewardsPool rewards) (Commission validator)
         (LastCommissionChange validator) (UndelegationsCount validator) owner
         (Description info) (Endpoint info)).

Definition getValidator (args_Validator : Address) : C ValidatorBasicInfo :=
  validator ← GetValidator args_Validator;
  match validator with
  | None => throw ErrNonExistentValidator
  | Some validator =>
      info ← GetValidatorInfo args_Validator;
      match info with
      | None => panic "getValidators - unable to fetch validator info data"
      | Some info => basic_info args_Validator validator info
      end
  end.

Definition to_validator_data (validator_address : Address) : C ValidatorData :=
  validator ← GetValidator validator_address;
  match validator with
  | None => panic "to_validator_data - unable to fetch validator data"
  | Some validator =>
      info ← GetValidatorInfo validator_address;
      match info with
      | None => panic "to_validator_data - unable to fetch validator info data"
      | Some info =>
          i ← basic_info validator_address validator info;
          ret (mkValidatorData validator_address i)
      end
  end.

Definition getValidators (args_Batch : Z) : C (list ValidatorData * bool) :=
  '(addresses, end_) ← GetValidatorsAddresses args_Batch GetValidatorsMaxCount;
  validators ← map_each (fun a => _ ← GetValidatorOwner a; to_validator_data a) addresses;
  ret (validators, end_).

(** The loop of [getValidatorsFor] over the addresses left to visit. *)
Fixpoint getValidatorsFor_loop (args_Owner : Address) (to_skip : Z) (addresses : list Address)
    (skipped : Z) (validators : list ValidatorData) : C (list ValidatorData * bool) :=
  match addresses with
  | [] => ret (validators, true)
  | a :: addresses =>
      owner ← GetValidatorOwner a;
      if negb (bool_decide (owner = args_Owner))
      then getValidatorsFor_loop args_Owner to_skip addresses skipped validators
      else if skipped <? to_skip
      then getValidatorsFor_loop args_Owner to_skip addresses (u32 (skipped + 1)) validators
      else if negb (Z.of_nat (length validators) =? GetValidatorsMaxCount) then
        d ← to_validator_data a;
        getValidatorsFor_loop args_Owner to_skip addresses skipped (validators ++ [d])
      else ret (validators, false)
  end.

Definition getValidatorsFor (args_Owner : Address) (args_Batch : Z) : C (list ValidatorData * bool) :=
  count ← GetValidatorsCount;
  '(addresses, _) ← GetValidatorsAddresses 0 count;
  getValidatorsFor_loop args_Owner (u32 (args_Batch * GetValidatorsMaxCount)) addresses 0 [].

Fixpoint sum_delegations (delegator : Address) (addresses : list Address) (total : Z) : C Z :=
  match addresses with
  | [] => ret total
  | a :: addresses =>
      d ← GetDelegation delegator a;
      match d with
      | None => panic "getTotalDelegation - unable to fetch delegation data"
      | Some d => sum_delegations delegator addresses (total + d_Stake d)
      end
  end.

Definition getTotalDelegation (args_Delegator : Address) : C Z :=
  count ← GetDelegationsCount args_Delegator;
  '(addresses, _) ← GetDelegatorValidatorsAddresses args_Delegator 0 count;
  sum_delegations args_Delegator addresses 0.

Definition delegation_data (delegator validator_address : Address) : C DelegationData :=
  delegation ← GetDelegation delegator validator_address;
  validator ← GetValidator validator_address;
  match delegation, validator with
  | Some delegation, Some validator =>
      validator_rewards ← GetValidatorRewards validator_address;
      state ← state_get validator_address (LastUpdated validator);
      old_state ← state_get validator_address (d_LastUpdated delegation);
      match state, old_state with
      | Some state, Some old_state =>
          reward_per_stake ←
            (if 0 <? TotalStake validator then
               rewards ← deref validator_rewards;
               q ← calculateRewardPer1Stake cfg (RewardsPool rewards) (TotalStake validator);
               ret (RewardsPer1Stake state + q - RewardsPer1Stake old_state)
             else ret 0);
          r ← calculateDelegatorReward cfg reward_per_stake (d_Stake delegation);
          ret (mkDelegationData validator_address (d_Stake delegation) r)
      | _, _ => panic "getDelegations - unable to state data"
      end
  | _, _ => panic "getDelegations - unable to fetch delegation data"
  end.

Definition getDelegations (args_Delegator : Address) (args_Batch : Z) : C (list DelegationData * bool) :=
  '(addresses, end_) ← GetDelegatorValidatorsAddresses args_Delegator args_Batch GetDelegationsMaxCount;
  ds ← map_each (delegation_data args_Delegator) addresses;
  ret (ds, end_).

Definition getUndelegationV1 (delegator validator : Address) : C (option UndelegationData) :=
  o ← GetUndelegationV1 delegator validator;
  match o with
  | None => ret None
  | Some u =>
      e ← ValidatorExists validator;
      ret (Some (mkUndelegationData (u_Amount u) (u_Block u) validator e))
  end.

Definition getUndelegationV2 (delegator validator : Address) (undelegation_id : Z)
  : C (option UndelegationV2Data) :=
  o ← GetUndelegationV2 delegator validator undelegation_id;
  match o with
  | None => ret None
  | Some u =>
      e ← ValidatorExists validator;
      ret (Some (mkUndelegationV2Data (mkUndelegationData (u_Amount u) (u_Block u) validator e) (u_Id u)))
  end.

(** Entries that cannot be fetched are logged and left out. *)
Definition getUndelegations (args_Delegator : Address) (args_Batch : Z)
  : C (list UndelegationData * bool) :=
  '(validators, end_) ← GetUndelegationsV1Validators args_Delegator args_Batch GetUndelegationsMaxCount;
  us ← map_each (getUndelegationV1 args_Delegator) validators;
  ret (omap id us, end_).

Fixpoint getUndelegationsV2_loop (n : nat) (delegator : Address) (validator_idx to_skip_count : Z)
    (undelegations : list UndelegationV2Data) : C (list UndelegationV2Data * bool) :=
  match n with
  | O => out_of_fuel
  | S n =>
      '(validator, validators_end) ← GetUndelegationsV2Validator delegator validator_idx;
      match validator with
      | None => ret (undelegations, true)
      | Some validator =>
          let next := u32 (validator_idx + 1) in
          count ← GetCount (undelegations_v2_ids delegator validator);
          if count <=? to_skip_count
          then getUndelegationsV2_loop n delegator next (u32 (to_skip_count - count)) undelegations
          else
            '(ids, ids_end) ← GetIdsFromIdx (undelegations_v2_ids delegator validator) to_skip_count
                                (u32 (GetUndelegationsMaxCount - Z.of_nat (length undelegations)));
            us ← map_each (getUndelegationV2 delegator validator) ids;
            let undelegations := undelegations ++ omap id us in
            if Z.of_nat (length undelegations) =? GetUndelegationsMaxCount
            then ret (undelegations, validators_end && ids_end)
            else getUndelegationsV2_loop n delegator next 0 undelegations
      end
  end.

Definition getUndelegationsV2 (args_Delegator : Address) (args_Batch : Z)
  : C (list UndelegationV2Data * bool) :=
  getUndelegationsV2_loop fuel args_Delegator 0 (u32 (args_Batch * GetUndelegationsMaxCount)) [].

(** ** Gas *)
Definition batch_items_count (actual_count batch max_batch_items_count : Z) : Z :=
  if actual_count =? 0 then 1 else
  let batch_shift_count := u64 (batch * max_batch_items_count) in
  if actual_count <=? batch_shift_count then 1 else
  let items_to_be_returned_count := u64 (actual_count - batch_shift_count) in
  if max_batch_items_count <? items_to_be_returned_count then max_batch_items_count
  else items_to_be_returned_count.

Fixpoint storage_reads_loop (n : nat) (delegator : Address) (max_batch_items_count validator_idx
    to_skip_count storage_reads_count processed : Z) : C Z :=
  match n with
  | O => out_of_fuel
  | S n =>
      '(validator, _) ← GetUndelegationsV2Validator delegator validator_idx;
      match validator with
      | None => ret storage_reads_count
      | Some validator =>
          let next := u32 (validator_idx + 1) in
          count ← GetCount (undelegations_v2_ids delegator validator);
          let storage_reads_count := u64 (storage_reads_count + 2) in
          if count <=? to_skip_count
          then storage_reads_loop n delegator max_batch_items_count next (u64 (to_skip_count - count))
                 storage_reads_count processed
          else
            let to_be_processed := u64 (max_batch_items_count - processed) in
            let left := u64 (count - to_skip_count) in
            let to_be_processed := if left <? to_be_processed then left else to_be_processed in
            let processed := u64 (processed + to_be_processed) in
            let storage_reads_count := u64 (storage_reads_count + u64 (2 * to_be_processed)) in
            if processed =? max_batch_items_count then ret storage_reads_count
            else storage_reads_loop n delegator max_batch_items_count next 0 storage_reads_count processed
      end
  end.

Definition getUndelegationsV2StorageReadsCount (args_Delegator : Address) (args_Batch
    max_batch_items_count : Z) : C Z :=
  storage_reads_loop fuel args_Delegator max_batch_items_count 0
    (u64 (args_Batch * max_batch_items_count)) 0 0.
End views.

(** ** Calls *)
Inductive Method :=
| M_delegate | M_undelegate | M_undelegateV2 | M_confirmUndelegate | M_confirmUndelegateV2
| M_cancelUndelegate | M_cancelUndelegateV2 | M_reDelegate | M_claimRewards
| M_claimAllRewards (old : bool) | M_claimCommissionRewards | M_setCommission | M_registerValidator
| M_setValidatorInfo | M_isValidatorEligible | M_getTotalEligibleVotesCount
| M_getValidatorEligibleVotesCount | M_getValidator | M_getValidators | M_getValidatorsFor
| M_getTotalDelegation | M_getDelegations | M_getUndelegations | M_getUndelegationsV2
| M_getUndelegationV2.

(** What [method.Inputs.Unpack] fills in.  [M_claimAllRewards true] is the
    method of [GetOldClaimAllRewardsABI], which takes a batch; the current
    one has no inputs. *)
Definition args_of (m : Method) : Type :=
  match m with
  | M_delegate | M_confirmUndelegate | M_cancelUndelegate | M_claimRewards | M_claimCommissionRewards
  | M_isValidatorEligible | M_getValidatorEligibleVotesCount | M_getValidator
  | M_getTotalDelegation => Address
  | M_undelegate | M_undelegateV2 | M_confirmUndelegateV2 | M_cancelUndelegateV2 | M_setCommission
  | M_getValidatorsFor | M_getDelegations | M_getUndelegations | M_getUndelegationsV2 => Address * Z
  | M_reDelegate => Address * Address * Z
  | M_claimAllRewards true => Z
  | M_claimAllRewards false | M_getTotalEligibleVotesCount => unit
  | M_registerValidator => RegisterValidatorArgs
  | M_setValidatorInfo => Address * string * string
  | M_getValidators => Z
  | M_getUndelegationV2 => Address * Address * Z
  end.

Inductive Input :=
| InShort                                     (* fewer than four bytes *)
| InUnknown (err : string)                    (* no such selector *)
| InTransfer (err : string)                   (* exactly [TransferIntoDPoSContractMethod] *)
| InOldClaimAll (err : string) (args : string + Z)  (* selector 0x09b72e00 *)
| InCall (m : Method) (args : string + args_of m).

Inductive Result :=
| RNone
| RBool (b : bool)
| RUint (z : Z)
| RValidator (v : ValidatorBasicInfo)
| RValidators (l : list ValidatorData) (end_ : bool)
| RDelegations (l : list DelegationData) (end_ : bool)
| RUndelegations (l : list UndelegationData) (end_ : bool)
| RUndelegationsV2 (l : list UndelegationV2Data) (end_ : bool)
| RUndelegationV2 (u : UndelegationV2Data).

Definition isPayableMethod (m : Method) : bool :=
  match m with M_registerValidator | M_delegate => true | _ => false end.

(** Methods that exist since the Cornus hardfork. *)
Definition cornus_method (m : Method) : bool :=
  match m with
  | M_undelegateV2 | M_confirmUndelegateV2 | M_cancelUndelegateV2 | M_getUndelegationsV2
  | M_getUndelegationV2 => true
  | _ => false
  end.

(** The delayed reader of the contract. *)
Record Delayed (KV : Type) := mkDelayed {
  dl_cfg : ChainConfig;
  dl_block : Z;
  dl_storage : KV;
  dl_jailed : list Address;
}.
Arguments dl_cfg {KV}.
Arguments dl_block {KV}.
Arguments dl_storage {KV}.
Arguments dl_jailed {KV}.

Section dispatch.
Context {KV : Type} `{DposKV KV} `{Uint256} `{Crypto}.
Context (cfg : ChainConfig) (fuel : nat).
Context (evm_block evm_depth : Z) (delayed : Delayed KV).
Abbreviation C := (M (Contract KV)).
Abbreviation hf := (Hardforks cfg).

(** The method a call resolves to: its own, or the old [claimAllRewards]. *)
Inductive Resolved :=
| ToMethod (m : Method) (args : string + args_of m)
| ToTransfer
| ToError (err : string).

Definition resolve (i : Input) (block_num : Z) : Resolved :=
  match i with
  | InCall m args => ToMethod m args
  | InShort => ToError "data too short for abi method lookup"
  | InUnknown err => ToError err
  | InTransfer err => if IsOnPhalaenopsisHardfork hf block_num then ToTransfer else ToError err
  | InOldClaimAll err args =>
      if negb (IsOnFixClaimAllHardfork hf block_num) then ToMethod (M_claimAllRewards true) args
      else ToError err
  end.

(** Since the Cornus hardfork only payable methods take a value. *)
Definition non_payable (ctx : CallFrame) (m : Method) : bool :=
  IsOnCornusHardfork hf evm_block && (0 <? Value ctx) && negb (isPayableMethod m).

(** [Unpack] of a method without inputs indexes an empty slice. *)
Definition unpack_nothing {A} : C A := panic "index out of range [0] with length 0".

Definition gas_of_batch (count : C Z) (batch max price : Z) : C Z :=
  c ← count; ret (u64 (batch_items_count c batch max * price)).

(** The price of a call to a method, the arguments unpacked where needed. *)
Definition method_gas (ctx : CallFrame) (m : Method) (args : string + args_of m) : C Z :=
  match m return string + args_of m -> C Z with
  | M_delegate => fun _ => ret DelegateGas
  | M_undelegate => fun _ => ret UndelegateGas
  | M_undelegateV2 => fun _ => ret UndelegateGas
  | M_confirmUndelegate => fun _ => ret ConfirmUndelegateGas
  | M_confirmUndelegateV2 => fun _ => ret ConfirmUndelegateGas
  | M_cancelUndelegate => fun _ => ret CancelUndelegateGas
  | M_cancelUndelegateV2 => fun _ => ret CancelUndelegateGas
  | M_reDelegate => fun _ => ret ReDelegateGas
  | M_claimCommissionRewards => fun _ => ret ClaimCommissionRewardsGas
  | M_setCommission => fun _ => ret SetCommissionGas
  | M_registerValidator => fun _ => ret RegisterValidatorGas
  | M_setValidatorInfo => fun _ => ret SetValidatorInfoGas
  | M_isValidatorEligible => fun _ => ret DefaultDposMethodGas
  | M_getTotalEligibleVotesCount => fun _ => ret DefaultDposMethodGas
  | M_getValidatorEligibleVotesCount => fun _ => ret DefaultDposMethodGas
  | M_getValidator => fun _ => ret DposGetMethodsGas
  | M_claimRewards => fun _ => ret ClaimRewardsGas
  | M_claimAllRewards old => fun args =>
      if IsOnAspenHardforkPartOne hf evm_block then
        c ← GetDelegationsCount (CallerAccount ctx);
        ret (u64 (c * (DposBatchGetMethodsGas + ClaimRewardsGas)))
      else match old return string + args_of (M_claimAllRewards old) -> C Z with
           | false => fun _ => unpack_nothing
           | true => fun args =>
               match args with
               | inl _ => ret 0
               | inr batch => gas_of_batch (GetDelegationsCount (CallerAccount ctx)) batch
                                ClaimAllRewardsMaxCount (DposBatchGetMethodsGas + ClaimRewardsGas)
               end
           end args
  | M_getValidators => fun args =>
      match args with
      | inl _ => ret 0
      | inr batch => gas_of_batch GetValidatorsCount batch GetValidatorsMaxCount DposBatchGetMethodsGas
      end
  | M_getValidatorsFor => fun args =>
      match args with inl _ => ret 0 | inr _ => ret (GetValidatorsMaxCount * DposBatchGetMethodsGas) end
  | M_getTotalDelegation => fun args =>
      match args with
      | inl _ => ret 0
      | inr delegator => c ← GetDelegationsCount delegator; ret (u64 (c * DposBatchGetMethodsGas))
      end
  | M_getDelegations => fun args =>
      match args with
      | inl _ => ret 0
      | inr (delegator, batch) =>
          gas_of_batch (GetDelegationsCount delegator) batch GetDelegationsMaxCount DposBatchGetMethodsGas
      end
  | M_getUndelegations => fun args =>
      match args with
      | inl _ => ret 0
      | inr (delegator, batch) =>
          gas_of_batch (GetUndelegationsV1Count delegator) batch GetUndelegationsMaxCount
            DposBatchGetMethodsGas
      end
  | M_getUndelegationsV2 => fun args =>
      match args with
      | inl _ => ret 0
      | inr (delegator, batch) =>
          c ← getUndelegationsV2StorageReadsCount fuel delegator batch GetUndelegationsMaxCount;
          ret (u64 (c * DposBatchGetMethodsGas))
      end
  | M_getUndelegationV2 => fun _ => ret DposGetMethodsGas
  end args.

Definition RequiredGas (ctx : CallFrame) (i : Input) : C Z :=
  match i with
  | InShort => ret 0
  | _ =>
  _ ← lazy_init cfg;
  match resolve i evm_block with
  | ToError _ => ret 0
  | ToTransfer => ret TransferIntoDPoSContractGas
  | ToMethod m args =>
      if non_payable ctx m then ret 0
      else if cornus_method m && negb (IsOnCornusHardfork hf evm_block) then ret 0
      else method_gas ctx m args
  end end.

(** A read through the delayed reader: the delayed storage stays as it is. *)
Definition on_delayed {A} (m : M KV A) : C A := fun s =>
  match m (dl_storage delayed) with
  | Done a _ => Done a s
  | Fail e _ => Fail e s
  | Panic msg => Panic msg
  end.

Definition unpack {A B} (args : string + A) (k : A -> C B) : C B :=
  match args with inl err => throw err | inr a => k a end.

Definition unit_result (m : C ()) : C Result := _ ← m; ret RNone.

Definition run_method (ctx : CallFrame) (m : Method) (args : string + args_of m) : C Result :=
  let block_num := evm_block in
  match m return string + args_of m -> C Result with
  | M_delegate => fun args => unpack args (fun v => unit_result (delegate cfg evm_block ctx block_num v))
  | M_undelegate => fun args => unpack args (fun '(v, amount) =>
      unit_result (_ ← undelegate cfg ctx block_num v amount false; ret tt))
  | M_undelegateV2 => fun args => unpack args (fun '(v, amount) =>
      id ← undelegate cfg ctx block_num v amount true; ret (RUint id))
  | M_confirmUndelegate => fun args => unpack args (fun v =>
      unit_result (confirmUndelegate cfg ctx block_num v None))
  | M_confirmUndelegateV2 => fun args => unpack args (fun '(v, id) =>
      unit_result (confirmUndelegate cfg ctx block_num v (Some id)))
  | M_cancelUndelegate => fun args => unpack args (fun v =>
      unit_result (cancelUndelegate cfg ctx block_num v None))
  | M_cancelUndelegateV2 => fun args => unpack args (fun '(v, id) =>
      unit_result (cancelUndelegate cfg ctx block_num v (Some id)))
  | M_reDelegate => fun args => unpack args (fun '(from, to, amount) =>
      unit_result (redelegate cfg ctx block_num from to amount))
  | M_claimRewards => fun args => unpack args (fun v => unit_result (claimRewards cfg ctx block_num v))
  | M_claimAllRewards old => fun args =>
      if IsOnAspenHardforkPartOne hf block_num then unit_result (claimAllRewards cfg ctx block_num)
      else match old return string + args_of (M_claimAllRewards old) -> C Result with
           | false => fun _ => unpack_nothing
           | true => fun args => unpack args (fun batch =>
               e ← claimAllRewardsPreAspenHF cfg ctx block_num batch; ret (RBool e))
           end args
  | M_claimCommissionRewards => fun args => unpack args (fun v =>
      unit_result (claimCommissionRewards cfg ctx block_num v))
  | M_setCommission => fun args => unpack args (fun '(v, c) =>
      unit_result (setCommission cfg ctx block_num v c))
  | M_registerValidator => fun args => unpack args (fun a =>
      unit_result (registerValidator cfg evm_block ctx block_num a))
  | M_setValidatorInfo => fun args => unpack args (fun '(v, description, endpoint) =>
      unit_result (setValidatorInfo ctx v description endpoint))
  | M_isValidatorEligible => fun args => unpack args (fun v =>
      b ← on_delayed (IsEligible (dl_cfg delayed) v); ret (RBool b))
  | M_getTotalEligibleVotesCount => fun _ =>
      n ← on_delayed (TotalEligibleVoteCount (dl_cfg delayed) (dl_block delayed) (dl_jailed delayed));
      ret (RUint n)
  | M_getValidatorEligibleVotesCount => fun args => unpack args (fun v =>
      n ← on_delayed (GetEligibleVoteCount (dl_cfg delayed) (dl_block delayed) v); ret (RUint n))
  | M_getValidator => fun args => unpack args (fun v => r ← getValidator v; ret (RValidator r))
  | M_getValidators => fun args => unpack args (fun batch =>
      '(l, e) ← getValidators batch; ret (RValidators l e))
  | M_getValidatorsFor => fun args => unpack args (fun '(owner, batch) =>
      '(l, e) ← getValidatorsFor owner batch; ret (RValidators l e))
  | M_getTotalDelegation => fun args => unpack args (fun d => t ← getTotalDelegation d; ret (RUint t))
  | M_getDelegations => fun args => unpack args (fun '(d, batch) =>
      '(l, e) ← getDelegations cfg d batch; ret (RDelegations l e))
  | M_getUndelegations => fun args => unpack args (fun '(d, batch) =>
      '(l, e) ← getUndelegations d batch; ret (RUndelegations l e))
  | M_getUndelegationsV2 => fun args => unpack args (fun '(d, batch) =>
      '(l, e) ← getUndelegationsV2 fuel d batch; ret (RUndelegationsV2 l e))
  | M_getUndelegationV2 => fun args => unpack args (fun '(d, v, id) =>
      u ← getUndelegationV2 d v id;
      match u with None => throw ErrNonExistentUndelegation | Some u => ret (RUndelegationV2 u) end)
  end args.

Definition Run (ctx : CallFrame) (i : Input) : C Result :=
  match i with
  | InShort => throw "data too short for abi method lookup"
  | _ =>
  if (evm_block <? FixRedelegateBlockNum hf) && negb (evm_depth =? 0) then throw ErrCallIsNotToplevel else
  _ ← lazy_init cfg;
  match resolve i evm_block with
  | ToError err => throw err
  | ToTransfer => ret RNone
  | ToMethod m args =>
      if non_payable ctx m then throw ErrNonPayableMethod
      else if cornus_method m && negb (IsOnCornusHardfork hf evm_block) then throw ErrMethodNotSupported
      else run_method ctx m args
  end end.
End dispatch.
