(* ===== verification/EvmCall.v ===== *)
(** * Calls of the EVM into precompiled contracts: [core/vm/evm.go]

    [EVM.call] and its four variants over the state the DPOS contract lives
    in: balances and logs are the EVM's and are restored when a call fails;
    the contract's storage is written with [SetStateRawIrreversibly] and its
    counters are fields of the contract, so neither is.  What the interpreter
    does with code is a parameter here; [EvmRun.v] models it over any state. *)
From S2P Require Import Prelude Bytes Crypto ChainConfig Uint256 Storage IterableMap DposStorage Validators Dpos DposRewards DposRun.
Local Open Scope string_scope.

Definition CallCreateDepth : Z := 1024.

Definition ErrOutOfGas := "out of gas".
Definition ErrDepth := "max call depth exceeded".
Definition ErrInsufficientBalanceForTransfer := "insufficient balance for transfer".
Definition ErrExecutionReverted := "execution reverted".
Local Close Scope string_scope.

Inductive OpCode := CALL | CALLCODE | DELEGATECALL | STATICCALL.
#[export] Instance OpCode_eq_dec : EqDecision OpCode.
Proof. solve_decision. Defined.

(** [ContractRef]: an account, or the contract that is running. *)
Inductive ContractRef :=
| AccWrapper (caller : Address)
| RunningContract (frame : CallFrame).

Definition is_none {A} (o : option A) : bool := match o with None => true | Some _ => false end.

Definition ref_Account (c : ContractRef) : Address :=
  match c with AccWrapper a => a | RunningContract f => Account f end.

Section call.
Context {KV : Type} {Ret : Type}.
Abbreviation C := (M (Contract KV)).

(** [PrecompiledContract], applied to the input of the call. *)
Record PrecompiledContract := mkPrecompiled {
  pc_RequiredGas : CallFrame -> C Z;
  pc_Run : CallFrame -> C Ret;
}.

(** What the interpreter does with a contract's code: gas left and result. *)
Context (run : CallFrame -> bool -> Z -> C (Z * (string + option Ret))).

Definition transfer (from to : Address) (amount : Z) : C () :=
  _ ← SubBalance from amount; AddBalance to amount.

Definition BalanceGTE (s : Contract KV) (a : Address) (value : Z) : bool := value <=? balance_of s a.

(** [RevertToSnapshot]: the journalled part of the state. *)
Definition RevertToSnapshot (snapshot s : Contract KV) : Contract KV :=
  set_nonce (c_nonce snapshot) (set_logs (c_logs snapshot) (set_balances (c_balances snapshot) s)).

(** An error becomes a value; a panic stays one. *)
Definition catch {A} (m : C A) : C (string + A) := fun s =>
  match m s with
  | Done a s' => Done (inr a) s'
  | Fail e s' => Done (inl e) s'
  | Panic msg => Panic msg
  end.

(** The frame of the callee. *)
Definition call_frame (typ : OpCode) (caller : ContractRef) (callee : Address) (value : Z) : C CallFrame :=
  match typ with
  | CALL | STATICCALL => ret (mkCallFrame (ref_Account caller) callee value)
  | CALLCODE => ret (mkCallFrame (ref_Account caller) (ref_Account caller) value)
  | DELEGATECALL =>
      match caller with
      | RunningContract parent => ret (mkCallFrame (CallerAccount parent) (Account parent) (Value parent))
      | AccWrapper _ => panic "interface conversion"
      end
  end.

(** [EVM.call].  [precompiled], [code] and [callee_nil] are what the EVM
    finds at [callee]; the result is the gas left and an error or a value. *)
Definition call (typ : OpCode) (depth : Z) (caller : ContractRef) (callee : Address)
    (precompiled : option PrecompiledContract) (code callee_nil : bool) (gas value : Z)
  : C (Z * (string + option Ret)) :=
  if CallCreateDepth <? depth then ret (gas, inl ErrDepth) else
  snapshot ← get_st;
  let moves := bool_decide (typ = CALL) || bool_decide (typ = CALLCODE) in
  if moves && negb (bool_decide (ref_Account caller = ZeroAddress))
     && negb (BalanceGTE snapshot (ref_Account caller) value)
  then ret (gas, inl ErrInsufficientBalanceForTransfer) else
  if bool_decide (typ = CALL) && (value =? 0) && callee_nil && is_none precompiled
  then ret (gas, inr None) else
  _ ← (if bool_decide (typ = CALL) then transfer (ref_Account caller) callee value
       else if bool_decide (typ = STATICCALL) then AddBalance callee 0 else ret tt);
  frame ← call_frame typ caller callee value;
  '(gas_left, r) ←
    (match precompiled with
     | Some p =>
         gas_required ← pc_RequiredGas p frame;
         if gas_required <=? gas then
           r ← catch (pc_Run p frame); ret (gas - gas_required, sum_map id Some (r : string + Ret))
         else ret (gas, inl ErrOutOfGas)
     | None =>
         if code : bool then run frame (bool_decide (typ = STATICCALL)) gas else ret (gas, inr None)
     end);
  match r with
  | inl err =>
      _ ← modify_st (RevertToSnapshot snapshot);
      ret (if negb (String.eqb err ErrExecutionReverted) && is_none precompiled then 0 else gas_left, inl err)
  | inr v => ret (gas_left, inr v)
  end.
End call.

(** The DPOS contract as the EVM knows it, for one input. *)
Definition dpos_precompiled {KV} `{DposKV KV} `{Uint256} `{Crypto} (cfg : ChainConfig) (fuel : nat)
    (evm_block evm_depth : Z) (delayed : Delayed KV) (i : Input) : @PrecompiledContract KV Result :=
  mkPrecompiled (fun ctx => RequiredGas cfg fuel evm_block ctx i)
    (fun ctx => Run cfg fuel evm_block evm_depth delayed ctx i).
