(* ===== verification/DposTyped.v ===== *)
(** * The DPOS records over the typed store

    The abstract state [adpos] of the contract (finite maps of records, no
    iterable maps), the abstraction function, and one rule per operation of
    [Validators.v] that relates the operation to the abstract state.  The
    index invariant [idx_of] says that the iterable maps list exactly the
    records that exist; [n] bounds every counter of the contract. *)
From S2P Require Import Prelude Bytes Crypto ChainConfig Uint256 Storage IterableMap DposStorage Validators Dpos.

Abbreviation CT := (Contract TStore).
Abbreviation ikey := (imap_id * imkey)%type.

(** ** Iterable maps inside the contract's store *)
Definition with_imap (m : gmap ikey bytes) (s : CT) : CT :=
  let t := c_storage s in
  set_storage (mkTStore (ts_validator t) (ts_info t) (ts_rewards t) (ts_owner t) (ts_vrf t) (ts_state t)
                 (ts_delegation t) (ts_undel1 t) (ts_undel2 t) (ts_uid t) m (ts_scalar t) (ts_yield t)) s.

Definition imap_view (m : gmap ikey bytes) (k : ikey) : option bytes := m !! k.
Definition imap_part (s : CT) : gmap ikey bytes := ts_imap (c_storage s).

Lemma with_imap_id s : with_imap (imap_part s) s = s.
Proof. by destruct s as [[] ? ? ? ? ? ? ? ? ? ?]. Qed.

Lemma with_imap_with_imap m m' s : with_imap m (with_imap m' s) = with_imap m s.
Proof. done. Qed.

Lemma imap_put_run k b (s : CT) :
  Put k b s = Done tt (with_imap (mput k (nonempty b) (imap_part s)) s).
Proof.
  destruct s as [[] ? ? ? ? ? ? ? ? ? ?]. unfold Put, kv_bytestore, kv_put, contract_kv, kv_put, TStore_kv, ts_put.
  by destruct b as [|x b].
Qed.

(** The laws of the store as the iterable maps see it; only the part they
    own may differ from [s0]. *)
#[local, program] Instance frame_laws (s0 : CT) : ByteStoreLaws CT ikey := {|
  swf s := exists m, s = with_imap m s0;
  sview s := imap_view (imap_part s);
|}.
Next Obligation. intros s0 k s Hs. unfold wp. simpl. by destruct s as [[] ? ? ? ? ? ? ? ? ? ?]. Qed.
Next Obligation.
  intros s0 k v s [m ->]. unfold wp. rewrite imap_put_run. simpl. split_and!.
  - by eexists.
  - unfold imap_view, imap_part, mput. simpl. destruct (nonempty v);
      [apply lookup_insert_eq|apply lookup_delete_eq].
  - intros k' Hk. unfold imap_view, imap_part, mput. simpl. destruct (nonempty v);
      [by apply lookup_insert_ne|by apply lookup_delete_ne].
Qed.

(** Items of a map: addresses, or undelegation ids. *)
Definition valid_item (id : imap_id) (x : bytes) : Prop :=
  length x = match id with ImUndelIds _ _ => 8%nat | _ => 20%nat end.

Lemma imap_of_keys_ok id : imap_keys_ok (imap_of id) (valid_item id).
Proof. split; unfold valid_item, imap_of; simpl; try congruence. intros x Hx ->. by destruct id. Qed.

(** The lists [L] of all maps. *)
Definition lists_ok (m : gmap ikey bytes) (L : imap_id -> list bytes) : Prop :=
  forall id, imap_rep (imap_of id) (valid_item id) (imap_view m) (L id).

Definition lupd (L : imap_id -> list bytes) (id : imap_id) (l : list bytes) : imap_id -> list bytes :=
  fun id' => if decide (id' = id) then l else L id'.

Lemma lupd_eq L id l : lupd L id l id = l.
Proof. unfold lupd. by rewrite decide_True. Qed.
Lemma lupd_ne L id l id' : id' <> id -> lupd L id l id' = L id'.
Proof. intros. unfold lupd. by rewrite decide_False. Qed.

Lemma imap_rep_foreign id v w l :
  (forall k : ikey, fst k = id -> w k = v k) ->
  imap_rep (imap_of id) (valid_item id) v l -> imap_rep (imap_of id) (valid_item id) w l.
Proof. intros Hv [????? Hd Hb]. split; intros; rewrite ?Hv by done; eauto. Qed.

Lemma owns_id id k : imap_owns (imap_of id) (valid_item id) k -> fst k = id.
Proof. intros [->|[(p & _ & ->)|(x & _ & ->)]]; done. Qed.

Lemma lists_ok_moves s0 m m' L id l :
  lists_ok m L ->
  @moves CT ikey _ (frame_laws s0) (imap_of id) (valid_item id) (with_imap m s0) l (with_imap m' s0) ->
  lists_ok m' (lupd L id l).
Proof.
  intros HL [[_ Hr] Hf] id'. destruct (decide (id' = id)) as [->|Hne].
  - rewrite lupd_eq. exact Hr.
  - rewrite lupd_ne by done. eapply imap_rep_foreign; [|apply HL].
    intros k Hk. apply (Hf k). intros Ho%owns_id. congruence.
Qed.

Lemma lists_holds s L id :
  lists_ok (imap_part s) L ->
  @holds CT ikey _ (frame_laws s) (imap_of id) (valid_item id) s (L id).
Proof. intros HL. split; [exists (imap_part s); by rewrite with_imap_id|apply HL]. Qed.

Lemma item_exists_run s L id x :
  lists_ok (imap_part s) L -> valid_item id x ->
  ItemExists (imap_of id) x s = Done (bool_decide (x ∈ L id)) s.
Proof.
  intros HL Hx.
  pose proof (stored_position _ _ s (L id) x (lists_holds s L id HL) Hx) as Hp. simpl in Hp.
  pose proof (position_elem (L id) x) as He.
  assert (0 <= position (L id) x) as Hpos by (unfold position; repeat case_match; lia).
  unfold ItemExists, itemExists, bindM.
  assert (Get (im_pos (imap_of id) x) s = Done (imap_part s !! (id, IKPos x)) s) as ->.
  { by destruct s as [[] ? ? ? ? ? ? ? ? ? ?]. }
  assert (u32_of_bytes (imap_part s !! (id, IKPos x)) s = Done (position (L id) x) s) as ->.
  { unfold u32_of_bytes. unfold imap_view in Hp. destruct (imap_part s !! (id, IKPos x)); simpl in Hp.
    - by rewrite Hp.
    - by injection Hp as <-. }
  unfold ret. simpl. f_equal. case_bool_decide as Hd.
  - apply negb_true_iff, Z.eqb_neq. assert (0 < position (L id) x) by tauto. lia.
  - apply negb_false_iff, Z.eqb_eq. destruct (Z.eq_dec (position (L id) x) 0); [done|].
    destruct Hd. apply He. lia.
Qed.

Lemma get_count_run s L id :
  lists_ok (imap_part s) L -> GetCount (imap_of id) s = Done (Z.of_nat (length (L id))) s.
Proof.
  intros HL. pose proof (rep_count _ _ _ _ (HL id)) as Hc. unfold GetCount, bindM.
  assert (Get (im_count (imap_of id)) s = Done (imap_part s !! (id, IKCount)) s) as ->.
  { by destruct s as [[] ? ? ? ? ? ? ? ? ? ?]. }
  unfold u32_of_bytes. unfold imap_view in Hc. simpl in Hc.
  destruct (imap_part s !! (id, IKCount)); simpl in Hc; [by rewrite Hc|by injection Hc as <-].
Qed.

Lemma get_run (k : ikey) (s : CT) : Get k s = Done (imap_part s !! k) s.
Proof. by destruct s as [[] ? ? ? ? ? ? ? ? ? ?]. Qed.

Lemma GetItems_loop_same (im : imap ikey) fuel start end_idx cnt idx result (s : CT) r s' :
  GetItems_loop im fuel start end_idx cnt idx result s = Done r s' -> s' = s.
Proof.
  revert idx result. induction fuel as [|fuel IH]; intros idx result; cbn [GetItems_loop]; (case_match; [|by intros [= _ <-]]); [done|].
  unfold bindM. rewrite get_run. repeat case_match; try done. apply IH.
Qed.

(** A window of the list; reading it changes nothing. *)
Lemma get_items_run s L id start count :
  lists_ok (imap_part s) L -> 0 <= start < 2 ^ 32 -> 0 <= count < 2 ^ 31 -> Z.of_nat (length (L id)) < 2 ^ 31 ->
  GetItems (imap_of id) start count s
  = Done (take (Z.to_nat count) (drop (Z.to_nat start) (L id)), Z.of_nat (length (L id)) <=? start + count) s.
Proof.
  intros HL Hs Hc Hl. destruct (Z.le_gt_cases (Z.of_nat (length (L id))) start) as [Hle|Hgt].
  - unfold GetItems, bindM. rewrite (get_count_run s L id HL).
    rewrite (proj2 (Z.leb_le (Z.of_nat _) start)), (proj2 (Z.leb_le _ (start + count))) by lia.
    rewrite drop_ge, take_nil by lia. by destruct (Z.of_nat (length (L id)) =? 0).
  - pose proof (@GetItems_spec _ _ _ (frame_laws s) (imap_of id) (valid_item id) (imap_of_keys_ok id) s (L id) start count
      (lists_holds s L id HL) ltac:(lia) ltac:(lia) ltac:(lia) ltac:(lia)) as Hw.
    unfold wp in Hw. destruct (GetItems (imap_of id) start count s) as [r s'| |] eqn:Hr; [|done..].
    destruct Hw as [-> _]. f_equal. revert Hr. unfold GetItems, bindM. rewrite (get_count_run s L id HL).
    destruct (Z.of_nat (length (L id)) =? 0); [by intros [= _ _ <-]|].
    destruct (Z.of_nat (length (L id)) <=? start); [by intros [= _ _ <-]|].
    set (p := if _ <=? u32 (start + count) then _ else _). destruct p as [m e].
    destruct (GetItems_loop _ _ _ _ _ _ _ s) as [r0 s1| |] eqn:Hl1; [|done..].
    apply GetItems_loop_same in Hl1 as ->. by intros [= _ _ <-].
Qed.

Lemma create_item_run s L id x :
  lists_ok (imap_part s) L -> valid_item id x -> x ∉ L id -> Z.of_nat (length (L id)) + 1 < 2 ^ 32 ->
  exists m, CreateItem (imap_of id) x s = Done (Z.of_nat (length (L id)) + 1) (with_imap m s)
            /\ lists_ok m (lupd L id (L id ++ [x])).
Proof.
  intros HL Hx Hn Hlen.
  pose proof (@CreateItem_spec _ _ _ _ (frame_laws s) _ _ (imap_of_keys_ok id) s (L id) x
    (lists_holds s L id HL) Hx Hn Hlen) as Hw.
  unfold wp in Hw. destruct (CreateItem (imap_of id) x s) as [c s'| |]; [|done..].
  destruct Hw as [-> Hm]. destruct (proj1 (proj1 Hm)) as [m ->]. exists m. split; [done|].
  eapply (lists_ok_moves s (imap_part s)); [done|]. by rewrite with_imap_id.
Qed.

Lemma remove_item_run s L id x :
  lists_ok (imap_part s) L -> x ∈ L id ->
  exists m l', RemoveItem (imap_of id) x s = Done (Z.of_nat (length (L id)) - 1) (with_imap m s)
            /\ x :: l' ≡ₚ L id /\ lists_ok m (lupd L id l').
Proof.
  intros HL [i Hi]%list_elem_of_lookup.
  pose proof (@RemoveItem_spec _ _ _ _ (frame_laws s) _ _ (imap_of_keys_ok id) s (L id) x i
    (lists_holds s L id HL) Hi) as Hw.
  unfold wp in Hw. destruct (RemoveItem (imap_of id) x s) as [c s'| |]; [|done..].
  destruct Hw as [-> Hm]. destruct (proj1 (proj1 Hm)) as [m ->].
  exists m, (swap_remove i (L id)). split_and!; [done|by apply swap_remove_Permutation|].
  eapply (lists_ok_moves s (imap_part s)); [done|]. by rewrite with_imap_id.
Qed.

(** ** The abstract state *)
Record adpos := mkA {
  a_val : gmap Address Validator;
  a_rew : gmap Address ValidatorRewards;
  a_st : gmap (Address * Z) State;               (* validator, block *)
  a_del : gmap (Address * Address) Delegation;   (* validator, delegator *)
  a_u1 : gmap (Address * Address) UndelegationV1;
  a_u2 : gmap (Address * Address * Z) UndelegationV2;
  a_bal : gmap Address Z;
  a_votes : Z;
  a_amount : Z;
  a_init : bool;
  a_supply : Z * option Z;                       (* minted tokens, total supply *)
  a_saved : (Z * option bytes) * (Z * option bytes);  (* votes, amount: as last saved, in storage *)
}.

Definition abs (s : CT) : adpos :=
  let t := c_storage s in
  mkA (validator_of <$> ts_validator t) (ts_rewards t) (ts_state t) (ts_delegation t) (ts_undel1 t)
    (ts_undel2 t) (c_balances s) (eligible_vote_count s) (amount_delegated s)
    (lazy_init_done s) (minted_tokens s, total_supply s)
    ((eligible_vote_count_orig s, ts_scalar t !! SEligibleVoteCount),
     (amount_delegated_orig s, ts_scalar t !! SAmountDelegated)).

Definition a_set_val f (A : adpos) :=
  mkA (f (a_val A)) (a_rew A) (a_st A) (a_del A) (a_u1 A) (a_u2 A) (a_bal A) (a_votes A) (a_amount A) (a_init A) (a_supply A) (a_saved A).
Definition a_set_rew f (A : adpos) :=
  mkA (a_val A) (f (a_rew A)) (a_st A) (a_del A) (a_u1 A) (a_u2 A) (a_bal A) (a_votes A) (a_amount A) (a_init A) (a_supply A) (a_saved A).
Definition a_set_st f (A : adpos) :=
  mkA (a_val A) (a_rew A) (f (a_st A)) (a_del A) (a_u1 A) (a_u2 A) (a_bal A) (a_votes A) (a_amount A) (a_init A) (a_supply A) (a_saved A).
Definition a_set_del f (A : adpos) :=
  mkA (a_val A) (a_rew A) (a_st A) (f (a_del A)) (a_u1 A) (a_u2 A) (a_bal A) (a_votes A) (a_amount A) (a_init A) (a_supply A) (a_saved A).
Definition a_set_u1 f (A : adpos) :=
  mkA (a_val A) (a_rew A) (a_st A) (a_del A) (f (a_u1 A)) (a_u2 A) (a_bal A) (a_votes A) (a_amount A) (a_init A) (a_supply A) (a_saved A).
Definition a_set_u2 f (A : adpos) :=
  mkA (a_val A) (a_rew A) (a_st A) (a_del A) (a_u1 A) (f (a_u2 A)) (a_bal A) (a_votes A) (a_amount A) (a_init A) (a_supply A) (a_saved A).
Definition a_set_bal f (A : adpos) :=
  mkA (a_val A) (a_rew A) (a_st A) (a_del A) (a_u1 A) (a_u2 A) (f (a_bal A)) (a_votes A) (a_amount A) (a_init A) (a_supply A) (a_saved A).
Definition a_set_votes z (A : adpos) :=
  mkA (a_val A) (a_rew A) (a_st A) (a_del A) (a_u1 A) (a_u2 A) (a_bal A) z (a_amount A) (a_init A) (a_supply A) (a_saved A).
Definition a_set_amount z (A : adpos) :=
  mkA (a_val A) (a_rew A) (a_st A) (a_del A) (a_u1 A) (a_u2 A) (a_bal A) (a_votes A) z (a_init A) (a_supply A) (a_saved A).

Definition a_set_supply z (A : adpos) :=
  mkA (a_val A) (a_rew A) (a_st A) (a_del A) (a_u1 A) (a_u2 A) (a_bal A) (a_votes A) (a_amount A) (a_init A) z (a_saved A).

Definition a_set_saved z (A : adpos) :=
  mkA (a_val A) (a_rew A) (a_st A) (a_del A) (a_u1 A) (a_u2 A) (a_bal A) (a_votes A) (a_amount A) (a_init A) (a_supply A) z.

(** ** The index invariant *)
Definition uid_of (o : option bytes) : option Z :=
  match o with None => Some 0 | Some b => BytesToUint64 b end.

(** The iterable maps hold exactly the keys of the records, no list is
    longer than [n] and no undelegation id greater. *)
Record idx_of (m : gmap ikey bytes) (val : gmap Address StoredValidator) (info : gmap Address ValidatorInfo)
    (rew : gmap Address ValidatorRewards) (del : gmap (Address * Address) Delegation)
    (u1 : gmap (Address * Address) UndelegationV1) (u2 : gmap (Address * Address * Z) UndelegationV2)
    (uid : gmap Address bytes) (n : Z) (L : imap_id -> list bytes) : Prop := {
  ix_lists : lists_ok m L;
  ix_len id : Z.of_nat (length (L id)) <= n;
  ix_val a : addr_bytes a ∈ L ImValidators <-> is_Some (val !! a);
  ix_info a : is_Some (info !! a) <-> is_Some (val !! a);
  ix_rew a : is_Some (rew !! a) <-> is_Some (val !! a);
  ix_del d v : addr_bytes v ∈ L (ImDelegator d) <-> is_Some (del !! (v, d));
  ix_u1 d v : addr_bytes v ∈ L (ImUndelV1 d) <-> is_Some (u1 !! (v, d));
  ix_u2 d v : addr_bytes v ∈ L (ImUndelV2 d) <-> L (ImUndelIds d v) <> [];
  ix_ids d v b : b ∈ L (ImUndelIds d v) <-> exists i, 0 <= i < 2 ^ 64 /\ b = Uint64ToBytes i /\ is_Some (u2 !! (d, v, i));
  ix_uid d : exists k, uid_of (uid !! d) = Some k /\ 0 <= k <= n /\ forall v i, is_Some (u2 !! (d, v, i)) -> 0 < i <= k;
}.

Definition idx_inv (n : Z) (t : TStore) (L : imap_id -> list bytes) : Prop :=
  idx_of (ts_imap t) (ts_validator t) (ts_info t) (ts_rewards t) (ts_delegation t) (ts_undel1 t)
    (ts_undel2 t) (ts_uid t) n L.

(** The concrete state [s] implements the abstract one. *)
Definition rel (n : Z) (s : CT) (A : adpos) : Prop := (exists L, idx_inv n (c_storage s) L) /\ abs s = A.

Lemma rel_mono n n' s A : rel n s A -> n <= n' -> rel n' s A.
Proof.
  intros [[L [H1 H2 H3 H4 H5 H6 H7 H8 H9 H10]] HA] Hn. split; [|done]. exists L. split; try done.
  - intros id. specialize (H2 id). lia.
  - intros d. destruct (H10 d) as (k & ? & ? & ?). exists k. split_and!; try done; lia.
Qed.

Lemma addr_valid_item id a :
  match id with ImUndelIds _ _ => False | _ => True end -> valid_item id (addr_bytes a).
Proof. unfold valid_item. destruct id; intros; try done; apply addr_length. Qed.

Lemma id_valid_item d v i : valid_item (ImUndelIds d v) (Uint64ToBytes i).
Proof. apply length_uint_to_le. Qed.

Lemma Uint64ToBytes_inj i j :
  0 <= i < 2 ^ 64 -> 0 <= j < 2 ^ 64 -> Uint64ToBytes i = Uint64ToBytes j -> i = j.
Proof. exact (uint_to_le_inj 8 i j). Qed.

Lemma addr_bytes_inj a b : addr_bytes a = addr_bytes b -> a = b.
Proof. apply Address_eq. Qed.

(** ** Rules for reads: the state does not change *)
Section reads.
Context {B : Type}.
Implicit Types (Q : B -> CT -> Prop) (E : string -> CT -> Prop) (s : CT) (A : adpos).

Lemma wp_gets {X} (f : CT -> X) (k : X -> M CT B) Q E s :
  wp (k (f s)) Q E s -> wp (x ← gets f; k x) Q E s.
Proof. done. Qed.

Lemma wp_bind_ret {X} (x : X) (k : X -> M CT B) Q E s : wp (k x) Q E s -> wp (y ← ret x; k y) Q E s.
Proof. done. Qed.

Lemma wp_deref {X} (x : X) (k : X -> M CT B) Q E s :
  wp (k x) Q E s -> wp (y ← deref (Some x); k y) Q E s.
Proof. done. Qed.

Lemma wp_GetValidator (k : option Validator -> M CT B) Q E n s A v :
  rel n s A -> wp (k (a_val A !! v)) Q E s -> wp (x ← GetValidator v; k x) Q E s.
Proof.
  intros [_ <-]. simpl. rewrite lookup_fmap. unfold wp, GetValidator, bindM, ret. simpl.
  by destruct s as [[] ? ? ? ? ? ? ? ? ? ?].
Qed.

Lemma wp_GetValidatorRewards (k : option ValidatorRewards -> M CT B) Q E n s A v :
  rel n s A -> wp (k (a_rew A !! v)) Q E s -> wp (x ← GetValidatorRewards v; k x) Q E s.
Proof.
  intros [_ <-]. simpl. unfold wp, GetValidatorRewards, bindM, ret. simpl.
  by destruct s as [[] ? ? ? ? ? ? ? ? ? ?].
Qed.

Lemma wp_GetDelegation (k : option Delegation -> M CT B) Q E n s A d v :
  rel n s A -> wp (k (a_del A !! (v, d))) Q E s -> wp (x ← GetDelegation d v; k x) Q E s.
Proof.
  intros [_ <-]. simpl. unfold wp, GetDelegation, bindM, ret. simpl.
  by destruct s as [[] ? ? ? ? ? ? ? ? ? ?].
Qed.

Lemma wp_state_get (k : option State -> M CT B) Q E n s A v b :
  rel n s A -> wp (k (a_st A !! (v, b))) Q E s -> wp (x ← state_get v b; k x) Q E s.
Proof.
  intros [_ <-]. simpl. unfold wp, state_get, bindM, ret. simpl.
  by destruct s as [[] ? ? ? ? ? ? ? ? ? ?].
Qed.

Lemma ValidatorExists_run n s A v :
  rel n s A -> ValidatorExists v s = Done (bool_decide (is_Some (a_val A !! v))) s.
Proof.
  intros [[L H] <-]. unfold ValidatorExists, AccountExists.
  rewrite (item_exists_run s L); [|apply H|by apply addr_valid_item]. f_equal. apply bool_decide_ext.
  rewrite (ix_val _ _ _ _ _ _ _ _ _ _ H v). simpl. rewrite lookup_fmap. by rewrite fmap_is_Some.
Qed.

Lemma wp_ValidatorExists (k : bool -> M CT B) Q E n s A v :
  rel n s A -> wp (k (bool_decide (is_Some (a_val A !! v)))) Q E s -> wp (x ← ValidatorExists v; k x) Q E s.
Proof. intros H Hk. eapply wp_bind_done; [by eapply ValidatorExists_run|done]. Qed.

Lemma wp_DelegationExists (k : bool -> M CT B) Q E n s A d v :
  rel n s A -> wp (k (bool_decide (is_Some (a_del A !! (v, d))))) Q E s ->
  wp (x ← AccountExists (getDelegatorValidatorsList d) v; k x) Q E s.
Proof.
  intros [[L H] <-] Hk. eapply wp_bind_done; [|exact Hk]. unfold AccountExists, getDelegatorValidatorsList.
  rewrite (item_exists_run s L); [|apply H|by apply addr_valid_item]. f_equal. apply bool_decide_ext.
  apply (ix_del _ _ _ _ _ _ _ _ _ _ H).
Qed.

(** The validators a delegator has delegated to, all of them or a page. *)
Lemma read_addresses (s : CT) L id start count l :
  lists_ok (imap_part s) L -> match id with ImUndelIds _ _ => False | _ => True end ->
  l = take (Z.to_nat count) (drop (Z.to_nat start) (L id)) ->
  forall v, v ∈ BytesToAddress <$> l -> addr_bytes v ∈ L id.
Proof.
  intros HL Hid -> v (b & -> & Hb)%list_elem_of_fmap. apply elem_of_take in Hb as (i & Hi & _).
  rewrite lookup_drop in Hi. apply list_elem_of_lookup_2 in Hi.
  pose proof (rep_valid _ _ _ _ (HL id) _ Hi) as Hv. unfold valid_item in Hv.
  rewrite addr_bytes_BytesToAddress. unfold pad_left.
  assert (length b = 20%nat) as E by (destruct id; done). rewrite E, decide_False by lia. done.
Qed.

Lemma wp_GetDelegatorValidatorsAddresses (k : list Address * bool -> M CT B) Q E n s A d batch count :
  rel n s A -> n < 2 ^ 31 -> 0 <= count < 2 ^ 31 ->
  (forall l e, (forall v, v ∈ l -> is_Some (a_del A !! (v, d))) -> Z.of_nat (length l) <= count -> wp (k (l, e)) Q E s) ->
  wp (r ← GetDelegatorValidatorsAddresses d batch count; k r) Q E s.
Proof.
  intros [[L H] <-] Hn Hc Hk. eapply wp_bind_done.
  { unfold GetDelegatorValidatorsAddresses, GetAccounts, getDelegatorValidatorsList, bindM.
    pose proof (ix_len _ _ _ _ _ _ _ _ _ _ H (ImDelegator d)).
    rewrite (get_items_run s L); [done|apply H|unfold u32; apply Z.mod_pos_bound; lia|done|lia]. }
  apply Hk.
  - intros v Hv. apply (ix_del _ _ _ _ _ _ _ _ _ _ H). revert v Hv. by eapply read_addresses; [apply H|..].
  - simpl. rewrite length_fmap, length_take. lia.
Qed.

(** How many validators a delegator has delegated to. *)
Definition delegations (s : CT) (d : Address) : Z :=
  match GetDelegationsCount d s with Done c _ => c | _ => 0 end.

Lemma delegations_run n s A d : rel n s A -> GetDelegationsCount d s = Done (delegations s d) s /\ 0 <= delegations s d <= n.
Proof.
  intros [[L H] _]. unfold delegations, GetDelegationsCount, getDelegatorValidatorsList.
  rewrite (get_count_run s L) by apply H. split; [done|].
  pose proof (ix_len _ _ _ _ _ _ _ _ _ _ H (ImDelegator d)). lia.
Qed.

Lemma wp_GetAllDelegatorValidatorsAddresses (k : list Address -> M CT B) Q E n s A d :
  rel n s A -> n < 2 ^ 31 ->
  (forall l, (forall v, v ∈ l -> is_Some (a_del A !! (v, d))) -> Z.of_nat (length l) = delegations s d -> wp (k l) Q E s) ->
  wp (r ← GetAllDelegatorValidatorsAddresses d; k r) Q E s.
Proof.
  intros [[L H] <-] Hn Hk. pose proof (ix_len _ _ _ _ _ _ _ _ _ _ H (ImDelegator d)). eapply wp_bind_done.
  { unfold GetAllDelegatorValidatorsAddresses, GetAllAccounts, getDelegatorValidatorsList, bindM.
    rewrite (get_count_run s L) by apply H.
    rewrite (get_items_run s L); [done|apply H|lia|lia|lia]. }
  apply Hk.
  - intros v Hv. apply (ix_del _ _ _ _ _ _ _ _ _ _ H). revert v Hv. by eapply read_addresses; [apply H|..].
  - simpl. rewrite length_fmap, length_take, drop_0. unfold delegations, GetDelegationsCount, getDelegatorValidatorsList.
    rewrite (get_count_run s L) by apply H. lia.
Qed.

(** An undelegation of either version, as the handlers look at it. *)
Definition a_undel (A : adpos) (d v : Address) (id : option Z) : option UndelegationV1 :=
  match id with
  | Some i => u_V1 <$> a_u2 A !! (d, v, i)
  | None => a_u1 A !! (v, d)
  end.

Definition id_ok (id : option Z) : Prop := match id with Some i => 0 <= i < 2 ^ 64 | None => True end.

Lemma wp_UndelegationExists (k : bool -> M CT B) Q E n s A d v id :
  rel n s A -> id_ok id -> wp (k (bool_decide (is_Some (a_undel A d v id)))) Q E s ->
  wp (x ← UndelegationExists d v id; k x) Q E s.
Proof.
  intros [[L H] <-] Hid Hk. eapply wp_bind_done; [|exact Hk]. destruct id as [i|]; simpl in *.
  - unfold undelegationV2Exists, IdExists, undelegations_v2_ids.
    rewrite (item_exists_run s L); [|apply H|by apply id_valid_item]. f_equal. apply bool_decide_ext.
    rewrite (ix_ids _ _ _ _ _ _ _ _ _ _ H), fmap_is_Some. split; [|eauto].
    intros (j & Hj & ->%Uint64ToBytes_inj & ?); done.
  - unfold UndelegationV1Exists, AccountExists, getUndelegationsV1ValidatorsMap.
    rewrite (item_exists_run s L); [|apply H|by apply addr_valid_item]. f_equal. apply bool_decide_ext.
    apply (ix_u1 _ _ _ _ _ _ _ _ _ _ H).
Qed.

Lemma wp_GetUndelegationBaseObject (k : option UndelegationV1 -> M CT B) Q E n s A d v id :
  rel n s A -> wp (k (a_undel A d v id)) Q E s -> wp (x ← GetUndelegationBaseObject d v id; k x) Q E s.
Proof.
  intros [_ <-]. destruct id as [i|]; simpl; unfold wp, GetUndelegationBaseObject, bindM, ret; simpl;
  by destruct s as [[] ? ? ? ? ? ? ? ? ? ?].
Qed.
End reads.

(** ** Rules for writes *)

(** What is read back after [ModifyValidator]: before the Magnolia hardfork
    the undelegation count is not stored. *)
Definition stored_as (extended : bool) (v : Validator) : Validator :=
  if extended then v else mkValidator (v1 v) 0.

Lemma is_Some_insert_iff `{Countable K} {V} (m : gmap K V) i x j :
  is_Some (m !! i) -> (is_Some (<[i:=x]> m !! j) <-> is_Some (m !! j)).
Proof.
  intros Hi. destruct (decide (i = j)) as [<-|].
  - rewrite lookup_insert_eq. split; [done|by eexists].
  - by rewrite lookup_insert_ne.
Qed.

Section writes.
Context {B : Type}.
Implicit Types (Q : B -> CT -> Prop) (E : string -> CT -> Prop) (s : CT) (A : adpos).

Lemma wp_state_put (k : () -> M CT B) Q E n s A v b o :
  rel n s A -> (forall st, o = Some st -> 0 <= RewardsPer1Stake st) ->
  (forall s', rel n s' (a_set_st (mput (v, b) o) A) -> wp (k tt) Q E s') ->
  wp (x ← state_put v b o; k x) Q E s.
Proof.
  intros [HL <-] Ho Hk. unfold wp, state_put, bindM. simpl. unfold ts_put. destruct o as [st|].
  - simpl. rewrite (proj2 (Z.leb_le _ _)) by (by apply Ho). apply Hk. split; [exact HL|done].
  - apply Hk. split; [exact HL|done].
Qed.

Lemma abs_put_val s v (sv : StoredValidator) A :
  abs s = A -> 
  abs (set_storage (ts_update (c_storage s) KdValidator v (Some sv)) s) = a_set_val (<[v := validator_of sv]>) A.
Proof. intros <-. unfold abs, a_set_val. simpl. by rewrite fmap_insert. Qed.

Lemma wp_ModifyValidator (k : () -> M CT B) Q E n s A ext v (x : Validator) :
  rel n s A -> is_Some (a_val A !! v) -> 0 <= TotalStake x ->
  (forall s', rel n s' (a_set_val (<[v := stored_as ext x]>) A) -> wp (k tt) Q E s') ->
  wp (y ← ModifyValidator ext v x; k y) Q E s.
Proof.
  intros Hs Hv Hx Hk. apply wp_bind.
  assert (forall sv, (match sv with StoredV1 w => TotalStake w | StoredV2 w => TotalStake w end) = TotalStake x ->
     validator_of sv = stored_as ext x ->
     wp (b ← ValidatorExists v; if negb b then panic "Modify: non existent validator"
         else kv_put KdValidator v (Some sv)) (fun a s' => wp (k a) Q E s') E s) as Hw.
  { intros sv Hsv Hval. eapply wp_ValidatorExists; [done|]. rewrite bool_decide_true by done. simpl.
    unfold wp. simpl. unfold ts_put. simpl.
    replace (match sv with StoredV1 w => 0 <=? TotalStake w | StoredV2 w => 0 <=? TotalStake w end)
      with (0 <=? TotalStake x) by (rewrite <- Hsv; by destruct sv).
    rewrite (proj2 (Z.leb_le _ _)) by done. apply Hk. destruct Hs as [[L H] HA]. split.
    - exists L. destruct H as [H1 H2 H3 H4 H5 H6 H7 H8 H9 H10].
      assert (is_Some (ts_validator (c_storage s) !! v)) as Hv'.
      { rewrite <- HA in Hv. simpl in Hv. by rewrite lookup_fmap, fmap_is_Some in Hv. }
      split; simpl; try done.
      + intros a. by rewrite H3, is_Some_insert_iff.
      + intros a. by rewrite H4, is_Some_insert_iff.
      + intros a. by rewrite H5, is_Some_insert_iff.
    - rewrite <- Hval. exact (abs_put_val s v sv A HA). }
  unfold ModifyValidator, Modify, Save. destruct ext; by apply Hw.
Qed.

Lemma wp_ModifyValidatorRewards (k : () -> M CT B) Q E n s A v r :
  rel n s A -> is_Some (a_val A !! v) -> 0 <= RewardsPool r -> 0 <= CommissionRewardsPool r ->
  (forall s', rel n s' (a_set_rew (<[v := r]>) A) -> wp (k tt) Q E s') ->
  wp (y ← ModifyValidatorRewards v (Some r); k y) Q E s.
Proof.
  intros Hs Hv H1 H2 Hk. apply wp_bind. unfold ModifyValidatorRewards, Modify, Save.
  eapply wp_ValidatorExists; [done|]. rewrite bool_decide_true by done. simpl.
  unfold wp. simpl. unfold ts_put. simpl. rewrite !(proj2 (Z.leb_le _ _)) by done. simpl. apply Hk.
  destruct Hs as [[L H] <-]. split; [|done]. exists L. destruct H as [I1 I2 I3 I4 I5 I6 I7 I8 I9 I10].
  split; simpl; try done. intros a. rewrite is_Some_insert_iff; [done|]. apply I5.
  simpl in Hv. by rewrite lookup_fmap, fmap_is_Some in Hv.
Qed.

Lemma wp_ModifyDelegation (k : () -> M CT B) Q E n s A d v x :
  rel n s A -> is_Some (a_del A !! (v, d)) -> 0 <= d_Stake x ->
  (forall s', rel n s' (a_set_del (<[(v, d) := x]>) A) -> wp (k tt) Q E s') ->
  wp (y ← ModifyDelegation d v x; k y) Q E s.
Proof.
  intros Hs Hd Hx Hk. apply wp_bind. unfold ModifyDelegation. eapply wp_DelegationExists; [done|].
  rewrite bool_decide_true by done. simpl. unfold wp. simpl. unfold ts_put. simpl.
  rewrite (proj2 (Z.leb_le _ _)) by done. apply Hk. destruct Hs as [[L H] <-]. split; [|done]. exists L.
  destruct H as [I1 I2 I3 I4 I5 I6 I7 I8 I9 I10]. split; simpl; try done.
  intros d' v'. by rewrite I6, is_Some_insert_iff.
Qed.
End writes.

(** ** Rules for creation and removal *)
Section creations.
Context {B : Type}.
Implicit Types (Q : B -> CT -> Prop) (E : string -> CT -> Prop) (s : CT) (A : adpos).

Lemma elem_of_snoc {X} (l : list X) x y : x ∈ l ++ [y] <-> x ∈ l \/ x = y.
Proof. by rewrite elem_of_app, list_elem_of_singleton. Qed.

Lemma elem_of_removed {X} (l l' : list X) x y :
  NoDup l -> x :: l' ≡ₚ l -> (y ∈ l' <-> y ∈ l /\ y <> x).
Proof.
  intros Hd Hp. rewrite <- Hp. rewrite elem_of_cons. rewrite <- Hp, NoDup_cons in Hd.
  split; [|naive_solver]. intros Hy. split; [by right|]. intros ->. by destruct Hd.
Qed.

Lemma ix_nodup m L id : lists_ok m L -> NoDup (L id).
Proof. intros H. apply (rep_nodup _ _ _ _ (H id)). Qed.

Lemma is_Some_insert_new `{Countable K} {V} (m : gmap K V) i x j :
  is_Some (<[i:=x]> m !! j) <-> j = i \/ is_Some (m !! j).
Proof.
  destruct (decide (i = j)) as [<-|].
  - rewrite lookup_insert_eq. split; [by left|by eexists].
  - rewrite lookup_insert_ne by done. naive_solver.
Qed.

Lemma is_Some_delete_iff `{Countable K} {V} (m : gmap K V) i j :
  is_Some (delete i m !! j) <-> j <> i /\ is_Some (m !! j).
Proof.
  destruct (decide (i = j)) as [<-|].
  - rewrite lookup_delete_eq. split; [by intros [? ?]|naive_solver].
  - rewrite lookup_delete_ne by done. naive_solver.
Qed.

Lemma len_snoc L id id' x (n : Z) :
  (forall id, Z.of_nat (length (L id)) <= n) -> Z.of_nat (length (lupd L id (L id ++ [x]) id')) <= n + 1.
Proof.
  intros H. destruct (decide (id' = id)) as [->|].
  - rewrite lupd_eq, length_app. simpl. specialize (H id). lia.
  - rewrite lupd_ne by done. specialize (H id'). lia.
Qed.

Lemma len_removed L id id' x l' (n : Z) :
  x :: l' ≡ₚ L id ->
  (forall id, Z.of_nat (length (L id)) <= n) -> Z.of_nat (length (lupd L id l' id')) <= n.
Proof.
  intros Hp H. destruct (decide (id' = id)) as [->|].
  - rewrite lupd_eq. specialize (H id). rewrite <- Hp in H. simpl in H. lia.
  - rewrite lupd_ne by done. apply H.
Qed.

Lemma wp_CreateDelegation (k : () -> M CT B) Q E n s A d v b z :
  rel n s A -> n + 1 < 2 ^ 32 -> a_del A !! (v, d) = None -> 0 <= z ->
  (forall s', rel (n + 1) s' (a_set_del (<[(v, d) := mkDelegation z b]>) A) -> wp (k tt) Q E s') ->
  wp (y ← CreateDelegation d v b z; k y) Q E s.
Proof.
  intros [[L H] <-] Hn Hd Hz Hk. apply wp_bind. unfold CreateDelegation.
  set (s1 := set_storage (ts_update (c_storage s) KdDelegation (v, d) (Some (mkDelegation z b))) s).
  eapply (wp_bind_done _ _ _ _ _ tt s1).
  { simpl. unfold ts_put. simpl. by rewrite (proj2 (Z.leb_le _ _)). }
  destruct H as [I1 I2 I3 I4 I5 I6 I7 I8 I9 I10].
  destruct (create_item_run s1 L (ImDelegator d) (addr_bytes v)) as (m & Hr & Hm).
  - exact I1.
  - by apply addr_valid_item.
  - rewrite I6. simpl in Hd. rewrite Hd. by intros [? ?].
  - specialize (I2 (ImDelegator d)). lia.
  - eapply wp_bind_done; [exact Hr|]. apply wp_ret, Hk. split; [|done].
    exists (lupd L (ImDelegator d) (L (ImDelegator d) ++ [addr_bytes v])).
    split; simpl; intros; rewrite ?lupd_ne by done; try done.
    + by apply len_snoc.
    + rewrite is_Some_insert_new, <- I6. destruct (decide (d0 = d)) as [->|].
      * rewrite lupd_eq, elem_of_snoc.
        split; [intros [Ha|Ha%addr_bytes_inj]|intros [Ha|Ha]]; auto; [left|right]; congruence.
      * rewrite lupd_ne by congruence. split; [auto|]. intros [Ha|Ha]; [congruence|done].
    + destruct (I10 d0) as (c & ? & ? & ?). exists c. split_and!; try done; lia.
Qed.

Lemma wp_RemoveDelegation (k : () -> M CT B) Q E n s A d v :
  rel n s A -> is_Some (a_del A !! (v, d)) ->
  (forall s', rel n s' (a_set_del (delete (v, d)) A) -> wp (k tt) Q E s') ->
  wp (y ← RemoveDelegation d v; k y) Q E s.
Proof.
  intros [[L H] <-] Hd Hk. apply wp_bind. unfold RemoveDelegation.
  set (s1 := set_storage (ts_update (c_storage s) KdDelegation (v, d) None) s).
  eapply (wp_bind_done _ _ _ _ _ tt s1); [done|].
  destruct H as [I1 I2 I3 I4 I5 I6 I7 I8 I9 I10].
  destruct (remove_item_run s1 L (ImDelegator d) (addr_bytes v)) as (m & l' & Hr & Hp & Hm);
    [exact I1|by apply I6|].
  pose proof (fun y => elem_of_removed _ _ _ y (ix_nodup _ _ (ImDelegator d) I1) Hp) as He.
  eapply wp_bind_done; [exact Hr|]. apply wp_ret, Hk. split; [|done].
  exists (lupd L (ImDelegator d) l'). split; simpl; intros; rewrite ?lupd_ne by done; try done.
  - by eapply len_removed.
  - rewrite is_Some_delete_iff, <- I6. destruct (decide (d0 = d)) as [->|].
    + rewrite lupd_eq, He. split; intros [? Hne]; split; try done; [congruence|].
      intros Ha%addr_bytes_inj. congruence.
    + rewrite lupd_ne by congruence. split; [intros ?; split; [congruence|done]|by intros [_ ?]].
Qed.

Lemma wp_CreateValidator (k : Validator -> M CT B) Q E n s A ext owner v vrf b c desc ep :
  rel n s A -> n + 1 < 2 ^ 32 -> a_val A !! v = None ->
  (let x := mkValidator (mkValidatorV1 0 c b b) 0 in
   forall s', rel (n + 1) s' (a_set_rew (<[v := mkValidatorRewards 0 0]>) (a_set_val (<[v := x]>) A)) ->
     wp (k x) Q E s') ->
  wp (y ← CreateValidator ext owner v vrf b c desc ep; k y) Q E s.
Proof.
  intros [[L H] <-] Hn Hd Hk. apply wp_bind. unfold CreateValidator.
  set (x := mkValidator (mkValidatorV1 0 c b b) 0).
  set (sv := if ext then StoredV2 x else StoredV1 (v1 x)).
  set (s1 := set_storage (ts_update (c_storage s) KdValidator v (Some sv)) s).
  eapply (wp_bind_done _ _ _ _ _ tt s1); [by destruct ext|].
  set (s2 := set_storage (ts_update (c_storage s1) KdInfo v (Some (mkValidatorInfo desc ep))) s1).
  eapply (wp_bind_done _ _ _ _ _ tt s2); [done|].
  set (s3 := set_storage (ts_update (c_storage s2) KdRewards v (Some (mkValidatorRewards 0 0))) s2).
  eapply (wp_bind_done _ _ _ _ _ tt s3); [done|].
  eapply wp_bind_done; [unfold kv_put, contract_kv, kv_put, TStore_kv, ts_put; reflexivity|].
  eapply wp_bind_done; [unfold kv_put, contract_kv, kv_put, TStore_kv, ts_put; reflexivity|].
  match goal with |- wp _ _ _ ?s => set (s5 := s) end.
  destruct H as [I1 I2 I3 I4 I5 I6 I7 I8 I9 I10].
  assert (forall a, a = v -> ~ is_Some (ts_validator (c_storage s) !! a)) as Hnv.
  { intros a ->. simpl in Hd. rewrite lookup_fmap, fmap_None in Hd. rewrite Hd. by intros [? ?]. }
  destruct (create_item_run s5 L ImValidators (addr_bytes v)) as (m & Hr & Hm).
  - exact I1.
  - by apply addr_valid_item.
  - rewrite I3. by apply Hnv.
  - specialize (I2 ImValidators). lia.
  - eapply wp_bind_done; [exact Hr|]. apply wp_ret, Hk. split.
    + exists (lupd L ImValidators (L ImValidators ++ [addr_bytes v])).
      split; simpl; intros; rewrite ?lupd_ne by done; try done.
      * by apply len_snoc.
      * rewrite is_Some_insert_new, lupd_eq, elem_of_snoc, I3.
        split; [intros [?|?%addr_bytes_inj]|intros [->|?]]; auto.
      * by rewrite !is_Some_insert_new, I4.
      * by rewrite !is_Some_insert_new, I5.
      * destruct (I10 d) as (c' & ? & ? & ?). exists c'. split_and!; try done; lia.
    + unfold abs, a_set_val, a_set_rew. simpl. rewrite fmap_insert. f_equal.
      unfold sv. by destruct ext.
Qed.

Lemma wp_DeleteValidator (k : () -> M CT B) Q E n s A v :
  rel n s A -> is_Some (a_val A !! v) ->
  (forall s', rel n s' (a_set_rew (delete v) (a_set_val (delete v) A)) -> wp (k tt) Q E s') ->
  wp (y ← DeleteValidator v; k y) Q E s.
Proof.
  intros [[L H] <-] Hd Hk. apply wp_bind. unfold DeleteValidator.
  do 5 (eapply wp_bind_done; [reflexivity|]).
  match goal with |- wp _ _ _ ?s => set (s5 := s) end.
  destruct H as [I1 I2 I3 I4 I5 I6 I7 I8 I9 I10].
  destruct (remove_item_run s5 L ImValidators (addr_bytes v)) as (m & l' & Hr & Hp & Hm).
  { exact I1. }
  { rewrite I3. simpl in Hd. by rewrite lookup_fmap, fmap_is_Some in Hd. }
  pose proof (fun y => elem_of_removed _ _ _ y (ix_nodup _ _ ImValidators I1) Hp) as He.
  eapply wp_bind_done; [exact Hr|]. apply wp_ret, Hk. split.
  - exists (lupd L ImValidators l'). split; simpl; intros; rewrite ?lupd_ne by done; try done.
    + by eapply len_removed.
    + rewrite is_Some_delete_iff, lupd_eq, He, I3.
      split; intros [? Hne]; split; try done; [congruence|by intros ?%addr_bytes_inj].
    + by rewrite !is_Some_delete_iff, I4.
    + by rewrite !is_Some_delete_iff, I5.
  - unfold abs, a_set_val, a_set_rew. simpl. by rewrite fmap_delete.
Qed.

Lemma wp_CreateUndelegationV1 (k : () -> M CT B) Q E n s A d v b z :
  rel n s A -> n + 1 < 2 ^ 32 -> a_u1 A !! (v, d) = None -> 0 <= z ->
  (forall s', rel (n + 1) s' (a_set_u1 (<[(v, d) := mkUndelegationV1 z b]>) A) -> wp (k tt) Q E s') ->
  wp (y ← CreateUndelegationV1 d v b z; k y) Q E s.
Proof.
  intros [[L H] <-] Hn Hd Hz Hk. apply wp_bind. unfold CreateUndelegationV1.
  set (s1 := set_storage (ts_update (c_storage s) KdUndelV1 (v, d) (Some (mkUndelegationV1 z b))) s).
  eapply (wp_bind_done _ _ _ _ _ tt s1).
  { simpl. unfold ts_put. simpl. by rewrite (proj2 (Z.leb_le _ _)). }
  destruct H as [I1 I2 I3 I4 I5 I6 I7 I8 I9 I10].
  destruct (create_item_run s1 L (ImUndelV1 d) (addr_bytes v)) as (m & Hr & Hm).
  - exact I1.
  - by apply addr_valid_item.
  - rewrite I7. simpl in Hd. rewrite Hd. by intros [? ?].
  - specialize (I2 (ImUndelV1 d)). lia.
  - eapply wp_bind_done; [exact Hr|]. apply wp_ret, Hk. split; [|done].
    exists (lupd L (ImUndelV1 d) (L (ImUndelV1 d) ++ [addr_bytes v])).
    split; simpl; intros; rewrite ?lupd_ne by done; try done.
    + by apply len_snoc.
    + rewrite is_Some_insert_new, <- I7. destruct (decide (d0 = d)) as [->|].
      * rewrite lupd_eq, elem_of_snoc.
        split; [intros [Ha|Ha%addr_bytes_inj]|intros [Ha|Ha]]; auto; [left|right]; congruence.
      * rewrite lupd_ne by congruence. split; [auto|]. intros [Ha|Ha]; [congruence|done].
    + destruct (I10 d0) as (c & ? & ? & ?). exists c. split_and!; try done; lia.
Qed.

(** The record of one undelegation is gone. *)
Definition a_drop_undel (d v : Address) (id : option Z) (A : adpos) : adpos :=
  match id with
  | Some i => a_set_u2 (delete (d, v, i)) A
  | None => a_set_u1 (delete (v, d)) A
  end.

Lemma wp_removeUndelegationV1 (k : () -> M CT B) Q E n s A d v :
  rel n s A -> is_Some (a_u1 A !! (v, d)) ->
  (forall s', rel n s' (a_set_u1 (delete (v, d)) A) -> wp (k tt) Q E s') ->
  wp (y ← removeUndelegationV1 d v; k y) Q E s.
Proof.
  intros [[L H] <-] Hd Hk. apply wp_bind. unfold removeUndelegationV1.
  eapply wp_bind_done; [reflexivity|].
  match goal with |- wp _ _ _ ?s => set (s1 := s) end.
  destruct H as [I1 I2 I3 I4 I5 I6 I7 I8 I9 I10].
  destruct (remove_item_run s1 L (ImUndelV1 d) (addr_bytes v)) as (m & l' & Hr & Hp & Hm);
    [exact I1|by apply I7|].
  pose proof (fun y => elem_of_removed _ _ _ y (ix_nodup _ _ (ImUndelV1 d) I1) Hp) as He.
  eapply wp_bind_done; [exact Hr|]. apply wp_ret, Hk. split; [|done].
  exists (lupd L (ImUndelV1 d) l'). split; simpl; intros; rewrite ?lupd_ne by done; try done.
  - by eapply len_removed.
  - rewrite is_Some_delete_iff, <- I7. destruct (decide (d0 = d)) as [->|].
    + rewrite lupd_eq, He. split; intros [? Hne]; split; try done; [congruence|].
      intros Ha%addr_bytes_inj. congruence.
    + rewrite lupd_ne by congruence. split; [intros ?; split; [congruence|done]|by intros [_ ?]].
Qed.

(** The ids of a removed undelegation are those left. *)
Lemma ids_removed (L : imap_id -> list bytes) (u2 : gmap (Address * Address * Z) UndelegationV2) d v i l' :
  NoDup (L (ImUndelIds d v)) -> Uint64ToBytes i :: l' ≡ₚ L (ImUndelIds d v) -> 0 <= i < 2 ^ 64 ->
  (forall d v b, b ∈ L (ImUndelIds d v) <->
     exists i, 0 <= i < 2 ^ 64 /\ b = Uint64ToBytes i /\ is_Some (u2 !! (d, v, i))) ->
  forall d' v' b, b ∈ lupd L (ImUndelIds d v) l' (ImUndelIds d' v') <->
     exists j, 0 <= j < 2 ^ 64 /\ b = Uint64ToBytes j /\ is_Some (delete (d, v, i) u2 !! (d', v', j)).
Proof.
  intros Hd Hp Hi I9 d' v' b. pose proof (elem_of_removed _ _ _ b Hd Hp) as He.
  destruct (decide ((d', v') = (d, v))) as [[= -> ->]|Hne].
  - rewrite lupd_eq, He, I9. split.
    + intros [(j & Hj & -> & Hs) Hb]. exists j. split; [done|]. split; [done|].
      apply is_Some_delete_iff. split; [congruence|done].
    + intros (j & Hj & -> & [Hji Hs]%is_Some_delete_iff). split; [by exists j|].
      intros ?%Uint64ToBytes_inj; congruence.
  - rewrite lupd_ne by congruence. rewrite I9. split; intros (j & Hj & -> & Hs); exists j;
      (split; [done|]); (split; [done|]).
    + rewrite is_Some_delete_iff. split; [congruence|done].
    + by apply is_Some_delete_iff in Hs as [_ ?].
Qed.

Lemma wp_removeUndelegationV2 (k : () -> M CT B) Q E n s A d v i :
  rel n s A -> 0 <= i < 2 ^ 64 -> is_Some (a_u2 A !! (d, v, i)) ->
  (forall s', rel n s' (a_set_u2 (delete (d, v, i)) A) -> wp (k tt) Q E s') ->
  wp (y ← removeUndelegationV2 d v i; k y) Q E s.
Proof.
  intros [[L H] <-] Hi Hd Hk. apply wp_bind. unfold removeUndelegationV2.
  eapply wp_bind_done; [reflexivity|].
  match goal with |- wp _ _ _ ?s => set (s1 := s) end.
  destruct H as [I1 I2 I3 I4 I5 I6 I7 I8 I9 I10].
  destruct (remove_item_run s1 L (ImUndelIds d v) (Uint64ToBytes i)) as (m & l' & Hr & Hp & Hm).
  { exact I1. }
  { apply I9. by exists i. }
  pose proof (ids_removed L _ d v i l' (ix_nodup _ _ _ I1) Hp Hi I9) as I9'.
  pose proof (Permutation_length Hp) as Hlen. simpl in Hlen.
  eapply wp_bind_done; [exact Hr|].
  assert (forall d' v', (d', v') <> (d, v) -> lupd L (ImUndelIds d v) l' (ImUndelIds d' v') = L (ImUndelIds d' v'))
    as Hother by (intros; apply lupd_ne; congruence).
  assert (forall d', exists c, uid_of (ts_uid (c_storage s) !! d') = Some c /\ 0 <= c <= n /\
     forall v0 j, is_Some (delete (d, v, i) (ts_undel2 (c_storage s)) !! (d', v0, j)) -> 0 < j <= c) as I10'.
  { intros d'. destruct (I10 d') as (c & ? & ? & Hc). exists c. split_and!; try done; try lia.
    intros v0 j [_ ?]%is_Some_delete_iff. by eapply Hc. }
  assert (addr_bytes v ∈ L (ImUndelV2 d)) as Hin.
  { apply I8. intros E0. rewrite E0 in Hlen. done. }
  destruct (Z.eqb_spec (Z.of_nat (length (L (ImUndelIds d v))) - 1) 0) as [Hz|Hz].
  - destruct (remove_item_run (with_imap m s1) (lupd L (ImUndelIds d v) l') (ImUndelV2 d) (addr_bytes v))
      as (m2 & l2 & Hr2 & Hp2 & Hm2); [exact Hm|by rewrite lupd_ne|].
    rewrite lupd_ne in Hr2, Hp2 by done.
    pose proof (fun y => elem_of_removed _ _ _ y (ix_nodup _ _ (ImUndelV2 d) I1) Hp2) as He2.
    eapply wp_bind_done; [exact Hr2|]. apply wp_ret, Hk. split; [|done].
    assert (l' = []) as -> by (apply nil_length_inv; lia).
    exists (lupd (lupd L (ImUndelIds d v) []) (ImUndelV2 d) l2).
    split; simpl; intros; try (by rewrite ?lupd_ne by done).
    + eapply len_removed; [by rewrite lupd_ne|]. intros id'. by eapply len_removed.
    + rewrite (lupd_ne (lupd _ _ _) _ _ (ImUndelIds _ _)) by done. destruct (decide (d0 = d)) as [->|Hd0].
      * rewrite lupd_eq, He2, I8. destruct (decide (v0 = v)) as [->|Hv0].
        -- rewrite lupd_eq. split; [intros [_ []]|]; done.
        -- rewrite Hother by congruence. split; [by intros [? _]|]. intros ?. split; [done|].
           by intros ?%addr_bytes_inj.
      * rewrite !lupd_ne by congruence. apply I8.
  - apply wp_ret, Hk. split; [|done]. exists (lupd L (ImUndelIds d v) l').
    split; simpl; intros; rewrite ?(lupd_ne _ _ _ (ImUndelV2 _)) by done; try (by rewrite ?lupd_ne by done); try done.
    + by eapply len_removed.
    + rewrite I8. destruct (decide ((d0, v0) = (d, v))) as [[= -> ->]|Hne].
      * rewrite lupd_eq. split; intros _ E0; [subst l'|rewrite E0 in Hlen]; simpl in *; lia.
      * by rewrite Hother.
Qed.

Lemma wp_RemoveUndelegation (k : () -> M CT B) Q E n s A d v id :
  rel n s A -> id_ok id -> is_Some (a_undel A d v id) ->
  (forall s', rel n s' (a_drop_undel d v id A) -> wp (k tt) Q E s') ->
  wp (y ← RemoveUndelegation d v id; k y) Q E s.
Proof.
  destruct id as [i|]; simpl; intros Hs Hi Hd Hk.
  - eapply wp_removeUndelegationV2; [done..| |done]. by rewrite fmap_is_Some in Hd.
  - by eapply wp_removeUndelegationV1.
Qed.

(** The ids after a creation. *)
Lemma ids_created (L : imap_id -> list bytes) (u2 : gmap (Address * Address * Z) UndelegationV2) d v i x :
  0 <= i < 2 ^ 64 ->
  (forall d v b, b ∈ L (ImUndelIds d v) <->
     exists i, 0 <= i < 2 ^ 64 /\ b = Uint64ToBytes i /\ is_Some (u2 !! (d, v, i))) ->
  forall d' v' b, b ∈ lupd L (ImUndelIds d v) (L (ImUndelIds d v) ++ [Uint64ToBytes i]) (ImUndelIds d' v') <->
     exists j, 0 <= j < 2 ^ 64 /\ b = Uint64ToBytes j /\ is_Some (<[(d, v, i) := x]> u2 !! (d', v', j)).
Proof.
  intros Hi I9 d' v' b. destruct (decide ((d', v') = (d, v))) as [[= -> ->]|Hne].
  - rewrite lupd_eq, elem_of_snoc, I9. split.
    + intros [(j & Hj & -> & Hs)|Hb]; [exists j|exists i]; (split; [done|]); (split; [done|]).
      * rewrite is_Some_insert_new. by right.
      * rewrite is_Some_insert_new. by left.
    + intros (j & Hj & -> & [Hji|Hs]%is_Some_insert_new); [right|left]; [congruence|by exists j].
  - rewrite lupd_ne by congruence. rewrite I9. split; intros (j & Hj & -> & Hs); exists j;
      (split; [done|]); (split; [done|]).
    + rewrite is_Some_insert_new. by right.
    + apply is_Some_insert_new in Hs as [Hs|Hs]; [congruence|done].
Qed.

Lemma wp_genUniqueId {X} (k : Z -> M CT X) (Q : X -> CT -> Prop) E n s L :
  idx_inv n (c_storage s) L -> n + 1 < 2 ^ 32 ->
  forall d, (forall i u s', s' = set_storage (ts_update (c_storage s) KdUniqueId d (Some u)) s ->
     uid_of (Some u) = Some i -> 0 < i <= n + 1 ->
     (forall v j, is_Some (ts_undel2 (c_storage s) !! (d, v, j)) -> 0 < j < i) ->
     wp (k i) Q E s') ->
  wp (i ← genUniqueId d; k i) Q E s.
Proof.
  intros H Hn d Hk. destruct (ix_uid _ _ _ _ _ _ _ _ _ _ H d) as (c & Hc & Hcn & Hlt).
  apply wp_bind. unfold genUniqueId.
  eapply (wp_bind_done _ _ _ _ _ (ts_uid (c_storage s) !! d) s).
  { by destruct s as [[] ? ? ? ? ? ? ? ? ? ?]. }
  eapply (wp_bind_done _ _ _ _ _ c s).
  { assert (forall o : option bytes, uid_of o = Some c ->
      (match o with Some b => id_of_bytes b | None => ret 0 end) s = Done c s) as Ho; [|by apply Ho].
    intros [b|]; unfold uid_of; intros Hb; [|by injection Hb as <-].
    unfold id_of_bytes. by rewrite Hb. }
  rewrite u64_small by lia.
  eapply wp_bind_done; [reflexivity|]. apply wp_ret. eapply Hk; [reflexivity| |lia|].
  - simpl. rewrite BytesToUint64_Uint64ToBytes, u64_small by lia. done.
  - intros v j Hj. specialize (Hlt _ _ Hj). lia.
Qed.

Lemma wp_CreateUndelegationV2 (k : Z -> M CT B) Q E n s A d v b z :
  rel n s A -> n + 1 < 2 ^ 32 -> 0 <= z ->
  (forall i s', (forall v', a_u2 A !! (d, v', i) = None) -> 0 < i < 2 ^ 64 ->
     rel (n + 1) s' (a_set_u2 (<[(d, v, i) := mkUndelegationV2 (mkUndelegationV1 z b) i]>) A) ->
     wp (k i) Q E s') ->
  wp (y ← CreateUndelegationV2 d v b z; k y) Q E s.
Proof.
  intros [[L H] <-] Hn Hz Hk. apply wp_bind. unfold CreateUndelegationV2.
  eapply (wp_genUniqueId _ _ _ n s L H Hn). intros i u s1 -> Hu Hi Hfresh.
  assert (forall v', ts_undel2 (c_storage s) !! (d, v', i) = None) as Hnone.
  { intros v'. apply eq_None_not_Some. intros Hs. specialize (Hfresh _ _ Hs). lia. }
  eapply wp_bind_done.
  { unfold kv_put, contract_kv, kv_put, TStore_kv, ts_put. simpl.
    rewrite (proj2 (Z.leb_le _ _)) by done. reflexivity. }
  match goal with |- wp _ _ _ ?s => set (s2 := s) end.
  destruct H as [I1 I2 I3 I4 I5 I6 I7 I8 I9 I10].
  set (x := mkUndelegationV2 (mkUndelegationV1 z b) i).
  set (L' := lupd L (ImUndelIds d v) (L (ImUndelIds d v) ++ [Uint64ToBytes i])).
  destruct (create_item_run s2 L (ImUndelIds d v) (Uint64ToBytes i)) as (m & Hr & Hm).
  { exact I1. }
  { apply id_valid_item. }
  { rewrite I9. intros (j & Hj & ->%Uint64ToBytes_inj & Hs); [|lia|done]. rewrite Hnone in Hs. by destruct Hs. }
  { specialize (I2 (ImUndelIds d v)). lia. }
  pose proof (ids_created L _ d v i x ltac:(lia) I9) as I9'.
  assert (forall d', exists c, uid_of ((<[d := u]> (ts_uid (c_storage s))) !! d') = Some c /\ 0 <= c <= n + 1 /\
     forall v0 j, is_Some (<[(d, v, i) := x]> (ts_undel2 (c_storage s)) !! (d', v0, j)) -> 0 < j <= c) as I10'.
  { intros d'. destruct (decide (d' = d)) as [->|Hne].
    - exists i. rewrite lookup_insert_eq. split; [done|]. split; [lia|].
      intros v0 j [Hj|Hj]%is_Some_insert_new; [injection Hj as -> ->; lia|]. specialize (Hfresh _ _ Hj). lia.
    - destruct (I10 d') as (c & ? & ? & Hc). exists c. rewrite lookup_insert_ne by done.
      split; [done|]. split; [lia|].
      intros v0 j [Hj|Hj]%is_Some_insert_new; [congruence|]. by eapply Hc. }
  eapply wp_bind_done; [exact Hr|].
  assert (forall d' v', (d', v') <> (d, v) -> L' (ImUndelIds d' v') = L (ImUndelIds d' v'))
    as Hother by (intros; apply lupd_ne; congruence).
  assert (L' (ImUndelIds d v) <> []) as Hne.
  { unfold L'. rewrite lupd_eq. by destruct (L (ImUndelIds d v)). }
  destruct (Z.eqb_spec (Z.of_nat (length (L (ImUndelIds d v))) + 1) 1) as [Hz1|Hz1].
  - assert (L (ImUndelIds d v) = []) as Hnil by (apply nil_length_inv; lia).
    destruct (create_item_run (with_imap m s2) L' (ImUndelV2 d) (addr_bytes v)) as (m2 & Hr2 & Hm2).
    { exact Hm. }
    { by apply addr_valid_item. }
    { unfold L'. rewrite lupd_ne by done. rewrite I8. intros Hx. by apply Hx. }
    { unfold L'. rewrite lupd_ne by done. specialize (I2 (ImUndelV2 d)). lia. }
    eapply wp_bind_done; [etransitivity; [apply (bind_done _ _ _ _ _ Hr2)|reflexivity]|].
    apply wp_ret. apply (Hk i); [done|lia|]. split; [|done].
    exists (lupd L' (ImUndelV2 d) (L' (ImUndelV2 d) ++ [addr_bytes v])).
    split; simpl; intros; try (unfold L'; by rewrite ?lupd_ne by done); try done.
    + destruct (decide (id = ImUndelV2 d)) as [->|].
      * rewrite lupd_eq, length_app. unfold L'. rewrite lupd_ne by done. simpl.
        specialize (I2 (ImUndelV2 d)). lia.
      * rewrite lupd_ne by done. by apply len_snoc.
    + rewrite (lupd_ne L' _ _ (ImUndelIds _ _)) by done. destruct (decide (d0 = d)) as [->|Hd0].
      * rewrite lupd_eq, elem_of_snoc. unfold L' at 1. rewrite lupd_ne by done. rewrite I8.
        destruct (decide (v0 = v)) as [->|Hv0]; [by split; [|right]|].
        rewrite Hother by congruence. split; [intros [Ha|Ha]; [done|by apply addr_bytes_inj in Ha]|by left].
      * rewrite Hother by congruence. unfold L'. rewrite !lupd_ne by congruence. apply I8.
  - eapply wp_bind_done; [reflexivity|]. apply wp_ret. apply (Hk i); [done|lia|]. split; [|done].
    exists L'. split; simpl; intros; try (unfold L'; by rewrite ?lupd_ne by done); try done.
    + by apply len_snoc.
    + unfold L' at 1. rewrite lupd_ne by done. rewrite I8.
      destruct (decide ((d0, v0) = (d, v))) as [[= -> ->]|Hne2]; [|by rewrite Hother].
      split; [done|]. intros _ E0. rewrite E0 in Hz1. done.
Qed.
End creations.
