(* ===== verification/DposInv.v ===== *)
(** * The staking invariant

    The invariant of the DPOS contract on its abstract state, and the pure
    steps the handlers are made of: settling a validator's rewards at a block
    and changing one delegation.  [owed] is what the contract owes, scaled by
    [ValidatorMaximumStake] as the F1 distribution is: stakes, undelegations
    and reward pools, and what the delegations have accrued. *)
From S2P Require Import Prelude Bytes Crypto ChainConfig Uint256 Storage IterableMap DposStorage Validators Dpos DposTyped.

(** ** What the configuration must satisfy *)
Record cfg_ok (cfg : ChainConfig) : Prop := {
  cf_max : 0 < ValidatorMaximumStake (DPOS cfg);
  cf_step : 0 < VoteEligibilityBalanceStep (DPOS cfg);
  cf_threshold : 0 <= EligibilityBalanceThreshold (DPOS cfg) <= ValidatorMaximumStake (DPOS cfg);
  cf_deposit : 0 < MinimumDeposit (DPOS cfg);
}.

(** ** Quantities of an abstract state *)
Definition stake_of (del : gmap (Address * Address) Delegation) (v : Address) : Z :=
  msum (fun k y => if decide (k.1 = v) then d_Stake y else 0) del.

Definition total_stake (del : gmap (Address * Address) Delegation) : Z := msum (fun _ y => d_Stake y) del.

(** Reward per unit of stake recorded for a validator at a block. *)
Definition rps (st : gmap (Address * Z) State) (v : Address) (b : Z) : Z :=
  from_option RewardsPer1Stake 0 (st !! (v, b)).

Definition updated (val : gmap Address Validator) (v : Address) : Z :=
  from_option (fun x : Validator => LastUpdated x) 0 (val !! v).

(** How many records refer to a validator's state of a block: its own
    [LastUpdated], and those of its delegations. *)
Definition drefs (del : gmap (Address * Address) Delegation) (v : Address) (b : Z) : Z :=
  msum (fun k y => if decide (k.1 = v /\ d_LastUpdated y = b) then 1 else 0) del.

Definition refs (A : adpos) (v : Address) (b : Z) : Z :=
  from_option (fun x : Validator => if decide (LastUpdated x = b) then 1 else 0) 0 (a_val A !! v)
  + drefs (a_del A) v b.

(** Accrued by one delegation since its last update. *)
Definition accrued_by (val : gmap Address Validator) (st : gmap (Address * Z) State)
    (k : Address * Address) (y : Delegation) : Z :=
  (rps st k.1 (updated val k.1) - rps st k.1 (d_LastUpdated y)) * d_Stake y.

Definition accrued (A : adpos) : Z := msum (accrued_by (a_val A) (a_st A)) (a_del A).

Definition pools (rew : gmap Address ValidatorRewards) : Z :=
  msum (fun _ r => RewardsPool r + CommissionRewardsPool r) rew.

Definition undelegating (A : adpos) : Z :=
  msum (fun _ u => u_Amount u) (a_u1 A) + msum (fun _ u => u_Amount (u_V1 u)) (a_u2 A).

Definition funds (A : adpos) : Z := default 0 (a_bal A !! dpos_contract_address).

(** A commission is at most [MaxCommission], 100 percent. *)
Definition commission_ok (x : Validator) : Prop := 0 <= Commission x <= MaxCommission.

(** The stored counters decode to the ones last saved. *)
Definition saved_ok `{Uint256} (z : (Z * option bytes) * (Z * option bytes)) : Prop :=
  from_option DEC_b_endian_compact_64 (Some 0) (snd (fst z)) = Some (fst (fst z))
  /\ from_option u_SetBytes 0 (snd (snd z)) = fst (snd z).

Section inv.
Context `{U : Uint256} (cfg : ChainConfig).
Abbreviation dp := (DPOS cfg).
Abbreviation MAX := (ValidatorMaximumStake dp).

Definition owed (A : adpos) : Z :=
  MAX * (total_stake (a_del A) + pools (a_rew A) + undelegating A) + accrued A.

(** Votes of a stake; [voteCount] computes it at every block. *)
Definition votes (stake : Z) : Z :=
  if EligibilityBalanceThreshold dp <=? stake then stake / VoteEligibilityBalanceStep dp else 0.

(** [now]: the current block; [n]: a bound on the operations so far; [pend]:
    what has been paid in and is not accounted for yet. *)
Record inv (now n pend : Z) (A : adpos) : Prop := {
  iv_stake v (x : Validator) : a_val A !! v = Some x -> TotalStake x = stake_of (a_del A) v;
  iv_del v d y : a_del A !! (v, d) = Some y -> 0 < d_Stake y /\ is_Some (a_val A !! v);
  iv_rew v : is_Some (a_rew A !! v) <-> is_Some (a_val A !! v);
  iv_pools v r : a_rew A !! v = Some r -> 0 <= RewardsPool r /\ 0 <= CommissionRewardsPool r;
  iv_u1 k u : a_u1 A !! k = Some u -> 0 < u_Amount u;
  iv_u2 k u : a_u2 A !! k = Some u -> 0 < u_Amount (u_V1 u);
  iv_refs v b : 0 < refs A v b -> exists st, a_st A !! (v, b) = Some st /\ refs A v b <= Count st;
  iv_st v b st : a_st A !! (v, b) = Some st ->
    1 <= Count st <= 2 * n /\ 0 <= RewardsPer1Stake st /\ b <= now
    /\ forall x : Validator, a_val A !! v = Some x -> b <= LastUpdated x;
  iv_updated v (x : Validator) : a_val A !! v = Some x -> LastUpdated x <= now;
  iv_mono v d (x : Validator) y : a_val A !! v = Some x -> a_del A !! (v, d) = Some y ->
    rps (a_st A) v (d_LastUpdated y) <= rps (a_st A) v (LastUpdated x);
  iv_solvent : owed A + MAX * pend <= MAX * funds A;
  iv_amount : a_amount A = total_stake (a_del A);
  iv_votes : a_votes A = msum (fun _ (x : Validator) => votes (TotalStake x)) (a_val A);
  iv_init : a_init A = true;
  iv_comm v (x : Validator) : a_val A !! v = Some x -> commission_ok x;
  iv_saved : saved_ok (a_saved A);
}.

(** The contract's funds fit the machine words the contract counts in. *)
Definition funds_ok (A : adpos) : Prop :=
  funds A < 2 ^ 256 /\ funds A < 2 ^ 64 * VoteEligibilityBalanceStep dp.

Context (Hcfg : cfg_ok cfg).

Lemma votes_nonneg z : 0 <= z -> 0 <= votes z.
Proof. intros. unfold votes. case_match; [|done]. apply Z.div_pos; [done|apply Hcfg]. Qed.

Lemma votes_le z : 0 <= z -> VoteEligibilityBalanceStep dp * votes z <= z.
Proof.
  intros. pose proof (cf_step _ Hcfg). unfold votes. case_match; [|lia]. apply Z.mul_div_le. done.
Qed.

(** Every stake belongs to a validator that exists. *)
Lemma sum_stakes now n pend A :
  inv now n pend A -> msum (fun _ (x : Validator) => TotalStake x) (a_val A) = total_stake (a_del A).
Proof.
  intros H. rewrite (msum_ext _ (fun v _ => stake_of (a_del A) v)) by (intros; by eapply iv_stake).
  unfold stake_of, total_stake. rewrite msum_swap. apply msum_ext. intros [v d] y Hy. simpl.
  rewrite (msum_ext _ (fun v' _ => if decide (v' = v) then d_Stake y else 0)).
  - rewrite msum_indicator. destruct (iv_del _ _ _ _ H _ _ _ Hy) as [_ [x ->]]. done.
  - intros. repeat case_decide; congruence.
Qed.

Lemma stake_of_nonneg now n pend A v : inv now n pend A -> 0 <= stake_of (a_del A) v.
Proof.
  intros H. apply msum_nonneg. intros [v' d] y Hy. case_decide; [|done].
  pose proof (iv_del _ _ _ _ H _ _ _ Hy). lia.
Qed.

Lemma total_nonneg now n pend A : inv now n pend A -> 0 <= total_stake (a_del A).
Proof.
  intros H. apply msum_nonneg. intros [v' d] y Hy. pose proof (iv_del _ _ _ _ H _ _ _ Hy). lia.
Qed.

Lemma stake_of_le now n pend A v : inv now n pend A -> stake_of (a_del A) v <= total_stake (a_del A).
Proof.
  intros H. apply msum_le. intros [v' d] y Hy. pose proof (iv_del _ _ _ _ H _ _ _ Hy). case_decide; lia.
Qed.

Lemma stake_nonneg now n pend A v (x : Validator) : inv now n pend A -> a_val A !! v = Some x -> 0 <= TotalStake x.
Proof. intros H Hx. rewrite (iv_stake _ _ _ _ H _ _ Hx). by eapply stake_of_nonneg. Qed.

Lemma accrued_by_nonneg now n pend A k y :
  inv now n pend A -> a_del A !! k = Some y -> 0 <= accrued_by (a_val A) (a_st A) k y.
Proof.
  intros H Hy. destruct k as [v d]. unfold accrued_by, updated. simpl.
  destruct (iv_del _ _ _ _ H _ _ _ Hy) as [Hs [x Hx]]. rewrite Hx. simpl.
  pose proof (iv_mono _ _ _ _ H _ _ _ _ Hx Hy). nia.
Qed.

Lemma accrued_nonneg now n pend A : inv now n pend A -> 0 <= accrued A.
Proof. intros H. apply msum_nonneg. intros. by eapply accrued_by_nonneg. Qed.

Lemma pools_nonneg now n pend A : inv now n pend A -> 0 <= pools (a_rew A).
Proof. intros H. apply msum_nonneg. intros v r Hr. pose proof (iv_pools _ _ _ _ H _ _ Hr). lia. Qed.

Lemma undelegating_nonneg now n pend A : inv now n pend A -> 0 <= undelegating A.
Proof.
  intros H. apply Z.add_nonneg_nonneg; apply msum_nonneg; intros k u Hu.
  - pose proof (iv_u1 _ _ _ _ H _ _ Hu). lia.
  - pose proof (iv_u2 _ _ _ _ H _ _ Hu). lia.
Qed.

(** The funds cover what is owed. *)
Lemma funds_cover now n pend A :
  inv now n pend A ->
  total_stake (a_del A) + pools (a_rew A) + undelegating A + pend <= funds A.
Proof.
  intros H. pose proof (iv_solvent _ _ _ _ H) as Hs. unfold owed in Hs.
  pose proof (accrued_nonneg _ _ _ _ H). pose proof (cf_max _ Hcfg). nia.
Qed.

Lemma votes_bound now n pend A v (x : Validator) :
  inv now n pend A -> funds_ok A -> 0 <= pend -> a_val A !! v = Some x ->
  0 <= votes (TotalStake x) <= a_votes A /\ 0 <= a_votes A /\ VoteEligibilityBalanceStep dp * a_votes A <= total_stake (a_del A).
Proof.
  intros H [_ Hf] Hp Hx.
  assert (forall k (y : Validator), a_val A !! k = Some y -> 0 <= votes (TotalStake y)) as Hnn.
  { intros k y Hy. apply votes_nonneg. by eapply stake_nonneg. }
  rewrite (iv_votes _ _ _ _ H). split_and!.
  - by eapply Hnn.
  - apply (msum_lookup_le (fun _ (x : Validator) => votes (TotalStake x)) (a_val A) v x Hnn Hx).
  - by apply msum_nonneg.
  - rewrite <- msum_scale, <- (sum_stakes _ _ _ _ H). apply msum_le. intros k y Hy.
    apply votes_le. by eapply stake_nonneg.
Qed.
End inv.

(** ** Dropping a reference to a state *)
Definition dec (k : Address * Z) (m : gmap (Address * Z) State) : gmap (Address * Z) State :=
  match m !! k with
  | Some st => if Count st =? 1 then delete k m else <[k := mkState (RewardsPer1Stake st) (Count st - 1)]> m
  | None => m
  end.

Lemma lookup_dec_ne k k' m : k' <> k -> dec k m !! k' = m !! k'.
Proof.
  intros Hne. unfold dec. destruct (m !! k); [|done].
  case_match; [by rewrite lookup_delete_ne|by rewrite lookup_insert_ne].
Qed.

Lemma lookup_dec_eq k m :
  dec k m !! k = match m !! k with
                 | Some st => if Count st =? 1 then None else Some (mkState (RewardsPer1Stake st) (Count st - 1))
                 | None => None
                 end.
Proof.
  unfold dec. destruct (m !! k) eqn:Hk; [|done]. case_match; [apply lookup_delete_eq|apply lookup_insert_eq].
Qed.

Lemma insert_dec_insert k k' a c m : <[k := a]> (dec k' (<[k := c]> m)) = <[k := a]> (dec k' m).
Proof.
  apply map_eq. intros j. destruct (decide (j = k)) as [->|Hj]; [by rewrite !lookup_insert_eq|].
  rewrite !lookup_insert_ne by done. destruct (decide (j = k')) as [->|Hj'].
  - rewrite !lookup_dec_eq, lookup_insert_ne by done. done.
  - rewrite !lookup_dec_ne, lookup_insert_ne by done. done.
Qed.

(** Whatever survives a decrement keeps its reward and loses one reference. *)
Lemma dec_Some k m k' st :
  dec k m !! k' = Some st ->
  exists st0, m !! k' = Some st0 /\ RewardsPer1Stake st = RewardsPer1Stake st0
    /\ Count st = Count st0 - (if decide (k' = k) then 1 else 0) /\ (k' = k -> Count st0 <> 1).
Proof.
  intros H. destruct (decide (k' = k)) as [->|Hne].
  - rewrite lookup_dec_eq in H. destruct (m !! k) as [st0|]; [|done].
    destruct (Z.eqb_spec (Count st0) 1); [done|]. injection H as <-. by exists st0.
  - rewrite lookup_dec_ne in H by done. exists st. split_and!; [done|done|lia|done].
Qed.

Lemma dec_keeps k m k' st :
  m !! k' = Some st -> (k' = k -> Count st <> 1) ->
  exists st', dec k m !! k' = Some st' /\ RewardsPer1Stake st' = RewardsPer1Stake st
    /\ Count st' = Count st - (if decide (k' = k) then 1 else 0).
Proof.
  intros H Hc. destruct (decide (k' = k)) as [->|Hne].
  - rewrite lookup_dec_eq, H. destruct (Z.eqb_spec (Count st) 1); [by destruct Hc|]. by eexists.
  - rewrite lookup_dec_ne by done. exists st. split_and!; [done|done|lia].
Qed.

Lemma drefs_nonneg del v b : 0 <= drefs del v b.
Proof. apply msum_nonneg. intros. case_decide; lia. Qed.

Lemma drefs_pos del v d y : del !! (v, d) = Some y -> 1 <= drefs del v (d_LastUpdated y).
Proof.
  intros Hy. unfold drefs.
  pose proof (msum_lookup_le (fun k y0 => if decide (k.1 = v /\ d_LastUpdated y0 = d_LastUpdated y) then 1 else 0)
    del (v, d) y) as Hle. simpl in Hle. rewrite decide_True in Hle by done. apply Hle; [|done].
  intros. case_decide; lia.
Qed.

Lemma refs_nonneg A v b : 0 <= refs A v b.
Proof. unfold refs. pose proof (drefs_nonneg (a_del A) v b). destruct (a_val A !! v); simpl; [case_decide|]; lia. Qed.

Lemma drefs_le_refs A v b : drefs (a_del A) v b <= refs A v b.
Proof. unfold refs. destruct (a_val A !! v); simpl; [case_decide|]; lia. Qed.

Lemma refs_val A v (x : Validator) b :
  a_val A !! v = Some x -> refs A v b = (if decide (LastUpdated x = b) then 1 else 0) + drefs (a_del A) v b.
Proof. intros Hx. unfold refs. by rewrite Hx. Qed.

(** ** Settling a validator at a block *)
Definition new_rps (cfg : ChainConfig) (A : adpos) (v : Address) (x : Validator) (r : ValidatorRewards) : Z :=
  rps (a_st A) v (LastUpdated x)
  + (if 0 <? TotalStake x then RewardsPool r * ValidatorMaximumStake (DPOS cfg) / TotalStake x else 0).

Definition settled (cfg : ChainConfig) (A : adpos) (v : Address) (b : Z) (x : Validator) (r : ValidatorRewards)
  : adpos :=
  a_set_st (fun m => <[(v, b) := mkState (new_rps cfg A v x r) 1]> (dec (v, LastUpdated x) m))
    (a_set_val (<[v := set_LastUpdated b x]>)
       (a_set_rew (<[v := mkValidatorRewards 0 (CommissionRewardsPool r)]>) A)).

Section settle.
Context `{U : Uint256} (cfg : ChainConfig) (Hcfg : cfg_ok cfg).
Context (now n pend : Z) (A : adpos) (H : inv cfg now n pend A) (v : Address) (x : Validator) (r : ValidatorRewards).
Context (Hx : a_val A !! v = Some x) (Hr : a_rew A !! v = Some r) (Hnone : a_st A !! (v, now) = None).
Abbreviation MAX := (ValidatorMaximumStake (DPOS cfg)).
Abbreviation A' := (settled cfg A v now x r).

Lemma settle_no_refs : drefs (a_del A) v now = 0 /\ LastUpdated x <> now.
Proof.
  assert (refs A v now = 0) as Hz.
  { pose proof (refs_nonneg A v now). destruct (Z.eq_dec (refs A v now) 0) as [|Hp]; [done|].
    destruct (iv_refs _ _ _ _ _ H v now) as (st & Hst & _); [lia|]. congruence. }
  rewrite (refs_val _ _ _ _ Hx) in Hz. pose proof (drefs_nonneg (a_del A) v now).
  split; [|intros E; rewrite decide_True in Hz by done]; [case_decide|]; lia.
Qed.

Lemma settle_old_state :
  exists st, a_st A !! (v, LastUpdated x) = Some st /\ 1 + drefs (a_del A) v (LastUpdated x) <= Count st
    /\ 0 <= RewardsPer1Stake st.
Proof.
  destruct (iv_refs _ _ _ _ _ H v (LastUpdated x)) as (st & Hst & Hc).
  - rewrite (refs_val _ _ _ _ Hx), decide_True by done. pose proof (drefs_nonneg (a_del A) v (LastUpdated x)). lia.
  - exists st. rewrite (refs_val _ _ _ _ Hx), decide_True in Hc by done.
    split_and!; [done|lia|apply (iv_st _ _ _ _ _ H _ _ _ Hst)].
Qed.

(** States that delegations refer to keep their rewards. *)
Lemma settle_rps_kept v' b' :
  (v' <> v \/ 0 < drefs (a_del A) v b') -> rps (a_st A') v' b' = rps (a_st A) v' b'.
Proof.
  intros Hor. unfold rps, settled. simpl. destruct settle_no_refs as [Hnow Hlu].
  assert ((v', b') <> (v, now)) as Hne.
  { intros [= -> ->]. destruct Hor; [done|lia]. }
  rewrite lookup_insert_ne by congruence.
  destruct (decide ((v', b') = (v, LastUpdated x))) as [[= -> ->]|Hne2]; [|by rewrite lookup_dec_ne].
  destruct Hor as [?|Hd]; [done|]. destruct settle_old_state as (st & Hst & Hc & _).
  destruct (dec_keeps (v, LastUpdated x) (a_st A) _ _ Hst) as (st' & -> & Hr' & _); [intros _; lia|].
  by rewrite Hst.
Qed.

Lemma settle_rps_new : rps (a_st A') v now = new_rps cfg A v x r.
Proof. unfold rps, settled. simpl. by rewrite lookup_insert_eq. Qed.

Lemma settle_growth :
  0 <= new_rps cfg A v x r - rps (a_st A) v (LastUpdated x)
  /\ (new_rps cfg A v x r - rps (a_st A) v (LastUpdated x)) * stake_of (a_del A) v <= MAX * RewardsPool r.
Proof.
  unfold new_rps. pose proof (iv_pools _ _ _ _ _ H _ _ Hr) as [HP _]. pose proof (cf_max _ Hcfg).
  rewrite <- (iv_stake _ _ _ _ _ H _ _ Hx).
  destruct (Z.ltb_spec 0 (TotalStake x)) as [Ht|Ht].
  - assert (0 <= RewardsPool r * MAX / TotalStake x) by (apply Z.div_pos; nia).
    pose proof (Z.mul_div_le (RewardsPool r * MAX) (TotalStake x) Ht). nia.
  - pose proof (stake_nonneg _ _ _ _ _ _ _ H Hx). nia.
Qed.

Lemma settle_accrued :
  accrued A' = accrued A
    + (new_rps cfg A v x r - rps (a_st A) v (LastUpdated x)) * stake_of (a_del A) v.
Proof.
  unfold accrued, stake_of. change (a_del A') with (a_del A). rewrite <- msum_scale, <- msum_add.
  apply msum_ext. intros [v' d] y Hy.
  unfold accrued_by. cbn [fst]. destruct (decide (v' = v)) as [->|Hne].
  - assert (updated (a_val A') v = now) as -> by (unfold updated; simpl; by rewrite lookup_insert_eq).
    assert (updated (a_val A) v = LastUpdated x) as -> by (unfold updated; by rewrite Hx).
    rewrite settle_rps_new, settle_rps_kept; [lia|]. right. pose proof (drefs_pos _ _ _ _ Hy). lia.
  - assert (updated (a_val A') v' = updated (a_val A) v') as ->.
    { unfold updated. simpl. by rewrite lookup_insert_ne. }
    rewrite !settle_rps_kept by auto. lia.
Qed.

Lemma settle_state_kept v' b' st :
  a_st A !! (v', b') = Some st -> (v', b') <> (v, now) ->
  refs A' v' b' <= refs A v' b' - (if decide ((v', b') = (v, LastUpdated x)) then 1 else 0) ->
  0 < refs A' v' b' -> refs A v' b' <= Count st ->
  exists st', a_st A' !! (v', b') = Some st' /\ refs A' v' b' <= Count st'.
Proof.
  intros Hst Hne Hle Hpos Hc. simpl. rewrite lookup_insert_ne by congruence.
  destruct (dec_keeps (v, LastUpdated x) (a_st A) _ _ Hst) as (st' & Hst' & _ & Hc').
  - intros E. rewrite decide_True in Hle by done. lia.
  - exists st'. split; [done|]. rewrite Hc'. lia.
Qed.

Lemma settle_refs v' b' :
  refs A' v' b' = refs A v' b' - (if decide ((v', b') = (v, LastUpdated x)) then 1 else 0)
                 + (if decide ((v', b') = (v, now)) then 1 else 0).
Proof.
  unfold refs. simpl. destruct (decide (v' = v)) as [->|Hne].
  - rewrite lookup_insert_eq, Hx. simpl. repeat case_decide; simplify_eq; lia.
  - rewrite lookup_insert_ne by done. rewrite !decide_False by congruence. lia.
Qed.

Lemma settle_inv : 0 <= n -> inv cfg now (n + 1) pend A'.
Proof.
  intros Hn. destruct settle_no_refs as [Hnow Hlu]. destruct settle_growth as [Hg Hgr].
  split.
  - intros v' x'. simpl. intros [[<- <-]|[_ Hx']]%lookup_insert_Some;
      [exact (iv_stake _ _ _ _ _ H _ _ Hx)|exact (iv_stake _ _ _ _ _ H _ _ Hx')].
  - intros v' d y Hy. split; [by eapply iv_del|]. simpl. rewrite is_Some_insert_iff by eauto. by eapply iv_del.
  - intros v'. simpl. rewrite !is_Some_insert_iff by eauto. by eapply iv_rew.
  - intros v' r'. simpl. intros [[<- <-]|[_ Hr']]%lookup_insert_Some; simpl.
    + split; [done|]. by eapply iv_pools.
    + by eapply iv_pools.
  - by apply (iv_u1 _ _ _ _ _ H).
  - by apply (iv_u2 _ _ _ _ _ H).
  - intros v' b' Hpos. pose proof (settle_refs v' b') as Hrefs.
    destruct (decide ((v', b') = (v, now))) as [Heq|Hne].
    + injection Heq as -> ->. simpl. rewrite lookup_insert_eq. eexists; split; [done|]. simpl.
      rewrite (refs_val A' v (set_LastUpdated now x)); [|apply lookup_insert_eq]. simpl in *.
      rewrite decide_True by done. lia.
    + destruct (iv_refs _ _ _ _ _ H v' b') as (st & Hst & Hc); [case_decide; lia|].
      eapply settle_state_kept; [exact Hst|done|lia|done|done].
  - intros v' b' st. simpl. intros [[Heq <-]|[Hne Hst]]%lookup_insert_Some.
    + injection Heq as <- <-. simpl. split; [lia|]. destruct settle_old_state as (st0 & Hst0 & _ & H0).
      unfold rps in Hg. rewrite Hst0 in Hg. simpl in Hg. split; [lia|]. split; [lia|].
      intros x'. rewrite lookup_insert_eq. intros [= <-]. done.
    + apply dec_Some in Hst as (st0 & Hst0 & HR & HC & H1).
      destruct (iv_st _ _ _ _ _ H _ _ _ Hst0) as (? & ? & ? & Hlast).
      split; [case_decide; [specialize (H1 ltac:(done))|]; lia|]. split; [lia|]. split; [lia|].
      intros x' [[<- <-]|[_ Hx']]%lookup_insert_Some; [done|]. by apply Hlast.
  - intros v' x'. simpl. intros [[<- <-]|[_ Hx']]%lookup_insert_Some; [done|]. by eapply iv_updated.
  - intros v' d x' y Hx' Hy. pose proof (drefs_pos _ _ _ _ Hy) as Hd.
    simpl in Hx'. apply lookup_insert_Some in Hx' as [[<- <-]|[Hne Hx']].
    + change (LastUpdated (set_LastUpdated now x)) with now. rewrite settle_rps_new, settle_rps_kept by (right; simpl in Hd; lia).
      pose proof (iv_mono _ _ _ _ _ H _ _ _ _ Hx Hy). lia.
    + rewrite !settle_rps_kept by (left; congruence). by eapply iv_mono.
  - pose proof (iv_solvent _ _ _ _ _ H) as Hs. unfold owed in *. rewrite settle_accrued.
    assert (pools (a_rew A') = pools (a_rew A) - RewardsPool r) as Hp.
    { unfold pools. simpl. rewrite msum_insert_gen, Hr. simpl. lia. }
    rewrite Hp. change (undelegating A') with (undelegating A). change (funds A') with (funds A).
    change (a_del A') with (a_del A). nia.
  - apply (iv_amount _ _ _ _ _ H).
  - simpl. rewrite (iv_votes _ _ _ _ _ H), msum_insert_gen, Hx. simpl. lia.
  - apply (iv_init _ _ _ _ _ H).
  - intros v' x'. simpl. intros [[<- <-]|[_ Hx']]%lookup_insert_Some;
      [exact (iv_comm _ _ _ _ _ H _ _ Hx)|exact (iv_comm _ _ _ _ _ H _ _ Hx')].
  - apply (iv_saved _ _ _ _ _ H).
Qed.
End settle.

(** ** Changing one delegation of a settled validator

    The delegation of [d] to [v] becomes [z] (none if [z] is 0); what it had
    accrued is paid, [x'] is the validator with its new total. *)
Definition drop_ref (v : Address) (y : option Delegation) (m : gmap (Address * Z) State) :=
  match y with Some y => dec (v, d_LastUpdated y) m | None => m end.

Definition put_delegation (v d : Address) (z now : Z) (m : gmap (Address * Address) Delegation) :=
  if z =? 0 then delete (v, d) m else <[(v, d) := mkDelegation z now]> m.

Definition touched (A : adpos) (v d : Address) (now z : Z) (st : State) (x' : Validator)
    (bal : gmap Address Z) (vts amount : Z) : adpos :=
  mkA (<[v := x']> (a_val A)) (a_rew A)
    (<[(v, now) := mkState (RewardsPer1Stake st) (Count st + (if z =? 0 then 0 else 1))]>
       (drop_ref v (a_del A !! (v, d)) (a_st A)))
    (put_delegation v d z now (a_del A)) (a_u1 A) (a_u2 A) bal vts amount (a_init A) (a_supply A) (a_saved A).

Definition stake_at (A : adpos) (v d : Address) : Z := from_option d_Stake 0 (a_del A !! (v, d)).
Definition accrued_at (A : adpos) (v d : Address) : Z :=
  from_option (accrued_by (a_val A) (a_st A) (v, d)) 0 (a_del A !! (v, d)).

Lemma msum_put_delegation (f : Address * Address -> Delegation -> Z) v d z now m :
  msum f (put_delegation v d z now m)
  = msum f m - from_option (f (v, d)) 0 (m !! (v, d)) + (if z =? 0 then 0 else f (v, d) (mkDelegation z now)).
Proof. unfold put_delegation. case_match; [rewrite msum_delete_gen|rewrite msum_insert_gen]; lia. Qed.

Lemma put_delegation_Some v d z now m v' d' y :
  put_delegation v d z now m !! (v', d') = Some y ->
  (v' = v /\ d' = d /\ z <> 0 /\ y = mkDelegation z now) \/ ((v', d') <> (v, d) /\ m !! (v', d') = Some y).
Proof.
  unfold put_delegation. destruct (Z.eqb_spec z 0).
  - intros [? ?]%lookup_delete_Some. right. split; [congruence|done].
  - intros [[E <-]|[? ?]]%lookup_insert_Some; [left; by injection E as <- <-|right; split; [congruence|done]].
Qed.

Section touch.
Context `{U : Uint256} (cfg : ChainConfig) (Hcfg : cfg_ok cfg).
Context (now n pend : Z) (A : adpos) (H : inv cfg now n pend A) (v d : Address) (x x' : Validator) (st : State).
Context (Hx : a_val A !! v = Some x) (Hlu : LastUpdated x = now) (Hst : a_st A !! (v, now) = Some st).
Context (z : Z) (Hz : 0 <= z) (HT : TotalStake x' = TotalStake x + (z - stake_at A v d)) (Hlu' : LastUpdated x' = now)
  (Hcm' : commission_ok x').
Context (bal : gmap Address Z) (vts amount reward : Z).
Abbreviation MAX := (ValidatorMaximumStake (DPOS cfg)).
Abbreviation A' := (touched A v d now z st x' bal vts amount).

Lemma touch_rps v' b' :
  v' <> v \/ 0 < drefs (a_del A) v b' - (if decide (option_map d_LastUpdated (a_del A !! (v, d)) = Some b') then 1 else 0)
    \/ b' = now ->
  rps (a_st A') v' b' = rps (a_st A) v' b'.
Proof.
  intros Hor. unfold rps, touched. simpl. destruct (decide ((v', b') = (v, now))) as [E|Hne].
  { injection E as -> ->. by rewrite lookup_insert_eq, Hst. }
  rewrite lookup_insert_ne by congruence. unfold drop_ref.
  destruct (a_del A !! (v, d)) as [y|] eqn:Hy; [|done]. simpl in Hor.
  destruct (decide ((v', b') = (v, d_LastUpdated y))) as [E|Hne2]; [|by rewrite lookup_dec_ne].
  injection E as -> ->. rewrite decide_True in Hor by done.
  destruct Hor as [?|[Hd|?]]; [done| |congruence].
  destruct (iv_refs _ _ _ _ _ H v (d_LastUpdated y)) as (s0 & Hs0 & Hc).
  { pose proof (drefs_le_refs A v (d_LastUpdated y)). lia. }
  pose proof (drefs_le_refs A v (d_LastUpdated y)).
  destruct (dec_keeps (v, d_LastUpdated y) (a_st A) _ _ Hs0) as (s1 & -> & Hr & _); [intros _; lia|].
  by rewrite Hs0.
Qed.

Lemma touch_drefs v' b' :
  drefs (a_del A') v' b' = drefs (a_del A) v' b'
    - (if decide (v' = v /\ option_map d_LastUpdated (a_del A !! (v, d)) = Some b') then 1 else 0)
    + (if z =? 0 then 0 else if decide (v' = v /\ b' = now) then 1 else 0).
Proof.
  unfold drefs, touched. simpl. rewrite msum_put_delegation. simpl.
  rewrite (decide_ext (v = v' /\ now = b') (v' = v /\ b' = now)) by naive_solver.
  destruct (a_del A !! (v, d)) as [y|]; simpl.
  - rewrite (decide_ext (v = v' /\ d_LastUpdated y = b') (v' = v /\ Some (d_LastUpdated y) = Some b'))
      by naive_solver. lia.
  - rewrite (decide_False (P := v' = v /\ None = Some b')) by naive_solver. lia.
Qed.

Lemma touch_kept_rps v' d' y :
  (v', d') <> (v, d) -> a_del A !! (v', d') = Some y ->
  rps (a_st A') v' (d_LastUpdated y) = rps (a_st A) v' (d_LastUpdated y).
Proof.
  intros Hne Hy. apply touch_rps. destruct (decide (v' = v)) as [->|]; [|by left]. right; left.
  destruct (a_del A !! (v, d)) as [y0|] eqn:Hy0; simpl.
  - case_decide as E; [|pose proof (drefs_pos _ _ _ _ Hy); lia]. injection E as E.
    unfold drefs. rewrite (msum_delete _ _ (v, d)), Hy0. simpl. rewrite decide_True by done.
    pose proof (drefs_pos (delete (v, d) (a_del A)) v d' y) as Hp. unfold drefs in Hp.
    rewrite lookup_delete_ne in Hp by congruence. specialize (Hp Hy). lia.
  - pose proof (drefs_pos _ _ _ _ Hy). lia.
Qed.

Lemma touch_updated v' : updated (a_val A') v' = updated (a_val A) v'.
Proof.
  unfold updated. simpl. destruct (decide (v' = v)) as [->|].
  - rewrite lookup_insert_eq, Hx. simpl. congruence.
  - by rewrite lookup_insert_ne.
Qed.

Lemma touch_accrued : accrued A' = accrued A - accrued_at A v d.
Proof.
  unfold accrued. rewrite (msum_delete _ (a_del A') (v, d)), (msum_delete _ (a_del A) (v, d)).
  assert (delete (v, d) (a_del A') = delete (v, d) (a_del A)) as ->.
  { simpl. unfold put_delegation. case_match; [apply delete_delete_eq|apply delete_insert_eq]. }
  assert (from_option (accrued_by (a_val A') (a_st A') (v, d)) 0 (a_del A' !! (v, d)) = 0) as ->.
  { destruct (a_del A' !! (v, d)) as [y|] eqn:Hy; [|done].
    apply put_delegation_Some in Hy as [(_ & _ & _ & ->)|[Hne _]]; [|done].
    unfold accrued_by. cbn [from_option fst d_LastUpdated]. rewrite touch_updated.
    unfold updated. rewrite Hx. simpl. rewrite Hlu. lia. }
  unfold accrued_at.
  rewrite (msum_ext (accrued_by (a_val A') (a_st A')) (accrued_by (a_val A) (a_st A))); [lia|].
  intros [v' d'] y [Hne Hy]%lookup_delete_Some. unfold accrued_by. cbn [fst].
  rewrite touch_updated, (touch_kept_rps v' d' y) by congruence. f_equal. f_equal.
  apply touch_rps. destruct (decide (v' = v)) as [->|]; [|by left]. right; right.
  unfold updated. by rewrite Hx.
Qed.

Lemma touch_total : total_stake (a_del A') = total_stake (a_del A) + (z - stake_at A v d).
Proof.
  unfold total_stake, touched. simpl. rewrite msum_put_delegation. unfold stake_at.
  destruct (Z.eqb_spec z 0); simpl; destruct (a_del A !! (v, d)); simpl; lia.
Qed.

Lemma touch_stake_of v' :
  stake_of (a_del A') v' = stake_of (a_del A) v' + (if decide (v' = v) then z - stake_at A v d else 0).
Proof.
  unfold stake_of, touched. simpl. rewrite msum_put_delegation. unfold stake_at. simpl.
  destruct (decide (v' = v)) as [->|Hne]; destruct (Z.eqb_spec z 0); simpl;
    destruct (a_del A !! (v, d)); simpl; rewrite ?decide_True, ?decide_False by congruence; lia.
Qed.

Lemma touch_refs v' b' :
  refs A' v' b' = refs A v' b'
    - (if decide (v' = v /\ option_map d_LastUpdated (a_del A !! (v, d)) = Some b') then 1 else 0)
    + (if z =? 0 then 0 else if decide (v' = v /\ b' = now) then 1 else 0).
Proof.
  unfold refs. rewrite touch_drefs. simpl. destruct (decide (v' = v)) as [->|].
  - rewrite lookup_insert_eq, Hx. simpl. rewrite Hlu, Hlu'. lia.
  - rewrite lookup_insert_ne by done. lia.
Qed.

Lemma touch_iv_refs v' b' : 0 < refs A' v' b' -> exists s, a_st A' !! (v', b') = Some s /\ refs A' v' b' <= Count s.
Proof.
  rewrite touch_refs. intros Hpos. simpl. destruct (decide ((v', b') = (v, now))) as [E|Hne].
  - injection E as -> ->. rewrite lookup_insert_eq. eexists; split; [done|]. simpl.
    destruct (iv_refs _ _ _ _ _ H v now) as (s0 & Hs0 & Hc).
    { rewrite (refs_val _ _ _ _ Hx), decide_True by done. pose proof (drefs_nonneg (a_del A) v now). lia. }
    rewrite Hst in Hs0. injection Hs0 as <-. rewrite (decide_True (P := v = v /\ now = now)) by done.
    case_decide; case_match; lia.
  - rewrite lookup_insert_ne by congruence.
    rewrite (decide_False (P := v' = v /\ b' = now)) in * by naive_solver.
    replace (if z =? 0 then 0 else 0) with 0 in * by (by destruct (z =? 0)).
    assert (0 < refs A v' b') as Hp by (case_decide; lia).
    destruct (iv_refs _ _ _ _ _ H v' b' Hp) as (s0 & Hs0 & Hc). unfold drop_ref.
    destruct (a_del A !! (v, d)) as [y|]; simpl in *.
    + destruct (dec_keeps (v, d_LastUpdated y) (a_st A) _ _ Hs0) as (s1 & Hs1 & _ & Hc1).
      { intros E. injection E as -> ->. rewrite decide_True in Hpos by done. lia. }
      exists s1. split; [done|]. rewrite Hc1. repeat case_decide; naive_solver lia.
    + exists s0. split; [done|]. case_decide; lia.
Qed.

Lemma touch_inv :
  0 <= n ->
  MAX * funds A - accrued_at A v d <= MAX * default 0 (bal !! dpos_contract_address) ->
  amount = a_amount A + (z - stake_at A v d) ->
  vts = a_votes A - votes cfg (TotalStake x) + votes cfg (TotalStake x') ->
  inv cfg now (n + 1) (pend - (z - stake_at A v d)) A'.
Proof.
  intros Hn Hbal Ham Hvt. split.
  - intros v' x0. simpl. intros Hx0. rewrite touch_stake_of.
    apply lookup_insert_Some in Hx0 as [[<- <-]|[Hne Hx0]].
    + rewrite decide_True, HT, (iv_stake _ _ _ _ _ H _ _ Hx) by done. lia.
    + rewrite decide_False, (iv_stake _ _ _ _ _ H _ _ Hx0) by done. lia.
  - intros v' d' y Hy. simpl. rewrite is_Some_insert_iff by eauto.
    apply put_delegation_Some in Hy as [(-> & -> & Hz0 & ->)|[Hne Hy]]; [|by eapply iv_del].
    simpl. split; [lia|by eexists].
  - intros v'. simpl. rewrite is_Some_insert_iff by eauto. by eapply iv_rew.
  - by apply (iv_pools _ _ _ _ _ H).
  - by apply (iv_u1 _ _ _ _ _ H).
  - by apply (iv_u2 _ _ _ _ _ H).
  - apply touch_iv_refs.
  - intros v' b' s. simpl.
    assert (forall x0 : Validator, <[v:=x']> (a_val A) !! v' = Some x0 -> v' = v /\ LastUpdated x0 = now \/ a_val A !! v' = Some x0)
      as Hvals.
    { intros x0 [[<- <-]|[_ ?]]%lookup_insert_Some; auto. }
    intros [[E <-]|[Hne Hs]]%lookup_insert_Some.
    + injection E as <- <-. simpl. destruct (iv_st _ _ _ _ _ H _ _ _ Hst) as (? & ? & ? & Hlast).
      split; [case_match; lia|]. split_and!; [lia|lia|].
      intros x0 [[_ ->]|?]%Hvals; [lia|by apply Hlast].
    + assert (exists s0, a_st A !! (v', b') = Some s0 /\ RewardsPer1Stake s = RewardsPer1Stake s0
        /\ 1 <= Count s <= Count s0) as (s0 & Hs0 & HR & HC).
      { unfold drop_ref in Hs. destruct (a_del A !! (v, d)) as [y|].
        - apply dec_Some in Hs as (s0 & Hs0 & HR & HC & H1). exists s0. split_and!; try done.
          + pose proof (iv_st _ _ _ _ _ H _ _ _ Hs0). case_decide; [specialize (H1 ltac:(done))|]; lia.
          + case_decide; lia.
        - exists s. pose proof (iv_st _ _ _ _ _ H _ _ _ Hs). split_and!; try done; lia. }
      destruct (iv_st _ _ _ _ _ H _ _ _ Hs0) as (? & ? & ? & Hlast). split_and!; try lia.
      intros x0 [[_ ->]|?]%Hvals; [lia|by apply Hlast].
  - intros v' x0. simpl. intros [[<- <-]|[_ Hx0]]%lookup_insert_Some; [lia|by eapply iv_updated].
  - intros v' d' x0 y Hx0 Hy. apply put_delegation_Some in Hy as [(-> & -> & _ & ->)|[Hne Hy]].
    + simpl in Hx0. rewrite lookup_insert_eq in Hx0. injection Hx0 as <-. cbn [d_LastUpdated]. rewrite Hlu'. done.
    + rewrite (touch_kept_rps v' d' y) by done. simpl in Hx0.
      apply lookup_insert_Some in Hx0 as [[<- <-]|[Hne' Hx0]].
      * rewrite Hlu', touch_rps by auto. rewrite <- Hlu. by eapply iv_mono.
      * rewrite touch_rps by auto. by eapply iv_mono.
  - pose proof (iv_solvent _ _ _ _ _ H) as Hs. unfold owed in *. rewrite touch_accrued, touch_total.
    change (a_rew A') with (a_rew A). change (undelegating A') with (undelegating A).
    change (funds A') with (default 0 (bal !! dpos_contract_address)). nia.
  - rewrite touch_total. simpl. rewrite Ham, (iv_amount _ _ _ _ _ H). done.
  - simpl. rewrite Hvt, (iv_votes _ _ _ _ _ H), msum_insert_gen, Hx. simpl. lia.
  - apply (iv_init _ _ _ _ _ H).
  - intros v' x0. simpl. intros [[<- <-]|[_ Hx0]]%lookup_insert_Some; [done|by eapply iv_comm].
  - apply (iv_saved _ _ _ _ _ H).
Qed.
End touch.

(** ** The other steps *)
Section steps.
Context `{U : Uint256} (cfg : ChainConfig) (Hcfg : cfg_ok cfg).
Context (now n pend : Z) (A : adpos) (H : inv cfg now n pend A).
Abbreviation MAX := (ValidatorMaximumStake (DPOS cfg)).

Lemma inv_mono_n n' : n <= n' -> inv cfg now n' pend A.
Proof.
  intros Hn. destruct H. split; try done. intros v b st Hst. destruct (iv_st0 _ _ _ Hst) as (? & ? & ? & ?).
  split_and!; try done; lia.
Qed.

(** A later block. *)
Lemma inv_later now' : now <= now' -> inv cfg now' n pend A.
Proof.
  intros Hn. destruct H. split; try done.
  - intros v b st Hst. destruct (iv_st0 _ _ _ Hst) as (? & ? & ? & ?). split_and!; try done; lia.
  - intros v x Hx. specialize (iv_updated0 _ _ Hx). lia.
Qed.

Lemma inv_bal f pend' :
  MAX * pend' - MAX * pend <= MAX * (default 0 (f (a_bal A) !! dpos_contract_address) - funds A) ->
  inv cfg now n pend' (a_set_bal f A).
Proof.
  intros Hf. destruct H. split; try done. change (owed cfg (a_set_bal f A)) with (owed cfg A).
  change (funds (a_set_bal f A)) with (default 0 (f (a_bal A) !! dpos_contract_address)). lia.
Qed.

(** A different record of a validator with the same stake and block. *)
Lemma inv_same_val v (x x' : Validator) :
  a_val A !! v = Some x -> TotalStake x' = TotalStake x -> LastUpdated x' = LastUpdated x -> commission_ok x' ->
  inv cfg now n pend (a_set_val (<[v := x']>) A).
Proof.
  intros Hx HT HL Hcm. destruct H.
  assert (forall v' (y : Validator), a_val (a_set_val (<[v := x']>) A) !! v' = Some y ->
    exists y0 : Validator, a_val A !! v' = Some y0 /\ TotalStake y = TotalStake y0 /\ LastUpdated y = LastUpdated y0) as Hv.
  { intros v' y. simpl. intros [[<- <-]|[_ Hy]]%lookup_insert_Some; eauto. }
  assert (forall v', is_Some (a_val (a_set_val (<[v := x']>) A) !! v') <-> is_Some (a_val A !! v')) as Hs.
  { intros v'. apply is_Some_insert_iff. eauto. }
  assert (forall v', updated (a_val (a_set_val (<[v := x']>) A)) v' = updated (a_val A) v') as Hu.
  { intros v'. unfold updated. simpl. destruct (decide (v' = v)) as [->|].
    - by rewrite lookup_insert_eq, Hx.
    - by rewrite lookup_insert_ne. }
  assert (forall v' b, refs (a_set_val (<[v := x']>) A) v' b = refs A v' b) as Hr.
  { intros v' b. unfold refs. simpl. destruct (decide (v' = v)) as [->|].
    - rewrite lookup_insert_eq, Hx. simpl. by rewrite HL.
    - by rewrite lookup_insert_ne. }
  split; try done.
  - intros v' y (y0 & Hy0 & -> & _)%Hv. by apply iv_stake0.
  - intros v' d y Hy. rewrite Hs. by eapply iv_del0.
  - intros v'. by rewrite Hs.
  - intros v' b. rewrite Hr. apply iv_refs0.
  - intros v' b st Hst. destruct (iv_st0 _ _ _ Hst) as (? & ? & ? & Hl). split_and!; try done; try lia.
    intros y (y0 & Hy0 & _ & ->)%Hv. by apply Hl.
  - intros v' y (y0 & Hy0 & _ & ->)%Hv. by eapply iv_updated0.
  - intros v' d y z (y0 & Hy0 & _ & ->)%Hv. by apply iv_mono0.
  - unfold owed, accrued. simpl.
    rewrite (msum_ext (accrued_by _ (a_st A)) (accrued_by (a_val A) (a_st A))); [done|].
    intros k y _. unfold accrued_by. by rewrite Hu.
  - simpl. rewrite iv_votes0, msum_insert_gen, Hx. simpl. rewrite HT. lia.
  - intros v' y. simpl. intros [[_ <-]|[_ Hy]]%lookup_insert_Some; [done|by eapply iv_comm0].
Qed.

(** Rewards of one validator change; [pend] pays the difference. *)
Lemma inv_rew v r r' :
  a_rew A !! v = Some r -> 0 <= RewardsPool r' -> 0 <= CommissionRewardsPool r' ->
  inv cfg now n (pend - (RewardsPool r' + CommissionRewardsPool r' - RewardsPool r - CommissionRewardsPool r))
    (a_set_rew (<[v := r']>) A).
Proof.
  intros Hr HP HC. destruct H. split; try done.
  - intros v'. simpl. rewrite is_Some_insert_iff by eauto. apply iv_rew0.
  - intros v' r0. simpl. intros [[<- <-]|[_ Hr0]]%lookup_insert_Some; [done|by eapply iv_pools0].
  - unfold owed in *. assert (pools (a_rew (a_set_rew (<[v := r']>) A))
      = pools (a_rew A) + (RewardsPool r' + CommissionRewardsPool r' - RewardsPool r - CommissionRewardsPool r)) as ->.
    { unfold pools. simpl. rewrite msum_insert_gen, Hr. simpl. lia. }
    change (accrued (a_set_rew (<[v := r']>) A)) with (accrued A).
    change (undelegating (a_set_rew (<[v := r']>) A)) with (undelegating A).
    change (funds (a_set_rew (<[v := r']>) A)) with (funds A). change (a_del (a_set_rew _ A)) with (a_del A).
    nia.
Qed.

Lemma inv_add_u1 k u :
  a_u1 A !! k = None -> 0 < u_Amount u -> inv cfg now n (pend - u_Amount u) (a_set_u1 (<[k := u]>) A).
Proof.
  intros Hk Hu. destruct H. split; try done.
  - intros k' u'. simpl. intros [[_ <-]|[_ ?]]%lookup_insert_Some; [done|by eapply iv_u3].
  - unfold owed in *. assert (undelegating (a_set_u1 (<[k := u]>) A) = undelegating A + u_Amount u) as ->.
    { unfold undelegating. simpl. rewrite msum_insert by done. lia. }
    change (accrued (a_set_u1 (<[k := u]>) A)) with (accrued A). change (funds (a_set_u1 _ A)) with (funds A).
    simpl. nia.
Qed.

Lemma inv_add_u2 k u :
  a_u2 A !! k = None -> 0 < u_Amount (u_V1 u) ->
  inv cfg now n (pend - u_Amount (u_V1 u)) (a_set_u2 (<[k := u]>) A).
Proof.
  intros Hk Hu. destruct H. split; try done.
  - intros k' u'. simpl. intros [[_ <-]|[_ ?]]%lookup_insert_Some; [done|by eapply iv_u4].
  - unfold owed in *. assert (undelegating (a_set_u2 (<[k := u]>) A) = undelegating A + u_Amount (u_V1 u)) as ->.
    { unfold undelegating. simpl. rewrite msum_insert by done. lia. }
    change (accrued (a_set_u2 (<[k := u]>) A)) with (accrued A). change (funds (a_set_u2 _ A)) with (funds A).
    simpl. nia.
Qed.

Lemma inv_drop_undel d v id u :
  a_undel A d v id = Some u -> inv cfg now n (pend + u_Amount u) (a_drop_undel d v id A).
Proof.
  intros Hu. destruct H. destruct id as [i|]; simpl in *; split; try done.
  - intros k' u'. simpl. intros [_ ?]%lookup_delete_Some. by eapply iv_u4.
  - apply fmap_Some in Hu as (u2 & Hu2 & ->). unfold owed in *.
    assert (undelegating (a_set_u2 (delete (d, v, i)) A) = undelegating A - u_Amount (u_V1 u2)) as ->.
    { unfold undelegating. simpl. rewrite msum_delete_gen, Hu2. simpl. lia. }
    change (accrued (a_set_u2 (delete (d, v, i)) A)) with (accrued A).
    change (funds (a_set_u2 _ A)) with (funds A). simpl. nia.
  - intros k' u'. simpl. intros [_ ?]%lookup_delete_Some. by eapply iv_u3.
  - unfold owed in *.
    assert (undelegating (a_set_u1 (delete (v, d)) A) = undelegating A - u_Amount u) as ->.
    { unfold undelegating. simpl. rewrite msum_delete_gen, Hu. simpl. lia. }
    change (accrued (a_set_u1 (delete (v, d)) A)) with (accrued A).
    change (funds (a_set_u1 _ A)) with (funds A). simpl. nia.
Qed.

Lemma undel_pos d v id u : a_undel A d v id = Some u -> 0 < u_Amount u.
Proof.
  destruct id as [i|]; simpl; [intros (u2 & Hu & ->)%fmap_Some; by eapply iv_u2|by eapply iv_u1].
Qed.

(** A validator without stake has no delegations. *)
Lemma no_delegations v (x : Validator) d : a_val A !! v = Some x -> TotalStake x = 0 -> a_del A !! (v, d) = None.
Proof.
  intros Hx HT. destruct (a_del A !! (v, d)) as [y|] eqn:Hy; [|done]. exfalso.
  rewrite (iv_stake _ _ _ _ _ H _ _ Hx) in HT. destruct (iv_del _ _ _ _ _ H _ _ _ Hy) as [Hp _].
  pose proof (msum_lookup_le (fun k y => if decide (k.1 = v) then d_Stake y else 0) (a_del A) (v, d) y) as Hle.
  simpl in Hle. rewrite decide_True in Hle by done. unfold stake_of in HT. rewrite HT in Hle.
  cut (d_Stake y <= 0); [lia|]. apply Hle; [|done].
  intros [v' d'] y' Hy'. destruct (iv_del _ _ _ _ _ H _ _ _ Hy'). case_decide; lia.
Qed.

(** Removing a validator that has no stake, and states of it; what its
    rewards were is released. *)
Lemma inv_delete v (x : Validator) g pend' :
  a_val A !! v = Some x -> TotalStake x = 0 ->
  (forall r, a_rew A !! v = Some r -> pend' <= pend + CommissionRewardsPool r) ->
  (forall v' b, v' <> v -> g (a_st A) !! (v', b) = a_st A !! (v', b)) ->
  (forall b s, g (a_st A) !! (v, b) = Some s ->
     exists s0, a_st A !! (v, b) = Some s0 /\ RewardsPer1Stake s = RewardsPer1Stake s0 /\ 1 <= Count s <= Count s0) ->
  inv cfg now n pend' (a_set_st g (a_set_rew (delete v) (a_set_val (delete v) A))).
Proof.
  intros Hx HT Hpd Hg1 Hg2. pose proof (fun d => no_delegations v x d Hx HT) as Hnod.
  assert (forall v' d y, a_del A !! (v', d) = Some y -> v' <> v) as Hdel.
  { intros v' d y Hy ->. rewrite Hnod in Hy. done. }
  assert (forall v' b, v' <> v -> rps (g (a_st A)) v' b = rps (a_st A) v' b) as Hrps.
  { intros v' b Hne. unfold rps. by rewrite Hg1. }
  assert (forall b, drefs (a_del A) v b = 0) as Hdr.
  { intros b. unfold drefs. rewrite (msum_ext _ (fun _ _ => 0)), msum_zero; [done|].
    intros [v' d] y Hy. rewrite decide_False; [done|]. intros [E _]. simpl in E. subst v'. by eapply Hdel. }
  destruct H. split; try done; simpl.
  - intros v' x0 [_ Hx0]%lookup_delete_Some. by apply iv_stake0.
  - intros v' d y Hy. pose proof (Hdel _ _ _ Hy). rewrite is_Some_delete_iff.
    destruct (iv_del0 _ _ _ Hy). done.
  - intros v'. rewrite !is_Some_delete_iff, iv_rew0. done.
  - intros v' r [_ Hr]%lookup_delete_Some. by eapply iv_pools0.
  - intros v' b. unfold refs. simpl. destruct (decide (v' = v)) as [->|Hne].
    + rewrite lookup_delete_eq, Hdr. simpl. lia.
    + rewrite lookup_delete_ne, Hg1 by done. apply iv_refs0.
  - intros v' b s Hs. destruct (decide (v' = v)) as [->|Hne].
    + destruct (Hg2 _ _ Hs) as (s0 & Hs0 & HR & HC). destruct (iv_st0 _ _ _ Hs0) as (? & ? & ? & ?).
      rewrite lookup_delete_eq. split_and!; try lia. done.
    + rewrite Hg1 in Hs by done. rewrite lookup_delete_ne by done. by apply iv_st0.
  - intros v' x0 [_ Hx0]%lookup_delete_Some. by eapply iv_updated0.
  - intros v' d x0 y [_ Hx0]%lookup_delete_Some Hy. rewrite !Hrps by (by eapply Hdel). by eapply iv_mono0.
  - unfold owed in *. simpl.
    assert (pools (delete v (a_rew A)) <= pools (a_rew A) + (pend - pend')) as Hp.
    { unfold pools. destruct (proj2 (iv_rew0 v) ltac:(by eexists)) as [r Hr].
      rewrite (msum_delete _ (a_rew A) v), Hr. simpl.
      specialize (iv_pools0 _ _ Hr). specialize (Hpd _ Hr). lia. }
    assert (accrued (a_set_st g (a_set_rew (delete v) (a_set_val (delete v) A))) = accrued A) as ->.
    { unfold accrued. apply msum_ext. intros [v' d] y Hy. pose proof (Hdel _ _ _ Hy). unfold accrued_by, updated.
      simpl. rewrite lookup_delete_ne, !Hrps by done. done. }
    change (undelegating (a_set_st g (a_set_rew (delete v) (a_set_val (delete v) A)))) with (undelegating A).
    change (funds (a_set_st g (a_set_rew (delete v) (a_set_val (delete v) A)))) with (funds A).
    pose proof (cf_max _ Hcfg). nia.
  - rewrite iv_votes0, msum_delete_gen, Hx. simpl. rewrite HT. unfold votes. case_match; [|lia].
    rewrite Zdiv_0_l. lia.
  - intros v' x0 [_ Hx0]%lookup_delete_Some. by eapply iv_comm0.
Qed.

(** A new validator without delegations. *)
Lemma inv_register v (x : Validator) :
  a_val A !! v = None -> TotalStake x = 0 -> LastUpdated x = now -> commission_ok x -> a_st A !! (v, now) = None -> 0 <= n ->
  inv cfg now (n + 1) pend
    (a_set_st (<[(v, now) := mkState 0 1]>) (a_set_rew (<[v := mkValidatorRewards 0 0]>) (a_set_val (<[v := x]>) A))).
Proof.
  intros Hv HT HL Hcm Hst Hn.
  assert (forall v' d y, a_del A !! (v', d) = Some y -> v' <> v) as Hdel.
  { intros v' d y Hy ->. destruct (iv_del _ _ _ _ _ H _ _ _ Hy) as [_ [? ?]]. congruence. }
  assert (forall v' b, v' <> v -> rps (<[(v, now) := mkState 0 1]> (a_st A)) v' b = rps (a_st A) v' b) as Hrps.
  { intros v' b Hne. unfold rps. rewrite lookup_insert_ne; [done|congruence]. }
  assert (forall b, drefs (a_del A) v b = 0) as Hdr.
  { intros b. unfold drefs. rewrite (msum_ext _ (fun _ _ => 0)), msum_zero; [done|].
    intros [v' d] y Hy. rewrite decide_False; [done|]. intros [E _]. simpl in E. subst v'. by eapply Hdel. }
  assert (stake_of (a_del A) v = 0) as Hso.
  { unfold stake_of. rewrite (msum_ext _ (fun _ _ => 0)), msum_zero; [done|].
    intros [v' d] y Hy. rewrite decide_False; [done|]. simpl. by eapply Hdel. }
  assert (a_rew A !! v = None) as Hrew.
  { apply eq_None_not_Some. rewrite (iv_rew _ _ _ _ _ H), Hv. by intros [? ?]. }
  destruct H. split; try done; simpl.
  - intros v' x0 [[<- <-]|[_ Hx0]]%lookup_insert_Some; [by rewrite HT, Hso|by apply iv_stake0].
  - intros v' d y Hy. rewrite is_Some_insert_new. destruct (iv_del0 _ _ _ Hy). auto.
  - intros v'. by rewrite !is_Some_insert_new, iv_rew0.
  - intros v' r [[_ <-]|[_ Hr]]%lookup_insert_Some; [done|by eapply iv_pools0].
  - intros v' b. unfold refs. simpl. destruct (decide (v' = v)) as [->|Hne].
    + rewrite lookup_insert_eq, Hdr. simpl. rewrite HL. case_decide as Hb; [|lia]. subst b. intros _.
      rewrite lookup_insert_eq. eexists; split; [done|]. simpl. lia.
    + rewrite !lookup_insert_ne by congruence. apply iv_refs0.
  - intros v' b s [[E <-]|[_ Hs]]%lookup_insert_Some.
    + injection E as <- <-. rewrite lookup_insert_eq. simpl. split_and!; try lia. intros x0 [= <-]. lia.
    + destruct (iv_st0 _ _ _ Hs) as (? & ? & ? & Hl). split_and!; try lia.
      intros x0 [[<- <-]|[_ Hx0]]%lookup_insert_Some; [lia|by apply Hl].
  - intros v' x0 [[_ <-]|[_ Hx0]]%lookup_insert_Some; [lia|by eapply iv_updated0].
  - intros v' d x0 y Hx0 Hy. pose proof (Hdel _ _ _ Hy). rewrite lookup_insert_ne in Hx0 by done.
    rewrite !Hrps by done. by eapply iv_mono0.
  - unfold owed in *. simpl.
    assert (pools (<[v := mkValidatorRewards 0 0]> (a_rew A)) = pools (a_rew A)) as ->.
    { unfold pools. rewrite msum_insert by done. simpl. lia. }
    match goal with |- MAX * (?t + ?p + undelegating ?B) + accrued ?B' + _ <= _ => 
      change (undelegating B) with (undelegating A);
      assert (accrued B' = accrued A) as -> end.
    { unfold accrued. apply msum_ext. intros [v' d] y Hy. pose proof (Hdel _ _ _ Hy). unfold accrued_by, updated.
      simpl. rewrite lookup_insert_ne, !Hrps by done. done. }
    exact iv_solvent0.
  - rewrite iv_votes0, msum_insert by done. rewrite HT. unfold votes. case_match; [|lia].
    rewrite Zdiv_0_l. lia.
  - intros v' x0 [[_ <-]|[_ Hx0]]%lookup_insert_Some; [done|by eapply iv_comm0].
Qed.
End steps.
