(* ===== verification/DposSafe.v ===== *)
(** * The handlers keep the staking invariant

    Weakest-precondition rules for the parts the handlers share, then one
    lemma per handler: from a state that satisfies the invariant the handler
    does not panic, an error leaves the state as it was, and a normal result
    satisfies the invariant again. *)
From S2P Require Import Prelude Bytes Crypto ChainConfig Uint256 Storage IterableMap DposStorage Validators Dpos DposTyped DposInv.

Section rules.
Context `{Uint256Laws} `{Crypto} (cfg : ChainConfig) (Hcfg : cfg_ok cfg).
Abbreviation dp := (DPOS cfg).
Abbreviation MAX := (ValidatorMaximumStake dp).

Lemma wp_big_div {St B} (k : Z -> M St B) Q E s x y :
  0 < y -> wp (k (x / y)) Q E s -> wp (q ← big_div x y; k q) Q E s.
Proof.
  intros Hy Hk. unfold big_div. rewrite (proj2 (Z.eqb_neq _ _)) by lia. rewrite (proj2 (Z.ltb_ge _ _)) by lia.
  exact Hk.
Qed.

(** [voteCount] is [votes], at every block. *)
Lemma voteCount_run {St} T b (s : St) :
  0 <= T -> votes cfg T < 2 ^ 64 -> voteCount cfg T b s = Done (votes cfg T) s.
Proof.
  intros HT Hv. pose proof (votes_nonneg cfg Hcfg T HT). pose proof (cf_step _ Hcfg).
  pose proof (cf_threshold _ Hcfg). unfold voteCount, votes, big_div, bindM in *.
  rewrite (proj2 (Z.eqb_neq (VoteEligibilityBalanceStep dp) _)) by lia.
  rewrite (proj2 (Z.ltb_ge (VoteEligibilityBalanceStep dp) _)) by lia.
  destruct (EligibilityBalanceThreshold dp <=? T) eqn:Et; zbool;
    destruct (IsOnAspenHardforkPartOne (Hardforks cfg) b && (MAX <=? T)) eqn:Ea; zbool; try lia;
    unfold ret; simpl; try rewrite (proj2 (Z.leb_le 0 (T / _))) by lia;
    try rewrite (proj2 (Z.ltb_lt (T / _) _)) by lia; done.
Qed.

Lemma wp_voteCount {St B} (k : Z -> M St B) Q E s T b :
  0 <= T -> votes cfg T < 2 ^ 64 -> wp (k (votes cfg T)) Q E s -> wp (x ← voteCount cfg T b; k x) Q E s.
Proof. intros HT Hv Hk. eapply wp_bind_done; [by apply voteCount_run|done]. Qed.

Lemma wp_unit {St X} (m : M St X) Q E s : wp (x ← m; ret x) Q E s -> wp m Q E s.
Proof. unfold wp, bindM, ret. by destruct (m s). Qed.

Section typed.
Context {B : Type}.
Implicit Types (Q : B -> CT -> Prop) (E : string -> CT -> Prop) (s : CT) (A : adpos).

Lemma wp_AddLog (k : () -> M CT B) Q E n s A l :
  rel n s A -> (forall s', rel n s' A -> wp (k tt) Q E s') -> wp (x ← AddLog l; k x) Q E s.
Proof. intros [HL HA] Hk. apply Hk. by split. Qed.

Lemma wp_update_votes (k : () -> M CT B) Q E n s A prev new :
  rel n s A -> 0 <= prev <= a_votes A -> 0 <= new -> a_votes A < 2 ^ 64 -> a_votes A - prev + new < 2 ^ 64 ->
  (forall s', rel n s' (a_set_votes (a_votes A - prev + new) A) -> wp (k tt) Q E s') ->
  wp (x ← update_eligible_votes prev new; k x) Q E s.
Proof.
  intros [HL <-] Hp Hn Hv Hs Hk. simpl in *. unfold update_eligible_votes.
  destruct (Z.eqb_spec prev new) as [->|Hne].
  - apply Hk. split; [done|]. unfold abs, a_set_votes. simpl. f_equal. lia.
  - apply wp_bind. apply wp_gets. unfold add64p. rewrite (u64_small (_ - _)) by lia. rewrite u64_small by lia.
    rewrite (proj2 (orb_false_iff _ _)) by (split; apply Z.ltb_ge; lia).
    apply wp_bind_ret. apply Hk. split; [done|]. done.
Qed.

Lemma wp_add_amount (k : () -> M CT B) Q E n s A z :
  rel n s A -> 0 <= a_amount A -> 0 <= z -> a_amount A + z < 2 ^ 256 ->
  (forall s', rel n s' (a_set_amount (a_amount A + z) A) -> wp (k tt) Q E s') ->
  wp (x ← add_amount_delegated z; k x) Q E s.
Proof.
  intros [HL <-] Ha Hb Hc Hk. simpl in *. apply Hk. split; [done|].
  unfold abs, a_set_amount. simpl. f_equal.
  rewrite FromBig_small by (unfold word; lia). simpl. apply u_add_small; unfold word; lia.
Qed.

Lemma wp_sub_amount (k : () -> M CT B) Q E n s A z :
  rel n s A -> a_amount A < 2 ^ 256 -> 0 <= z <= a_amount A ->
  (forall s', rel n s' (a_set_amount (a_amount A - z) A) -> wp (k tt) Q E s') ->
  wp (x ← sub_amount_delegated z; k x) Q E s.
Proof.
  intros [HL <-] Ha Hb Hk. simpl in *. apply Hk. split; [done|].
  unfold abs, a_set_amount. simpl. f_equal.
  rewrite FromBig_small by (unfold word; lia). simpl. apply u_sub_small; unfold word; lia.
Qed.

(** The balances after the contract has paid its caller. *)
Definition paid (ctx : CallFrame) (z : Z) (bal : gmap Address Z) : gmap Address Z :=
  let bal1 := <[Account ctx := default 0 (bal !! Account ctx) - z]> bal in
  <[CallerAccount ctx := default 0 (bal1 !! CallerAccount ctx) + z]> bal1.

Lemma paid_contract ctx z bal :
  0 <= z -> Account ctx = dpos_contract_address ->
  default 0 (bal !! dpos_contract_address) - z <= default 0 (paid ctx z bal !! dpos_contract_address)
  <= default 0 (bal !! dpos_contract_address).
Proof.
  intros Hz Ha. unfold paid. rewrite Ha. destruct (decide (CallerAccount ctx = dpos_contract_address)) as [->|Hne].
  - rewrite !lookup_insert_eq. simpl. lia.
  - rewrite (lookup_insert_ne _ (CallerAccount ctx) dpos_contract_address) by done. rewrite lookup_insert_eq. simpl. lia.
Qed.

Lemma wp_transfer (k : () -> M CT B) Q E n s A ctx z :
  rel n s A -> Account ctx = dpos_contract_address -> z <= funds A ->
  (forall s', rel n s' (a_set_bal (paid ctx z) A) -> wp (k tt) Q E s') ->
  wp (x ← transferContractBalance ctx z; k x) Q E s.
Proof.
  intros [HL <-] Ha Hz Hk. apply wp_bind. unfold transferContractBalance. apply wp_gets.
  unfold funds in Hz. simpl in Hz. unfold balance_of. rewrite Ha.
  rewrite (proj2 (Z.ltb_ge _ _)) by done. apply Hk. split; [done|]. unfold abs, a_set_bal, paid. simpl.
  by rewrite Ha.
Qed.

Lemma wp_decrement (k : State -> M CT B) Q E n s A v b st :
  rel n s A -> a_st A !! (v, b) = Some st -> 1 <= Count st < 2 ^ 32 -> 0 <= RewardsPer1Stake st ->
  (forall s', rel n s' (a_set_st (dec (v, b)) A) -> wp (k (mkState (RewardsPer1Stake st) (Count st - 1))) Q E s') ->
  wp (x ← state_get_and_decrement v b; k x) Q E s.
Proof.
  intros Hs Hst Hc Hr Hk. apply wp_bind. unfold state_get_and_decrement.
  eapply wp_state_get; [done|]. rewrite Hst. rewrite u32_small by lia. simpl.
  eapply wp_state_put; [done| |].
  - intros st' E0. case_match; [done|]. injection E0 as <-. done.
  - intros s' Hs'. apply wp_ret, Hk. unfold dec, mput in Hs'. unfold a_set_st in *. unfold dec. rewrite Hst.
    destruct (Z.eqb_spec (Count st) 1) as [E1|E1].
    + rewrite E1 in *. exact Hs'.
    + rewrite (proj2 (Z.eqb_neq _ _)) in Hs' by lia. exact Hs'.
Qed.
End typed.

(** ** Fetching the state of a block

    After [current_state] the stored states are [m]; with the fetched state
    [st] put back, and the validator and rewards written, the abstract state
    would be [held]. *)
Definition held (A : adpos) (v : Address) (now : Z) (x : Validator) (r : ValidatorRewards) (st : State)
    (m : gmap (Address * Z) State) : adpos :=
  a_set_st (fun _ => <[(v, now) := st]> m)
    (a_set_val (<[v := set_LastUpdated now x]>) (a_set_rew (<[v := r]>) A)).

(** The reward per unit of stake of a validator at a block, settled there. *)
Definition current_rps (A : adpos) (now : Z) (v : Address) (x : Validator) (r : ValidatorRewards) : Z :=
  match a_st A !! (v, now) with Some st => RewardsPer1Stake st | None => new_rps cfg A v x r end.

Record fetched (now n pend : Z) (A : adpos) (v : Address) (x : Validator) (r r' : ValidatorRewards) (st : State)
    (m : gmap (Address * Z) State) : Prop := {
  ft_inv : inv cfg now (n + 1) pend (held A v now x r' st m);
  ft_old d y : a_del A !! (v, d) = Some y ->
    exists s0, m !! (v, d_LastUpdated y) = Some s0 /\ 1 <= Count s0 <= 2 * (n + 1) /\ 0 <= RewardsPer1Stake s0
      /\ RewardsPer1Stake s0 = rps (a_st (held A v now x r' st m)) v (d_LastUpdated y);
  ft_st : 1 <= Count st <= 2 * (n + 1) /\ 0 <= RewardsPer1Stake st;
  ft_comm : CommissionRewardsPool r' = CommissionRewardsPool r;
  ft_pool : 0 <= RewardsPool r' /\ 0 <= CommissionRewardsPool r';
  ft_rps : RewardsPer1Stake st = current_rps A now v x r;
  ft_kept d y : a_del A !! (v, d) = Some y ->
    rps (a_st (held A v now x r' st m)) v (d_LastUpdated y) = rps (a_st A) v (d_LastUpdated y);
}.

Lemma set_LastUpdated_same (x : Validator) : set_LastUpdated (LastUpdated x) x = x.
Proof. by destruct x as [[] ?]. Qed.

(** The state of the current block exists: the validator was settled in it. *)
Lemma fetched_existing now n pend A v x r st :
  inv cfg now n pend A -> a_val A !! v = Some x -> a_rew A !! v = Some r -> a_st A !! (v, now) = Some st ->
  fetched now n pend A v x r r st (a_st A) /\ LastUpdated x = now /\ held A v now x r st (a_st A) = A.
Proof.
  intros Hi Hx Hr Hst. destruct (iv_st _ _ _ _ _ Hi _ _ _ Hst) as (Hc & Hrp & _ & Hl).
  assert (LastUpdated x = now) as Hlu.
  { specialize (Hl _ Hx). pose proof (iv_updated _ _ _ _ _ Hi _ _ Hx). lia. }
  assert (held A v now x r st (a_st A) = A) as HA.
  { unfold held, a_set_st, a_set_val, a_set_rew. simpl. subst now. rewrite set_LastUpdated_same.
    rewrite (insert_id (a_st A)), (insert_id (a_val A)), (insert_id (a_rew A)) by done. by destruct A. }
  split; [|done]. split.
  - rewrite HA. eapply inv_mono_n; [done|lia].
  - intros d y Hy. rewrite HA.
    destruct (iv_refs _ _ _ _ _ Hi v (d_LastUpdated y)) as (s0 & Hs0 & _).
    { pose proof (drefs_pos _ _ _ _ Hy). pose proof (drefs_le_refs A v (d_LastUpdated y)). lia. }
    destruct (iv_st _ _ _ _ _ Hi _ _ _ Hs0) as (? & ? & _). exists s0.
    split_and!; try done; [lia..|]. unfold rps. by rewrite Hs0.
  - split; lia.
  - done.
  - by eapply iv_pools.
  - unfold current_rps. by rewrite Hst.
  - intros d y Hy. by rewrite HA.
Qed.

Lemma fetched_new now n pend A v x r :
  inv cfg now n pend A -> 0 <= n -> a_val A !! v = Some x -> a_rew A !! v = Some r -> a_st A !! (v, now) = None ->
  fetched now n pend A v x r (mkValidatorRewards 0 (CommissionRewardsPool r)) (mkState (new_rps cfg A v x r) 1)
    (dec (v, LastUpdated x) (a_st A)).
Proof.
  intros Hi Hn Hx Hr Hnone.
  pose proof (settle_inv cfg Hcfg now n pend A Hi v x r Hx Hr Hnone Hn) as Hs.
  assert (0 <= new_rps cfg A v x r) as Hrp.
  { destruct (iv_st _ _ _ _ _ Hs v now (mkState (new_rps cfg A v x r) 1)) as (_ & Hp & _); [|done].
    simpl. by rewrite lookup_insert_eq. }
  split; [exact Hs| |split; [simpl; lia|done]|done|split; [done|apply (iv_pools _ _ _ _ _ Hi _ _ Hr)]| |].
  2: { unfold current_rps. by rewrite Hnone. }
  2: { intros d y Hy. pose proof (drefs_pos _ _ _ _ Hy).
    apply (settle_rps_kept cfg now n pend A Hi v x r Hx Hnone). right. lia. }
  intros d y Hy. pose proof (drefs_pos _ _ _ _ Hy) as Hd.
  destruct (settle_no_refs cfg now n pend A Hi v x Hx Hnone) as [Hno _].
  destruct (iv_refs _ _ _ _ _ Hs v (d_LastUpdated y)) as (s0 & Hs0 & _).
  { pose proof (drefs_le_refs (settled cfg A v now x r) v (d_LastUpdated y)). simpl in *. lia. }
  destruct (iv_st _ _ _ _ _ Hs _ _ _ Hs0) as (? & ? & _).
  exists s0. simpl in Hs0. rewrite lookup_insert_ne in Hs0 by (intros [= E]; rewrite <- E in Hd; lia).
  split_and!; try done; [lia..|]. unfold rps, held. simpl.
  rewrite lookup_insert_ne by (intros [= E]; rewrite <- E in Hd; lia). by rewrite Hs0.
Qed.

(** The amount delegated is no part of what follows: it may be off ([w])
    while a stake moves between validators. *)
Lemma rel_amount n s A : rel n s A -> rel n s (a_set_amount (a_amount A) A).
Proof. by destruct A. Qed.

Lemma wp_new_state {B} (k : State * Validator * option ValidatorRewards -> M CT B) Q E n pend now s A w v x r :
  rel n s (a_set_amount w A) -> inv cfg now n pend A -> 0 <= n -> 2 * n + 2 < 2 ^ 32 ->
  a_val A !! v = Some x -> a_rew A !! v = Some r -> a_st A !! (v, now) = None ->
  (forall s' st r' m, rel n s' (a_set_amount w (a_set_st (fun _ => m) A)) -> fetched now n pend A v x r r' st m ->
     wp (k (st, set_LastUpdated now x, Some r')) Q E s') ->
  wp (p ← new_state cfg v now x (Some r); k p) Q E s.
Proof.
  intros Hs Hi Hn Hb Hx Hr Hst Hk. apply wp_bind. unfold new_state.
  destruct (settle_old_state cfg now n pend A Hi v x Hx) as (s0 & Hs0 & Hc0 & Hr0).
  destruct (iv_st _ _ _ _ _ Hi _ _ _ Hs0) as (? & _).
  eapply wp_decrement; [done..|lia|done|]. intros s1 Hs1.
  pose proof (fetched_new _ _ _ _ _ _ _ Hi Hn Hx Hr Hst) as Hf.
  assert (new_rps cfg A v x r = RewardsPer1Stake s0
    + (if 0 <? TotalStake x then RewardsPool r * MAX / TotalStake x else 0)) as Hnew.
  { unfold new_rps, rps. by rewrite Hs0. }
  destruct (Z.ltb_spec 0 (TotalStake x)) as [Ht|Ht].
  - unfold calculateRewardPer1Stake. unfold big_div. rewrite (proj2 (Z.eqb_neq _ _)) by lia.
    rewrite (proj2 (Z.ltb_ge _ _)) by lia. apply (Hk _ _ _ _ Hs1). simpl. rewrite <- Hnew. exact Hf.
  - rewrite Z.add_0_r in Hnew. apply (Hk _ _ _ _ Hs1). simpl. rewrite <- Hnew. exact Hf.
Qed.

Lemma wp_current_state {B} (k : State * Validator * option ValidatorRewards -> M CT B) Q E n pend now s A w v x r :
  rel n s (a_set_amount w A) -> inv cfg now n pend A -> 0 <= n -> 2 * n + 2 < 2 ^ 32 ->
  a_val A !! v = Some x -> a_rew A !! v = Some r ->
  (forall s' st r' m, rel n s' (a_set_amount w (a_set_st (fun _ => m) A)) -> fetched now n pend A v x r r' st m ->
     wp (k (st, set_LastUpdated now x, Some r')) Q E s') ->
  wp (p ← current_state cfg v now x (Some r); k p) Q E s.
Proof.
  intros Hs Hi Hn Hb Hx Hr Hk. unfold current_state. apply wp_assoc. eapply wp_state_get; [exact Hs|].
  change (a_st (a_set_amount w A)) with (a_st A). destruct (a_st A !! (v, now)) as [st|] eqn:Hst.
  - apply wp_bind_ret. destruct (fetched_existing _ _ _ _ _ _ _ _ Hi Hx Hr Hst) as (Hf & Hlu & HA).
    specialize (Hk s st r (a_st A)). rewrite <- Hlu, set_LastUpdated_same in Hk. rewrite Hlu in Hk.
    apply Hk; [|done]. exact Hs.
  - by eapply wp_new_state.
Qed.

(** ** Paying what a delegation has accrued *)

(** The reward due to [d] in a settled state, and the balances after it has
    been paid to the caller. *)
Definition reward_due (A : adpos) (v d : Address) : Z := accrued_at A v d / MAX.

Definition claimed (ctx : CallFrame) (A : adpos) (v : Address) (bal : gmap Address Z) : gmap Address Z :=
  let reward := reward_due A v (CallerAccount ctx) in
  if 0 <? reward then paid ctx reward bal else bal.

Lemma accrued_at_bounds now n pend A v d :
  inv cfg now n pend A -> 0 <= pend -> 0 <= accrued_at A v d <= MAX * funds A.
Proof.
  intros Hi Hp. unfold accrued_at. pose proof (accrued_nonneg _ _ _ _ _ Hi).
  pose proof (iv_solvent _ _ _ _ _ Hi) as Hs. unfold owed in Hs. pose proof (cf_max _ Hcfg).
  pose proof (total_nonneg _ _ _ _ _ Hi). pose proof (pools_nonneg _ _ _ _ _ Hi).
  pose proof (undelegating_nonneg _ _ _ _ _ Hi).
  destruct (a_del A !! (v, d)) as [y|] eqn:Hy; simpl; [|nia].
  split; [by eapply accrued_by_nonneg|].
  assert (accrued_by (a_val A) (a_st A) (v, d) y <= accrued A); [|nia].
  apply (msum_lookup_le (accrued_by (a_val A) (a_st A)) (a_del A) (v, d) y); [|done].
  intros k z Hz. by eapply accrued_by_nonneg.
Qed.

Lemma reward_due_bounds now n pend A v d :
  inv cfg now n pend A -> 0 <= pend ->
  0 <= reward_due A v d <= funds A /\ MAX * reward_due A v d <= accrued_at A v d.
Proof.
  intros Hi Hp. pose proof (accrued_at_bounds _ _ _ _ v d Hi Hp) as Ha. pose proof (cf_max _ Hcfg).
  unfold reward_due. assert (0 <= accrued_at A v d / MAX) by (apply Z.div_pos; lia).
  pose proof (Z.mul_div_le (accrued_at A v d) MAX ltac:(lia)). split; [|done]. nia.
Qed.

Lemma claimed_funds now n pend A ctx v :
  inv cfg now n pend A -> 0 <= pend -> Account ctx = dpos_contract_address ->
  MAX * funds A - accrued_at A v (CallerAccount ctx)
    <= MAX * default 0 (claimed ctx A v (a_bal A) !! dpos_contract_address)
  /\ default 0 (claimed ctx A v (a_bal A) !! dpos_contract_address) <= funds A.
Proof.
  intros Hi Hp Ha. pose proof (accrued_at_bounds _ _ _ _ v (CallerAccount ctx) Hi Hp).
  destruct (reward_due_bounds _ _ _ _ v (CallerAccount ctx) Hi Hp) as [Hr Hm]. pose proof (cf_max _ Hcfg).
  unfold claimed, funds in *. destruct (Z.ltb_spec 0 (reward_due A v (CallerAccount ctx))) as [Hl|Hl].
  - pose proof (paid_contract ctx _ (a_bal A) (proj1 Hr) Ha). nia.
  - nia.
Qed.

(** What a delegation has earned at block [now], not paid yet. *)
Definition pending (A : adpos) (now : Z) (v d : Address) : Z :=
  match a_del A !! (v, d), a_val A !! v, a_rew A !! v with
  | Some y, Some x, Some r =>
      (current_rps A now v x r - rps (a_st A) v (d_LastUpdated y)) * d_Stake y / MAX
  | _, _, _ => 0
  end.

Definition pay (ctx : CallFrame) (z : Z) (bal : gmap Address Z) : gmap Address Z :=
  if 0 <? z then paid ctx z bal else bal.

Lemma claimed_pending now n pend A ctx v (x : Validator) r r' st m :
  fetched now n pend A v x r r' st m -> a_val A !! v = Some x -> a_rew A !! v = Some r ->
  claimed ctx (held A v now x r' st m) v = pay ctx (pending A now v (CallerAccount ctx)).
Proof.
  intros Hf Hx Hr. unfold claimed, pay, reward_due, accrued_at, pending. cbn [a_del held a_set_st a_set_val a_set_rew].
  destruct (a_del A !! (v, CallerAccount ctx)) as [y|] eqn:Hy; cbn [from_option]; [|by rewrite Zdiv_0_l].
  rewrite Hx, Hr. unfold accrued_by, updated. cbn [fst]. rewrite (ft_kept _ _ _ _ _ _ _ _ _ _ Hf _ _ Hy).
  cbn [a_val held a_set_st a_set_val a_set_rew]. rewrite lookup_insert_eq. cbn [from_option].
  unfold rps at 1 3. cbn [a_st held a_set_st a_set_val a_set_rew LastUpdated set_LastUpdated]. rewrite lookup_insert_eq.
  cbn [from_option]. by rewrite (ft_rps _ _ _ _ _ _ _ _ _ _ Hf).
Qed.

(** The caller's delegation to [v] changed by [z] and its rewards were paid;
    no other delegation and no other validator changed. *)
Record staked (ctx : CallFrame) (now : Z) (A A' : adpos) (v : Address) (z : Z) : Prop := {
  sk_own : a_del A' !! (v, CallerAccount ctx)
    = (let s := stake_at A v (CallerAccount ctx) + z in if s =? 0 then None else Some (mkDelegation s now));
  sk_others k : k <> (v, CallerAccount ctx) -> a_del A' !! k = a_del A !! k;
  sk_total : from_option (fun x : Validator => TotalStake x) 0 (a_val A' !! v)
    = from_option (fun x : Validator => TotalStake x) 0 (a_val A !! v) + z;
  sk_validators v' : v' <> v -> a_val A' !! v' = a_val A !! v' /\ a_rew A' !! v' = a_rew A !! v';
  sk_paid : a_bal A' = pay ctx (pending A now v (CallerAccount ctx)) (a_bal A);
}.

Lemma wp_claim_delegation {B} (k : () -> M CT B) Q E n pend now s A A1 ctx v x r r' st m y :
  rel n s A1 -> fetched now n pend A v x r r' st m -> a_st A1 = m -> a_bal A1 = a_bal A -> 0 <= pend ->
  2 * n + 2 < 2 ^ 32 -> a_del A !! (v, CallerAccount ctx) = Some y -> Account ctx = dpos_contract_address ->
  (forall s', rel n s' (a_set_bal (claimed ctx (held A v now x r' st m) v)
                  (a_set_st (fun _ => dec (v, d_LastUpdated y) m) A1)) -> wp (k tt) Q E s') ->
  wp (q ← claim_delegation cfg ctx v st y; k q) Q E s.
Proof.
  intros Hs Hf <- Hbal Hp Hb Hy Ha Hk. apply wp_bind. unfold claim_delegation.
  destruct (ft_old _ _ _ _ _ _ _ _ _ _ Hf _ _ Hy) as (s0 & Hs0 & Hc0 & Hr0 & Hrps).
  eapply wp_decrement; [exact Hs|exact Hs0|lia|done|]. intros s1 Hs1.
  pose proof (ft_inv _ _ _ _ _ _ _ _ _ _ Hf) as Hi.
  assert (accrued_at (held A v now x r' st (a_st A1)) v (CallerAccount ctx)
    = (RewardsPer1Stake st - RewardsPer1Stake s0) * d_Stake y) as Hacc.
  { unfold accrued_at. simpl. rewrite Hy. simpl. unfold accrued_by, updated. simpl.
    rewrite lookup_insert_eq. simpl. rewrite Hrps. unfold rps at 1. simpl. by rewrite lookup_insert_eq. }
  pose proof (reward_due_bounds _ _ _ _ v (CallerAccount ctx) Hi Hp) as [[Hd1 Hd2] _].
  unfold claimed in Hk. unfold reward_due in *. rewrite Hacc in *.
  unfold calculateDelegatorReward. apply wp_big_div; [apply Hcfg|].
  unfold when. destruct (0 <? _) eqn:El.
  - eapply wp_transfer; [exact Hs1|done| |].
    { unfold funds in *. simpl in *. by rewrite Hbal. }
    intros s2 Hs2. apply (Hk (set_logs _ s2)). split; [apply Hs2|]. apply Hs2.
  - apply wp_ret, Hk. exact Hs1.
Qed.

(** ** Raising a delegation *)
Lemma touched_held A v d now x r st m z x' bal vts amount :
  touched (held A v now x r st m) v d now z st x' bal vts amount
  = mkA (<[v := x']> (a_val A)) (<[v := r]> (a_rew A))
      (<[(v, now) := mkState (RewardsPer1Stake st) (Count st + (if z =? 0 then 0 else 1))]>
         (drop_ref v (a_del A !! (v, d)) m))
      (put_delegation v d z now (a_del A)) (a_u1 A) (a_u2 A) bal vts amount (a_init A) (a_supply A) (a_saved A).
Proof.
  unfold touched, held. simpl. f_equal.
  - by rewrite insert_insert_eq.
  - unfold drop_ref. destruct (a_del A !! (v, d)); [apply insert_dec_insert|apply insert_insert_eq].
Qed.

Lemma stored_as_stake ext x : TotalStake (stored_as ext x) = TotalStake x.
Proof. by destruct ext. Qed.
Lemma stored_as_commission ext x : commission_ok x -> commission_ok (stored_as ext x).
Proof. by destruct ext. Qed.
Lemma stored_as_updated ext x : LastUpdated (stored_as ext x) = LastUpdated x.
Proof. by destruct ext. Qed.

Lemma state_inc_eq st : 0 <= Count st -> Count st + 1 < 2 ^ 32 -> state_inc st = mkState (RewardsPer1Stake st) (Count st + 1).
Proof. intros. unfold state_inc. by rewrite u32_small by lia. Qed.

(** The delegation of the caller becomes [z], its rewards are paid. *)
Definition a_changed (ctx : CallFrame) (A Ah : adpos) (v : Address) (now z : Z) (m : gmap (Address * Z) State) : adpos :=
  a_set_bal (claimed ctx Ah v)
    (a_set_del (put_delegation v (CallerAccount ctx) z now)
       (a_set_st (fun _ => drop_ref v (a_del A !! (v, CallerAccount ctx)) m) A)).

Lemma wp_raise {B} (k : () -> M CT B) Q E n pend now s A w ctx v x r r' st m z :
  rel n s (a_set_amount w (a_set_st (fun _ => m) A)) -> inv cfg now n pend A -> fetched now n pend A v x r r' st m -> 0 <= pend -> 0 <= z ->
  0 < stake_at A v (CallerAccount ctx) + z ->
  2 * n + 2 < 2 ^ 32 -> 0 <= n -> Account ctx = dpos_contract_address ->
  (forall s', rel (n + 1) s' (a_set_amount w (a_changed ctx A (held A v now x r' st m) v now (stake_at A v (CallerAccount ctx) + z) m)) ->
     wp (k tt) Q E s') ->
  wp (q ← (match a_del A !! (v, CallerAccount ctx) with
           | None => CreateDelegation (CallerAccount ctx) v now z
           | Some y => _ ← claim_delegation cfg ctx v st y;
                       ModifyDelegation (CallerAccount ctx) v (set_stake (d_Stake y + z) now)
           end); k q) Q E s.
Proof.
  intros Hs Hi Hf Hp Hz Hpos Hb Hn Ha Hk. unfold a_changed, put_delegation in Hk.
  rewrite (proj2 (Z.eqb_neq _ _)) in Hk by lia. unfold stake_at in Hk.
  destruct (a_del A !! (v, CallerAccount ctx)) as [y|] eqn:Hy; simpl in Hk.
  - apply wp_assoc. eapply wp_claim_delegation; [exact Hs|exact Hf|done..|]. intros s1 Hs1.
    eapply wp_ModifyDelegation; [exact Hs1|simpl; by eexists| |].
    + simpl. pose proof (iv_del _ _ _ _ _ Hi _ _ _ Hy). lia.
    + intros s2 Hs2. apply Hk. eapply rel_mono; [exact Hs2|lia].
  - eapply wp_CreateDelegation; [exact Hs|lia|done|lia|]. intros s1 Hs1. apply Hk.
    assert (claimed ctx (held A v now x r' st m) v = id) as ->; [|exact Hs1].
    unfold claimed, reward_due, accrued_at. simpl. rewrite Hy. simpl. by rewrite ?Zdiv_0_l.
Qed.

(** The state after a delegation to it was kept, or removed. *)
Definition state_ref (z : Z) (st : State) : State :=
  mkState (RewardsPer1Stake st) (Count st + (if z =? 0 then 0 else 1)).

Lemma wp_lower {B} (k : State -> M CT B) Q E n pend now s A w ctx v x r r' st m y z :
  rel n s (a_set_amount w (a_set_st (fun _ => m) A)) -> fetched now n pend A v x r r' st m -> 0 <= pend ->
  a_del A !! (v, CallerAccount ctx) = Some y -> 0 <= z ->
  2 * n + 3 < 2 ^ 32 -> Account ctx = dpos_contract_address ->
  (forall s', rel n s' (a_set_amount w (a_changed ctx A (held A v now x r' st m) v now z m)) -> wp (k (state_ref z st)) Q E s') ->
  wp (_ ← claim_delegation cfg ctx v st y;
      st' ← (if z =? 0 then _ ← RemoveDelegation (CallerAccount ctx) v; ret st
             else _ ← ModifyDelegation (CallerAccount ctx) v (set_stake z now); ret (state_inc st));
      k st') Q E s.
Proof.
  intros Hs Hf Hp Hy Hz Hb Ha Hk. unfold a_changed, put_delegation, state_ref in Hk. rewrite Hy in Hk.
  destruct (ft_st _ _ _ _ _ _ _ _ _ _ Hf) as [Hc _].
  eapply wp_claim_delegation; [exact Hs|exact Hf|done..|lia|done|done|]. intros s1 Hs1.
  destruct (Z.eqb_spec z 0) as [->|Hz0]; apply wp_assoc.
  - eapply wp_RemoveDelegation; [exact Hs1|simpl; by eexists|]. intros s2 Hs2. apply wp_bind_ret.
    rewrite Z.add_0_r in Hk. destruct st. by apply Hk.
  - eapply wp_ModifyDelegation; [exact Hs1|simpl; by eexists|simpl; lia|]. intros s2 Hs2. apply wp_bind_ret.
    rewrite state_inc_eq by lia. by apply Hk.
Qed.

(** A validator, its rewards and its state of the block, written back. *)
Definition written (v : Address) (now : Z) (st : State) (x : Validator) (r : ValidatorRewards) (A : adpos) : adpos :=
  a_set_rew (<[v := r]>) (a_set_val (<[v := x]>) (a_set_st (<[(v, now) := st]>) A)).

(** The votes of a validator go from those of [T] to those of [T'], and
    [delta] is added to the delegated amount. *)
Definition revoted (T T' delta : Z) (A : adpos) : adpos :=
  a_set_votes (a_votes A - votes cfg T + votes cfg T') (a_set_amount (a_amount A + delta) A).

(** The invariant after a delegation became [z] and everything was written
    back. *)
Lemma changed_inv now n pend A ctx v x r r' st m z (x' : Validator) :
  inv cfg now n pend A -> fetched now n pend A v x r r' st m -> a_val A !! v = Some x -> 0 <= n -> 0 <= pend ->
  0 <= z -> Account ctx = dpos_contract_address ->
  TotalStake x' = TotalStake x + (z - stake_at A v (CallerAccount ctx)) -> LastUpdated x' = now -> commission_ok x' ->
  let d := CallerAccount ctx in
  let Ah := held A v now x r' st m in
  inv cfg now (n + 2) (pend - (z - stake_at A v d))
    (written v now (state_ref z st) x' r'
       (revoted (TotalStake x) (TotalStake x') (z - stake_at A v d) (a_changed ctx A Ah v now z m))).
Proof.
  intros Hi Hf Hx Hn Hp Hz Ha HT HL Hcm d Ah.
  pose proof (touch_inv cfg now (n + 1) pend Ah (ft_inv _ _ _ _ _ _ _ _ _ _ Hf) v d (set_LastUpdated now x) x' st) as Ht.
  specialize (Ht ltac:(apply lookup_insert_eq) eq_refl ltac:(apply lookup_insert_eq) z Hz).
  change (stake_at Ah v d) with (stake_at A v d) in Ht.
  specialize (Ht HT HL Hcm (claimed ctx Ah v (a_bal A))
    (a_votes A - votes cfg (TotalStake x) + votes cfg (TotalStake x')) (a_amount A + (z - stake_at A v d)) ltac:(lia)).
  unfold Ah in Ht. rewrite touched_held in Ht.
  replace (n + 1 + 1) with (n + 2) in Ht by lia.
  apply Ht; [|done|done].
  apply (claimed_funds _ _ _ _ ctx v (ft_inv _ _ _ _ _ _ _ _ _ _ Hf) Hp Ha).
Qed.

(** The words the contract counts in do not overflow. *)
Lemma inv_words now n pend A F :
  inv cfg now n pend A -> 0 <= pend -> funds A <= F -> F < 2 ^ 256 ->
  F < 2 ^ 64 * VoteEligibilityBalanceStep dp ->
  0 <= a_amount A < 2 ^ 256 /\ 0 <= a_votes A < 2 ^ 64
  /\ forall v (x : Validator), a_val A !! v = Some x ->
       0 <= TotalStake x <= a_amount A /\ 0 <= votes cfg (TotalStake x) <= a_votes A.
Proof.
  intros Hi Hp HF H1' H2'. pose proof (funds_cover _ Hcfg _ _ _ _ Hi) as Hc.
  pose proof (pools_nonneg _ _ _ _ _ Hi). pose proof (undelegating_nonneg _ _ _ _ _ Hi).
  pose proof (total_nonneg _ _ _ _ _ Hi). pose proof (iv_amount _ _ _ _ _ Hi) as Ham.
  pose proof (cf_step _ Hcfg).
  assert (VoteEligibilityBalanceStep dp * a_votes A <= total_stake (a_del A)) as Hv.
  { rewrite (iv_votes _ _ _ _ _ Hi), <- msum_scale, <- (sum_stakes _ _ _ _ _ Hi). apply msum_le.
    intros v x Hx. apply votes_le; [done|]. by eapply stake_nonneg. }
  assert (0 <= a_votes A) as Hv0.
  { rewrite (iv_votes _ _ _ _ _ Hi). apply msum_nonneg. intros v x Hx. apply votes_nonneg; [done|].
    by eapply stake_nonneg. }
  split; [lia|]. split; [split; [done|]; nia|]. intros v x Hx. split.
  - pose proof (stake_of_le _ _ _ _ _ v Hi). pose proof (stake_nonneg _ _ _ _ _ _ _ Hi Hx).
    rewrite (iv_stake _ _ _ _ _ Hi _ _ Hx) in *. lia.
  - assert (funds_ok cfg A) as Hfo by (split; lia).
    by destruct (votes_bound _ Hcfg _ _ _ _ _ _ Hi Hfo Hp Hx) as [? _].
Qed.

(** ** The handlers *)

(** The contract's state is consistent at block [now], after at most [n]
    operations, with [pend] paid in for the call at hand. *)
Definition ok (now n pend : Z) (s : CT) : Prop := exists A, rel n s A /\ inv cfg now n pend A.

Definition balance (s : CT) : Z := balance_of s dpos_contract_address.

(** Room for another call: counters and words do not overflow. *)
Definition room (n : Z) (s : CT) : Prop :=
  0 <= n /\ n < 2 ^ 30 /\ balance s < 2 ^ 256 /\ balance s < 2 ^ 64 * VoteEligibilityBalanceStep dp.

(** After a call: consistent, with no more funds than before. *)
Definition ok_after (now n : Z) (s s' : CT) : Prop := ok now n 0 s' /\ balance s' <= balance s.

Lemma rel_balance n s A : rel n s A -> balance s = funds A.
Proof. by intros [_ <-]. Qed.

Lemma ok_mono now n n' pend s : ok now n pend s -> n <= n' -> ok now n' pend s.
Proof. intros (A & Hr & Hi) Hn. exists A. split; [by eapply rel_mono|by eapply inv_mono_n]. Qed.

Lemma rew_of now n pend A v (x : Validator) : inv cfg now n pend A -> a_val A !! v = Some x -> exists r, a_rew A !! v = Some r.
Proof. intros Hi Hx. apply (iv_rew _ _ _ _ _ Hi v). by eexists. Qed.

Lemma ok_after_intro now n s s' A :
  rel n s' A -> inv cfg now n 0 A -> funds A <= balance s -> ok_after now n s s'.
Proof. intros Hr Hi Hf. split; [by exists A|]. by rewrite (rel_balance _ _ _ Hr). Qed.

Lemma ok_after_log now n n' s s' A l E :
  rel n s' A -> n <= n' -> inv cfg now n' 0 A -> funds A <= balance s ->
  wp (AddLog l) (fun _ s'' => ok_after now n' s s'') E s'.
Proof.
  intros [HL HA] Hn Hi Hf. eapply (ok_after_intro _ _ _ _ A); [|done..].
  eapply rel_mono; [|done]. by split.
Qed.

(** Writing back a validator: the tail of the staking handlers. *)
Lemma wp_write_back {B} (k : () -> M CT B) Q E n s A v now (x' : Validator) r st ext :
  rel n s A -> is_Some (a_val A !! v) -> 0 <= RewardsPer1Stake st ->
  0 <= TotalStake x' -> 0 <= RewardsPool r -> 0 <= CommissionRewardsPool r ->
  (forall s', rel n s' (written v now st (stored_as ext x') r A) -> wp (k tt) Q E s') ->
  wp (a ← state_put v now (Some st); b ← ModifyValidator ext v x';
      c ← ModifyValidatorRewards v (Some r); k c) Q E s.
Proof.
  intros Hs Hv Hp HT Hr1 Hr2 Hk.
  eapply wp_state_put; [exact Hs|by intros ? [= <-]|]. intros s1 Hs1.
  eapply wp_ModifyValidator; [exact Hs1|done|done|]. intros s2 Hs2.
  eapply wp_ModifyValidatorRewards; [exact Hs2| |done|done|].
  { simpl. rewrite is_Some_insert_iff; done. }
  intros s3 Hs3. by apply Hk.
Qed.

Lemma wp_write_block {B} (k : () -> M CT B) Q E n s A v now (x' : Validator) r st ext :
  rel n s A -> is_Some (a_val A !! v) -> 0 <= RewardsPer1Stake st ->
  0 <= TotalStake x' -> 0 <= RewardsPool r -> 0 <= CommissionRewardsPool r ->
  (forall s', rel n s' (written v now st (stored_as ext x') r A) -> wp (k tt) Q E s') ->
  wp (c ← (_ ← state_put v now (Some st); _ ← ModifyValidator ext v x'; ModifyValidatorRewards v (Some r)); k c) Q E s.
Proof.
  intros Hs Hv Hp HT Hr1 Hr2 Hk. apply wp_assoc.
  eapply wp_state_put; [exact Hs|by intros ? [= <-]|]. intros s1 Hs1. apply wp_assoc.
  eapply wp_ModifyValidator; [exact Hs1|done|done|]. intros s2 Hs2.
  eapply wp_ModifyValidatorRewards; [exact Hs2| |done|done|].
  { simpl. rewrite is_Some_insert_iff; done. }
  intros s3 Hs3. by apply Hk.
Qed.

(** Votes and delegated amount follow a validator's stake. *)
Lemma wp_delegate_update_values {B} (k : Validator -> M CT B) Q E n s A ctx b (x : Validator) prev :
  rel n s A -> 0 <= Value ctx -> a_amount A + Value ctx < 2 ^ 256 -> 0 <= a_amount A ->
  0 <= TotalStake x + Value ctx -> 0 <= prev <= a_votes A -> a_votes A < 2 ^ 64 ->
  0 <= votes cfg (TotalStake x + Value ctx) -> a_votes A - prev + votes cfg (TotalStake x + Value ctx) < 2 ^ 64 ->
  (forall s', rel n s' (a_set_votes (a_votes A - prev + votes cfg (TotalStake x + Value ctx))
                          (a_set_amount (a_amount A + Value ctx) A)) ->
     wp (k (set_TotalStake (TotalStake x + Value ctx) x)) Q E s') ->
  wp (x' ← delegate_update_values cfg b ctx x prev; k x') Q E s.
Proof.
  intros Hs Hz Ha Ha0 HT Hp Hv Hv3 Hv4 Hk. unfold delegate_update_values. apply wp_assoc.
  eapply wp_add_amount; [exact Hs|done|done|done|]. intros s1 Hs1. apply wp_assoc.
  eapply wp_voteCount; [done|simpl; lia|]. apply wp_assoc.
  eapply wp_update_votes; [exact Hs1|simpl; lia|simpl; lia|simpl; lia|simpl; lia|]. intros s2 Hs2.
  apply wp_bind_ret. by apply Hk.
Qed.

Lemma state_inc_ref z st : 0 <= Count st -> Count st + 1 < 2 ^ 32 -> 0 < z -> state_inc st = state_ref z st.
Proof. intros. unfold state_ref. rewrite (proj2 (Z.eqb_neq _ _)) by lia. by apply state_inc_eq. Qed.

(** What a changed delegation leaves, with the bounds the words need. *)
Lemma changed_words now n pend A ctx v x r r' st m z delta (x' : Validator) :
  inv cfg now n pend A -> fetched now n pend A v x r r' st m -> a_val A !! v = Some x -> 0 <= n -> 0 <= pend ->
  delta = z - stake_at A v (CallerAccount ctx) -> delta <= pend ->
  0 <= z -> Account ctx = dpos_contract_address ->
  funds A < 2 ^ 256 -> funds A < 2 ^ 64 * VoteEligibilityBalanceStep dp ->
  TotalStake x' = TotalStake x + delta -> LastUpdated x' = now -> commission_ok x' ->
  let bal := claimed ctx (held A v now x r' st m) v (a_bal A) in
  inv cfg now (n + 2) (pend - delta)
    (written v now (state_ref z st) x' r'
       (revoted (TotalStake x) (TotalStake x') delta (a_changed ctx A (held A v now x r' st m) v now z m)))
  /\ default 0 (bal !! dpos_contract_address) <= funds A
  /\ (0 <= a_amount A < 2 ^ 256 /\ 0 <= a_amount A + delta < 2 ^ 256 /\ a_votes A < 2 ^ 64
      /\ 0 <= votes cfg (TotalStake x) <= a_votes A
      /\ 0 <= TotalStake x /\ 0 <= TotalStake x + delta /\ 0 <= votes cfg (TotalStake x')
      /\ a_votes A - votes cfg (TotalStake x) + votes cfg (TotalStake x') < 2 ^ 64)
  /\ 1 <= Count st <= 2 * (n + 1) /\ 0 <= RewardsPer1Stake st
  /\ 0 <= RewardsPool r' /\ 0 <= CommissionRewardsPool r'.
Proof.
  intros Hi Hf Hx Hn Hp -> Hdp Hz Ha Hf1 Hf2 HT HL Hcm bal.
  pose proof (changed_inv _ _ _ _ ctx v x r r' st m z x' Hi Hf Hx Hn ltac:(lia) Hz Ha HT HL Hcm) as Hfin.
  destruct (claimed_funds _ _ _ _ ctx v (ft_inv _ _ _ _ _ _ _ _ _ _ Hf) ltac:(lia) Ha) as [_ Hcf].
  destruct (inv_words _ _ _ _ (funds A) Hi ltac:(lia) ltac:(done) Hf1 Hf2) as (Ham & Hvt & Hall).
  destruct (Hall _ _ Hx) as [HT0 Hv0].
  destruct (inv_words _ _ _ _ (funds A) Hfin ltac:(lia) Hcf Hf1 Hf2) as (Ham2 & Hvt2 & Hall2).
  destruct (Hall2 v _ ltac:(apply lookup_insert_eq)) as [HT2 Hv2]. simpl in Ham2, Hvt2, Hv2, HT2.
  destruct (ft_st _ _ _ _ _ _ _ _ _ _ Hf) as [Hc Hr]. destruct (ft_pool _ _ _ _ _ _ _ _ _ _ Hf) as [Hp1 Hp2].
  split_and!; try done; lia.
Qed.

Lemma lookup_put_delegation v d z now m :
  put_delegation v d z now m !! (v, d) = if z =? 0 then None else Some (mkDelegation z now).
Proof. unfold put_delegation. case_match; [apply lookup_delete_eq|apply lookup_insert_eq]. Qed.

Lemma lookup_put_delegation_ne v d z now m k : k <> (v, d) -> put_delegation v d z now m !! k = m !! k.
Proof. intros. unfold put_delegation. case_match; [by rewrite lookup_delete_ne|by rewrite lookup_insert_ne]. Qed.

(** The effect of a changed delegation, whatever becomes of the votes and the
    amount delegated. *)
Lemma staked_written now n pend A ctx v (x x' : Validator) r r' r'' st m z delta st' A' :
  fetched now n pend A v x r r' st m -> a_val A !! v = Some x -> a_rew A !! v = Some r ->
  delta = z - stake_at A v (CallerAccount ctx) -> TotalStake x' = TotalStake x + delta ->
  a_val A' = <[v := x']> (a_val A) -> a_rew A' = <[v := r'']> (a_rew A) -> a_st A' = st' ->
  a_del A' = put_delegation v (CallerAccount ctx) z now (a_del A) ->
  a_bal A' = claimed ctx (held A v now x r' st m) v (a_bal A) ->
  staked ctx now A A' v delta.
Proof.
  intros Hf Hx Hr -> HT Hv' Hr' _ Hd' Hb'. split.
  - rewrite Hd', lookup_put_delegation. cbv zeta. by rewrite Zplus_minus.
  - intros k Hk. by rewrite Hd', lookup_put_delegation_ne.
  - rewrite Hv', lookup_insert_eq, Hx. done.
  - intros v' Hne. by rewrite Hv', Hr', !lookup_insert_ne.
  - rewrite Hb'. by erewrite claimed_pending.
Qed.

Lemma staked_deleted now n pend A ctx v (x : Validator) r r' st m z delta A' :
  fetched now n pend A v x r r' st m -> a_val A !! v = Some x -> a_rew A !! v = Some r ->
  delta = z - stake_at A v (CallerAccount ctx) -> TotalStake x + delta = 0 ->
  a_val A' = delete v (a_val A) -> a_rew A' = delete v (a_rew A) ->
  a_del A' = put_delegation v (CallerAccount ctx) z now (a_del A) ->
  a_bal A' = claimed ctx (held A v now x r' st m) v (a_bal A) ->
  staked ctx now A A' v delta.
Proof.
  intros Hf Hx Hr -> HT Hv' Hr' Hd' Hb'. split.
  - rewrite Hd', lookup_put_delegation. cbv zeta. by rewrite Zplus_minus.
  - intros k Hk. by rewrite Hd', lookup_put_delegation_ne.
  - rewrite Hv', lookup_delete_eq, Hx. simpl. lia.
  - intros v' Hne. by rewrite Hv', Hr', !lookup_delete_ne.
  - rewrite Hb'. by erewrite claimed_pending.
Qed.

(** [ok_after], and what the call did. *)
Definition ok_did (now n : Z) (s : CT) (P : adpos -> Prop) (s' : CT) : Prop := ok_after now n s s' /\ P (abs s').

Lemma ok_did_intro now n n' s s' A (P : adpos -> Prop) :
  rel n s' A -> n <= n' -> inv cfg now n' 0 A -> funds A <= balance s -> P A -> ok_did now n' s P s'.
Proof.
  intros Hr Hn Hi Hf HP. split; [eapply ok_after_intro; [by eapply rel_mono|done|done]|]. by destruct Hr as [_ ->].
Qed.

Lemma ok_did_log now n n' s s' A l E (P : adpos -> Prop) :
  rel n s' A -> n <= n' -> inv cfg now n' 0 A -> funds A <= balance s -> P A ->
  wp (AddLog l) (fun _ s'' => ok_did now n' s P s'') E s'.
Proof. intros [HL HA] Hn Hi Hf HP. eapply (ok_did_intro _ n _ _ _ A); done. Qed.

Lemma did_safe {X} (m : M CT X) now n s P E s0 :
  wp m (fun a s' => ok_did now n s (P a) s') E s0 -> wp m (fun _ s' => ok_after now n s s') E s0.
Proof. intros Hm. eapply wp_mono; [exact Hm| |done]. by intros a s' [? _]. Qed.

Lemma did_safe_err {X} (m : M CT X) now n s P (E : string -> Prop) :
  wp m (fun a s' => ok_did now n s (P a) s') (fun e s' => s' = s /\ E e) s ->
  wp m (fun _ s' => ok_after now n s s') (fun _ s' => s' = s) s.
Proof. intros Hm. eapply wp_mono; [exact Hm|by intros a s' [? _]|by intros e s' [? _]]. Qed.

(** The undelegations did not change. *)
Definition same_undelegations (A A' : adpos) : Prop := a_u1 A' = a_u1 A /\ a_u2 A' = a_u2 A.

(** The error a delegation of [value] is refused with. *)
Definition delegate_refused (A : adpos) (v d : Address) (value : Z) : option string :=
  match (a_val A !! v : option Validator) with
  | None => Some ErrNonExistentValidator
  | Some x =>
      if MAX <? value + TotalStake x then Some ErrValidatorsMaxStakeExceeded
      else if bool_decide (a_del A !! (v, d) = None) && (value <? MinimumDeposit dp)
      then Some ErrInsufficientDelegation else None
  end.

Lemma delegate_spec now evm_block n s ctx v :
  ok now n (Value ctx) s -> room n s -> 0 <= Value ctx -> Account ctx = dpos_contract_address ->
  wp (delegate cfg evm_block ctx now v)
    (fun _ => ok_did now (n + 2) s (fun A' => delegate_refused (abs s) v (CallerAccount ctx) (Value ctx) = None
       /\ staked ctx now (abs s) A' v (Value ctx) /\ same_undelegations (abs s) A'))
    (fun e s' => s' = s /\ delegate_refused (abs s) v (CallerAccount ctx) (Value ctx) = Some e) s.
Proof.
  intros (A & Hs & Hi) (Hn & Hn2 & Hf1 & Hf2) Hval Ha. pose proof (rel_balance _ _ _ Hs) as Hbal. rewrite Hbal in *.
  rewrite (proj2 Hs). unfold delegate_refused. unfold delegate. eapply wp_GetValidator; [done|].
  destruct (a_val A !! v) as [x|] eqn:Hx; [|done]. destruct (rew_of _ _ _ _ _ _ Hi Hx) as [r Hr].
  eapply wp_GetValidatorRewards; [done|]. rewrite Hr.
  destruct (MAX <? Value ctx + TotalStake x); [done|].
  eapply wp_GetDelegation; [done|].
  destruct (bool_decide (a_del A !! (v, CallerAccount ctx) = None) && (Value ctx <? MinimumDeposit dp)) eqn:Em; [done|].
  assert (0 < stake_at A v (CallerAccount ctx) + Value ctx) as Hpos.
  { unfold stake_at. destruct (a_del A !! (v, CallerAccount ctx)) as [y|] eqn:Hy; simpl in *.
    - pose proof (iv_del _ _ _ _ _ Hi _ _ _ Hy). lia.
    - zbool. pose proof (cf_deposit _ Hcfg). lia. }
  eapply wp_current_state; [exact (rel_amount _ _ _ Hs)|done|lia|lia|done|done|]. intros s1 st r' m Hs1 Hf.
  destruct (changed_words _ _ _ _ ctx v x r r' st m (stake_at A v (CallerAccount ctx) + Value ctx) (Value ctx)
    (stored_as (IsOnMagnoliaHardfork (Hardforks cfg) now) (set_TotalStake (TotalStake x + Value ctx) (set_LastUpdated now x)))
    Hi Hf Hx Hn Hval ltac:(lia) ltac:(lia) ltac:(lia) Ha Hf1 Hf2 (stored_as_stake _ _) (stored_as_updated _ _)
    ltac:(apply stored_as_commission; exact (iv_comm _ _ _ _ _ Hi _ _ Hx)))
    as (Hfin & Hcf & Hw & Hc).
  rewrite stored_as_stake in *. simpl in Hw. replace (Value ctx - Value ctx) with 0 in Hfin by lia.
  eapply wp_voteCount; [simpl; lia|simpl; lia|].
  eapply wp_raise; [exact Hs1|done|exact Hf|done|done|done|lia|lia|done|]. intros s2 Hs2.
  eapply wp_delegate_update_values; [exact Hs2|simpl; lia..|]. intros s3 Hs3.
  rewrite (state_inc_ref (stake_at A v (CallerAccount ctx) + Value ctx)) by lia.
  eapply wp_write_back; [exact Hs3|simpl; by eexists|simpl; lia|simpl; lia|lia|lia|]. intros s4 Hs4.
  eapply ok_did_log; [exact Hs4|lia|exact Hfin|rewrite Hbal; exact Hcf|]. split; [done|]. split; [|done].
  eapply staked_written; [exact Hf|exact Hx|exact Hr| | |reflexivity..]; [lia|by rewrite stored_as_stake].
Qed.

Lemma delegate_safe now evm_block n s ctx v :
  ok now n (Value ctx) s -> room n s -> 0 <= Value ctx -> Account ctx = dpos_contract_address ->
  wp (delegate cfg evm_block ctx now v) (fun _ s' => ok_after now (n + 2) s s') (fun _ s' => s' = s) s.
Proof. intros. eapply (did_safe_err _ _ _ _ (fun _ => _)). by apply delegate_spec. Qed.

(** A new undelegation of [d] from [v]; the second version has a fresh id. *)
Definition undelegated (A A' : adpos) (v d : Address) (v2 : bool) (u : UndelegationV1) (id : Z) : Prop :=
  if v2 then
    (forall v', a_u2 A !! (d, v', id) = None) /\ 0 < id < 2 ^ 64
    /\ a_u2 A' = <[(d, v, id) := mkUndelegationV2 u id]> (a_u2 A) /\ a_u1 A' = a_u1 A
  else a_u1 A !! (v, d) = None /\ a_u1 A' = <[(v, d) := u]> (a_u1 A) /\ a_u2 A' = a_u2 A.

(** The undelegation request at the end of [undelegate]. *)
Lemma wp_create_undelegation now n s0 s A0 A ctx v b amount v2 E (P : adpos -> Prop) :
  rel n s A -> same_undelegations A0 A -> inv cfg now (n + 1) amount A -> n + 1 < 2 ^ 32 -> 0 < amount -> funds A <= balance s0 ->
  (v2 = false -> a_u1 A0 !! (v, CallerAccount ctx) = None) ->
  (forall f g, P (a_set_u1 f (a_set_u2 g A))) ->
  wp (create_undelegation v2 ctx v b amount)
    (fun id => ok_did now (n + 1) s0 (fun A' => P A'
       /\ undelegated A0 A' v (CallerAccount ctx) v2 (mkUndelegationV1 amount b) id)) E s.
Proof.
  intros Hs [Hsu1 Hsu2] Hi Hn Ha Hf Hv1 HP. unfold undelegated. rewrite <- Hsu1, <- Hsu2 in *. unfold create_undelegation. destruct v2.
  - eapply wp_CreateUndelegationV2; [exact Hs|lia|lia|]. intros i s1 Hnew Hir Hs1.
    eapply wp_AddLog; [exact Hs1|]. intros s2 Hs2. apply wp_ret. eapply ok_did_intro; [exact Hs2|lia| |exact Hf|].
    + replace 0 with (amount - amount) by lia. by apply (inv_add_u2 _ _ _ _ _ Hi (CallerAccount ctx, v, i) (mkUndelegationV2 (mkUndelegationV1 amount b) i)).
    + split; [exact (HP id _)|]. done.
  - eapply wp_CreateUndelegationV1; [exact Hs|lia|by apply Hv1|lia|]. intros s1 Hs1.
    eapply wp_AddLog; [exact Hs1|]. intros s2 Hs2. apply wp_ret. eapply ok_did_intro; [exact Hs2|lia| |exact Hf|].
    + replace 0 with (amount - amount) by lia.
      apply (inv_add_u1 _ _ _ _ _ Hi (v, CallerAccount ctx) (mkUndelegationV1 amount b)); [by apply Hv1|done].
    + split; [exact (HP _ id)|]. split; [by apply Hv1|done].
Qed.

(** A deleted validator leaves no trace of having been written back. *)
Lemma deleted_inv now n pend v (x : Validator) r st A :
  inv cfg now n pend (written v now st x r A) ->
  TotalStake x = 0 ->
  inv cfg now n pend (a_set_st (mput (v, now) None) (a_set_rew (delete v) (a_set_val (delete v) A))).
Proof.
  intros Hi HT. pose proof (inv_delete cfg Hcfg now n pend _ Hi v x (delete (v, now)) pend) as Hd.
  simpl in Hd. specialize (Hd ltac:(apply lookup_insert_eq) HT).
  specialize (Hd ltac:(intros r0 Hr0; pose proof (iv_pools _ _ _ _ _ Hi _ _ Hr0); lia)).
  unfold written, a_set_st, a_set_rew, a_set_val in *. simpl in *. rewrite !delete_insert_eq in Hd. apply Hd.
  - intros v' b Hne. by rewrite lookup_delete_ne, lookup_insert_ne by congruence.
  - intros b s1 [Hne Hs1]%lookup_delete_Some. exists s1. rewrite lookup_insert_ne by congruence.
    split_and!; [done|done| |lia]. apply (iv_st _ _ _ _ _ Hi v b s1). simpl. by rewrite lookup_insert_ne by congruence.
Qed.

Lemma wp_no_v1 {B} (k : bool -> M CT B) Q E n s A d v (v2 : bool) :
  rel n s A -> wp (k (if v2 then false else bool_decide (is_Some (a_u1 A !! (v, d))))) Q E s ->
  wp (e ← (if v2 then ret false else UndelegationV1Exists d v); k e) Q E s.
Proof.
  intros Hs Hk. destruct v2; [done|]. by apply (wp_UndelegationExists k Q E n s A d v None).
Qed.

(** The error taking [amount] back from a delegation is refused with. *)
Definition reduce_refused (A : adpos) (v d : Address) (amount : Z) : option string :=
  match a_del A !! (v, d) with
  | None => Some ErrNonExistentDelegation
  | Some y =>
      if d_Stake y <? amount then Some ErrInsufficientDelegation
      else if negb (d_Stake y =? amount) && (d_Stake y - amount <? MinimumDeposit dp)
      then Some ErrInsufficientDelegation else None
  end.

Definition undelegate_refused (A : adpos) (v d : Address) (amount : Z) (v2 : bool) : option string :=
  if (if v2 then false else bool_decide (is_Some (a_u1 A !! (v, d)))) then Some ErrExistentUndelegation
  else match a_val A !! v with
       | None => Some ErrNonExistentValidator
       | Some _ => reduce_refused A v d amount
       end.

Lemma undelegate_spec now n s ctx v amount v2 :
  ok now n 0 s -> room n s -> 0 < amount -> Account ctx = dpos_contract_address ->
  wp (undelegate cfg ctx now v amount v2)
    (fun id => ok_did now (n + 3) s (fun A' => (undelegate_refused (abs s) v (CallerAccount ctx) amount v2 = None
       /\ staked ctx now (abs s) A' v (- amount))
       /\ undelegated (abs s) A' v (CallerAccount ctx) v2 (mkUndelegationV1 amount (u64 (now + locking_period cfg now))) id))
    (fun e s' => s' = s /\ undelegate_refused (abs s) v (CallerAccount ctx) amount v2 = Some e) s.
Proof.
  intros (A & Hs & Hi) (Hn & Hn2 & Hf1 & Hf2) Hamt Ha. pose proof (rel_balance _ _ _ Hs) as Hbal. rewrite Hbal in *.
  rewrite (proj2 Hs). unfold undelegate_refused, reduce_refused. unfold undelegate. eapply wp_no_v1; [done|].
  destruct (if v2 then false else _) eqn:Hv1; [done|].
  eapply wp_GetValidator; [done|].
  destruct (a_val A !! v) as [x|] eqn:Hx; [|done]. destruct (rew_of _ _ _ _ _ _ Hi Hx) as [r Hr].
  eapply wp_GetValidatorRewards; [done|]. rewrite Hr.
  eapply wp_GetDelegation; [done|]. destruct (a_del A !! (v, CallerAccount ctx)) as [y|] eqn:Hy; [|done].
  destruct (Z.ltb_spec (d_Stake y) amount) as [|Hle]; [done|].
  destruct (negb (d_Stake y =? amount) && (d_Stake y - amount <? MinimumDeposit dp)); [done|].
  destruct (inv_words _ _ _ _ (funds A) Hi ltac:(lia) ltac:(done) Hf1 Hf2) as (Ham & Hvt & Hall).
  destruct (Hall _ _ Hx) as [HT0 Hv0].
  eapply wp_voteCount; [lia|lia|].
  eapply wp_current_state; [exact (rel_amount _ _ _ Hs)|done|lia|lia|done|done|]. intros s1 st r' m Hs1 Hf.
  set (x' := set_UndelegationsCount (u16 (UndelegationsCount (set_LastUpdated now x) + 1))
               (set_TotalStake (TotalStake (set_LastUpdated now x) - amount) (set_LastUpdated now x))).
  assert (TotalStake x' = TotalStake x - amount /\ LastUpdated x' = now /\ commission_ok x') as (HT' & HL' & HC')
    by (split_and!; [done|done|exact (iv_comm _ _ _ _ _ Hi _ _ Hx)]). clearbody x'.
  assert (stake_at A v (CallerAccount ctx) = d_Stake y) as Hst by (unfold stake_at; by rewrite Hy).
  destruct (changed_words _ _ _ _ ctx v x r r' st m (d_Stake y - amount) (- amount)
    (stored_as (IsOnMagnoliaHardfork (Hardforks cfg) now) x')
    Hi Hf Hx Hn ltac:(lia) ltac:(lia) ltac:(lia) ltac:(lia) Ha Hf1 Hf2) as (Hfin & Hcf & Hw & Hc).
  { rewrite stored_as_stake. lia. }
  { by rewrite stored_as_updated. }
  { by apply stored_as_commission. }
  rewrite stored_as_stake in *.
  eapply wp_lower; [exact Hs1|exact Hf|done|done|lia|lia|done|]. intros s2 Hs2.
  eapply wp_sub_amount; [exact Hs2|simpl; lia|simpl; lia|]. intros s3 Hs3.
  eapply wp_voteCount; [lia|simpl; lia|].
  eapply wp_update_votes; [exact Hs3|simpl; lia|simpl; lia|simpl; lia|simpl; lia|]. intros s4 Hs4.
  replace (0 - - amount) with amount in Hfin by lia. unfold revoted in Hfin. rewrite Z.add_opp_r in Hfin.
  replace (n + 3) with (n + 2 + 1) by lia.
  eapply (wp_bind_done _ _ _ _ _ (negb (IsOnMagnoliaHardfork (Hardforks cfg) now) && (TotalStake x' =? 0) && (CommissionRewardsPool r' =? 0))).
  { by destruct (negb _ && _). }
  destruct (negb (IsOnMagnoliaHardfork (Hardforks cfg) now) && (TotalStake x' =? 0) && (CommissionRewardsPool r' =? 0)) eqn:Em.
  - zbool. apply wp_assoc. eapply wp_DeleteValidator; [exact Hs4|simpl; by eexists|]. intros s5 Hs5.
    eapply wp_state_put; [exact Hs5|done|]. intros s6 Hs6.
    eapply (wp_create_undelegation _ (n + 2)); [eapply rel_mono; [exact Hs6|lia]|done| |lia|done|rewrite Hbal; exact Hcf| |].
    + eapply inv_mono_n; [eapply deleted_inv; [exact Hfin|by rewrite stored_as_stake]|lia].
    + intros ->. by apply bool_decide_eq_false, eq_None_not_Some in Hv1.
    + intros f g. split; [done|]. eapply staked_deleted; [exact Hf|exact Hx|exact Hr| | |reflexivity..]; lia.
  - eapply wp_write_block; [exact Hs4|simpl; by eexists|simpl; lia|lia|lia|lia|]. intros s5 Hs5.
    eapply (wp_create_undelegation _ (n + 2)); [eapply rel_mono; [exact Hs5|lia]|done| |lia|done|rewrite Hbal; exact Hcf| |].
    + eapply inv_mono_n; [exact Hfin|lia].
    + intros ->. by apply bool_decide_eq_false, eq_None_not_Some in Hv1.
    + intros f g. split; [done|]. eapply staked_written; [exact Hf|exact Hx|exact Hr| | |reflexivity..]; [lia|rewrite stored_as_stake; lia].
Qed.

Lemma undelegate_safe now n s ctx v amount v2 :
  ok now n 0 s -> room n s -> 0 < amount -> Account ctx = dpos_contract_address ->
  wp (undelegate cfg ctx now v amount v2) (fun _ s' => ok_after now (n + 3) s s') (fun _ s' => s' = s) s.
Proof. intros. eapply did_safe_err. by apply undelegate_spec. Qed.

(** Removing a validator nobody has staked for, and its last state. *)
Lemma wp_retire {B} (k : () -> M CT B) Q E now n pend pend' s A v (x : Validator) :
  rel n s A -> inv cfg now n pend A -> 2 * n < 2 ^ 32 -> a_val A !! v = Some x -> TotalStake x = 0 ->
  (forall r, a_rew A !! v = Some r -> pend' <= pend + CommissionRewardsPool r) ->
  (forall s', let A' := a_set_st (dec (v, LastUpdated x)) (a_set_rew (delete v) (a_set_val (delete v) A)) in
     rel n s' A' -> inv cfg now n pend' A' -> wp (k tt) Q E s') ->
  wp (c ← (_ ← DeleteValidator v; _ ← state_get_and_decrement v (LastUpdated x); ret tt); k c) Q E s.
Proof.
  intros Hs Hi Hn Hx HT Hpd Hk. destruct (settle_old_state cfg now n pend A Hi v x Hx) as (st & Hst & Hc & Hr).
  pose proof (iv_st _ _ _ _ _ Hi _ _ _ Hst) as [Hc2 _].
  apply wp_assoc. eapply wp_DeleteValidator; [exact Hs|by eexists|]. intros s1 Hs1. apply wp_assoc.
  eapply wp_decrement; [exact Hs1|exact Hst|lia|done|]. intros s2 Hs2. apply wp_bind_ret. apply Hk; [done|].
  eapply inv_delete; [done|exact Hi|exact Hx|done|done| |].
  - intros v' b Hne. apply lookup_dec_ne. congruence.
  - intros b s0 Hs0. apply dec_Some in Hs0 as (s3 & Hs3 & HR & HC & Hd). exists s3.
    pose proof (iv_st _ _ _ _ _ Hi _ _ _ Hs3). split_and!; [done|done| |]; case_decide as Hb; try lia.
    specialize (Hd Hb). lia.
Qed.

Lemma drop_undelegation_same (x : Validator) :
  TotalStake (drop_undelegation x) = TotalStake x /\ LastUpdated (drop_undelegation x) = LastUpdated x
  /\ (commission_ok x -> commission_ok (drop_undelegation x)).
Proof. unfold drop_undelegation. by case_match. Qed.

(** The part of [confirmUndelegate] that looks after the validator. *)
Lemma wp_confirm_validator {B} (k : () -> M CT B) Q E now n pend s A v :
  rel n s A -> inv cfg now n pend A -> 2 * n < 2 ^ 32 ->
  (forall s' A', rel n s' A' -> inv cfg now n pend A' -> a_bal A' = a_bal A -> same_undelegations A A' -> a_del A' = a_del A ->
     wp (k tt) Q E s') ->
  wp (c ← (if IsOnMagnoliaHardfork (Hardforks cfg) now then
         o ← GetValidator v;
         match o with
         | None => ret tt
         | Some x =>
             let validator := drop_undelegation x in
             validator_rewards ← GetValidatorRewards v;
             delete ← (if (UndelegationsCount validator =? 0) && (TotalStake validator =? 0) then
                         rewards ← deref validator_rewards; ret (CommissionRewardsPool rewards =? 0)
                       else ret false);
             if delete : bool then
               _ ← DeleteValidator v;
               _ ← state_get_and_decrement v (LastUpdated validator);
               ret tt
             else
               when (IsOnFicusHardfork (Hardforks cfg) now)
                 (ModifyValidator (IsOnMagnoliaHardfork (Hardforks cfg) now) v validator)
         end
       else ret tt); k c) Q E s.
Proof.
  intros Hs Hi Hn Hk. destruct (IsOnMagnoliaHardfork (Hardforks cfg) now); [|by eapply Hk].
  apply wp_assoc. eapply wp_GetValidator; [exact Hs|].
  destruct (a_val A !! v) as [x|] eqn:Hx; [|by eapply Hk]. destruct (rew_of _ _ _ _ _ _ Hi Hx) as [r Hr].
  cbv zeta. apply wp_assoc. eapply wp_GetValidatorRewards; [exact Hs|]. rewrite Hr. apply wp_assoc.
  destruct (drop_undelegation_same x) as (HT & HL & HC). pose proof (stake_nonneg _ _ _ _ _ _ _ Hi Hx) as Hnn.
  eapply (wp_bind_done _ _ _ _ _ ((UndelegationsCount (drop_undelegation x) =? 0) && (TotalStake (drop_undelegation x) =? 0)
    && (CommissionRewardsPool r =? 0))).
  { by destruct (_ && _). }
  destruct ((UndelegationsCount (drop_undelegation x) =? 0) && _ && _) eqn:Em.
  - zbool. rewrite HL. eapply (wp_retire _ _ _ _ _ _ pend); [done|done|done|done|lia| |].
    { intros r0 Hr0. pose proof (iv_pools _ _ _ _ _ Hi _ _ Hr0). lia. }
    intros s1 A' Hs1 Hi1. by eapply Hk.
  - unfold when. destruct (IsOnFicusHardfork (Hardforks cfg) now); [|by eapply Hk].
    eapply wp_ModifyValidator; [exact Hs|by eexists|lia|]. intros s1 Hs1. eapply Hk; [exact Hs1| |done..].
    eapply inv_same_val; [exact Hi|exact Hx|..]; rewrite ?stored_as_stake, ?stored_as_updated; try done;
      apply stored_as_commission, HC; exact (iv_comm _ _ _ _ _ Hi _ _ Hx).
Qed.

Lemma paid_inv now n pend A ctx z :
  inv cfg now n pend A -> 0 <= z -> Account ctx = dpos_contract_address ->
  inv cfg now n (pend - z) (a_set_bal (paid ctx z) A)
  /\ funds (a_set_bal (paid ctx z) A) <= funds A.
Proof.
  intros Hi Hz Ha. pose proof (paid_contract ctx z (a_bal A) Hz Ha) as Hp. unfold funds. simpl. split; [|lia].
  eapply inv_bal; [done|]. pose proof (cf_max _ Hcfg). unfold funds. nia.
Qed.

Definition confirm_refused (A : adpos) (now : Z) (v d : Address) (id : option Z) : option string :=
  match a_undel A d v id with
  | None => Some ErrNonExistentUndelegation
  | Some u => if now <? u_Block u then Some ErrLockedUndelegation else None
  end.

Lemma confirmUndelegate_spec now n s ctx v id :
  ok now n 0 s -> room n s -> id_ok id -> Account ctx = dpos_contract_address ->
  wp (confirmUndelegate cfg ctx now v id)
    (fun _ => ok_did now n s (fun A' => exists u, a_undel (abs s) (CallerAccount ctx) v id = Some u /\ u_Block u <= now
       /\ same_undelegations (a_drop_undel (CallerAccount ctx) v id (abs s)) A' /\ a_del A' = a_del (abs s)
       /\ a_bal A' = paid ctx (u_Amount u) (a_bal (abs s))))
    (fun e s' => s' = s /\ confirm_refused (abs s) now v (CallerAccount ctx) id = Some e) s.
Proof.
  intros (A & Hs & Hi) (Hn & Hn2 & Hf1 & Hf2) Hid Ha. pose proof (rel_balance _ _ _ Hs) as Hbal. rewrite Hbal in *.
  rewrite (proj2 Hs). unfold confirm_refused.
  unfold confirmUndelegate. eapply wp_UndelegationExists; [done|done|].
  destruct (a_undel A (CallerAccount ctx) v id) as [u|] eqn:Hu; [|done]. simpl.
  eapply wp_GetUndelegationBaseObject; [done|]. rewrite Hu. eapply wp_deref.
  destruct (Z.ltb_spec now (u_Block u)) as [|Hlock]; [done|].
  eapply wp_RemoveUndelegation; [done|done|by eexists|]. intros s1 Hs1.
  pose proof (inv_drop_undel cfg _ _ _ _ Hi _ _ _ _ Hu) as Hi1.
  pose proof (undel_pos cfg _ _ _ _ Hi _ _ _ _ Hu) as Hpos.
  assert (funds (a_drop_undel (CallerAccount ctx) v id A) = funds A) as Hfu by (by destruct id).
  eapply wp_confirm_validator; [exact Hs1|exact Hi1|lia|]. intros s2 A2 Hs2 Hi2 Hb2 Hu2 Hd2.
  assert (funds A2 = funds A) as Hf by (rewrite <- Hfu; unfold funds; by rewrite Hb2).
  pose proof (funds_cover _ Hcfg _ _ _ _ Hi2) as Hc. pose proof (pools_nonneg _ _ _ _ _ Hi2).
  pose proof (undelegating_nonneg _ _ _ _ _ Hi2). pose proof (total_nonneg _ _ _ _ _ Hi2).
  eapply wp_transfer; [exact Hs2|done|lia|]. intros s3 Hs3.
  destruct (paid_inv _ _ _ _ ctx (u_Amount u) Hi2 ltac:(lia) Ha) as [Hi3 Hf3].
  replace (0 + u_Amount u - u_Amount u) with 0 in Hi3 by lia.
  eapply ok_did_log; [exact Hs3|lia|exact Hi3|lia|].
  exists u. split; [done|]. split; [done|]. split; [exact Hu2|].
  split; simpl; [rewrite Hd2|rewrite Hb2]; by destruct id.
Qed.

Lemma confirmUndelegate_safe now n s ctx v id :
  ok now n 0 s -> room n s -> id_ok id -> Account ctx = dpos_contract_address ->
  wp (confirmUndelegate cfg ctx now v id) (fun _ s' => ok_after now n s s') (fun _ s' => s' = s) s.
Proof. intros. eapply (did_safe_err _ _ _ _ (fun _ => _)). by apply confirmUndelegate_spec. Qed.

Lemma wp_increase {B} (k : () -> M CT B) Q E n pend now s A w ctx v x r r' st m z :
  rel n s (a_set_amount w (a_set_st (fun _ => m) A)) -> inv cfg now n pend A -> fetched now n pend A v x r r' st m -> 0 <= pend -> 0 < z ->
  2 * n + 2 < 2 ^ 32 -> 0 <= n -> Account ctx = dpos_contract_address ->
  (forall s', rel (n + 1) s' (a_set_amount w (a_changed ctx A (held A v now x r' st m) v now (stake_at A v (CallerAccount ctx) + z) m)) ->
     wp (k tt) Q E s') ->
  wp (q ← increase_delegation cfg ctx now v st z; k q) Q E s.
Proof.
  intros Hs Hi Hf Hp Hz Hb Hn Ha Hk. unfold increase_delegation. apply wp_assoc.
  eapply wp_GetDelegation; [exact Hs|]. change (a_del (a_set_amount w (a_set_st (fun _ => m) A))) with (a_del A).
  eapply wp_raise; try done; [lia|].
  unfold stake_at. destruct (a_del A !! (v, CallerAccount ctx)) as [y|] eqn:Hy; simpl; [|lia].
  pose proof (iv_del _ _ _ _ _ Hi _ _ _ Hy). lia.
Qed.

Lemma stake_at_nonneg now n pend A v d : inv cfg now n pend A -> 0 <= stake_at A v d.
Proof.
  intros Hi. unfold stake_at. destruct (a_del A !! (v, d)) as [y|] eqn:Hy; simpl; [|lia].
  pose proof (iv_del _ _ _ _ _ Hi _ _ _ Hy). lia.
Qed.

Definition cancel_refused (A : adpos) (v d : Address) (id : option Z) : option string :=
  match a_undel A d v id, a_val A !! v with
  | None, _ => Some ErrNonExistentUndelegation
  | Some _, None => Some ErrNonExistentValidator
  | Some _, Some _ => None
  end.

Lemma cancelUndelegate_spec now n s ctx v id :
  ok now n 0 s -> room n s -> id_ok id -> Account ctx = dpos_contract_address ->
  wp (cancelUndelegate cfg ctx now v id)
    (fun _ => ok_did now (n + 2) s (fun A' => exists u, a_undel (abs s) (CallerAccount ctx) v id = Some u
       /\ staked ctx now (abs s) A' v (u_Amount u)
       /\ same_undelegations (a_drop_undel (CallerAccount ctx) v id (abs s)) A'))
    (fun e s' => s' = s /\ cancel_refused (abs s) v (CallerAccount ctx) id = Some e) s.
Proof.
  intros (A & Hs & Hi) (Hn & Hn2 & Hf1 & Hf2) Hid Ha. pose proof (rel_balance _ _ _ Hs) as Hbal. rewrite Hbal in *.
  rewrite (proj2 Hs). unfold cancel_refused.
  unfold cancelUndelegate. eapply wp_UndelegationExists; [done|done|].
  destruct (a_undel A (CallerAccount ctx) v id) as [u|] eqn:Hu; [|done]. simpl.
  eapply wp_GetValidator; [done|].
  destruct (a_val A !! v) as [x|] eqn:Hx; [|done]. destruct (rew_of _ _ _ _ _ _ Hi Hx) as [r Hr].
  eapply wp_GetValidatorRewards; [done|]. rewrite Hr.
  destruct (inv_words _ _ _ _ (funds A) Hi ltac:(lia) ltac:(done) Hf1 Hf2) as (_ & Hvt & Hall).
  destruct (Hall _ _ Hx) as [HT0 Hv0].
  eapply wp_voteCount; [lia|lia|].
  eapply wp_GetUndelegationBaseObject; [done|].
  eapply wp_RemoveUndelegation; [done|done|by eexists|]. intros s1 Hs1.
  pose proof (inv_drop_undel cfg _ _ _ _ Hi _ _ _ _ Hu) as Hi1.
  pose proof (undel_pos cfg _ _ _ _ Hi _ _ _ _ Hu) as Hpos.
  set (A1 := a_drop_undel (CallerAccount ctx) v id A) in *.
  assert (forall A', staked ctx now A1 A' v (u_Amount u) -> staked ctx now A A' v (u_Amount u)) as Hback.
  { intros A' Hst. destruct Hst. by destruct id. }
  assert (a_val A1 !! v = Some x /\ a_rew A1 !! v = Some r /\ funds A1 = funds A) as (Hx1 & Hr1 & Hfu) by (by destruct id).
  clearbody A1. rewrite <- Hfu in *.
  eapply wp_current_state; [exact (rel_amount _ _ _ Hs1)|exact Hi1|lia|lia|done|done|]. intros s2 st r' m Hs2 Hf.
  rewrite Hu. eapply wp_deref.
  eapply wp_increase; [exact Hs2|exact Hi1|exact Hf|lia|done|lia|lia|done|]. intros s3 Hs3.
  set (x' := drop_undelegation _).
  assert (TotalStake x' = TotalStake x + u_Amount u /\ LastUpdated x' = now /\ commission_ok x') as (HT' & HL' & HC').
  { unfold x'. destruct (drop_undelegation_same (set_TotalStake (TotalStake (set_LastUpdated now x) + u_Amount u)
      (set_LastUpdated now x))) as (-> & -> & Hc). split_and!; [done|done|]. apply Hc, (iv_comm _ _ _ _ _ Hi1 _ _ Hx1). }
  clearbody x'. pose proof (stake_at_nonneg _ _ _ _ v (CallerAccount ctx) Hi1).
  destruct (changed_words _ _ _ _ ctx v x r r' st m (stake_at A1 v (CallerAccount ctx) + u_Amount u) (u_Amount u)
    (stored_as (IsOnMagnoliaHardfork (Hardforks cfg) now) x')
    Hi1 Hf Hx1 Hn ltac:(lia) ltac:(lia) ltac:(lia) ltac:(lia) Ha Hf1 Hf2) as (Hfin & Hcf & Hw & Hc).
  { by rewrite stored_as_stake. }
  { by rewrite stored_as_updated. }
  { by apply stored_as_commission. }
  rewrite stored_as_stake in *. replace (0 + u_Amount u - u_Amount u) with 0 in Hfin by lia.
  eapply wp_add_amount; [exact Hs3|simpl; lia|lia|simpl; lia|]. intros s4 Hs4.
  eapply wp_voteCount; [lia|simpl; lia|].
  eapply wp_update_votes; [exact Hs4|simpl; lia|simpl; lia|simpl; lia|simpl; lia|]. intros s5 Hs5.
  rewrite (state_inc_ref (stake_at A1 v (CallerAccount ctx) + u_Amount u)) by lia.
  eapply wp_write_back; [exact Hs5|simpl; by eexists|simpl; lia|simpl; lia|lia|lia|]. intros s6 Hs6.
  eapply ok_did_log; [exact Hs6|lia|exact Hfin|rewrite Hbal; exact Hcf|].
  exists u. split; [done|]. split; [|done]. apply Hback.
  eapply staked_written; [exact Hf|exact Hx1|exact Hr1| | |reflexivity..]; [lia|by rewrite stored_as_stake].
Qed.

Lemma cancelUndelegate_safe now n s ctx v id :
  ok now n 0 s -> room n s -> id_ok id -> Account ctx = dpos_contract_address ->
  wp (cancelUndelegate cfg ctx now v id) (fun _ s' => ok_after now (n + 2) s s') (fun _ s' => s' = s) s.
Proof. intros. eapply (did_safe_err _ _ _ _ (fun _ => _)). by apply cancelUndelegate_spec. Qed.

(** [redelegate_from] leaves [from] with its state intact, unless it is left
    empty while undelegations still wait for it. *)
Definition from_kept (now amount : Z) (x : Validator) (r : ValidatorRewards) : Prop :=
  IsOnMagnoliaHardfork (Hardforks cfg) now = true -> TotalStake x = amount -> CommissionRewardsPool r = 0 ->
  UndelegationsCount x = 0.

(** [amount] was taken from [from] and is not delegated to anybody yet. *)
Record taken (ctx : CallFrame) (now n amount : Z) (from : Address) (A A1 : adpos) : Prop := {
  tk_inv : inv cfg now n amount (a_set_amount (a_amount A1 - amount) A1);
  tk_funds : funds A1 <= funds A;
  tk_staked : staked ctx now A A1 from (- amount);
  tk_undel : same_undelegations A A1;
}.

Lemma wp_redelegate_from {B} (k : () -> M CT B) Q E now n s A ctx v amount x r :
  rel n s A -> inv cfg now n 0 A -> 0 <= n < 2 ^ 30 -> funds A < 2 ^ 256 ->
  funds A < 2 ^ 64 * VoteEligibilityBalanceStep dp -> 0 < amount -> Account ctx = dpos_contract_address ->
  a_val A !! v = Some x -> a_rew A !! v = Some r -> from_kept now amount x r ->
  (forall e, reduce_refused A v (CallerAccount ctx) amount = Some e -> E e s) ->
  (forall s' A', rel n s' A' -> reduce_refused A v (CallerAccount ctx) amount = None -> taken ctx now (n + 2) amount v A A' ->
     wp (k tt) Q E s') ->
  wp (c ← redelegate_from cfg ctx now v amount x (Some r) (votes cfg (TotalStake x)); k c) Q E s.
Proof.
  intros Hs Hi Hn Hf1 Hf2 Hamt Ha Hx Hr Hkept HE Hk. unfold reduce_refused in *. unfold redelegate_from. apply wp_bind.
  eapply wp_GetDelegation; [done|]. destruct (a_del A !! (v, CallerAccount ctx)) as [y|] eqn:Hy; [|by apply HE].
  destruct (Z.ltb_spec (d_Stake y) amount) as [|Hle]; [by apply HE|].
  destruct (negb (d_Stake y =? amount) && (d_Stake y - amount <? MinimumDeposit dp)); [by apply HE|].
  destruct (inv_words _ _ _ _ (funds A) Hi ltac:(lia) ltac:(done) Hf1 Hf2) as (_ & Hvt & Hall).
  eapply wp_current_state; [exact (rel_amount _ _ _ Hs)|done|lia|lia|done|done|]. intros s1 st r' m Hs1 Hf.
  set (x' := set_TotalStake (TotalStake (set_LastUpdated now x) - amount) (set_LastUpdated now x)).
  assert (TotalStake x' = TotalStake x - amount /\ LastUpdated x' = now /\ UndelegationsCount x' = UndelegationsCount x
    /\ commission_ok x') as (HT' & HL' & HU' & HC') by (split_and!; [done..|exact (iv_comm _ _ _ _ _ Hi _ _ Hx)]). clearbody x'.
  assert (stake_at A v (CallerAccount ctx) = d_Stake y) as Hst by (unfold stake_at; by rewrite Hy).
  destruct (changed_words _ _ _ _ ctx v x r r' st m (d_Stake y - amount) (- amount)
    (stored_as (IsOnMagnoliaHardfork (Hardforks cfg) now) x')
    Hi Hf Hx ltac:(lia) ltac:(lia) ltac:(lia) ltac:(lia) ltac:(lia) Ha Hf1 Hf2) as (Hfin & Hcf & Hw & Hc).
  { rewrite stored_as_stake. lia. }
  { by rewrite stored_as_updated. }
  { by apply stored_as_commission. }
  rewrite stored_as_stake in *. unfold revoted in Hfin. rewrite Z.add_opp_r in Hfin.
  replace (0 - - amount) with amount in Hfin by lia.
  eapply wp_lower; [exact Hs1|exact Hf|done|done|lia|lia|done|]. intros s2 Hs2.
  eapply (wp_bind_done _ _ _ _ _ ((TotalStake x' =? 0) && (CommissionRewardsPool r' =? 0))).
  { by destruct (TotalStake x' =? 0). }
  assert (forall s3 A3, rel n s3 A3 -> a_votes A3 = a_votes A ->
    taken ctx now (n + 2) amount v A (a_set_votes (a_votes A - votes cfg (TotalStake x) + votes cfg (TotalStake x')) A3) ->
    wp (c ← voteCount cfg (TotalStake x') now; update_eligible_votes (votes cfg (TotalStake x)) c)
      (fun a s' => wp (k a) Q E s') E s3) as Hend.
  { intros s3 A3 Hs3 Hv3 Ht. eapply wp_voteCount; [lia|lia|]. apply wp_unit. rewrite <- Hv3 in *.
    eapply wp_update_votes; [exact Hs3|lia|lia|lia|lia|]. intros s4 Hs4. apply wp_ret. destruct (tt). by eapply Hk. }
  destruct ((TotalStake x' =? 0) && (CommissionRewardsPool r' =? 0)) eqn:Em.
  - zbool. rewrite HU', (orb_comm _ (_ =? 0)). 
    destruct ((UndelegationsCount x =? 0) || _) eqn:Eu.
    2: { apply orb_false_iff in Eu as [E1 E2]. apply negb_false_iff in E2. zbool.
      destruct E1. apply Hkept; [done|lia|]. by rewrite <- (ft_comm _ _ _ _ _ _ _ _ _ _ Hf). }
    apply wp_assoc. eapply wp_DeleteValidator; [exact Hs2|simpl; by eexists|]. intros s3 Hs3.
    eapply wp_state_put; [exact Hs3|done|]. intros s4 Hs4. eapply Hend; [exact Hs4|done|]. split.
    + apply deleted_inv in Hfin; [exact Hfin|by rewrite stored_as_stake].
    + exact Hcf.
    + eapply staked_deleted; [exact Hf|exact Hx|exact Hr| | |reflexivity..]; lia.
    + done.
  - eapply wp_write_block; [exact Hs2|simpl; by eexists|simpl; lia|lia|lia|lia|]. intros s3 Hs3.
    eapply Hend; [exact Hs3|done|]. split.
    + exact Hfin.
    + exact Hcf.
    + eapply staked_written; [exact Hf|exact Hx|exact Hr| | |reflexivity..]; [lia|rewrite stored_as_stake; lia].
    + done.
Qed.

Lemma wp_redelegate_to {B} (k : () -> M CT B) Q E now n s A ctx v amount x r :
  rel n s A -> inv cfg now n amount (a_set_amount (a_amount A - amount) A) -> 0 <= n < 2 ^ 30 + 4 -> funds A < 2 ^ 256 ->
  funds A < 2 ^ 64 * VoteEligibilityBalanceStep dp -> 0 < amount -> Account ctx = dpos_contract_address ->
  a_val A !! v = Some x -> a_rew A !! v = Some r ->
  (forall s' A', rel (n + 2) s' A' -> inv cfg now (n + 2) 0 A' -> funds A' <= funds A -> staked ctx now A A' v amount ->
     same_undelegations A A' -> wp (k tt) Q E s') ->
  wp (c ← redelegate_to cfg ctx now v amount x (Some r) (votes cfg (TotalStake x)); k c) Q E s.
Proof.
  intros Hs Hi Hn Hf1 Hf2 Hamt Ha Hx Hr Hk. unfold redelegate_to. apply wp_bind.
  set (A1 := a_set_amount (a_amount A - amount) A) in *.
  assert (rel n s (a_set_amount (a_amount A) A1)) as Hs1 by (by destruct A).
  eapply wp_current_state; [exact Hs1|exact Hi|lia|lia|done|done|]. intros s2 st r' m Hs2 Hf.
  eapply wp_increase; [exact Hs2|exact Hi|exact Hf|lia|done|lia|lia|done|]. intros s3 Hs3.
  set (x' := set_TotalStake (TotalStake (set_LastUpdated now x) + amount) (set_LastUpdated now x)).
  assert (TotalStake x' = TotalStake x + amount /\ LastUpdated x' = now /\ commission_ok x') as (HT' & HL' & HC')
    by (split_and!; [done|done|exact (iv_comm _ _ _ _ _ Hi _ _ Hx)]). clearbody x'.
  pose proof (stake_at_nonneg _ _ _ _ v (CallerAccount ctx) Hi).
  destruct (changed_words _ _ _ _ ctx v x r r' st m (stake_at A1 v (CallerAccount ctx) + amount) amount
    (stored_as (IsOnMagnoliaHardfork (Hardforks cfg) now) x')
    Hi Hf Hx ltac:(lia) ltac:(lia) ltac:(lia) ltac:(lia) ltac:(lia) Ha Hf1 Hf2) as (Hfin & Hcf & Hw & Hc).
  { by rewrite stored_as_stake. }
  { by rewrite stored_as_updated. }
  { by apply stored_as_commission. }
  rewrite stored_as_stake in *. unfold revoted in Hfin. simpl in Hw.
  change (a_amount (a_changed _ _ _ _ _ _ _)) with (a_amount A - amount) in Hfin.
  replace (a_amount A - amount + amount) with (a_amount A) in Hfin by lia.
  replace (amount - amount) with 0 in Hfin by lia.
  eapply wp_voteCount; [lia|lia|].
  eapply wp_update_votes; [exact Hs3|simpl; lia|simpl; lia|simpl; lia|simpl; lia|]. intros s4 Hs4.
  rewrite (state_inc_ref (stake_at A1 v (CallerAccount ctx) + amount)) by lia. apply wp_unit.
  eapply (wp_write_block (fun u => ret u)); [exact Hs4|simpl; by eexists|simpl; lia|simpl; lia|lia|lia|]. intros s5 Hs5.
  apply wp_ret. eapply Hk; [eapply rel_mono; [exact Hs5|lia]|exact Hfin|exact Hcf| |done].
  assert (forall A', staked ctx now A1 A' v amount -> staked ctx now A A' v amount) as Hback by (intros A' Hst; destruct Hst; by split).
  apply Hback. eapply staked_written; [exact Hf|exact Hx|exact Hr| | |reflexivity..]; [lia|rewrite stored_as_stake; lia].
Qed.

(** When [redelegate] is refused, and with which error. *)
Definition redelegate_refused (now : Z) (A : adpos) (from to d : Address) (amount : Z) : option string :=
  if (FixRedelegateBlockNum (Hardforks cfg) <? now) && bool_decide (from = to) then Some ErrSameValidator else
  if IsOnAspenHardforkPartTwo (Hardforks cfg) now && (amount <=? 0) then Some ErrInvalidRedelegation else
  match (a_val A !! from : option Validator), (a_val A !! to : option Validator) with
  | Some _, Some y =>
      if negb (MAX =? 0) && (MAX <? amount + TotalStake y) then Some ErrValidatorsMaxStakeExceeded
      else reduce_refused A from d amount
  | _, _ => Some ErrNonExistentValidator
  end.

(** What the theorems ask of a redelegation.  The amount is a word.  As long
    as the code does not refuse them, there is none of a validator to itself
    and none of nothing; and [from] is not left empty while undelegations
    wait for it. *)
Definition redelegation_ok (now : Z) (A : adpos) (from to : Address) (amount : Z) : Prop :=
  0 <= amount
  /\ (now <= FixRedelegateBlockNum (Hardforks cfg) -> from <> to)
  /\ (IsOnAspenHardforkPartTwo (Hardforks cfg) now = false -> 0 < amount)
  /\ (from <> to -> 0 < amount -> forall (x : Validator) r, a_val A !! from = Some x -> a_rew A !! from = Some r ->
       from_kept now amount x r).

Lemma redelegate_spec now n s ctx from to amount :
  ok now n 0 s -> room n s -> redelegation_ok now (abs s) from to amount -> Account ctx = dpos_contract_address ->
  wp (redelegate cfg ctx now from to amount)
    (fun _ => ok_did now (n + 4) s (fun A' => redelegate_refused now (abs s) from to (CallerAccount ctx) amount = None
       /\ same_undelegations (abs s) A'
       /\ exists A1, staked ctx now (abs s) A1 from (- amount) /\ staked ctx now A1 A' to amount))
    (fun e s' => s' = s /\ redelegate_refused now (abs s) from to (CallerAccount ctx) amount = Some e) s.
Proof.
  intros (A & Hs & Hi) (Hn & Hn2 & Hf1 & Hf2) (Hz & Hself & Hpos & Hkept) Ha. pose proof (rel_balance _ _ _ Hs) as Hbal. rewrite Hbal in *.
  rewrite (proj2 Hs). unfold redelegate_refused.
  unfold redelegate. destruct ((FixRedelegateBlockNum (Hardforks cfg) <? now) && bool_decide (from = to)) eqn:Esame; [done|].
  destruct (IsOnAspenHardforkPartTwo (Hardforks cfg) now && (amount <=? 0)) eqn:Ezero; [done|].
  assert (from <> to) as Hne by (apply andb_false_iff in Esame as [Hb|?%bool_decide_eq_false_1]; [apply Hself; zbool; lia|done]).
  assert (0 < amount) as Hamt by (apply andb_false_iff in Ezero as [Hb|]; [by apply Hpos|zbool; lia]). clear Esame Ezero.
  eapply wp_GetValidator; [done|]. destruct (a_val A !! from) as [x|] eqn:Hx; [|done].
  destruct (rew_of _ _ _ _ _ _ Hi Hx) as [r Hr]. eapply wp_GetValidatorRewards; [done|]. rewrite Hr.
  eapply wp_GetValidator; [done|]. destruct (a_val A !! to) as [y|] eqn:Hy; [|done].
  destruct (rew_of _ _ _ _ _ _ Hi Hy) as [ry Hry]. eapply wp_GetValidatorRewards; [done|]. rewrite Hry.
  destruct (_ && _); [done|].
  destruct (inv_words _ _ _ _ (funds A) Hi ltac:(lia) ltac:(done) Hf1 Hf2) as (_ & Hvt & Hall).
  destruct (Hall _ _ Hx) as [HTx Hvx]. destruct (Hall _ _ Hy) as [HTy Hvy].
  eapply wp_voteCount; [lia|lia|]. eapply wp_voteCount; [lia|lia|].
  eapply wp_redelegate_from; [done|done|lia|done|done|done|done|done|done|apply Hkept; [done..|by rewrite (proj2 Hs)|by rewrite (proj2 Hs)]|done|].
  intros s1 A1 Hs1 Hgo [Hi1 Hf3 Hst1 Hu1]. destruct (sk_validators _ _ _ _ _ _ Hst1 to) as [Hv1 Hr1]; [done|].
  rewrite <- Hv1 in Hy. rewrite <- Hr1 in Hry.
  eapply (wp_redelegate_to _ _ _ _ (n + 2)); [eapply rel_mono; [exact Hs1|lia]|exact Hi1|lia|lia|lia|done|done|done|done|].
  intros s2 A2 Hs2 Hi2 Hf4 Hst2 Hu2. replace (n + 4) with (n + 2 + 2) by lia.
  eapply ok_did_log; [exact Hs2|lia|exact Hi2|lia|].
  split; [done|]. split; [|by exists A1]. unfold same_undelegations in *. destruct Hu1, Hu2. split; congruence.
Qed.

Lemma redelegate_safe now n s ctx from to amount :
  ok now n 0 s -> room n s -> redelegation_ok now (abs s) from to amount -> Account ctx = dpos_contract_address ->
  wp (redelegate cfg ctx now from to amount) (fun _ s' => ok_after now (n + 4) s s') (fun _ s' => s' = s) s.
Proof. intros. eapply (did_safe_err _ _ _ _ (fun _ => _)). by apply redelegate_spec. Qed.

(** ** Claiming *)
Lemma revoted_same T A : revoted T T 0 A = A.
Proof. destruct A. unfold revoted, a_set_votes, a_set_amount. simpl. f_equal; lia. Qed.

(** One claim: it succeeds for every delegation there is, and keeps the
    delegations. *)
Lemma wp_claimRewards now n s A ctx v y E :
  rel n s A -> inv cfg now n 0 A -> 0 <= n < 2 ^ 30 -> funds A < 2 ^ 256 ->
  funds A < 2 ^ 64 * VoteEligibilityBalanceStep dp -> Account ctx = dpos_contract_address ->
  a_del A !! (v, CallerAccount ctx) = Some y ->
  wp (claimRewards cfg ctx now v)
    (fun _ s' => exists A', rel n s' A' /\ inv cfg now (n + 2) 0 A' /\ funds A' <= funds A
       /\ (forall k, is_Some (a_del A' !! k) <-> is_Some (a_del A !! k))
       /\ staked ctx now A A' v 0 /\ same_undelegations A A') E s.
Proof.
  intros Hs Hi Hn Hf1 Hf2 Ha Hy. unfold claimRewards. eapply wp_GetDelegation; [done|]. rewrite Hy.
  destruct (iv_del _ _ _ _ _ Hi _ _ _ Hy) as [Hpos [x Hx]]. destruct (rew_of _ _ _ _ _ _ Hi Hx) as [r Hr].
  eapply wp_state_get; [done|].
  assert (stake_at A v (CallerAccount ctx) = d_Stake y) as Hst by (unfold stake_at; by rewrite Hy).
  assert (forall s1 (x1 : Validator) r' st m, rel n s1 (a_set_rew (<[v := r']>) (a_set_val (<[v := x1]>) (a_set_st (fun _ => m) A))) ->
    fetched now n 0 A v x r r' st m -> TotalStake x1 = TotalStake x -> LastUpdated x1 = now -> commission_ok x1 ->
    wp (_ ← claim_delegation cfg ctx v st y;
        _ ← ModifyDelegation (CallerAccount ctx) v (set_stake (d_Stake y) now);
        state_put v now (Some (state_inc st)))
      (fun _ s' => exists A', rel n s' A' /\ inv cfg now (n + 2) 0 A' /\ funds A' <= funds A
       /\ (forall k, is_Some (a_del A' !! k) <-> is_Some (a_del A !! k))
       /\ staked ctx now A A' v 0 /\ same_undelegations A A') E s1) as Hend.
  { intros s1 x1 r' st m Hs1 Hf HT1 HL1 Hcm.
    destruct (changed_words _ _ _ _ ctx v x r r' st m (d_Stake y) 0 x1
      Hi Hf Hx ltac:(lia) ltac:(lia) ltac:(lia) ltac:(lia) ltac:(lia) Ha Hf1 Hf2 ltac:(lia) HL1 Hcm) as (Hfin & Hcf & Hw & Hc).
    rewrite HT1, revoted_same in Hfin. unfold a_changed in Hfin. rewrite Hy in Hfin. unfold put_delegation in Hfin.
    rewrite (proj2 (Z.eqb_neq _ _)) in Hfin by lia.
    eapply wp_claim_delegation; [exact Hs1|exact Hf|done|done|done|lia|done|done|]. intros s2 Hs2.
    eapply wp_ModifyDelegation; [exact Hs2|by eexists|simpl; lia|]. intros s3 Hs3.
    apply wp_unit. rewrite (state_inc_ref (d_Stake y)) by lia.
    eapply wp_state_put; [exact Hs3|intros ? [= <-]; simpl; lia|]. intros s4 Hs4. apply wp_ret.
    eexists; split; [exact Hs4|]. split; [exact Hfin|]. split; [exact Hcf|]. split; [|split; [|done]].
    - intros k. simpl. rewrite is_Some_insert_iff; [done|by eexists].
    - eapply (staked_written _ _ _ _ _ _ x x1 r r' r' st m (d_Stake y)); [exact Hf|done|done|lia|lia|done..| |done].
      unfold put_delegation. by rewrite (proj2 (Z.eqb_neq (d_Stake y) 0)) by lia. }
  destruct (a_st A !! (v, now)) as [st|] eqn:Hst0.
  - destruct (fetched_existing _ _ _ _ _ _ _ _ Hi Hx Hr Hst0) as (Hf & Hlu & _).
    eapply (Hend s x r st (a_st A)); [|exact Hf|done|done|by eapply iv_comm]. destruct A; unfold a_set_rew, a_set_val, a_set_st.
    simpl in *. by rewrite !insert_id.
  - apply wp_assoc. eapply wp_GetValidator; [done|]. rewrite Hx. apply wp_assoc.
    eapply wp_GetValidatorRewards; [done|]. rewrite Hr. apply wp_assoc.
    eapply wp_new_state; [exact (rel_amount _ _ _ Hs)|exact Hi|lia|lia|done|done|done|]. intros s1 st r' m Hs1 Hf.
    apply wp_assoc. pose proof (stake_nonneg _ _ _ _ _ _ _ Hi Hx).
    eapply wp_ModifyValidator; [exact Hs1|simpl; by eexists|done|]. intros s2 Hs2. apply wp_assoc.
    destruct (ft_pool _ _ _ _ _ _ _ _ _ _ Hf).
    eapply wp_ModifyValidatorRewards; [exact Hs2|simpl; rewrite is_Some_insert_iff; by eexists|done|done|]. intros s3 Hs3.
    apply wp_bind_ret. eapply Hend; [|exact Hf|..].
    + exact Hs3.
    + by rewrite stored_as_stake.
    + by rewrite stored_as_updated.
    + apply stored_as_commission. exact (iv_comm _ _ _ _ _ Hi _ _ Hx).
Qed.

Lemma claimRewards_spec now n s ctx v :
  ok now n 0 s -> room n s -> Account ctx = dpos_contract_address ->
  wp (claimRewards cfg ctx now v)
    (fun _ => ok_did now (n + 2) s (fun A' => staked ctx now (abs s) A' v 0 /\ same_undelegations (abs s) A'))
    (fun e s' => s' = s /\ e = ErrNonExistentDelegation /\ a_del (abs s) !! (v, CallerAccount ctx) = None) s.
Proof.
  intros (A & Hs & Hi) (Hn & Hn2 & Hf1 & Hf2) Ha. pose proof (rel_balance _ _ _ Hs) as Hbal. rewrite Hbal in *.
  rewrite (proj2 Hs). destruct (a_del A !! (v, CallerAccount ctx)) as [y|] eqn:Hy.
  - eapply wp_mono; [eapply wp_claimRewards; [done|done|lia|done..]| |intros e s' He; exact He].
    intros _ s' (A' & Hs' & Hi' & Hf' & _ & Hst & Hu).
    eapply (ok_did_intro _ n _ _ _ A'); [done|lia|done|lia|]. by split.
  - unfold claimRewards. eapply wp_GetDelegation; [done|]. by rewrite Hy.
Qed.

Lemma claimRewards_safe now n s ctx v :
  ok now n 0 s -> room n s -> Account ctx = dpos_contract_address ->
  wp (claimRewards cfg ctx now v) (fun _ s' => ok_after now (n + 2) s s') (fun _ s' => s' = s) s.
Proof. intros. eapply (did_safe_err _ _ _ _ (fun _ => _)). by apply claimRewards_spec. Qed.

(** Claims of a list of the caller's delegations: all succeed. *)
Lemma wp_claim_each now n s A ctx l E :
  rel n s A -> inv cfg now n 0 A -> 0 <= n -> n + 2 * Z.of_nat (length l) < 2 ^ 30 -> funds A < 2 ^ 256 ->
  funds A < 2 ^ 64 * VoteEligibilityBalanceStep dp -> Account ctx = dpos_contract_address ->
  (forall v, v ∈ l -> is_Some (a_del A !! (v, CallerAccount ctx))) ->
  wp (claim_each cfg ctx now l)
    (fun _ s' => exists A', rel (n + 2 * Z.of_nat (length l)) s' A'
       /\ inv cfg now (n + 2 * Z.of_nat (length l)) 0 A' /\ funds A' <= funds A) E s.
Proof.
  revert n s A. induction l as [|v l IH]; intros n s A Hs Hi Hn Hl Hf1 Hf2 Ha Hd.
  - apply wp_ret. exists A. simpl. rewrite Z.add_0_r. done.
  - cbn [length] in *. unfold claim_each. simpl for_each. apply wp_bind. destruct (Hd v ltac:(left)) as [y Hy].
    assert (wp (claimRewards cfg ctx now v)
      (fun _ s' => exists A', rel n s' A' /\ inv cfg now (n + 2) 0 A' /\ funds A' <= funds A
         /\ forall k, is_Some (a_del A' !! k) <-> is_Some (a_del A !! k)) (fun _ _ => False) s) as Hone.
    { eapply wp_mono; [eapply (wp_claimRewards _ _ _ _ _ _ _ (fun _ _ => False)); [done|done|lia|done..]| |done].
      intros _ s' (A' & ? & ? & ? & ? & _). by exists A'. }
    unfold wp in *. destruct (claimRewards cfg ctx now v s) as [u s1|e s1|]; [|done..].
    destruct Hone as (A1 & Hs1 & Hi1 & Hf & Hdel).
    assert (n + 2 * Z.of_nat (S (length l)) = n + 2 + 2 * Z.of_nat (length l)) as Hlen by lia. rewrite Hlen in *.
    assert (wp (claim_each cfg ctx now l)
      (fun _ s' => exists A', rel (n + 2 + 2 * Z.of_nat (length l)) s' A'
         /\ inv cfg now (n + 2 + 2 * Z.of_nat (length l)) 0 A' /\ funds A' <= funds A1) E s1) as Hrest.
    { apply (IH (n + 2) s1 A1); [eapply rel_mono; [done|lia]|done|lia|lia|lia|lia|done|].
      intros w Hw. apply Hdel, Hd. by right. }
    eapply wp_mono; [exact Hrest| |done]. intros _ s' (A' & ? & ? & ?). exists A'. split_and!; [done|done|lia].
Qed.

Lemma claimAllRewards_safe now n s ctx :
  let m := n + 2 * delegations s (CallerAccount ctx) in
  ok now n 0 s -> 0 <= n -> room m s -> Account ctx = dpos_contract_address ->
  wp (claimAllRewards cfg ctx now) (fun _ s' => ok_after now m s s') (fun _ _ => False) s.
Proof.
  intros m (A & Hs & Hi) Hn (Hm & Hn2 & Hf1 & Hf2) Ha. pose proof (rel_balance _ _ _ Hs) as Hbal. rewrite Hbal in *.
  destruct (delegations_run n s A (CallerAccount ctx) Hs) as [_ Hd].
  unfold claimAllRewards. eapply wp_GetAllDelegatorValidatorsAddresses; [done|lia|]. intros l Hl Hlen.
  eapply wp_mono; [eapply (wp_claim_each _ _ _ _ _ _ (fun _ _ => False)); [done|done|lia|lia|done..]| |done].
  intros _ s' (A' & Hs' & Hi' & Hf').
  eapply (ok_after_intro _ _ _ _ A'); [eapply rel_mono; [done|lia]|eapply inv_mono_n; [done|lia]|lia].
Qed.

Lemma claimAllRewardsPreAspenHF_safe now n s ctx batch :
  ok now n 0 s -> 0 <= n -> room (n + 20) s -> Account ctx = dpos_contract_address ->
  wp (claimAllRewardsPreAspenHF cfg ctx now batch) (fun _ s' => ok_after now (n + 20) s s') (fun _ _ => False) s.
Proof.
  intros (A & Hs & Hi) Hn (_ & Hn2 & Hf1 & Hf2) Ha. pose proof (rel_balance _ _ _ Hs) as Hbal. rewrite Hbal in *.
  unfold claimAllRewardsPreAspenHF. unfold ClaimAllRewardsMaxCount.
  eapply wp_GetDelegatorValidatorsAddresses; [done|lia|lia|]. intros l e Hl Hlen. apply wp_bind.
  eapply wp_mono; [eapply (wp_claim_each _ _ _ _ _ _ (fun _ _ => False)); [done|done|lia|lia|done..]| |done].
  intros _ s' (A' & Hs' & Hi' & Hf'). apply wp_ret.
  eapply (ok_after_intro _ _ _ _ A'); [eapply rel_mono; [done|lia]|eapply inv_mono_n; [done|lia]|lia].
Qed.

(** ** The owner's calls *)
Lemma wp_CheckValidatorOwner {B} (k : bool -> M CT B) Q E s o v :
  (forall b, wp (k b) Q E s) -> wp (b ← CheckValidatorOwner o v; k b) Q E s.
Proof.
  intros Hk. unfold CheckValidatorOwner, GetValidatorOwner. destruct s as [[] ? ? ? ? ? ? ? ? ? ?].
  eapply wp_bind_done; [reflexivity|apply Hk].
Qed.

Lemma pool_le now n pend A v r :
  inv cfg now n pend A -> 0 <= pend -> a_rew A !! v = Some r -> 0 <= CommissionRewardsPool r <= funds A.
Proof.
  intros Hi Hp Hr. pose proof (funds_cover _ Hcfg _ _ _ _ Hi). pose proof (total_nonneg _ _ _ _ _ Hi).
  pose proof (undelegating_nonneg _ _ _ _ _ Hi). pose proof (iv_pools _ _ _ _ _ Hi _ _ Hr).
  assert (RewardsPool r + CommissionRewardsPool r <= pools (a_rew A)); [|lia].
  apply (msum_lookup_le (fun _ r => RewardsPool r + CommissionRewardsPool r) (a_rew A) v r); [|done].
  intros v' r' Hr'. pose proof (iv_pools _ _ _ _ _ Hi _ _ Hr'). lia.
Qed.

(** Between the Magnolia and the Phalaenopsis hardfork a claim of commission
    does not clear the pool of a validator without stake that undelegations
    still wait for. *)
Definition commission_cleared (now : Z) (A : adpos) (v : Address) : Prop :=
  IsOnMagnoliaHardfork (Hardforks cfg) now = true -> IsOnPhalaenopsisHardfork (Hardforks cfg) now = false ->
  forall x : Validator, a_val A !! v = Some x -> TotalStake x = 0 -> UndelegationsCount x = 0.

Lemma claimCommissionRewards_safe now n s ctx v :
  ok now n 0 s -> room n s -> Account ctx = dpos_contract_address -> commission_cleared now (abs s) v ->
  wp (claimCommissionRewards cfg ctx now v) (fun _ s' => ok_after now n s s') (fun _ s' => s' = s) s.
Proof.
  intros (A & Hs & Hi) (Hn & Hn2 & Hf1 & Hf2) Ha Hph. pose proof (rel_balance _ _ _ Hs) as Hbal. rewrite Hbal in *.
  unfold claimCommissionRewards. apply wp_CheckValidatorOwner. intros []; [|done]. simpl.
  eapply wp_GetValidator; [done|]. destruct (a_val A !! v) as [x|] eqn:Hx; [|done].
  destruct (rew_of _ _ _ _ _ _ Hi Hx) as [r Hr]. eapply wp_GetValidatorRewards; [done|]. rewrite Hr. eapply wp_deref.
  pose proof (pool_le _ _ _ _ _ _ Hi ltac:(lia) Hr) as Hc. pose proof (iv_pools _ _ _ _ _ Hi _ _ Hr) as Hp.
  eapply wp_transfer; [done|done|lia|]. intros s1 Hs1. eapply wp_AddLog; [exact Hs1|]. intros s2 Hs2.
  destruct (paid_inv _ _ _ _ ctx _ Hi (proj1 Hc) Ha) as [Hi1 Hf].
  set (A1 := a_set_bal (paid ctx (CommissionRewardsPool r)) A) in *.
  assert (wp (ModifyValidatorRewards v (Some (mkValidatorRewards (RewardsPool r) 0)))
    (fun _ s' => ok_after now n s s') (fun _ s' => s' = s) s2) as Hsave.
  { apply wp_unit. eapply wp_ModifyValidatorRewards; [exact Hs2|by eexists|simpl; lia|simpl; lia|]. intros s3 Hs3. apply wp_ret.
    eapply ok_after_intro; [exact Hs3| |rewrite Hbal; exact Hf].
    pose proof (inv_rew cfg _ _ _ _ Hi1 v r (mkValidatorRewards (RewardsPool r) 0) Hr ltac:(simpl; lia) ltac:(simpl; lia)) as Hi2.
    simpl in Hi2. by replace (0 - CommissionRewardsPool r - (RewardsPool r + 0 - RewardsPool r - CommissionRewardsPool r))
      with 0 in Hi2 by lia. }
  cbv zeta. destruct (Z.eqb_spec (TotalStake x) 0) as [HT|]; [|done].
  destruct (_ || _) eqn:Em.
  - apply wp_unit. eapply (wp_retire _ _ _ _ _ _ 0); [exact Hs2|exact Hi1|lia|exact Hx|done| |].
    { intros r0 Hr0. assert (r0 = r) as -> by (simpl in Hr0; congruence). lia. }
    intros s3 A3 Hs3 Hi3. apply wp_ret. eapply ok_after_intro; [exact Hs3|exact Hi3|rewrite Hbal; exact Hf].
  - apply orb_false_iff in Em as [Em Eu]. apply negb_false_iff in Em. destruct (IsOnPhalaenopsisHardfork _ now) eqn:Ep; [done|].
    rewrite (proj2 Hs) in Hph. by rewrite (Hph Em Ep x Hx HT) in Eu.
Qed.

Lemma setCommission_safe now n s ctx v c :
  ok now n 0 s -> 0 <= c -> wp (setCommission cfg ctx now v c) (fun _ s' => ok_after now n s s') (fun _ s' => s' = s) s.
Proof.
  intros (A & Hs & Hi) Hc0. pose proof (rel_balance _ _ _ Hs) as Hbal. unfold setCommission.
  apply wp_CheckValidatorOwner. intros []; [|done]. simpl. destruct (MaxCommission <? c) eqn:Hc1; [done|].
  eapply wp_GetValidator; [done|]. destruct (a_val A !! v) as [x|] eqn:Hx; [|done].
  destruct (_ && _); [done|]. destruct (_ && _); [done|].
  eapply wp_ModifyValidator; [done|by eexists|exact (stake_nonneg _ _ _ _ _ _ _ Hi Hx)|]. intros s1 Hs1.
  eapply ok_after_log; [exact Hs1|lia| |rewrite Hbal; done].
  zbool. eapply inv_same_val; [exact Hi|exact Hx|..]; rewrite ?stored_as_stake, ?stored_as_updated; try done.
  apply stored_as_commission. unfold commission_ok. simpl. lia.
Qed.

Lemma wp_GetValidatorInfo {B} (k : option ValidatorInfo -> M CT B) Q E n s A v :
  rel n s A -> (forall o, is_Some o <-> is_Some (a_val A !! v) -> wp (k o) Q E s) -> wp (o ← GetValidatorInfo v; k o) Q E s.
Proof.
  intros [[L HL] <-] Hk. eapply (wp_bind_done _ _ _ _ _ (ts_info (c_storage s) !! v) s).
  { by destruct s as [[] ? ? ? ? ? ? ? ? ? ?]. }
  apply Hk. rewrite (ix_info _ _ _ _ _ _ _ _ _ _ HL). simpl. by rewrite lookup_fmap, fmap_is_Some.
Qed.

Lemma wp_ModifyValidatorInfo {B} (k : () -> M CT B) Q E n s A v i :
  rel n s A -> is_Some (a_val A !! v) -> (forall s', rel n s' A -> wp (k tt) Q E s') ->
  wp (u ← ModifyValidatorInfo v i; k u) Q E s.
Proof.
  intros Hs Hv Hk. unfold ModifyValidatorInfo, Modify. apply wp_assoc.
  eapply wp_ValidatorExists; [exact Hs|]. rewrite bool_decide_true by done.
  eapply (wp_bind_done _ _ _ _ _ tt (set_storage (ts_update (c_storage s) KdInfo v (Some i)) s)).
  { by destruct s as [[] ? ? ? ? ? ? ? ? ? ?]. }
  apply Hk. destruct Hs as [[L HL] <-]. split; [|by destruct s as [[] ? ? ? ? ? ? ? ? ? ?]].
  exists L. destruct HL as [H1' H2' H3' H4']. split; try done. intros a. simpl. rewrite is_Some_insert_iff; [done|].
  rewrite H4'. simpl in Hv. by rewrite lookup_fmap, fmap_is_Some in Hv.
Qed.

Lemma setValidatorInfo_safe now n s ctx v d e :
  ok now n 0 s -> wp (setValidatorInfo ctx v d e) (fun _ s' => ok_after now n s s') (fun _ s' => s' = s) s.
Proof.
  intros (A & Hs & Hi). pose proof (rel_balance _ _ _ Hs) as Hbal. unfold setValidatorInfo.
  destruct (Nat.ltb _ _); [done|]. destruct (Nat.ltb _ _); [done|].
  apply wp_CheckValidatorOwner. intros []; [|done]. simpl.
  eapply wp_GetValidatorInfo; [exact Hs|]. intros [o|] Ho; [|done].
  eapply wp_ModifyValidatorInfo; [exact Hs|apply Ho; by eexists|]. intros s1 Hs1.
  eapply ok_after_log; [exact Hs1|lia|exact Hi|by rewrite Hbal].
Qed.

Context `{!CryptoLaws}.

(** Checking a proof changes nothing. *)
Lemma wp_validateProof {B} (k : () -> M CT B) Q E s proof v :
  wp (k tt) Q E s -> (forall e, E e s) -> wp (u ← validateProof proof v; k u) Q E s.
Proof.
  intros Hk HE. unfold validateProof, bindM, wp in *. destruct (negb _); [apply HE|].
  destruct (Ecrecover _ _) as [e|[|b pk]] eqn:Hpk; [apply HE| |].
  - by apply length_Ecrecover in Hpk.
  - case_bool_decide; [exact Hk|apply HE].
Qed.

(** The first delegation to a validator whose state was just created. *)
Lemma touched_fresh A v d now z st x bal vts amount :
  a_del A !! (v, d) = None -> z <> 0 ->
  touched (a_set_st (<[(v, now) := st]>) A) v d now z st x bal vts amount
  = a_set_st (<[(v, now) := mkState (RewardsPer1Stake st) (Count st + 1)]>)
      (a_set_val (<[v := x]>)
         (a_set_votes vts (a_set_amount amount
            (a_set_bal (fun _ => bal) (a_set_del (<[(v, d) := mkDelegation z now]>) A))))).
Proof.
  intros Hd Hz. unfold touched, put_delegation, drop_ref. simpl. rewrite Hd.
  rewrite (proj2 (Z.eqb_neq _ _) Hz). unfold a_set_st. simpl. by rewrite insert_insert_eq.
Qed.

Lemma registerValidatorWithoutChecks_safe now evm_block n s ctx args :
  ok now n (Value ctx) s -> room n s -> 0 <= Value ctx -> 0 <= ra_Commission args ->
  wp (registerValidatorWithoutChecks cfg evm_block ctx now args)
    (fun _ s' => ok_after now (n + 2) s s') (fun _ s' => s' = s) s.
Proof.
  intros (A & Hs & Hi) (Hn & Hn2 & Hf1 & Hf2) Hval Hc0. pose proof (rel_balance _ _ _ Hs) as Hbal. rewrite Hbal in *.
  unfold registerValidatorWithoutChecks. cbv zeta. set (v := ra_Validator args).
  destruct (Nat.ltb _ _); [done|]. destruct (Nat.ltb _ _); [done|]. destruct (negb _); [done|].
  destruct (MaxCommission <? ra_Commission args) eqn:Hc1; [done|]. zbool.
  eapply wp_ValidatorExists; [exact Hs|]. case_bool_decide as Hx; [done|]. apply eq_None_not_Some in Hx.
  eapply wp_GetDelegation; [exact Hs|]. destruct (a_del A !! (v, CallerAccount ctx)) eqn:Hd; [done|].
  eapply wp_state_get; [exact Hs|]. destruct (a_st A !! (v, now)) eqn:Hst; [done|].
  destruct (MAX <? Value ctx); [done|].
  eapply wp_CreateValidator; [exact Hs|lia|exact Hx|]. intros x s1 Hs1. eapply wp_AddLog; [exact Hs1|]. intros s2 Hs2.
  assert (commission_ok x) as Hcm by (unfold commission_ok; simpl; lia).
  pose proof (inv_register cfg _ _ _ _ Hi v x Hx eq_refl eq_refl Hcm Hst Hn) as Hi1.
  set (A1 := a_set_rew _ _) in Hs2.
  assert (state_inc (mkState 0 0) = mkState 0 1) as -> by done.
  destruct (Z.ltb_spec 0 (Value ctx)) as [Hv|Hv].
  - apply wp_assoc. eapply wp_AddLog; [exact Hs2|]. intros s3 Hs3. apply wp_assoc.
    eapply wp_CreateDelegation; [exact Hs3|lia|exact Hd|lia|]. intros s4 Hs4. apply wp_assoc.
    set (xs := stored_as (IsOnMagnoliaHardfork (Hardforks cfg) now) (set_TotalStake (TotalStake x + Value ctx) x)).
    set (A2 := a_set_st _ _) in Hi1.
    assert (stake_at A2 v (CallerAccount ctx) = 0) as Hst0 by (unfold stake_at; simpl; by rewrite Hd).
    assert (accrued_at A2 v (CallerAccount ctx) = 0) as Hac0 by (unfold accrued_at; simpl; by rewrite Hd).
    assert (TotalStake xs = Value ctx) as HT by (unfold xs; rewrite stored_as_stake; done).
    assert (votes cfg 0 = 0) as Hv0 by (unfold votes; case_match; [by rewrite Zdiv_0_l|done]).
    pose proof (touch_inv cfg now (n + 1) (Value ctx) A2 Hi1 v (CallerAccount ctx) x xs (mkState 0 1)
      ltac:(apply lookup_insert_eq) eq_refl ltac:(apply lookup_insert_eq) (Value ctx) Hval) as Hfin.
    rewrite Hst0, Hac0 in Hfin.
    specialize (Hfin ltac:(rewrite HT; simpl; lia) (stored_as_updated _ _) ltac:(apply stored_as_commission; exact Hcm) (a_bal A)
      (a_votes A - votes cfg 0 + votes cfg (Value ctx)) (a_amount A + Value ctx)
      ltac:(lia) ltac:(unfold funds; simpl; lia) ltac:(simpl; lia) ltac:(rewrite HT; done)).
    replace (Value ctx - (Value ctx - 0)) with 0 in Hfin by lia.
    destruct (inv_words _ _ _ _ (funds A) Hi Hval ltac:(done) Hf1 Hf2) as (Ham & Hvt & _).
    destruct (inv_words _ _ _ _ (funds A) Hfin ltac:(lia) ltac:(done) Hf1 Hf2) as (Ham2 & Hvt2 & Hall2).
    destruct (Hall2 v _ ltac:(apply lookup_insert_eq)) as [_ Hv2]. rewrite HT in Hv2. simpl in Ham2, Hvt2, Hv2.
    rewrite Hv0 in *.
    assert (TotalStake x + Value ctx = Value ctx) as HTx by done.
    eapply wp_delegate_update_values; [exact Hs4|done|rewrite ?HTx; simpl; lia..|].
    intros s5 Hs5. apply wp_assoc.
    eapply wp_ModifyValidator; [exact Hs5|simpl; rewrite lookup_insert_eq; by eexists|simpl; lia|]. intros s6 Hs6.
    apply wp_bind_ret. apply wp_unit. assert (state_inc (mkState 0 1) = mkState 0 2) as -> by done.
    eapply wp_state_put; [exact Hs6|by intros ? [= <-]|]. intros s7 Hs7. apply wp_ret.
    eapply ok_after_intro; [eapply rel_mono; [exact Hs7|lia]| |by rewrite Hbal].
    unfold A2 in Hfin. rewrite touched_fresh in Hfin by (done || lia).
    replace (n + 2) with (n + 1 + 1) by lia. exact Hfin.
  - apply wp_bind_ret. apply wp_unit. eapply wp_state_put; [exact Hs2|by intros ? [= <-]|]. intros s3 Hs3. apply wp_ret.
    eapply ok_after_intro; [eapply rel_mono; [exact Hs3|lia]| |by rewrite Hbal].
    replace (Value ctx) with 0 in Hi1 by lia. eapply inv_mono_n; [exact Hi1|lia].
Qed.

Lemma registerValidator_safe now evm_block n s ctx args :
  ok now n (Value ctx) s -> room n s -> 0 <= Value ctx -> 0 <= ra_Commission args ->
  wp (registerValidator cfg evm_block ctx now args)
    (fun _ s' => ok_after now (n + 2) s s') (fun _ s' => s' = s) s.
Proof.
  intros Hok Hroom Hval Hc0. unfold registerValidator. apply wp_validateProof; [|done].
  destruct (Value ctx <? _); [done|]. by apply registerValidatorWithoutChecks_safe.
Qed.
End rules.
