(* ===== verification/DposDistribute.v ===== *)
(** * Block rewards

    [DistributeRewards] over the staking invariant: the parts a block's
    reward is split in never exceed it, whatever is minted is credited to
    pools the contract's balance covers, and nothing panics. *)
From S2P Require Import Prelude Bytes Crypto ChainConfig Uint256 Storage IterableMap DposStorage Validators Dpos DposRewards DposTyped DposInv DposSafe.

(** ** Shares *)
Definition zsum {X} (f : X -> Z) (l : list X) : Z := foldr (fun e acc => f e + acc) 0 l.

Lemma zsum_nonneg {X} (f : X -> Z) l : (forall e, e ∈ l -> 0 <= f e) -> 0 <= zsum f l.
Proof.
  induction l as [|e l IH]; intros Hf; simpl; [done|].
  pose proof (Hf e ltac:(left)). specialize (IH (fun x Hx => Hf x ltac:(by right))). lia.
Qed.

Lemma zsum_add {X} (f g : X -> Z) l : zsum (fun e => f e + g e) l = zsum f l + zsum g l.
Proof. induction l as [|e l IH]; simpl; lia. Qed.

(** [c] parts out of [T] of [x], rounded down; nothing when [T] is 0. *)
Definition share (x T c : Z) : Z := if T =? 0 then 0 else c * x / T.

Lemma share_bounds x T c : 0 <= x -> 0 <= c -> 0 <= T -> 0 <= share x T c /\ T * share x T c <= c * x.
Proof.
  intros Hx Hc HT. unfold share. destruct (Z.eqb_spec T 0) as [->|HT0]; [nia|].
  split; [apply Z.div_pos; nia|apply Z.mul_div_le; lia].
Qed.

(** Shares that are at most the whole add up to at most [x]. *)
Lemma zsum_share {X} (c : X -> Z) x T l :
  0 <= x -> 0 <= T -> (forall e, e ∈ l -> 0 <= c e) -> zsum c l <= T -> 0 <= zsum (fun e => share x T (c e)) l <= x.
Proof.
  intros Hx HT Hc Hle. split.
  { apply zsum_nonneg. intros e He. by apply share_bounds; auto. }
  destruct (Z.eq_dec T 0) as [->|HT0].
  { clear Hc Hle. induction l as [|e l IH]; simpl; [done|]. unfold share at 1. simpl. lia. }
  assert (T * zsum (fun e => share x T (c e)) l <= zsum c l * x) as Hs; [|nia].
  clear Hle. induction l as [|e l IH]; simpl; [lia|].
  specialize (IH (fun y Hy => Hc y ltac:(by right))).
  pose proof (share_bounds x T (c e) Hx (Hc e ltac:(left)) HT). lia.
Qed.

(** What a block's statistics satisfy: the counts of the validators add up to
    no more than the totals. *)
Record stats_ok (st : RewardsStats) : Prop := {
  so_dag e : e ∈ ValidatorsStats st -> 0 <= DagBlocksCount (snd e) < 2 ^ 32;
  so_vote e : e ∈ ValidatorsStats st -> 0 <= VoteWeight (snd e) < 2 ^ 64;
  so_fees e f : e ∈ ValidatorsStats st -> FeesRewards (snd e) = Some f -> f < 2 ^ 255;
  so_dags : zsum (fun e => DagBlocksCount (snd e)) (ValidatorsStats st) <= TotalDagBlocksCount st < 2 ^ 32;
  so_votes : zsum (fun e => VoteWeight (snd e)) (ValidatorsStats st) <= TotalVotesWeight st < 2 ^ 63;
  so_max : 0 <= MaxVotesWeight st < 2 ^ 63;
}.

(** The percentages of the block reward. *)
Record percent_ok (cfg : ChainConfig) : Prop := {
  po_dag : 0 <= DagProposersReward (DPOS cfg);
  po_author : 0 <= MaxBlockAuthorReward (DPOS cfg);
  po_sum : DagProposersReward (DPOS cfg) + MaxBlockAuthorReward (DPOS cfg) <= 100;
}.

Definition fee (vs : ValidatorStats) : Z := match FeesRewards vs with Some f => Z.max 0 f | None => 0 end.

Section parts.
Context `{Uint256Laws} (cfg : ChainConfig) (Hpct : percent_ok cfg).

Lemma u_share x T c : 0 <= x -> 0 <= c -> 0 <= T < 2 ^ 256 -> c * x < 2 ^ 256 -> word x -> word c ->
  u_div (u_mul c x) T = share x T c.
Proof.
  intros Hx Hc HT Hcx Hwx Hwc. rewrite u_mul_small by done. rewrite u_div_spec; [done|unfold word; nia|done].
Qed.

(** The author's bonus is a part of the bonus reward. *)
Lemma author_bonus_bounds B T m :
  0 <= B < 2 ^ 192 -> 0 < T <= m -> m < 2 ^ 63 ->
  let t1 := u64 (u64 (m * 2) / 3 + 1) in
  0 <= (if m =? T then B else
          u_div (u_mul B (if t1 <=? T then u64 (T - t1) else 0)) (u64 (m - t1))) <= B.
Proof.
  intros HB HT Hm t1. destruct (m =? T); [lia|].
  assert (t1 = m * 2 / 3 + 1 /\ 0 < t1 <= m) as [_ Ht1].
  { unfold t1. rewrite (u64_small (m * 2)) by lia.
    assert (0 <= m * 2 / 3 /\ m * 2 / 3 + 1 <= m) by (split; Z.to_euclidean_division_equations; lia).
    rewrite u64_small by lia. lia. }
  rewrite (u64_small (m - t1)) by lia.
  assert (exists w, (if t1 <=? T then u64 (T - t1) else 0) = w /\ 0 <= w <= m - t1) as (w & -> & Hw).
  { eexists; split; [done|]. destruct (Z.leb_spec t1 T); [rewrite u64_small by lia|]; lia. }
  rewrite u_mul_small by (unfold word; nia). rewrite u_div_spec by (unfold word; nia).
  destruct (Z.eqb_spec (m - t1) 0); [lia|]. split; [apply Z.div_pos; nia|].
  apply Z.div_le_upper_bound; nia.
Qed.

(** The three parts of the block reward add up to at most the reward. *)
Lemma reward_parts_bounds R st d v b :
  0 <= R < 2 ^ 192 -> 0 <= TotalVotesWeight st < 2 ^ 63 -> 0 <= MaxVotesWeight st < 2 ^ 63 ->
  reward_parts cfg R st = (d, v, b) -> 0 <= d /\ 0 <= v /\ 0 <= b /\ d + v + b <= R.
Proof.
  intros HR HT HM. destruct Hpct. unfold reward_parts.
  destruct (Z.ltb_spec 0 (TotalVotesWeight st)) as [Ht|Ht]; [|intros [= <- <- <-]; lia].
  assert (forall p, 0 <= p <= 100 -> u_div (u_mul R p) 100 = R * p / 100 /\ 0 <= R * p / 100
    /\ 100 * (R * p / 100) <= R * p) as Hp.
  { intros p Hp. rewrite u_mul_small by (unfold word; nia). rewrite u_div_nonzero by (unfold word; nia).
    split_and!; [done|apply Z.div_pos; nia|apply Z.mul_div_le; lia]. }
  destruct (Hp (DagProposersReward (DPOS cfg)) ltac:(lia)) as (-> & Hd0 & Hd1).
  destruct (Hp (MaxBlockAuthorReward (DPOS cfg)) ltac:(lia)) as (-> & Hb0 & Hb1).
  set (D := R * DagProposersReward (DPOS cfg) / 100) in *. set (B := R * MaxBlockAuthorReward (DPOS cfg) / 100) in *.
  assert (D + B <= R) as HDB by nia.
  rewrite (u_sub_small R D), (u_sub_small (R - D) B) by (unfold word; lia).
  set (m := Max _ _). assert (TotalVotesWeight st <= m < 2 ^ 63) as Hm by (unfold m, Max; case_match; zbool; lia).
  pose proof (author_bonus_bounds B (TotalVotesWeight st) m ltac:(nia) ltac:(lia) ltac:(lia)) as Hau. cbv zeta in Hau.
  intros [= <- <- <-]. lia.
Qed.

Lemma validator_reward_share d v st vs :
  0 <= d < 2 ^ 192 -> 0 <= v < 2 ^ 192 -> d + v < 2 ^ 192 -> 0 <= DagBlocksCount vs <= TotalDagBlocksCount st ->
  TotalDagBlocksCount st < 2 ^ 32 ->
  0 <= VoteWeight vs <= TotalVotesWeight st -> TotalVotesWeight st < 2 ^ 63 ->
  validator_reward d v st vs
  = share d (TotalDagBlocksCount st) (DagBlocksCount vs) + share v (TotalVotesWeight st) (VoteWeight vs)
  /\ 0 <= share d (TotalDagBlocksCount st) (DagBlocksCount vs) <= d
  /\ 0 <= share v (TotalVotesWeight st) (VoteWeight vs) <= v.
Proof.
  intros Hd Hv Hdv Hc HT Hw HV. unfold validator_reward.
  assert (forall x T c, 0 <= x < 2 ^ 192 -> 0 <= c <= T -> T < 2 ^ 63 -> 0 <= share x T c <= x) as Hs.
  { intros x T c Hx Hc1 HT1. destruct (share_bounds x T c ltac:(lia) ltac:(lia) ltac:(lia)) as [H1 H2].
    split; [done|]. destruct (Z.eq_dec T 0) as [->|]; [unfold share; simpl; lia|nia]. }
  pose proof (Hs d (TotalDagBlocksCount st) (DagBlocksCount vs) Hd Hc ltac:(lia)) as H1.
  pose proof (Hs v (TotalVotesWeight st) (VoteWeight vs) Hv Hw ltac:(lia)) as H2.
  assert ((if 0 <? DagBlocksCount vs then u_div (u_mul (DagBlocksCount vs) d) (TotalDagBlocksCount st) else 0)
    = share d (TotalDagBlocksCount st) (DagBlocksCount vs)) as ->.
  { destruct (Z.ltb_spec 0 (DagBlocksCount vs)); [apply u_share; unfold word; nia|].
    assert (DagBlocksCount vs = 0) as -> by lia. unfold share. by case_match. }
  split; [|done]. destruct (Z.ltb_spec 0 (VoteWeight vs)).
  - rewrite u_share by (unfold word; nia). apply u_add_small; unfold word; lia.
  - assert (VoteWeight vs = 0) as -> by lia. unfold share at 3. case_match; rewrite ?Z.mul_0_l, ?Zdiv_0_l; lia.
Qed.
End parts.

(** ** The loop over the validators *)
Section distribute.
Context `{Uint256Laws} (cfg : ChainConfig) (Hcfg : cfg_ok cfg) (Hpct : percent_ok cfg).
Abbreviation MAX := (ValidatorMaximumStake (DPOS cfg)).

Lemma wp_AddValidatorRewards {B} (k : () -> M CT B) Q E now n pend s A v c d :
  rel n s A -> inv cfg now n pend A -> is_Some (a_val A !! v) -> 0 <= c -> 0 <= d ->
  (forall s' A', rel n s' A' -> inv cfg now n (pend - (c + d)) A' -> a_val A' = a_val A -> funds A' = funds A -> a_supply A' = a_supply A ->
     wp (k tt) Q E s') ->
  wp (u ← AddValidatorRewards v c d; k u) Q E s.
Proof.
  intros Hs Hi [x Hx] Hc Hd Hk. destruct (rew_of _ _ _ _ _ _ _ Hi Hx) as [r Hr].
  pose proof (iv_pools _ _ _ _ _ Hi _ _ Hr) as [Hp1 Hp2].
  unfold AddValidatorRewards. apply wp_assoc. eapply wp_ValidatorExists; [exact Hs|].
  rewrite bool_decide_true by (by eexists). cbn [negb]. apply wp_assoc. eapply wp_GetValidatorRewards; [exact Hs|].
  rewrite Hr. apply wp_assoc, wp_deref.
  eapply wp_ModifyValidatorRewards; [exact Hs|by eexists|simpl; lia|simpl; lia|]. intros s1 Hs1.
  eapply Hk; [exact Hs1| |done|done|done].
  pose proof (inv_rew cfg _ _ _ _ Hi v r (mkValidatorRewards (RewardsPool r + d) (CommissionRewardsPool r + c)) Hr
    ltac:(simpl; lia) ltac:(simpl; lia)) as Hi1. simpl in Hi1.
  match type of Hi1 with inv _ _ _ ?p _ => by replace (pend - (c + d)) with p by lia end.
Qed.

(** The balance of the contract's account grows. *)
Lemma wp_fund {B} (k : () -> M CT B) Q E now n pend s A z :
  rel n s A -> inv cfg now n pend A ->
  (forall s' A', rel n s' A' -> inv cfg now n (pend + z) A' -> a_val A' = a_val A -> funds A' = funds A + z -> a_supply A' = a_supply A ->
     wp (k tt) Q E s') ->
  wp (u ← AddBalance dpos_contract_address z; k u) Q E s.
Proof.
  intros [HL HA] Hi Hk. set (f := fun bal : gmap Address Z => <[dpos_contract_address := default 0 (bal !! dpos_contract_address) + z]> bal).
  assert (funds (a_set_bal f A) = funds A + z) as Hf by (unfold funds, f; simpl; by rewrite lookup_insert_eq).
  apply (Hk _ (a_set_bal f A)); [split; [exact HL|]| |done|done|done].
  - by rewrite <- HA.
  - eapply inv_bal; [exact Hi|]. unfold f at 1. rewrite lookup_insert_eq. simpl. unfold funds. nia.
Qed.

Lemma commission_of_bounds reward (x : Validator) :
  0 <= reward < 2 ^ 192 -> commission_ok x -> 0 <= commission_of reward x <= reward.
Proof.
  intros Hr [Hc0 Hc1]. unfold commission_of, MaxCommission in *.
  rewrite u_mul_small by (unfold word; nia). rewrite u_div_nonzero by (unfold word; nia).
  split; [apply Z.div_pos; nia|]. apply Z.div_le_upper_bound; nia.
Qed.

Lemma wp_reward_validator {B} (k : Z * Z -> M CT B) Q E now n s A d v st e m :
  rel n s A -> inv cfg now n (- m) A -> 0 <= m -> 0 <= fee (snd e) < 2 ^ 255 ->
  0 <= validator_reward d v st (snd e) -> m + validator_reward d v st (snd e) < 2 ^ 192 ->
  (forall s' A' m' f, rel n s' A' -> inv cfg now n (- m') A' -> m <= m' <= m + validator_reward d v st (snd e) ->
     0 <= f <= fee (snd e) -> funds A' = funds A + f -> a_supply A' = a_supply A -> wp (k (m', m')) Q E s') ->
  wp (acc ← reward_validator d v st e (m, m); k acc) Q E s.
Proof.
  intros Hs Hi Hm Hfee Hr Hb Hk. destruct e as [a vs]. simpl in *. set (w := validator_reward d v st vs) in *.
  apply wp_assoc. eapply wp_GetValidator; [exact Hs|].
  destruct (a_val A !! a) as [x|] eqn:Hx; [|eapply (Hk _ A m 0); [done|done|lia|lia|lia|done]].
  pose proof (commission_of_bounds w x ltac:(lia) (iv_comm _ _ _ _ _ Hi _ _ Hx)) as Hc.
  cbv zeta. cbn [fst snd]. rewrite (u_add_small m w) by (unfold word; lia).
  rewrite (u_sub_small w) by (unfold word; lia). apply wp_assoc.
  assert (forall s1 A1 f, rel n s1 A1 -> inv cfg now n (- m + f) A1 -> a_val A1 = a_val A -> funds A1 = funds A + f ->
    a_supply A1 = a_supply A -> 0 <= f <= fee vs ->
    wp (y ← (_ ← AddValidatorRewards a (commission_of w x + f) (w - commission_of w x); ret (m + w, m + w)); k y) Q E s1)
    as Hend.
  { intros s1 A1 f Hs1 Hi1 Hv1 Hf1 Hsu1 Hf. apply wp_assoc.
    eapply wp_AddValidatorRewards; [exact Hs1|exact Hi1|rewrite Hv1; by eexists|lia|lia|].
    intros s2 A2 Hs2 Hi2 _ Hf2 Hsu2. apply wp_bind_ret. eapply (Hk _ A2 (m + w) f); [done| |lia|done|lia|congruence].
    match type of Hi2 with inv _ _ _ ?p _ => by replace (- (m + w)) with p by lia end. }
  assert (wp (y ← (_ ← AddValidatorRewards a (commission_of w x) (w - commission_of w x); ret (m + w, m + w)); k y) Q E s)
    as Hplain.
  { replace (commission_of w x) with (commission_of w x + 0) at 1 by lia.
    eapply Hend; [exact Hs|by rewrite Z.add_0_r|done|lia|done|lia]. }
  unfold fee in *. destruct (FeesRewards vs) as [f|]; [|exact Hplain].
  destruct (Z.ltb_spec 0 f); [|exact Hplain]. apply wp_assoc.
  eapply wp_fund; [exact Hs|exact Hi|]. intros s1 A1 Hs1 Hi1 Hv1 Hf1 Hsu1. apply wp_bind_ret.
  rewrite FromBig_small by (unfold word; lia). simpl fst. rewrite u_add_small by (unfold word; lia).
  eapply Hend; [exact Hs1|exact Hi1|done|done|done|lia].
Qed.

Lemma wp_reward_validators {B} (k : Z * Z -> M CT B) Q E now n s A d v st es m :
  rel n s A -> inv cfg now n (- m) A -> 0 <= m ->
  (forall e, e ∈ es -> 0 <= fee (snd e) < 2 ^ 255 /\ 0 <= validator_reward d v st (snd e)) ->
  m + zsum (fun e => validator_reward d v st (snd e)) es < 2 ^ 192 ->
  (forall s' A' m' f, rel n s' A' -> inv cfg now n (- m') A' ->
     m <= m' <= m + zsum (fun e => validator_reward d v st (snd e)) es ->
     0 <= f <= zsum (fun e => fee (snd e)) es -> funds A' = funds A + f -> a_supply A' = a_supply A -> wp (k (m', m')) Q E s') ->
  wp (acc ← reward_validators d v st es (m, m); k acc) Q E s.
Proof.
  revert s A m. induction es as [|e es IH]; intros s A m Hs Hi Hm He Hb Hk; simpl in *.
  { eapply (Hk _ A m 0); [done|done|lia|lia|lia|done]. }
  destruct (He e ltac:(left)) as [Hf Hr].
  assert (0 <= zsum (fun e => validator_reward d v st (snd e)) es) as Hnn.
  { apply zsum_nonneg. intros y Hy. apply He. by right. }
  apply wp_assoc. eapply wp_reward_validator; [exact Hs|exact Hi|done|done|done|lia|].
  intros s1 A1 m1 f1 Hs1 Hi1 Hm1 Hf1 Hfu1 Hsu1.
  eapply IH; [exact Hs1|exact Hi1|lia|intros y Hy; apply He; by right|lia|].
  intros s2 A2 m2 f2 Hs2 Hi2 Hm2 Hf2 Hfu2 Hsu2. eapply (Hk _ A2 m2 (f1 + f2)); [done|done|lia|lia|lia|congruence].
Qed.

(** ** The block's reward *)
Definition supply_of (s : CT) : Z :=
  default (GenesisBalancesSum cfg + minted_tokens s + GeneratedRewards (AspenHf (Hardforks cfg))) (total_supply s).

Definition block_reward (now : Z) (s : CT) : Z :=
  if IsOnAspenHardforkPartTwo (Hardforks cfg) now
  then fst (CalculateBlockReward cfg (MaxSupply (AspenHf (Hardforks cfg))) (amount_delegated s) (supply_of s))
  else u_div (u_mul (amount_delegated s) (YieldPercentage (DPOS cfg))) (u_mul 100 (BlocksPerYear (DPOS cfg))).

(** The supplies fit a word, so that computing them does not panic. *)
Definition supply_ok (s : CT) : Prop :=
  word (MaxSupply (AspenHf (Hardforks cfg)))
  /\ word (GenesisBalancesSum cfg + minted_tokens s + GeneratedRewards (AspenHf (Hardforks cfg))).

Lemma wp_put_aside {B} (k : () -> M CT B) Q E n s A (f : scalar) (b : option bytes) :
  rel n s A -> f <> SEligibleVoteCount -> f <> SAmountDelegated -> (forall s', rel n s' A -> wp (k tt) Q E s') ->
  wp (u ← scalar_put f b; k u) Q E s.
Proof.
  intros [[L HL] <-] Hf1 Hf2 Hk.
  eapply (wp_bind_done _ _ _ _ _ tt (set_storage (ts_update (c_storage s) KdScalar f
    (b ≫= fun v => if present KdScalar v then Some v else None)) s)).
  { destruct s as [[] ? ? ? ? ? ? ? ? ? ?]. by destruct b. }
  apply Hk. split; [by exists L|]. unfold abs. simpl. unfold mput.
  destruct (b ≫= _); by rewrite ?lookup_insert_ne, ?lookup_delete_ne.
Qed.

Lemma wp_put_yield {B} (k : () -> M CT B) Q E n s A y :
  rel n s A -> (forall s', rel n s' A -> wp (k tt) Q E s') -> wp (u ← saveYieldDb y; k u) Q E s.
Proof.
  intros [[L HL] <-] Hk.
  eapply (wp_bind_done _ _ _ _ _ tt (set_storage (ts_update (c_storage s) KdYield tt (Some y)) s)).
  { by destruct s as [[] ? ? ? ? ? ? ? ? ? ?]. }
  apply Hk. split; [by exists L|done].
Qed.

Lemma wp_set_supply {B} (k : () -> M CT B) Q E n s A m t :
  rel n s A -> (forall s', rel n s' (a_set_supply (m, t) A) -> wp (k tt) Q E s') ->
  wp (u ← modify_st (set_supply m t); k u) Q E s.
Proof. intros [HL <-] Hk. apply (Hk (set_supply m t s)). by split. Qed.

Lemma inv_supply now n pend A z : inv cfg now n pend A -> inv cfg now n pend (a_set_supply z A).
Proof. intros []. by split. Qed.

(** [processBlockReward]: the reward of the block, the supply known. *)
Lemma wp_processBlockReward {B} (k : option Z -> M CT B) Q E now n s A :
  rel n s A -> supply_ok s -> IsOnAspenHardforkPartTwo (Hardforks cfg) now = true ->
  (forall s', rel n s' (a_set_supply (minted_tokens s, Some (supply_of s)) A) -> wp (k (Some (block_reward now s))) Q E s') ->
  wp (o ← processBlockReward cfg now; k o) Q E s.
Proof.
  intros Hs [Hmax Hsum] Ha Hk. unfold block_reward in Hk. rewrite Ha in Hk. unfold processBlockReward. rewrite Ha. simpl negb. cbv iota.
  apply wp_assoc. eapply (wp_bind_done _ _ _ _ _ (MaxSupply (AspenHf (Hardforks cfg)))).
  { unfold yield_max_supply. rewrite FromBig_small by done. reflexivity. }
  apply wp_assoc, wp_gets. apply wp_assoc.
  assert (forall s1, rel n s1 (a_set_supply (minted_tokens s, Some (supply_of s)) A) -> amount_delegated s1 = amount_delegated s ->
    wp (o ← (o ← gets total_supply; supply ← deref o; amount ← gets amount_delegated;
             let '(blockReward, yield) := CalculateBlockReward cfg (MaxSupply (AspenHf (Hardforks cfg))) amount supply in
             _ ← saveYieldDb (u64 yield); ret (Some blockReward)); k o) Q E s1) as Hend.
  { intros s1 Hs1 Ham. apply wp_assoc, wp_gets.
    assert (total_supply s1 = Some (supply_of s)) as -> by (destruct Hs1 as [_ E1]; by injection E1).
    apply wp_assoc, wp_deref. apply wp_assoc, wp_gets. rewrite Ham.
    destruct (CalculateBlockReward _ _ _ _) as [R y]. apply wp_assoc. simpl in Hk.
    eapply wp_put_yield; [exact Hs1|]. intros s2 Hs2. apply wp_bind_ret. by apply Hk. }
  assert (amount_delegated s = a_amount A) as Ham by (destruct Hs as [_ <-]; done).
  unfold supply_of in *. destruct (total_supply s) as [t|] eqn:Ht; simpl in *.
  - apply wp_bind_ret. apply Hend; [|done]. destruct Hs as [HL <-]. split; [done|]. unfold a_set_supply, abs. simpl. by rewrite Ht.
  - apply wp_assoc, wp_gets. apply wp_assoc.
    eapply (wp_bind_done _ _ _ _ _ (GenesisBalancesSum cfg + minted_tokens s + GeneratedRewards (AspenHf (Hardforks cfg)))).
    { unfold CalculateTotalSupply. rewrite FromBig_small by done. reflexivity. }
    apply wp_assoc. eapply wp_set_supply; [exact Hs|]. intros s1 Hs1. apply wp_assoc.
    unfold saveTotalSupplyDb. apply wp_assoc, wp_gets.
    assert (total_supply s1 = Some (GenesisBalancesSum cfg + minted_tokens s + GeneratedRewards (AspenHf (Hardforks cfg)))) as ->
      by (destruct Hs1 as [_ E1]; by injection E1).
    apply wp_assoc, wp_deref. eapply wp_put_aside; [exact Hs1|done|done|]. intros s2 Hs2.
    eapply wp_put_aside; [exact Hs2|done|done|]. intros s3 Hs3. apply Hend; [exact Hs3|].
    rewrite Ham. destruct Hs3 as [_ E3]. by injection E3.
Qed.

Lemma stats_rewards d v st :
  stats_ok st -> 0 <= d -> 0 <= v -> d + v < 2 ^ 192 ->
  0 <= zsum (fun e => validator_reward d v st (snd e)) (ValidatorsStats st) <= d + v
  /\ forall e, e ∈ ValidatorsStats st -> 0 <= fee (snd e) < 2 ^ 255 /\ 0 <= validator_reward d v st (snd e).
Proof.
  intros [Hd Hv Hf Hds Hvs Hm] Hd0 Hv0 Hdv.
  assert (forall {X} (f : X -> Z) l e, e ∈ l -> (forall y, y ∈ l -> 0 <= f y) -> 0 <= f e <= zsum f l) as Hone.
  { clear. intros X f l e He Hf. split; [by apply Hf|]. induction He as [e l|e y l He IH]; simpl.
    - pose proof (zsum_nonneg f l (fun y Hy => Hf y ltac:(by right))). lia.
    - pose proof (Hf y ltac:(left)). specialize (IH (fun z Hz => Hf z ltac:(by right))). lia. }
  assert (forall e, e ∈ ValidatorsStats st -> 0 <= DagBlocksCount (snd e)) as Hd1 by (intros e He; by apply Hd).
  assert (forall e, e ∈ ValidatorsStats st -> 0 <= VoteWeight (snd e)) as Hv1 by (intros e He; by apply Hv).
  assert (forall e, e ∈ ValidatorsStats st ->
    validator_reward d v st (snd e) = share d (TotalDagBlocksCount st) (DagBlocksCount (snd e))
      + share v (TotalVotesWeight st) (VoteWeight (snd e)) /\ 0 <= validator_reward d v st (snd e)) as Hshare.
  { intros e He. pose proof (Hone _ (fun e => DagBlocksCount (snd e)) _ _ He Hd1).
    pose proof (Hone _ (fun e => VoteWeight (snd e)) _ _ He Hv1).
    destruct (validator_reward_share d v st (snd e)) as (-> & ? & ?); simpl in *; lia. }
  split.
  - assert (zsum (fun e => validator_reward d v st (snd e)) (ValidatorsStats st)
      = zsum (fun e => share d (TotalDagBlocksCount st) (DagBlocksCount (snd e))
                       + share v (TotalVotesWeight st) (VoteWeight (snd e))) (ValidatorsStats st)) as ->.
    { clear -Hshare. induction (ValidatorsStats st) as [|e l IH]; simpl; [done|].
      rewrite (proj1 (Hshare e ltac:(left))), IH; [done|]. intros y Hy. apply Hshare. by right. }
    rewrite zsum_add.
    pose proof (zsum_nonneg _ _ Hd1). pose proof (zsum_nonneg _ _ Hv1).
    pose proof (zsum_share (fun e => DagBlocksCount (snd e)) d (TotalDagBlocksCount st) (ValidatorsStats st)
      ltac:(done) ltac:(lia) Hd1 ltac:(lia)).
    pose proof (zsum_share (fun e => VoteWeight (snd e)) v (TotalVotesWeight st) (ValidatorsStats st)
      ltac:(done) ltac:(lia) Hv1 ltac:(lia)). simpl in *. lia.
  - intros e He. split; [|by apply Hshare]. unfold fee. destruct (FeesRewards (snd e)) as [f|] eqn:E1; [|lia].
    specialize (Hf _ _ He E1). lia.
Qed.

Lemma wp_reward_author {B} (k : Z * Z -> M CT B) Q E now n s A a z :
  rel n s A -> inv cfg now n 0 A -> 0 <= z < 2 ^ 192 ->
  (forall s' A' m, rel n s' A' -> inv cfg now n (- m) A' -> 0 <= m <= z -> funds A' = funds A ->
     a_supply A' = a_supply A -> wp (k (m, m)) Q E s') ->
  wp (acc ← reward_author a z; k acc) Q E s.
Proof.
  intros Hs Hi Hz Hk. unfold reward_author.
  destruct (Z.ltb_spec 0 z) as [Hp|Hp]; [|eapply (Hk _ A 0); [done|done|lia|done|done]].
  apply wp_assoc. eapply wp_GetValidator; [exact Hs|].
  destruct (a_val A !! a) as [x|] eqn:Hx; [|eapply (Hk _ A 0); [done|done|lia|done|done]].
  pose proof (commission_of_bounds z x Hz (iv_comm _ _ _ _ _ Hi _ _ Hx)) as Hc.
  rewrite (u_sub_small z) by (unfold word; lia). apply wp_assoc.
  eapply wp_AddValidatorRewards; [exact Hs|exact Hi|by eexists|lia|lia|]. intros s1 A1 Hs1 Hi1 _ Hf1 Hsu1.
  rewrite (u_add_small 0 z) by (unfold word; lia). apply wp_bind_ret.
  eapply (Hk _ A1 z); [done| |lia|done|done].
  match type of Hi1 with inv _ _ _ ?p _ => by replace (- z) with p by lia end.
Qed.

(** The rewards of a block: everything minted is covered, and at most the
    block's reward is minted. *)
Definition distributed (now n : Z) (s : CT) (st : RewardsStats) (minted : Z) (s' : CT) : Prop :=
  ok cfg now n 0 s'
  /\ 0 <= minted <= block_reward now s
  /\ balance s + minted <= balance s' <= balance s + minted + zsum (fun e => fee (snd e)) (ValidatorsStats st)
  /\ (IsOnAspenHardforkPartTwo (Hardforks cfg) now = true -> total_supply s' = Some (u_add (supply_of s) minted)).

Lemma distribute_safe now n s st :
  ok cfg now n 0 s -> stats_ok st -> supply_ok s -> 0 <= block_reward now s < 2 ^ 192 ->
  wp (DistributeRewards cfg now st) (distributed now n s st) (fun _ _ => False) s.
Proof.
  intros (A & Hs & Hi) Hst Hsup HR. pose proof (rel_balance _ _ _ Hs) as Hbal. unfold DistributeRewards.
  assert (lazy_init_done s = true) as Hinit by (destruct Hs as [_ <-]; apply (iv_init _ _ _ _ _ Hi)).
  eapply wp_bind_done; [unfold lazy_init, bindM, gets; by rewrite Hinit|].
  set (two := IsOnAspenHardforkPartTwo (Hardforks cfg) now). set (R := block_reward now s) in *.
  assert (forall s1 A1, rel n s1 A1 -> inv cfg now n 0 A1 -> funds A1 = balance s ->
    (two = true -> a_supply A1 = (minted_tokens s, Some (supply_of s))) ->
    wp (let '(dagProposersReward, votesReward, blockAuthorReward) := reward_parts cfg R st in
        acc ← reward_author (BlockAuthor st) blockAuthorReward;
        '(newMintedRewards, totalReward) ←
          reward_validators dagProposersReward votesReward st (ValidatorsStats st) acc;
        _ ← AddBalance dpos_contract_address totalReward;
        _ ← (if two then
               s ← get_st;
               t ← deref (total_supply s);
               _ ← modify_st (set_supply (minted_tokens s) (Some (u_add t newMintedRewards)));
               saveTotalSupplyDb
             else if IsOnAspenHardforkPartOne (Hardforks cfg) now then
               _ ← modify_st (fun s => set_supply (u_add (minted_tokens s) newMintedRewards) (total_supply s) s);
               saveMintedTokensDb
             else ret tt);
        ret newMintedRewards) (distributed now n s st) (fun _ _ => False) s1) as Hrest.
  { intros s1 A1 Hs1 Hi1 Hf1 Hsup1.
    destruct (reward_parts cfg R st) as [[d v] b] eqn:Hparts. pose proof Hst as [_ _ _ Hds Hvs Hmx].
    assert (0 <= TotalVotesWeight st) as Htv.
    { pose proof (zsum_nonneg (fun e => VoteWeight (snd e)) (ValidatorsStats st) (fun e He => proj1 (so_vote _ Hst e He))). lia. }
    destruct (reward_parts_bounds cfg Hpct R st d v b HR ltac:(lia) Hmx Hparts) as (Hd & Hv & Hb & Hdvb).
    destruct (stats_rewards d v st Hst Hd Hv ltac:(lia)) as [Hsum Heach].
    eapply wp_reward_author; [exact Hs1|exact Hi1|lia|]. intros s2 A2 m Hs2 Hi2 Hm Hf2 Hsu2.
    eapply wp_reward_validators; [exact Hs2|exact Hi2|lia|exact Heach|lia|].
    intros s3 A3 m3 f Hs3 Hi3 Hm3 Hf Hf3 Hsu3.
    eapply wp_fund; [exact Hs3|exact Hi3|]. intros s4 A4 Hs4 Hi4 _ Hf4 Hsu4.
    replace (- m3 + m3) with 0 in Hi4 by lia.
    assert (forall s5 z, rel n s5 (a_set_supply z A4) -> (two = true -> snd z = Some (u_add (supply_of s) m3)) ->
      distributed now n s st m3 s5) as Hend.
    { intros s5 z Hs5 Hz. split_and!; [eexists; split; [exact Hs5|by apply inv_supply]|lia|fold R; lia|..];
        rewrite ?(rel_balance _ _ _ Hs5); change (funds (a_set_supply z A4)) with (funds A4); try lia.
      intros Ht. rewrite <- (Hz Ht). destruct Hs5 as [_ E5]. apply (f_equal a_supply) in E5. simpl in E5. by rewrite <- E5. }
    destruct two eqn:Htwo.
    - apply wp_assoc. eapply (wp_bind_done _ _ _ _ _ s4 s4); [done|]. apply wp_assoc.
      assert (total_supply s4 = Some (supply_of s)) as ->.
      { specialize (Hsup1 eq_refl). rewrite <- Hsu2, <- Hsu3, <- Hsu4 in Hsup1. destruct Hs4 as [_ <-]. by injection Hsup1. }
      apply wp_deref, wp_assoc. eapply wp_set_supply; [exact Hs4|]. intros s5 Hs5.
      unfold saveTotalSupplyDb. apply wp_assoc, wp_gets, wp_assoc.
      assert (total_supply s5 = Some (u_add (supply_of s) m3)) as -> by (destruct Hs5 as [_ E5]; by injection E5).
      apply wp_deref. eapply wp_put_aside; [exact Hs5|done|done|]. intros s6 Hs6. apply wp_ret. by eapply Hend.
    - assert (rel n s4 (a_set_supply (a_supply A4) A4)) as Hs4' by (by destruct A4).
      destruct (IsOnAspenHardforkPartOne (Hardforks cfg) now).
      + apply wp_assoc.
        eapply (wp_bind_done _ _ _ _ _ tt (set_supply (u_add (minted_tokens s4) m3) (total_supply s4) s4)); [done|].
        assert (rel n (set_supply (u_add (minted_tokens s4) m3) (total_supply s4) s4)
          (a_set_supply (u_add (minted_tokens s4) m3, total_supply s4) A4)) as Hs5.
        { destruct Hs4 as [HL <-]. by split. }
        unfold saveMintedTokensDb. apply wp_assoc, wp_gets. eapply wp_put_aside; [exact Hs5|done|done|]. intros s6 Hs6.
        apply wp_ret. by eapply Hend.
      + apply wp_bind_ret, wp_ret. by eapply Hend. }
  destruct two eqn:Htwo.
  - apply wp_assoc. eapply wp_processBlockReward; [exact Hs|done|done|]. intros s1 Hs1. apply wp_deref. fold R.
    eapply Hrest; [exact Hs1|by apply inv_supply|by rewrite Hbal|done].
  - apply wp_assoc, wp_gets. unfold R, block_reward in Hrest. fold two in Hrest. rewrite Htwo in Hrest. apply wp_bind_ret.
    eapply Hrest; [exact Hs|exact Hi|by rewrite Hbal|done].
Qed.

(** ** The end of a block *)

(** What [EndBlockCall] stores: the counters that changed. *)
Definition put_scalar (f : scalar) (b : bytes) (s : CT) : CT :=
  set_storage (ts_update (c_storage s) KdScalar f (if present KdScalar b then Some b else None)) s.

Definition saved (s : CT) : CT :=
  let s1 := if eligible_vote_count_orig s =? eligible_vote_count s then s
            else set_votes (eligible_vote_count s) (eligible_vote_count s)
                   (put_scalar SEligibleVoteCount (ENC_b_endian_compact_64_1 (eligible_vote_count s)) s) in
  if amount_delegated_orig s =? amount_delegated s then s1
  else set_amount (amount_delegated s) (amount_delegated s)
         (put_scalar SAmountDelegated (u_Bytes (amount_delegated s)) s1).

(** The block is not the one whose end repairs listed redelegations. *)
Definition no_repair (now : Z) : Prop :=
  now <> FixRedelegateBlockNum (Hardforks cfg) \/ Redelegations (Hardforks cfg) = [].

Lemma EndBlockCall_run now (s : CT) :
  lazy_init_done s = true -> no_repair now -> EndBlockCall cfg now s = Done tt (saved s).
Proof.
  intros Hinit Hnow. unfold EndBlockCall, saved, when, bindM, get_st. rewrite Hinit. simpl negb. cbv iota.
  unfold fixRedelegateBlockNumFunc. unfold no_repair in Hnow.
  destruct s as [[] ? ? ? ? ? ? ? ? ? ?]; simpl.
  destruct (Z.eqb_spec now (FixRedelegateBlockNum (Hardforks cfg))) as [E|E];
    [destruct Hnow as [Hno|Hno]; [done|rewrite Hno]|]; destruct (_ =? _); destruct (_ =? _); reflexivity.
Qed.

Definition saved_counters (s : CT) : (Z * option bytes) * (Z * option bytes) := a_saved (abs s).

Lemma saved_rel n s A : rel n s A -> rel n (saved s) (a_set_saved (saved_counters (saved s)) A).
Proof.
  intros [[L HL] <-]. unfold saved, saved_counters. split; [exists L|];
    destruct (eligible_vote_count_orig s =? eligible_vote_count s);
    destruct (amount_delegated_orig s =? amount_delegated s); done.
Qed.

(** A stored counter reads back as it was. *)
Lemma stored_votes v : 0 <= v < 2 ^ 64 ->
  from_option DEC_b_endian_compact_64 (Some 0)
    (if present KdScalar (ENC_b_endian_compact_64_1 v) then Some (ENC_b_endian_compact_64_1 v) else None) = Some v.
Proof.
  intros Hv. assert (present KdScalar (ENC_b_endian_compact_64_1 v) = true) as ->; [|by apply compact_64_roundtrip].
  unfold present. rewrite ENC_b_endian_compact_64_1_size, length_uint_to_be. pose proof (SizeInBytes_range v).
  by destruct (SizeInBytes v); [lia|].
Qed.

Lemma stored_amount z : word z ->
  from_option u_SetBytes 0 (if present KdScalar (u_Bytes z) then Some (u_Bytes z) else None) = z.
Proof.
  intros Hz. pose proof (u_Bytes_nil z Hz) as Hnil. pose proof (u_SetBytes_Bytes z Hz) as Hb. unfold present.
  destruct (u_Bytes z) as [|b l] eqn:E; simpl; [|done]. symmetry. by apply Hnil.
Qed.

Lemma put_scalar_lookup f g b s :
  ts_scalar (c_storage (put_scalar f b s)) !! g
  = if decide (g = f) then (if present KdScalar b then Some b else None) else ts_scalar (c_storage s) !! g.
Proof.
  simpl. unfold mput. case_decide as Hg; [subst|].
  - destruct (negb _); [apply lookup_insert_eq|apply lookup_delete_eq].
  - destruct (negb _); [by rewrite lookup_insert_ne|by rewrite lookup_delete_ne].
Qed.

(** After the end of a block storage holds the current counters. *)
Lemma saved_current s :
  saved_ok (saved_counters s) -> 0 <= eligible_vote_count s < 2 ^ 64 -> word (amount_delegated s) ->
  saved_ok (saved_counters (saved s))
  /\ fst (fst (saved_counters (saved s))) = eligible_vote_count s
  /\ fst (snd (saved_counters (saved s))) = amount_delegated s.
Proof.
  unfold saved_ok, saved_counters, saved, abs. intros [Hv Ha] Hvr Har. cbn [a_saved fst snd] in *.
  pose proof (stored_votes _ Hvr) as Hsv. pose proof (stored_amount _ Har) as Hsa.
  destruct (Z.eqb_spec (eligible_vote_count_orig s) (eligible_vote_count s)) as [Ev|Ev];
    destruct (Z.eqb_spec (amount_delegated_orig s) (amount_delegated s)) as [Ea|Ea];
    cbn [c_storage set_votes set_amount eligible_vote_count_orig amount_delegated_orig];
    rewrite ?put_scalar_lookup; cbn [c_storage set_votes]; rewrite ?put_scalar_lookup;
    repeat ((case_decide; [done|]) || rewrite decide_True by done); repeat split; try done; try congruence.
Qed.
End distribute.
