(* ===== verification/DposCalls.v ===== *)
(** * Calls to the DPOS contract keep it solvent

    The handlers' lemmas of [DposSafe] put together: [Run] and [RequiredGas]
    of a transaction, and the EVM's [CALL] and [STATICCALL] into the contract
    with the transfer and the revert. *)
From S2P Require Import Prelude Bytes Crypto ChainConfig Uint256 Storage IterableMap DposStorage Validators Dpos DposRewards DposRun EvmCall DposTyped DposInv DposSafe.

(** The methods a transaction changes the contract with. *)
Definition transaction (m : Method) : bool :=
  match m with
  | M_delegate | M_undelegate | M_undelegateV2 | M_confirmUndelegate | M_confirmUndelegateV2
  | M_cancelUndelegate | M_cancelUndelegateV2 | M_reDelegate | M_claimRewards | M_claimAllRewards _
  | M_claimCommissionRewards | M_setCommission | M_registerValidator | M_setValidatorInfo => true
  | _ => false
  end.

Section calls.
Context `{Uint256Laws} `{CryptoLaws} (cfg : ChainConfig) (Hcfg : cfg_ok cfg) (fuel : nat).
Abbreviation hf := (Hardforks cfg).

(** What the theorems ask of a call at block [now].  Undelegation ids are
    64-bit words and commissions 16-bit ones, as the ABI decodes them.  Left
    out are calls the code accepts although they break what is proved here:
    an undelegation of nothing ([undelegate_nothing_dangles] in
    [DposFindings]); a redelegation that empties a validator which
    undelegations wait for ([redelegate_loses_state]), and while the code
    does not refuse them yet one of nothing or to the same validator; a claim
    of commission that is not cleared ([commission_claimed_twice]); and,
    before the first Aspen hardfork, the batchless [claimAllRewards], which
    panics ([claim_all_panics_early]). *)
Definition admissible (now : Z) (s : CT) (m : Method) : string + args_of m -> Prop :=
  match m return string + args_of m -> Prop with
  | M_undelegate | M_undelegateV2 => fun args =>
      match args with inr (_, amount) => 0 < amount | inl _ => True end
  | M_confirmUndelegateV2 | M_cancelUndelegateV2 => fun args =>
      match args with inr (_, id) => 0 <= id < 2 ^ 64 | inl _ => True end
  | M_setCommission => fun args => match args with inr (_, c) => 0 <= c < 2 ^ 16 | inl _ => True end
  | M_registerValidator => fun args => match args with inr a => 0 <= ra_Commission a < 2 ^ 16 | inl _ => True end
  | M_reDelegate => fun args =>
      match args with inr (from, to, amount) => redelegation_ok cfg now (abs s) from to amount | inl _ => True end
  | M_claimAllRewards false => fun _ => IsOnAspenHardforkPartOne hf now = true
  | M_claimCommissionRewards => fun args =>
      match args with inr v => commission_cleared cfg now (abs s) v | inl _ => True end
  | _ => fun _ => True
  end.

Definition admissible_input (now : Z) (s : CT) (i : Input) : Prop :=
  match i with
  | InCall m args => transaction m = true /\ admissible now s m args
  | _ => True
  end.

(** With the hardforks up to the second Aspen one active, the types of the
    arguments and the first two of these are all that is asked. *)
Definition typed_args (m : Method) : string + args_of m -> Prop :=
  match m return string + args_of m -> Prop with
  | M_confirmUndelegateV2 | M_cancelUndelegateV2 => fun args =>
      match args with inr (_, id) => 0 <= id < 2 ^ 64 | inl _ => True end
  | M_setCommission => fun args => match args with inr (_, c) => 0 <= c < 2 ^ 16 | inl _ => True end
  | M_registerValidator => fun args => match args with inr a => 0 <= ra_Commission a < 2 ^ 16 | inl _ => True end
  | M_reDelegate => fun args => match args with inr (_, _, amount) => 0 <= amount | inl _ => True end
  | _ => fun _ => True
  end.

Definition sensible (now : Z) (s : CT) (m : Method) : string + args_of m -> Prop :=
  match m return string + args_of m -> Prop with
  | M_undelegate | M_undelegateV2 => fun args => match args with inr (_, amount) => 0 < amount | inl _ => True end
  | M_reDelegate => fun args =>
      match args with
      | inr (from, to, amount) => forall (x : Validator) r, a_val (abs s) !! from = Some x -> a_rew (abs s) !! from = Some r ->
          from_kept cfg now amount x r
      | inl _ => True
      end
  | _ => fun _ => True
  end.

Lemma admissible_active now s m args :
  FixRedelegateBlockNum hf < now -> IsOnAspenHardforkPartOne hf now = true -> IsOnAspenHardforkPartTwo hf now = true ->
  IsOnPhalaenopsisHardfork hf now = true -> typed_args m args -> sensible now s m args -> admissible now s m args.
Proof.
  intros Hfix Hone Htwo Hph Ht Hs. destruct m as [| | | | | | | | |[]| | | | | | | | | | | | | | |]; try done; simpl in *.
  - destruct args as [|[[from to] amount]]; [done|]. split_and!; [done|lia|congruence|]. intros _ _. by apply Hs.
  - destruct args; [done|]. intros _ E. congruence.
Qed.

(** How much a call moves the bound on the contract's counters. *)
Definition call_cost (s : CT) (caller : Address) : Z := 20 + 2 * delegations s caller.

Lemma ok_less now n pend s : ok cfg now n pend s -> 0 <= pend -> ok cfg now n 0 s.
Proof.
  intros (A & Hs & Hi) Hp. exists A. split; [done|]. destruct Hi. split; try done.
  pose proof (cf_max _ Hcfg). nia.
Qed.

Lemma ok_after_mono now n n' s s' : ok_after cfg now n s s' -> n <= n' -> ok_after cfg now n' s s'.
Proof. intros [Hok Hb] Hn. split; [by eapply ok_mono|done]. Qed.

Lemma ok_init now n pend s : ok cfg now n pend s -> lazy_init_done s = true.
Proof. intros (A & [_ <-] & Hi). apply (iv_init _ _ _ _ _ Hi). Qed.

Lemma lazy_init_done_run (s : CT) : lazy_init_done s = true -> lazy_init cfg s = Done tt s.
Proof. intros Hs. unfold lazy_init, bindM, gets. by rewrite Hs. Qed.

Section one_call.
Context (now depth : Z) (delayed : Delayed TStore) (n : Z) (s : CT) (ctx : CallFrame).
Context (Hok : ok cfg now n (Value ctx) s) (Hn : 0 <= n).
Abbreviation m' := (n + call_cost s (CallerAccount ctx)).
Context (Hroom : room cfg m' s) (Hval : 0 <= Value ctx) (Hacc : Account ctx = dpos_contract_address).
Abbreviation safe m := (wp m (fun _ s' => ok_after cfg now m' s s') (fun _ s' => s' = s) s).

Lemma cost_nonneg : 0 <= delegations s (CallerAccount ctx).
Proof. destruct Hok as (A & Hs & _). apply (delegations_run n s A _ Hs). Qed.

Lemma room_n : room cfg n s.
Proof. pose proof cost_nonneg. unfold room, call_cost in *. lia. Qed.

(** A handler's lemma, with its own bound, gives the call's. *)
Lemma safe_of {X} (h : M CT X) k :
  k <= n + 20 -> wp h (fun _ s' => ok_after cfg now k s s') (fun _ s' => s' = s) s -> safe h.
Proof.
  intros Hk Hh. eapply wp_mono; [exact Hh| |done]. intros u s' Ha. eapply ok_after_mono; [exact Ha|].
  pose proof cost_nonneg. unfold call_cost. lia.
Qed.

Lemma safe_then {X Y} (h : M CT X) (f : X -> Y) : safe h -> safe (x ← h; ret (f x)).
Proof. intros Hh. apply wp_bind. eapply wp_mono; [exact Hh|done|done]. Qed.

Lemma safe_unpack {X Y} (args : string + X) (h : X -> M CT Y) : (forall a, args = inr a -> safe (h a)) -> safe (unpack args h).
Proof. intros Hh. destruct args as [e|a]; [done|by apply Hh]. Qed.

Lemma run_method_safe m args :
  transaction m = true -> admissible now s m args ->
  safe (run_method cfg fuel now delayed ctx m args).
Proof.
  intros Ht Hadm. pose proof (ok_less _ _ _ _ Hok Hval) as Hok0. pose proof room_n as Hr. pose proof cost_nonneg.
  destruct m as [| | | | | | | | |old| | | | | | | | | | | | | | |]; try discriminate Ht; simpl in Hadm |- *;
    try (apply safe_unpack; intros a ->).
  - apply safe_then, (safe_of _ (n + 2)); [lia|by apply delegate_safe].
  - destruct a as [v z]. apply safe_then, safe_then, (safe_of _ (n + 3)); [lia|by apply undelegate_safe].
  - destruct a as [v z]. apply safe_then, (safe_of _ (n + 3)); [lia|by apply undelegate_safe].
  - apply safe_then, (safe_of _ n); [lia|by apply confirmUndelegate_safe].
  - destruct a as [v id]. apply safe_then, (safe_of _ n); [lia|by apply confirmUndelegate_safe].
  - apply safe_then, (safe_of _ (n + 2)); [lia|by apply cancelUndelegate_safe].
  - destruct a as [v id]. apply safe_then, (safe_of _ (n + 2)); [lia|by apply cancelUndelegate_safe].
  - destruct a as [[from to] z]. apply safe_then, (safe_of _ (n + 4)); [lia|by apply redelegate_safe].
  - apply safe_then, (safe_of _ (n + 2)); [lia|by apply claimRewards_safe].
  - destruct (IsOnAspenHardforkPartOne hf now) eqn:Ea.
    + apply safe_then. eapply wp_mono; [apply claimAllRewards_safe; try done| |done].
      * unfold room, call_cost in *. lia.
      * intros u s' Hs'. eapply ok_after_mono; [exact Hs'|]. unfold call_cost. lia.
    + destruct old; [|done]. apply safe_unpack. intros batch _. apply safe_then, (safe_of _ (n + 20)); [lia|].
      eapply wp_mono; [apply claimAllRewardsPreAspenHF_safe; try done|done|done].
      unfold room, call_cost in *. lia.
  - apply safe_then, (safe_of _ n); [lia|by apply claimCommissionRewards_safe].
  - destruct a as [v c]. apply safe_then, (safe_of _ n); [lia|apply setCommission_safe; [done|lia]].
  - apply safe_then, (safe_of _ (n + 2)); [lia|apply registerValidator_safe; try done; lia].
  - destruct a as [[v d] e]. apply safe_then, (safe_of _ n); [lia|by apply setValidatorInfo_safe].
Qed.

(** [Run]: no panic, an error leaves the state as it was, a result keeps the
    invariant. *)
Lemma run_safe i : admissible_input now s i -> safe (Run cfg fuel now depth delayed ctx i).
Proof.
  intros Hadm. assert (forall r : M CT Result, safe r -> safe (_ ← lazy_init cfg; r)) as Hlazy.
  { intros r Hr. eapply wp_bind_done; [apply lazy_init_done_run; by eapply ok_init|done]. }
  assert (safe (ret RNone : M CT Result)) as Hnone.
  { apply (safe_of _ n); [lia|]. split; [by eapply ok_less|done]. }
  destruct i as [|e|e|e args|m args]; [done|..]; unfold Run; (destruct (_ && _); [done|]); apply Hlazy; simpl.
  - done.
  - by destruct (IsOnPhalaenopsisHardfork hf now).
  - destruct (negb _); [|done]. destruct (non_payable _ _ _ _); [done|]. by apply run_method_safe.
  - destruct Hadm as [Ht Hadm]. destruct (non_payable _ _ _ _); [done|]. destruct (_ && _); [done|].
    by apply run_method_safe.
Qed.

(** [RequiredGas] reads, and does not panic. *)
Lemma required_gas_safe i :
  admissible_input now s i -> wp (RequiredGas cfg fuel now ctx i) (fun _ s' => s' = s) (fun _ _ => False) s.
Proof.
  intros Hadm. destruct Hok as (A & Hs & Hi). destruct (delegations_run n s A (CallerAccount ctx) Hs) as [Hd _].
  assert (forall m args, transaction m = true -> admissible now s m args ->
    wp (method_gas cfg fuel now ctx m args) (fun _ s' => s' = s) (fun _ _ => False) s) as Hm.
  { intros m args Ht Ha. destruct m as [| | | | | | | | |old| | | | | | | | | | | | | | |]; try discriminate Ht; try done; simpl.
    destruct (IsOnAspenHardforkPartOne hf now) eqn:Ea; [by eapply wp_bind_done|]. simpl in Ha.
    destruct old; [|congruence]. destruct args as [e|batch]; [done|]. unfold gas_of_batch. by eapply wp_bind_done. }
  destruct i as [|e|e|e args|m args]; [done|..]; unfold RequiredGas;
    (eapply wp_bind_done; [apply lazy_init_done_run; by eapply ok_init|]); simpl.
  - done.
  - by destruct (IsOnPhalaenopsisHardfork hf now).
  - destruct (negb _); [|done]. destruct (non_payable _ _ _ _); [done|]. by apply Hm.
  - destruct Hadm as [Ht Ha]. destruct (non_payable _ _ _ _); [done|]. destruct (_ && _); [done|]. by apply Hm.
Qed.
End one_call.

(** ** The EVM's [CALL] *)
Lemma delegations_storage n (s s' : CT) A d :
  rel n s A -> c_storage s' = c_storage s -> delegations s' d = delegations s d.
Proof.
  intros [[L HL] _] E. unfold delegations, GetDelegationsCount, getDelegatorValidatorsList.
  rewrite !(get_count_run _ L); [done|apply HL|unfold imap_part; rewrite E; apply HL].
Qed.

Lemma admissible_input_storage now (s s' : CT) i :
  c_storage s' = c_storage s -> admissible_input now s i -> admissible_input now s' i.
Proof.
  intros E. destruct i as [| | | |m args]; try done. intros [Ht Ha]. split; [done|].
  destruct m; try done; simpl in *; unfold redelegation_ok, commission_cleared, abs in *; simpl in *; by rewrite E.
Qed.

(** The balances once [value] has moved from the caller to the contract. *)
Definition moved (a : Address) (value : Z) (bal : gmap Address Z) : gmap Address Z :=
  let bal1 := <[a := default 0 (bal !! a) - value]> bal in
  <[dpos_contract_address := default 0 (bal1 !! dpos_contract_address) + value]> bal1.

Lemma transfer_run (s : CT) a value :
  transfer a dpos_contract_address value s = Done tt (set_balances (moved a value (c_balances s)) s).
Proof. done. Qed.

Lemma moved_balance (s : CT) a value :
  a <> dpos_contract_address -> balance (set_balances (moved a value (c_balances s)) s) = balance s + value.
Proof.
  intros Ha. unfold balance, balance_of, moved. simpl. by rewrite lookup_insert_eq, lookup_insert_ne.
Qed.

Lemma moved_ok now n (s : CT) a value :
  ok cfg now n 0 s -> a <> dpos_contract_address ->
  ok cfg now n value (set_balances (moved a value (c_balances s)) s).
Proof.
  intros (A & [HL HA] & Hi) Ha. exists (a_set_bal (moved a value) A). split.
  - split; [exact HL|]. by rewrite <- HA.
  - eapply inv_bal; [exact Hi|]. unfold funds, moved. rewrite lookup_insert_eq, lookup_insert_ne by done. simpl.
    pose proof (cf_max _ Hcfg). nia.
Qed.

Lemma revert_moved (s : CT) b : RevertToSnapshot s (set_balances b s) = s.
Proof. by destruct s. Qed.

(** What a [CALL] into the contract leaves. *)
Definition called (now n : Z) (s : CT) (caller : Address) (value : Z) (r : string + option Result) (s' : CT) : Prop :=
  match r with
  | inl _ => s' = s
  | inr _ => ok cfg now (n + call_cost s caller) 0 s' /\ balance s' <= balance s + value
  end.

(** A [CALL] with a value, or a [STATICCALL], which carries none. *)
Definition plain_call (typ : OpCode) (value : Z) : Prop := typ = CALL \/ typ = STATICCALL /\ value = 0.

(** The contract's part of the call, once the EVM has moved the value. *)
Lemma precompiled_safe now depth delayed n (s : CT) b caller gas value i :
  ok cfg now n value (set_balances b s) -> balance (set_balances b s) = balance s + value -> 0 <= n ->
  n + call_cost s caller < 2 ^ 30 -> ok cfg now n 0 s ->
  balance s + value < 2 ^ 256 -> balance s + value < 2 ^ 64 * VoteEligibilityBalanceStep (DPOS cfg) ->
  0 <= value -> admissible_input now s i ->
  let p := dpos_precompiled cfg fuel now depth delayed i in
  let frame := mkCallFrame caller dpos_contract_address value in
  wp ('(gas_left, r) ← (gas_required ← pc_RequiredGas p frame;
        if gas_required <=? gas then
          r ← catch (pc_Run p frame); ret (gas - gas_required, sum_map id Some (r : string + Result))
        else ret (gas, inl ErrOutOfGas));
      match r with
      | inl err =>
          _ ← modify_st (RevertToSnapshot s);
          ret (if negb (String.eqb err ErrExecutionReverted) && is_none (Some p) then 0 else gas_left, inl err)
      | inr v => ret (gas_left, inr v)
      end)
    (fun r => called now n s caller value (snd r)) (fun _ _ => False) (set_balances b s : CT).
Proof.
  intros Hok1 Hb1 Hn Hb Hok Hf1 Hf2 Hval Hadm p ctx. set (s1 := set_balances b s) in *.
  assert (call_cost s1 (CallerAccount ctx) = call_cost s caller) as Hcost.
  { unfold call_cost. destruct Hok as (A & Hs & _). by rewrite (delegations_storage n s s1 A). }
  assert (0 <= call_cost s caller) as Hc0.
  { unfold call_cost. destruct Hok as (A & Hs & _). pose proof (delegations_run n s A caller Hs). lia. }
  assert (room cfg (n + call_cost s1 (CallerAccount ctx)) s1) as Hroom.
  { rewrite Hcost. unfold room. rewrite Hb1. lia. }
  assert (admissible_input now s1 i) as Hadm1 by by eapply admissible_input_storage.
  pose proof (required_gas_safe now n s1 ctx Hok1 i Hadm1) as Hgas.
  pose proof (run_safe now depth delayed n s1 ctx Hok1 Hn Hroom Hval eq_refl i Hadm1) as Hrun.
  apply wp_assoc. subst p. simpl pc_RequiredGas. eapply wp_mono in Hgas; [apply wp_bind; exact Hgas| |done].
  cbv beta. intros g s2 ->. destruct (g <=? gas).
  - apply wp_assoc. simpl pc_Run. apply wp_bind.
    unfold wp, catch in *. destruct (Run cfg fuel now depth delayed ctx i s1) as [r s3|e s3|]; [|subst s3|done]; simpl.
    + destruct Hrun as [Hok3 Hb3]. rewrite Hcost in Hok3. split; [done|]. by rewrite Hb1 in Hb3.
    + apply revert_moved.
  - apply wp_bind_ret. apply wp_bind. apply wp_ret. apply revert_moved.
Qed.

Lemma touched_ok now n (s : CT) x :
  ok cfg now n 0 s -> x = balance s -> ok cfg now n 0 (set_balances (<[dpos_contract_address := x]> (c_balances s)) s).
Proof.
  intros (A & [HL HA] & Hi) ->. exists (a_set_bal (<[dpos_contract_address := balance s]>) A). split.
  - split; [exact HL|]. by rewrite <- HA.
  - eapply inv_bal; [exact Hi|]. rewrite (rel_balance n s A (conj HL HA)). unfold funds. rewrite lookup_insert_eq. simpl. lia.
Qed.

Lemma evm_call_safe run now depth delayed n (s : CT) typ caller code nil_ gas value i :
  plain_call typ value ->
  ok cfg now n 0 s -> 0 <= n -> n + call_cost s (ref_Account caller) < 2 ^ 30 ->
  balance s + value < 2 ^ 256 -> balance s + value < 2 ^ 64 * VoteEligibilityBalanceStep (DPOS cfg) ->
  0 <= value -> ref_Account caller <> dpos_contract_address -> admissible_input now s i ->
  wp (call run typ depth caller dpos_contract_address (Some (dpos_precompiled cfg fuel now depth delayed i))
        code nil_ gas value)
    (fun p => called now n s (ref_Account caller) value (snd p)) (fun _ _ => False) s.
Proof.
  intros Htyp Hok Hn Hb Hf1 Hf2 Hval Hca Hadm. unfold call. destruct (CallCreateDepth <? depth); [done|].
  eapply (wp_bind_done _ _ _ _ _ s s); [done|]. cbv zeta.
  destruct (_ && _ && _); [done|].
  rewrite andb_false_r. destruct Htyp as [->|[-> ->]].
  - eapply wp_bind_done; [apply transfer_run|]. eapply wp_bind_done; [done|].
    apply precompiled_safe; try done; [by apply moved_ok|by apply moved_balance].
  - eapply (wp_bind_done _ _ _ _ _ tt (set_balances (<[dpos_contract_address := balance s + 0]> (c_balances s)) s)); [done|].
    eapply wp_bind_done; [done|].
    apply precompiled_safe; try done; [apply touched_ok; [done|lia]|].
    unfold balance, balance_of. simpl. by rewrite lookup_insert_eq.
Qed.
End calls.
