(* ===== verification/DposHistory.v ===== *)
(** * Histories of the contract

    The contract's life as a transition system.  A history starts from the
    empty contract or from the genesis block ([ApplyGenesis]) and goes on
    with [CALL]s and [STATICCALL]s of accounts and contracts, block rewards
    and ends of blocks, in any order; every state of a history satisfies the
    staking invariant.

    A history is less than everything a chain can do.  Its calls
    - are not undone later: the storage of the contract is not journalled, so
      a frame around the call that reverts takes back the payment and keeps
      the stake ([DposFindings.reverted_frame_keeps_stake]);
    - are no [CALLCODE] or [DELEGATECALL], which credit stake without a
      payment ([callcode_unpaid_stake]);
    - satisfy [admissible_input] ([DposCalls]): with today's hardforks active
      they undelegate positive amounts, and do not redelegate the last stake
      away from a validator that undelegations wait for
      ([undelegate_nothing_dangles], [redelegate_loses_state]).
    The bounds are 2^30 on the counters of records and words on the funds;
    the statistics of a block add up ([stats_ok]); and no block is the one
    whose end repairs the redelegations of a validator to itself
    ([no_repair]). *)
From S2P Require Import Prelude Bytes Crypto ChainConfig Uint256 Storage IterableMap ImapProps DposStorage Validators Dpos DposRewards DposRun EvmCall DposTyped DposInv DposSafe DposDistribute DposCalls.

(** The contract before its first validator, initialised, with the accounts'
    balances. *)
Definition fresh (balances : gmap Address Z) : CT :=
  mkContract empty_tstore balances [] 0 0 0 0 0 0 None true.

Lemma rel_fresh b : rel 0 (fresh b) (mkA ∅ ∅ ∅ ∅ ∅ ∅ b 0 0 true (0, None) ((0, None), (0, None))).
Proof.
  split; [|done]. exists (fun _ => []).
  split; simpl; intros; rewrite ?lookup_empty; try done.
  - intros id. by apply imap_rep_empty.
  - split; [by intros ?%elem_of_nil|by intros []].
  - split; [by intros ?%elem_of_nil|by intros []].
  - split; [by intros ?%elem_of_nil|by intros []].
  - split; [by intros ?%elem_of_nil|done].
  - split; [by intros ?%elem_of_nil|by intros (i & _ & _ & [])].
  - exists 0. split_and!; [done..|]. by intros v i [].
Qed.

Section history.
Context `{Uint256Laws} `{CryptoLaws} (cfg : ChainConfig) (Hcfg : cfg_ok cfg).

Lemma inv_fresh b now :
  0 <= default 0 (b !! dpos_contract_address) -> inv cfg now 0 0 (mkA ∅ ∅ ∅ ∅ ∅ ∅ b 0 0 true (0, None) ((0, None), (0, None))).
Proof.
  intros Hb. split; simpl; try done.
  - intros v. split; by intros [].
  - unfold owed, total_stake, pools, undelegating, accrued, funds. simpl.
    rewrite !msum_empty. pose proof (cf_max _ Hcfg). nia.
Qed.

Lemma ok_fresh b now : 0 <= default 0 (b !! dpos_contract_address) -> ok cfg now 0 0 (fresh b).
Proof. intros Hb. eexists. split; [apply rel_fresh|by apply inv_fresh]. Qed.

(** The funds of the contract fit its words. *)
Definition fits (z : Z) : Prop := z < 2 ^ 256 /\ z < 2 ^ 64 * VoteEligibilityBalanceStep (DPOS cfg).

Lemma saved_kept now n s : ok cfg now n 0 s -> 0 <= n -> fits (balance s) -> ok cfg now n 0 (saved s).
Proof.
  intros (A & Hs & Hi) Hn [Hf1 Hf2]. pose proof (rel_balance _ _ _ Hs) as Hb. rewrite Hb in *.
  exists (a_set_saved (saved_counters (saved s)) A). split; [by apply saved_rel|].
  destruct (inv_words cfg Hcfg _ _ _ _ (funds A) Hi ltac:(lia) ltac:(done) Hf1 Hf2) as (Ham & Hvt & _).
  pose proof (iv_saved _ _ _ _ _ Hi) as Hsv. destruct Hs as [HL <-].
  destruct (saved_current s Hsv Hvt Ham) as [Hok _]. destruct Hi. by split.
Qed.

(** ** Genesis *)

(** What holds of the state a computation ends in, if it does. *)
Definition ends {X} (m : M CT X) (Q : CT -> Prop) (s : CT) : Prop := forall x s', m s = Done x s' -> Q s'.

Lemma ends_bind {X Y} (m : M CT X) (f : X -> M CT Y) P Q s :
  ends m P s -> (forall x s', P s' -> ends (f x) Q s') -> ends (x ← m; f x) Q s.
Proof.
  intros Hm Hf y s' E. unfold bindM in E. destruct (m s) as [x s1| |] eqn:E1; [|done..]. by eapply Hf; [eapply Hm|].
Qed.

Lemma ends_wp {X} (m : M CT X) (P Q : CT -> Prop) E s : wp m (fun _ => P) E s -> (forall s', P s' -> Q s') -> ends m Q s.
Proof. intros Hm HQ x s' Es. unfold wp in Hm. rewrite Es in Hm. auto. Qed.

Lemma ends_must {X} e (m : M CT X) Q s : ends m Q s -> ends (must e m) Q s.
Proof. intros Hm x s' E. unfold must in E. apply (Hm x). by destruct (m s). Qed.

Definition delegated (ds : list (Address * Z)) : Z := zsum snd ds.
Definition genesis_delegated (gs : list GenesisValidator) : Z := zsum (fun g => delegated (gv_Delegations g)) gs.
Definition genesis_cost (gs : list GenesisValidator) : Z := zsum (fun g => 2 + 2 * Z.of_nat (length (gv_Delegations g))) gs.

(** A genesis validator as the configuration has it: a 16-bit commission and
    amounts that are not negative, from other accounts than the contract's. *)
Record genesis_ok (g : GenesisValidator) : Prop := {
  go_commission : 0 <= gv_Commission g;
  go_delegations : Forall (fun d => 0 <= snd d /\ fst d <> dpos_contract_address) (gv_Delegations g);
}.

(** The state has counters up to [n] and at most [f] funds. *)
Definition built (n f : Z) (s : CT) : Prop := ok cfg 0 n 0 s /\ 0 <= n /\ balance s <= f.

Lemma built_room n f s : built n f s -> n < 2 ^ 30 -> fits f -> room cfg n s.
Proof. intros (_ & ? & ?) ? [? ?]. unfold room. lia. Qed.

Lemma genesis_delegation_ends v d n f s :
  built n f s -> n + 2 < 2 ^ 30 -> fits (f + snd d) -> 0 <= snd d -> fst d <> dpos_contract_address ->
  ends (genesis_delegation cfg v d) (built (n + 2) (f + snd d)) s.
Proof.
  intros (Hok & Hn & Hf) Hn2 Hfit Hz Hd. destruct d as [d amount]. simpl in *.
  eapply (ends_bind _ _ (fun s' => exists b, s' = set_balances b s /\ balance s' = balance s)).
  { intros x s' E. unfold storage_SubBalance, bindM, gets in E. destruct (_ || _); simpl in E; injection E as <- <-.
    - eexists. split; [done|]. unfold balance, balance_of. simpl. by rewrite lookup_insert_ne.
    - exists (c_balances s). split; [by destruct s|done]. }
  intros _ _ (b & -> & Hb).
  eapply (ends_bind _ _ (fun s' => ok cfg 0 n amount s' /\ balance s' = balance s + amount)).
  { intros x s' E. injection E as <- <-. destruct Hok as (A & [HL HA] & Hi). split.
    - exists (a_set_bal (fun _ => <[dpos_contract_address := balance s + amount]> b) A). split.
      + split; [exact HL|]. rewrite <- HA, <- Hb. done.
      + eapply inv_bal; [exact Hi|]. rewrite (rel_balance n s A (conj HL HA)). rewrite lookup_insert_eq. simpl.
        pose proof (cf_max _ Hcfg). nia.
    - rewrite <- Hb. unfold balance, balance_of. simpl. by rewrite lookup_insert_eq. }
  intros _ s1 [Hok1 Hb1]. apply ends_must. eapply ends_wp; [eapply (delegate_safe cfg Hcfg 0 0 n); try done|].
  - destruct Hfit. unfold room. rewrite Hb1. lia.
  - intros s2 [Hok2 Hb2]. rewrite Hb1 in Hb2. split_and!; [done|lia..].
Qed.

Lemma genesis_delegations_ends v ds : forall n f s,
  built n f s -> n + 2 * Z.of_nat (length ds) < 2 ^ 30 -> fits (f + delegated ds) ->
  Forall (fun d => 0 <= snd d /\ fst d <> dpos_contract_address) ds ->
  ends (for_each (genesis_delegation cfg v) ds) (built (n + 2 * Z.of_nat (length ds)) (f + delegated ds)) s.
Proof.
  induction ds as [|d ds IH]; intros n f s Hs Hn Hfit Hds.
  - intros x s' [= _ <-]. unfold delegated. simpl. by rewrite !Z.add_0_r.
  - apply Forall_cons in Hds as [[Hz Hd] Hds]. unfold delegated in *. cbn [zsum foldr length] in *. fold (zsum snd ds) in *.
    assert (0 <= zsum snd ds) as Hp.
    { apply zsum_nonneg. intros e He. rewrite Forall_forall in Hds. by apply Hds. }
    replace (n + 2 * Z.of_nat (S (length ds))) with (n + 2 + 2 * Z.of_nat (length ds)) in * by lia. rewrite Z.add_assoc in *.
    eapply ends_bind; [eapply genesis_delegation_ends; [exact Hs|lia| |done..]; unfold fits in *; lia|].
    intros _ s1 Hs1. by apply IH.
Qed.

Lemma genesis_entry_ends g n f s :
  genesis_ok g -> built n f s -> n + (2 + 2 * Z.of_nat (length (gv_Delegations g))) < 2 ^ 30 -> fits (f + delegated (gv_Delegations g)) ->
  ends (apply_genesis_entry cfg g) (built (n + (2 + 2 * Z.of_nat (length (gv_Delegations g)))) (f + delegated (gv_Delegations g))) s.
Proof.
  intros [Hc Hds] Hs Hn Hfit. assert (0 <= delegated (gv_Delegations g)) as Hp.
  { apply zsum_nonneg. intros e He. rewrite Forall_forall in Hds. by apply Hds. }
  rewrite Z.add_assoc in *. eapply (ends_bind _ _ (built (n + 2) f)).
  - apply ends_must. eapply ends_wp; [eapply (registerValidatorWithoutChecks_safe cfg Hcfg 0 0 n)|].
    + apply Hs.
    + eapply built_room; [exact Hs|lia|]. unfold fits in *. lia.
    + done.
    + done.
    + intros s1 [Hok1 Hb1]. destruct Hs as (_ & ? & ?). split_and!; [done|lia..].
  - intros _ s1 Hs1. by apply genesis_delegations_ends.
Qed.

Lemma genesis_entries_ends gs : forall n f s,
  Forall genesis_ok gs -> built n f s -> n + genesis_cost gs < 2 ^ 30 -> fits (f + genesis_delegated gs) ->
  ends (for_each (apply_genesis_entry cfg) gs) (built (n + genesis_cost gs) (f + genesis_delegated gs)) s.
Proof.
  induction gs as [|g gs IH]; intros n f s Hg Hs Hn Hfit.
  - intros x s' [= _ <-]. unfold genesis_cost, genesis_delegated. simpl. by rewrite !Z.add_0_r.
  - apply Forall_cons in Hg as [Hg Hgs]. unfold genesis_cost, genesis_delegated in *. cbn [zsum foldr] in *.
    fold (zsum (fun g => delegated (gv_Delegations g)) gs) in *. fold (zsum (fun g => 2 + 2 * Z.of_nat (length (gv_Delegations g))) gs) in *.
    assert (0 <= zsum (fun g => 2 + 2 * Z.of_nat (length (gv_Delegations g))) gs) by (apply zsum_nonneg; lia).
    assert (0 <= zsum (fun g => delegated (gv_Delegations g)) gs).
    { apply zsum_nonneg. intros g' Hg'. apply zsum_nonneg. intros e He. rewrite Forall_forall in Hgs.
      destruct (Hgs _ Hg') as [_ Hds]. rewrite Forall_forall in Hds. by apply Hds. }
    rewrite !Z.add_assoc in *. eapply ends_bind; [eapply genesis_entry_ends; [done|exact Hs|lia|]; unfold fits in *; lia|].
    intros _ s1 Hs1. rewrite Z.add_assoc in Hs1. by apply IH.
Qed.

(** The contract before genesis, and what [lazy_init] makes of it. *)
Definition uninitialised (balances : gmap Address Z) : CT := set_lazy false (fresh balances).

Lemma lazy_init_ends b : ends (lazy_init cfg) (fun s => s = fresh b) (uninitialised b).
Proof.
  intros x s' E. unfold lazy_init, bindM, gets, yield_max_supply in E. simpl in E.
  destruct (u_FromBig _) as [z []]; [done|]. cbn in E. by injection E as <- <-.
Qed.

(** [processBlockReward] changes the supply and what is stored of it. *)
Lemma ends_ret {X} (x : X) (Q : CT -> Prop) s : Q s -> ends (ret x) Q s.
Proof. by intros HQ ? ? [= _ <-]. Qed.

Lemma put_aside_rel n s A (f : scalar) (b : option bytes) :
  rel n s A -> f <> SEligibleVoteCount -> f <> SAmountDelegated -> wp (scalar_put f b) (fun _ s' => rel n s' A) (fun _ _ => False) s.
Proof. intros Hs Hf1 Hf2. apply wp_unit. eapply wp_put_aside; [exact Hs|done|done|]. intros s' Hs'. by apply wp_ret. Qed.

Definition supplied (n : Z) (A : adpos) (s : CT) : Prop := exists z, rel n s (a_set_supply z A).

Lemma ends_read {X Y} (m : M CT X) (f : X -> M CT Y) Q s :
  ends m (fun s' => s' = s) s -> (forall x, ends (f x) Q s) -> ends (x ← m; f x) Q s.
Proof. intros Hm Hf. eapply ends_bind; [exact Hm|]. intros x s' ->. apply Hf. Qed.

Lemma ends_gets {X Y} (g : CT -> X) (f : X -> M CT Y) Q s : ends (f (g s)) Q s -> ends (x ← gets g; f x) Q s.
Proof. done. Qed.

Lemma ends_deref {X Y} (o : option X) (f : X -> M CT Y) Q s : (forall x, ends (f x) Q s) -> ends (x ← deref o; f x) Q s.
Proof. intros Hf. destruct o; [apply Hf|done]. Qed.

Lemma FromBig_ends z msg s : ends (let '(x, overflow) := u_FromBig z in if overflow : bool then panic msg else ret x) (fun s' => s' = s) s.
Proof. destruct (u_FromBig z) as [x []]; [done|by apply ends_ret]. Qed.

Lemma processBlockReward_ends now n s A : rel n s A -> ends (processBlockReward cfg now) (supplied n A) s.
Proof.
  intros Hs. assert (forall s1, rel n s1 A -> supplied n A s1) as Hsame.
  { intros s1 [HL <-]. exists (minted_tokens s1, total_supply s1). by split. }
  unfold processBlockReward. destruct (negb _); [by apply ends_ret, Hsame|].
  apply ends_read; [apply FromBig_ends|intros max_supply]. apply ends_gets. eapply (ends_bind _ _ (supplied n A)).
  { destruct (total_supply s); [by apply ends_ret, Hsame|]. apply ends_gets, ends_read; [apply FromBig_ends|intros t].
    eapply (ends_bind _ _ (fun s' => rel n s' (a_set_supply (minted_tokens s, Some t) A))).
    { intros x s' [= _ <-]. destruct Hs as [HL <-]. by split. }
    intros _ s1 Hs1. eapply (ends_bind _ _ (fun s' => rel n s' (a_set_supply (minted_tokens s, Some t) A))).
    - unfold saveTotalSupplyDb. apply ends_gets, ends_deref. intros t'. eapply ends_wp; [by apply put_aside_rel|done].
    - intros _ s2 Hs2. eapply ends_wp; [apply put_aside_rel; [exact Hs2|done|done]|]. intros s3 Hs3. by exists (minted_tokens s, Some t). }
  intros _ s1 [z Hs1]. apply ends_gets, ends_deref. intros supply. apply ends_gets.
  destruct (CalculateBlockReward _ _ _ _) as [R y]. eapply (ends_bind _ _ (supplied n A)).
  - eapply (ends_wp _ _ _ (fun _ _ => False)); [apply wp_unit; eapply wp_put_yield; [exact Hs1|intros s2 Hs2; apply wp_ret; exact Hs2]|].
    intros s2 Hs2. by exists z.
  - intros _ s2 Hs2. by apply ends_ret.
Qed.

(** The genesis block: validators and delegations of the configuration, the
    supply, and the end of the block. *)
Lemma ApplyGenesis_ends b :
  0 <= default 0 (b !! dpos_contract_address) -> Forall genesis_ok (InitialValidators (DPOS cfg)) ->
  genesis_cost (InitialValidators (DPOS cfg)) < 2 ^ 30 ->
  fits (default 0 (b !! dpos_contract_address) + genesis_delegated (InitialValidators (DPOS cfg))) -> no_repair cfg 0 ->
  ends (ApplyGenesis cfg) (fun s => 0 <= genesis_cost (InitialValidators (DPOS cfg))
    /\ ok cfg 0 (genesis_cost (InitialValidators (DPOS cfg))) 0 s) (uninitialised b).
Proof.
  intros Hb Hg Hn Hfit Hnr. set (gs := InitialValidators (DPOS cfg)) in *. unfold ApplyGenesis.
  eapply ends_bind; [apply lazy_init_ends|]. intros _ s ->.
  eapply ends_bind; [apply (genesis_entries_ends gs 0 (default 0 (b !! dpos_contract_address))); try done|].
  { split; [by apply ok_fresh|]. split; [done|]. unfold balance, balance_of. simpl. lia. }
  intros _ s1 (Hok1 & Hn1 & Hb1). rewrite Z.add_0_l in *. destruct Hok1 as (A & Hs & Hi).
  eapply ends_bind; [by apply processBlockReward_ends|]. intros _ s2 [z Hs2].
  assert (ok cfg 0 (genesis_cost gs) 0 s2) as Hok2 by (eexists; split; [exact Hs2|by apply inv_supply]).
  assert (balance s2 = balance s1) as Hb2 by (rewrite (rel_balance _ _ _ Hs), (rel_balance _ _ _ Hs2); done).
  eapply (ends_bind _ _ (ok cfg 0 (genesis_cost gs) 0)).
  - intros x s' E. rewrite EndBlockCall_run in E by (try done; by eapply ok_init). injection E as _ <-.
    apply saved_kept; [done|done|]. unfold fits in *. lia.
  - intros _ s3 (A3 & [HL HA] & Hi3) x s' [= _ <-]. split; [done|]. by exists A3.
Qed.

Context (fuel : nat) (delayed : Z -> Delayed TStore).
Context (run : CallFrame -> bool -> Z -> M CT (Z * (string + option Result))).

Abbreviation genesis_validators := (InitialValidators (DPOS cfg)).

(** [history now n s]: a history leads to the state [s] at block [now], with
    counters bounded by [n]. *)
Inductive history : Z -> Z -> CT -> Prop :=
| h_start b : 0 <= default 0 (b !! dpos_contract_address) -> history 0 0 (fresh b)
| h_genesis b s : 0 <= default 0 (b !! dpos_contract_address) -> Forall genesis_ok genesis_validators ->
    genesis_cost genesis_validators < 2 ^ 30 ->
    fits (default 0 (b !! dpos_contract_address) + genesis_delegated genesis_validators) -> no_repair cfg 0 ->
    ApplyGenesis cfg (uninitialised b) = Done tt s -> history 0 (genesis_cost genesis_validators) s
| h_call now n s typ depth caller gas value i p s' :
    history now n s -> plain_call typ value -> n + call_cost s (ref_Account caller) < 2 ^ 30 -> fits (balance s + value) -> 0 <= value ->
    ref_Account caller <> dpos_contract_address -> admissible_input cfg now s i ->
    call run typ depth caller dpos_contract_address
      (Some (dpos_precompiled cfg fuel now depth (delayed now) i)) false false gas value s = Done p s' ->
    history now (n + call_cost s (ref_Account caller)) s'
| h_rewards now n s st minted s' :
    history now n s -> stats_ok st -> supply_ok cfg s -> 0 <= block_reward cfg now s < 2 ^ 192 ->
    DistributeRewards cfg now st s = Done minted s' -> history now n s'
| h_block now n s now' s' :
    history now n s -> fits (balance s) -> no_repair cfg now -> now < now' ->
    EndBlockCall cfg now s = Done tt s' -> history now' n s'.

Context (Hpct : percent_ok cfg).

Lemma call_cost_nonneg now n s a : ok cfg now n 0 s -> 0 <= call_cost s a.
Proof. intros (A & Hs & _). unfold call_cost. pose proof (delegations_run n s A a Hs). lia. Qed.

Lemma ok_later now now' n s : ok cfg now n 0 s -> now <= now' -> ok cfg now' n 0 s.
Proof. intros (A & Hs & Hi) Hn. exists A. split; [done|]. by eapply inv_later. Qed.

Lemma history_ok now n s : history now n s -> 0 <= n /\ ok cfg now n 0 s.
Proof.
  induction 1 as [b Hb|b s Hb Hg Hn Hfit Hnr Hrun|now n s typ depth caller gas value i p s' _ [Hn Hok] Ht Hb Hf Hv Hca Hadm Hrun
                 |now n s st minted s' _ [Hn Hok] Hst Hsup HR Hrun|now n s now' s' _ [Hn Hok] Hft Hnow Hlt Hrun].
  - split; [done|by apply ok_fresh].
  - by apply (ApplyGenesis_ends b Hb Hg Hn Hfit Hnr tt s).
  - pose proof (call_cost_nonneg _ _ _ (ref_Account caller) Hok). split; [lia|]. destruct Hf as [Hf1 Hf2].
    pose proof (evm_call_safe cfg Hcfg fuel run now depth (delayed now) n s typ caller false false gas value i
      Ht Hok Hn Hb Hf1 Hf2 Hv Hca Hadm) as Hw.
    unfold wp in Hw. rewrite Hrun in Hw. unfold called in Hw. destruct (snd p) as [e|r].
    + subst s'. eapply ok_mono; [done|lia].
    + apply Hw.
  - split; [done|]. pose proof (distribute_safe cfg Hpct now n s st Hok Hst Hsup HR) as Hw.
    unfold wp in Hw. rewrite Hrun in Hw. apply Hw.
  - split; [done|]. rewrite EndBlockCall_run in Hrun by (try done; by eapply ok_init). injection Hrun as <-.
    eapply ok_later; [by apply saved_kept|lia].
Qed.
End history.
