(* ===== verification/DposExample.v ===== *)
(** * A concrete chain

    A small configuration, concrete words and hashes, and a short life of the
    contract: a registration, delegations, a block reward and an
    undelegation.  The witnesses of the properties are stated at its
    states. *)
From S2P Require Import Prelude Bytes Crypto ChainConfig Uint256 Storage IterableMap DposStorage Validators Dpos DposRewards DposRun EvmCall DposTyped DposInv DposSafe DposDistribute DposCalls DposHistory.
#[local] Existing Instance Ref.ops.
#[local] Existing Instance Ref.laws.

#[local] Existing Instance toy_crypto.
#[local] Existing Instance toy_crypto_laws.

(** All hardforks are active from block 0, the Cornus one from block 4. *)
Definition ex_cfg : ChainConfig := mkChainConfig [(addr_of_Z 1, 100000); (addr_of_Z 2, 100000)]
  (mkDPOSConfig 1000 100 5000 10 5 40 0 0 5 10 1 20 [])
  (mkHardforks 1 [] ∅ (mkMagnoliaHf 0 0) 0 0 (mkAspenHf 0 0 220000 0) (mkFicusHf 0 0 ZeroAddress)
     (mkCornusHf 4 20 0 0) (mkSoleiroliaHf 0 0 0)).

Lemma ex_cfg_ok : cfg_ok ex_cfg.
Proof. by split. Qed.

Lemma ex_percent_ok : percent_ok ex_cfg.
Proof. by split. Qed.

Definition ex_delayed (now : Z) : Delayed TStore := mkDelayed TStore ex_cfg now empty_tstore [].
Definition no_code : CallFrame -> bool -> Z -> M CT (Z * (string + option Result)) := fun _ _ g => ret (g, inr None).

(** A call from an account. *)
Definition send (now : Z) (from : Address) (value : Z) (i : Input) : M CT (Z * (string + option Result)) :=
  call no_code CALL 0 (AccWrapper from) dpos_contract_address
    (Some (dpos_precompiled ex_cfg 100 now 0 (ex_delayed now) i)) false false 1000000 value.

(** The state a computation leaves, [s] if there is none. *)
Definition after {A} (m : M CT A) (s : CT) : CT := match m s with Done _ s' => s' | _ => s end.
Definition completes {A} (m : M CT A) (s : CT) : bool := match m s with Done _ _ => true | _ => false end.

Lemma completes_done {A} (m : M CT A) s : completes m s = true -> exists a, m s = Done a (after m s).
Proof. unfold completes, after. destruct (m s); [by eexists|done..]. Qed.

Definition owner1 : Address := addr_of_Z 1.
Definition delegator2 : Address := addr_of_Z 2.
Definition validator1 : Address := addr_of_Z 1001.
Definition validator2 : Address := addr_of_Z 1002.

Definition register_input (v : Address) : Input :=
  InCall M_registerValidator
    (inr (mkRegisterArgs v (addr_bytes v ++ replicate 45 Byte.x00) (replicate 32 Byte.x01) 500 EmptyString EmptyString)).

Definition ex_stats : RewardsStats :=
  mkRewardsStats validator1 [(validator1, mkValidatorStats 1 10 (Some 7))] 1 10 10.

Definition ex0 : CT := fresh {[ owner1 := 100000; delegator2 := 100000; dpos_contract_address := 0 ]}.
Definition ex1 : CT := after (EndBlockCall ex_cfg 0) ex0.
Definition ex2 : CT := after (send 2 owner1 1000 (register_input validator1)) ex1.
Definition ex3 : CT := after (send 2 owner1 1500 (register_input validator2)) ex2.
Definition ex4 : CT := after (send 2 delegator2 300 (InCall M_delegate (inr validator1))) ex3.
Definition ex5 : CT := after (DistributeRewards ex_cfg 2 ex_stats) ex4.
Definition ex6 : CT := after (EndBlockCall ex_cfg 2) ex5.
Definition ex7 : CT := after (send 5 delegator2 0 (InCall M_undelegateV2 (inr (validator1, 100)))) ex6.

Abbreviation ex_history := (history ex_cfg 100 ex_delayed no_code).

Lemma ex_admissible_register now s v : admissible_input ex_cfg now s (register_input v).
Proof. by repeat split. Qed.

Lemma ex_fits z : (z <? 2 ^ 64) = true -> fits ex_cfg z.
Proof. intros. zbool. split; simpl; lia. Qed.

(** One call of the example's history. *)
Lemma ex_call now n m s from value i :
  ex_history now n s -> admissible_input ex_cfg now s i ->
  completes (send now from value i) s && (n + call_cost s from =? m) && (m <? 2 ^ 30) && (0 <=? value)
    && (balance s + value <? 2 ^ 64) && negb (bool_decide (from = dpos_contract_address)) = true ->
  ex_history now m (after (send now from value i) s).
Proof.
  intros Hh Hadm Hb. zbool. subst m. destruct (completes_done (send now from value i) s) as [p Hp]; [done|].
  eapply (h_call _ _ _ _ now n s CALL 0 (AccWrapper from) 1000000 value i p); try done; [by left|].
  apply ex_fits. lia.
Qed.

Lemma ex1_history : ex_history 2 0 ex1.
Proof.
  destruct (completes_done (EndBlockCall ex_cfg 0) ex0) as [[] Hp]; [by vm_compute|].
  apply (h_block _ _ _ _ 0 0 ex0 2); [apply h_start| |by left|done|exact Hp].
  - apply Z.leb_le. by vm_compute.
  - apply ex_fits. by vm_compute.
Qed.

Lemma ex2_history : ex_history 2 20 ex2.
Proof. apply (ex_call 2 0 20 ex1 owner1 1000); [apply ex1_history|apply ex_admissible_register|by vm_compute]. Qed.

Lemma ex3_history : ex_history 2 42 ex3.
Proof. apply (ex_call 2 20 42 ex2 owner1 1500); [apply ex2_history|apply ex_admissible_register|by vm_compute]. Qed.

Lemma ex4_history : ex_history 2 62 ex4.
Proof. by apply (ex_call 2 42 62 ex3 delegator2 300); [apply ex3_history| |vm_compute]. Qed.

Lemma ex_stats_ok : stats_ok ex_stats.
Proof.
  assert (forall e, e ∈ ValidatorsStats ex_stats -> e = (validator1, mkValidatorStats 1 10 (Some 7))) as Hone
    by (intros e; apply list_elem_of_singleton).
  split; cbn; try lia.
  - intros e ->%Hone. cbn. lia.
  - intros e ->%Hone. cbn. lia.
  - intros e f ->%Hone. cbn. intros [= <-]. lia.
Qed.

Lemma ex_supply_ok (s : CT) : (0 <=? minted_tokens s) && (minted_tokens s <? 2 ^ 200) = true -> supply_ok ex_cfg s.
Proof. intros Hb. zbool. split; unfold word; simpl; [lia|]. unfold GenesisBalancesSum. simpl. lia. Qed.

Lemma ex5_history : ex_history 2 62 ex5.
Proof.
  destruct (completes_done (DistributeRewards ex_cfg 2 ex_stats) ex4) as [m Hm]; [by vm_compute|].
  apply (h_rewards _ _ _ _ 2 62 ex4 ex_stats m); [apply ex4_history|apply ex_stats_ok|..|exact Hm].
  - apply ex_supply_ok. by vm_compute.
  - split; [apply Z.leb_le|apply Z.ltb_lt]; by vm_compute.
Qed.

Lemma ex6_history : ex_history 5 62 ex6.
Proof.
  destruct (completes_done (EndBlockCall ex_cfg 2) ex5) as [[] Hp]; [by vm_compute|].
  apply (h_block _ _ _ _ 2 62 ex5 5); [apply ex5_history| |by left|done|exact Hp]. apply ex_fits. by vm_compute.
Qed.

Lemma ex7_history : ex_history 5 84 ex7.
Proof. by apply (ex_call 5 62 84 ex6 delegator2 0); [apply ex6_history|split|vm_compute]. Qed.

(** The states satisfy the invariant. *)
Lemma ex_ok now n s : ex_history now n s -> ok ex_cfg now n 0 s.
Proof. intros Hh. eapply history_ok; [apply ex_cfg_ok|apply ex_percent_ok|exact Hh]. Qed.

(** ** A genesis block

    The same chain with a validator from genesis. *)
Definition genesis_cfg : ChainConfig := mkChainConfig (GenesisBalances ex_cfg)
  (mkDPOSConfig 1000 100 5000 10 5 40 0 0 5 10 1 20
     [mkGenesisValidator validator1 owner1 (replicate 32 Byte.x01) 500 EmptyString EmptyString [(owner1, 1000); (delegator2, 250)]])
  (Hardforks ex_cfg).

Definition ex_accounts : gmap Address Z := {[ owner1 := 100000; delegator2 := 100000 ]}.
Definition genesis_state : CT := after (ApplyGenesis genesis_cfg) (uninitialised ex_accounts).

Lemma genesis_history : history genesis_cfg 100 ex_delayed no_code 0 6 genesis_state.
Proof.
  destruct (completes_done (ApplyGenesis genesis_cfg) (uninitialised ex_accounts)) as [[] Hp]; [by vm_compute|].
  apply (h_genesis genesis_cfg 100 ex_delayed no_code ex_accounts); [apply Z.leb_le; by vm_compute| |done| |by left|exact Hp].
  - repeat constructor; try done; apply (bool_decide_unpack (_ <> dpos_contract_address)); by vm_compute.
  - split; apply Z.ltb_lt; by vm_compute.
Qed.

Example genesis_stakes :
  (balance genesis_state =? 1250)
  && match TotalEligibleVoteCount genesis_cfg 0 [] (c_storage genesis_state) with Done votes _ => votes =? 12 | _ => false end = true.
Proof. by vm_compute. Qed.
