(* ===== verification/DposProps.v ===== *)
(** * What the DPOS contract promises

    The properties of the states of the contract's histories, of a call from the
    EVM, of each staking method, of the block's rewards and of the end of a
    block; each with a witness at a state of the example chain. *)
From S2P Require Import Prelude Bytes Crypto ChainConfig Uint256 Storage IterableMap DposStorage Validators Dpos DposRewards DposRun EvmCall DposTyped DposInv DposSafe DposDistribute DposCalls DposHistory DposExample.

(** What a contract account holds in the EVM, as calls see it. *)
Definition stored_delegation (s : CT) (v d : Address) : option Delegation := ts_delegation (c_storage s) !! (v, d).

Section reached.
Context `{Uint256Laws} `{CryptoLaws} (cfg : ChainConfig) (Hcfg : cfg_ok cfg) (Hpct : percent_ok cfg).
Context (fuel : nat) (delayed : Z -> Delayed TStore) (run : CallFrame -> bool -> Z -> M CT (Z * (string + option Result))).
Abbreviation reached := (history cfg fuel delayed run).
Abbreviation MAX := (ValidatorMaximumStake (DPOS cfg)).


(** C3: the counters.  In every state of a history the contract's running
    totals are the sums they stand for: the delegated amount is the sum of all
    delegations, a validator's stake the sum of the delegations to it, and
    the eligible vote count the sum of the validators' votes.  Histories have
    no redelegation of a validator to itself, which the code accepts up to
    the block [FixRedelegateBlockNum], and not the repair at its end. *)
Theorem reached_counters now n s :
  reached now n s ->
  amount_delegated s = total_stake (ts_delegation (c_storage s))
  /\ eligible_vote_count s = msum (fun _ (x : StoredValidator) => votes cfg (TotalStake (validator_of x))) (ts_validator (c_storage s))
  /\ forall v x, ts_validator (c_storage s) !! v = Some x ->
       TotalStake (validator_of x) = stake_of (ts_delegation (c_storage s)) v.
Proof.
  intros Hh. destruct (history_ok cfg Hcfg fuel delayed run Hpct _ _ _ Hh) as [_ (A & [_ <-] & Hi)].
  split; [apply (iv_amount _ _ _ _ _ Hi)|]. split.
  - pose proof (iv_votes _ _ _ _ _ Hi) as Hv. simpl in Hv. rewrite Hv. apply msum_fmap.
  - intros v x Hx. apply (iv_stake _ _ _ _ _ Hi v (validator_of x)). simpl. by rewrite lookup_fmap, Hx.
Qed.

(** C4: the records hang together.  In every state of a history a delegation
    is positive and its validator exists, a validator has a rewards record and
    a commission of at most 100 percent, and the existence checks over the
    iterable maps answer exactly whether the record is stored.  Histories
    have no undelegation of nothing, after which a delegation can outlive its
    validator ([undelegate_nothing_dangles]). *)
Theorem reached_records now n s :
  reached now n s ->
  (forall v d y, stored_delegation s v d = Some y -> 0 < d_Stake y /\ is_Some (ts_validator (c_storage s) !! v))
  /\ (forall v x, ts_validator (c_storage s) !! v = Some x ->
        commission_ok (validator_of x) /\ is_Some (ts_rewards (c_storage s) !! v))
  /\ (forall v, ValidatorExists v s = Done (bool_decide (is_Some (ts_validator (c_storage s) !! v))) s)
  /\ (forall d v, DelegationExists d v s = Done (bool_decide (is_Some (stored_delegation s v d))) s).
Proof.
  intros Hh. destruct (history_ok cfg Hcfg fuel delayed run Hpct _ _ _ Hh) as [_ (A & Hs & Hi)].
  assert (forall v, is_Some (a_val A !! v) <-> is_Some (ts_validator (c_storage s) !! v)) as Hval.
  { intros v. destruct Hs as [_ <-]. simpl. by rewrite lookup_fmap, fmap_is_Some. }
  split_and!.
  - intros v d y Hy. rewrite <- Hval. apply (iv_del _ _ _ _ _ Hi v d y). by destruct Hs as [_ <-].
  - intros v x Hx. assert (a_val A !! v = Some (validator_of x)) as Hx'.
    { destruct Hs as [_ <-]. simpl. by rewrite lookup_fmap, Hx. }
    split; [apply (iv_comm _ _ _ _ _ Hi _ _ Hx')|]. pose proof (proj2 (iv_rew _ _ _ _ _ Hi v)) as Hr.
    destruct Hs as [_ <-]. apply Hr. by eexists.
  - intros v. erewrite ValidatorExists_run by exact Hs. f_equal. by apply bool_decide_ext.
  - intros d v. destruct Hs as [[L HL] _]. unfold DelegationExists, AccountExists, getDelegatorValidatorsList.
    rewrite (item_exists_run s L); [|apply HL|by apply addr_valid_item]. f_equal. apply bool_decide_ext.
    apply (ix_del _ _ _ _ _ _ _ _ _ _ HL).
Qed.

(** C5: no F1 state is lost.  In every state of a history the state record
    of a block exists as long as the validator or a delegation to it still
    refers to that block, and its count is at least the number of references,
    so that dropping them one by one never removes it early.  Histories have
    no redelegation of the last stake of a validator that undelegations wait
    for, which loses one ([redelegate_loses_state]). *)
Theorem reached_states now n s v b :
  reached now n s -> 0 < refs (abs s) v b ->
  exists st, ts_state (c_storage s) !! (v, b) = Some st /\ refs (abs s) v b <= Count st /\ 0 <= RewardsPer1Stake st /\ b <= now.
Proof.
  intros Hh Hr. destruct (history_ok cfg Hcfg fuel delayed run Hpct _ _ _ Hh) as [_ (A & [_ <-] & Hi)].
  destruct (iv_refs _ _ _ _ _ Hi v b Hr) as (st & Hst & Hc). exists st.
  destruct (iv_st _ _ _ _ _ Hi _ _ _ Hst) as (_ & ? & ? & _). done.
Qed.

(** C2: calls are safe.  An admissible EVM [CALL] or [STATICCALL] of any
    state-changing method, at a state of a history, never panics; if it
    returns an error, or runs out of gas, the whole state is as before the
    call, value transfer included; if it succeeds the invariant holds again
    and the contract keeps at most the value sent.  What [admissible_input]
    leaves out is listed there: with the hardforks up to the second Aspen one
    active, undelegations of nothing and the redelegation of
    [redelegate_loses_state] ([admissible_active]); before, also calls that
    do panic ([claim_all_panics_early]). *)
Theorem reached_call now n s typ depth caller code nil_ gas value i :
  reached now n s -> plain_call typ value -> n + call_cost s (ref_Account caller) < 2 ^ 30 -> fits cfg (balance s + value) -> 0 <= value ->
  ref_Account caller <> dpos_contract_address -> admissible_input cfg now s i ->
  wp (call run typ depth caller dpos_contract_address
        (Some (dpos_precompiled cfg fuel now depth (delayed now) i)) code nil_ gas value)
    (fun p => called cfg now n s (ref_Account caller) value (snd p)) (fun _ _ => False) s.
Proof.
  intros Hh Ht Hb [Hf1 Hf2] Hv Hca Hadm. destruct (history_ok cfg Hcfg fuel delayed run Hpct _ _ _ Hh) as [Hn Hok].
  by apply evm_call_safe.
Qed.

(** C14: the end of a block persists the counters.  After [EndBlockCall] on a
    state of a history, the reader's totals over the stored contract are the
    counters, and a contract that is set up again over that storage starts
    with the same counters. *)
Theorem reached_end_block now n s :
  reached now n s -> fits cfg (balance s) -> no_repair cfg now -> word (MaxSupply (AspenHf (Hardforks cfg))) ->
  exists s', EndBlockCall cfg now s = Done tt s'
    /\ TotalEligibleVoteCount cfg now [] (c_storage s') = Done (eligible_vote_count s) (c_storage s')
    /\ wp (lazy_init cfg) (fun _ s2 => eligible_vote_count s2 = eligible_vote_count s /\ amount_delegated s2 = amount_delegated s
         /\ c_storage s2 = c_storage s') (fun _ _ => False) (set_lazy false s').
Proof.
  intros Hh [Hf1 Hf2] Hnr Hmax. destruct (history_ok cfg Hcfg fuel delayed run Hpct _ _ _ Hh) as [Hn Hok].
  exists (saved s). split; [apply EndBlockCall_run; [by eapply ok_init|done]|].
  destruct Hok as (A & Hs & Hi). pose proof (rel_balance _ _ _ Hs) as Hb. rewrite Hb in *.
  destruct (inv_words cfg Hcfg _ _ _ _ (funds A) Hi ltac:(lia) ltac:(done) Hf1 Hf2) as (Ham & Hvt & _).
  pose proof (iv_saved _ _ _ _ _ Hi) as Hsv. destruct Hs as [_ <-].
  destruct (saved_current s Hsv Hvt Ham) as ([Hv Ha] & Hv1 & Ha1). rewrite Hv1 in Hv. rewrite Ha1 in Ha.
  unfold saved_counters in *. cbn [abs a_saved fst snd] in *.
  generalize dependent (saved s). intros s' Hv Ha _ _. split.
  - unfold TotalEligibleVoteCount, bindM. cbn. destruct (ts_scalar (c_storage s') !! SEligibleVoteCount) as [b|]; cbn in *.
    + by rewrite Hv.
    + by injection Hv as <-.
  - unfold lazy_init. apply wp_gets. simpl lazy_init_done. cbv iota.
    eapply wp_bind_done; [unfold yield_max_supply; by rewrite FromBig_small|].
    destruct s' as [t f1 f2 f3 f4 f5 f6 f7 f8 f9 f10]. simpl in *.
    eapply (wp_bind_done _ _ _ _ _ (ts_scalar t !! SEligibleVoteCount)); [done|].
    eapply (wp_bind_done _ _ _ _ _ (eligible_vote_count s)).
    { unfold DEC_votes. destruct (ts_scalar t !! SEligibleVoteCount); simpl in *; [by rewrite Hv|by injection Hv as <-]. }
    eapply wp_bind_done; [done|]. eapply (wp_bind_done _ _ _ _ _ (ts_scalar t !! SAmountDelegated)); [done|].
    rewrite Ha. eapply wp_bind_done; [done|]. eapply (wp_bind_done _ _ _ _ _ (ts_scalar t !! STotalSupply)); [done|].
    destruct (ts_scalar t !! STotalSupply); cbn; by split_and!.
Qed.
End reached.

Section handlers.
Context `{Uint256Laws} `{Crypto} (cfg : ChainConfig) (Hcfg : cfg_ok cfg).

(** C6: [delegate].  It is refused, with the state untouched, exactly when
    the validator does not exist, its maximal stake would be exceeded, or a
    first delegation is below the minimum.  Otherwise the caller's delegation
    and the validator's stake grow by the value sent, the caller is paid what
    the delegation had earned, and nobody else's stake changes. *)
Theorem delegate_effect now evm_block n s ctx v :
  ok cfg now n (Value ctx) s -> room cfg n s -> 0 <= Value ctx -> Account ctx = dpos_contract_address ->
  wp (delegate cfg evm_block ctx now v)
    (fun _ s' => ok_after cfg now (n + 2) s s'
       /\ delegate_refused cfg (abs s) v (CallerAccount ctx) (Value ctx) = None
       /\ staked cfg ctx now (abs s) (abs s') v (Value ctx) /\ same_undelegations (abs s) (abs s'))
    (fun e s' => s' = s /\ delegate_refused cfg (abs s) v (CallerAccount ctx) (Value ctx) = Some e) s.
Proof. intros Hok Hr Hv Ha. exact (delegate_spec cfg Hcfg now evm_block n s ctx v Hok Hr Hv Ha). Qed.

(** C7: [undelegate] and [undelegateV2].  They are refused exactly for a
    second pending undelegation of the first kind, a missing validator or
    delegation, or an amount that exceeds the delegation or leaves less than
    the minimum.  Otherwise the stake shrinks by the amount, the earned
    rewards are paid, and a new undelegation, under an id no other has, holds
    the amount until the locking period is over. *)
Theorem undelegate_effect now n s ctx v amount v2 :
  ok cfg now n 0 s -> room cfg n s -> 0 < amount -> Account ctx = dpos_contract_address ->
  wp (undelegate cfg ctx now v amount v2)
    (fun id s' => ok_after cfg now (n + 3) s s'
       /\ undelegate_refused cfg (abs s) v (CallerAccount ctx) amount v2 = None
       /\ staked cfg ctx now (abs s) (abs s') v (- amount)
       /\ undelegated (abs s) (abs s') v (CallerAccount ctx) v2 (mkUndelegationV1 amount (u64 (now + locking_period cfg now))) id)
    (fun e s' => s' = s /\ undelegate_refused cfg (abs s) v (CallerAccount ctx) amount v2 = Some e) s.
Proof.
  intros. eapply wp_mono; [by apply undelegate_spec| |done]. intros id s' (Hok & [Hr Hs] & Hu). done.
Qed.

(** C10: [redelegate].  It is refused, with the state untouched and with the
    first error that applies, exactly when both validators are the same
    (after the block of the fix), the amount is zero (from the second Aspen
    hardfork on), a validator does not exist, the maximal stake of the second
    would be exceeded, or the delegation to the first is missing, too small
    or left below the minimum.  Otherwise the amount moves from one validator
    to the other in one step: first the caller's delegation to the one
    shrinks, then its delegation to the other grows, both paid their rewards.
    Assumed ([redelegation_ok]): while the code does not refuse them yet, the
    validators differ and the amount is positive; and the first validator is
    not left without stake and commission while undelegations wait for it,
    where from the Magnolia hardfork on its state is lost
    ([redelegate_loses_state]). *)
Theorem redelegate_effect now n s ctx from to amount :
  ok cfg now n 0 s -> room cfg n s -> Account ctx = dpos_contract_address -> redelegation_ok cfg now (abs s) from to amount ->
  wp (redelegate cfg ctx now from to amount)
    (fun _ s' => ok_after cfg now (n + 4) s s'
       /\ redelegate_refused cfg now (abs s) from to (CallerAccount ctx) amount = None
       /\ same_undelegations (abs s) (abs s')
       /\ exists A1, staked cfg ctx now (abs s) A1 from (- amount) /\ staked cfg ctx now A1 (abs s') to amount)
    (fun e s' => s' = s /\ redelegate_refused cfg now (abs s) from to (CallerAccount ctx) amount = Some e) s.
Proof.
  intros Hok Hr Ha Hk. exact (redelegate_spec cfg Hcfg now n s ctx from to amount Hok Hr Hk Ha).
Qed.

(** C11: [claimRewards] pays exactly what is pending and leaves the stake. *)
Theorem claim_effect now n s ctx v :
  ok cfg now n 0 s -> room cfg n s -> Account ctx = dpos_contract_address ->
  wp (claimRewards cfg ctx now v)
    (fun _ s' => ok_after cfg now (n + 2) s s' /\ staked cfg ctx now (abs s) (abs s') v 0
       /\ same_undelegations (abs s) (abs s'))
    (fun e s' => s' = s /\ e = ErrNonExistentDelegation /\ a_del (abs s) !! (v, CallerAccount ctx) = None) s.
Proof. intros Hok Hr Ha. exact (claimRewards_spec cfg Hcfg now n s ctx v Hok Hr Ha). Qed.

Lemma room_later n n' s s' : room cfg n s -> 0 <= n' < 2 ^ 30 -> balance s' <= balance s -> room cfg n' s'.
Proof. unfold room. lia. Qed.

(** What is left of the hypotheses for a second call. *)
Lemma after_call now now' n n' s s' :
  ok_after cfg now n' s s' -> now <= now' -> room cfg n s -> 0 <= n' < 2 ^ 30 -> ok cfg now' n' 0 s' /\ room cfg n' s'.
Proof. intros [Hok Hb] Hl Hr Hn. split; [by eapply ok_later|by eapply room_later]. Qed.

Abbreviation unlock now := (u64 (now + locking_period cfg now)).

(** C8: the life of an undelegation.  An undelegation can be confirmed from
    the end of its locking period on: before, confirming it fails and leaves
    it pending; after, the caller is paid exactly the amount it took out and
    the undelegation is gone. *)
Theorem undelegate_confirm now now' n s ctx v amount :
  ok cfg now n 0 s -> room cfg n s -> n + 3 < 2 ^ 30 -> 0 < amount -> Account ctx = dpos_contract_address -> now <= now' ->
  undelegate_refused cfg (abs s) v (CallerAccount ctx) amount true = None ->
  wp (undelegate cfg ctx now v amount true)
    (fun id s1 =>
       staked cfg ctx now (abs s) (abs s1) v (- amount) /\
       wp (confirmUndelegate cfg ctx now' v (Some id))
         (fun _ s2 => unlock now <= now' /\ ok cfg now' (n + 3) 0 s2
            /\ a_bal (abs s2) = paid ctx amount (a_bal (abs s1))
            /\ a_del (abs s2) = a_del (abs s1) /\ a_u2 (abs s2) = a_u2 (abs s))
         (fun e s2 => now' < unlock now /\ e = ErrLockedUndelegation /\ s2 = s1) s1)
    (fun _ _ => False) s.
Proof.
  intros Hok Hroom Hn Hz Ha Hl Hgo. eapply wp_mono; [by apply (undelegate_spec cfg Hcfg now n s ctx v amount true)| |].
  2: { intros e s' [_ Hr]. congruence. }
  intros id s1 (Haft & [_ Hst] & Hfresh & Hid & Hu2 & _). split; [done|].
  destruct (after_call _ now' _ _ _ _ Haft Hl Hroom) as [Hok1 Hr1]; [destruct Hroom; lia|].
  assert (a_undel (abs s1) (CallerAccount ctx) v (Some id) = Some (mkUndelegationV1 amount (unlock now))) as Hun.
  { unfold a_undel. by rewrite Hu2, lookup_insert_eq. }
  eapply wp_mono; [apply (confirmUndelegate_spec cfg Hcfg now' (n + 3)); [done|done|simpl; lia|done]|..].
  - intros _ s2 ([Hok2 _] & u & Hu & Hlock & [_ Hs2] & Hd & Hb). rewrite Hun in Hu. injection Hu as <-. simpl in *.
    split_and!; [done|done|done|done|]. rewrite Hs2, Hu2. apply delete_insert_id, Hfresh.
  - intros e s2 [-> Hr]. unfold confirm_refused in Hr. rewrite Hun in Hr. simpl in Hr.
    destruct (Z.ltb_spec now' (unlock now)); [|done]. by injection Hr as <-.
Qed.

(** C9: undelegating part of a delegation and cancelling it, at the same or a
    later block, gives the stake back: the delegation is as it was, up to its
    block, and so are the pending undelegations and the validator's stake. *)
Theorem undelegate_cancel now now' n s ctx v amount (y : Delegation) :
  ok cfg now n 0 s -> room cfg n s -> n + 5 < 2 ^ 30 -> Account ctx = dpos_contract_address -> now <= now' ->
  undelegate_refused cfg (abs s) v (CallerAccount ctx) amount true = None ->
  stored_delegation s v (CallerAccount ctx) = Some y -> 0 < amount < d_Stake y ->
  wp (id ← undelegate cfg ctx now v amount true; _ ← cancelUndelegate cfg ctx now' v (Some id); ret id)
    (fun _ s' => ok cfg now' (n + 5) 0 s'
       /\ stored_delegation s' v (CallerAccount ctx) = Some (mkDelegation (d_Stake y) now')
       /\ (forall k, k <> (v, CallerAccount ctx) -> ts_delegation (c_storage s') !! k = ts_delegation (c_storage s) !! k)
       /\ ts_undel2 (c_storage s') = ts_undel2 (c_storage s)
       /\ from_option (fun x : Validator => TotalStake x) 0 (a_val (abs s') !! v)
          = from_option (fun x : Validator => TotalStake x) 0 (a_val (abs s) !! v))
    (fun _ _ => False) s.
Proof.
  intros Hok Hroom Hn Ha Hl Hgo Hy Hz. apply wp_bind.
  eapply wp_mono; [apply (undelegate_spec cfg Hcfg now n s ctx v amount true); [done..|lia|done]| |].
  2: { intros e s' [_ Hr]. congruence. }
  intros id s1 (Haft & [_ Hst] & Hfresh & Hid & Hu2 & _).
  destruct (after_call _ now' _ _ _ _ Haft Hl Hroom) as [Hok1 Hr1]; [destruct Hroom; lia|].
  assert (stake_at (abs s) v (CallerAccount ctx) = d_Stake y) as Hsy by (unfold stored_delegation in Hy; unfold stake_at; simpl; by rewrite Hy).
  pose proof (sk_own _ _ _ _ _ _ _ Hst) as Hown. cbv zeta in Hown. rewrite Hsy, (proj2 (Z.eqb_neq _ _)) in Hown by lia.
  assert (is_Some (a_val (abs s1) !! v)) as [x Hx].
  { destruct Hok1 as (A1 & [_ <-] & Hi1). by destruct (iv_del _ _ _ _ _ Hi1 _ _ _ Hown). }
  assert (a_undel (abs s1) (CallerAccount ctx) v (Some id) = Some (mkUndelegationV1 amount (unlock now))) as Hun.
  { unfold a_undel. by rewrite Hu2, lookup_insert_eq. }
  apply wp_bind. eapply wp_mono; [apply (cancelUndelegate_spec cfg Hcfg now' (n + 3)); [done|done|simpl; lia|done]|..].
  2: { intros e s2 [-> Hr]. unfold cancel_refused in Hr. by rewrite Hun, Hx in Hr. }
  intros _ s2 ([Hok2 _] & u & Hu & Hst2 & [_ Hs2]). rewrite Hun in Hu. injection Hu as <-. simpl in Hst2, Hs2. apply wp_ret.
  replace (n + 3 + 2) with (n + 5) in Hok2 by lia. split; [done|].
  pose proof (sk_own _ _ _ _ _ _ _ Hst2) as Hown2. cbv zeta in Hown2. unfold stake_at in Hown2. rewrite Hown in Hown2. simpl in Hown2.
  rewrite (proj2 (Z.eqb_neq _ _)) in Hown2 by lia. split_and!.
  - unfold stored_delegation. simpl in Hown2. rewrite Hown2. do 2 f_equal. lia.
  - intros k Hk. pose proof (sk_others _ _ _ _ _ _ _ Hst2 k Hk) as H2. pose proof (sk_others _ _ _ _ _ _ _ Hst k Hk) as H3.
    simpl in H2, H3. by rewrite H2.
  - simpl in Hs2. rewrite Hs2. change (ts_undel2 (c_storage s1)) with (a_u2 (abs s1)). rewrite Hu2. apply delete_insert_id, Hfresh.
  - pose proof (sk_total _ _ _ _ _ _ _ Hst). pose proof (sk_total _ _ _ _ _ _ _ Hst2). simpl in *. lia.
Qed.
End handlers.

Section rewards.
Context `{Uint256Laws} (cfg : ChainConfig) (Hpct : percent_ok cfg).

(** C12: the block reward.  [DistributeRewards] never panics; what it mints is
    at most the block's reward, the contract's balance grows by what it mints
    and at most the fees, so that every share it books is covered, and after
    the second Aspen hardfork the recorded supply grows by exactly the minted
    amount. *)
Theorem distribute_bounds now n s st :
  ok cfg now n 0 s -> stats_ok st -> supply_ok cfg s -> 0 <= block_reward cfg now s < 2 ^ 192 ->
  wp (DistributeRewards cfg now st)
    (fun minted s' => ok cfg now n 0 s' /\ 0 <= minted <= block_reward cfg now s
       /\ balance s + minted <= balance s' <= balance s + minted + zsum (fun e => fee (snd e)) (ValidatorsStats st)
       /\ (IsOnAspenHardforkPartTwo (Hardforks cfg) now = true -> total_supply s' = Some (u_add (supply_of cfg s) minted)))
    (fun _ _ => False) s.
Proof. intros Hok Hst Hsup HR. exact (distribute_safe cfg Hpct now n s st Hok Hst Hsup HR). Qed.
End rewards.

(** ** At the states of the example *)
#[local] Existing Instance Ref.ops.
#[local] Existing Instance Ref.laws.
#[local] Existing Instance toy_crypto.
#[local] Existing Instance toy_crypto_laws.

Definition ctx_of (a : Address) (value : Z) : CallFrame := mkCallFrame a dpos_contract_address value.

Lemma ex_room n s : (0 <=? n) && (n <? 2 ^ 30) && (balance s <? 2 ^ 64) = true -> room ex_cfg n s.
Proof. intros. zbool. unfold room. simpl. lia. Qed.


Lemma reached_counters_witness : amount_delegated ex7 = total_stake (ts_delegation (c_storage ex7)) /\ amount_delegated ex7 = 2700.
Proof.
  split; [|by vm_compute].
  exact (proj1 (reached_counters ex_cfg ex_cfg_ok ex_percent_ok 100 ex_delayed no_code 5 84 ex7 ex7_history)).
Defined.

Lemma reached_records_witness :
  ValidatorExists validator1 ex7 = Done (bool_decide (is_Some (ts_validator (c_storage ex7) !! validator1))) ex7
  /\ bool_decide (is_Some (ts_validator (c_storage ex7) !! validator1)) = true.
Proof.
  split; [|by vm_compute].
  exact (proj1 (proj2 (proj2 (reached_records ex_cfg ex_cfg_ok ex_percent_ok 100 ex_delayed no_code 5 84 ex7 ex7_history))) validator1).
Defined.

Lemma reached_states_witness :
  exists st, ts_state (c_storage ex7) !! (validator1, 5) = Some st /\ refs (abs ex7) validator1 5 <= Count st
    /\ 0 <= RewardsPer1Stake st /\ 5 <= 5.
Proof.
  apply (reached_states ex_cfg ex_cfg_ok ex_percent_ok 100 ex_delayed no_code 5 84 ex7 validator1 5 ex7_history).
  apply Z.ltb_lt. by vm_compute.
Defined.

(** The undelegation of [ex7], as a call that succeeds. *)
Lemma reached_call_witness :
  wp (send 5 delegator2 0 (InCall M_undelegateV2 (inr (validator1, 100))))
    (fun p => called ex_cfg 5 62 ex6 delegator2 0 (snd p)) (fun _ _ => False) ex6
  /\ match send 5 delegator2 0 (InCall M_undelegateV2 (inr (validator1, 100))) ex6 with
     | Done (_, inr (Some (RUint id))) _ => id =? 1 | _ => false end = true.
Proof.
  split; [|by vm_compute].
  apply (reached_call ex_cfg ex_cfg_ok ex_percent_ok 100 ex_delayed no_code 5 62 ex6 CALL 0 (AccWrapper delegator2));
    [apply ex6_history|by left|..].
  - apply Z.ltb_lt. by vm_compute.
  - apply ex_fits. by vm_compute.
  - lia.
  - apply (bool_decide_unpack (delegator2 <> dpos_contract_address)). by vm_compute.
  - split; [done|]. simpl. lia.
Defined.

Lemma reached_end_block_witness :
  exists s', EndBlockCall ex_cfg 5 ex7 = Done tt s'
    /\ TotalEligibleVoteCount ex_cfg 5 [] (c_storage s') = Done 27 (c_storage s')
    /\ wp (lazy_init ex_cfg) (fun _ s2 => eligible_vote_count s2 = eligible_vote_count ex7 /\ amount_delegated s2 = amount_delegated ex7
         /\ c_storage s2 = c_storage s') (fun _ _ => False) (set_lazy false s').
Proof.
  assert (27 = eligible_vote_count ex7) as -> by by vm_compute.
  apply (reached_end_block ex_cfg ex_cfg_ok ex_percent_ok 100 ex_delayed no_code 5 84 ex7); [apply ex7_history|..].
  - apply ex_fits. by vm_compute.
  - by left.
  - by split.
Defined.

Definition ex6_paid : CT := set_balances (moved delegator2 500 (c_balances ex6)) ex6.

Lemma delegate_effect_witness :
  wp (delegate ex_cfg 5 (ctx_of delegator2 500) 5 validator1)
    (fun _ s' => ok_after ex_cfg 5 64 ex6_paid s'
       /\ delegate_refused ex_cfg (abs ex6_paid) validator1 delegator2 500 = None
       /\ staked ex_cfg (ctx_of delegator2 500) 5 (abs ex6_paid) (abs s') validator1 500 /\ same_undelegations (abs ex6_paid) (abs s'))
    (fun e s' => s' = ex6_paid /\ delegate_refused ex_cfg (abs ex6_paid) validator1 delegator2 500 = Some e) ex6_paid
  /\ completes (delegate ex_cfg 5 (ctx_of delegator2 500) 5 validator1) ex6_paid = true.
Proof.
  split; [|by vm_compute].
  apply (delegate_effect ex_cfg ex_cfg_ok 5 5 62 ex6_paid (ctx_of delegator2 500) validator1); [| |done|done].
  - apply moved_ok; [apply ex_cfg_ok|apply ex_ok, ex6_history|].
    apply (bool_decide_unpack (delegator2 <> dpos_contract_address)). by vm_compute.
  - apply ex_room. by vm_compute.
Defined.

Lemma undelegate_effect_witness :
  wp (undelegate ex_cfg (ctx_of delegator2 0) 5 validator1 100 true)
    (fun id s' => ok_after ex_cfg 5 65 ex6 s'
       /\ undelegate_refused ex_cfg (abs ex6) validator1 delegator2 100 true = None
       /\ staked ex_cfg (ctx_of delegator2 0) 5 (abs ex6) (abs s') validator1 (- 100)
       /\ undelegated (abs ex6) (abs s') validator1 delegator2 true (mkUndelegationV1 100 (u64 (5 + locking_period ex_cfg 5))) id)
    (fun e s' => s' = ex6 /\ undelegate_refused ex_cfg (abs ex6) validator1 delegator2 100 true = Some e) ex6
  /\ completes (undelegate ex_cfg (ctx_of delegator2 0) 5 validator1 100 true) ex6 = true.
Proof.
  split; [|by vm_compute].
  apply (undelegate_effect ex_cfg ex_cfg_ok 5 62 ex6 (ctx_of delegator2 0) validator1 100 true); [|..|done|done].
  - apply ex_ok, ex6_history.
  - apply ex_room. by vm_compute.
Defined.

Lemma ex6_redelegation : redelegation_ok ex_cfg 5 (abs ex6) validator1 validator2 50.
Proof.
  split; [done|]. split; [intros _; apply (bool_decide_unpack (validator1 <> validator2)); by vm_compute|]. split; [done|].
  intros _ _ x r Hx _ _ HT _. exfalso.
  assert (option_map (fun x : Validator => TotalStake x) (a_val (abs ex6) !! validator1) = Some 1300) as E by by vm_compute.
  rewrite Hx in E. simpl in E. congruence.
Qed.

Lemma redelegate_effect_witness :
  wp (redelegate ex_cfg (ctx_of delegator2 0) 5 validator1 validator2 50)
    (fun _ s' => ok_after ex_cfg 5 66 ex6 s'
       /\ redelegate_refused ex_cfg 5 (abs ex6) validator1 validator2 delegator2 50 = None
       /\ same_undelegations (abs ex6) (abs s')
       /\ exists A1, staked ex_cfg (ctx_of delegator2 0) 5 (abs ex6) A1 validator1 (- 50)
            /\ staked ex_cfg (ctx_of delegator2 0) 5 A1 (abs s') validator2 50)
    (fun e s' => s' = ex6 /\ redelegate_refused ex_cfg 5 (abs ex6) validator1 validator2 delegator2 50 = Some e) ex6
  /\ completes (redelegate ex_cfg (ctx_of delegator2 0) 5 validator1 validator2 50) ex6 = true.
Proof.
  split; [|by vm_compute].
  apply (redelegate_effect ex_cfg ex_cfg_ok 5 62 ex6 (ctx_of delegator2 0) validator1 validator2 50); [|..|done|apply ex6_redelegation].
  - apply ex_ok, ex6_history.
  - apply ex_room. by vm_compute.
Defined.

Lemma claim_effect_witness :
  wp (claimRewards ex_cfg (ctx_of delegator2 0) 5 validator1)
    (fun _ s' => ok_after ex_cfg 5 64 ex6 s' /\ staked ex_cfg (ctx_of delegator2 0) 5 (abs ex6) (abs s') validator1 0
       /\ same_undelegations (abs ex6) (abs s'))
    (fun e s' => s' = ex6 /\ e = ErrNonExistentDelegation /\ a_del (abs ex6) !! (validator1, delegator2) = None) ex6
  /\ pending ex_cfg (abs ex6) 5 validator1 delegator2 = 61.
Proof.
  split; [|by vm_compute].
  apply (claim_effect ex_cfg ex_cfg_ok 5 62 ex6 (ctx_of delegator2 0) validator1); [| |done].
  - apply ex_ok, ex6_history.
  - apply ex_room. by vm_compute.
Defined.

Lemma undelegate_confirm_witness :
  wp (undelegate ex_cfg (ctx_of delegator2 0) 5 validator1 100 true)
    (fun id s1 =>
       staked ex_cfg (ctx_of delegator2 0) 5 (abs ex6) (abs s1) validator1 (- 100) /\
       wp (confirmUndelegate ex_cfg (ctx_of delegator2 0) 30 validator1 (Some id))
         (fun _ s2 => u64 (5 + locking_period ex_cfg 5) <= 30 /\ ok ex_cfg 30 65 0 s2
            /\ a_bal (abs s2) = paid (ctx_of delegator2 0) 100 (a_bal (abs s1))
            /\ a_del (abs s2) = a_del (abs s1) /\ a_u2 (abs s2) = a_u2 (abs ex6))
         (fun e s2 => 30 < u64 (5 + locking_period ex_cfg 5) /\ e = ErrLockedUndelegation /\ s2 = s1) s1)
    (fun _ _ => False) ex6.
Proof.
  apply (undelegate_confirm ex_cfg ex_cfg_ok 5 30 62 ex6 (ctx_of delegator2 0) validator1 100);
    [apply ex_ok, ex6_history|apply ex_room; by vm_compute|done..|by vm_compute].
Defined.

Lemma undelegate_cancel_witness :
  wp (id ← undelegate ex_cfg (ctx_of delegator2 0) 5 validator1 100 true;
      _ ← cancelUndelegate ex_cfg (ctx_of delegator2 0) 9 validator1 (Some id); ret id)
    (fun _ s' => ok ex_cfg 9 67 0 s'
       /\ stored_delegation s' validator1 delegator2 = Some (mkDelegation 300 9)
       /\ (forall k, k <> (validator1, delegator2) -> ts_delegation (c_storage s') !! k = ts_delegation (c_storage ex6) !! k)
       /\ ts_undel2 (c_storage s') = ts_undel2 (c_storage ex6)
       /\ from_option (fun x : Validator => TotalStake x) 0 (a_val (abs s') !! validator1)
          = from_option (fun x : Validator => TotalStake x) 0 (a_val (abs ex6) !! validator1))
    (fun _ _ => False) ex6.
Proof.
  apply (undelegate_cancel ex_cfg ex_cfg_ok 5 9 62 ex6 (ctx_of delegator2 0) validator1 100 (mkDelegation 300 2));
    [apply ex_ok, ex6_history|apply ex_room; by vm_compute|done|done|done|by vm_compute|by vm_compute|done].
Defined.

Lemma distribute_bounds_witness :
  wp (DistributeRewards ex_cfg 2 ex_stats)
    (fun minted s' => ok ex_cfg 2 62 0 s' /\ 0 <= minted <= block_reward ex_cfg 2 ex4
       /\ balance ex4 + minted <= balance s' <= balance ex4 + minted + zsum (fun e => fee (snd e)) (ValidatorsStats ex_stats)
       /\ (IsOnAspenHardforkPartTwo (Hardforks ex_cfg) 2 = true -> total_supply s' = Some (u_add (supply_of ex_cfg ex4) minted)))
    (fun _ _ => False) ex4
  /\ block_reward ex_cfg 2 ex4 = 280.
Proof.
  split; [|by vm_compute].
  apply (distribute_bounds ex_cfg ex_percent_ok 2 62 ex4 ex_stats);
    [apply ex_ok, ex4_history|apply ex_stats_ok|apply ex_supply_ok; by vm_compute|].
  split; [apply Z.leb_le|apply Z.ltb_lt]; by vm_compute.
Defined.
