(* ===== verification/DposOrder.v ===== *)
(** * The order of a block's statistics does not matter

    [DistributeRewards] ranges over a Go map, whose order differs from run to
    run and from node to node.  A run of the loop is shown to be a fold of a
    pure function whose steps at different validators commute, so that every
    order leaves the same state. *)
From S2P Require Import Prelude Bytes Crypto ChainConfig Uint256 Storage IterableMap DposStorage Validators Dpos DposRewards DposTyped DposInv DposSafe DposDistribute DposExample DposHistory.

(** The statistics with their entries in another order. *)
Definition reordered (es : list (Address * ValidatorStats)) (st : RewardsStats) : RewardsStats :=
  mkRewardsStats (BlockAuthor st) es (TotalDagBlocksCount st) (TotalVotesWeight st) (MaxVotesWeight st).

Lemma ValidatorExists_same v (s : CT) b s' : ValidatorExists v s = Done b s' -> s' = s.
Proof.
  unfold ValidatorExists, AccountExists, ItemExists, itemExists, bindM. rewrite get_run.
  unfold u32_of_bytes. destruct (imap_part s !! _); [destruct (bytesToUint32 _)|]; by intros [= _ <-].
Qed.

Section order.
Context `{Uint256Laws} (cfg : ChainConfig).

(** What one entry adds to the contract. *)
Definition commission_and_fee (reward : Z) (x : Validator) (vs : ValidatorStats) : Z :=
  let c := commission_of reward x in
  match FeesRewards vs with Some f => if 0 <? f then u_add c (fst (u_FromBig f)) else c | None => c end.

Definition funded (z : Z) (s : CT) : CT :=
  if 0 <? z then set_balances (<[dpos_contract_address := balance s + z]> (c_balances s)) s else s.

Definition rewarded (v : Address) (c d : Z) (s : CT) : CT :=
  set_storage (ts_update (c_storage s) KdRewards v
    (match ts_rewards (c_storage s) !! v with
     | Some r => Some (mkValidatorRewards (RewardsPool r + d) (CommissionRewardsPool r + c))
     | None => None
     end)) s.

Definition credited (d v : Z) (st : RewardsStats) (e : Address * ValidatorStats) (p : (Z * Z) * CT) : (Z * Z) * CT :=
  match ts_validator (c_storage (snd p)) !! fst e with
  | None => p
  | Some x =>
      let reward := validator_reward d v st (snd e) in
      ((u_add (fst (fst p)) reward, u_add (snd (fst p)) reward),
       rewarded (fst e) (commission_and_fee reward (validator_of x) (snd e))
         (u_sub reward (commission_of reward (validator_of x))) (funded (fee (snd e)) (snd p)))
  end.

Lemma AddValidatorRewards_done v c d (s : CT) u s' : AddValidatorRewards v c d s = Done u s' -> s' = rewarded v c d s.
Proof.
  unfold AddValidatorRewards, bindM. destruct (ValidatorExists v s) as [b s1| |] eqn:He; [|done..].
  apply ValidatorExists_same in He as ->. destruct b; [|done]. cbn [negb]. cbv beta iota.
  assert (GetValidatorRewards v s = Done (ts_rewards (c_storage s) !! v) s) as ->.
  { by destruct s as [[] ? ? ? ? ? ? ? ? ? ?]. }
  unfold rewarded. destruct (ts_rewards (c_storage s) !! v) as [r|]; [|done]. unfold deref, ret, ModifyValidatorRewards, Modify, bindM.
  destruct (ValidatorExists v s) as [b s1| |] eqn:He; [|done..]. apply ValidatorExists_same in He as ->.
  destruct b; [|done]. simpl. destruct s as [[] ? ? ? ? ? ? ? ? ? ?]; simpl. unfold ts_put. simpl.
  destruct (_ && _); [|done]. by intros [= _ <-].
Qed.

Lemma reward_validator_done d v st e acc (s : CT) acc' s' :
  reward_validator d v st e acc s = Done acc' s' -> (acc', s') = credited d v st e (acc, s).
Proof.
  destruct e as [a vs]. unfold reward_validator, credited, bindM. simpl fst. simpl snd. cbv zeta.
  assert (GetValidator a s = Done (validator_of <$> ts_validator (c_storage s) !! a) s) as ->.
  { by destruct s as [[] ? ? ? ? ? ? ? ? ? ?]. }
  destruct (ts_validator (c_storage s) !! a) as [x|]; simpl; [|by intros [= <- <-]].
  unfold commission_and_fee, funded, fee. destruct (FeesRewards vs) as [f|]; [destruct (Z.ltb_spec 0 f) as [Hf|Hf]|]; simpl.
  - rewrite (proj2 (Z.ltb_lt 0 (Z.max 0 f))), Z.max_r by lia.
    destruct (AddValidatorRewards _ _ _ _) as [u s1| |] eqn:Ha; [|done..].
    apply AddValidatorRewards_done in Ha as ->. by intros [= <- <-].
  - rewrite (proj2 (Z.ltb_ge 0 (Z.max 0 f))) by lia.
    destruct (AddValidatorRewards _ _ _ _) as [u s1| |] eqn:Ha; [|done..].
    apply AddValidatorRewards_done in Ha as ->. by intros [= <- <-].
  - destruct (AddValidatorRewards _ _ _ _) as [u s1| |] eqn:Ha; [|done..].
    apply AddValidatorRewards_done in Ha as ->. by intros [= <- <-].
Qed.

Lemma reward_validators_done d v st es acc (s : CT) acc' s' :
  reward_validators d v st es acc s = Done acc' s' -> (acc', s') = foldl (fun p e => credited d v st e p) (acc, s) es.
Proof.
  revert acc s. induction es as [|e es IH]; intros acc s; [by intros [= <- <-]|]. cbn [reward_validators foldl].
  unfold bindM. destruct (reward_validator d v st e acc s) as [a1 s1| |] eqn:He; [|done..].
  apply reward_validator_done in He as <-. apply IH.
Qed.

(** ** The steps commute *)
Definition words (p : (Z * Z) * CT) : Prop := word (fst (fst p)) /\ word (snd (fst p)).

Lemma u_add_comm_acc a x y : word a -> word x -> word y -> u_add (u_add a x) y = u_add (u_add a y) x.
Proof.
  intros Ha Hx Hy. rewrite !(u_add_spec a) by done. rewrite !u_add_spec by (done || (apply Z.mod_pos_bound; lia)).
  rewrite !Zplus_mod_idemp_l. f_equal. lia.
Qed.

Lemma funded_comm x y s : funded x (funded y s) = funded y (funded x s).
Proof.
  unfold funded, balance, balance_of. destruct (0 <? x), (0 <? y); try done. unfold set_balances. simpl.
  rewrite !lookup_insert_eq, !insert_insert_eq. simpl. do 2 f_equal. lia.
Qed.

Lemma rewarded_comm v w c d c' d' s :
  v <> w -> rewarded v c d (rewarded w c' d' s) = rewarded w c' d' (rewarded v c d s).
Proof.
  intros Hne. unfold rewarded, set_storage. simpl. unfold mput.
  destruct (ts_rewards (c_storage s) !! v) as [r|] eqn:Hv, (ts_rewards (c_storage s) !! w) as [r'|] eqn:Hw; simpl;
    rewrite ?lookup_insert_ne, ?lookup_delete_ne, ?Hv, ?Hw by done; simpl;
    do 2 f_equal; apply map_eq; intros k;
    destruct (decide (k = v)), (decide (k = w)); by simplify_map_eq.
Qed.

Lemma rewarded_funded v c d z s : rewarded v c d (funded z s) = funded z (rewarded v c d s).
Proof. unfold funded. by destruct (0 <? z). Qed.

Lemma rewarded_validators v c d s : ts_validator (c_storage (rewarded v c d s)) = ts_validator (c_storage s).
Proof. done. Qed.

Lemma funded_storage z s : c_storage (funded z s) = c_storage s.
Proof. unfold funded. by case_match. Qed.

Lemma credited_validators d v st e p : ts_validator (c_storage (snd (credited d v st e p))) = ts_validator (c_storage (snd p)).
Proof. unfold credited. destruct (_ !! fst e); [|done]. simpl. by rewrite funded_storage. Qed.

Lemma word_reward d v st (vs : ValidatorStats) :
  word d -> word v -> word (TotalDagBlocksCount st) -> word (TotalVotesWeight st) -> word (DagBlocksCount vs) -> word (VoteWeight vs) ->
  word (validator_reward d v st vs).
Proof.
  intros. assert (word 0) by (unfold word; lia). unfold validator_reward. cbv zeta. repeat case_match; auto 7 with word.
Qed.

(** The rewards an entry can yield are words. *)
Definition word_rewards d v st (es : list (Address * ValidatorStats)) : Prop :=
  forall e, e ∈ es -> word (validator_reward d v st (snd e)).

Lemma credited_words d v st e p : word (validator_reward d v st (snd e)) -> words p -> words (credited d v st e p).
Proof. intros Hw [H1 H2]. unfold credited. destruct (_ !! fst e); [|done]. split; simpl; auto with word. Qed.

Lemma credited_comm d v st e e' p :
  fst e <> fst e' -> words p -> word (validator_reward d v st (snd e)) -> word (validator_reward d v st (snd e')) ->
  credited d v st e (credited d v st e' p) = credited d v st e' (credited d v st e p).
Proof.
  intros Hne [Hw1 Hw2] He He'. unfold credited at 1 3. rewrite !credited_validators. unfold credited.
  destruct (ts_validator (c_storage (snd p)) !! fst e) as [x|] eqn:Hx,
    (ts_validator (c_storage (snd p)) !! fst e') as [y|] eqn:Hy; try done. cbn [fst snd].
  f_equal; [f_equal; by apply u_add_comm_acc|].
  rewrite <- !rewarded_funded, funded_comm. by rewrite rewarded_comm.
Qed.

Lemma foldl_credited_perm d v st es es' p :
  es ≡ₚ es' -> NoDup (fst <$> es) -> words p -> word_rewards d v st es ->
  foldl (fun p e => credited d v st e p) p es = foldl (fun p e => credited d v st e p) p es'.
Proof.
  intros Hp. revert p. induction Hp as [|e es es' Hp IH|e e' es|es es1 es2 Hp1 IH1 Hp2 IH2]; intros p Hnd Hw Hr; [done|..].
  - cbn [foldl]. apply NoDup_cons in Hnd as [_ Hnd]. apply IH; [done| |].
    + apply credited_words; [apply Hr; left|done].
    + intros e0 He0. apply Hr. by right.
  - cbn [foldl]. f_equal. apply credited_comm; [|done|apply Hr; right; left|apply Hr; left].
    simpl in Hnd. apply NoDup_cons in Hnd as [Hn _]. intros E. apply Hn. rewrite E. left.
  - etrans; [by apply IH1|]. apply IH2; [by rewrite <- Hp1|done|].
    intros e He. apply Hr. by rewrite Hp1.
Qed.

Lemma reward_validators_perm d v st es es' acc (s : CT) a1 s1 a2 s2 :
  es ≡ₚ es' -> NoDup (fst <$> es) -> words (acc, s) -> word_rewards d v st es ->
  reward_validators d v st es acc s = Done a1 s1 -> reward_validators d v (reordered es' st) es' acc s = Done a2 s2 ->
  a1 = a2 /\ s1 = s2.
Proof.
  intros Hp Hnd Hw Hr H1%reward_validators_done H2%reward_validators_done.
  assert (forall l p, foldl (fun p e => credited d v (reordered es' st) e p) p l = foldl (fun p e => credited d v st e p) p l) as E.
  { induction l as [|e l IH]; [done|]. intros p. cbn [foldl]. by rewrite IH. }
  rewrite E in H2. rewrite (foldl_credited_perm d v st es es' (acc, s)) in H1 by done.
  rewrite <- H2 in H1. by injection H1 as -> ->.
Qed.
End order.

Section distribute.
Context `{Uint256Laws} (cfg : ChainConfig) (Hcfg : cfg_ok cfg) (Hpct : percent_ok cfg).

Lemma zsum_perm {X} (f : X -> Z) l l' : l ≡ₚ l' -> zsum f l = zsum f l'.
Proof. induction 1; simpl; lia. Qed.

Lemma stats_ok_reordered st es : stats_ok st -> ValidatorsStats st ≡ₚ es -> stats_ok (reordered es st).
Proof.
  intros [] Hp. split; simpl; try done; try (by setoid_rewrite <- Hp).
  - by rewrite <- (zsum_perm _ _ _ Hp).
  - by rewrite <- (zsum_perm _ _ _ Hp).
Qed.

Lemma block_reward_run now n s :
  ok cfg now n 0 s -> supply_ok cfg s ->
  wp (if IsOnAspenHardforkPartTwo (Hardforks cfg) now then o ← processBlockReward cfg now; deref o
      else amount ← gets amount_delegated; ret (u_div (u_mul amount (YieldPercentage (DPOS cfg))) (u_mul 100 (BlocksPerYear (DPOS cfg)))))
    (fun r _ => r = block_reward cfg now s) (fun _ _ => False) s.
Proof.
  intros (A & Hs & Hi) Hsup. destruct (IsOnAspenHardforkPartTwo (Hardforks cfg) now) eqn:Ha.
  - eapply wp_processBlockReward; [exact Hs|done|done|]. done.
  - unfold block_reward. by rewrite Ha.
Qed.

Lemma reward_author_words a z (s : CT) acc s' : word z -> reward_author a z s = Done acc s' -> words (acc, s').
Proof.
  intros Hz. assert (word 0) by (unfold word; lia). unfold reward_author. destruct (0 <? z); [|by intros [= <- <-]].
  unfold bindM. destruct (GetValidator a s) as [[x|] s1| |]; [| |done..]; [|by intros [= <- <-]].
  destruct (AddValidatorRewards _ _ _ s1); [|done..]. intros [= <- <-]. split; simpl; auto with word.
Qed.

Lemma stats_words d v st : stats_ok st -> word d -> word v -> word_rewards d v st (ValidatorsStats st).
Proof.
  intros Hst Hd Hv e He. pose proof (so_dag _ Hst e He). pose proof (so_vote _ Hst e He).
  pose proof (so_dags _ Hst). pose proof (so_votes _ Hst).
  assert (0 <= zsum (fun e => DagBlocksCount (snd e)) (ValidatorsStats st)) by (apply zsum_nonneg; intros; by apply Hst).
  assert (0 <= zsum (fun e => VoteWeight (snd e)) (ValidatorsStats st)) by (apply zsum_nonneg; intros; by apply Hst).
  apply word_reward; try done; unfold word; lia.
Qed.

(** C13: the rewards of a block do not depend on the order in which the map of
    validator statistics is ranged over: the minted amount and the whole
    state are the same for every order. *)
Theorem distribute_order now n s st es :
  ok cfg now n 0 s -> stats_ok st -> supply_ok cfg s -> 0 <= block_reward cfg now s < 2 ^ 192 ->
  NoDup (fst <$> ValidatorsStats st) -> ValidatorsStats st ≡ₚ es ->
  DistributeRewards cfg now (reordered es st) s = DistributeRewards cfg now st s.
Proof.
  intros Hok Hst Hsup HR Hnd Hp.
  pose proof (distribute_safe cfg Hpct now n s st Hok Hst Hsup HR) as Hw1.
  pose proof (distribute_safe cfg Hpct now n s _ Hok (stats_ok_reordered _ _ Hst Hp) Hsup HR) as Hw2.
  unfold wp in Hw1, Hw2.
  destruct (DistributeRewards cfg now st s) as [m1 s1| |] eqn:H1'; [|done..].
  destruct (DistributeRewards cfg now (reordered es st) s) as [m2 s2| |] eqn:H2'; [|done..].
  clear Hw1 Hw2. unfold DistributeRewards in H1', H2'.
  assert (lazy_init cfg s = Done tt s) as Hlz.
  { destruct Hok as (A & [_ <-] & Hi). unfold lazy_init, bindM, gets. pose proof (iv_init _ _ _ _ _ Hi) as E. simpl in E. by rewrite E. }
  rewrite (bind_done _ _ _ _ _ Hlz) in H1'. rewrite (bind_done _ _ _ _ _ Hlz) in H2'. pose proof (block_reward_run now n s Hok Hsup) as Hbr. unfold wp in Hbr.
  unfold bindM at 1 in H1'. unfold bindM at 1 in H2'.
  match type of Hbr with match ?m with _ => _ end => destruct m as [R s3| |] end; [|done..]. subst R.
  change (reward_parts cfg (block_reward cfg now s) (reordered es st)) with (reward_parts cfg (block_reward cfg now s) st) in H2'.
  destruct (reward_parts cfg (block_reward cfg now s) st) as [[d v] b] eqn:Hparts.
  assert (0 <= TotalVotesWeight st) as Htv.
  { pose proof (zsum_nonneg (fun e => VoteWeight (snd e)) (ValidatorsStats st) (fun e He => proj1 (so_vote _ Hst e He))).
    pose proof (so_votes _ Hst). lia. }
  destruct (reward_parts_bounds cfg Hpct _ st d v b HR ltac:(pose proof (so_votes _ Hst); lia) (so_max _ Hst) Hparts) as (Hd & Hv & Hb & Hdvb).
  unfold bindM at 1 in H1'. unfold bindM at 1 in H2'. cbn [BlockAuthor reordered] in H2'.
  destruct (reward_author (BlockAuthor st) b s3) as [acc s4| |] eqn:Hau; [|done..].
  apply reward_author_words in Hau; [|unfold word; lia].
  unfold bindM at 1 in H1'. unfold bindM at 1 in H2'. cbn [ValidatorsStats reordered] in H2'.
  destruct (reward_validators d v st (ValidatorsStats st) acc s4) as [p1 s5| |] eqn:E1; [|done..].
  destruct (reward_validators d v (reordered es st) es acc s4) as [p2 s6| |] eqn:E2; [|done..].
  destruct (reward_validators_perm d v st _ es acc s4 p1 s5 p2 s6 Hp Hnd Hau
    ltac:(apply stats_words; [done|unfold word; lia..]) E1 E2) as [<- <-].
  congruence.
Qed.
End distribute.

(** ** At a state of the example *)
#[local] Existing Instance Ref.ops.
#[local] Existing Instance Ref.laws.

Definition ex_stats2 : RewardsStats :=
  mkRewardsStats validator1 [(validator1, mkValidatorStats 1 10 (Some 7)); (validator2, mkValidatorStats 2 5 None)] 3 15 15.

Lemma ex_stats2_ok : stats_ok ex_stats2.
Proof.
  assert (forall e, e ∈ ValidatorsStats ex_stats2 ->
    e = (validator1, mkValidatorStats 1 10 (Some 7)) \/ e = (validator2, mkValidatorStats 2 5 None)) as Htwo.
  { intros e He. apply elem_of_cons in He as [He|He]; [by left|]. apply list_elem_of_singleton in He. by right. }
  split; cbn; try lia.
  - intros e [->| ->]%Htwo; cbn; lia.
  - intros e [->| ->]%Htwo; cbn; lia.
  - intros e f [->| ->]%Htwo; cbn; [intros [= <-]; lia|done].
Qed.

Lemma distribute_order_witness :
  DistributeRewards ex_cfg 2 (reordered (reverse (ValidatorsStats ex_stats2)) ex_stats2) ex4
  = DistributeRewards ex_cfg 2 ex_stats2 ex4
  /\ completes (DistributeRewards ex_cfg 2 ex_stats2) ex4 = true.
Proof.
  split; [|by vm_compute].
  apply (distribute_order ex_cfg ex_percent_ok 2 62 ex4 ex_stats2 (reverse (ValidatorsStats ex_stats2)));
    [apply ex_ok, ex4_history|apply ex_stats2_ok|apply ex_supply_ok; by vm_compute|..].
  - split; [apply Z.leb_le|apply Z.ltb_lt]; by vm_compute.
  - apply (bool_decide_unpack (NoDup (fst <$> ValidatorsStats ex_stats2))). by vm_compute.
  - symmetry. apply reverse_Permutation.
Defined.
