(* ===== verification/DposViews.v ===== *)
(** * What the views show

    The read-only methods against the state they describe: a page of
    undelegations is a window of one enumeration of the stored ones, the
    total delegation is the sum of the delegations, the rewards shown are the
    ones a claim pays, and the gas of a batch pays for the items returned. *)
From S2P Require Import Prelude Bytes Crypto ChainConfig Uint256 Storage IterableMap DposStorage Validators Dpos DposRewards DposRun DposTyped DposInv DposSafe DposDistribute DposHistory DposExample.

Lemma map_each_run {St A B} (f : A -> M St B) (g : A -> B) l s :
  (forall x, x ∈ l -> f x s = Done (g x) s) -> map_each f l s = Done (g <$> l) s.
Proof.
  induction l as [|x l IH]; intros Hf; [done|]. cbn [map_each]. rewrite (bind_done _ _ _ _ _ (Hf x ltac:(left))).
  rewrite (bind_done _ _ _ _ _ (IH ltac:(intros y Hy; apply Hf; by right))). done.
Qed.

Lemma omap_id_Some {A B} (f : A -> B) (l : list A) : omap id ((fun x => Some (f x)) <$> l) = f <$> l.
Proof.
  induction l as [|x l IH]; [done|]. change (f x :: omap id ((fun x => Some (f x)) <$> l) = f x :: (f <$> l)). by rewrite IH.
Qed.

(** ** Lists read from the iterable maps *)
Section lists.
Context (s : CT) (L : imap_id -> list bytes) (HL : lists_ok (imap_part s) L).

Definition addresses (id : imap_id) : list Address := BytesToAddress <$> L id.
Definition ids (d v : Address) : list Z := (fun b => default 0 (BytesToUint64 b)) <$> L (ImUndelIds d v).

Lemma GetAccounts_run id batch count :
  0 <= batch -> 0 <= count < 2 ^ 31 -> batch * count < 2 ^ 32 -> Z.of_nat (length (L id)) < 2 ^ 31 ->
  GetAccounts (imap_of id) batch count s
  = Done (take (Z.to_nat count) (drop (Z.to_nat (batch * count)) (addresses id)),
          Z.of_nat (length (addresses id)) <=? batch * count + count) s.
Proof.
  intros Hb Hc Hbc Hl. assert (0 <= batch * count) by nia. unfold GetAccounts. rewrite u32_small by lia.
  rewrite (bind_done _ _ _ _ _ (get_items_run s L id (batch * count) count HL ltac:(lia) ltac:(lia) Hl)).
  unfold addresses. rewrite length_fmap. unfold ret. cbn [fst snd]. by rewrite fmap_take, fmap_drop.
Qed.

Lemma id_read b d v : b ∈ L (ImUndelIds d v) -> id_of_bytes b s = Done (default 0 (BytesToUint64 b)) s.
Proof.
  intros Hb. pose proof (rep_valid _ _ _ _ (HL (ImUndelIds d v)) _ Hb) as Hv. unfold valid_item in Hv.
  unfold id_of_bytes, BytesToUint64. destruct b as [|b0 [|b1 [|b2 [|b3 [|b4 [|b5 [|b6 [|b7 [|]]]]]]]]]; done.
Qed.

Lemma GetIdsFromIdx_run d v start count :
  0 <= start < 2 ^ 32 -> 0 <= count < 2 ^ 31 -> Z.of_nat (length (L (ImUndelIds d v))) < 2 ^ 31 ->
  GetIdsFromIdx (undelegations_v2_ids d v) start count s
  = Done (take (Z.to_nat count) (drop (Z.to_nat start) (ids d v)), Z.of_nat (length (ids d v)) <=? start + count) s.
Proof.
  intros Hs Hc Hl. unfold GetIdsFromIdx, undelegations_v2_ids.
  rewrite (bind_done _ _ _ _ _ (get_items_run s L _ start count HL Hs Hc Hl)). cbn [fst snd].
  rewrite (bind_done _ _ s (take (Z.to_nat count) (drop (Z.to_nat start) (ids d v))) s).
  - unfold ids. by rewrite length_fmap.
  - unfold ids. rewrite <- fmap_drop, <- fmap_take. apply map_each_run. intros b Hb. apply (id_read b d v).
    apply elem_of_take in Hb as (i & Hi & _). rewrite lookup_drop in Hi. by eapply list_elem_of_lookup_2.
Qed.
End lists.

Lemma addr_of_item id (b : bytes) : valid_item id b -> match id with ImUndelIds _ _ => False | _ => True end ->
  addr_bytes (BytesToAddress b) = b.
Proof.
  intros Hv Hid. rewrite addr_bytes_BytesToAddress. unfold pad_left. unfold valid_item in Hv.
  assert (length b = 20%nat) as E by (destruct id; done). by rewrite E, decide_False by lia.
Qed.

(** The addresses listed are those whose bytes are. *)
Lemma elem_addresses s L id a :
  lists_ok (imap_part s) L -> match id with ImUndelIds _ _ => False | _ => True end ->
  a ∈ addresses L id <-> addr_bytes a ∈ L id.
Proof.
  intros HL Hid. unfold addresses. rewrite list_elem_of_fmap. split.
  - intros (b & -> & Hb). by rewrite (addr_of_item id b (rep_valid _ _ _ _ (HL id) _ Hb) Hid).
  - intros Ha. exists (addr_bytes a). by rewrite BytesToAddress_bytes.
Qed.

Lemma NoDup_addresses s L id :
  lists_ok (imap_part s) L -> match id with ImUndelIds _ _ => False | _ => True end -> NoDup (addresses L id).
Proof.
  intros HL Hid. unfold addresses. apply NoDup_fmap_2_strong; [|apply (rep_nodup _ _ _ _ (HL id))].
  intros x y Hx Hy E. apply (f_equal addr_bytes) in E.
  rewrite !(addr_of_item id) in E by (try done; by eapply rep_valid). done.
Qed.

(** ** Undelegations *)
Section undelegations.
Context (s : CT) (L : imap_id -> list bytes) (n : Z) (Hidx : idx_inv n (c_storage s) L) (Hn : n < 2 ^ 31) (d : Address).
Let HL : lists_ok (imap_part s) L := ix_lists _ _ _ _ _ _ _ _ _ _ Hidx.

(** All undelegations of the validators [vs], in the order of the maps. *)
Definition keys_of (vs : list Address) : list (Address * Z) := vs ≫= fun v => (fun i => (v, i)) <$> ids L d v.

(** How an undelegation is shown. *)
Definition shown (k : Address * Z) : UndelegationV2Data :=
  let u := default (mkUndelegationV2 (mkUndelegationV1 0 0) 0) (ts_undel2 (c_storage s) !! (d, k.1, k.2)) in
  mkUndelegationV2Data
    (mkUndelegationData (u_Amount u) (u_Block u) k.1 (bool_decide (is_Some (ts_validator (c_storage s) !! k.1)))) (u_Id u).

Lemma id_stored v i : i ∈ ids L d v <-> 0 <= i < 2 ^ 64 /\ is_Some (ts_undel2 (c_storage s) !! (d, v, i)).
Proof.
  unfold ids. rewrite list_elem_of_fmap. split.
  - intros (b & -> & Hb). apply (ix_ids _ _ _ _ _ _ _ _ _ _ Hidx) in Hb as (j & Hj & -> & Hu).
    rewrite BytesToUint64_Uint64ToBytes. simpl. by rewrite u64_small.
  - intros [Hi Hu]. exists (Uint64ToBytes i). rewrite BytesToUint64_Uint64ToBytes. simpl. rewrite u64_small by done.
    split; [done|]. apply (ix_ids _ _ _ _ _ _ _ _ _ _ Hidx). by exists i.
Qed.

Lemma NoDup_ids v : NoDup (ids L d v).
Proof.
  unfold ids. apply NoDup_fmap_2_strong; [|apply (rep_nodup _ _ _ _ (HL (ImUndelIds d v)))].
  intros x y (i & Hi & -> & _)%(ix_ids _ _ _ _ _ _ _ _ _ _ Hidx) (j & Hj & -> & _)%(ix_ids _ _ _ _ _ _ _ _ _ _ Hidx).
  rewrite !BytesToUint64_Uint64ToBytes. simpl. rewrite !u64_small by done. by intros ->.
Qed.

Lemma getUndelegationV2_run v i :
  i ∈ ids L d v -> getUndelegationV2 d v i s = Done (Some (shown (v, i))) s.
Proof.
  intros [_ [u Hu]]%id_stored. unfold getUndelegationV2, GetUndelegationV2.
  rewrite (bind_done _ _ s (Some u) s).
  2: { by rewrite <- Hu; destruct s as [[] ? ? ? ? ? ? ? ? ? ?]. }
  assert (rel n s (abs s)) as Hrel by (split; [by exists L|done]).
  rewrite (bind_done _ _ _ _ _ (ValidatorExists_run n s (abs s) v Hrel)). unfold shown. cbn [fst snd]. rewrite Hu. unfold ret. simpl.
  do 4 f_equal. apply bool_decide_ext. by rewrite lookup_fmap, fmap_is_Some.
Qed.

Abbreviation vals := (addresses L (ImUndelV2 d)).

Lemma length_list id : Z.of_nat (length (L id)) < 2 ^ 31.
Proof. pose proof (ix_len _ _ _ _ _ _ _ _ _ _ Hidx id). lia. Qed.

Lemma validator_at idx :
  (idx <= length vals)%nat ->
  GetUndelegationsV2Validator d (Z.of_nat idx) s
  = Done (head (drop idx vals), Z.of_nat (length vals) <=? Z.of_nat idx + 1) s.
Proof.
  intros Hi. unfold GetUndelegationsV2Validator, undelegations_v2_validators. pose proof (length_list (ImUndelV2 d)).
  assert (length vals = length (L (ImUndelV2 d))) as E by apply length_fmap.
  rewrite (bind_done _ _ _ _ _ (GetAccounts_run s L HL (ImUndelV2 d) (Z.of_nat idx) 1 ltac:(lia) ltac:(lia) ltac:(lia) (length_list _))).
  rewrite Z.mul_1_r, Nat2Z.id. unfold ret. cbn [fst snd]. do 2 f_equal. by destruct (drop idx vals).
Qed.

Lemma ids_nonempty v : v ∈ vals -> ids L d v <> [].
Proof.
  intros Hv%(elem_addresses s); [|exact HL|done]. apply (ix_u2 _ _ _ _ _ _ _ _ _ _ Hidx) in Hv.
  unfold ids. by destruct (L (ImUndelIds d v)).
Qed.

Lemma keys_of_nil vs : (forall v, v ∈ vs -> v ∈ vals) -> keys_of vs = [] <-> vs = [].
Proof.
  intros Hv. split; [|by intros ->]. destruct vs as [|v vs]; [done|]. simpl. intros [E _]%app_nil.
  apply fmap_nil_inv in E. destruct (ids_nonempty v); [apply Hv; left|done].
Qed.

Lemma keys_of_cons v vs : keys_of (v :: vs) = ((fun i => (v, i)) <$> ids L d v) ++ keys_of vs.
Proof. done. Qed.

(** The loop of [getUndelegationsV2], from the validator at [idx] on, with
    [k] undelegations to skip. *)
Lemma undelegations_loop fuel idx k (us : list UndelegationV2Data) :
  (length vals < idx + fuel)%nat -> (idx <= length vals)%nat -> Z.of_nat k < 2 ^ 32 -> (length us < 20)%nat ->
  let rest := keys_of (drop idx vals) in
  getUndelegationsV2_loop fuel d (Z.of_nat idx) (Z.of_nat k) us s
  = Done (us ++ (shown <$> take (20 - length us) (drop k rest)), bool_decide (drop (k + (20 - length us)) rest = [])) s.
Proof.
  revert idx k us. induction fuel as [|fuel IH]; intros idx k us Hfuel Hidxl Hk Hus rest; [lia|].
  cbn [getUndelegationsV2_loop]. rewrite (bind_done _ _ _ _ _ (validator_at idx Hidxl)).
  destruct (drop idx vals) as [|v vs] eqn:Hd; cbn [head].
  { unfold rest, ret. cbn [keys_of mbind list_bind]. by rewrite !drop_nil, take_nil, app_nil_r. }
  assert (vals !! idx = Some v) as Hv.
  { pose proof (lookup_drop vals idx 0) as E. rewrite Hd, Nat.add_0_r in E. done. }
  pose proof (lookup_lt_Some _ _ _ Hv) as Hlt.
  assert (drop (S idx) vals = vs) as Hd'.
  { rewrite (drop_S _ v) in Hd by done. by injection Hd. }
  assert (u32 (Z.of_nat idx + 1) = Z.of_nat (S idx)) as ->.
  { assert (length vals = length (L (ImUndelV2 d))) by apply length_fmap. pose proof (length_list (ImUndelV2 d)).
    rewrite u32_small by lia. lia. }
  assert (length (ids L d v) = length (L (ImUndelIds d v))) as Elen by apply length_fmap.
  pose proof (length_list (ImUndelIds d v)) as Hlids.
  rewrite (bind_done _ _ _ _ _ (get_count_run s L (ImUndelIds d v) HL)). rewrite <- Elen.
  destruct (Z.leb_spec (Z.of_nat (length (ids L d v))) (Z.of_nat k)) as [Hle|Hgt].
  - assert (u32 (Z.of_nat k - Z.of_nat (length (ids L d v))) = Z.of_nat (k - length (ids L d v))) as ->.
    { rewrite u32_small by lia. lia. }
    rewrite IH by lia. rewrite Hd'. unfold rest. rewrite keys_of_cons.
    rewrite !drop_app_ge by (rewrite length_fmap; lia). rewrite length_fmap.
    by replace (k + (20 - length us) - length (ids L d v))%nat with (k - length (ids L d v) + (20 - length us))%nat by lia.
  - rewrite (bind_done _ _ _ _ _ (GetIdsFromIdx_run s L HL d v (Z.of_nat k) (u32 (GetUndelegationsMaxCount - Z.of_nat (length us)))
      ltac:(lia) ltac:(unfold GetUndelegationsMaxCount; rewrite u32_small by lia; lia) Hlids)).
    rewrite u32_small by (unfold GetUndelegationsMaxCount; lia). unfold GetUndelegationsMaxCount.
    replace (Z.to_nat (20 - Z.of_nat (length us))) with (20 - length us)%nat by lia. rewrite Nat2Z.id.
    set (page := take (20 - length us) (drop k (ids L d v))).
    rewrite (bind_done _ _ s ((fun i => Some (shown (v, i))) <$> page) s).
    2: { apply map_each_run. intros i Hi. apply getUndelegationV2_run. unfold page in Hi.
         apply elem_of_take in Hi as (j & Hj & _). rewrite lookup_drop in Hj. by eapply list_elem_of_lookup_2. }
    assert (omap id ((fun i => Some (shown (v, i))) <$> page) = shown <$> ((fun i => (v, i)) <$> page)) as ->.
    { rewrite <- list_fmap_compose. apply (omap_id_Some (fun i => shown (v, i))). }
    assert (length page = Nat.min (20 - length us) (length (ids L d v) - k)) as Hpl.
    { unfold page. by rewrite length_take, length_drop. }
    cbv zeta. rewrite length_app, !length_fmap. unfold rest. rewrite keys_of_cons.
    destruct (Z.eqb_spec (Z.of_nat (length us + length page)) 20) as [Hfull|Hpart].
    + unfold ret. f_equal. f_equal.
      * rewrite drop_app_le, take_app_le by (rewrite ?length_drop, ?length_fmap; lia).
        unfold page. by rewrite fmap_take, fmap_drop.
      * rewrite drop_app_le by (rewrite length_fmap; lia).
        assert (bool_decide (drop (k + (20 - length us)) ((fun i => (v, i)) <$> ids L d v) ++ keys_of vs = [])
          = bool_decide (length (ids L d v) <= k + (20 - length us) /\ vs = [])%nat) as ->.
        { apply bool_decide_ext. rewrite app_nil, keys_of_nil.
          - split; intros [H1 H2]; (split; [|done]).
            + apply (f_equal length) in H1. rewrite length_drop, length_fmap in H1. simpl in H1. lia.
            + apply drop_ge. rewrite length_fmap. lia.
          - intros w Hw. rewrite <- Hd' in Hw. apply list_elem_of_lookup in Hw as [j Hj]. rewrite lookup_drop in Hj.
            by eapply list_elem_of_lookup_2. }
        assert (vs = [] <-> (length vals <= S idx)%nat) as Hvs.
        { rewrite <- Hd'. split; intros E; [|by apply drop_ge]. apply (f_equal length) in E. rewrite length_drop in E. simpl in E. lia. }
        destruct (Z.leb_spec (Z.of_nat (length vals)) (Z.of_nat idx + 1)),
          (Z.leb_spec (Z.of_nat (length (ids L d v))) (Z.of_nat k + (20 - Z.of_nat (length us)))); simpl; symmetry;
          [apply bool_decide_true|apply bool_decide_false..]; rewrite Hvs; lia.
    + change 0 with (Z.of_nat 0). rewrite IH by (rewrite ?length_app, ?length_fmap; lia).
      rewrite Hd', length_app, !length_fmap, drop_0, <- app_assoc. f_equal. f_equal.
      * f_equal. rewrite drop_app_le by (rewrite length_fmap; lia).
        rewrite take_app_ge, fmap_app by (rewrite length_drop, length_fmap; lia). f_equal.
        -- unfold page. rewrite take_ge by (rewrite length_drop; lia). by rewrite fmap_drop.
        -- do 2 f_equal. rewrite length_drop, length_fmap. lia.
      * apply bool_decide_ext. rewrite drop_app_ge by (rewrite length_fmap; lia). rewrite length_fmap.
        rewrite Nat.add_0_l. replace (k + (20 - length us) - length (ids L d v))%nat with (20 - (length us + length page))%nat by lia. done.
Qed.
End undelegations.

Lemma elem_keys_of L d v i vs : (v, i) ∈ keys_of L d vs <-> v ∈ vs /\ i ∈ ids L d v.
Proof.
  unfold keys_of. rewrite list_elem_of_bind. split.
  - intros (w & Hi & Hw). apply list_elem_of_fmap in Hi as (j & [= <- <-] & Hj). done.
  - intros [Hv Hi]. exists v. split; [|done]. apply list_elem_of_fmap. by exists i.
Qed.

Lemma NoDup_keys_of L d vs : NoDup vs -> (forall v, NoDup (ids L d v)) -> NoDup (keys_of L d vs).
Proof.
  intros Hvs Hids. induction Hvs as [|v vs Hv Hvs IH]; [apply NoDup_nil_2|]. rewrite keys_of_cons. apply NoDup_app. split_and!.
  - apply NoDup_fmap_2; [|apply Hids]. by intros i j [= ->].
  - intros [w i] Hw Hw'. apply list_elem_of_fmap in Hw as (j & [= -> ->] & _). by apply elem_keys_of in Hw' as [? _].
  - exact IH.
Qed.

(** The sum of a map over a list that holds every key that counts. *)
Lemma msum_list `{Countable K} {V} (f : K -> V -> Z) (m : gmap K V) (l : list K) :
  NoDup l -> (forall k v, m !! k = Some v -> k ∉ l -> f k v = 0) ->
  msum f m = zsum (fun k => from_option (f k) 0 (m !! k)) l.
Proof.
  intros Hl. revert m. induction Hl as [|k l Hk Hl IH]; intros m Hf.
  - rewrite (msum_ext f (fun _ _ => 0)); [apply msum_zero|]. intros k v Hv. apply Hf; [done|by intros ?%elem_of_nil].
  - rewrite (msum_delete f m k), (IH (delete k m)).
    + cbn [zsum foldr]. f_equal. clear IH Hf Hl. revert Hk. induction l as [|k' l IH]; intros Hk; [done|].
      cbn [zsum foldr]. apply not_elem_of_cons in Hk as [Hne Hk].
      rewrite lookup_delete_ne by done. f_equal. by apply IH.
    + intros k' v [Hne Hv]%lookup_delete_Some Hn. apply Hf; [done|]. apply not_elem_of_cons. by split.
Qed.

Section views.
Context `{Uint256Laws} (cfg : ChainConfig) (Hcfg : cfg_ok cfg).

(** C24: [getUndelegationsV2].  There is one enumeration, without duplicates,
    of exactly the pending undelegations of a delegator such that every page
    shows the corresponding window of it and the end flag tells whether any
    are left; the loop ends within as many rounds as there are validators. *)
Theorem undelegations_pages now n s d :
  ok cfg now n 0 s -> n < 2 ^ 31 ->
  exists keys : list (Address * Z), NoDup keys
    /\ (forall v i, (v, i) ∈ keys <-> 0 <= i < 2 ^ 64 /\ is_Some (ts_undel2 (c_storage s) !! (d, v, i)))
    /\ forall batch fuel, 0 <= batch -> batch * 20 + 20 < 2 ^ 32 -> n < Z.of_nat fuel ->
         getUndelegationsV2 fuel d batch s
         = Done (shown s d <$> take 20 (drop (Z.to_nat (batch * 20)) keys),
                 bool_decide (drop (Z.to_nat (batch * 20) + 20) keys = [])) s.
Proof.
  intros (A & [[L HL] _] & _) Hn. exists (keys_of L d (addresses L (ImUndelV2 d))). split_and!.
  - apply NoDup_keys_of; [apply (NoDup_addresses s); [apply HL|done]|]. intros v. by eapply NoDup_ids.
  - intros v i. rewrite elem_keys_of, <- (id_stored s L n HL d v i). split; [by intros [_ ?]|].
    intros Hi. split; [|done]. apply (elem_addresses s); [apply HL|done|]. apply (ix_u2 _ _ _ _ _ _ _ _ _ _ HL).
    unfold ids in Hi. destruct (L (ImUndelIds d v)); [by apply elem_of_nil in Hi|done].
  - intros batch fuel Hb Hb2 Hf. unfold getUndelegationsV2, GetUndelegationsMaxCount.
    rewrite u32_small by lia. replace (batch * 20) with (Z.of_nat (Z.to_nat (batch * 20))) at 1 by lia. change 0 with (Z.of_nat 0).
    assert (length (addresses L (ImUndelV2 d)) = length (L (ImUndelV2 d))) as E by apply length_fmap.
    pose proof (ix_len _ _ _ _ _ _ _ _ _ _ HL (ImUndelV2 d)) as Hlen.
    rewrite (undelegations_loop s L n HL Hn d) by (simpl; lia). by rewrite drop_0.
Qed.

Lemma sum_delegations_run n s d l t :
  rel n s (abs s) -> (forall v, v ∈ l -> is_Some (ts_delegation (c_storage s) !! (v, d))) ->
  sum_delegations d l t s
  = Done (t + zsum (fun v => from_option d_Stake 0 (ts_delegation (c_storage s) !! (v, d))) l) s.
Proof.
  intros Hs. revert t. induction l as [|v l IH]; intros t Hl; cbn [sum_delegations zsum foldr]; [by rewrite Z.add_0_r|].
  rewrite (bind_done _ _ s (ts_delegation (c_storage s) !! (v, d)) s) by by destruct s as [[] ? ? ? ? ? ? ? ? ? ?].
  destruct (Hl v ltac:(left)) as [y ->]. simpl. rewrite IH by (intros w Hw; apply Hl; by right).
  f_equal. unfold zsum. lia.
Qed.

(** [getTotalDelegation] is the sum of everything the delegator has
    staked, with any validator. *)
Theorem total_delegation_sum now n s d :
  ok cfg now n 0 s -> n < 2 ^ 31 ->
  getTotalDelegation d s
  = Done (msum (fun k y => if decide (k.2 = d) then d_Stake y else 0) (ts_delegation (c_storage s))) s.
Proof.
  intros (A & [[L HL] <-] & _) Hn. unfold getTotalDelegation.
  pose proof (ix_lists _ _ _ _ _ _ _ _ _ _ HL) as HLs. pose proof (ix_len _ _ _ _ _ _ _ _ _ _ HL (ImDelegator d)) as Hlen.
  rewrite (bind_done _ _ _ _ _ (get_count_run s L (ImDelegator d) HLs)).
  assert (length (addresses L (ImDelegator d)) = length (L (ImDelegator d))) as E by apply length_fmap.
  rewrite (bind_done _ _ _ _ _ (GetAccounts_run s L HLs (ImDelegator d) 0 (Z.of_nat (length (L (ImDelegator d))))
    ltac:(lia) ltac:(lia) ltac:(lia) ltac:(lia))).
  rewrite Z.mul_0_l, drop_0, take_ge by lia.
  assert (forall v, v ∈ addresses L (ImDelegator d) <-> is_Some (ts_delegation (c_storage s) !! (v, d))) as Hin.
  { intros v. rewrite (elem_addresses s) by done. apply (ix_del _ _ _ _ _ _ _ _ _ _ HL). }
  rewrite (sum_delegations_run n) by (try (split; [by exists L|done]); intros; by apply Hin).
  f_equal. rewrite Z.add_0_l.
  rewrite (msum_list _ _ ((fun v => (v, d)) <$> addresses L (ImDelegator d))).
  - clear. induction (addresses L (ImDelegator d)) as [|v l IH]; [done|]. cbn [fmap list_fmap zsum foldr]. f_equal; [|exact IH].
    destruct (ts_delegation (c_storage s) !! (v, d)); simpl; [by rewrite decide_True|done].
  - apply NoDup_fmap_2; [by intros v w [= ->]|]. by apply (NoDup_addresses s).
  - intros [v e] y Hy Hn'. case_decide as Hd; [|done]. simpl in Hd. subst e. destruct Hn'. apply list_elem_of_fmap.
    exists v. split; [done|]. apply Hin. by eexists.
Qed.

(** ** Delegations with their rewards *)
Lemma delegated_positive now n s v d (y : Delegation) :
  inv cfg now n 0 (abs s) -> ts_delegation (c_storage s) !! (v, d) = Some y ->
  exists x : Validator, a_val (abs s) !! v = Some x /\ 0 < d_Stake y /\ 0 < TotalStake x.
Proof.
  intros Hi Hy. destruct (iv_del _ _ _ _ _ Hi v d y Hy) as [Hpos [x Hx]]. exists x. split; [done|]. split; [done|].
  rewrite (iv_stake _ _ _ _ _ Hi _ _ Hx). assert (d_Stake y <= stake_of (a_del (abs s)) v); [|lia].
  pose proof (msum_lookup_le (fun k z => if decide (k.1 = v) then d_Stake z else 0) (a_del (abs s)) (v, d) y) as Hle.
  simpl in Hle. rewrite decide_True in Hle by done. apply Hle; [|done].
  intros [v' d'] z Hz. case_decide; [|done]. pose proof (iv_del _ _ _ _ _ Hi _ _ _ Hz). lia.
Qed.

(** In a later block the validator has no state yet. *)
Lemma no_state_later now n s v later : inv cfg now n 0 (abs s) -> now < later -> a_st (abs s) !! (v, later) = None.
Proof.
  intros Hi Hlt. destruct (a_st (abs s) !! (v, later)) eqn:E; [|done]. destruct (iv_st _ _ _ _ _ Hi _ _ _ E) as (_ & _ & ? & _). lia.
Qed.

(** The row of a delegation: its stake, and what a claim in any later block
    would pay. *)
Lemma delegation_data_run now n s d v (y : Delegation) later :
  ok cfg now n 0 s -> ts_delegation (c_storage s) !! (v, d) = Some y -> now < later ->
  delegation_data cfg d v s = Done (mkDelegationData v (d_Stake y) (pending cfg (abs s) later v d)) s.
Proof.
  intros (A & Hs & Hi) Hy Hlt. destruct Hs as [HL <-]. assert (rel n s (abs s)) as Hs by by split.
  pose proof (no_state_later now n s v later Hi Hlt) as Hnone.
  destruct (delegated_positive now n s v d y Hi Hy) as (x & Hx & Hpos & HT). destruct (rew_of cfg _ _ _ _ _ _ Hi Hx) as [r Hr].
  destruct (settle_old_state cfg now n 0 _ Hi v x Hx) as (st & Hst & _).
  destruct (iv_refs _ _ _ _ _ Hi v (d_LastUpdated y)) as (st0 & Hst0 & _).
  { pose proof (drefs_pos _ _ _ _ Hy). pose proof (drefs_le_refs (abs s) v (d_LastUpdated y)). simpl in *. lia. }
  assert (wp (delegation_data cfg d v) (fun p s' => p = mkDelegationData v (d_Stake y) (pending cfg (abs s) later v d) /\ s' = s)
    (fun _ _ => False) s) as Hw.
  { unfold delegation_data. eapply wp_GetDelegation; [exact Hs|]. eapply wp_GetValidator; [exact Hs|].
    change (a_del (abs s) !! (v, d)) with (ts_delegation (c_storage s) !! (v, d)). rewrite Hy, Hx.
    eapply wp_GetValidatorRewards; [exact Hs|]. eapply wp_state_get; [exact Hs|]. eapply wp_state_get; [exact Hs|].
    rewrite Hst, Hst0, Hr. rewrite (proj2 (Z.ltb_lt 0 _)) by done. apply wp_assoc. apply wp_deref.
    unfold calculateRewardPer1Stake, calculateDelegatorReward. apply wp_assoc. apply wp_big_div; [done|]. apply wp_bind_ret.
    apply wp_big_div; [apply Hcfg|]. apply wp_ret. split; [|done]. f_equal. unfold pending.
    change (a_del (abs s) !! (v, d)) with (ts_delegation (c_storage s) !! (v, d)). rewrite Hy, Hx, Hr.
    unfold current_rps, new_rps. rewrite Hnone.
    rewrite (proj2 (Z.ltb_lt 0 _)) by done. unfold rps. by rewrite Hst, Hst0. }
  unfold wp in Hw. destruct (delegation_data cfg d v s) as [p s'| |]; [|done..]. by destruct Hw as [-> ->].
Qed.

(** What a claim pays in this block and in a later one. *)
Lemma pending_later now n s d v later :
  ok cfg now n 0 s -> now < later ->
  pending cfg (abs s) now v d <= pending cfg (abs s) later v d
  /\ (ts_state (c_storage s) !! (v, now) = None -> pending cfg (abs s) now v d = pending cfg (abs s) later v d).
Proof.
  intros (A & [_ <-] & Hi) Hlt. unfold pending. destruct (a_del (abs s) !! (v, d)) as [y|] eqn:Hy; [|done].
  destruct (a_val (abs s) !! v) as [x|] eqn:Hx; [|done]. destruct (a_rew (abs s) !! v) as [r|] eqn:Hr; [|done].
  unfold current_rps. rewrite (no_state_later now n s v later Hi Hlt). change (ts_state (c_storage s) !! (v, now)) with (a_st (abs s) !! (v, now)).
  destruct (a_st (abs s) !! (v, now)) as [st|] eqn:Hst; [|done]. split; [|done].
  destruct (fetched_existing cfg now n 0 (abs s) v x r st Hi Hx Hr Hst) as (_ & Hlu & _).
  pose proof (cf_max _ Hcfg). pose proof (iv_pools _ _ _ _ _ Hi _ _ Hr) as [Hp _].
  destruct (delegated_positive now n s v d y Hi Hy) as (x' & Hx' & Hpos & HT). simplify_eq.
  apply Z.div_le_mono; [lia|]. apply Z.mul_le_mono_nonneg_r; [lia|].
  unfold new_rps, rps. rewrite Hst. simpl. rewrite (proj2 (Z.ltb_lt 0 _)) by done.
  assert (0 <= RewardsPool r * ValidatorMaximumStake (DPOS cfg) / TotalStake x); [|lia]. apply Z.div_pos; [nia|lia].
Qed.

(** C23: [getDelegations].  There is one enumeration, without duplicates, of
    exactly the validators a delegator has delegated to, such that every page
    returns without an error and shows the corresponding window of it, with
    a flag for the last one.  A row shows the stake and exactly the rewards
    that a claim pays in any later block, if nothing happens in between: the
    pool of the validator is counted in.  That is at least what a claim in
    this block would pay, and the same unless the validator already has a
    state of this block: then the pool that was filled since is shown but not
    claimed until the next block. *)
Theorem shown_rewards_pending now n s d later :
  ok cfg now n 0 s -> n < 2 ^ 31 -> now < later ->
  let row v := mkDelegationData v (from_option d_Stake 0 (ts_delegation (c_storage s) !! (v, d))) (pending cfg (abs s) later v d) in
  exists keys : list Address, NoDup keys
    /\ (forall v, v ∈ keys <-> is_Some (ts_delegation (c_storage s) !! (v, d)))
    /\ (forall batch, 0 <= batch -> batch * 20 < 2 ^ 32 ->
          getDelegations cfg d batch s
          = Done (row <$> take 20 (drop (Z.to_nat (batch * 20)) keys), Z.of_nat (length keys) <=? batch * 20 + 20) s)
    /\ forall v, pending cfg (abs s) now v d <= pending cfg (abs s) later v d
         /\ (ts_state (c_storage s) !! (v, now) = None -> pending cfg (abs s) now v d = pending cfg (abs s) later v d).
Proof.
  intros Hok Hn Hlt row. pose proof Hok as (A & [[L HL] <-] & Hi). exists (addresses L (ImDelegator d)).
  pose proof (ix_lists _ _ _ _ _ _ _ _ _ _ HL) as HLs. pose proof (ix_len _ _ _ _ _ _ _ _ _ _ HL (ImDelegator d)) as Hlen.
  assert (forall v, v ∈ addresses L (ImDelegator d) <-> is_Some (ts_delegation (c_storage s) !! (v, d))) as Hin.
  { intros v. rewrite (elem_addresses s) by done. apply (ix_del _ _ _ _ _ _ _ _ _ _ HL). }
  split_and!; [by apply (NoDup_addresses s)|exact Hin| |intros v; by eapply pending_later].
  intros batch Hb Hb2. unfold getDelegations, GetDelegationsMaxCount.
  rewrite (bind_done _ _ _ _ _ (GetAccounts_run s L HLs (ImDelegator d) batch 20 Hb ltac:(lia) Hb2 ltac:(lia))).
  set (page := take _ _). rewrite (bind_done _ _ s (row <$> page) s); [done|].
  apply map_each_run. intros v Hv. destruct (proj1 (Hin v)) as [y Hy].
  { apply elem_of_take in Hv as (j & Hj & _). rewrite lookup_drop in Hj. by eapply list_elem_of_lookup_2. }
  unfold row. rewrite Hy. by eapply delegation_data_run.
Qed.

(** the gas of a paged method.  The item count [RequiredGas] charges for
    is the number of items the page holds, and one for an empty page, as long
    as the batch number does not overflow the 32 bits the page is read with. *)
Theorem batch_gas_exact now n s id batch max :
  ok cfg now n 0 s -> n < 2 ^ 31 -> 0 <= batch -> 0 < max < 2 ^ 31 -> batch * max < 2 ^ 32 ->
  exists count l e, GetCount (imap_of id) s = Done count s
    /\ GetAccounts (imap_of id) batch max s = Done (l, e) s
    /\ batch_items_count count batch max = Z.max 1 (Z.of_nat (length l)).
Proof.
  intros (A & [[L HL] _] & _) Hn Hb Hm Hbm. pose proof (ix_lists _ _ _ _ _ _ _ _ _ _ HL) as HLs.
  pose proof (ix_len _ _ _ _ _ _ _ _ _ _ HL id) as Hlen. assert (0 <= batch * max) by nia.
  do 3 eexists. split; [by apply (get_count_run s L)|]. split; [apply (GetAccounts_run s L HLs); lia|].
  assert (length (addresses L id) = length (L id)) as E by apply length_fmap.
  rewrite length_take, length_drop, E. unfold batch_items_count. rewrite (u64_small (batch * max)) by lia.
  destruct (Z.eqb_spec (Z.of_nat (length (L id))) 0) as [Hz|Hz]; [lia|].
  destruct (Z.leb_spec (Z.of_nat (length (L id))) (batch * max)) as [Hle|Hgt]; [lia|].
  rewrite u64_small by lia. destruct (Z.ltb_spec max (Z.of_nat (length (L id)) - batch * max)); lia.
Qed.
End views.

(** ** At the states of the example *)
#[local] Existing Instance Ref.ops.
#[local] Existing Instance Ref.laws.

Lemma undelegations_pages_witness :
  exists keys : list (Address * Z), NoDup keys
    /\ (forall v i, (v, i) ∈ keys <-> 0 <= i < 2 ^ 64 /\ is_Some (ts_undel2 (c_storage ex7) !! (delegator2, v, i)))
    /\ forall batch fuel, 0 <= batch -> batch * 20 + 20 < 2 ^ 32 -> 84 < Z.of_nat fuel ->
         getUndelegationsV2 fuel delegator2 batch ex7
         = Done (shown ex7 delegator2 <$> take 20 (drop (Z.to_nat (batch * 20)) keys),
                 bool_decide (drop (Z.to_nat (batch * 20) + 20) keys = [])) ex7.
Proof. apply (undelegations_pages ex_cfg 5 84 ex7 delegator2); [apply ex_ok, ex7_history|done]. Defined.

Lemma total_delegation_sum_witness :
  getTotalDelegation delegator2 ex7
  = Done (msum (fun k y => if decide (k.2 = delegator2) then d_Stake y else 0) (ts_delegation (c_storage ex7))) ex7
  /\ msum (fun k y => if decide (k.2 = delegator2) then d_Stake y else 0) (ts_delegation (c_storage ex7)) = 200.
Proof.
  split; [|by vm_compute]. apply (total_delegation_sum ex_cfg 5 84 ex7 delegator2); [apply ex_ok, ex7_history|done].
Defined.

Lemma shown_rewards_pending_witness : exists keys : list Address,
  (validator1 ∈ keys)
  /\ getDelegations ex_cfg delegator2 0 ex6
     = Done ((fun v => mkDelegationData v (from_option d_Stake 0 (ts_delegation (c_storage ex6) !! (v, delegator2))) (pending ex_cfg (abs ex6) 6 v delegator2))
               <$> take 20 (drop (Z.to_nat (0 * 20)) keys), Z.of_nat (length keys) <=? 0 * 20 + 20) ex6
  /\ pending ex_cfg (abs ex6) 6 validator1 delegator2 = 61 /\ pending ex_cfg (abs ex6) 5 validator1 delegator2 = 61.
Proof.
  destruct (shown_rewards_pending ex_cfg ex_cfg_ok 5 62 ex6 delegator2 6) as (keys & _ & Hin & Hrun & _);
    [apply ex_ok, ex6_history|done|done|].
  exists keys. split; [|split; [by apply Hrun|split; by vm_compute]].
  apply Hin. assert (bool_decide (is_Some (ts_delegation (c_storage ex6) !! (validator1, delegator2))) = true) as E by by vm_compute.
  by apply bool_decide_eq_true_1 in E.
Defined.

(** A validator that has a state of this block, and whose pool was filled
    after: what is shown is more than a claim in this block pays. *)
Definition touched_and_rewarded : M CT Z :=
  _ ← send 2 delegator2 300 (InCall M_delegate (inr validator1));
  DistributeRewards ex_cfg 2 ex_stats.

Example shown_before_claimable :
  let s := after touched_and_rewarded ex4 in
  (pending ex_cfg (abs s) 2 validator1 delegator2 <? pending ex_cfg (abs s) 3 validator1 delegator2) = true.
Proof. by vm_compute. Qed.

Lemma batch_gas_exact_witness :
  exists count l e, GetCount (imap_of (ImDelegator delegator2)) ex7 = Done count ex7
    /\ GetAccounts (imap_of (ImDelegator delegator2)) 0 20 ex7 = Done (l, e) ex7
    /\ batch_items_count count 0 20 = Z.max 1 (Z.of_nat (length l)).
Proof. apply (batch_gas_exact ex_cfg 5 84 ex7 (ImDelegator delegator2) 0 20); [apply ex_ok, ex7_history|done..]. Defined.
