(* ===== verification/DposFindings.v ===== *)
(** * Runs that go wrong

    Concrete runs of the model on the example chain in which the contract
    does not do what it means to: the behaviours the hypotheses of the
    properties exclude.  Each is evaluated. *)
From S2P Require Import Prelude Bytes Crypto ChainConfig Uint256 Storage IterableMap DposStorage Validators Dpos DposRewards DposRun EvmCall DposTyped DposInv DposSafe DposDistribute DposCalls DposHistory DposExample.
#[local] Existing Instance Ref.ops.
#[local] Existing Instance Ref.laws.
#[local] Existing Instance toy_crypto.

(** A test of the state a computation leaves; false if it fails or panics. *)
Definition leaves {A} (m : M CT A) (s : CT) (f : A -> CT -> bool) : bool :=
  match m s with Done a s' => f a s' | _ => false end.

Lemma leaves_done {A} (m : M CT A) s f : leaves m s f = true -> exists a, m s = Done a (after m s) /\ f a (after m s) = true.
Proof. unfold leaves, after. destruct (m s); [by eexists|done..]. Qed.

Definition panics {A} (m : M CT A) (s : CT) : bool := match m s with Panic _ => true | _ => false end.

Definition succeeded (p : Z * (string + option Result)) : bool := match snd p with inr _ => true | inl _ => false end.

(** A contract account running at depth 1 calls the DPOS contract. *)
Definition contract_calls (typ : OpCode) (now : Z) (a : Address) (value : Z) (i : Input) : M CT (Z * (string + option Result)) :=
  call no_code typ 1 (RunningContract (mkCallFrame owner1 a 0)) dpos_contract_address
    (Some (dpos_precompiled ex_cfg 100 now 1 (ex_delayed now) i)) true false 1000000 value.

Definition stakes (s : CT) : Z := total_stake (ts_delegation (c_storage s)).

(** Stake without payment.  A contract that reaches [delegate] with
    [CALLCODE] is credited the call's value as stake although nothing is
    transferred to the DPOS contract: from a solvent state of a history one
    successful call leads to a state in which the stakes exceed the balance. *)
Theorem callcode_unpaid_stake :
  exists p, contract_calls CALLCODE 2 delegator2 500 (InCall M_delegate (inr validator1)) ex3
      = Done p (after (contract_calls CALLCODE 2 delegator2 500 (InCall M_delegate (inr validator1))) ex3)
    /\ succeeded p = true
    /\ let s' := after (contract_calls CALLCODE 2 delegator2 500 (InCall M_delegate (inr validator1))) ex3 in
       balance s' = balance ex3 /\ stakes s' = stakes ex3 + 500 /\ balance s' < stakes s'.
Proof.
  destruct (leaves_done (contract_calls CALLCODE 2 delegator2 500 (InCall M_delegate (inr validator1))) ex3
    (fun p s' => succeeded p && (balance s' =? balance ex3) && (stakes s' =? stakes ex3 + 500) && (balance s' <? stakes s')))
    as (p & Hp & Hf); [by vm_compute|].
  apply andb_prop in Hf as [Hf H4]. apply andb_prop in Hf as [Hf H3]. apply andb_prop in Hf as [H1 H2].
  exists p. split; [exact Hp|]. split; [exact H1|]. cbv zeta.
  split; [exact (proj1 (Z.eqb_eq _ _) H2)|]. split; [exact (proj1 (Z.eqb_eq _ _) H3)|exact (proj1 (Z.ltb_lt _ _) H4)].
Qed.

(** Stake of a reverted frame.  [Put] is [SetStateRawIrreversibly], which
    the journal does not undo, and since the redelegation fix the contract
    may be called below the top of a transaction: a contract that delegates
    its money and then reverts has it back, and keeps the stake. *)
Definition delegates_and_reverts : CallFrame -> bool -> Z -> M CT (Z * (string + option Result)) := fun frame _ gas =>
  _ ← contract_calls CALL 2 (Account frame) 500 (InCall M_delegate (inr validator1));
  ret (gas, inl ErrExecutionReverted).

Definition reverted_call : M CT (Z * (string + option Result)) :=
  call delegates_and_reverts CALL 0 (AccWrapper owner1) delegator2 None true false 1000000 0.

Definition reverted (p : Z * (string + option Result)) : bool :=
  match snd p with inl e => String.eqb e ErrExecutionReverted | inr _ => false end.

Theorem reverted_frame_keeps_stake :
  exists p, reverted_call ex3 = Done p (after reverted_call ex3)
    /\ reverted p = true
    /\ let s' := after reverted_call ex3 in
       c_balances s' !! delegator2 = c_balances ex3 !! delegator2
       /\ balance s' = balance ex3 /\ stakes s' = stakes ex3 + 500 /\ balance s' < stakes s'.
Proof.
  destruct (leaves_done reverted_call ex3 (fun p s' => reverted p
    && bool_decide (c_balances s' !! delegator2 = c_balances ex3 !! delegator2)
    && (balance s' =? balance ex3) && (stakes s' =? stakes ex3 + 500) && (balance s' <? stakes s'))) as (p & Hp & Hf); [by vm_compute|].
  cbv beta in Hf. do 4 (apply andb_prop in Hf as [Hf ?]). exists p. split; [exact Hp|].
  split; [done|]. cbv zeta.
  split; [by eapply bool_decide_eq_true_1|]. split_and!; zbool; lia.
Qed.

(** A static call changes the contract: [read_only] does not reach
    precompiled contracts. *)
Example static_call_writes :
  leaves (contract_calls STATICCALL 5 delegator2 0 (InCall M_undelegateV2 (inr (validator1, 100)))) ex6
    (fun p s' => succeeded p && (stakes s' =? stakes ex6 - 100)) = true.
Proof. by vm_compute. Qed.

Definition handler {A} (a : Address) (value now : Z) (h : CallFrame -> Z -> M CT A) : M CT A :=
  h (mkCallFrame a dpos_contract_address value) now.

(** Redelegating a validator's last stake away while an undelegation is
    pending drops the validator's F1 state but keeps the validator; the next
    delegation to it panics. *)
Definition redelegate_all : M CT () :=
  _ ← handler owner1 0 5 (fun ctx now => undelegate ex_cfg ctx now validator2 500 true);
  handler owner1 0 6 (fun ctx now => redelegate ex_cfg ctx now validator2 validator1 1000).

Example redelegate_loses_state :
  leaves redelegate_all ex6 (fun _ s' => panics (handler delegator2 500 7 (fun ctx now => delegate ex_cfg 7 ctx now validator2)) s') = true.
Proof. by vm_compute. Qed.

(** Undelegating nothing, undelegating everything, cancelling the first and
    confirming the second leaves a delegation of 0 to a validator that is
    gone; listing the delegations then panics. *)
Definition undelegate_nothing : M CT () :=
  _ ← handler owner1 0 5 (fun ctx now => undelegate ex_cfg ctx now validator2 0 true);
  _ ← handler owner1 0 5 (fun ctx now => undelegate ex_cfg ctx now validator2 1500 true);
  _ ← handler owner1 0 6 (fun ctx now => cancelUndelegate ex_cfg ctx now validator2 (Some 1));
  handler owner1 0 30 (fun ctx now => confirmUndelegate ex_cfg ctx now validator2 (Some 2)).

Example undelegate_nothing_dangles :
  leaves undelegate_nothing ex6 (fun _ s' =>
    match ts_delegation (c_storage s') !! (validator2, owner1) with Some y => d_Stake y =? 0 | None => false end
    && negb (bool_decide (is_Some (ts_validator (c_storage s') !! validator2)))
    && panics (getDelegations ex_cfg owner1 0) s') = true.
Proof. by vm_compute. Qed.

(** Cancelling an undelegation is not checked against the maximal stake. *)
Definition overfill : M CT () :=
  _ ← handler delegator2 3000 5 (fun ctx now => delegate ex_cfg now ctx now validator2);
  _ ← handler delegator2 0 5 (fun ctx now => undelegate ex_cfg ctx now validator2 2000 true);
  _ ← handler owner1 2500 5 (fun ctx now => delegate ex_cfg now ctx now validator2);
  handler delegator2 0 5 (fun ctx now => cancelUndelegate ex_cfg ctx now validator2 (Some 1)).

Example cancel_exceeds_maximum :
  leaves overfill ex6 (fun _ s' =>
    match ts_validator (c_storage s') !! validator2 with
    | Some x => ValidatorMaximumStake (DPOS ex_cfg) <? TotalStake (validator_of x) | None => false end) = true.
Proof. by vm_compute. Qed.

(** The cap on votes does nothing: a stake above the maximum still has all
    its votes. *)
Example votes_not_capped :
  voteCount ex_cfg 7000 5 ex6 = Done 70 ex6
  /\ ValidatorMaximumStake (DPOS ex_cfg) / VoteEligibilityBalanceStep (DPOS ex_cfg) = 50.
Proof. done. Qed.

(** A batch number whose product overflows 32 bits is charged as an empty
    page and reads a full one. *)
Example batch_undercharged :
  batch_items_count 100 214748365 20 = 1 /\ u32 (214748365 * 20) = 4.
Proof. done. Qed.

(** Between the Magnolia and the Phalaenopsis hardfork the commission of a
    validator without stake, for which undelegations wait, is paid again at
    every claim. *)
Definition late_cfg : ChainConfig := mkChainConfig (GenesisBalances ex_cfg) (DPOS ex_cfg)
  (mkHardforks 1 [] ∅ (mkMagnoliaHf 0 0) 100 0 (mkAspenHf 0 0 220000 0) (mkFicusHf 0 0 ZeroAddress)
     (mkCornusHf 4 20 0 0) (mkSoleiroliaHf 0 0 0)).

Definition leave_validator1 : M CT Z :=
  _ ← handler owner1 0 5 (fun ctx now => undelegate late_cfg ctx now validator1 1000 true);
  handler delegator2 0 5 (fun ctx now => undelegate late_cfg ctx now validator1 300 true).

Definition claim_twice : M CT () :=
  _ ← handler owner1 0 6 (fun ctx now => claimCommissionRewards late_cfg ctx now validator1);
  handler owner1 0 6 (fun ctx now => claimCommissionRewards late_cfg ctx now validator1).

Definition commission_of (s : CT) : Z := from_option CommissionRewardsPool 0 (ts_rewards (c_storage s) !! validator1).

Example commission_claimed_twice :
  leaves leave_validator1 ex6 (fun _ s => leaves claim_twice s (fun _ s' =>
    (0 <? commission_of s) && (commission_of s' =? commission_of s) && (balance s - balance s' =? 2 * commission_of s))) = true.
Proof. by vm_compute. Qed.

(** Before the Aspen hardfork a call of [claimAllRewards] without arguments
    panics already in [RequiredGas]. *)
Definition early_cfg : ChainConfig := mkChainConfig (GenesisBalances ex_cfg) (DPOS ex_cfg)
  (mkHardforks 1 [] ∅ (mkMagnoliaHf 0 0) 0 0 (mkAspenHf 10 10 220000 0) (mkFicusHf 0 0 ZeroAddress)
     (mkCornusHf 4 20 0 0) (mkSoleiroliaHf 0 0 0)).

Example claim_all_panics_early :
  panics (RequiredGas early_cfg 100 5 (mkCallFrame owner1 dpos_contract_address 0) (InCall (M_claimAllRewards false) (inr tt))) ex6 = true.
Proof. by vm_compute. Qed.

(** More than 100 percent in reward shares underflows the voters' part. *)
Definition greedy_cfg : ChainConfig := mkChainConfig (GenesisBalances ex_cfg)
  (mkDPOSConfig 1000 100 5000 10 80 40 0 0 5 10 1 20 []) (Hardforks ex_cfg).

Example shares_underflow : (2 ^ 255 <? snd (fst (reward_parts greedy_cfg 280 ex_stats))) = true.
Proof. by vm_compute. Qed.
