(* ===== verification/Slashing.v ===== *)
(** * The slashing contract: [contracts/slashing/precompiled]

    Double voting proofs, the jail and its readers.  A call arrives decoded,
    as those of the DPOS contract.  The contract keeps its entries in the
    storage wrapper of [Storage]; a reader sees the storage of one block,
    which does not change.  The eligibility of an account comes from the
    reader of the DPOS contract, an argument of the reader here. *)
From S2P Require Import Prelude Bytes Rlp RlpDecode Crypto ChainConfig Storage IterableMap.
Local Open Scope Z_scope.
Local Open Scope string_scope.

Definition CommitDoubleVotingProofGas : Z := 20000.
Definition getJailBlockGas : Z := 5000.
Definition DefaultSlashingMethodGas : Z := 5000.

Definition ErrInvalidVoteSignature := "Invalid vote signature".
Definition ErrInvalidVotesValidator := "Votes validators differ".
Definition ErrNotAValidator := "Votes validators is not a validator".
Definition ErrInvalidVotesPeriodRoundStep := "Votes period/round/step differ".
Definition ErrInvalidVotesBlockHash := "Invalid votes block hash".
Definition ErrIdenticalVotes := "Votes are identical".
Definition ErrExistingDoubleVotingProof := "Existing double voting proof".
Local Close Scope string_scope.

Definition slashing_contract_address : Address := addr_of_Z 238.

Definition field_validators_jail_block : bytes := [Byte.x00].
Definition field_double_voting_proofs : bytes := [Byte.x01].
Definition field_jailed_validators : bytes := [Byte.x02].

(** [common.HashLength], [common.ZeroHash]. *)
Definition HashLength : nat := 32.
Definition ZeroHash : bytes := replicate HashLength Byte.x00.

(** ** RLP *)
Definition MustEncodeToBytes {St} (t : typ) (v : val) : M St bytes :=
  match EncodeToBytes t v with
  | inr (Some b) => ret b
  | inr None => panic "rlp: encoder panics"
  | inl err => panic err
  end.
Definition MustDecodeBytes {St} (t : typ) (b : bytes) : M St val :=
  match DecodeBytes t b with Done v _ => ret v | Fail err _ => panic err | Panic msg => panic msg end.

Definition bad_shape {St A} : M St A := panic "value of another type".

Definition field_list (ts : list typ) : fields := foldr (FCons no_tags) FNil ts.

(** [types.BlockNum], [bool] and [[]common.Address]. *)
Definition BlockNum_typ : typ := TUint 64.
Definition Addresses_typ : typ := TSlice (TByteArray 20).

(** ** Votes *)
Record VrfPbftSortition := mkVrfPbftSortition { Period : Z; Round : Z; Step : Z; Proof_ : bytes }.
Definition VrfPbftSortition_typ : typ := TStruct (field_list [TUint 64; TUint 32; TUint 32; TByteArray 80]).

Record Vote := mkVote {
  BlockHash : bytes;
  VrfSortitionBytes : bytes;
  VrfSortition : VrfPbftSortition;
  Signature : bytes;
}.
Definition Vote_typ : typ := TStruct (field_list [TByteArray HashLength; TBytes; TByteArray 65]).
Definition VoteHashData_typ : typ := TStruct (field_list [TByteArray HashLength; TBytes]).

Definition NewVote {St} (vote_rlp : bytes) : M St Vote :=
  vote ← MustDecodeBytes Vote_typ vote_rlp;
  match vote with
  | VList [VBytes block_hash; VBytes vrf_bytes; VBytes signature] =>
      vrf ← MustDecodeBytes VrfPbftSortition_typ vrf_bytes;
      match vrf with
      | VList [VUint period; VUint round; VUint step; VBytes proof] =>
          ret (mkVote block_hash vrf_bytes (mkVrfPbftSortition period round step proof) signature)
      | _ => bad_shape
      end
  | _ => bad_shape
  end.

Section slashing.
Context `{Crypto}.

Definition GetHash {St} (vote : Vote) : M St bytes :=
  rlp ← MustEncodeToBytes VoteHashData_typ (VList [VBytes (BlockHash vote); VBytes (VrfSortitionBytes vote)]);
  ret (keccak256 rlp).

(** ** Keys *)
Definition jail_block_key (validator : Address) : bytes := Stor_k_1 keccak256 [field_validators_jail_block; addr_bytes validator].
Definition jailed_validators_key : bytes := pad_left HashLength field_jailed_validators.

(** [bytes.Compare]. *)
Fixpoint bytes_Compare (a b : bytes) : comparison :=
  match a, b with
  | [], [] => Eq
  | [], _ => Lt
  | _, [] => Gt
  | x :: a, y :: b => match Z.compare (Z_of_byte x) (Z_of_byte y) with Eq => bytes_Compare a b | c => c end
  end.

Definition genDoubleVotingProofDbKey {St} (vote_a_hash vote_b_hash : bytes) : M St bytes :=
  let key smaller greater := Stor_k_1 keccak256 [field_double_voting_proofs; smaller; greater] in
  match bytes_Compare vote_a_hash vote_b_hash with
  | Lt => ret (key vote_a_hash vote_b_hash)
  | Gt => ret (key vote_b_hash vote_a_hash)
  | Eq => panic "Votes hashes are the same"
  end.

(** ** [reader.go] *)
Record Reader := mkReader {
  r_cfg : ChainConfig;
  r_storage : bytes -> option bytes;
  eligibleReader : option (Address -> bool);
}.

(** The block of the storage that a reader of block [blk_n] reads. *)
Definition actual_block (cfg : ChainConfig) (blk_n : Z) : Z :=
  if DelegationDelay (DPOS cfg) <? blk_n then u64 (blk_n - DelegationDelay (DPOS cfg)) else 0.

Definition Reader_Init (cfg : ChainConfig) (blk_n : Z) (eligibleReader : option (Address -> bool)) (storage_factory : Z -> bytes -> option bytes) : Reader :=
  mkReader cfg (storage_factory (actual_block cfg blk_n)) eligibleReader.

Definition reader_getJailBlock {St} (r : Reader) (addr : Address) : M St (bool * Z) :=
  match r_storage r (jail_block_key addr) with
  | None => ret (false, 0)
  | Some b => v ← MustDecodeBytes BlockNum_typ b; match v with VUint block => ret (true, block) | _ => bad_shape end
  end.

Definition IsJailed {St} (r : Reader) (block : Z) (addr : Address) : M St bool :=
  if negb (IsOnMagnoliaHardfork (Hardforks (r_cfg r)) block) then ret false else
  '(jailed, jail_block) ← reader_getJailBlock r addr;
  if negb jailed then ret false else
  if jail_block <? block then ret false else ret true.

Definition addresses_of {St} (v : val) : M St (list Address) :=
  match v with
  | VList vs => map_each (fun v => match v with VBytes b => ret (BytesToAddress b) | _ => bad_shape end) vs
  | _ => bad_shape
  end.

Definition GetJailedValidators {St} (r : Reader) : M St (list Address) :=
  match r_storage r jailed_validators_key with
  | None | Some [] => ret []
  | Some b => v ← MustDecodeBytes Addresses_typ b; addresses_of v
  end.

Definition Reader_IsEligible (r : Reader) (address : Address) : bool :=
  match eligibleReader r with None => false | Some f => f address end.

(** ** [logs.go] *)
Inductive MaliciousBehaviourType := DOUBLE_VOTING.
Inductive JailedLog := Jailed (validator : Address) (start_block end_block : Z) (behaviour : MaliciousBehaviourType).
Definition MakeJailedLog := Jailed.

(** ** The contract *)
Record Contract := mkContract {
  cfg : ChainConfig;
  storage : StorageWrapper bytes;
  nonce : Z;   (* of the account of the contract *)
  delayedReader : Reader;
  logs : list JailedLog;   (* of the EVM, oldest first *)
  nextCleanUpBlock : Z;
}.

Definition set_storage x c := mkContract (cfg c) x (nonce c) (delayedReader c) (logs c) (nextCleanUpBlock c).
Definition set_nonce x c := mkContract (cfg c) (storage c) x (delayedReader c) (logs c) (nextCleanUpBlock c).
Definition set_reader x c := mkContract (cfg c) (storage c) (nonce c) x (logs c) (nextCleanUpBlock c).
Definition set_logs x c := mkContract (cfg c) (storage c) (nonce c) (delayedReader c) x (nextCleanUpBlock c).
Definition set_next x c := mkContract (cfg c) (storage c) (nonce c) (delayedReader c) (logs c) x.

Abbreviation C := (M Contract).
#[export] Instance storage_lens : Lens Contract (StorageWrapper bytes) := {| lget := storage; lset := set_storage |}.

(** The storage wrapper and the nonce belong to the EVM state. *)
Definition Contract_Init (cfg : ChainConfig) (storage : StorageWrapper bytes) (nonce : Z) (read_storage : Reader) : Contract :=
  mkContract cfg storage nonce read_storage [] 0.

Definition storageInitialization : C () :=
  modify_st (fun c => if nonce c =? 0 then set_nonce (nonce c + 1) c else c).

Definition CommitCall (read_storage : Reader) : C () :=
  _ ← modify_st (set_reader read_storage); zoom ClearCache.

(** ** Double voting proofs *)
Definition validateVoteSig (vote_hash signature : bytes) : string + Address :=
  match Ecrecover vote_hash signature with
  | inl err => inl err
  | inr pubKey => inr (BytesToAddress (drop 12 (keccak256 (drop 1 pubKey))))
  end.

Definition addToJailedValidators (validator : Address) : C () :=
  c ← get_st;
  jailed_validators ← GetJailedValidators (delayedReader c);
  if bool_decide (validator ∈ jailed_validators) then ret tt else
  b ← MustEncodeToBytes Addresses_typ (VList (map (fun a => VBytes (addr_bytes a)) (jailed_validators ++ [validator])));
  zoom (SW_Put jailed_validators_key b).

Definition jailValidator (current_block : Z) (validator : Address) : C Z :=
  c ← get_st;
  let jail_block := u64 (current_block + JailTime (MagnoliaHf (Hardforks (cfg c)))) in
  let db_key := jail_block_key validator in
  old ← zoom (SW_Get db_key);
  _ ← match old with None => ret tt | Some b => _ ← MustDecodeBytes BlockNum_typ b; ret tt end;
  b ← MustEncodeToBytes BlockNum_typ (VUint jail_block);
  _ ← zoom (SW_Put db_key b);
  _ ← addToJailedValidators validator;
  _ ← storageInitialization;
  ret jail_block.

Definition saveDoubleVotingProof (db_key : bytes) : C () :=
  b ← MustEncodeToBytes TBool (VBool true); zoom (SW_Put db_key b).

Definition doubleVotingProoExists (db_key : bytes) : C bool :=
  v ← zoom (SW_Get db_key); ret (match v with Some _ => true | None => false end).

(** A second vote of a finishing step for the null block is no offence. *)
Definition finishing_step_votes (vote_a vote_b : Vote) : bool :=
  (5 <=? Step (VrfSortition vote_a)) && (Step (VrfSortition vote_a) mod 2 =? 1) &&
  xorb (bool_decide (BlockHash vote_a = ZeroHash)) (bool_decide (BlockHash vote_b = ZeroHash)).

Definition same_sortition (a b : VrfPbftSortition) : bool :=
  (Period a =? Period b) && (Round a =? Round b) && (Step a =? Step b).

Definition commitDoubleVotingProof (block : Z) (args_VoteA args_VoteB : bytes) : C () :=
  vote_a ← NewVote args_VoteA;
  vote_a_hash ← GetHash vote_a;
  vote_b ← NewVote args_VoteB;
  vote_b_hash ← GetHash vote_b;
  if bool_decide (vote_a_hash = vote_b_hash) then throw ErrIdenticalVotes else
  proof_db_key ← genDoubleVotingProofDbKey vote_a_hash vote_b_hash;
  exists_ ← doubleVotingProoExists proof_db_key;
  if exists_ : bool then throw ErrExistingDoubleVotingProof else
  if negb (same_sortition (VrfSortition vote_a) (VrfSortition vote_b)) then throw ErrInvalidVotesPeriodRoundStep else
  if bool_decide (BlockHash vote_a = BlockHash vote_b) then throw ErrInvalidVotesBlockHash else
  if finishing_step_votes vote_a vote_b then throw ErrInvalidVotesBlockHash else
  match validateVoteSig vote_a_hash (Signature vote_a) with
  | inl _ => throw ErrInvalidVoteSignature
  | inr vote_a_validator =>
  match validateVoteSig vote_b_hash (Signature vote_b) with
  | inl _ => throw ErrInvalidVoteSignature
  | inr vote_b_validator =>
  if negb (bool_decide (vote_a_validator = vote_b_validator)) then throw ErrInvalidVotesValidator else
  c ← get_st;
  if negb (Reader_IsEligible (delayedReader c) vote_a_validator) then throw ErrNotAValidator else
  jail_block ← jailValidator block vote_a_validator;
  _ ← saveDoubleVotingProof proof_db_key;
  modify_st (fun c => set_logs (logs c ++ [MakeJailedLog vote_a_validator block jail_block DOUBLE_VOTING]) c)
  end end.

(** ** Releasing validators *)

(** The loop: the validators that stay, and the least jail block. *)
Fixpoint cleanup_loop (r : Reader) (currentBlock : Z) (validators : list Address) (min_unjail_block : Z) : C (list Address * Z) :=
  match validators with
  | [] => ret ([], min_unjail_block)
  | validator :: validators =>
      '(_, jail_block) ← reader_getJailBlock r validator;
      '(kept, min_unjail_block) ← cleanup_loop r currentBlock validators
        (if (min_unjail_block =? 0) || (jail_block <? min_unjail_block) then jail_block else min_unjail_block);
      ret ((if currentBlock <? jail_block then [validator] else []) ++ kept, min_unjail_block)
  end.

(** The reader is opened on the wrapper itself, whose [GetAccountStorage] is
    that of the backend: what the wrapper has cached or written is not seen. *)
Definition backend (c : Contract) : bytes -> option bytes := fun k => sw_db (storage c) !! k.

Definition CleanupJailedValidators (currentBlock : Z) : C () :=
  c ← get_st;
  if currentBlock <? nextCleanUpBlock c then ret tt else
  let reader := Reader_Init (cfg c) currentBlock None (fun _ => backend c) in
  jailed_validators ← GetJailedValidators reader;
  match jailed_validators with
  | [] => ret tt
  | _ =>
      '(kept, min_unjail_block) ← cleanup_loop reader currentBlock jailed_validators 0;
      _ ← when (negb (min_unjail_block =? 0)) (modify_st (set_next min_unjail_block));
      b ← MustEncodeToBytes Addresses_typ (VList (map (fun a => VBytes (addr_bytes a)) kept));
      zoom (SW_Put jailed_validators_key b)
  end.

Definition getJailBlock (validator : Address) : C Z :=
  c ← get_st; '(_, jail_block) ← reader_getJailBlock (delayedReader c) validator; ret jail_block.

(** ** Calls *)
Inductive Method := M_commitDoubleVotingProof | M_getJailBlock | M_getJailedValidators | M_other.
Definition args_of (m : Method) : Type :=
  match m with M_commitDoubleVotingProof => bytes * bytes | M_getJailBlock => Address | _ => unit end.

Inductive Input :=
| InUnknown (err : string)                         (* [MethodById] fails *)
| InCall (m : Method) (args : string + args_of m).

Inductive Result := RNone | RBlock (block : Z) | RAddresses (l : list Address).

Definition RequiredGas (i : Input) : Z :=
  match i with
  | InUnknown _ => 0
  | InCall M_commitDoubleVotingProof _ => CommitDoubleVotingProofGas
  | InCall M_getJailBlock _ | InCall M_getJailedValidators _ => getJailBlockGas
  | InCall M_other _ => DefaultSlashingMethodGas
  end.

Definition Run (evm_block : Z) (i : Input) : C Result :=
  match i with
  | InUnknown err => throw err
  | InCall M_commitDoubleVotingProof args =>
      match args with
      | inl err => throw err
      | inr (vote_a, vote_b) => _ ← commitDoubleVotingProof evm_block vote_a vote_b; ret RNone
      end
  | InCall M_getJailBlock args =>
      match args with inl err => throw err | inr validator => block ← getJailBlock validator; ret (RBlock block) end
  | InCall M_getJailedValidators _ => c ← get_st; l ← GetJailedValidators (delayedReader c); ret (RAddresses l)
  | InCall M_other _ => ret RNone
  end.
End slashing.
