(* ===== verification/SlashingProps.v ===== *)
(** * What the slashing contract promises

    Over any history of proofs, ends of blocks and restarts: a pair of votes
    is punished at most once, and the jail ends. *)
From S2P Require Import Prelude Bytes Rlp RlpEncode RlpDecode RlpRoundtrip Crypto ChainConfig Storage IterableMap Slashing.

(** ** A chain of blocks around the contract *)
Section chain.
Context `{Crypto} (eligible : Z -> Address -> bool) (cfg0 : ChainConfig).

(** The contract within the block after [block], and the raw storage of its
    account after each block. *)
Record Chain := mkChain {
  contract : Contract;
  block : Z;
  dbs : Z -> gmap bytes bytes;
}.

Definition chain_reader (dbs : Z -> gmap bytes bytes) (blk_n : Z) : Reader :=
  Reader_Init cfg0 blk_n (Some (eligible blk_n)) (fun n k => dbs n !! k).

Definition no_storage : StorageWrapper bytes := mkStorageWrapper ∅ ∅ ∅.
Definition genesis : Chain := mkChain (Contract_Init cfg0 no_storage 0 (chain_reader (fun _ => ∅) 0)) 0 (fun _ => ∅).

Inductive chain_op :=
| OpProof (vote_a vote_b : bytes)   (* a transaction of the block *)
| OpEndBlock                        (* the end of the block and its commit *)
| OpRestart.                        (* of the node, between two blocks *)

Definition in_contract {A} (m : M Contract A) : M Chain A := fun ch =>
  match m (contract ch) with
  | Done a c => Done a (mkChain c (block ch) (dbs ch))
  | Fail err c => Fail err (mkChain c (block ch) (dbs ch))
  | Panic msg => Panic msg
  end.

(** The writes of the block reach the database. *)
Definition flush (s : StorageWrapper bytes) : StorageWrapper bytes :=
  mkStorageWrapper (sw_cache s) (flush_raw (sw_db s) (sw_dirty s)) ∅.

Definition next_block : M Chain () := modify_st (fun ch =>
  let s := flush (storage (contract ch)) in
  let n := block ch + 1 in
  mkChain (set_storage s (contract ch)) n (fun m => if m =? n then sw_db s else dbs ch m)).

Definition magnolia (n : Z) : bool := IsOnMagnoliaHardfork (Hardforks cfg0) n.

Definition run_chain_op (o : chain_op) : M Chain () :=
  ch ← get_st;
  match o with
  | OpProof vote_a vote_b =>
      when (magnolia (block ch + 1))
        (_ ← in_contract (attempt (commitDoubleVotingProof (block ch + 1) vote_a vote_b)); ret tt)
  | OpEndBlock =>
      _ ← in_contract (CleanupJailedValidators (block ch + 1));
      _ ← next_block;
      ch ← get_st;
      when (magnolia (block ch)) (in_contract (CommitCall (chain_reader (dbs ch) (block ch))))
  | OpRestart =>
      when (bool_decide (sw_dirty (storage (contract ch)) = ∅)) (modify_st (fun ch =>
        mkChain (Contract_Init cfg0 (mkStorageWrapper ∅ (sw_db (storage (contract ch))) ∅) (nonce (contract ch)) (chain_reader (dbs ch) (block ch)))
          (block ch) (dbs ch)))
  end.

Fixpoint run_chain (os : list chain_op) : M Chain () :=
  match os with [] => ret tt | o :: os => _ ← run_chain_op o; run_chain os end.
End chain.

(** ** Encodings of the entries *)
Definition enc_block (i : Z) : bytes := enc_string (big_Bytes i).
Definition enc_addresses (l : list Address) : bytes := enc_list (concat (map (fun a => enc_string (addr_bytes a)) l)).
Definition addresses_val (l : list Address) : val := VList (map (fun a => VBytes (addr_bytes a)) l).

Lemma MustEncode_done {St} t v b (st : St) : tags_ok t = true -> encoding t no_tags v = Some b -> blen b < 2 ^ 32 - 1 -> MustEncodeToBytes t v st = Done b st.
Proof. intros Ht E Hl. unfold MustEncodeToBytes. by rewrite encoding_EncodeToBytes with (b := b). Qed.

Lemma MustDecode_done {St} t v b (st : St) : tags_ok t = true -> encoding t no_tags v = Some b -> decodable t no_tags v -> blen b < 2 ^ 32 - 1 ->
  MustDecodeBytes t b st = Done v st.
Proof. intros Ht E Hd Hl. unfold MustDecodeBytes. destruct (decode_encode t v b Ht E Hd Hl) as [_ (s & -> & _)]. done. Qed.

Lemma encoding_block i : 0 <= i < 2 ^ 64 -> encoding BlockNum_typ no_tags (VUint i) = Some (enc_block i).
Proof. intros Hi. cbn [encoding BlockNum_typ]. change (Z.min 64 64) with 64. rewrite (proj2 (Z.leb_le _ _)), (proj2 (Z.ltb_lt _ _)) by lia. done. Qed.

Lemma blen_enc_block i : 0 <= i < 2 ^ 64 -> blen (enc_block i) < 2 ^ 32 - 1.
Proof. intros Hi. unfold enc_block. pose proof (blen_enc_string_le (big_Bytes i)). pose proof (blen_big_64 i Hi). lia. Qed.

Lemma encode_block {St} i (st : St) : 0 <= i < 2 ^ 64 -> MustEncodeToBytes BlockNum_typ (VUint i) st = Done (enc_block i) st.
Proof. intros Hi. apply MustEncode_done; [done|by apply encoding_block|by apply blen_enc_block]. Qed.

Lemma decode_block {St} i (st : St) : 0 <= i < 2 ^ 64 -> MustDecodeBytes BlockNum_typ (enc_block i) st = Done (VUint i) st.
Proof. intros Hi. apply MustDecode_done; [done|by apply encoding_block|by exists 8|by apply blen_enc_block]. Qed.

Lemma encoding_addresses l : encoding Addresses_typ no_tags (addresses_val l) = Some (enc_addresses l).
Proof.
  change (encoding Addresses_typ no_tags (addresses_val l)) with (enc_list <$> concat_opt (encoding (TByteArray 20) no_tags <$> map (fun a => VBytes (addr_bytes a)) l)). unfold enc_addresses.
  assert (concat_opt (encoding (TByteArray 20) no_tags <$> map (fun a => VBytes (addr_bytes a)) l) = Some (concat (map (fun a => enc_string (addr_bytes a)) l))) as ->; [|done].
  induction l as [|a l IH]; [done|]. cbn [map concat]. rewrite fmap_cons. apply concat_opt_cons.
  exists (enc_string (addr_bytes a)). eexists. split_and!; [cbn [encoding]; by rewrite addr_length|exact IH|done].
Qed.

Lemma blen_enc_addresses l : Z.of_nat (length l) < 2 ^ 27 -> blen (enc_addresses l) < 2 ^ 32 - 1.
Proof.
  intros Hl. unfold enc_addresses. match goal with |- blen (enc_list ?p) < _ => pose proof (blen_enc_list_bounds p); assert (blen p <= 29 * Z.of_nat (length l)); [|lia] end.
  clear. induction l as [|a l IH]; [done|]. cbn [map concat length]. rewrite blen_app. pose proof (blen_enc_string_le (addr_bytes a)) as H1.
    unfold blen in H1 at 2. rewrite addr_length in H1. lia.
Qed.

Lemma encode_addresses {St} l (st : St) : Z.of_nat (length l) < 2 ^ 27 -> MustEncodeToBytes Addresses_typ (addresses_val l) st = Done (enc_addresses l) st.
Proof. intros Hl. apply MustEncode_done; [done|apply encoding_addresses|by apply blen_enc_addresses]. Qed.

Lemma decode_addresses {St} l (st : St) : Z.of_nat (length l) < 2 ^ 27 -> MustDecodeBytes Addresses_typ (enc_addresses l) st = Done (addresses_val l) st.
Proof.
  intros Hl. apply MustDecode_done; [done|apply encoding_addresses| |by apply blen_enc_addresses].
  cbn [decodable Addresses_typ addresses_val]. apply Forall_map, Forall_forall. intros a _. cbn. intros E. pose proof (addr_length a) as El. by rewrite E in El.
Qed.

Lemma addresses_of_val {St} l (st : St) : addresses_of (addresses_val l) st = Done l st.
Proof.
  unfold addresses_of, addresses_val. induction l as [|a l IH]; [done|]. cbn [map map_each].
  rewrite (bind_done _ _ st _ st eq_refl), (bind_done _ _ _ _ _ IH), BytesToAddress_bytes. done.
Qed.

Lemma encode_true {St} (st : St) : MustEncodeToBytes TBool (VBool true) st = Done [Byte.x01] st.
Proof. by apply MustEncode_done. Qed.

(** ** The entries *)
Section entries.
Context `{Crypto}.

(** The list of jailed validators under its key. *)
Definition listed (f : bytes -> option bytes) (l : list Address) : Prop :=
  f jailed_validators_key = None /\ l = [] \/ f jailed_validators_key = Some (enc_addresses l).

(** No validator is jailed beyond block [B], and at most [N] are listed. *)
Record entries_ok (B N : Z) (f : bytes -> option bytes) : Prop := mkEntriesOk {
  jails_ok : forall v b, f (jail_block_key v) = Some b -> exists i, b = enc_block i /\ 0 <= i <= B;
  list_ok : exists l, listed f l /\ Z.of_nat (length l) <= N;
}.

Lemma entries_mono B N B' N' f : B <= B' -> N <= N' -> entries_ok B N f -> entries_ok B' N' f.
Proof.
  intros HB HN [Hj (l & Hl & Hn)]. split; [|exists l; split; [done|lia]]. intros v b Hb. destruct (Hj v b Hb) as (i & -> & Hi). exists i. split; [done|lia].
Qed.

Lemma entries_ext B N f f' : (forall k, f' k = f k) -> entries_ok B N f -> entries_ok B N f'.
Proof.
  intros E [Hj (l & Hl & Hn)]. split; [intros v b; rewrite E; apply Hj|]. exists l. split; [|done]. unfold listed in *. by rewrite E.
Qed.

Lemma entries_empty B N : 0 <= N -> entries_ok B N (fun _ => None).
Proof. intros HN. split; [done|]. exists []. split; [by left|done]. Qed.

Lemma enc_addresses_not_nil l : enc_addresses l <> [].
Proof. apply enc_list_not_nil. Qed.

Lemma read_list {St} c f e l (st : St) : listed f l -> Z.of_nat (length l) < 2 ^ 27 -> GetJailedValidators (mkReader c f e) st = Done l st.
Proof.
  intros [[E ->]|E] Hl; unfold GetJailedValidators; cbn [r_storage]; rewrite E; [done|].
  destruct (enc_addresses l) eqn:Eb; [by apply enc_addresses_not_nil in Eb|]. rewrite <- Eb.
  rewrite (bind_done _ _ _ _ _ (decode_addresses l st Hl)). apply addresses_of_val.
Qed.

Lemma read_jail {St} B N c f e v (st : St) : entries_ok B N f -> 0 <= B < 2 ^ 64 ->
  exists j i, reader_getJailBlock (mkReader c f e) v st = Done (j, i) st /\ 0 <= i <= B.
Proof.
  intros [Hj _] HB. unfold reader_getJailBlock. cbn [r_storage]. destruct (f (jail_block_key v)) as [b|] eqn:Eb; [|exists false, 0; split; [done|lia]].
  destruct (Hj v b Eb) as (i & -> & Hi). exists true, i. split; [|done]. by rewrite (bind_done _ _ _ _ _ (decode_block i st ltac:(lia))).
Qed.
End entries.

(** ** Within a block *)

(** [m] keeps an invariant as long as it does not panic. *)
Definition keeps {St A} (P : St -> Prop) (m : M St A) : Prop :=
  forall s, P s -> match m s with Done _ s' | Fail _ s' => P s' | Panic _ => True end.

Section keeps.
Context {St : Type} (P : St -> Prop).

Lemma keeps_ret {A} (a : A) : keeps P (ret a).
Proof. by intros s. Qed.
Lemma keeps_throw {A} e : keeps P (throw (A := A) e).
Proof. by intros s. Qed.
Lemma keeps_panic {A} msg : keeps P (panic (A := A) msg).
Proof. by intros s. Qed.
Lemma keeps_get_st : keeps P get_st.
Proof. by intros s. Qed.
Lemma keeps_bind {A B} (m : M St A) (f : A -> M St B) : keeps P m -> (forall a, keeps P (f a)) -> keeps P (x ← m; f x).
Proof. intros Hm Hf s Hs. unfold bindM. specialize (Hm s Hs). destruct (m s); [by apply Hf|done|done]. Qed.
Lemma keeps_bind_post {A B} (m : M St A) (f : A -> M St B) (Q : A -> Prop) : keeps P m -> (forall s a s', m s = Done a s' -> Q a) -> (forall a, Q a -> keeps P (f a)) ->
  keeps P (x ← m; f x).
Proof. intros Hm HQ Hf s Hs. unfold bindM. specialize (Hm s Hs). specialize (HQ s). destruct (m s) as [a s'| |]; [|done|done]. apply (Hf a); [by eapply HQ|done]. Qed.
Lemma keeps_bind_get {B} (f : St -> M St B) : (forall s, P s -> match f s s with Done _ s' | Fail _ s' => P s' | Panic _ => True end) -> keeps P (s ← get_st; f s).
Proof. intros Hf s Hs. apply (Hf s Hs). Qed.
Lemma keeps_modify f : (forall s, P s -> P (f s)) -> keeps P (modify_st f).
Proof. intros Hf s. apply Hf. Qed.
Lemma keeps_attempt {A} (m : M St A) : keeps P m -> keeps P (attempt m).
Proof. intros Hm s Hs. specialize (Hm s Hs). unfold attempt. by destruct (m s). Qed.
Lemma keeps_encode t v : keeps P (MustEncodeToBytes t v).
Proof. intros s Hs. unfold MustEncodeToBytes. by destruct (EncodeToBytes t v) as [|[|]]. Qed.
Lemma keeps_decode t b : keeps P (MustDecodeBytes t b).
Proof. intros s Hs. unfold MustDecodeBytes. by destruct (DecodeBytes t b). Qed.
End keeps.

Create HintDb keeps.
#[export] Hint Resolve keeps_ret keeps_throw keeps_panic keeps_get_st keeps_encode keeps_decode keeps_attempt : keeps.

Ltac keeps_steps := repeat first [solve [auto with keeps] | apply keeps_bind; [|intros ?] | case_match].

Section pure.
Context `{Crypto} {St : Type} (P : St -> Prop).

Lemma keeps_NewVote b : keeps P (NewVote b).
Proof. unfold NewVote, bad_shape. keeps_steps. Qed.
Lemma keeps_GetHash v : keeps P (GetHash v).
Proof. unfold GetHash. keeps_steps. Qed.
Lemma keeps_genKey a b : keeps P (genDoubleVotingProofDbKey a b).
Proof. unfold genDoubleVotingProofDbKey. keeps_steps. Qed.
Lemma genKey_shape a b (s : St) k s' : genDoubleVotingProofDbKey a b s = Done k s' ->
  exists x y, k = Stor_k_1 keccak256 [field_double_voting_proofs; x; y].
Proof. unfold genDoubleVotingProofDbKey. destruct (bytes_Compare a b); [done|..]; intros [= <- _]; eauto. Qed.
Lemma keeps_addresses_of v : keeps P (addresses_of v).
Proof.
  unfold addresses_of, bad_shape. destruct v; try apply keeps_panic. induction vs; cbn [map_each]; keeps_steps.
Qed.
Lemma keeps_getJailBlock r v : keeps P (reader_getJailBlock r v).
Proof. unfold reader_getJailBlock, bad_shape. keeps_steps. Qed.
End pure.
#[export] Hint Resolve keeps_NewVote keeps_GetHash keeps_genKey keeps_addresses_of keeps_getJailBlock : keeps.

(** A wrapper to which nothing empty is written. *)
Definition sw_good (s : StorageWrapper bytes) : Prop := sw_ok s /\ forall k v, sw_cache s !! k = Some v -> v <> [].

(** A write through the wrapper. *)
Lemma sw_put (k v : bytes) (s : StorageWrapper bytes) : sw_good s -> v <> [] ->
  exists s', SW_Put k v s = Done () s' /\ sw_good s' /\ sw_db s' = sw_db s /\ forall k', sw_view s' k' = if decide (k' = k) then Some v else sw_view s k'.
Proof.
  intros [Hok Hc] Hv. pose proof (Put_spec k v s Hok) as Hw. unfold wp in Hw. cbn [Put SW_ByteStore] in Hw.
  eexists. split; [reflexivity|]. cbn in Hw. destruct Hw as (Hok' & Ek & Hne). split_and!; [split; [done|]|done|].
  { intros k' v'. cbn. intros [[_ <-]|[_ Hk']]%lookup_insert_Some; [done|by eapply Hc]. }
  intros k'. destruct (decide (k' = k)) as [->|Hk']; [|by apply Hne].
  by rewrite Ek, nonempty_id.
Qed.

Lemma sw_get (k : bytes) (s : StorageWrapper bytes) : sw_good s ->
  exists s', SW_Get k s = Done (sw_view s k) s' /\ sw_good s' /\ sw_db s' = sw_db s /\ forall k', sw_view s' k' = sw_view s k'.
Proof.
  intros [Hok Hc]. pose proof (Get_spec k s Hok) as Hw. unfold wp in Hw. cbn [Get SW_ByteStore] in Hw.
  assert (forall o s', SW_Get k s = Done o s' -> sw_db s' = sw_db s /\ forall k v, sw_cache s' !! k = Some v -> v <> []) as Hdb.
  { intros o s'. unfold SW_Get. destruct (sw_cache s !! k); [|destruct (sw_db s !! k) eqn:Ed]; intros [= <- <-]; (split; [done|]); [exact Hc| |exact Hc].
    intros k' v'. cbn. intros [[_ <-]|[_ Hk']]%lookup_insert_Some; [by eapply Hok|by eapply Hc]. }
  destruct (SW_Get k s) as [o s'| |] eqn:E; [|done|done]. destruct Hw as (-> & Hok' & Hv). exists s'. destruct (Hdb _ _ eq_refl). by split_and!.
Qed.

Section inblock.
Context `{Crypto}.
(** The entries of the jail and the proofs are not stored under the key of
    the list, which is not a hash. *)
Context (HJ : forall v, jail_block_key v <> jailed_validators_key)
  (HP : forall a b, Stor_k_1 keccak256 [field_double_voting_proofs; a; b] <> jailed_validators_key).
Context (cfg0 : ChainConfig).
(** Keys that have been written. *)
Context (marked : bytes -> Prop).

(** Bounds on what is committed, [B0] and [N0], and on what the block has
    written so far. *)
Record inblock (B0 N0 B1 : Z) (c : Contract) : Prop := mkInblock {
  ib_cfg : cfg c = cfg0;
  ib_sw : sw_good (storage c);
  ib_db : entries_ok B0 N0 (backend c);
  ib_reader : entries_ok B0 N0 (r_storage (delayedReader c));
  ib_next : nextCleanUpBlock c <= B0;
  ib_view : entries_ok B1 (N0 + 1) (sw_view (storage c));
  ib_marked : forall k, marked k -> is_Some (sw_view (storage c) k);
}.

Context (B0 N0 B1 : Z) (HN : 0 <= N0) (HN27 : N0 + 1 < 2 ^ 27) (HB : 1 <= B1).

Lemma zoom_done {A} (m : M (StorageWrapper bytes) A) c a s : m (storage c) = Done a s -> zoom m c = Done a (set_storage s c).
Proof. unfold zoom. cbn [lget lset storage_lens]. by intros ->. Qed.

Lemma inblock_put k v c : inblock B0 N0 B1 c -> v <> [] -> entries_ok B1 (N0 + 1) (fun k' => if decide (k' = k) then Some v else sw_view (storage c) k') ->
  match zoom (SW_Put k v) c with Done _ c' | Fail _ c' => inblock B0 N0 B1 c' | Panic _ => True end.
Proof.
  intros [Hc Hsw Hdb Hr Hn Hv Hm] Hne He. destruct (sw_put k v _ Hsw Hne) as (s' & E & Hok & Hdb' & Hview). rewrite (zoom_done _ _ _ _ E).
  constructor; [done|done| |done|done|exact (entries_ext _ _ _ _ Hview He)|].
  - unfold backend in *. cbn. by rewrite Hdb'.
  - intros k' Hk'. cbn. rewrite Hview. case_decide; [by eexists|by apply Hm].
Qed.

Lemma keeps_SW_Get k : keeps (inblock B0 N0 B1) (zoom (SW_Get k)).
Proof.
  intros c [Hc Hsw Hdb Hr Hn Hv Hm]. destruct (sw_get k _ Hsw) as (s' & E & Hok & Hdb' & Hview). rewrite (zoom_done _ _ _ _ E).
  constructor; [done|done| |done|done|exact (entries_ext _ _ _ _ Hview Hv)|].
  - unfold backend in *. cbn. by rewrite Hdb'.
  - intros k' Hk'. cbn. rewrite Hview. by apply Hm.
Qed.

Lemma entries_put_jail f v i : entries_ok B1 (N0 + 1) f -> 0 <= i <= B1 ->
  entries_ok B1 (N0 + 1) (fun k => if decide (k = jail_block_key v) then Some (enc_block i) else f k).
Proof.
  intros [Hj (l & Hl & Hlen)] Hi. split.
  - intros w b. case_decide; [intros [= <-]; by exists i|apply Hj].
  - exists l. split; [|done]. unfold listed in *. by rewrite decide_False.
Qed.

Lemma entries_put_list f l : entries_ok B1 (N0 + 1) f -> Z.of_nat (length l) <= N0 + 1 ->
  entries_ok B1 (N0 + 1) (fun k => if decide (k = jailed_validators_key) then Some (enc_addresses l) else f k).
Proof.
  intros [Hj _] Hl. split.
  - intros w b. rewrite decide_False by done. apply Hj.
  - exists l. split; [|done]. right. by rewrite decide_True.
Qed.

Lemma entries_put_proof f a b : entries_ok B1 (N0 + 1) f ->
  entries_ok B1 (N0 + 1) (fun k => if decide (k = Stor_k_1 keccak256 [field_double_voting_proofs; a; b]) then Some [Byte.x01] else f k).
Proof.
  intros [Hj (l & Hl & Hlen)]. split.
  - intros w bs. case_decide; [intros [= <-]; exists 1; split; [done|lia]|apply Hj].
  - exists l. split; [|done]. unfold listed in *. by rewrite decide_False by (intros E; by apply (HP a b)).
Qed.

Lemma delayed_list {St} c (st : St) : inblock B0 N0 B1 c -> exists l, GetJailedValidators (delayedReader c) st = Done l st /\ Z.of_nat (length l) <= N0.
Proof.
  intros [_ _ _ [_ (l & Hl & Hlen)] _ _ _]. exists l. split; [|done]. destruct (delayedReader c). apply (read_list _ _ _ l); [done|lia].
Qed.

Lemma keeps_addToJailed v : keeps (inblock B0 N0 B1) (addToJailedValidators v).
Proof.
  apply keeps_bind_get. intros c Hc. destruct (delayed_list c c Hc) as (l & El & Hl). rewrite (bind_done _ _ _ _ _ El). case_bool_decide; [done|].
  fold (addresses_val (l ++ [v])). assert (Z.of_nat (length (l ++ [v])) <= N0 + 1) as Hlv by (rewrite length_app; simpl; lia).
  rewrite (bind_done _ _ _ _ _ (encode_addresses (l ++ [v]) c ltac:(lia))).
  apply inblock_put; [done|apply enc_addresses_not_nil|]. apply entries_put_list; [apply Hc|done].
Qed.

Lemma keeps_jailValidator n v : 0 <= n + JailTime (MagnoliaHf (Hardforks cfg0)) <= B1 -> B1 < 2 ^ 64 -> keeps (inblock B0 N0 B1) (jailValidator n v).
Proof.
  intros Hn HB64. apply keeps_bind_get. intros c Hc. rewrite (ib_cfg _ _ _ _ Hc). rewrite u64_small by lia. revert c Hc.
  change (keeps (inblock B0 N0 B1) (old ← zoom (SW_Get (jail_block_key v));
    _ ← match old with None => ret tt | Some b => _ ← MustDecodeBytes BlockNum_typ b; ret tt end;
    b ← MustEncodeToBytes BlockNum_typ (VUint (n + JailTime (MagnoliaHf (Hardforks cfg0))));
    _ ← zoom (SW_Put (jail_block_key v) b); _ ← addToJailedValidators v; _ ← storageInitialization; ret (n + JailTime (MagnoliaHf (Hardforks cfg0))))).
  apply keeps_bind; [apply keeps_SW_Get|intros old]. apply keeps_bind; [keeps_steps|intros _].
  intros c Hc. rewrite (bind_done _ _ _ _ _ (encode_block (n + JailTime (MagnoliaHf (Hardforks cfg0))) c ltac:(lia))). revert c Hc. apply keeps_bind.
  { intros c Hc. apply inblock_put; [done|apply enc_string_not_nil|]. apply entries_put_jail; [apply Hc|lia]. }
  intros _. apply keeps_bind; [apply keeps_addToJailed|intros _]. apply keeps_bind; [|intros ?; apply keeps_ret].
  apply keeps_modify. intros c [? ? ? ? ? ? ?]. case_match; by constructor.
Qed.
Lemma keeps_commit n a b : 0 <= n + JailTime (MagnoliaHf (Hardforks cfg0)) <= B1 -> B1 < 2 ^ 64 -> keeps (inblock B0 N0 B1) (commitDoubleVotingProof n a b).
Proof.
  intros Hn HB64. unfold commitDoubleVotingProof.
  do 4 (apply keeps_bind; [auto with keeps|intros ?]). case_bool_decide; [apply keeps_throw|].
  eapply keeps_bind_post; [auto with keeps|apply genKey_shape|]. intros pk (x & y & ->).
  apply keeps_bind; [unfold doubleVotingProoExists; apply keeps_bind; [apply keeps_SW_Get|intros ?; apply keeps_ret]|intros ?].
  do 4 (case_match; [apply keeps_throw|]). do 2 (case_match; [apply keeps_throw|]). case_match; [apply keeps_throw|].
  apply keeps_bind; [apply keeps_get_st|intros ?]. case_match; [apply keeps_throw|].
  apply keeps_bind; [by apply keeps_jailValidator|intros ?]. apply keeps_bind; [|intros _; apply keeps_modify; by intros ? [? ? ? ? ? ? ?]].
  intros c Hc. unfold saveDoubleVotingProof. rewrite (bind_done _ _ _ _ _ (encode_true c)). apply inblock_put; [done|done|]. by apply entries_put_proof, Hc.
Qed.
Lemma cleanup_loop_done f n vs c : entries_ok B0 N0 f -> 0 <= B0 < 2 ^ 64 -> forall min, 0 <= min <= B0 ->
  exists kept min', cleanup_loop (mkReader cfg0 f None) n vs min c = Done (kept, min') c /\
    Z.of_nat (length kept) <= Z.of_nat (length vs) /\ 0 <= min' <= B0 /\ (B0 <= n -> kept = []).
Proof.
  intros Hf HB0. induction vs as [|v vs IH]; intros min Hmin; [by exists [], min|]. cbn [cleanup_loop].
  destruct (read_jail B0 N0 cfg0 f None v c Hf HB0) as (j & i & E & Hi). rewrite (bind_done _ _ _ _ _ E).
  destruct (IH (if (min =? 0) || (i <? min) then i else min)) as (kept & min' & E' & Hk & Hmin' & Hn); [case_match; lia|].
  rewrite (bind_done _ _ _ _ _ E'). exists ((if n <? i then [v] else []) ++ kept), min'. split_and!; [done| |lia|lia|].
  - rewrite length_app. destruct (n <? i); cbn [length]; lia.
  - intros HBn. rewrite (proj2 (Z.ltb_ge n i)), Hn by lia. done.
Qed.

Lemma Cleanup_done n c : inblock B0 N0 B1 c -> 0 <= B0 < 2 ^ 64 ->
  exists c', CleanupJailedValidators n c = Done () c' /\ inblock B0 N0 B1 c' /\
    (B0 <= n -> c' = c /\ listed (backend c) [] \/ listed (sw_view (storage c')) []).
Proof.
  intros Hc HB0. pose proof (ib_next _ _ _ _ Hc) as Hnext. unfold CleanupJailedValidators. rewrite (bind_done get_st _ c c c eq_refl).
  destruct (Z.ltb_spec n (nextCleanUpBlock c)); [exists c; split_and!; [done|done|lia]|].
  destruct (ib_db _ _ _ _ Hc) as [Hj (l & Hl & Hlen)]. unfold Reader_Init. rewrite (ib_cfg _ _ _ _ Hc).
  rewrite (bind_done _ _ _ _ _ (read_list cfg0 _ None l c Hl ltac:(lia))).
  destruct l as [|v l]; [exists c; split_and!; [done|done|by left]|]. set (vs := v :: l) in *.
  destruct (cleanup_loop_done _ n vs c (ib_db _ _ _ _ Hc) HB0 0 ltac:(lia)) as (kept & min' & E & Hk & Hmin & Hn).
  rewrite (bind_done _ _ _ _ _ E). set (c1 := if negb (min' =? 0) then set_next min' c else c).
  assert (when (negb (min' =? 0)) (modify_st (set_next min')) c = Done () c1) as E1 by (unfold c1; by destruct (min' =? 0)).
  rewrite (bind_done _ _ _ _ _ E1). assert (inblock B0 N0 B1 c1) as Hc1.
  { unfold c1. destruct (negb _); [|done]. destruct Hc. constructor; try done. cbn. lia. }
  fold (addresses_val kept). rewrite (bind_done _ _ _ _ _ (encode_addresses kept c1 ltac:(lia))).
  destruct (sw_put jailed_validators_key (enc_addresses kept) _ (ib_sw _ _ _ _ Hc1) (enc_addresses_not_nil _)) as (s' & E2 & _ & _ & Hview).
  pose proof (inblock_put jailed_validators_key (enc_addresses kept) c1 Hc1 (enc_addresses_not_nil _)) as Hput. rewrite (zoom_done _ _ _ _ E2) in Hput |- *.
  eexists. split; [done|]. split; [apply Hput; apply entries_put_list; [apply Hc1|lia]|].
  intros HBn. right. right. cbn. by rewrite Hview, decide_True, Hn.
Qed.
End inblock.

(** ** Between blocks *)
Lemma flush_lookup (s : StorageWrapper bytes) k : sw_ok s -> sw_db (flush s) !! k = sw_view s k.
Proof.
  intros [Hdb Hdirty Hclean]. unfold flush, sw_view. cbn [sw_db]. rewrite flush_raw_lookup. destruct (sw_dirty s !! k) as [v|] eqn:Ed.
  - by rewrite (Hdirty _ _ Ed).
  - destruct (sw_cache s !! k) as [v|] eqn:Ec; [|done]. rewrite (Hclean _ _ Ed Ec). symmetry. apply nonempty_id. by eapply Hdb, Hclean.
Qed.

Lemma sw_view_clean (s : StorageWrapper bytes) k : sw_ok s -> sw_dirty s = ∅ -> sw_view s k = sw_db s !! k.
Proof.
  intros Hok Hd. rewrite <- (flush_lookup s k Hok). unfold flush. cbn [sw_db]. rewrite Hd, flush_raw_lookup, lookup_empty. done.
Qed.

Lemma sw_ok_reset (db : gmap bytes bytes) : (forall k v, db !! k = Some v -> v <> []) -> sw_ok (mkStorageWrapper ∅ db ∅).
Proof. by split. Qed.

Lemma flush_good (s : StorageWrapper bytes) : sw_good s -> sw_good (flush s).
Proof.
  intros [Hok Hc]. pose proof (fun k => flush_lookup s k Hok) as Hl. split; [|done]. split; [|done|].
  - intros k v. rewrite Hl. unfold sw_view. destruct (sw_cache s !! k) as [w|]; [|apply Hok]. by destruct w; intros [= <-].
  - intros k v _ Hk. cbn in Hk. rewrite Hl. unfold sw_view. rewrite Hk. apply nonempty_id. by eapply Hc.
Qed.

Lemma reset_good (s : StorageWrapper bytes) : sw_good s -> sw_dirty s = ∅ ->
  sw_good (mkStorageWrapper ∅ (sw_db s) ∅) /\ forall k, sw_view (mkStorageWrapper ∅ (sw_db s) ∅) k = sw_view s k.
Proof.
  intros [Hok Hc] Hd. split; [split; [apply sw_ok_reset, Hok|done]|]. intros k. rewrite (sw_view_clean s) by done. done.
Qed.

Section chain_inv.
Context `{Crypto} (eligible : Z -> Address -> bool) (cfg0 : ChainConfig).
Context (HJ : forall v, jail_block_key v <> jailed_validators_key)
  (HP : forall a b, Stor_k_1 keccak256 [field_double_voting_proofs; a; b] <> jailed_validators_key).
Context (marked : bytes -> Prop).
Context (HJail : 0 <= JailTime (MagnoliaHf (Hardforks cfg0))).
Abbreviation J := (JailTime (MagnoliaHf (Hardforks cfg0))).

Record chain_inv (B0 N0 B1 : Z) (ch : Chain) : Prop := mkChainInv {
  ci_block : 0 <= block ch;
  ci_contract : inblock cfg0 marked B0 N0 B1 (contract ch);
  ci_dbs : forall n, entries_ok B0 N0 (fun k => dbs ch n !! k);
}.

Lemma inblock_mono B0 N0 B1 B0' N0' B1' c : B0 <= B0' -> N0 <= N0' -> B1 <= B1' -> inblock cfg0 marked B0 N0 B1 c -> inblock cfg0 marked B0' N0' B1' c.
Proof.
  intros ? ? ? [? ? ? ? ? ? ?]. constructor; [done|done|by eapply entries_mono|by eapply entries_mono|lia|eapply entries_mono; [..|done]; lia|done].
Qed.

Lemma chain_inv_mono B0 N0 B1 B0' N0' B1' ch : B0 <= B0' -> N0 <= N0' -> B1 <= B1' -> chain_inv B0 N0 B1 ch -> chain_inv B0' N0' B1' ch.
Proof. intros ? ? ? [? ? ?]. constructor; [done|by eapply inblock_mono|intros n; by eapply entries_mono]. Qed.

(** The end of a block never panics; the list is empty after it if all are to
    be released and the block has not written anything. *)
Lemma EndBlock_done B0 N0 B1 ch : 0 <= N0 -> N0 + 1 < 2 ^ 27 -> 1 <= B1 -> 0 <= B0 <= B1 -> B1 < 2 ^ 64 -> chain_inv B0 N0 B1 ch ->
  exists ch', run_chain_op eligible cfg0 OpEndBlock ch = Done () ch' /\ chain_inv B1 (N0 + 1) B1 ch' /\
    block ch' = block ch + 1 /\ sw_dirty (storage (contract ch')) = ∅ /\
    (B0 <= block ch + 1 -> sw_dirty (storage (contract ch)) = ∅ -> listed (fun k => dbs ch' (block ch') !! k) []).
Proof.
  intros HN0 HN HB1 HB0 HB64 [Hb Hc Hdbs]. set (n := block ch + 1).
  destruct (Cleanup_done HJ cfg0 marked B0 N0 B1 HN n _ Hc ltac:(lia)) as (c1 & E1 & Hc1 & Hlist).
  cbn [run_chain_op]. unfold run_chain_op. rewrite (bind_done get_st _ ch ch ch eq_refl).
  assert (in_contract (CleanupJailedValidators n) ch = Done () (mkChain c1 (block ch) (dbs ch))) as E1' by (unfold in_contract; by rewrite E1).
  rewrite (bind_done _ _ _ _ _ E1'). clear E1 E1'.
  set (s := flush (storage c1)). set (ch2 := mkChain (set_storage s c1) n (fun m => if m =? n then sw_db s else dbs ch m)).
  rewrite (bind_done next_block _ (mkChain c1 (block ch) (dbs ch)) () ch2 eq_refl), (bind_done get_st _ ch2 ch2 ch2 eq_refl).
  destruct Hc1 as [Hcfg Hsw Hdb Hr Hn Hv Hm]. pose proof (flush_good _ Hsw) as Hs. fold s in Hs.
  assert (forall k, sw_db s !! k = sw_view (storage c1) k) as Hsv by (intros k; apply flush_lookup, Hsw).
  assert (forall k, sw_view s k = sw_view (storage c1) k) as Hvv by (intros k; by rewrite sw_view_clean, Hsv by apply Hs || done).
  assert (entries_ok B1 (N0 + 1) (fun k => sw_db s !! k)) as Hdb2 by (by eapply entries_ext; [intros k; apply Hsv|]).
  assert (forall m, entries_ok B1 (N0 + 1) (fun k => dbs ch2 m !! k)) as Hdbs2.
  { intros m. cbn. destruct (m =? n); [done|]. eapply entries_mono; [..|apply Hdbs]; lia. }
  assert (chain_inv B1 (N0 + 1) B1 ch2) as H2.
  { constructor; [cbn; lia| |done]. constructor; [done|done|done|by eapply entries_mono; [..|exact Hr]; lia|cbn; lia| |intros k Hk; cbn; rewrite Hvv; by apply Hm].
    eapply entries_ext; [intros k; apply Hvv|]. eapply entries_mono; [..|exact Hv]; lia. }
  assert (B0 <= block ch + 1 -> sw_dirty (storage (contract ch)) = ∅ -> listed (fun k => dbs ch2 (block ch2) !! k) []) as Hl2.
  { intros HBn Hd. cbn. rewrite Z.eqb_refl. unfold listed in *. rewrite Hsv. destruct (Hlist HBn) as [[-> Hl]|Hl]; [|exact Hl].
    rewrite sw_view_clean by (apply Hsw || done). exact Hl. }
  unfold when. destruct (magnolia cfg0 (block ch2)) eqn:Em; [|exists ch2; by split_and!].
  destruct (reset_good s Hs eq_refl) as [Hs3 Hv3].
  exists (mkChain (set_storage (mkStorageWrapper ∅ (sw_db s) ∅) (set_reader (chain_reader eligible cfg0 (dbs ch2) n) (set_storage s c1))) n (dbs ch2)).
  split; [reflexivity|]. split_and!; [|done|done|exact Hl2]. destruct H2 as [Hb2 [? ? ? ? ? Hv2 Hm2] _].
  constructor; [done| |done]. constructor; [done|done|done|apply Hdbs2|done|eapply entries_ext; [intros k; apply Hv3|done]|].
  intros k Hk. cbn. rewrite Hv3. by apply Hm2.
Qed.

(** Blocks without proofs, when nobody is jailed beyond block [T]. *)
Lemma quiet_blocks T k : 1 <= T < 2 ^ 64 -> forall N ch, 0 <= N -> N + Z.of_nat k < 2 ^ 27 -> chain_inv T N T ch -> sw_dirty (storage (contract ch)) = ∅ ->
  exists ch', run_chain eligible cfg0 (replicate k OpEndBlock) ch = Done () ch' /\ block ch' = block ch + Z.of_nat k /\
    ((0 < k)%nat -> T <= block ch' -> listed (fun k => dbs ch' (block ch') !! k) []) /\ exists N', N' < 2 ^ 27 /\ chain_inv T N' T ch'.
Proof.
  intros HT. induction k as [|k IH]; intros N ch HN HNk Hch Hd.
  { exists ch. split_and!; [done|lia|lia|]. exists N. split; [lia|done]. }
  destruct (EndBlock_done T N T ch HN ltac:(lia) ltac:(lia) ltac:(lia) ltac:(lia) Hch) as (ch1 & E1 & H1 & Hb1 & Hd1 & Hl1).
  destruct (IH (N + 1) ch1 ltac:(lia) ltac:(lia) H1 Hd1) as (ch2 & E2 & Hb2 & Hl2 & Hch2). exists ch2. split_and!; [|lia| |done].
  - cbn [replicate run_chain]. by rewrite (bind_done _ _ _ _ _ E1).
  - intros _ HTb. destruct k as [|k]; [|apply Hl2; [lia|done]]. cbn in E2. injection E2 as <-. apply Hl1; [lia|done].
Qed.

(** Histories. *)
Definition reached (ch : Chain) : Prop := chain_inv (block ch + J) (block ch) (block ch + 1 + J) ch.

Lemma genesis_reached : (forall k, marked k -> False) -> reached (genesis eligible cfg0).
Proof.
  intros Hm. constructor; [done| |].
  - constructor; [done|split; [apply sw_ok_reset|]; (intros k v E; discriminate E)|..|by intros k ?%Hm].
    + eapply (entries_ext _ _ (fun _ => None)); [reflexivity|by apply entries_empty].
    + eapply (entries_ext _ _ (fun _ => None)); [reflexivity|by apply entries_empty].
    + cbn. lia.
    + eapply (entries_ext _ _ (fun _ => None)); [reflexivity|by apply entries_empty].
  - intros n. eapply (entries_ext _ _ (fun _ => None)); [reflexivity|by apply entries_empty].
Qed.

Lemma proof_reached n a b ch c' : reached ch -> n = block ch + 1 -> block ch + J < 2 ^ 26 ->
  match commitDoubleVotingProof n a b (contract ch) with Done _ c | Fail _ c => c = c' | Panic _ => False end ->
  reached (mkChain c' (block ch) (dbs ch)).
Proof.
  intros [Hb Hc Hdbs] -> Hn E.
  pose proof (keeps_commit HJ HP cfg0 marked (block ch + J) (block ch) (block ch + 1 + J) ltac:(lia) ltac:(lia) (block ch + 1) a b ltac:(lia) ltac:(lia) _ Hc) as Hk.
  destruct (commitDoubleVotingProof _ _ _ _); subst; [by constructor..|done].
Qed.

Lemma restart_reached ch : reached ch -> sw_dirty (storage (contract ch)) = ∅ ->
  reached (mkChain (Contract_Init cfg0 (mkStorageWrapper ∅ (sw_db (storage (contract ch))) ∅) (nonce (contract ch)) (chain_reader eligible cfg0 (dbs ch) (block ch))) (block ch) (dbs ch)).
Proof.
  intros [Hb [Hcfg Hsw Hdb Hr Hn Hv Hm] Hdbs] Hd. destruct (reset_good _ Hsw Hd) as [Hs Hvs]. constructor; [done| |done].
  constructor; [done|done|done|apply Hdbs|cbn; lia|by eapply entries_ext|]. intros k Hk. cbn. rewrite Hvs. by apply Hm.
Qed.

Lemma end_reached ch ch' : reached ch -> block ch + J < 2 ^ 26 -> run_chain_op eligible cfg0 OpEndBlock ch = Done () ch' -> reached ch' /\ block ch' = block ch + 1.
Proof.
  intros Hch Hn E. pose proof (ci_block _ _ _ _ Hch). destruct (EndBlock_done (block ch + J) (block ch) (block ch + 1 + J) ch ltac:(lia) ltac:(lia) ltac:(lia) ltac:(lia) ltac:(lia) Hch) as (ch1 & E1 & H1 & Hb1 & _).
  rewrite E in E1. injection E1 as <-. split; [|done]. unfold reached. eapply chain_inv_mono; [..|exact H1]; lia.
Qed.

Lemma op_reached o ch ch' : reached ch -> block ch + J < 2 ^ 26 -> run_chain_op eligible cfg0 o ch = Done () ch' -> reached ch' /\ block ch <= block ch'.
Proof.
  intros Hch Hn E. destruct o as [a b| |]; [|destruct (end_reached ch ch' Hch Hn E); split; [done|lia]|].
  - unfold run_chain_op in E. rewrite (bind_done get_st _ ch ch ch eq_refl) in E.
    destruct (magnolia _ _); cbn [when] in E; [|injection E as <-; split; [done|lia]]. apply bind_done_inv in E as (r & ch1 & E1 & E). injection E as <-.
    unfold in_contract, attempt in E1. pose proof (fun c' => proof_reached _ a b ch c' Hch eq_refl Hn) as Hp.
    destruct (commitDoubleVotingProof _ _ _ _); [injection E1 as _ <-..|done]; (split; [by apply Hp|cbn; lia]).
  - unfold run_chain_op in E. rewrite (bind_done get_st _ ch ch ch eq_refl) in E.
    case_bool_decide as Hd; cbn [when] in E; injection E as <-; [|split; [done|lia]]. split; [by apply restart_reached|cbn; lia].
Qed.

Lemma in_contract_block {A} (m : M Contract A) ch a ch' : in_contract m ch = Done a ch' -> block ch' = block ch.
Proof. unfold in_contract. destruct (m (contract ch)); [|done..]. by intros [= _ <-]. Qed.

Lemma op_block o ch ch' : run_chain_op eligible cfg0 o ch = Done () ch' -> block ch <= block ch'.
Proof.
  unfold run_chain_op. rewrite (bind_done get_st _ ch ch ch eq_refl). destruct o as [a b| |].
  - destruct (magnolia _ _); cbn [when]; [|intros [= <-]; lia]. intros E. apply bind_done_inv in E as (r & ch1 & E1 & E). injection E as <-.
    apply in_contract_block in E1. lia.
  - intros E. apply bind_done_inv in E as ([] & ch1 & E1 & E). apply in_contract_block in E1.
    apply bind_done_inv in E as ([] & ch2 & E2 & E). injection E2 as E2. apply (f_equal block) in E2. cbn in E2.
    rewrite (bind_done get_st _ ch2 ch2 ch2 eq_refl) in E. destruct (magnolia _ _); cbn [when] in E; [apply in_contract_block in E|injection E as <-]; lia.
  - destruct (bool_decide _); cbn [when]; intros [= <-]; cbn; lia.
Qed.

Lemma run_block os : forall ch ch', run_chain eligible cfg0 os ch = Done () ch' -> block ch <= block ch'.
Proof.
  induction os as [|o os IH]; intros ch ch' E; [injection E as <-; lia|].
  apply bind_done_inv in E as ([] & ch1 & E1 & E). apply op_block in E1. apply IH in E. lia.
Qed.

Lemma chain_reached os : forall ch ch', reached ch -> run_chain eligible cfg0 os ch = Done () ch' -> block ch' + J < 2 ^ 26 -> reached ch' /\ block ch <= block ch'.
Proof.
  induction os as [|o os IH]; intros ch ch' Hch E Hn; [injection E as <-; split; [done|lia]|].
  apply bind_done_inv in E as ([] & ch1 & E1 & E). pose proof (op_block _ _ _ E1) as Hb1.
  pose proof (run_block _ _ _ E) as Hb2.
  destruct (op_reached o ch ch1 Hch ltac:(lia) E1) as [H1 _]. destruct (IH ch1 ch' H1 E Hn). split; [done|lia].
Qed.
End chain_inv.

(** ** Evidence is used once *)
Section evidence.
Context `{Crypto}.

(** The steps before the first access of the state do not depend on it. *)
Definition same_result {A} (m : forall St, M St A) : Prop :=
  forall St St' (s s1 : St) (s' : St') a, m St s = Done a s1 -> s1 = s /\ m St' s' = Done a s'.

Lemma same_decode t b : same_result (fun St => MustDecodeBytes (St := St) t b).
Proof. intros St St' s s1 s' a. unfold MustDecodeBytes. destruct (DecodeBytes t b); [|done..]. by intros [= <- <-]. Qed.

Lemma same_encode t v : same_result (fun St => MustEncodeToBytes (St := St) t v).
Proof. intros St St' s s1 s' a. unfold MustEncodeToBytes. destruct (EncodeToBytes t v) as [|[|]]; [done| |done]. by intros [= <- <-]. Qed.

Lemma same_bind {A B} (m : forall St, M St A) (f : forall St, A -> M St B) : same_result m -> (forall a, same_result (fun St => f St a)) ->
  same_result (fun St => x ← m St; f St x).
Proof.
  intros Hm Hf St St' s s1 s' b E. apply bind_done_inv in E as (a & s2 & E1 & E2).
  destruct (Hm _ _ _ _ s' _ E1) as [-> E1']. destruct (Hf a _ _ _ _ s' _ E2) as [-> E2']. split; [done|]. by rewrite (bind_done _ _ _ _ _ E1').
Qed.

Lemma same_NewVote b : same_result (fun St => NewVote (St := St) b).
Proof.
  apply (same_bind (fun St => MustDecodeBytes Vote_typ b)); [apply same_decode|]. intros v.
  destruct v as [| | | |[|[] [|[] [|[] []]]]| |]; try by intros St St' s s1 s' a.
  apply (same_bind (fun St => MustDecodeBytes VrfPbftSortition_typ _)); [apply same_decode|]. intros v.
  repeat case_match; intros St St' s s1 s' a; unfold bad_shape, panic, ret; try done; by intros [= <- <-].
Qed.

Lemma same_GetHash v : same_result (fun St => GetHash (St := St) v).
Proof.
  apply (same_bind (fun St => MustEncodeToBytes VoteHashData_typ _)); [apply same_encode|]. intros rlp St St' s s1 s' a. unfold ret. by intros [= <- <-].
Qed.

Lemma same_genKey x y : same_result (fun St => genDoubleVotingProofDbKey (St := St) x y).
Proof.
  intros St St' s s1 s' a. unfold genDoubleVotingProofDbKey. destruct (bytes_Compare x y); [done|..]; unfold ret; by intros [= <- <-].
Qed.

Lemma bytes_Compare_antisym a : forall b, bytes_Compare b a = CompOpp (bytes_Compare a b).
Proof.
  induction a as [|x a IH]; intros [|y b]; [done..|]. cbn [bytes_Compare]. rewrite (Z.compare_antisym (Z_of_byte x) (Z_of_byte y)).
  destruct (Z_of_byte x ?= Z_of_byte y); cbn [CompOpp]; [apply IH|done..].
Qed.

Lemma genKey_comm {St} x y (s : St) : genDoubleVotingProofDbKey y x s = genDoubleVotingProofDbKey x y s.
Proof. unfold genDoubleVotingProofDbKey. rewrite (bytes_Compare_antisym x y). by destruct (bytes_Compare x y). Qed.

(** The evidence of a call: the key of its proof. *)
Definition evidence_key (a b pk : bytes) : Prop := exists vote_a vote_b hash_a hash_b,
  (forall St (s : St), NewVote a s = Done vote_a s /\ GetHash vote_a s = Done hash_a s) /\
  (forall St (s : St), NewVote b s = Done vote_b s /\ GetHash vote_b s = Done hash_b s) /\
  hash_a <> hash_b /\ forall St (s : St), genDoubleVotingProofDbKey hash_a hash_b s = Done pk s.

Lemma evidence_key_comm a b pk : evidence_key a b pk -> evidence_key b a pk.
Proof.
  intros (va & vb & ha & hb & Ha & Hb & Hne & Hk). exists vb, va, hb, ha. split_and!; [done|done|congruence|]. intros St s. by rewrite genKey_comm.
Qed.

Lemma saved_proof pk c c' : saveDoubleVotingProof pk c = Done () c' -> is_Some (sw_view (storage c') pk).
Proof.
  unfold saveDoubleVotingProof. rewrite (bind_done _ _ _ _ _ (encode_true c)). unfold zoom, SW_Put. cbn [lget storage_lens]. intros [= <-].
  unfold sw_view. cbn. rewrite lookup_insert_eq. by eexists.
Qed.

Lemma commit_done_inv n a b c c' : commitDoubleVotingProof n a b c = Done () c' -> exists pk, evidence_key a b pk /\ is_Some (sw_view (storage c') pk).
Proof.
  intros E. unfold commitDoubleVotingProof in E.
  apply bind_done_inv in E as (va & c1 & E1 & E). apply bind_done_inv in E as (ha & c2 & E2 & E).
  apply bind_done_inv in E as (vb & c3 & E3 & E). apply bind_done_inv in E as (hb & c4 & E4 & E).
  case_bool_decide as Hne; [done|]. apply bind_done_inv in E as (pk & c5 & E5 & E). exists pk. split.
  - exists va, vb, ha, hb. split_and!; [|intros St s; split|done|]; [intros St s; split| | |].
    + by eapply (same_NewVote a).
    + by eapply (same_GetHash va).
    + by eapply (same_NewVote b).
    + by eapply (same_GetHash vb).
    + intros St s. by eapply (same_genKey ha hb).
  - apply bind_done_inv in E as (e & c6 & _ & E). destruct e; [done|].
    do 3 (match type of E with (if ?x then _ else _) _ = _ => destruct x; [done|] end).
    destruct (validateVoteSig ha _) as [|w]; [done|]. destruct (validateVoteSig hb _) as [|w']; [done|].
    destruct (negb (bool_decide (w = w'))); [done|]. apply bind_done_inv in E as (c7 & c8 & _ & E). destruct (negb _); [done|].
    apply bind_done_inv in E as (jb & c9 & _ & E). apply bind_done_inv in E as ([] & c10 & E10 & E). injection E as <-. cbn. by eapply saved_proof.
Qed.

Lemma commit_known n a b pk c : evidence_key a b pk -> sw_good (storage c) -> is_Some (sw_view (storage c) pk) ->
  exists c', commitDoubleVotingProof n a b c = Fail ErrExistingDoubleVotingProof c'.
Proof.
  intros (va & vb & ha & hb & Ha & Hb & Hne & Hk) Hs [v Hv]. unfold commitDoubleVotingProof.
  destruct (Ha _ c) as [Ea Eha]. destruct (Hb _ c) as [Eb Ehb].
  rewrite (bind_done _ _ _ _ _ Ea), (bind_done _ _ _ _ _ Eha), (bind_done _ _ _ _ _ Eb), (bind_done _ _ _ _ _ Ehb), bool_decide_false by done.
  rewrite (bind_done _ _ _ _ _ (Hk _ c)). destruct (sw_get pk _ Hs) as (s' & E & _). rewrite Hv in E.
  assert (doubleVotingProoExists pk c = Done true (set_storage s' c)) as Ee.
  { unfold doubleVotingProoExists. by rewrite (bind_done _ _ _ _ _ (zoom_done _ _ _ _ E)). }
  rewrite (bind_done _ _ _ _ _ Ee). by eexists.
Qed.
End evidence.

(** ** The properties *)

(** The list is stored under a key that is not a hash: no entry of the jail
    and no proof is stored there. *)
Class ListKeyFree `{Crypto} : Prop := {
  jail_key_free v : jail_block_key v <> jailed_validators_key;
  proof_key_free a b : Stor_k_1 keccak256 [field_double_voting_proofs; a; b] <> jailed_validators_key;
}.

Section properties.
Context `{Crypto} `{!ListKeyFree} (eligible : Z -> Address -> bool) (cfg0 : ChainConfig).
Abbreviation jail_time := (JailTime (MagnoliaHf (Hardforks cfg0))).
Abbreviation run := (run_chain eligible cfg0).

(** C32: The jail ends: after any history of proofs, ends of blocks and
    restarts, [JailTime] blocks without a proof that follow the current one
    run without a panic, and after them no validator is listed as jailed. *)
Theorem jail_ends os ch : 1 <= jail_time -> run os (genesis eligible cfg0) = Done () ch -> block ch + jail_time < 2 ^ 26 ->
  exists ch', run (replicate (S (Z.to_nat jail_time)) OpEndBlock) ch = Done () ch' /\ block ch' = block ch + 1 + jail_time /\
    forall e, GetJailedValidators (mkReader cfg0 (fun k => dbs ch' (block ch') !! k) e) tt = Done [] tt.
Proof.
  intros HJ E Hn.
  assert (reached cfg0 (fun _ => False) ch) as Hr.
  { eapply (chain_reached eligible cfg0 jail_key_free proof_key_free _ ltac:(lia) os); [by apply genesis_reached; [lia|]|exact E|done]. }
  pose proof (ci_block _ _ _ _ _ _ Hr) as Hb.
  destruct (EndBlock_done eligible cfg0 jail_key_free _ (block ch + jail_time) (block ch) (block ch + 1 + jail_time) ch
    ltac:(lia) ltac:(lia) ltac:(lia) ltac:(lia) ltac:(lia) Hr) as (ch1 & E1 & H1 & Hb1 & Hd1 & _).
  destruct (quiet_blocks eligible cfg0 jail_key_free _ (block ch + 1 + jail_time) (Z.to_nat jail_time) ltac:(lia) (block ch + 1) ch1 ltac:(lia) ltac:(lia) H1 Hd1)
    as (ch2 & E2 & Hb2 & Hl & N' & HN' & H2).
  exists ch2. split_and!; [|lia|].
  - cbn [replicate run_chain]. by rewrite (bind_done _ _ _ _ _ E1).
  - intros e. apply read_list; [apply Hl; lia|done].
Qed.

(** C33: Evidence is used once: when a proof is accepted, the two votes, in
    either order, are refused as an existing proof in every later state, over
    any proofs, ends of blocks and restarts. *)
Theorem punished_once os os' vote_a vote_b ch c ch' : 0 <= jail_time ->
  run os (genesis eligible cfg0) = Done () ch ->
  commitDoubleVotingProof (block ch + 1) vote_a vote_b (contract ch) = Done () c ->
  run os' (mkChain c (block ch) (dbs ch)) = Done () ch' -> block ch' + jail_time < 2 ^ 26 ->
  forall n, (exists s, commitDoubleVotingProof n vote_a vote_b (contract ch') = Fail ErrExistingDoubleVotingProof s) /\
    exists s, commitDoubleVotingProof n vote_b vote_a (contract ch') = Fail ErrExistingDoubleVotingProof s.
Proof.
  intros HJ E Ec E' Hn n. destruct (commit_done_inv _ _ _ _ _ Ec) as (pk & Hpk & Hsome).
  pose proof (run_block eligible cfg0 os' _ _ E') as Hb. cbn in Hb.
  assert (reached cfg0 (fun _ => False) ch) as Hr.
  { eapply (chain_reached eligible cfg0 jail_key_free proof_key_free _ HJ os); [by apply genesis_reached|exact E|lia]. }
  assert (reached cfg0 (fun k => k = pk) (mkChain c (block ch) (dbs ch))) as Hr1.
  { pose proof (proof_reached cfg0 jail_key_free proof_key_free _ HJ _ vote_a vote_b ch c Hr eq_refl ltac:(lia)) as Hr1. rewrite Ec in Hr1.
    destruct (Hr1 eq_refl) as [Hb1 [? ? ? ? ? ? _] Hdbs]. constructor; [done| |done]. constructor; [done..|]. by intros k ->. }
  destruct (chain_reached eligible cfg0 jail_key_free proof_key_free _ HJ os' _ _ Hr1 E' Hn) as [[_ [_ Hs _ _ _ _ Hm] _] _].
  pose proof (Hm pk eq_refl). split; (eapply commit_known; [|done..]); [exact Hpk|by apply evidence_key_comm].
Qed.
End properties.
