(* ===== verification/SlashingExample.v ===== *)
(** * The slashing contract on concrete chains

    Witnesses over the toy hash, and what evaluating the contract shows. *)
From S2P Require Import Prelude Bytes Rlp RlpDecode Crypto ChainConfig Storage IterableMap Slashing SlashingProps.

#[local] Existing Instance toy_crypto.
#[local] Existing Instance toy_crypto_laws.

(** The last byte of the key of the list is not that of a short text, and its
    first is not that of a proof. *)
#[local] Instance toy_list_key : ListKeyFree.
Proof.
  assert (forall (l : bytes) (n x : nat), length l = n -> (x < 32 - n)%nat -> take 32 (l ++ replicate 32 Byte.x00) !! (n + x)%nat = Some Byte.x00) as Hz.
  { intros l n x <- Hx. rewrite lookup_take_lt, lookup_app_r by lia. apply lookup_replicate_2. lia. }
  split.
  - intros v E. pose proof (f_equal (fun l => l !! 31%nat) E) as E1. unfold jail_block_key, Stor_k_1 in E1. cbn [keccak256 toy_crypto] in E1.
    rewrite (Hz _ 21%nat 10%nat) in E1; [discriminate E1| |lia]. unfold field_validators_jail_block. cbn. by rewrite length_app, addr_length.
  - intros a b E. pose proof (f_equal (fun l => l !! 0%nat) E) as E1. discriminate E1.
Qed.

(** ** A chain *)
Definition slash_cfg (delay jail : Z) : ChainConfig := mkChainConfig []
  (mkDPOSConfig 1000 100 5000 10 5 40 0 0 delay 10 1 20 [])
  (mkHardforks 1 [] ∅ (mkMagnoliaHf 0 jail) 0 0 (mkAspenHf 0 0 220000 0) (mkFicusHf 0 0 ZeroAddress)
     (mkCornusHf 4 20 0 0) (mkSoleiroliaHf 0 0 0)).

(** A vote of a validator for a block; the toy recovery reads the signer off
    the signature. *)
Definition vote_of (v : Address) (period : Z) (blk : Byte.byte) : bytes :=
  let bytes_of r := match r with inr (Some b) => b | _ => [] end in
  let vrf := bytes_of (EncodeToBytes VrfPbftSortition_typ (VList [VUint period; VUint 1; VUint 3; VBytes (replicate 80 Byte.x07)])) in
  bytes_of (EncodeToBytes Vote_typ (VList [VBytes (blk :: replicate 31 Byte.x00); VBytes vrf; VBytes (addr_bytes v ++ replicate 45 Byte.x00)])).

Definition validator_a : Address := addr_of_Z 1001.
Definition validator_b : Address := addr_of_Z 1002.
Definition validator_c : Address := addr_of_Z 1003.
Definition everyone : Z -> Address -> bool := fun _ _ => true.

(** Different validators need different blocks, for the toy hash. *)
Definition punish (v : Address) (blk : Byte.byte) : chain_op := OpProof (vote_of v 1 blk) (vote_of v 1 Byte.xff).

Definition chain_of (cfg : ChainConfig) (os : list chain_op) : option Chain :=
  match run_chain everyone cfg os (genesis everyone cfg) with Done _ ch => Some ch | _ => None end.

(** The list as the database has it. *)
Definition jailed_in (cfg : ChainConfig) (ch : Chain) : list Address :=
  match GetJailedValidators (mkReader cfg (fun k => dbs ch (block ch) !! k) None) tt with Done l _ => l | _ => [] end.

Definition after_ops (cfg : ChainConfig) (os : list chain_op) : option (Z * list Address) :=
  (fun ch => (block ch, jailed_in cfg ch)) <$> chain_of cfg os.

(** ** Witnesses *)
Definition holds_after {St} (m : M St ()) (s : St) (f : St -> bool) : bool := match m s with Done _ s' => f s' | _ => false end.

Lemma holds_after_done {St} (m : M St ()) s f : holds_after m s f = true -> exists s', m s = Done () s' /\ f s' = true.
Proof. unfold holds_after. destruct (m s) as [[] s'| |]; [by eexists|done..]. Qed.

(** Two offenders in different blocks and a restart between them. *)
Definition history : list chain_op :=
  [punish validator_a Byte.x01; OpEndBlock; OpEndBlock; OpRestart; OpEndBlock; punish validator_b Byte.x02].

Lemma history_runs : holds_after (run_chain everyone (slash_cfg 1 6) history) (genesis everyone (slash_cfg 1 6)) (fun ch => block ch =? 3) = true.
Proof. vm_compute. reflexivity. Qed.

Lemma jail_ends_witness : exists ch ch', run_chain everyone (slash_cfg 1 6) history (genesis everyone (slash_cfg 1 6)) = Done () ch /\
  run_chain everyone (slash_cfg 1 6) (replicate 7 OpEndBlock) ch = Done () ch' /\ block ch' = 10.
Proof.
  destruct (holds_after_done _ _ _ history_runs) as (ch & E & Hb). apply Z.eqb_eq in Hb.
  destruct (jail_ends everyone (slash_cfg 1 6) history ch) as (ch' & E' & Hb' & _); [discriminate|exact E|rewrite Hb; reflexivity|].
  exists ch, ch'. split; [exact E|]. split; [exact E'|]. rewrite Hb', Hb. reflexivity.
Defined.

Definition clean_history : list chain_op := [OpEndBlock].
Definition vote_1 : bytes := vote_of validator_a 1 Byte.x01.
Definition vote_2 : bytes := vote_of validator_a 1 Byte.xff.

Lemma proof_accepted : holds_after (run_chain everyone (slash_cfg 1 6) clean_history) (genesis everyone (slash_cfg 1 6))
  (fun ch => match commitDoubleVotingProof (block ch + 1) vote_1 vote_2 (contract ch) with Done _ c =>
     holds_after (run_chain everyone (slash_cfg 1 6) history) (mkChain c (block ch) (dbs ch)) (fun ch' => block ch' =? 4) | _ => false end) = true.
Proof. vm_compute. reflexivity. Qed.

Lemma punished_once_witness : exists ch c ch' s,
  run_chain everyone (slash_cfg 1 6) clean_history (genesis everyone (slash_cfg 1 6)) = Done () ch /\ commitDoubleVotingProof (block ch + 1) vote_1 vote_2 (contract ch) = Done () c /\
  run_chain everyone (slash_cfg 1 6) history (mkChain c (block ch) (dbs ch)) = Done () ch' /\
  commitDoubleVotingProof 9 vote_2 vote_1 (contract ch') = Fail ErrExistingDoubleVotingProof s.
Proof.
  destruct (holds_after_done _ _ _ proof_accepted) as (ch & E & Hf). destruct (commitDoubleVotingProof (block ch + 1) vote_1 vote_2 (contract ch)) as [[] c| |] eqn:Ec; [|discriminate..].
  destruct (holds_after_done _ _ _ Hf) as (ch' & E' & Hb). apply Z.eqb_eq in Hb.
  destruct (punished_once everyone (slash_cfg 1 6) clean_history history vote_1 vote_2 ch c ch') with (n := 9) as [_ [s Es]];
    [discriminate|exact E|exact Ec|exact E'|rewrite Hb; reflexivity|].
  exists ch, c, ch', s. split; [exact E|]. split; [exact Ec|]. split; [exact E'|exact Es].
Defined.

(** ** What the list of jailed validators misses *)

(** [addToJailedValidators] extends the list of the delayed reader: of two
    offenders within the delay the first is not in the list. *)
Lemma jailed_within_delay_lost : after_ops (slash_cfg 5 60) [punish validator_a Byte.x01; punish validator_b Byte.x02; OpEndBlock] = Some (1, [validator_b]).
Proof. vm_compute. reflexivity. Qed.

(** [CleanupJailedValidators] reads the list of the previous block and writes
    it back: the offender of the current block is not in the list, although
    the delay has passed since the one before. *)
Lemma cleanup_drops_offender : after_ops (slash_cfg 1 60) [punish validator_a Byte.x01; OpEndBlock; OpEndBlock; OpRestart; punish validator_b Byte.x02; OpEndBlock] = Some (3, [validator_a]).
Proof. vm_compute. reflexivity. Qed.

(** A node that was not restarted keeps [nextCleanUpBlock], skips the cleanup
    and has another state after the same block. *)
Lemma restart_changes_state : after_ops (slash_cfg 1 60) [punish validator_a Byte.x01; OpEndBlock; OpEndBlock; punish validator_b Byte.x02; OpEndBlock] = Some (3, [validator_a; validator_b]).
Proof. vm_compute. reflexivity. Qed.

(** In the last block of the jail the validator is jailed but not listed. *)
Lemma last_block_not_listed :
  let os := punish validator_a Byte.x01 :: replicate 7 OpEndBlock in
  let jailed ch := match IsJailed (mkReader (slash_cfg 1 6) (fun k => dbs ch (block ch) !! k) None) (block ch) validator_a tt with Done b _ => b | _ => false end in
  after_ops (slash_cfg 1 6) (take 7 os) = Some (6, [validator_a]) /\
  after_ops (slash_cfg 1 6) (take 8 os) = Some (7, []) /\ jailed <$> chain_of (slash_cfg 1 6) (take 8 os) = Some true.
Proof. vm_compute. repeat split. Qed.

(** A proof whose votes do not decode panics instead of returning an error. *)
Lemma malformed_vote_panics : forall c, exists msg, Run 1 (InCall M_commitDoubleVotingProof (inr ([], []))) c = Panic msg.
Proof. intros c. eexists. vm_compute. reflexivity. Qed.
