(* ===== verification/StateTrack.v ===== *)
(** * What a transaction does to the accounts

    [tracked s0 s]: the state [s] is reached within the transaction that
    starts in [s0].  The accounts that changed are listed once in the current
    version, their counters agree with the journal, an account that was there
    stays, with the storage it had, and the flags that decide how it is
    committed are kept.  Every journalled operation keeps it. *)
From S2P Require Import Prelude Bytes Crypto Uint256 EvmWord EvmBase StateEvm StateRevert EvmFrame StateKeeps.
Local Open Scope Z_scope.

(** ** Entries of the journal *)
Definition rev_addr (r : Revert) : option Address :=
  match r with
  | RevStorage addr _ _ | RevTouch addr | RevBalance addr _ | RevNonce addr _ | RevCode addr | RevSuicide addr _ _ | RevExists addr _ => Some addr
  | RevLogs _ | RevRefund _ => None
  end.
Definition is_touch (r : Revert) : bool := match r with RevTouch _ => true | _ => false end.
Definition is_exists (r : Revert) : bool := match r with RevExists _ _ => true | _ => false end.

Definition entries (addr : Address) (rs : list Revert) : list Revert := filter (fun r => rev_addr r = Some addr) rs.
Definition touches (addr : Address) (rs : list Revert) : list Revert := filter is_touch (entries addr rs).

Lemma entries_cons addr r rs : entries addr (r :: rs) = if decide (rev_addr r = Some addr) then r :: entries addr rs else entries addr rs.
Proof. unfold entries. rewrite filter_cons. by case_decide. Qed.

Lemma entries_other addr addr' r rs : rev_addr r = Some addr -> addr' <> addr -> entries addr' (r :: rs) = entries addr' rs.
Proof. intros E Hne. rewrite entries_cons, decide_False; [done|]. rewrite E. by intros [= ->]. Qed.

Lemma entries_none addr r rs : rev_addr r = None -> entries addr (r :: rs) = entries addr rs.
Proof. intros E. by rewrite entries_cons, E, decide_False. Qed.

(** ** Bodies *)
Definition fresh_body : AccountBody := body_of (mkDbAccount 0 0 None None 0).

(** What stays of a body. *)
Record body_step (i : StateInput) (addr : Address) (b b' : AccountBody) : Prop := mkBodyStep {
  bt_sink : sink b' = sink b;
  bt_root : StorageRootHash (b_acc b') = StorageRootHash (b_acc b);
  bt_raw : ~ has_raw addr -> RawStorageDirty b' = RawStorageDirty b;
  bt_written : RawStorageDirty b' = ∅ -> RawStorageDirty b = ∅;
  bt_committed key : committed_of i addr b' key = committed_of i addr b key;
  bt_dirty key : is_Some (StorageDirty b !! key) -> is_Some (StorageDirty b' !! key);
}.

#[export] Instance body_step_preorder i addr : PreOrder (body_step i addr).
Proof.
  split; [by split|]. intros b b' b'' [] []. split; try congruence; auto. intros Hr. by rewrite bt_raw1, bt_raw0.
Qed.

(** Code that is there has a hash, code that is not has none. *)
Record body_wf (b : AccountBody) : Prop := mkBodyWf {
  wf_hash : acc_CodeSize (b_acc b) = 0 -> acc_CodeHash (b_acc b) = None;
  wf_code : CodeDirty b = true -> is_Some (acc_CodeHash (b_acc b));
}.

Lemma fresh_wf : body_wf fresh_body.
Proof. by split. Qed.

(** A raw write is counted but not recorded. *)
Definition counts (addr : Address) (rs : list Revert) (b : AccountBody) : Prop :=
  addr <> ripemd_addr -> RawStorageDirty b = ∅ -> u32 (mod_count b) = u32 (Z.of_nat (length (entries addr rs))) /\
                         u32 (times_touched b) = u32 (Z.of_nat (length (touches addr rs))).

(** ** The invariant of a transaction *)
Record tracked (s0 s : TransitionState) : Prop := mkTracked {
  tk_in : ts_in s = ts_in s0;
  tk_dirties : dirties s = dirties s0;
  tk_nodup : NoDup (accounts_in_curr_ver s);
  tk_curr addr : addr ∈ accounts_in_curr_ver s <-> in_curr_version (load s addr) = true;
  tk_other addr : addr ∉ accounts_in_curr_ver s -> accounts s !! addr = accounts s0 !! addr;
  tk_flags addr : in_dirties (load s addr) = in_dirties (load s0 addr) /\ loaded_from_db (load s addr) = loaded_from_db (load s0 addr);
  tk_deleted addr : deleted (load s addr) = bool_decide (body (load s addr) = None) && in_dirties (load s addr);
  tk_body addr : match body (load s addr) with
                 | Some b => body_step (ts_in s0) addr (default fresh_body (body (load s0 addr))) b /\ body_wf b /\ counts addr (ts_reverts s) b
                 | None => body (load s0 addr) = None /\ entries addr (ts_reverts s) = []
                 end;
  tk_exists l1 addr d l2 : ts_reverts s = l1 ++ RevExists addr d :: l2 ->
    body (load s0 addr) = None /\ d = in_dirties (load s0 addr) /\ entries addr l2 = [];
  tk_listed addr : entries addr (ts_reverts s) <> [] -> addr ∈ accounts_in_curr_ver s;
}.

(** Writing the entry of an account of the current version. *)
Lemma tracked_write s0 s s' addr a rs :
  tracked s0 s -> addr ∈ accounts_in_curr_ver s ->
  ts_in s' = ts_in s -> dirties s' = dirties s -> accounts_in_curr_ver s' = accounts_in_curr_ver s ->
  accounts s' = <[addr := a]> (accounts s) -> ts_reverts s' = rs ->
  in_curr_version a = true -> in_dirties a = in_dirties (load s addr) -> loaded_from_db a = loaded_from_db (load s addr) ->
  deleted a = bool_decide (body a = None) && in_dirties a ->
  match body a with
  | Some b => body_step (ts_in s0) addr (default fresh_body (body (load s0 addr))) b /\ body_wf b /\ counts addr rs b
  | None => body (load s0 addr) = None /\ entries addr rs = []
  end ->
  (forall addr', addr' <> addr -> entries addr' rs = entries addr' (ts_reverts s)) ->
  (forall l1 addr' d l2, rs = l1 ++ RevExists addr' d :: l2 -> body (load s0 addr') = None /\ d = in_dirties (load s0 addr') /\ entries addr' l2 = []) ->
  tracked s0 s'.
Proof.
  intros [] Haddr Ein Ed Ec Ea Er Hcurr Hd Hl Hdel Hbody Hent Hex.
  assert (forall addr', load s' addr' = if decide (addr = addr') then a else load s addr') as Hload.
  { intros addr'. unfold load. rewrite Ea, Ein. destruct (decide (addr = addr')) as [<-|Hne]; [by rewrite lookup_insert_eq|by rewrite lookup_insert_ne]. }
  split; rewrite ?Ein, ?Ed, ?Ec, ?Er; try done; intros addr'; rewrite ?Hload; try (destruct (decide (addr = addr')) as [<-|Hne]).
  - by rewrite Hcurr.
  - apply tk_curr0.
  - done.
  - intros ?. rewrite Ea, lookup_insert_ne by done. by apply tk_other0.
  - rewrite Hd, Hl. apply tk_flags0.
  - apply tk_flags0.
  - done.
  - apply tk_deleted0.
  - done.
  - specialize (tk_body0 addr'). unfold counts, touches in *. rewrite Hent by done. exact tk_body0.
  - done.
  - intros Hx. apply tk_listed0. by rewrite <- Hent.
Qed.

Lemma tracked_GetAccount s0 s addr : tracked s0 s ->
  exists s', GetAccountConcrete addr s = Done (load s' addr) s' /\ tracked s0 s' /\ addr ∈ accounts_in_curr_ver s' /\
    ts_reverts s' = ts_reverts s /\ body (load s' addr) = body (load s addr) /\ deleted (load s' addr) = deleted (load s addr).
Proof.
  intros Ht. unfold GetAccountConcrete. destruct (in_curr_version (load s addr)) eqn:E.
  - exists s. split_and!; try done. by apply (tk_curr _ _ Ht).
  - set (s1 := set_curr_ver (accounts_in_curr_ver s ++ [addr]) (set_accounts (<[addr:=set_in_curr true (load s addr)]> (accounts s)) s)).
    assert (forall addr', load s1 addr' = if decide (addr = addr') then set_in_curr true (load s addr) else load s addr') as Hload by (intros; apply load_insert).
    exists s1. rewrite Hload, decide_True by done. split_and!; try done; [|apply elem_of_app; right; by apply list_elem_of_singleton].
    assert (addr ∉ accounts_in_curr_ver s) as Hn by (rewrite (tk_curr _ _ Ht), E; done).
    destruct Ht. split; try done.
    + simpl. apply NoDup_app. split_and!; [done| |apply NoDup_singleton]. by intros x Hx ->%list_elem_of_singleton.
    + intros addr'. rewrite Hload. simpl. rewrite elem_of_app, list_elem_of_singleton. destruct (decide (addr = addr')) as [<-|Hne]; [by split; auto|].
      rewrite tk_curr0. split; [by intros [?|?]; congruence|by left].
    + intros addr'. simpl. intros Hx. rewrite elem_of_app, list_elem_of_singleton in Hx. rewrite lookup_insert_ne by (intros <-; apply Hx; by right). apply tk_other0. intros ?. apply Hx. by left.
    + intros addr'. rewrite Hload. case_decide as Ex; [subst|]; apply tk_flags0.
    + intros addr'. rewrite Hload. case_decide as Ex; [subst|]; apply tk_deleted0.
    + intros addr'. rewrite Hload. case_decide as Ex; [subst|]; apply tk_body0.
    + intros addr' Hx. simpl. apply elem_of_app. left. by apply tk_listed0.
Qed.

(** ** Operations *)
Definition tracks (s s' : TransitionState) : Prop := forall s0, tracked s0 s -> tracked s0 s'.

#[export] Instance tracks_preorder : PreOrder tracks.
Proof. split; [by intros s s0|]. intros s1 s2 s3 H1 H2 s0 Ht. auto. Qed.

Lemma tracks_GetAccount addr : within True tracks (GetAccountConcrete addr).
Proof.
  intros s. apply post_run; [|done]. intros a s' E s0 Ht.
  destruct (tracked_GetAccount s0 s addr Ht) as (s1 & E1 & H1 & _). congruence.
Qed.

(** What does not concern accounts. *)
Lemma tracked_ignores s0 s s' : tracked s0 s -> ts_in s' = ts_in s -> dirties s' = dirties s ->
  accounts_in_curr_ver s' = accounts_in_curr_ver s -> accounts s' = accounts s -> 
  (ts_reverts s' = ts_reverts s \/ exists r, rev_addr r = None /\ (ts_reverts s' = r :: ts_reverts s \/ ts_reverts s = r :: ts_reverts s')) ->
  tracked s0 s'.
Proof.
  intros [] Ein Ed Ec Ea Er.
  assert (forall addr, load s' addr = load s addr) as Hload by (intros; unfold load; by rewrite Ea, Ein).
  assert (forall addr, entries addr (ts_reverts s') = entries addr (ts_reverts s)) as Hent.
  { intros addr. destruct Er as [->|(r & Hr & [->| ->])]; [done|by rewrite entries_none|by rewrite entries_none]. }
  split; rewrite ?Ein, ?Ed, ?Ec; try done; intros addr; rewrite ?Hload, ?Ea, ?Hent; auto.
  - specialize (tk_body0 addr). unfold counts, touches in *. by rewrite Hent.
  - intros addr' d l2 E. destruct Er as [Er|(r & Hr & [Er|Er])]; rewrite Er in *; [by eapply tk_exists0| |].
    + destruct addr as [|r' l1]; injection E as -> E; [done|]. by eapply tk_exists0.
    + apply (tk_exists0 (r :: addr)). simpl. by rewrite E.
Qed.

(** A body that is changed at the address of an account that was got. *)
Lemma tracked_update s0 s addr f b : tracked s0 s -> body (load s addr) = Some b ->
  body_step (ts_in s0) addr b (f b) -> (body_wf b -> body_wf (f b)) ->
  (addr <> ripemd_addr -> RawStorageDirty (f b) = ∅ -> mod_count (f b) = mod_count b /\ times_touched (f b) = times_touched b) ->
  exists s', update_body addr f s = Done tt s' /\ tracked s0 s' /\ body (load s' addr) = Some (f b) /\ ts_reverts s' = ts_reverts s.
Proof.
  intros Ht Hb Hstep Hwf Hcnt. destruct (tracked_GetAccount s0 s addr Ht) as (s1 & E1 & H1 & Hin & Er & Eb & Ed).
  unfold update_body. rewrite (bind_done _ _ _ _ _ E1), Eb, Hb. eexists. split; [reflexivity|]. split; [|split; [by rewrite load_insert, decide_True|done]].
  pose proof (tk_body _ _ H1 addr) as Hb1. rewrite Eb, Hb in Hb1. destruct Hb1 as (Hs & Hw & Hc).
  eapply (tracked_write s0 s1 _ addr _ (ts_reverts s1)); simpl; try done.
  - by apply (tk_curr _ _ H1).
  - change (deleted (load s1 addr) = bool_decide (Some (f b) = None) && in_dirties (load s1 addr)). by rewrite (tk_deleted _ _ H1), Eb, Hb.
  - change (body_step (ts_in s0) addr (default fresh_body (body (load s0 addr))) (f b) /\ body_wf (f b) /\ counts addr (ts_reverts s1) (f b)). split_and!; [by transitivity b|by apply Hwf|]. intros Hr Hraw. destruct (Hcnt Hr Hraw) as [-> ->]. apply Hc; [done|]. by apply (bt_written _ _ _ _ Hstep).
  - apply (tk_exists _ _ H1).
Qed.

Lemma tracks_update addr f :
  (forall i b, body_step i addr b (f b) /\ (body_wf b -> body_wf (f b)) /\ mod_count (f b) = mod_count b /\ times_touched (f b) = times_touched b) ->
  within True tracks (update_body addr f).
Proof.
  intros Hf s. apply post_run; [|done]. intros a s' E s0 Ht. destruct (body (load s addr)) as [b|] eqn:Hb; [|by apply update_body_nil in E].
  destruct (Hf (ts_in s0) b) as (H1 & H2 & H3 & H4). destruct (tracked_update s0 s addr f b) as (s1 & E1 & Ht1 & _); [done..|]. congruence.
Qed.

(** Changing a body, counting the change and recording it. *)
Lemma tracked_record s0 s addr f r b : tracked s0 s -> body (load s addr) = Some b -> rev_addr r = Some addr -> is_exists r = false ->
  body_step (ts_in s0) addr b (f b) -> (body_wf b -> body_wf (f b)) ->
  (addr <> ripemd_addr -> u32 (mod_count (f b)) = u32 (mod_count b + 1) /\ u32 (times_touched (f b)) = u32 (times_touched b + (if is_touch r then 1 else 0))) ->
  exists s', (_ ← update_body addr f; RegisterChange r) s = Done tt s' /\ tracked s0 s' /\ body (load s' addr) = Some (f b).
Proof.
  intros Ht Hb Hr Hx Hstep Hwf Hcnt. destruct (tracked_GetAccount s0 s addr Ht) as (s1 & E1 & H1 & Hin & Er & Eb & Ed).
  unfold update_body. unfold bindM at 1 2. rewrite E1, Eb, Hb. eexists. split; [reflexivity|]. split; [|by unfold set_reverts, load; simpl; rewrite lookup_insert_eq].
  pose proof (tk_body _ _ H1 addr) as Hb1. rewrite Eb, Hb in Hb1. destruct Hb1 as (Hs & Hw & Hc).
  eapply (tracked_write s0 s1 _ addr _ (r :: ts_reverts s1)); simpl; try done.
  - by apply (tk_curr _ _ H1).
  - change (deleted (load s1 addr) = bool_decide (Some (f b) = None) && in_dirties (load s1 addr)). by rewrite (tk_deleted _ _ H1), Eb, Hb.
  - change (body_step (ts_in s0) addr (default fresh_body (body (load s0 addr))) (f b) /\ body_wf (f b) /\ counts addr (r :: ts_reverts s1) (f b)).
    split_and!; [by transitivity b|by apply Hwf|]. intros Hne Hraw. destruct (Hcnt Hne) as [-> ->]. destruct (Hc Hne (bt_written _ _ _ _ Hstep Hraw)) as [Hm Hto].
    unfold touches. rewrite entries_cons, decide_True by done. cbn [length]. split.
    + rewrite <- u32_add, Hm, u32_add. f_equal. lia.
    + rewrite <- u32_add, Hto, u32_add. unfold touches. rewrite filter_cons. destruct (is_touch r); simpl; f_equal; lia.
  - intros addr' Hne. by apply (entries_other addr).
  - intros [|r' l1] addr' d l2 E; injection E as -> E; [done|]. by apply (tk_exists _ _ H1 l1).
Qed.

Lemma tracks_register addr r : rev_addr r = Some addr -> is_exists r = false -> is_touch r = false -> within True tracks (register_change addr (Some r)).
Proof.
  intros Hr Hx Hto s. apply post_run; [|done]. intros [] s' E s0 Ht. unfold register_change in E. destruct (body (load s addr)) as [b|] eqn:Hb.
  - destruct (tracked_record s0 s addr tick r b) as (s1 & E1 & H1 & _); [done|done|done|done|by split|by intros []; split|..].
    + intros _. rewrite Hto, Z.add_0_r. split; [apply u32_u32|done].
    + unfold tick in E1. congruence.
  - exfalso. by eapply (register_change_nil addr (Some r)).
Qed.

(** Reading a slot caches it. *)
Lemma tracks_committed addr key : within True tracks (get_committed_state addr key).
Proof.
  unfold get_committed_state, get_body. intros s. apply post_bind, post_bind.
  apply post_run; [|done]. intros a s1 E1. apply post_ret. pose proof (post_done True _ s _ a s1 (tracks_GetAccount addr s) E1) as H01. simpl in H01.
  destruct (GetAccountConcrete_run addr s) as (s1' & E1' & _). rewrite E1 in E1'. injection E1' as -> <-.
  destruct (body (load s1 addr)) as [b|] eqn:Hb; [|by apply post_ret].
  assert (forall o, (forall k, committed_of (ts_in s1) addr (set_origin o b) k = committed_of (ts_in s1) addr b k) ->
    post True (_ ← update_body addr (set_origin o); ret (read_storage (ts_in s1) addr key)) s1 (fun _ s' => tracks s s')) as Hcache.
  { intros o Ho. apply post_bind, post_run; [|done]. intros [] s2 E2. apply post_ret. intros s0 Ht. apply H01 in Ht.
    destruct (tracked_update s0 s1 addr (set_origin o) b) as (s3 & E3 & H3 & _); [done|done| |by intros []; split|done|congruence].
    split; try done. intros k. rewrite <- (tk_in _ _ Ht). apply Ho. }
  destruct (storage_origin b) as [origin|] eqn:Ho.
  - destruct (origin !! key) as [v|] eqn:Hk; [by apply post_ret|]. apply Hcache. intros k. unfold committed_of. simpl. rewrite Ho.
    destruct (decide (key = k)) as [->|]; [by rewrite lookup_insert_eq, Hk|by rewrite lookup_insert_ne].
  - destruct (StorageRootHash (b_acc b)) as [root|] eqn:Hr; [|by apply post_ret]. apply Hcache. intros k. unfold committed_of. simpl. rewrite Ho, Hr.
    destruct (decide (key = k)) as [->|]; [by rewrite lookup_singleton_eq|by rewrite lookup_singleton_ne].
Qed.

(** An account that is not there is made. *)
Lemma tracks_ensure_exists addr : within True tracks (ensure_exists addr).
Proof.
  intros s. apply post_run; [|done]. intros [] s' E s0 Ht.
  destruct (tracked_GetAccount s0 s addr Ht) as (s1 & E1 & H1 & Hin & Er & Eb & Ed).
  unfold ensure_exists in E. rewrite (bind_done _ _ _ _ _ E1) in E. destruct (body (load s1 addr)) as [b|] eqn:Hb; [by injection E as <-|].
  pose proof (tk_body _ _ H1 addr) as Hb1. rewrite Hb in Hb1. destruct Hb1 as [Hb0 Hent].
  pose proof (tk_deleted _ _ H1 addr) as Hdel. rewrite Hb in Hdel. simpl in Hdel.
  unfold put_account, register_change, update_body, GetAccountConcrete, modify_st, RegisterChange, bindM, modify_st in E.
  rewrite load_insert, decide_True in E by done. cbn [set_deleted set_body in_curr_version body] in E.
  rewrite (proj1 (tk_curr _ _ H1 addr) Hin) in E. injection E as <-.
  eapply (tracked_write s0 s1 _ addr (set_body (Some (tick fresh_body)) (set_deleted false (set_body (Some fresh_body) (load s1 addr)))) (RevExists addr (deleted (load s1 addr)) :: ts_reverts s1)); try done.
  - simpl. by rewrite insert_insert_eq.
  - by apply (tk_curr _ _ H1).
  - cbn [body set_body]. rewrite Hb0. split_and!; [by split|by split|]. intros _ _. unfold touches. rewrite entries_cons, decide_True, Hent by done. done.
  - intros addr' Hne. by apply (entries_other addr).
  - intros [|r' l1] addr' d l2 E; injection E; intros.
    + subst. split_and!; [done| |done]. rewrite Hdel. apply (tk_flags _ _ H1).
    + by apply (tk_exists _ _ H1 l1).
Qed.

Ltac tracks_step :=
  match goal with
  | |- within _ _ (GetAccountConcrete _) => apply tracks_GetAccount
  | |- within _ _ (get_committed_state _ _) => apply tracks_committed
  | |- within _ _ (ensure_exists _) => apply tracks_ensure_exists
  | |- within _ _ (register_change _ (Some _)) => by apply tracks_register
  | |- within _ _ (update_body _ _) => apply tracks_update; intros ? ?; split_and!; [by split|by intros []; split|done|done]
  | |- within _ _ get_st => apply within_reads; apply _
  | |- within _ _ (put_account _ _) => fail 1
  | _ => within_step
  end.
Ltac tracks := repeat tracks_step.

Lemma tracks_ignores (f : TransitionState -> TransitionState) :
  (forall s, ts_in (f s) = ts_in s /\ dirties (f s) = dirties s /\ accounts_in_curr_ver (f s) = accounts_in_curr_ver s /\ accounts (f s) = accounts s /\
    (ts_reverts (f s) = ts_reverts s \/ exists r, rev_addr r = None /\ (ts_reverts (f s) = r :: ts_reverts s \/ ts_reverts s = r :: ts_reverts (f s)))) ->
  within True tracks (modify_st f).
Proof. intros Hf s s0 Ht. destruct (Hf s) as (? & ? & ? & ? & ?). by eapply tracked_ignores. Qed.

Lemma tracks_RegisterChange r : rev_addr r = None -> within True tracks (RegisterChange r).
Proof. intros Hr. apply tracks_ignores. intros s. split_and!; try done. right. exists r. auto. Qed.

(** Two changes of a body are one. *)
Lemma update_update addr f g s s1 : update_body addr f s = Done tt s1 -> update_body addr g s1 = update_body addr (fun b => g (f b)) s.
Proof.
  intros E1. destruct (GetAccountConcrete addr s) as [a s2| |] eqn:E; [|by unfold update_body, bindM in E1; rewrite E in E1..].
  assert (in_curr_version a = true) as Hc.
  { unfold GetAccountConcrete in E. destruct (in_curr_version (load s addr)) eqn:Ec; by injection E as <- <-. }
  unfold update_body in E1. rewrite (bind_done _ _ _ _ _ E) in E1. unfold update_body at 2. rewrite (bind_done _ _ _ _ _ E).
  destruct (body a) as [b|]; [|done]. injection E1 as <-. unfold update_body, bindM, GetAccountConcrete. rewrite load_insert, decide_True by done. cbn [set_body in_curr_version body]. rewrite Hc.
  unfold put_account, modify_st. cbn [set_body body set_accounts accounts]. by rewrite insert_insert_eq.
Qed.

Lemma tracks_touch addr : within True tracks
  (_ ← update_body addr (fun b => set_touched (u32 (times_touched b + 1)) b); register_change addr (Some (RevTouch addr))).
Proof.
  intros s. apply post_run; [|done]. intros [] s' ([] & s1 & E1 & E2)%bind_done_inv s0 Ht. destruct (body (load s addr)) as [b|] eqn:Hb; [|by apply update_body_nil in E1].
  unfold register_change in E2. unfold bindM in E2. rewrite (update_update _ _ _ _ _ E1) in E2.
  edestruct (tracked_record s0 s addr (fun b => tick (set_touched (u32 (times_touched b + 1)) b)) (RevTouch addr) b) as (s2 & E3 & H3 & _);
    [done|done|done|done|by split|by intros []; split|by intros _; split; simpl; rewrite ?u32_u32|].
  unfold tick, bindM in E3. rewrite E2 in E3. injection E3 as ->. done.
Qed.

Lemma tracks_AddBalance addr amount : within True tracks (ts_AddBalance addr amount).
Proof.
  unfold ts_AddBalance. apply within_bind; [apply _|apply tracks_ensure_exists|]. intros _.
  apply within_bind; [apply _|tracks|]. intros balance. destruct (negb _); [tracks|].
  apply within_bind; [apply _|tracks|]. intros empty. destruct (negb empty); [tracks|].
  intros s. apply post_run; [|done]. intros a s' ([] & s1 & E1 & ([] & s2 & E2 & E3)%bind_done_inv)%bind_done_inv.
  assert (tracks s s2) as H2.
  { eapply (post_done True _ s _ tt s2 (tracks_touch addr s)). by rewrite (bind_done _ _ _ _ _ E1). }
  transitivity s2; [done|]. unfold when in E3. case_bool_decide as Ha; [|by injection E3 as <- <-].
  eapply (post_done True _ s2 (fun _ s' => tracks s2 s') a s'); [|exact E3]. apply post_run; [|done]. intros [] s3 E s0 Ht.
  destruct (body (load s2 addr)) as [b|] eqn:Hb; [|by apply update_body_nil in E].
  destruct (tracked_update s0 s2 addr (fun b => set_mod_count (u32 (mod_count b + 1)) b) b) as (s4 & E4 & H4 & _); [done|done|by split|by intros []; split|done|congruence].
Qed.

Section crypto.
Context `{Crypto}.

Lemma tracks_quiet (f : TransitionState -> TransitionState) :
  (forall s, ts_in (f s) = ts_in s /\ dirties (f s) = dirties s /\ accounts_in_curr_ver (f s) = accounts_in_curr_ver s /\ accounts (f s) = accounts s /\
    ts_reverts (f s) = ts_reverts s) -> within True tracks (modify_st f).
Proof. intros Hf. apply tracks_ignores. intros s. destruct (Hf s) as (? & ? & ? & ? & ?). split_and!; auto. Qed.

Lemma tracks_SetState addr key value : within True tracks (ts_SetState addr key value).
Proof.
  unfold ts_SetState. apply within_bind; [apply _|tracks|]. intros _. apply within_bind; [apply _|tracks|]. intros prev.
  destruct (prev =? value); [tracks|]. apply within_bind; [apply _|tracks|]. intros _. apply tracks_update. intros i b.
  split_and!; [|by intros []; split|done|done]. split; try done. intros k Hk. by apply lookup_insert_is_Some'; right.
Qed.

Lemma tracks_op A (m : T A) : vm_op A m -> within True tracks m.
Proof.
  intros Hm. pose proof tracks_AddBalance. pose proof tracks_SetState.
  assert (forall r, rev_addr r = None -> within True tracks (RegisterChange r)) as HR by apply tracks_RegisterChange.
  destruct Hm; simpl; try (by tracks).
  - unfold ts_AddLog. apply within_bind; [apply _|apply within_reads; apply _|]. intros s. apply within_bind; [apply _|by apply HR|]. intros _. by apply tracks_quiet.
  - unfold ts_AddRefund. apply within_bind; [apply _|apply within_reads; apply _|]. intros s. apply within_bind; [apply _|by apply HR|]. intros _. by apply tracks_quiet.
  - unfold ts_SubRefund. apply within_bind; [apply _|apply within_reads; apply _|]. intros s. destruct (_ <? _); [apply within_panic|].
    apply within_bind; [apply _|by apply HR|]. intros _. by apply tracks_quiet.
  - unfold ts_SetTransientState, ts_GetTransientState. apply within_bind; [apply _|apply within_reads; apply _|]. intros prev.
    case_bool_decide; [tracks|]. by apply tracks_quiet.
Qed.

Lemma tracks_SetCode addr code : within True tracks (ts_SetCode addr code).
Proof.
  unfold ts_SetCode. apply within_bind; [apply _|tracks|]. intros _. destruct (Z.eqb_spec (Z.of_nat (length code)) 0) as [|Hne]; [tracks|].
  apply within_bind; [apply _|tracks|]. intros _. apply tracks_update. intros i b. split_and!; [|intros _|done|done].
  - by split.
  - split; simpl; [done|]. by eexists.
Qed.
End crypto.

Lemma tracks_SetStateRaw addr key value : has_raw addr -> within True tracks (SetStateRawIrreversibly addr key value).
Proof.
  intros Hr. apply within_bind; [apply _|apply tracks_ensure_exists|]. intros _ s. apply post_run; [|done].
  intros [] s' ([] & s1 & E1 & ([] & s2 & E2 & [= <-])%bind_done_inv)%bind_done_inv s0 Ht.
  destruct (body (load s addr)) as [b|] eqn:Hb; [|by apply update_body_nil in E1]. rewrite (update_update _ _ _ _ _ E1) in E2.
  assert (RawStorageDirty (tick (set_raw (<[key:=value]> (RawStorageDirty b)) b)) <> ∅) as Hne by apply insert_non_empty.
  destruct (tracked_update s0 s addr (fun b => tick (set_raw (<[key:=value]> (RawStorageDirty b)) b)) b) as (s3 & E3 & H3 & _);
    [done|done| |by intros []; split|done|unfold tick in E3; congruence].
  by split.
Qed.

(** ** Reverts *)
Lemma tracked_undo s0 s r rs t : tracked s0 (set_reverts (r :: rs) s) -> undo r s = Some t -> tracked s0 (set_reverts rs t).
Proof.
  intros Ht. set (s1 := set_reverts (r :: rs) s) in *.
  assert (forall addr, load s1 addr = load s addr) as Hload by done.
  assert (forall l1 addr' d l2, rs = l1 ++ RevExists addr' d :: l2 -> body (load s0 addr') = None /\ d = in_dirties (load s0 addr') /\ entries addr' l2 = []) as Hex.
  { intros l1 addr' d l2 ->. by apply (tk_exists _ _ Ht (r :: l1)). }
  destruct (rev_addr r) as [addr|] eqn:Hr.
  2: { destruct r; try discriminate Hr; intros [= <-]; (eapply (tracked_ignores s0 s1); [done..|]); right; eexists; (split; [|right; reflexivity]); done. }
  assert (addr ∈ accounts_in_curr_ver s1) as Hin.
  { apply (tk_listed _ _ Ht). simpl. by rewrite entries_cons, decide_True. }
  assert (forall addr', addr' <> addr -> entries addr' rs = entries addr' (ts_reverts s1)) as Hent.
  { intros addr' Hne. symmetry. by apply (entries_other addr). }
  pose proof (tk_body _ _ Ht addr) as Hb. rewrite Hload in Hb.
  pose proof (tk_deleted _ _ Ht addr) as Hd. rewrite Hload in Hd.
  pose proof (proj1 (tk_curr _ _ Ht addr) Hin) as Hc. rewrite Hload in Hc.
  destruct (undo_fun r) as [[addr' f]|] eqn:Hf.
  - assert (addr' = addr) as -> by (destruct r; simplify_eq/=; done).
    rewrite (undo_undo_fun _ _ _ _ Hf). unfold undo_body. destruct (body (load s addr)) as [b|] eqn:Eb; [|done]. intros [= <-].
    destruct Hb as (Hs & Hw & Hcnt).
    eapply (tracked_write s0 s1 _ addr (set_body (Some (f (untick b))) (load s addr)) rs); try done; cbn [body set_body deleted in_dirties].
    split_and!.
    + etrans; [exact Hs|]. destruct r; simplify_eq/=; split; try done. intros k Hk. apply lookup_insert_is_Some'. by right.
    + destruct Hw. destruct r; simplify_eq/=; by split.
    + intros Hne Hraw. destruct (Hcnt Hne) as [Hm Hto]; [destruct r; simplify_eq/=; exact Hraw|]. cbn [ts_reverts s1 set_reverts] in Hm, Hto. unfold touches in *. rewrite entries_cons, decide_True in Hm, Hto by done.
      cbn [length] in Hm. split.
      * assert (mod_count (f (untick b)) = u32 (mod_count b - 1)) as -> by (destruct r; simplify_eq/=; done).
        rewrite u32_u32. erewrite u32_sub_cong by exact Hm. f_equal. lia.
      * rewrite filter_cons in Hto. destruct r; simplify_eq/=; try exact Hto. rewrite u32_u32. erewrite u32_sub_cong by exact Hto. f_equal. lia.
  - destruct r; simplify_eq/=. destruct (body (load s addr)) as [b|] eqn:Eb; [|done]. intros [= <-].
    destruct (tk_exists _ _ Ht [] addr was_deleted rs eq_refl) as (H0 & Hdel & Hnil).
    eapply (tracked_write s0 s1 _ addr (set_deleted was_deleted (set_body None (load s addr))) rs); try done.
    cbn [deleted set_deleted body set_body in_dirties bool_decide]. rewrite Hdel. symmetry. apply (tk_flags _ _ Ht).
Qed.

Lemma tracked_undo_all s0 rs' : forall s t rs, tracked s0 (set_reverts (rs' ++ rs) s) -> undo_all rs' s = Some t -> tracked s0 (set_reverts rs t).
Proof.
  induction rs' as [|r rs' IH]; intros s t rs Ht; cbn [undo_all]; [by intros [= ->]|]. destruct (undo r s) as [s1|] eqn:E; [|done].
  apply IH. by eapply tracked_undo.
Qed.

Lemma tracks_Revert k s s' : ts_RevertToSnapshot k s = Done tt s' -> tracks s s'.
Proof.
  unfold ts_RevertToSnapshot. destruct (_ || _); [done|]. destruct (undo_all _ _) as [t|] eqn:E; [|done]. intros [= <-] s0 Ht.
  rewrite (undo_all_reverts _ _ _ E). eapply tracked_undo_all; [|exact E]. rewrite take_drop. by destruct s.
Qed.

(** ** A transaction *)
Lemma tracked_start s : ts_reverts s = [] -> accounts_in_curr_ver s = [] ->
  (forall addr, in_curr_version (load s addr) = false /\ deleted (load s addr) = bool_decide (body (load s addr) = None) && in_dirties (load s addr)) ->
  (forall addr b, body (load s addr) = Some b -> body_wf b /\ mod_count b = 0 /\ times_touched b = 0) -> tracked s s.
Proof.
  intros Er Ec Ha Hb. split; rewrite ?Er, ?Ec; try done; try (by constructor).
  - intros addr. destruct (Ha addr) as [-> _]. split; [by intros ?%elem_of_nil|done].
  - intros addr. apply Ha.
  - intros addr. destruct (body (load s addr)) as [b|] eqn:E; [|done]. destruct (Hb _ _ E) as (Hw & Hm & Ht). split_and!; [done|done|].
    intros _ _. by rewrite Hm, Ht.
  - by intros [|] ? ? ? ?.
Qed.

Lemma tracked_journalled `{Crypto} base s s' : journalled base s s' -> tracks s s'.
Proof.
  induction 1 as [|A m s1 a s2 Hj IH Hm E|addr code s1 s2 Hj IH Hc E|addr key value s1 s2 Hj IH Hr E|k s1 s2 Hj IH Hk E]; [reflexivity|..]; (etrans; [exact IH|]).
  - by eapply (post_done True m s1 (fun _ s' => tracks s1 s')); [apply tracks_op|].
  - by eapply (post_done True (ts_SetCode addr code) s1 (fun _ s' => tracks s1 s')); [apply tracks_SetCode|].
  - by eapply (post_done True (SetStateRawIrreversibly addr key value) s1 (fun _ s' => tracks s1 s')); [apply tracks_SetStateRaw|].
  - by eapply tracks_Revert.
Qed.
