(* ===== verification/BlockCommit.v ===== *)
(** * From the state of the EVM to the root of a block

    A block is a sequence of transactions on a [TransitionState], each
    followed by [CommitTransaction], and a final [Commit]; what they pass on
    is the trace of calls the trie sink works off.  Here the two ends meet:
    the trace is one the sink accepts, and the accounts it leaves are those
    the EVM sees, each with a storage root of the slots the EVM sees. *)
From S2P Require Import Prelude Bytes Rlp RlpRaw Crypto Uint256 EvmWord EvmBase Trie TrieSpec TrieProps StateDb StateDbProps TrieSink TrieSinkProps EvmFrame StateEvm StateRevert StateKeeps StateTrack.
Local Open Scope Z_scope.

(** ** What the journal says of a body *)
Definition all_touches (addr : Address) (rs : list Revert) : Prop := Forall (fun r => is_touch r = true) (entries addr rs).

(** The same but for the counters. *)
Definition recount (b b' : AccountBody) : Prop := exists t m, b' = set_touched t (set_mod_count m b).

Lemma recount_refl b : recount b b.
Proof. exists (times_touched b), (mod_count b). by destruct b. Qed.

Lemma recount_trans b b' b'' : recount b b' -> recount b' b'' -> recount b b''.
Proof. intros (t & m & ->) (t' & m' & ->). by exists t', m'. Qed.

Lemma undo_touches rs : forall s t addr b, undo_all rs s = Some t -> all_touches addr rs -> body (load s addr) = Some b ->
  exists b', body (load t addr) = Some b' /\ recount b b'.
Proof.
  induction rs as [|r rs IH]; intros s t addr b; cbn [undo_all]; [intros [= ->]; exists b; split; [done|apply recount_refl]|].
  destruct (undo r s) as [s1|] eqn:E; [|done]. intros Ht Hall Hb. unfold all_touches in Hall. rewrite entries_cons in Hall.
  assert (exists b1, body (load s1 addr) = Some b1 /\ recount b b1) as (b1 & Hb1 & Hr1).
  { destruct (decide (rev_addr r = Some addr)) as [Hr|Hr].
    - apply Forall_cons in Hall as [Ho _]. destruct r; try discriminate Ho. injection Hr as ->. simpl in E. unfold undo_body in E.
      rewrite Hb in E. injection E as <-. rewrite load_insert, decide_True by done. eexists. split; [reflexivity|]. by eexists _, _.
    - exists b. split; [|apply recount_refl]. destruct (undo_fun r) as [[a f]|] eqn:Hf.
      + rewrite (undo_undo_fun _ _ _ _ Hf) in E. unfold undo_body in E. destruct (body (load s a)) as [ba|]; [|done]. injection E as <-.
        rewrite load_insert, decide_False; [done|]. intros ->. apply Hr. by destruct r; simplify_eq/=.
      + destruct r; try discriminate Hf; simpl in E.
        * destruct (body (load s addr0)) as [ba|]; [|done]. injection E as <-. rewrite load_insert, decide_False; [done|]. by intros ->.
        * by injection E as <-.
        * by injection E as <-. }
  destruct (IH s1 t addr b1 Ht) as (b' & Hb' & Hr'); [|done|].
  { case_decide; [by apply Forall_cons in Hall as [_ ?]|done]. }
  exists b'. split; [done|]. by eapply recount_trans.
Qed.

(** An account the journal only touches is what it was. *)
Lemma touched_only s s1 addr b : ts_reverts s = [] -> undoes s s1 -> all_touches addr (ts_reverts s1) -> body (load s1 addr) = Some b ->
  exists b0 b', body (load s addr) = Some b0 /\ recount b b' /\ same_body (ts_in s) addr b' b0.
Proof.
  intros Er (rs & E & Hu) Hall Hb. rewrite E, Er, app_nil_r in Hall. inversion Hu as [t ? Ht Et|]; subst.
  destruct (undo_touches rs s1 t addr b) as (b' & Hb' & Hr); [done..|]. destruct (ss_entry _ _ Ht addr) as [Hbody _ _ _].
  rewrite Hb' in Hbody. inversion Hbody as [? b0 Hs|]; subst. exists b0, b'. rewrite (ss_in _ _ Ht) in Hs. done.
Qed.

(** The counters tell whether an account was changed. *)
Definition counted (addr : Address) (s : TransitionState) : Prop := forall b, body (load s addr) = Some b ->
  (mod_count b = 0 -> entries addr (ts_reverts s) = []) /\ (mod_count b = times_touched b -> all_touches addr (ts_reverts s)).

Lemma filter_all {A} (P : A -> Prop) `{!forall x, Decision (P x)} (l : list A) : length (filter P l) = length l -> Forall P l.
Proof.
  induction l as [|x l IH]; [done|]. rewrite filter_cons. case_decide as Hx; simpl.
  - intros [= ?]. constructor; auto.
  - pose proof (length_filter P l). lia.
Qed.

Lemma tracked_counted s0 s addr : tracked s0 s -> addr <> ripemd_addr -> (forall b, body (load s addr) = Some b -> RawStorageDirty b = ∅) ->
  Z.of_nat (length (ts_reverts s)) < 2 ^ 32 -> counted addr s.
Proof.
  intros Ht Ha Hraw Hlen b Hb. pose proof (tk_body _ _ Ht addr) as Hbody. rewrite Hb in Hbody. destruct Hbody as (_ & _ & Hc). destruct (Hc Ha (Hraw b Hb)) as [Hm Ho].
  pose proof (length_filter (fun r => rev_addr r = Some addr) (ts_reverts s)) as L1. pose proof (length_filter is_touch (entries addr (ts_reverts s))) as L2.
  fold (entries addr (ts_reverts s)) in L1. fold (touches addr (ts_reverts s)) in L2. rewrite (u32_small (Z.of_nat _)) in Hm by lia. rewrite (u32_small (Z.of_nat _)) in Ho by lia. split.
  - intros E. rewrite E in Hm. change (u32 0) with 0 in Hm. apply length_zero_iff_nil. lia.
  - intros E. rewrite E in Hm. pose proof (filter_all is_touch (entries addr (ts_reverts s))) as F. eapply Forall_impl; [apply F; unfold touches in *; lia|]. by intros ? ?%Is_true_true.
Qed.

(** ** Storage as a map of slots *)
Section block.
Context `{Crypto} {laws : CryptoLaws}.

Definition account_key (addr : Address) : bytes := keccak256 (addr_bytes addr).

(** Different accounts and different slots have different keys. *)
Definition no_clash : Prop :=
  (forall a a', account_key a = account_key a' -> a = a') /\
  (forall k k' : bytes, length k = 32%nat -> length k' = 32%nat -> keccak256 k = keccak256 k' -> k = k').
Context (Hclash : no_clash).

(** An empty value is absent. *)
Definition slot_value (v : bytes) : option (bytes * bytes) :=
  match v with [] => None | _ => Some (val_EncodeForTrie (NewAccStorageTrieValue v)) end.

(** The storage trie [sl] holds the slots [v], by their key of 32 bytes. *)
Record slots_hold (sl : contents) (v : bytes -> bytes) : Prop := mkSlotsHold {
  sh_keys : keys_ok sl;
  sh_slots k : length k = 32%nat -> sl !! keccak256 k = slot_value (v k);
}.

Lemma slots_hold_ext sl v v' : slots_hold sl v -> (forall k, length k = 32%nat -> v' k = v k) -> slots_hold sl v'.
Proof. intros [Hk Hs] Hv. split; [done|]. intros k Hlen. by rewrite Hs, Hv. Qed.

Definition words_ok (m : gmap Z Z) : Prop := map_Forall (fun k v => 0 <= k < 2 ^ 256 /\ 0 <= v < 2 ^ 256) m.
Definition raw_ok (m : gmap bytes bytes) : Prop := map_Forall (fun k v => length k = 32%nat /\ blen v < 2 ^ 30) m.

Definition hashed (e : bytes * bytes) : bytes * bytes := (keccak256 (fst e), snd e).
Definition word (e : Z * Z) : bytes * bytes := (uint_to_be 32 (fst e), big_Bytes (snd e)).

Lemma word_ok e : 0 <= snd e < 2 ^ 256 -> blen (snd (word e)) < 2 ^ 30.
Proof. intros Hv. unfold word, blen. cbn [snd]. pose proof (length_big_Bytes (snd e) 32 ltac:(simpl; lia) ltac:(lia)). lia. Qed.

Lemma spec_op_hashed sl v k x : length k = 32%nat -> blen x < 2 ^ 30 -> slots_hold sl v ->
  slots_hold (spec_op val_EncodeForTrie sl (slot_op (hashed (k, x)))) (fun k' => if decide (k' = k) then x else v k').
Proof.
  intros Hk Hx [Hsl Hv]. split.
  - eapply (spec_op_keys val_EncodeForTrie AccountTrieSchema); [done|]. apply slot_op_ok; [apply length_keccak256|done].
  - intros k' Hk'. unfold slot_op, hashed. cbn [fst snd].
    assert (k' <> k -> keccak256 k <> keccak256 k') as Hne by (intros Hne E; apply Hne; symmetry; by apply (proj2 Hclash)).
    destruct x as [|x0 x]; cbn [spec_op]; (destruct (decide (k' = k)) as [->|Hkk];
      [by rewrite ?lookup_delete_eq, ?lookup_insert_eq|by rewrite ?lookup_delete_ne, ?lookup_insert_ne, Hv by auto]).
Qed.

Lemma spec_ops_hashed l : forall sl v, slots_hold sl v -> NoDup l.*1 -> Forall (fun e => length (fst e) = 32%nat /\ blen (snd e) < 2 ^ 30) l ->
  slots_hold (spec_ops val_EncodeForTrie sl (map slot_op (map hashed l))) (fun k => default (v k) ((list_to_map l : gmap bytes bytes) !! k)).
Proof.
  induction l as [|[k1 x1] l IH]; intros sl v Hsl Hd Hl; [by eapply slots_hold_ext; [done|]|].
  apply NoDup_cons in Hd as [Hk1 Hd]. apply Forall_cons in Hl as [[Hk Hv] Hl]. cbn [fst snd] in *.
  eapply slots_hold_ext; [exact (IH _ _ (spec_op_hashed sl v k1 x1 Hk Hv Hsl) Hd Hl)|]. intros k _. cbn [list_to_map foldr uncurry fst snd].
  destruct (decide (k = k1)) as [->|Hne].
  - by rewrite lookup_insert_eq, not_elem_of_list_to_map_1.
  - by rewrite lookup_insert_ne.
Qed.

Lemma dirty_slots_hashed b :
  dirty_slots (change_of b) = map hashed (map word (map_to_list (StorageDirty b))) ++ map hashed (map_to_list (RawStorageDirty b)).
Proof. unfold dirty_slots, change_of. cbn [ch_StorageDirty ch_RawStorageDirty]. by rewrite map_map. Qed.

Lemma words_list m : words_ok m -> Forall (fun e => length (fst e) = 32%nat /\ blen (snd e) < 2 ^ 30) (map word (map_to_list m)).
Proof.
  intros Hm. apply Forall_map, Forall_forall. intros [k v] Hin%elem_of_map_to_list. split; [apply length_uint_to_be|].
  apply word_ok. by apply (Hm k v).
Qed.

Lemma raw_list m : raw_ok m -> Forall (fun e => length (fst e) = 32%nat /\ blen (snd e) < 2 ^ 30) (map_to_list m).
Proof. intros Hm. apply Forall_forall. intros [k v] Hin%elem_of_map_to_list. by apply (Hm k v). Qed.

Lemma key_word k : length k = 32%nat -> uint_to_be 32 (be_to_uint k) = k.
Proof. intros Hk. rewrite <- Hk at 1. apply uint_to_be_be_to_uint. Qed.

Lemma word_inj k k' : 0 <= k < 2 ^ 256 -> 0 <= k' < 2 ^ 256 -> uint_to_be 32 k = uint_to_be 32 k' -> k = k'.
Proof. intros Hk Hk' E. apply (f_equal be_to_uint) in E. rewrite !be_roundtrip in E. by rewrite !Z.mod_small in E by done. Qed.

Lemma words_lookup m k : words_ok m -> length k = 32%nat ->
  NoDup (map word (map_to_list m)).*1 /\ (list_to_map (map word (map_to_list m)) : gmap bytes bytes) !! k = big_Bytes <$> m !! be_to_uint k.
Proof.
  intros Hm Hk.
  assert (NoDup (map word (map_to_list m)).*1) as Hnd.
  { rewrite <- list_fmap_compose. apply NoDup_fmap_2_strong; [|apply NoDup_map_to_list].
    intros [k1 v1] [k2 v2] H1%elem_of_map_to_list H2%elem_of_map_to_list E. unfold word, compose in E. cbn [fst] in E.
    assert (k1 = k2) as -> by (apply word_inj; [apply (Hm _ _ H1)|apply (Hm _ _ H2)|exact E]). congruence. }
  split; [done|].
  destruct (m !! be_to_uint k) as [v|] eqn:E; cbn [fmap option_fmap option_map].
  - apply elem_of_list_to_map_1; [done|]. apply list_elem_of_fmap. exists (be_to_uint k, v). split; [|by apply elem_of_map_to_list].
    unfold word. cbn [fst snd]. by rewrite key_word.
  - apply not_elem_of_list_to_map_1. intros (e & -> & He)%list_elem_of_fmap. apply list_elem_of_fmap in He as ([k' v] & -> & Hin%elem_of_map_to_list).
    unfold word in E. cbn [fst] in E. rewrite be_roundtrip, Z.mod_small in E by apply (Hm _ _ Hin). congruence.
Qed.

(** Writing the dirty slots of a body. *)
Lemma slots_hold_change sl v b : slots_hold sl v -> words_ok (StorageDirty b) -> raw_ok (RawStorageDirty b) ->
  slots_hold (spec_slots sl (change_of b))
    (fun k => default (default (v k) (big_Bytes <$> StorageDirty b !! be_to_uint k)) (RawStorageDirty b !! k)).
Proof.
  intros Hsl Hw Hr. unfold spec_slots. unfold spec_ops. rewrite dirty_slots_hashed, map_app, (foldl_app (spec_op val_EncodeForTrie)).
  assert (NoDup (map word (map_to_list (StorageDirty b))).*1) as Hnd by (apply (words_lookup _ (replicate 32 Byte.x00)); done).
  pose proof (spec_ops_hashed _ _ _ Hsl Hnd (words_list _ Hw)) as H1.
  pose proof (spec_ops_hashed _ _ _ H1 (NoDup_fst_map_to_list _) (raw_list _ Hr)) as H2.
  eapply slots_hold_ext; [exact H2|]. intros k Hk. cbn beta. rewrite list_to_map_to_list. by rewrite (proj2 (words_lookup _ k Hw Hk)).
Qed.

Lemma settled_state i addr k b key : (StorageRootHash (b_acc b) = None -> read_storage i addr key = 0) ->
  state_of i addr (settled k b) key = state_of i addr b key.
Proof.
  intros Hr. unfold state_of, committed_of, settled. cbn [StorageDirty set_origin set_dirty set_raw set_code set_sink storage_origin b_acc].
  rewrite lookup_empty. simpl. case_bool_decide as Hd.
  - rewrite Hd, lookup_empty. done.
  - rewrite lookup_union. destruct (StorageDirty b !! key) as [v|] eqn:E; [by destruct (default ∅ (storage_origin b) !! key)|].
    rewrite (left_id_L None _). destruct (storage_origin b) as [o|]; simpl; [done|]. rewrite lookup_empty. simpl.
    destruct (StorageRootHash (b_acc b)); [done|]. by apply Hr.
Qed.

Lemma step_state i addr b0 b key : body_step i addr b0 b -> state_of i addr b key = default (state_of i addr b0 key) (StorageDirty b !! key).
Proof.
  intros [_ _ _ _ Hc Hd]. unfold state_of. rewrite Hc. destruct (StorageDirty b !! key) as [v|] eqn:E; [done|]. simpl.
  destruct (StorageDirty b0 !! key) as [v|] eqn:E0; [|done]. destruct (Hd key) as [v' E']; [by eexists|]. congruence.
Qed.

(** ** The state between transactions *)
Context (r : Reader) (stored_slots : Address -> contents) (i : StateInput) (m0 : gmap bytes DbAccount).

Definition db_slots (addr : Address) (b : AccountBody) : contents :=
  match StorageRootHash (b_acc b) with None => ∅ | Some _ => stored_slots addr end.

(** A slot of the database as it is read. *)
Definition stored (addr : Address) (key : bytes) : bytes := default [] (in_GetAccountStorage i addr key).

(** The database before the block, as the EVM and the sink read it; the slots
    of the EVM are words without leading zeros. *)
Record db_ok : Prop := mkDbOk {
  do_accounts addr : m0 !! account_key addr = in_GetAccount i addr;
  do_code addr d : in_GetAccount i addr = Some d -> acc_CodeSize d = 0 -> acc_CodeHash d = None;
  do_root addr d root : in_GetAccount i addr = Some d -> StorageRootHash d = Some root ->
    slots_hold (stored_slots addr) (stored addr) /\
    holds_trie val_EncodeForTrie AccountTrieSchema (AccountTrieInput addr r) (Some root) (tree_of (stored_slots addr));
  do_words addr key : length key = 32%nat -> ~ has_raw addr -> stored addr key = big_Bytes (read_storage i addr (be_to_uint key));
}.
Context (Hdb : db_ok).

Definition db_slot (addr : Address) (b : AccountBody) (key : bytes) : bytes :=
  match StorageRootHash (b_acc b) with None => [] | Some _ => stored addr key end.

(** The slots of an account: the words that the EVM sees or, for the contracts
    of the chain, the raw values [w] written in this block, over those of the
    database. *)
Definition view (w : gmap bytes bytes) (addr : Address) (b : AccountBody) (key : bytes) : bytes :=
  if decide (has_raw addr) then default (db_slot addr b key) (w !! key) else big_Bytes (state_of i addr b (be_to_uint key)).

(** A body between two transactions, and the slots of its storage. *)
Record quiet_body (w : gmap bytes bytes) (addr : Address) (b : AccountBody) (sl : contents) : Prop := mkQuiet {
  qb_root root : StorageRootHash (b_acc b) = Some root -> exists d, in_GetAccount i addr = Some d /\ StorageRootHash d = Some root;
  qb_wf : body_wf b;
  qb_raw : RawStorageDirty b = ∅;
  qb_suicided : suicided b = false;
  qb_mod : mod_count b = 0;
  qb_touched : times_touched b = 0;
  qb_code : CodeDirty b = false;
  qb_slots : slots_hold sl (view w addr b);
}.

Lemma empty_slots v : (forall k, length k = 32%nat -> v k = []) -> slots_hold ∅ v.
Proof.
  intros Hv. split; [by intros k [? ?]|]. intros k Hk. rewrite lookup_empty. unfold slot_value. by rewrite Hv.
Qed.

Lemma view_root w addr b b' k : StorageRootHash (b_acc b) = StorageRootHash (b_acc b') ->
  state_of i addr b (be_to_uint k) = state_of i addr b' (be_to_uint k) -> view w addr b k = view w addr b' k.
Proof. intros Hr Hs. unfold view, db_slot. by rewrite Hr, Hs. Qed.

Lemma view_new addr b k : StorageRootHash (b_acc b) = None -> storage_origin b = None -> StorageDirty b = ∅ -> view ∅ addr b k = [].
Proof.
  intros Hr Ho Hd. unfold view, db_slot. rewrite Hr, lookup_empty. unfold state_of, committed_of. rewrite Hd, lookup_empty, Ho, Hr. simpl. by destruct (decide _).
Qed.

Lemma db_quiet addr d : in_GetAccount i addr = Some d -> quiet_body ∅ addr (body_of d) (db_slots addr (body_of d)).
Proof.
  intros Hd. split; try done.
  - intros root Hr. by exists d.
  - split; [|done]. by apply (do_code Hdb addr d).
  - unfold db_slots. destruct (StorageRootHash (b_acc (body_of d))) as [root|] eqn:E.
    + destruct (do_root Hdb addr d root Hd E) as [Hs _]. eapply slots_hold_ext; [exact Hs|]. intros k Hk. unfold view, db_slot. rewrite E, lookup_empty. cbn [default].
      destruct (decide (has_raw addr)) as [Hr|Hr]; [done|]. rewrite (do_words Hdb) by done. unfold state_of, committed_of. cbn [body_of StorageDirty storage_origin b_acc] in E |- *. by rewrite lookup_empty, E.
    + apply empty_slots. intros k _. by apply view_new.
Qed.

(** The mutation of a body. *)
Definition sink_agrees (sp : SpecSink) (addr : Address) (b : AccountBody) (sl : contents) : Prop := exists k m,
  sink b = Some k /\ sp_main sp !! account_key addr = Some (inr k) /\ sp_muts sp !! k = Some m /\
  sm_addr m = addr /\ sm_acc m = b_acc b /\ sm_pending m = true /\ sl = default (db_slots addr b) (sm_slots m).

(** The sink and the state agree on an account. *)
Definition agrees (w : gmap bytes bytes) (sp : SpecSink) (addr : Address) (o : option AccountEntry) : Prop :=
  match o with
  | None => sp_main sp !! account_key addr = inl <$> in_GetAccount i addr /\ w = ∅
  | Some a =>
      in_curr_version a = false /\ in_dirties a = true /\ loaded_from_db a = bool_decide (is_Some (in_GetAccount i addr)) /\
      deleted a = bool_decide (body a = None) /\
      match body a with
      | None => sp_main sp !! account_key addr = None /\ w = ∅
      | Some b => exists sl, quiet_body w addr b sl /\ sink_agrees sp addr b sl
      end
  end.

Definition sp0 : SpecSink := mkSpecSink (inl <$> m0) ∅.
Definition sink_of (os : list OutOp) : SpecSink := spec_outs stored_slots 0 sp0 os.

(** The trace so far. *)
Record trace_ok (os : list OutOp) : Prop := mkTraceOk {
  to_legal : all_legal r stored_slots 0 sp0 os;
  to_muts k m : sp_muts (sink_of os) !! k = Some m -> (k < length os)%nat /\ sm_done m = None;
  to_main key k : sp_main (sink_of os) !! key = Some (inr k) -> exists addr, key = account_key addr;
  to_rest key : (forall addr, key <> account_key addr) -> sp_main (sink_of os) !! key = inl <$> m0 !! key;
}.

Lemma spec_outs_app os os' : forall n sp, spec_outs stored_slots n sp (os ++ os') = spec_outs stored_slots (n + length os) (spec_outs stored_slots n sp os) os'.
Proof.
  induction os as [|o os IH]; intros n sp; simpl; [by rewrite Nat.add_0_r|]. rewrite IH. f_equal. lia.
Qed.

Lemma all_legal_app os os' : forall n sp, all_legal r stored_slots n sp (os ++ os') <->
  all_legal r stored_slots n sp os /\ all_legal r stored_slots (n + length os) (spec_outs stored_slots n sp os) os'.
Proof.
  induction os as [|o os IH]; intros n sp; simpl; [rewrite Nat.add_0_r; tauto|]. rewrite IH. replace (S n + length os)%nat with (n + S (length os))%nat by lia. tauto.
Qed.

Lemma sink_of_snoc os o : sink_of (os ++ [o]) = spec_out stored_slots (length os) (sink_of os) o.
Proof. unfold sink_of. by rewrite spec_outs_app. Qed.

Lemma trace_snoc os o : trace_ok os -> legal r stored_slots (sink_of os) (length os) o ->
  (forall k m, sp_muts (sink_of (os ++ [o])) !! k = Some m -> (k < S (length os))%nat /\ sm_done m = None) ->
  (forall key k, sp_main (sink_of (os ++ [o])) !! key = Some (inr k) -> exists addr, key = account_key addr) ->
  (forall key, (forall addr, key <> account_key addr) -> sp_main (sink_of (os ++ [o])) !! key = sp_main (sink_of os) !! key) ->
  trace_ok (os ++ [o]).
Proof.
  intros [Hl _ _ Hrest] Ho Hm Hk Hr. split; [|rewrite length_app; simpl; intros k m E; destruct (Hm k m E); split; [lia|done]|done|intros key Hkey; rewrite Hr; auto].
  apply all_legal_app. split; [done|]. by split.
Qed.

(** Calls for one account leave the others alone. *)
Definition others_agree (addr : Address) (sp sp' : SpecSink) : Prop :=
  forall w addr' o, addr' <> addr -> agrees w sp addr' o -> agrees w sp' addr' o.

Lemma agrees_frame w sp sp' addr o : sp_main sp' !! account_key addr = sp_main sp !! account_key addr ->
  (forall k m, sp_muts sp !! k = Some m -> sm_addr m = addr -> sp_muts sp' !! k = Some m) -> agrees w sp addr o -> agrees w sp' addr o.
Proof.
  intros Hm Hk. unfold agrees. destruct o as [a|]; rewrite Hm; [|done]. destruct (body a) as [b|]; [|done].
  intros (? & ? & ? & ? & sl & Hq & k & m & ? & ? & ? & ? & ? & ? & ?). split_and!; try done. exists sl. split; [done|]. exists k, m. rewrite Hm. split_and!; auto.
Qed.

Lemma key_ne addr addr' : addr' <> addr -> account_key addr <> account_key addr'.
Proof. intros Hne E. apply Hne. symmetry. by apply (proj1 Hclash). Qed.

Lemma trace_delete os addr : trace_ok os -> let os' := os ++ [OutDelete addr] in
  trace_ok os' /\ sp_main (sink_of os') !! account_key addr = None /\ others_agree addr (sink_of os) (sink_of os').
Proof.
  intros Ht os'. subst os'. pose proof (sink_of_snoc os (OutDelete addr)) as E. cbn [spec_out] in E. split_and!.
  - apply trace_snoc; [done|done|rewrite E; intros k m Hk..|]; cbn [sp_main sp_muts] in *.
    + destruct (to_muts _ Ht k m Hk). split; [lia|done].
    + apply lookup_delete_Some in Hk as [_ Hk]. by eapply to_main.
    + intros key Hkey. rewrite E. cbn [sp_main]. rewrite lookup_delete_ne; [done|]. by intros <-; apply (Hkey addr).
  - rewrite E. apply lookup_delete_eq.
  - intros w addr' o Hne. rewrite E. apply agrees_frame; [|done]. cbn [sp_main]. rewrite lookup_delete_ne; [done|]. by apply key_ne.
Qed.

Lemma trace_start os addr : trace_ok os -> let os' := os ++ [StartMutation addr] in
  trace_ok os' /\ sp_muts (sink_of os') !! length os = Some (mkSpecMut addr no_account false None None) /\
  sp_main (sink_of os') = sp_main (sink_of os) /\ forall w addr' o, agrees w (sink_of os) addr' o -> agrees w (sink_of os') addr' o.
Proof.
  intros Ht os'. subst os'. pose proof (sink_of_snoc os (StartMutation addr)) as E. cbn [spec_out] in E.
  assert (sp_muts (sink_of os) !! length os = None) as Hfree.
  { destruct (_ !! _) as [m|] eqn:Em; [|done]. apply (to_muts _ Ht) in Em as [? _]. lia. }
  split_and!.
  - apply trace_snoc; [done|done|rewrite E; intros k m Hk..|]; cbn [sp_main sp_muts] in *.
    + apply lookup_insert_Some in Hk as [[<- <-]|[_ Hk]]; [split; [lia|done]|]. destruct (to_muts _ Ht k m Hk). split; [lia|done].
    + by eapply to_main.
    + by rewrite E.
  - rewrite E. apply lookup_insert_eq.
  - by rewrite E.
  - intros w addr' o. rewrite E. apply agrees_frame; [done|]. intros k m Hk _. cbn [sp_muts]. rewrite lookup_insert_ne; [done|]. intros <-. congruence.
Qed.

Lemma trace_update os k m addr b : trace_ok os -> sp_muts (sink_of os) !! k = Some m -> sm_addr m = addr ->
  (sm_pending m = true -> sp_main (sink_of os) !! account_key addr = Some (inr k)) -> change_ok r stored_slots addr (change_of b) ->
  let os' := os ++ [Update k (change_of b)] in
  trace_ok os' /\ sp_muts (sink_of os') !! k = Some (spec_update stored_slots m (change_of b)) /\
  sp_main (sink_of os') !! account_key addr = Some (inr k) /\ others_agree addr (sink_of os) (sink_of os').
Proof.
  intros Ht Hm Ha Hp Hch os'. subst os'. pose proof (sink_of_snoc os (Update k (change_of b))) as E. cbn [spec_out] in E. rewrite Hm, Ha in E.
  destruct (to_muts _ Ht k m Hm) as [Hk Hd]. split_and!.
  - apply trace_snoc; [done|exists m; rewrite Ha; done|rewrite E; intros x y Hx..|]; cbn [sp_main sp_muts] in *.
    + apply lookup_insert_Some in Hx as [[<- <-]|[_ Hx]]; [split; [lia|done]|]. destruct (to_muts _ Ht x y Hx). split; [lia|done].
    + destruct (sm_pending m); [by eapply to_main|]. apply lookup_insert_Some in Hx as [[<- _]|[_ Hx]]; [by exists addr|by eapply to_main].
    + intros key Hkey. rewrite E. cbn [sp_main]. destruct (sm_pending m); [done|]. rewrite lookup_insert_ne; [done|]. by intros <-; apply (Hkey addr).
  - rewrite E. apply lookup_insert_eq.
  - rewrite E. cbn [sp_main]. destruct (sm_pending m); [by apply Hp|apply lookup_insert_eq].
  - intros w addr' o Hne. rewrite E. apply agrees_frame; cbn [sp_main sp_muts].
    + destruct (sm_pending m); [done|]. rewrite lookup_insert_ne; [done|]. by apply key_ne.
    + intros x y Hx Hy. rewrite lookup_insert_ne; [done|]. intros <-. congruence.
Qed.

(** ** One account of a commit *)

(** What is assumed of the accounts a transaction leaves: they can be encoded,
    there are words in the slots, raw values have keys of 32 bytes, and the
    contracts of the chain have nothing in their slots but what they wrote
    raw.  [eo_new] leaves out what the code does reach: an account destroyed
    and created again in a block while the database still holds its slots.
    Then the EVM reads slots that the root does not commit to
    ([EvmFindings.stale_storage]). *)
Record entry_ok (addr : Address) (b : AccountBody) : Prop := mkEntryOk {
  eo_account : account_ok (b_acc b);
  eo_words : words_ok (StorageDirty b);
  eo_raw : raw_ok (RawStorageDirty b);
  eo_only_raw : has_raw addr -> StorageDirty b = ∅;
  eo_new : ~ has_raw addr -> StorageRootHash (b_acc b) = None -> forall key, read_storage i addr key = 0;
}.

(** An account before and after a transaction. *)
Record tx_at (addr : Address) (e0 e1 : AccountEntry) : Prop := mkTxAt {
  ta_dirties : in_dirties e1 = in_dirties e0;
  ta_loaded : loaded_from_db e1 = loaded_from_db e0;
  ta_deleted : deleted e1 = bool_decide (body e1 = None) && in_dirties e1;
  ta_body : match body e1 with
            | Some b => body_step i addr (default fresh_body (body e0)) b /\ body_wf b /\ entry_ok addr b
            | None => body e0 = None
            end;
  ta_touched b : body e1 = Some b -> mod_count b = 0 \/ mod_count b = times_touched b ->
    RawStorageDirty b = ∅ /\ exists b0 b', body e0 = Some b0 /\ recount b b' /\ same_body i addr b' b0;
}.

(** The entry that stands for an account of the database. *)
Definition entry_of (addr : Address) (o : option AccountEntry) : AccountEntry :=
  match o with
  | Some a => a
  | None => match in_GetAccount i addr with Some d => mkAccount (Some (body_of d)) false false true false | None => mkAccount None false false false false end
  end.

(** An account that did not change is still the one of the sink. *)
Lemma unchanged_agrees w sp addr sl b0 b b' : quiet_body w addr b0 sl -> sink_agrees sp addr b0 sl -> body_wf b -> RawStorageDirty b = ∅ ->
  recount b b' -> same_body i addr b' b0 ->
  let b1 := set_touched 0 (set_mod_count 0 b) in quiet_body w addr b1 sl /\ sink_agrees sp addr b1 sl.
Proof.
  intros [Qr Qw Qraw Qs Qm Qt Qc Qsl] (k & m & Hk & Hmain & Hmut & Ha & Hacc & Hp & Hsl) [Wh Wc] Hraw (t & n & ->) [].
  cbn [set_touched set_mod_count b_acc CodeDirty suicided sink RawStorageDirty] in *.
  assert (b_acc b = b_acc b0) as Eacc.
  { destruct (b_acc b) as [n1 v1 r1 h1 z1] eqn:E1, (b_acc b0) as [n2 v2 r2 h2 z2] eqn:E2; simpl in *. subst. f_equal.
    destruct (decide (z2 = 0)) as [->|Hz]; [|by apply sb_hash]. rewrite Wh by done. symmetry. destruct Qw as [Qw _]. rewrite E2 in Qw. by apply Qw. }
  split.
  - split; cbn [set_touched set_mod_count b_acc CodeDirty suicided sink RawStorageDirty mod_count times_touched]; try congruence.
    + rewrite Eacc. exact Qr.
    + by split.
    + destruct (CodeDirty b) eqn:Ec; [|done]. destruct (Wc eq_refl) as [h Hh]. destruct (decide (acc_CodeSize (b_acc b) = 0)) as [Hz|Hz]; [by rewrite Wh in Hh|].
      specialize (sb_code_dirty Hz). congruence.
    + eapply slots_hold_ext; [exact Qsl|]. intros key _. apply view_root; [exact (f_equal StorageRootHash Eacc)|]. apply (sb_state (be_to_uint key)).
  - exists k, m. cbn [set_touched set_mod_count sink b_acc]. unfold db_slots in *. cbn [set_touched set_mod_count b_acc]. rewrite Eacc. split_and!; congruence.
Qed.

(** The body before a transaction: that of the sink, of the database, or a new
    one. *)
Lemma base_slots w sp addr o : agrees w sp addr o -> let b0 := default fresh_body (body (entry_of addr o)) in
  exists sl, slots_hold sl (view w addr b0) /\
    (forall root, StorageRootHash (b_acc b0) = Some root -> exists d, in_GetAccount i addr = Some d /\ StorageRootHash d = Some root) /\
    ((sink b0 = None /\ sl = db_slots addr b0) \/ sink_agrees sp addr b0 sl).
Proof.
  assert (slots_hold ∅ (view ∅ addr fresh_body)) as Hf by (apply empty_slots; intros k _; by apply view_new).
  unfold agrees. destruct o as [a|]; cbn [entry_of].
  - destruct (body a) as [b|]; simpl.
    + intros (_ & _ & _ & _ & sl & [] & Hs). exists sl. auto.
    + intros (_ & _ & _ & _ & _ & ->). exists ∅. split_and!; try done. by left.
  - intros [_ ->]. destruct (in_GetAccount i addr) as [d|] eqn:E; simpl.
    + destruct (db_quiet addr d E) as [_ _ _ _ _ _ _ Hs]. exists (db_slots addr (body_of d)). split_and!; [done| |by left]. intros root Hr. by exists d.
    + exists ∅. split_and!; try done. by left.
Qed.

Lemma change_of_ok addr b : body_wf b -> entry_ok addr b ->
  (forall root, StorageRootHash (b_acc b) = Some root -> exists d, in_GetAccount i addr = Some d /\ StorageRootHash d = Some root) ->
  change_ok r stored_slots addr (change_of b).
Proof.
  intros [_ Hc] [Ha Hw Hraw _ _] Hroot. split; [done|done| |].
  - rewrite dirty_slots_hashed. apply Forall_app. split; apply Forall_map; (eapply Forall_impl; [by first [apply words_list|apply raw_list]|]); by intros e [_ He].
  - intros root Hr. destruct (Hroot root Hr) as (d & Hd & Hdr). destruct (do_root Hdb addr d root Hd Hdr) as [[Hk _] Ht]. done.
Qed.

(** The view after the dirty slots have been written. *)
Lemma view_change w addr b0 b k : length k = 32%nat -> body_step i addr b0 b -> entry_ok addr b -> (~ has_raw addr -> RawStorageDirty b = ∅) ->
  view (RawStorageDirty b ∪ w) addr b k = default (default (view w addr b0 k) (big_Bytes <$> StorageDirty b !! be_to_uint k)) (RawStorageDirty b !! k).
Proof.
  intros Hk Hstep Hok Hraw. unfold view, db_slot. rewrite (bt_root _ _ _ _ Hstep), lookup_union. destruct (decide (has_raw addr)) as [Hr|Hr].
  - rewrite (eo_only_raw _ _ Hok Hr), lookup_empty. cbn [fmap option_fmap option_map default]. destruct (RawStorageDirty b !! k); [by destruct (w !! k)|by rewrite (left_id_L None _)].
  - rewrite (Hraw Hr), lookup_empty. cbn [default]. rewrite (step_state i addr b0 b) by done. by destruct (StorageDirty b !! be_to_uint k).
Qed.

(** The slots after an update of its mutation. *)
Lemma updated_slots w sl addr b0 b m : slots_hold sl (view w addr b0) -> body_step i addr b0 b -> entry_ok addr b -> (~ has_raw addr -> RawStorageDirty b = ∅) ->
  sm_addr m = addr -> sl = default (db_slots addr b) (sm_slots m) ->
  slots_hold (default (db_slots addr b) (sm_slots (spec_update stored_slots m (change_of b)))) (view (RawStorageDirty b ∪ w) addr b).
Proof.
  intros Hsl Hstep Hok Hraw Ha Esl.
  assert (slots_hold (spec_slots sl (change_of b)) (view (RawStorageDirty b ∪ w) addr b)) as Hnew.
  { eapply slots_hold_ext; [apply slots_hold_change; [exact Hsl|apply (eo_words _ _ Hok)|apply (eo_raw _ _ Hok)]|]. intros k Hk. by apply view_change. }
  unfold spec_update, clean. cbn [sm_slots change_of ch_StorageDirty ch_RawStorageDirty]. case_bool_decide as Hd; [case_bool_decide as Hr|]; cbn [andb].
  - rewrite <- Esl. unfold spec_slots in Hnew. rewrite dirty_slots_hashed, Hd, Hr, !map_to_list_empty in Hnew. rewrite Hr. exact Hnew.
  - cbn [default]. rewrite Ha. change (first_slots stored_slots addr (change_of b)) with (db_slots addr b). by rewrite <- Esl.
  - cbn [default]. rewrite Ha. change (first_slots stored_slots addr (change_of b)) with (db_slots addr b). by rewrite <- Esl.
Qed.

Definition uncounted (b : AccountBody) : AccountBody := set_touched 0 (set_mod_count 0 b).

Lemma settled_agrees w os addr k m b0 b sl : trace_ok os -> sp_muts (sink_of os) !! k = Some m -> sm_addr m = addr ->
  (sm_pending m = true -> sp_main (sink_of os) !! account_key addr = Some (inr k)) -> sl = default (db_slots addr b) (sm_slots m) ->
  slots_hold sl (view w addr b0) -> (~ has_raw addr -> RawStorageDirty b = ∅) ->
  (forall root, StorageRootHash (b_acc b0) = Some root -> exists d, in_GetAccount i addr = Some d /\ StorageRootHash d = Some root) ->
  body_step i addr b0 b -> body_wf b -> entry_ok addr b -> suicided b = false ->
  let os' := os ++ [Update k (change_of (uncounted b))] in
  trace_ok os' /\ others_agree addr (sink_of os) (sink_of os') /\
  exists sl', quiet_body (RawStorageDirty b ∪ w) addr (settled k (uncounted b)) sl' /\ sink_agrees (sink_of os') addr (settled k (uncounted b)) sl'.
Proof.
  intros Ht Hm Ha Hp Esl Hsl Hraw Hroot0 Hstep Hwf Hok Hsu os'.
  assert (forall root, StorageRootHash (b_acc b) = Some root -> exists d, in_GetAccount i addr = Some d /\ StorageRootHash d = Some root) as Hroot.
  { rewrite (bt_root _ _ _ _ Hstep). done. }
  destruct (trace_update os k m addr b Ht Hm Ha Hp (change_of_ok addr b Hwf Hok Hroot)) as (Ht' & Hm' & Hmain & Hoth).
  change (Update k (change_of b)) with (Update k (change_of (uncounted b))) in Ht', Hm', Hmain, Hoth. fold os' in Ht', Hm', Hmain, Hoth.
  split; [done|]. split; [done|]. eexists. split; [split|].
  - exact Hroot.
  - destruct Hwf. by split.
  - done.
  - exact Hsu.
  - done.
  - done.
  - done.
  - eapply slots_hold_ext; [exact (updated_slots w sl addr b0 b m Hsl Hstep Hok Hraw Ha Esl)|]. intros key Hkey. unfold view.
    destruct (decide (has_raw addr)) as [Hr|Hr]; [done|]. f_equal. apply (settled_state i addr k (uncounted b)). intros Hn. by apply (eo_new _ _ Hok Hr Hn).
  - eexists k, _. split_and!; [done|exact Hmain|exact Hm'|exact Ha|done|done|done].
Qed.

(** [flush] passes on a change of an account. *)
Lemma flush_updated w os addr o b : trace_ok os -> agrees w (sink_of os) addr o -> (~ has_raw addr -> RawStorageDirty b = ∅) ->
  body_step i addr (default fresh_body (body (entry_of addr o))) b -> body_wf b -> entry_ok addr b -> suicided b = false ->
  let '(k, out) := match sink b with Some k => (k, os) | None => (length os, os ++ [StartMutation addr]) end in
  let os' := out ++ [Update k (change_of (uncounted b))] in
  trace_ok os' /\ others_agree addr (sink_of os) (sink_of os') /\
  exists sl', quiet_body (RawStorageDirty b ∪ w) addr (settled k (uncounted b)) sl' /\ sink_agrees (sink_of os') addr (settled k (uncounted b)) sl'.
Proof.
  intros Ht Hag Hraw Hstep Hwf Hok Hsu. destruct (base_slots _ _ _ _ Hag) as (sl & Hsl & Hroot & Hsink). rewrite (bt_sink _ _ _ _ Hstep).
  assert (db_slots addr b = db_slots addr (default fresh_body (body (entry_of addr o)))) as Edb by (unfold db_slots; by rewrite (bt_root _ _ _ _ Hstep)).
  destruct Hsink as [[-> ->]|(k & m & -> & Hmain & Hm & Ha & _ & _ & ->)].
  - destruct (trace_start os addr Ht) as (Ht1 & Hm1 & Hmain1 & Hoth1).
    destruct (settled_agrees w _ addr (length os) _ (default fresh_body (body (entry_of addr o))) b (db_slots addr b) Ht1 Hm1) as (Ht' & Hoth & Hq); try done; [by rewrite Edb|].
    split; [done|]. split; [|done]. intros w' addr' o' Hne Ho. apply Hoth; auto.
  - eapply settled_agrees; try done. by rewrite Edb.
Qed.

Lemma agrees_entry w sp addr o : agrees w sp addr o ->
  in_dirties (entry_of addr o) = bool_decide (is_Some o) /\ loaded_from_db (entry_of addr o) = bool_decide (is_Some (in_GetAccount i addr)).
Proof.
  unfold agrees. destruct o as [a|]; cbn [entry_of].
  - intros (_ & -> & -> & _). by rewrite bool_decide_eq_true_2 by by eexists.
  - intros _. by destruct (in_GetAccount i addr).
Qed.

(** What a commit does with the entry of an account. *)
Definition keep_entry (addr : Address) (a : AccountEntry) (t : TransitionState) : TransitionState :=
  if in_dirties a then set_accounts (<[addr := a]> (accounts t)) t else set_accounts (delete addr (accounts t)) t.

(** The raw values written so far, with those of a transaction, from the body
    before and the body after its commit. *)
Definition raw_after (w : gmap bytes bytes) (b b' : option AccountBody) : gmap bytes bytes :=
  match b' with
  | None => ∅
  | Some _ => match b with Some b => RawStorageDirty b ∪ w | None => w end
  end.

Record committed_at (w' : gmap bytes bytes) (addr : Address) (os os' : list OutOp) (t t' : TransitionState) : Prop := mkCommittedAt {
  ca_trace : trace_ok os';
  ca_others : others_agree addr (sink_of os) (sink_of os');
  ca_agrees : agrees w' (sink_of os') addr (accounts t' !! addr);
  ca_accounts addr' : addr' <> addr -> accounts t' !! addr' = accounts t !! addr';
  ca_in : ts_in t' = ts_in t;
  ca_dirties : dirties t' = dirties t ++ (if negb (in_dirties (load t addr)) && bool_decide (is_Some (accounts t' !! addr)) then [addr] else []);
  ca_keeps : in_dirties (load t addr) = true -> is_Some (accounts t' !! addr);
}.

Lemma keep_committed w' addr os os' t a : trace_ok os' -> others_agree addr (sink_of os) (sink_of os') -> in_dirties a = in_dirties (load t addr) ->
  agrees w' (sink_of os') addr (if in_dirties a then Some a else None) -> committed_at w' addr os os' t (keep_entry addr a t).
Proof.
  intros Ht Ho Hd Ha. unfold keep_entry. destruct (in_dirties a) eqn:E; split; try done; cbn [set_accounts accounts dirties].
  - by rewrite lookup_insert_eq.
  - intros addr' Hne. by rewrite lookup_insert_ne.
  - by rewrite <- Hd, app_nil_r.
  - rewrite lookup_insert_eq. by eexists.
  - by rewrite lookup_delete_eq.
  - intros addr' Hne. by rewrite lookup_delete_ne.
  - rewrite lookup_delete_eq, <- Hd. by rewrite app_nil_r.
  - by rewrite <- Hd.
Qed.

Lemma enter_committed w' addr os os' t a : trace_ok os' -> others_agree addr (sink_of os) (sink_of os') -> in_dirties (load t addr) = false ->
  in_dirties a = true -> agrees w' (sink_of os') addr (Some a) ->
  committed_at w' addr os os' t (set_accounts (<[addr := a]> (accounts t)) (set_dirties (dirties t ++ [addr]) t)).
Proof.
  intros Ht Ho Hd Hin Ha. split; try done; cbn [set_accounts set_dirties accounts dirties].
  - by rewrite lookup_insert_eq.
  - intros addr' Hne. by rewrite lookup_insert_ne.
  - rewrite lookup_insert_eq, Hd, bool_decide_eq_true_2 by by eexists. done.
  - by rewrite Hd.
Qed.

Lemma others_refl addr sp : others_agree addr sp sp.
Proof. by intros w addr' o _ Ho. Qed.

(** The end of [commit_account], by what [flush] returned. *)
Definition finish (addr : Address) (status : acc_dirty_status) (a : AccountEntry) (t : TransitionState) : TransitionState :=
  let a := set_deleted (is_status status Deleted) a in
  let enters := negb (in_dirties a) && (is_status status Updated || (deleted a && loaded_from_db a)) in
  let a := if enters then set_in_dirties true a else a in
  keep_entry addr a (if enters then set_dirties (dirties t ++ [addr]) t else t).

Lemma commit_account_eq addr os t : commit_account addr os t =
  if deleted (load t addr) then Done os (set_accounts (<[addr := set_in_curr false (load t addr)]> (accounts t)) t)
  else let '(a, out, status) := flush addr os (set_in_curr false (load t addr)) in Done out (finish addr status a t).
Proof.
  unfold commit_account. cbn [set_in_curr deleted]. destruct (deleted (load t addr)); [done|]. destruct (flush _ _ _) as [[a out] status].
  unfold finish, keep_entry. by destruct (in_dirties _).
Qed.

Lemma finish_stays addr status a t : in_dirties a = true \/ status = Unmodified \/ (status = Deleted /\ loaded_from_db a = false) ->
  finish addr status a t = keep_entry addr (set_deleted (is_status status Deleted) a) t.
Proof.
  intros Ha. unfold finish. cbn [set_deleted in_dirties deleted loaded_from_db].
  replace (negb (in_dirties a) && _) with false; [done|]. destruct Ha as [->|[->|[-> ->]]]; [done|..]; by destruct (in_dirties a).
Qed.

Lemma finish_enters addr status a t : in_dirties a = false -> status = Updated \/ (status = Deleted /\ loaded_from_db a = true) ->
  finish addr status a t = set_accounts (<[addr := set_in_dirties true (set_deleted (is_status status Deleted) a)]> (accounts t)) (set_dirties (dirties t ++ [addr]) t).
Proof. intros Ha Hs. unfold finish. cbn [set_deleted in_dirties deleted loaded_from_db]. rewrite Ha. by destruct Hs as [->|[-> ->]]. Qed.

(** What stays of an account after its commit. *)
Definition left_of (addr : Address) (t : TransitionState) : option AccountBody := body (entry_of addr (accounts t !! addr)).

Lemma left_keep addr a t : left_of addr (keep_entry addr a t) = body (if in_dirties a then a else entry_of addr None).
Proof. unfold left_of, keep_entry. destruct (in_dirties a); cbn [set_accounts accounts]; by rewrite ?lookup_insert_eq, ?lookup_delete_eq. Qed.

Lemma left_enter addr a t x : left_of addr (set_accounts (<[addr := a]> (accounts t)) x) = body a.
Proof. unfold left_of. cbn [set_accounts accounts]. by rewrite lookup_insert_eq. Qed.

Lemma raw_after_same w b b' : RawStorageDirty b = ∅ -> (b' = None -> w = ∅) -> raw_after w (Some b) b' = w.
Proof. intros Hr Hn. unfold raw_after. rewrite Hr, (left_id_L ∅ _). destruct b'; [done|]. symmetry. by apply Hn. Qed.

(** An account that is not changed. *)
Lemma commit_unmodified w addr os t o b : tx_at addr (entry_of addr o) (load t addr) -> agrees w (sink_of os) addr o -> trace_ok os ->
  body (load t addr) = Some b -> mod_count b = 0 \/ mod_count b = times_touched b ->
  let t' := finish addr Unmodified (set_body (Some (uncounted b)) (set_in_curr false (load t addr))) t in
  committed_at (raw_after w (Some b) (left_of addr t')) addr os os t t'.
Proof.
  intros [Hd Hl _ Hbody Htou] Hag Ht Eb Hq t'. subst t'. destruct (agrees_entry _ _ _ _ Hag) as [Ed El]. rewrite Ed in Hd. rewrite El in Hl.
  destruct (Htou b Eb Hq) as (Hraw & b0 & b' & Hb0 & Hr & Hs). rewrite Eb in Hbody. destruct Hbody as (_ & Hwf & _).
  rewrite finish_stays by auto. rewrite left_keep. cbn [in_dirties set_deleted set_body set_in_curr]. rewrite Hd.
  rewrite raw_after_same; [|done|].
  - apply keep_committed; [done|apply others_refl|done|]. cbn [in_dirties set_deleted set_body set_in_curr]. rewrite Hd.
    destruct o as [a|]; [rewrite bool_decide_eq_true_2 by by eexists|done].
    cbn [entry_of] in Hb0. unfold agrees in Hag. rewrite Hb0 in Hag. destruct Hag as (_ & _ & _ & _ & sl & Hqb & Hsa).
    split_and!; [done|change (in_dirties (load t addr) = true); by rewrite Hd, bool_decide_eq_true_2 by by eexists| |done|].
    + exact Hl.
    + exists sl. by eapply unchanged_agrees.
  - destruct o as [a|]; [by rewrite bool_decide_eq_true_2 by by eexists|]. by destruct Hag.
Qed.

Lemma commit_account_ok w addr os t o : tx_at addr (entry_of addr o) (load t addr) -> agrees w (sink_of os) addr o -> trace_ok os ->
  (forall b, body (load t addr) = Some b -> ~ has_raw addr -> RawStorageDirty b = ∅) ->
  exists os' t', commit_account addr os t = Done os' t' /\ committed_at (raw_after w (body (load t addr)) (left_of addr t')) addr os os' t t'.
Proof.
  intros Htx Hag Ht Hraw. pose proof Htx as [Hd Hl Hdel Hbody _]. destruct (agrees_entry _ _ _ _ Hag) as [Ed El]. rewrite Ed in Hd. rewrite El in Hl.
  rewrite commit_account_eq. pose proof (commit_unmodified w addr os t o) as Hun. set (e1 := load t addr) in *. destruct (body e1) as [b|] eqn:Eb.
  - (* the account is there *)
    rewrite Hdel, bool_decide_eq_false_2 by done. cbn [andb]. destruct Hbody as (Hstep & Hwf & Hok). specialize (Hraw b eq_refl).
    unfold flush. cbn [body set_in_curr]. rewrite Eb. fold (uncounted b). cbn [uncounted set_touched set_mod_count suicided].
    specialize (Hun b Htx Hag Ht eq_refl).
    destruct (Z.eqb_spec (mod_count b) 0) as [Hm|Hm]; [eexists _, _; split; [reflexivity|]; apply Hun; by left|].
    destruct (suicided b || body_empty _) eqn:Edead.
    + (* destroyed, or empty *)
      destruct (trace_delete os addr Ht) as (Ht' & Hmain & Hoth). eexists _, _. split; [reflexivity|].
      set (a := set_body None (set_in_curr false e1)).
      assert (forall x, agrees ∅ (sink_of (os ++ [OutDelete addr])) addr (Some (set_in_dirties x (set_deleted true a))) <-> x = true) as Hsome.
      { intros x. unfold agrees, a. cbn [in_curr_version set_in_dirties set_deleted set_body set_in_curr in_dirties loaded_from_db deleted body]. rewrite Hmain. split; [by intros (_ & ? & _)|by intros ->]. }
      destruct (in_dirties e1) eqn:Ein; [|destruct (loaded_from_db e1) eqn:Elo].
      * rewrite finish_stays by by left. rewrite left_keep. cbn [in_dirties set_deleted set_body set_in_curr a]. rewrite Ein.
        apply keep_committed; [done|done|done|]. cbn [in_dirties set_deleted set_body set_in_curr a]. rewrite Ein.
        replace (set_deleted (is_status Deleted Deleted) a) with (set_in_dirties true (set_deleted true a)); [by apply Hsome|]. unfold set_in_dirties, a, set_deleted, set_body, set_in_curr. cbn. by rewrite Ein.
      * rewrite finish_enters by (cbn; auto). rewrite left_enter. by apply enter_committed; [..|apply Hsome].
      * symmetry in Hl. apply bool_decide_eq_false in Hl. apply eq_None_not_Some in Hl.
        rewrite finish_stays by auto. rewrite left_keep. cbn [in_dirties set_deleted set_body set_in_curr a entry_of]. rewrite Ein, Hl.
        apply keep_committed; [done|done|done|]. cbn [in_dirties set_deleted set_body set_in_curr a]. rewrite Ein.
        unfold agrees. by rewrite Hmain, Hl.
    + apply orb_false_elim in Edead as [Hsu _]. destruct (Z.eqb_spec (mod_count b) (times_touched b)) as [Hq|Hq]; [eexists _, _; split; [reflexivity|]; apply Hun; by right|].
      (* changed *)
      pose proof (flush_updated w os addr o b Ht Hag Hraw Hstep Hwf Hok Hsu) as Hf. change (sink (uncounted b)) with (sink b).
      destruct (match sink b with Some k => (k, os) | None => (length os, os ++ [StartMutation addr]) end) as [k out].
      destruct Hf as (Ht' & Hoth & sl & Hqb & Hsa). eexists _, _. split; [reflexivity|].
      assert (agrees (RawStorageDirty b ∪ w) (sink_of (out ++ [Update k (change_of (uncounted b))])) addr
        (Some (set_in_dirties true (set_deleted false (set_body (Some (settled k (uncounted b))) (set_in_curr false e1)))))) as Hsome.
      { split_and!; [done|done|done|done|]. by exists sl. }
      destruct (in_dirties e1) eqn:Ein.
      * rewrite finish_stays by by left. rewrite left_keep. cbn [in_dirties set_deleted set_body set_in_curr]. rewrite Ein.
        apply keep_committed; [done|done|done|]. cbn [in_dirties set_deleted set_body set_in_curr]. rewrite Ein.
        unfold set_in_dirties in Hsome. cbn [set_deleted set_body set_in_curr] in Hsome. unfold set_deleted, set_body, set_in_curr in Hsome |- *. cbn in Hsome |- *. by rewrite Ein.
      * rewrite finish_enters by auto. rewrite left_enter. by apply enter_committed.
  - (* there is no account *)
    rewrite Hdel, bool_decide_eq_true_2 by done. cbn [andb]. destruct (in_dirties e1) eqn:Ein.
    + eexists _, _. split; [reflexivity|]. replace (set_accounts _ t) with (keep_entry addr (set_in_curr false e1) t) by (unfold keep_entry; cbn [in_dirties set_in_curr]; by rewrite Ein).
      rewrite left_keep. cbn [in_dirties set_in_curr]. rewrite Ein. cbn [body set_in_curr]. rewrite Eb. cbn [raw_after].
      apply keep_committed; [done|apply others_refl|done|]. cbn [in_dirties set_in_curr]. rewrite Ein. destruct o as [a|]; [|done].
      cbn [entry_of] in Hbody. unfold agrees in Hag. rewrite Hbody in Hag. destruct Hag as (_ & _ & _ & _ & Hmain & ->).
      unfold agrees. cbn [in_curr_version set_in_curr in_dirties loaded_from_db deleted body]. rewrite Eb, Hdel, Ein, (bool_decide_eq_true_2 (None = None)) by done. by split_and!.
    + unfold flush. cbn [body set_in_curr]. rewrite Eb. eexists _, _. split; [reflexivity|]. rewrite finish_stays by auto.
      destruct o as [a|]; [done|]. pose proof Hag as [_ ->]. replace (raw_after _ _ _) with (∅ : gmap bytes bytes) by (by unfold raw_after; case_match).
      apply keep_committed; [done|apply others_refl|done|]. cbn [in_dirties set_deleted set_in_curr]. by rewrite Ein.
Qed.

(** ** A transaction *)
Record between (w : Address -> gmap bytes bytes) (os : list OutOp) (s : TransitionState) : Prop := mkBetween {
  bt_in : ts_in s = i;
  bt_reverts : ts_reverts s = [];
  bt_curr : accounts_in_curr_ver s = [];
  bt_nodup : NoDup (dirties s);
  bt_listed addr : addr ∈ dirties s <-> is_Some (accounts s !! addr);
  bt_trace : trace_ok os;
  bt_agrees addr : agrees (w addr) (sink_of os) addr (accounts s !! addr);
}.

Lemma load_entry s addr : ts_in s = i -> load s addr = entry_of addr (accounts s !! addr).
Proof. intros Hi. unfold load, entry_of. by rewrite Hi. Qed.

(** The counters of the RIPEMD account and of those with raw writes are not in
    the journal; that they agree with the changes excludes a wrap-around. *)
Record tx_ok (s : TransitionState) : Prop := mkTxOk {
  xo_entries addr b : addr ∈ accounts_in_curr_ver s -> body (load s addr) = Some b -> entry_ok addr b;
  xo_length : Z.of_nat (length (ts_reverts s)) < 2 ^ 32;
  xo_ripemd : counted ripemd_addr s;
  xo_raw addr b : has_raw addr -> body (load s addr) = Some b -> RawStorageDirty b <> ∅ -> mod_count b <> 0 /\ mod_count b <> times_touched b;
}.

Lemma between_entry w os s addr : between w os s -> let e := entry_of addr (accounts s !! addr) in
  in_curr_version e = false /\ deleted e = bool_decide (body e = None) && in_dirties e /\
  match body e with
  | Some b => body_wf b /\ RawStorageDirty b = ∅ /\ mod_count b = 0 /\ times_touched b = 0
  | None => w addr = ∅
  end.
Proof.
  intros [_ _ _ _ _ _ Ha]. specialize (Ha addr). unfold agrees in Ha. destruct (accounts s !! addr) as [a|]; cbn [entry_of].
  - destruct Ha as (-> & -> & _ & -> & Ha). rewrite andb_true_r. split_and!; [done|done|]. destruct (body a) as [b|]; [|by destruct Ha].
    destruct Ha as (sl & [] & _). done.
  - destruct Ha as [_ Hw]. destruct (in_GetAccount i addr) as [d|] eqn:E; [|done]. split_and!; [done|done|]. by destruct (db_quiet addr d E).
Qed.

Lemma between_tracked w os s : between w os s -> tracked s s.
Proof.
  intros Hb. pose proof Hb as [Hi Hr Hc _ _ _ _]. apply tracked_start; [done|done| |].
  - intros addr. rewrite load_entry by done. destruct (between_entry _ _ _ addr Hb) as (? & ? & _). done.
  - intros addr b. rewrite load_entry by done. intros E. destruct (between_entry _ _ _ addr Hb) as (_ & _ & Hq). rewrite E in Hq. tauto.
Qed.

(** Only the contracts of the chain have raw values. *)
Lemma no_raw w os s s1 addr b : between w os s -> tracked s s1 -> body (load s1 addr) = Some b -> ~ has_raw addr -> RawStorageDirty b = ∅.
Proof.
  intros Hb Ht E Hr. pose proof (tk_body _ _ Ht addr) as Hbody. rewrite E in Hbody. destruct Hbody as (Hs & _). rewrite (bt_raw _ _ _ _ Hs Hr).
  rewrite load_entry by apply (bt_in _ _ _ Hb). destruct (between_entry _ _ _ addr Hb) as (_ & _ & Hq).
  destruct (body (entry_of addr _)); [apply Hq|done].
Qed.

Lemma tx_at_intro w os s s1 addr : between w os s -> journalled 0 s s1 -> tx_ok s1 -> addr ∈ accounts_in_curr_ver s1 ->
  tx_at addr (load s addr) (load s1 addr).
Proof.
  intros Hb Hj [He Hl Hr Hx] Hin. pose proof (between_tracked w os s Hb) as H0. pose proof (tracked_journalled _ _ _ Hj s H0) as Ht.
  split.
  - apply (tk_flags _ _ Ht).
  - apply (tk_flags _ _ Ht).
  - apply (tk_deleted _ _ Ht).
  - pose proof (tk_body _ _ Ht addr) as Hbody. rewrite (bt_in _ _ _ Hb) in Hbody. destruct (body (load s1 addr)) as [b|] eqn:E; [|by destruct Hbody].
    destruct Hbody as (? & ? & _). split_and!; [done|done|]. by apply He.
  - intros b E Hq. assert (RawStorageDirty b = ∅) as Hraw.
    { destruct (decide (has_raw addr)) as [Hra|Hra]; [|by eapply no_raw]. destruct (decide (RawStorageDirty b = ∅)) as [|Hne]; [done|].
      destruct (Hx addr b Hra E Hne) as [? ?]. by destruct Hq. }
    split; [done|]. assert (counted addr s1) as Hc.
    { destruct (decide (addr = ripemd_addr)) as [->|Hne]; [done|]. eapply tracked_counted; [done|done| |done]. intros b'. rewrite E. by intros [= <-]. }
    destruct (Hc b E) as [Hc0 Hc1]. rewrite <- (bt_in _ _ _ Hb). apply (touched_only s s1 addr b (bt_reverts _ _ _ Hb)); [|..|done].
    + by eapply (journalled_undoes 0); [rewrite (bt_reverts _ _ _ Hb)|].
    + destruct Hq as [Hq|Hq]; [|auto]. unfold all_touches. rewrite Hc0 by done. constructor.
Qed.

Lemma commit_accounts_ok w s s1 : ts_in s = i -> ts_in s1 = i -> forall l os t, NoDup l ->
  (forall addr, addr ∈ l -> tx_at addr (load s addr) (load s1 addr) /\ forall b, body (load s1 addr) = Some b -> ~ has_raw addr -> RawStorageDirty b = ∅) ->
  ts_in t = i -> trace_ok os ->
  (forall addr, addr ∈ l -> accounts t !! addr = accounts s1 !! addr /\ agrees (w addr) (sink_of os) addr (accounts s !! addr)) ->
  (forall addr, addr ∉ l -> agrees (raw_after (w addr) (body (load s1 addr)) (left_of addr t)) (sink_of os) addr (accounts t !! addr)) ->
  NoDup (dirties t) -> (forall addr, addr ∈ dirties t <-> if decide (addr ∈ l) then in_dirties (load s1 addr) = true else is_Some (accounts t !! addr)) ->
  exists os' t', commit_accounts l os t = Done os' t' /\ trace_ok os' /\
    (forall addr, agrees (raw_after (w addr) (body (load s1 addr)) (left_of addr t')) (sink_of os') addr (accounts t' !! addr)) /\
    ts_in t' = i /\ NoDup (dirties t') /\ forall addr, addr ∈ dirties t' <-> is_Some (accounts t' !! addr).
Proof.
  intros Hi Hi1. induction l as [|addr l IH]; intros os t Hl Htx Hit Htr Hin Hout Hd Hdl.
  - exists os, t. split_and!; try done. intros addr. apply Hout, not_elem_of_nil.
  - apply NoDup_cons in Hl as [Hal Hl]. destruct (Hin addr) as [Eacc Hag]; [left|]. destruct (Htx addr) as [Htxa Hraw]; [left|].
    assert (load t addr = load s1 addr) as Eload by (rewrite !load_entry by done; by rewrite Eacc).
    assert (addr ∈ dirties t <-> in_dirties (load t addr) = true) as Hda by (rewrite Hdl, decide_True, Eload by left; done).
    destruct (commit_account_ok (w addr) addr os t (accounts s !! addr)) as (os1 & t1 & E & [Ct Co Ca Cacc Ci Cd Ck]); [by rewrite <- load_entry, Eload|done|done|by rewrite Eload|].
    rewrite Eload in Ca. destruct (IH os1 t1) as (os' & t' & E' & Hfin); [done| |congruence|done|..].
    + intros x Hx. apply Htx. by right.
    + intros x Hx. assert (x <> addr) as Hne by (by intros ->). destruct (Hin x) as [E1 Ha]; [by right|]. split; [by rewrite Cacc|]. by apply Co.
    + intros x Hx. destruct (decide (x = addr)) as [->|Hne]; [done|]. unfold left_of. rewrite Cacc by done. apply Co; [done|]. apply Hout. by intros [?|?]%elem_of_cons.
    + rewrite Cd. apply NoDup_app. split_and!; [done| |by case_match; repeat constructor; apply not_elem_of_nil].
      intros x Hx Hx'. destruct (in_dirties (load t addr)) eqn:Ein; cbn [negb andb] in Hx'; [by apply not_elem_of_nil in Hx'|].
      case_match; [|by apply not_elem_of_nil in Hx']. apply list_elem_of_singleton in Hx' as ->. by apply Hda in Hx.
    + intros x. rewrite Cd, elem_of_app. destruct (decide (x = addr)) as [->|Hne].
      * rewrite decide_False by done. rewrite Hda. destruct (in_dirties (load t addr)) eqn:Ein; cbn [negb andb].
        -- split; [by intros _; apply Ck|by left].
        -- case_bool_decide as Hs; [|split; [intros [?|?%not_elem_of_nil]; done|done]]. split; [done|]. intros _. right. by apply list_elem_of_singleton.
      * rewrite Hdl, (Cacc x) by done. assert (x ∉ (if negb (in_dirties (load t addr)) && bool_decide (is_Some (accounts t1 !! addr)) then [addr] else [])) as Hn.
        { case_match; [by intros ?%list_elem_of_singleton|apply not_elem_of_nil]. }
        destruct (decide (x ∈ l)) as [Hxl|Hxl].
        -- rewrite decide_True by (by right). tauto.
        -- rewrite decide_False by (by intros [?|?]%elem_of_cons). tauto.
    + exists os', t'. split; [|done]. cbn [commit_accounts]. by rewrite (bind_done _ _ _ _ _ E).
Qed.

(** The raw values after a transaction that left [s1] and was committed to [s2]. *)
Definition raw_committed (w : Address -> gmap bytes bytes) (s1 s2 : TransitionState) (addr : Address) : gmap bytes bytes :=
  raw_after (w addr) (body (load s1 addr)) (body (load s2 addr)).

(** [CommitTransaction] brings sink and state together again. *)
Lemma commit_transaction_ok w os s s1 : between w os s -> journalled 0 s s1 -> tx_ok s1 ->
  exists os' s2, CommitTransaction os s1 = Done os' s2 /\ between (raw_committed w s1 s2) os' s2.
Proof.
  intros Hb Hj Hok. pose proof (tracked_journalled _ _ _ Hj s (between_tracked w os s Hb)) as Ht.
  pose proof (bt_in _ _ _ Hb) as Hi. assert (ts_in s1 = i) as Hi1 by (rewrite (tk_in _ _ Ht); done).
  destruct (commit_accounts_ok w s s1 Hi Hi1 (accounts_in_curr_ver s1) os s1) as (os' & t & E & Htr & Hag & Hit & Hnd & Hdl).
  - apply (tk_nodup _ _ Ht).
  - intros addr Hin. split; [by eapply tx_at_intro|]. intros b Hbd. by eapply no_raw.
  - done.
  - apply (bt_trace _ _ _ Hb).
  - intros addr Hin. split; [done|apply (bt_agrees _ _ _ Hb)].
  - intros addr Hn. unfold left_of. rewrite (load_entry s1), (tk_other _ _ Ht) by done. rewrite <- (load_entry s) by done.
    replace (raw_after _ _ _) with (w addr); [apply (bt_agrees _ _ _ Hb)|]. destruct (between_entry _ _ _ addr Hb) as (_ & _ & Hq). rewrite load_entry by done.
    destruct (body (entry_of addr _)) as [b|]; [|done]. symmetry. apply raw_after_same; [apply Hq|done].
  - rewrite (tk_dirties _ _ Ht). apply (bt_nodup _ _ _ Hb).
  - intros addr. rewrite (tk_dirties _ _ Ht), (bt_listed _ _ _ Hb). destruct (decide _) as [Hin|Hn].
    + rewrite (proj1 (tk_flags _ _ Ht addr)), load_entry by done. rewrite (proj1 (agrees_entry _ _ _ _ (bt_agrees _ _ _ Hb addr))). by rewrite bool_decide_eq_true.
    + by rewrite (tk_other _ _ Ht).
  - eexists os', _. split; [unfold CommitTransaction, get_st; unfold bindM at 1; rewrite (bind_done _ _ _ _ _ E); reflexivity|].
    split; try done. intros addr. unfold raw_committed. rewrite (load_entry _ addr) at 1 by done. rewrite (load_entry (set_transient _ _)) by done. rewrite <- (load_entry s1) by done. apply Hag.
Qed.

(** ** A block *)
Definition new_state : TransitionState := mkTransitionState i ∅ [] [] [] [] 0 ∅.

(** The states between the transactions of a block, with the calls and the raw
    values so far. *)
Inductive block_state : (Address -> gmap bytes bytes) -> list OutOp -> TransitionState -> Prop :=
| bs_start : block_state (fun _ => ∅) [] new_state
| bs_transaction w os s s1 os' s2 : block_state w os s -> journalled 0 s s1 -> tx_ok s1 ->
    CommitTransaction os s1 = Done os' s2 -> block_state (raw_committed w s1 s2) os' s2.

Lemma block_between w os s : block_state w os s -> between w os s.
Proof.
  induction 1 as [|w os s s1 os' s2 _ IH Hj Hok E].
  - split; try done; try (by constructor).
    + intros addr. split; [by intros ?%not_elem_of_nil|by intros [? ?]].
    + split; [done|done| |].
      * intros key k. unfold sink_of. cbn [spec_outs sp0 sp_main]. rewrite lookup_fmap. by destruct (m0 !! key).
      * intros key _. unfold sink_of. cbn [spec_outs sp0 sp_main]. by rewrite lookup_fmap.
    + intros addr. unfold agrees. cbn [new_state accounts]. rewrite lookup_empty. unfold sink_of. cbn [spec_outs sp0 sp_main]. by rewrite lookup_fmap, (do_accounts Hdb).
  - destruct (commit_transaction_ok w os s s1 IH Hj Hok) as (os2 & s3 & E' & Hb). rewrite E in E'. by injection E' as <- <-.
Qed.

(** The mutation of an account that is to be written. *)
Definition live (os : list OutOp) (s : TransitionState) (addr : Address) (b : AccountBody) (k : nat) (m : SpecMut) : Prop :=
  exists a, accounts s !! addr = Some a /\ body a = Some b /\ sink b = Some k /\ sp_muts (sink_of os) !! k = Some m /\ sm_addr m = addr.

Lemma commit_dirties_ok w os0 s : between w os0 s -> forall l os t, NoDup l -> (forall addr, addr ∈ l -> is_Some (accounts s !! addr)) ->
  (forall addr, addr ∈ l -> accounts t !! addr = accounts s !! addr) -> all_legal r stored_slots 0 sp0 os ->
  (forall addr b k m, addr ∈ l -> live os0 s addr b k m -> sp_muts (sink_of os) !! k = Some m) ->
  exists os' t', commit_dirties l os t = Done os' t' /\ all_legal r stored_slots 0 sp0 os' /\ sp_main (sink_of os') = sp_main (sink_of os) /\
    (forall addr b k m, addr ∈ l -> live os0 s addr b k m -> sp_muts (sink_of os') !! k = Some (spec_commit m)) /\
    (forall k m, sp_muts (sink_of os) !! k = Some m -> sm_addr m ∉ l -> sp_muts (sink_of os') !! k = Some m).
Proof.
  intros Hb. induction l as [|addr l IH]; intros os t Hl Hsome Hacc Hleg Hlive.
  - exists os, t. split_and!; try done. by intros addr b k m ?%not_elem_of_nil.
  - apply NoDup_cons in Hl as [Hal Hl]. destruct (Hsome addr) as [a Ea]; [left|]. pose proof (bt_agrees _ _ _ Hb addr) as Hag. rewrite Ea in Hag.
    assert (exists os1 t1, commit_dirty addr os t = Done os1 t1 /\ (forall x, x <> addr -> accounts t1 !! x = accounts t !! x) /\
      all_legal r stored_slots 0 sp0 os1 /\ sp_main (sink_of os1) = sp_main (sink_of os) /\
      (forall b k m, live os0 s addr b k m -> sp_muts (sink_of os1) !! k = Some (spec_commit m)) /\
      (forall k m, sp_muts (sink_of os) !! k = Some m -> sm_addr m <> addr -> sp_muts (sink_of os1) !! k = Some m)) as (os1 & t1 & E1 & H1 & Hleg1 & Hmain1 & Hlive1 & Hrest1).
    { unfold commit_dirty. rewrite (Hacc addr) by left. rewrite Ea. destruct Hag as (_ & _ & _ & -> & Hag).
      assert (forall x, x <> addr -> accounts (set_accounts (delete addr (accounts t)) t) !! x = accounts t !! x) as Hx by (intros x Hx; by apply lookup_delete_ne).
      destruct (body a) as [b|] eqn:Eb; [|rewrite bool_decide_eq_true_2 by done].
      - rewrite bool_decide_eq_false_2 by done. destruct Hag as (sl & _ & k & m & Hk & _ & Hm & Ha & _). rewrite Hk. eexists _, _. split; [reflexivity|].
        assert (live os0 s addr b k m) as Hli by by exists a. pose proof (Hlive addr b k m ltac:(left) Hli) as Hmo.
        pose proof (sink_of_snoc os (CommitMutation k)) as E. cbn [spec_out] in E. split_and!; [done| | | |]; rewrite ?E; cbn [sp_main sp_muts].
        + apply all_legal_app. split; [done|]. split; [|done]. fold (sink_of os). cbn [legal]. by rewrite Hmo.
        + done.
        + intros b' k' m' (a' & Ea' & Eb' & Hk' & Hm' & _). assert (b' = b) as -> by congruence. assert (k' = k) as -> by congruence. assert (m' = m) as -> by congruence.
          by rewrite lookup_alter_eq, Hmo.
        + intros k' m' Hm' Hne. rewrite lookup_alter_ne; [done|]. intros <-. congruence.
      - eexists _, _. split; [reflexivity|]. split_and!; try done. intros b' k' m' (a' & Ea' & Eb' & _). congruence. }
    destruct (IH os1 t1) as (os' & t' & E' & Hleg' & Hmain' & Hlive' & Hrest'); [done| | |done| |].
    + intros x Hx. apply Hsome. by right.
    + intros x Hx. rewrite H1 by (by intros ->). apply Hacc. by right.
    + intros x b k m Hx Hli. apply Hrest1; [eapply Hlive; [by right|done]|]. destruct Hli as (? & _ & _ & _ & _ & ->). by intros ->.
    + exists os', t'. split_and!; [cbn [commit_dirties]; by rewrite (bind_done _ _ _ _ _ E1)|done|congruence| |].
      * intros x b k m [->|Hx]%elem_of_cons Hli; [|by eapply Hlive'].
        apply Hrest'; [by eapply Hlive1|]. destruct Hli as (? & _ & _ & _ & _ & <-). unfold spec_commit. by destruct (negb _).
      * intros k m Hm Hn. apply Hrest'; [|by intros ?; apply Hn; right]. apply Hrest1; [done|]. intros <-. apply Hn. left.
Qed.

(** The storage root of an account: the hash of the slots, or a root of the
    database under which they are. *)
Definition storage_root (addr : Address) (v : bytes -> bytes) (root : option bytes) : Prop := exists sl, slots_hold sl v /\
  (root = root_hash (tree_of sl) \/
   exists h, root = Some h /\ holds_trie val_EncodeForTrie AccountTrieSchema (AccountTrieInput addr r) (Some h) (tree_of sl)).

(** The account in the state trie for the body the EVM sees. *)
Definition stored_as (w : gmap bytes bytes) (addr : Address) (b : option AccountBody) (a : option DbAccount) : Prop :=
  match b with
  | None => a = None
  | Some b => exists root, a = Some (set_root root (b_acc b)) /\ storage_root addr (view w addr b) root
  end.

Lemma final_slots w addr b m sl : quiet_body w addr b sl -> sm_acc m = b_acc b -> sm_pending m = true -> sl = default (db_slots addr b) (sm_slots m) ->
  exists a, sm_done (spec_commit m) = Some a /\ stored_as w addr (Some b) (Some a).
Proof.
  intros [Hroot _ _ _ _ _ _ Hs] Hacc Hp Hsl. unfold spec_commit. rewrite Hp. cbn [negb]. eexists. split; [reflexivity|]. rewrite Hacc.
  destruct (sm_slots m) as [sl'|]; cbn [default] in Hsl; subst.
  - eexists. split; [reflexivity|]. exists sl'. auto.
  - exists (StorageRootHash (b_acc b)). split; [by destruct (b_acc b)|]. exists (db_slots addr b). split; [done|]. unfold db_slots in *.
    destruct (StorageRootHash (b_acc b)) as [root|] eqn:E; [|by left]. right. exists root. split; [done|].
    destruct (Hroot root eq_refl) as (d & Hd & Hdr). by apply (do_root Hdb addr d root).
Qed.

Lemma untouched_stored addr d : in_GetAccount i addr = Some d -> stored_as ∅ addr (Some (body_of d)) (Some d).
Proof.
  intros Hd. destruct (db_quiet addr d Hd) as [_ _ _ _ _ _ _ Hs]. exists (StorageRootHash d). split; [by destruct d|]. exists (db_slots addr (body_of d)). split; [done|].
  unfold db_slots in *. cbn [body_of b_acc] in *. destruct (StorageRootHash d) as [root|] eqn:E; [|by left]. right. exists root. split; [done|]. by apply (do_root Hdb addr d root).
Qed.

Lemma block_accounts w os s : block_state w os s -> exists os' s', Commit os s = Done os' s' /\ all_legal r stored_slots 0 sp0 os' /\ all_done (sink_of os') /\
  (forall addr, stored_as (w addr) addr (body (load s addr)) (accounts_after (sink_of os') !! account_key addr)) /\
  forall key, (forall addr, key <> account_key addr) -> accounts_after (sink_of os') !! key = m0 !! key.
Proof.
  intros Hs%block_between. rename Hs into Hb.
  destruct (commit_dirties_ok w os s Hb (dirties s) os s) as (os' & t & E & Hleg & Hmain & Hlive & _);
    [apply (bt_nodup _ _ _ Hb)|by intros addr ?%(bt_listed _ _ _ Hb)|done|apply (to_legal _ (bt_trace _ _ _ Hb))|by intros ???? _ (?&_&_&_&?&_)|].
  exists os', (set_dirties [] t). split; [unfold Commit, get_st; unfold bindM at 1; by rewrite (bind_done _ _ _ _ _ E)|]. split; [done|].
  assert (forall addr k, sp_main (sink_of os') !! account_key addr = Some (inr k) ->
    exists b a, body (load s addr) = Some b /\ final_account (sink_of os') k = Some a /\ stored_as (w addr) addr (Some b) (Some a)) as Hfin.
  { intros addr k. rewrite Hmain. pose proof (bt_agrees _ _ _ Hb addr) as Hag. rewrite (load_entry _ _ (bt_in _ _ _ Hb)). intros Hk.
    destruct (accounts s !! addr) as [a|] eqn:Ea; cbn [entry_of agrees] in Hag |- *; [|rewrite (proj1 Hag) in Hk; by destruct (in_GetAccount i addr)].
    destruct Hag as (_ & _ & _ & _ & Hag). destruct (body a) as [b|] eqn:Eb; [|destruct Hag; congruence]. destruct Hag as (sl & Hq & k' & m & Hk' & Hm1 & Hm & Ha & Hacc & Hp & Hsl).
    assert (k' = k) as -> by congruence. destruct (final_slots (w addr) addr b m sl Hq Hacc Hp Hsl) as (d & Hd & Hst). exists b, d. split; [done|]. split; [|done].
    unfold final_account. rewrite (Hlive addr b k m); [done|apply (bt_listed _ _ _ Hb); by exists a|by exists a]. }
  split_and!.
  - intros key k Hk. destruct (to_main _ (bt_trace _ _ _ Hb) key k) as [addr ->]; [by rewrite <- Hmain|]. destruct (Hfin addr k Hk) as (b & a & _ & Ha & _). by exists a.
  - intros addr. unfold accounts_after. rewrite lookup_fmap. destruct (sp_main (sink_of os') !! account_key addr) as [[d|k]|] eqn:Ek; cbn [fmap option_fmap option_map].
    + rewrite Hmain in Ek. pose proof (bt_agrees _ _ _ Hb addr) as Hag. rewrite (load_entry _ _ (bt_in _ _ _ Hb)).
      destruct (accounts s !! addr) as [a|]; cbn [entry_of agrees] in Hag |- *.
      * destruct Hag as (_ & _ & _ & _ & Hag). destruct (body a); [|destruct Hag; congruence]. destruct Hag as (? & _ & ? & ? & _ & ? & _). congruence.
      * destruct Hag as [Hag ->]. rewrite Hag in Ek. destruct (in_GetAccount i addr) as [d'|] eqn:Ed; [|done]. injection Ek as ->. by apply untouched_stored.
    + destruct (Hfin addr k Ek) as (b & a & -> & -> & Hst). done.
    + rewrite Hmain in Ek. pose proof (bt_agrees _ _ _ Hb addr) as Hag. rewrite (load_entry _ _ (bt_in _ _ _ Hb)).
      destruct (accounts s !! addr) as [a|]; cbn [entry_of agrees] in Hag |- *.
      * destruct Hag as (_ & _ & _ & _ & Hag). destruct (body a); [|done]. destruct Hag as (? & _ & ? & ? & _ & ? & _). congruence.
      * destruct Hag as [Hag _]. rewrite Hag in Ek. by destruct (in_GetAccount i addr).
  - intros key Hkey. unfold accounts_after. rewrite lookup_fmap, Hmain, (to_rest _ (bt_trace _ _ _ Hb) key Hkey). by destruct (m0 !! key).
Qed.
End block.

(** C30: the state root of a block commits to what the EVM sees.  Run
    transactions of journalled operations, with reverts among them, each
    followed by [CommitTransaction], on accounts read from the database, such
    that every transaction leaves a state that can be committed ([tx_ok]:
    accounts that can be encoded, words in the slots, less than 2^32 entries
    in the journal, counters of the RIPEMD account and of the contracts of the
    chain that do not wrap around, and no account created again over slots
    that the database still holds: for that one the claim fails,
    [EvmFindings.stale_storage]).  Then [Commit] and the trie sink work off
    without a panic, and the root they return is that of the trie of exactly
    the accounts the EVM sees after the last transaction, with their nonces,
    balances and code hashes, each with a storage root of the slots the EVM
    sees or, for the contracts of the chain, of the raw values they wrote over
    those of the database. *)
Theorem block_root_refines `{Crypto} {laws : CryptoLaws} r stored_slots i m0 root levels w os s :
  no_clash -> db_ok r stored_slots i m0 -> (forall key a, m0 !! key = Some a -> account_ok a) ->
  levels <= MaxDepth -> holds_accounts r (if IsEmptyStateRoot (Some root) then None else Some root) m0 ->
  block_state i w os s ->
  exists os' s' t0 t m, Commit os s = Done os' s' /\ TrieSink_Init root levels = Some t0 /\
    (_ ← SetIO r; _ ← sink_ops 0 os'; sink_Commit) t0 = Done (default EmptyRLPListHash (accounts_root m)) t /\
    (forall addr, stored_as r i (w addr) addr (body (load s addr)) (m !! account_key addr)) /\
    forall key, (forall addr, key <> account_key addr) -> m !! key = m0 !! key.
Proof.
  intros Hclash Hdb Hm0 Hl Hh Hs. destruct (block_accounts Hclash r stored_slots i m0 Hdb w os s Hs) as (os' & s' & E & Hleg & Hdone & Hacc & Hrest).
  destruct (sink_root r stored_slots m0 root levels os' Hl Hm0 Hh Hleg Hdone) as (t0 & t & E0 & Et).
  by exists os', s', t0, t, (accounts_after (sink_of stored_slots m0 os')).
Qed.
