(* ===== verification/BlockExample.v ===== *)
(** * A block on an empty state

    Two transactions of journalled operations, the first with a raw write of
    the DPOS contract, the second with a revert, on the empty database; the
    property of the state root holds of them. *)
From S2P Require Import Prelude Bytes Rlp Crypto Uint256 EvmWord EvmBase Trie TrieSpec TrieProps StateDb StateDbProps TrieSink TrieSinkProps TrieExample EvmFrame StateEvm StateRevert StateKeeps StateTrack BlockCommit.
Local Open Scope Z_scope.
#[local] Existing Instance toy_crypto.
#[local] Existing Instance toy_crypto_laws.

(** The hash that truncates separates equally long inputs of at most 32 bytes. *)
Lemma toy_inj a b : length a = length b -> (length a <= 32)%nat -> keccak256 a = keccak256 b -> a = b.
Proof.
  intros Hl Hle. unfold keccak256, toy_crypto. intros E. apply (f_equal (take (length a))) in E.
  rewrite !take_take, !(Nat.min_l (length a)) in E by done. rewrite take_app_length in E. by rewrite Hl, take_app_length in E.
Qed.

Lemma toy_no_clash : no_clash.
Proof.
  split.
  - intros a a' E. apply Address_eq. apply toy_inj; rewrite ?addr_length; [done|lia|done].
  - intros k k' Hk Hk' E. apply toy_inj; [by rewrite Hk'|lia|done].
Qed.

Definition no_input : StateInput := mkStateInput (fun _ => []) (fun _ => None) (fun _ _ => None).

Lemma no_db : db_ok no_reader no_slots no_input ∅.
Proof. split; [done|done|done|done]. Qed.

(** What a computation leaves. *)
Definition leaves {A} (m : T A) (s : TransitionState) : TransitionState := match m s with Done _ s' => s' | _ => s end.
Definition returns {A} (m : T A) (s : TransitionState) : option A := match m s with Done a _ => Some a | _ => None end.

Lemma returns_done {A} (m : T A) s a : returns m s = Some a -> m s = Done a (leaves m s).
Proof. unfold returns, leaves. destruct (m s); [by intros [= ->]|done..]. Qed.

Definition alice : Address := addr_of_Z 161.
Definition bob : Address := addr_of_Z 176.

Definition dpos : Address := addr_of_Z 254.
Definition raw_key : bytes := replicate 32 Byte.x01.

(** Alice gets a balance and a slot, the contract a nonce and a raw slot. *)
Definition b0 : TransitionState := new_state no_input.
Definition b1 : TransitionState := leaves (AddBalance alice 10) b0.
Definition b1' : TransitionState := leaves (SetState alice 1 7) b1.
Definition b1'' : TransitionState := leaves (IncrementNonce dpos) b1'.
Definition b2 : TransitionState := leaves (SetStateRawIrreversibly dpos raw_key [Byte.x07]) b1''.
Definition b3 : TransitionState := leaves (CommitTransaction []) b2.
Definition outs3 : list OutOp := default [] (returns (CommitTransaction []) b2).

(** Bob gets a balance, Alice another value in her slot, which is reverted. *)
Definition b4 : TransitionState := leaves (AddBalance bob 5) b3.
Definition b5 : TransitionState := leaves (SetState alice 1 8) b4.
Definition b6 : TransitionState := leaves (ts_RevertToSnapshot 2) b5.
Definition b7 : TransitionState := leaves (CommitTransaction outs3) b6.
Definition outs7 : list OutOp := default [] (returns (CommitTransaction outs3) b6).

Lemma first_transaction : journalled 0 b0 b2.
Proof.
  eapply (j_raw 0 b0 dpos raw_key [Byte.x07] b1''); [|by left|apply (returns_done _ _ tt); vm_compute; reflexivity].
  eapply (j_op 0 b0 () (IncrementNonce dpos) b1'); [|apply vo_IncrementNonce|apply (returns_done _ _ tt); vm_compute; reflexivity].
  eapply (j_op 0 b0 () (SetState alice 1 7) b1); [|apply vo_SetState|].
  - eapply (j_op 0 b0 () (AddBalance alice 10) b0); [constructor|apply vo_AddBalance|]. apply (returns_done _ _ tt). vm_compute. reflexivity.
  - apply (returns_done _ _ tt). vm_compute. reflexivity.
Qed.

Lemma second_transaction : journalled 0 b3 b6.
Proof.
  eapply (j_revert 0 b3 2 b5); [|lia|apply (returns_done _ _ tt); vm_compute; reflexivity].
  eapply (j_op 0 b3 () (SetState alice 1 8) b4); [|apply vo_SetState|apply (returns_done _ _ tt); vm_compute; reflexivity].
  eapply (j_op 0 b3 () (AddBalance bob 5) b3); [constructor|apply vo_AddBalance|apply (returns_done _ _ tt); vm_compute; reflexivity].
Qed.

(** The conditions on a body, as a test. *)
Definition small_body (b : AccountBody) : bool :=
  (0 <=? acc_Nonce (b_acc b)) && (acc_Nonce (b_acc b) <? 256) && (0 <=? acc_Balance (b_acc b)) && (acc_Balance (b_acc b) <? 256) &&
  bool_decide (StorageRootHash (b_acc b) = None) && (length (default zero_hash (acc_CodeHash (b_acc b))) =? 32)%nat && (0 <=? acc_CodeSize (b_acc b)) && (acc_CodeSize (b_acc b) <? 256) &&
  forallb (fun e => (0 <=? fst e) && (fst e <? 256) && (0 <=? snd e) && (snd e <? 256)) (map_to_list (StorageDirty b)) &&
  forallb (fun e => (length (fst e) =? 32)%nat && (length (snd e) <? 256)%nat) (map_to_list (RawStorageDirty b)).

Lemma small_body_ok addr b : small_body b = true -> (has_raw addr -> StorageDirty b = ∅) -> entry_ok no_input addr b.
Proof.
  unfold small_body. rewrite !andb_true_iff, bool_decide_eq_true, !Z.leb_le, !Z.ltb_lt, Nat.eqb_eq, !forallb_forall.
  intros (((((((((Hn & Hn') & Hb) & Hb') & Hr) & Hc) & Hz) & Hz') & Hd) & Hraw) Honly. split.
  - split; rewrite ?Hr; try done; try lia; [|by destruct (acc_CodeHash (b_acc b))]. pose proof (length_big_Bytes (acc_Nonce (b_acc b)) 1 ltac:(simpl; lia) ltac:(lia)).
    pose proof (length_big_Bytes (acc_Balance (b_acc b)) 1 ltac:(simpl; lia) ltac:(lia)). unfold blen. lia.
  - intros k v Hkv. specialize (Hd (k, v)). rewrite !andb_true_iff, !Z.leb_le, !Z.ltb_lt in Hd. cbn [fst snd] in Hd.
    assert (2 ^ 256 = 115792089237316195423570985008687907853269984665640564039457584007913129639936) as -> by done.
    destruct Hd as (((? & ?) & ?) & ?); [by apply list_elem_of_In, elem_of_map_to_list|]. lia.
  - intros k v Hkv. specialize (Hraw (k, v)). rewrite andb_true_iff, Nat.eqb_eq, Nat.ltb_lt in Hraw. cbn [fst snd] in Hraw.
    destruct Hraw; [by apply list_elem_of_In, elem_of_map_to_list|]. split; [done|]. unfold blen. lia.
  - done.
  - done.
Qed.

Definition small_state (s : TransitionState) : bool :=
  forallb (fun addr => match body (load s addr) with
                       | Some b => small_body b && (bool_decide (~ has_raw addr) || bool_decide (StorageDirty b = ∅))
                       | None => true end) (accounts_in_curr_ver s) &&
  (Z.of_nat (length (ts_reverts s)) <? 1000) && bool_decide (body (load s ripemd_addr) = None) &&
  forallb (fun addr => match body (load s addr) with
                       | Some b => bool_decide (RawStorageDirty b = ∅) || (negb (mod_count b =? 0) && negb (mod_count b =? times_touched b))
                       | None => true end) [addr_of_Z 254; addr_of_Z 238].

Lemma small_state_ok s : small_state s = true -> tx_ok no_input s.
Proof.
  unfold small_state. rewrite !andb_true_iff, !forallb_forall, Z.ltb_lt, bool_decide_eq_true. intros (((Hb & Hl) & Hr) & Hraw). split.
  - intros addr b Hin Eb. specialize (Hb addr). rewrite Eb, andb_true_iff, orb_true_iff, !bool_decide_eq_true in Hb.
    destruct Hb as [Hb Honly]; [by apply list_elem_of_In|]. apply small_body_ok; [done|]. intros ?. by destruct Honly.
  - lia.
  - intros b Eb. congruence.
  - intros addr b Ha Eb Hne. specialize (Hraw addr). rewrite Eb, orb_true_iff, bool_decide_eq_true, andb_true_iff, !negb_true_iff, !Z.eqb_neq in Hraw.
    destruct Hraw as [?|?]; [destruct Ha as [->| ->]; simpl; auto|done|done].
Qed.

Lemma small2 : small_state b2 = true.
Proof. vm_compute. reflexivity. Qed.
Lemma small6 : small_state b6 = true.
Proof. vm_compute. reflexivity. Qed.
Lemma commit3 : CommitTransaction [] b2 = Done outs3 b3.
Proof. apply (returns_done (CommitTransaction []) b2 outs3). vm_compute. reflexivity. Qed.
Lemma commit7 : CommitTransaction outs3 b6 = Done outs7 b7.
Proof. apply (returns_done (CommitTransaction outs3) b6 outs7). vm_compute. reflexivity. Qed.

Definition raws3 := raw_committed (fun _ => ∅) b2 b3.
Definition raws7 := raw_committed raws3 b6 b7.

Lemma two_transactions : block_state no_input raws7 outs7 b7.
Proof.
  refine (bs_transaction no_input raws3 outs3 b3 b6 outs7 b7 _ second_transaction (small_state_ok _ small6) commit7).
  exact (bs_transaction no_input (fun _ => ∅) [] b0 b2 outs3 b3 (bs_start no_input) first_transaction (small_state_ok _ small2) commit3).
Qed.

Lemma raws7_dpos : raws7 dpos !! raw_key = Some [Byte.x07].
Proof. vm_compute. reflexivity. Qed.

Lemma no_account7 : body (load b7 (addr_of_Z 1)) = None.
Proof. vm_compute. reflexivity. Qed.

Lemma block_root_refines_witness : exists os' s' t0 t m, Commit outs7 b7 = Done os' s' /\ TrieSink_Init zero_hash 16 = Some t0 /\
  (_ ← SetIO no_reader; _ ← sink_ops 0 os'; sink_Commit) t0 = Done (default EmptyRLPListHash (accounts_root m)) t /\
  stored_as no_reader no_input (raws7 alice) alice (body (load b7 alice)) (m !! account_key alice) /\
  stored_as no_reader no_input (raws7 dpos) dpos (body (load b7 dpos)) (m !! account_key dpos) /\ raws7 dpos !! raw_key = Some [Byte.x07] /\
  stored_as no_reader no_input (raws7 bob) bob (body (load b7 bob)) (m !! account_key bob) /\
  m !! account_key (addr_of_Z 1) = None.
Proof.
  destruct (block_root_refines no_reader no_slots no_input ∅ zero_hash 16 raws7 outs7 b7) as (os' & s' & t0 & t & m & E & E0 & Et & Hm & _).
  - apply toy_no_clash.
  - apply no_db.
  - intros key a Hk. rewrite lookup_empty in Hk. discriminate.
  - done.
  - apply no_state.
  - apply two_transactions.
  - exists os', s', t0, t, m. split_and!; [exact E|exact E0|exact Et|apply Hm|apply Hm|exact raws7_dpos|apply Hm|].
    specialize (Hm (addr_of_Z 1)). rewrite no_account7 in Hm. exact Hm.
Defined.
