(* ===== verification/StateTransition.v ===== *)
(** * Blocks: [state_transition/state_transition.go] and [state_hardforks.go]

    The state transition owns the state of the EVM, the EVM, the trie sink
    and the pending block of the database, and calls the two contracts of the
    chain.  The contracts are an interface here, [SystemContracts]: what they
    do to the state of the EVM and to their own memory, of type [CS]; the
    files on the DPOS and on the slashing contract model them over storage of
    their own.  The bytecodes that hardforks install, compiled from Solidity,
    are parameters. *)
From S2P Require Import Prelude Bytes Crypto ChainConfig Dpos DposRewards Slashing.
From S2P Require Import Uint256 EvmWord EvmBase EvmMemory EvmGas EvmInstr EvmTable EvmRun EvmContracts StateEvm Trie StateDb RocksDb TrieSink.
Local Open Scope Z_scope.

#[export] Instance Rules_eq_dec : EqDecision EvmBase.Rules.
Proof. solve_decision. Defined.

(** ** The state of the EVM and the memory of the contracts *)
Section world.
Context `{Crypto} {CS : Type}.
Definition World : Type := TransitionState * CS.

#[export] Instance World_state : Lens World TransitionState := {| lget := fst; lset s w := (s, snd w) |}.

Definition on_state {A} (m : M TransitionState A) : M World A := zoom m.

#[export] Instance World_VmState : VmState World := {|
  GetAccount addr := on_state (GetAccount addr);
  GetBalance addr := on_state (GetBalance addr);
  GetNonce addr := on_state (GetNonce addr);
  GetCodeHash addr := on_state (GetCodeHash addr);
  GetCode addr := on_state (GetCode addr);
  GetCodeSize addr := on_state (GetCodeSize addr);
  GetCommittedState addr key := on_state (GetCommittedState addr key);
  GetState addr key := on_state (GetState addr key);
  HasSuicided addr := on_state (HasSuicided addr);
  IsNIL addr := on_state (IsNIL addr);
  IsEIP161Empty addr := on_state (IsEIP161Empty addr);
  SetCode addr code := on_state (SetCode addr code);
  AddBalance addr amount := on_state (AddBalance addr amount);
  SubBalance addr amount := on_state (SubBalance addr amount);
  IncrementNonce addr := on_state (IncrementNonce addr);
  SetNonce addr nonce := on_state (SetNonce addr nonce);
  SetState addr key value := on_state (SetState addr key value);
  Suicide addr to := on_state (Suicide addr to);
  AddLog l := on_state (AddLog l);
  GetLogs := on_state GetLogs;
  AddRefund gas := on_state (AddRefund gas);
  SubRefund gas := on_state (SubRefund gas);
  GetRefund := on_state GetRefund;
  Snapshot := on_state Snapshot;
  RevertToSnapshot n := on_state (RevertToSnapshot n);
  GetTransientState addr key := on_state (GetTransientState addr key);
  SetTransientState addr key value := on_state (SetTransientState addr key value);
|}.

(** What the two contracts are to the state transition. *)
Record SystemContracts := mkSystemContracts {
  NewContracts : Z -> CS;
  dpos_contract : PrecompiledContract (St := World);
  ApplyGenesis : M World ();
  contract_DistributeRewards : RewardsStats -> M World Z;
  EndBlockCall : Z -> M World ();
  dpos_CommitCall : Z -> CS -> CS;
  slashing_contract : PrecompiledContract (St := World);
  CleanupJailedValidators : Z -> M World ();
  slashing_CommitCall : Z -> CS -> CS;
}.
End world.
Arguments World : clear implicits.
Arguments SystemContracts : clear implicits.

(** What the EVM reads of the database: [ExtendedReader].  [None] stands also
    for an account that cannot be decoded, where the code panics. *)
Definition ExtendedReader `{Crypto} (r : Reader) : StateInput :=
  mkStateInput (fun hash => match hash with Some h => GetCode_of r h | None => [] end)
    (fun addr => match reader_GetAccount r addr tt with Done a _ => a | _ => None end)
    (GetAccountStorage r).

Definition no_reader : Reader := fun _ _ => None.

Section transition.
Context `{Crypto} {EW : EvmWords} {CV : Curves} {CF : Type} {rocks : RocksDB CF} {CS : Type} `{Inhabited CS}.
Context (cfg : ChainConfig) (get_hash : Z -> Z) (ChainId : Z) (contracts : option (SystemContracts CS)).
Context (AspenDposImplBytecode CornusDposImplBytecode : bytes) (OpPrecompiles : list (Address * bytes)).
Abbreviation W := (World CS).
Abbreviation Table := (list (option (PrecompiledContract (St := W)))).

(** The fields of the EVM that [SetBlock] and [RegisterPrecompiledContract]
    change; its instruction set and gas table go with the rules. *)
Record BlockContext := mkBlockContext {
  blk : BlockInfo;
  rules_initialized : bool;
  blk_rules : EvmBase.Rules;
  precompiles : Table;
}.

(** [calls] is the trace of calls of the sink so far, by which mutations are
    known; [sink_io] is the block the sink writes to. *)
Record StateTransition := mkStateTransition {
  latest_state : LatestState (CF := CF);
  pending_blk_state : option PendingBlockState;
  evm : EVM W;
  evm_block : BlockContext;
  calls : list OutOp;
  trie_sink : TrieSink;
  sink_io : option PendingBlockState;
  pending_state_root : bytes;
  new_chain_config : option ChainConfig;
  LastBlockNum : Z;
}.
Definition set_latest x s := mkStateTransition x (pending_blk_state s) (evm s) (evm_block s) (calls s) (trie_sink s) (sink_io s) (pending_state_root s) (new_chain_config s) (LastBlockNum s).
Definition set_pending_blk x s := mkStateTransition (latest_state s) x (evm s) (evm_block s) (calls s) (trie_sink s) (sink_io s) (pending_state_root s) (new_chain_config s) (LastBlockNum s).
Definition set_evm_ x s := mkStateTransition (latest_state s) (pending_blk_state s) x (evm_block s) (calls s) (trie_sink s) (sink_io s) (pending_state_root s) (new_chain_config s) (LastBlockNum s).
Definition set_evm_block x s := mkStateTransition (latest_state s) (pending_blk_state s) (evm s) x (calls s) (trie_sink s) (sink_io s) (pending_state_root s) (new_chain_config s) (LastBlockNum s).
Definition set_calls x s := mkStateTransition (latest_state s) (pending_blk_state s) (evm s) (evm_block s) x (trie_sink s) (sink_io s) (pending_state_root s) (new_chain_config s) (LastBlockNum s).
Definition set_trie_sink x s := mkStateTransition (latest_state s) (pending_blk_state s) (evm s) (evm_block s) (calls s) x (sink_io s) (pending_state_root s) (new_chain_config s) (LastBlockNum s).
Definition set_sink_io x s := mkStateTransition (latest_state s) (pending_blk_state s) (evm s) (evm_block s) (calls s) (trie_sink s) x (pending_state_root s) (new_chain_config s) (LastBlockNum s).
Definition set_pending_root x s := mkStateTransition (latest_state s) (pending_blk_state s) (evm s) (evm_block s) (calls s) (trie_sink s) (sink_io s) x (new_chain_config s) (LastBlockNum s).
Definition set_new_config x s := mkStateTransition (latest_state s) (pending_blk_state s) (evm s) (evm_block s) (calls s) (trie_sink s) (sink_io s) (pending_state_root s) x (LastBlockNum s).
Definition set_last_block x s := mkStateTransition (latest_state s) (pending_blk_state s) (evm s) (evm_block s) (calls s) (trie_sink s) (sink_io s) (pending_state_root s) (new_chain_config s) x.

#[export] Instance latest_lens : Lens StateTransition (LatestState (CF := CF)) := {| lget := latest_state; lset := set_latest |}.
#[export] Instance evm_lens : Lens StateTransition (EVM W) := {| lget := evm; lset := set_evm_ |}.
#[export] Instance sink_lens : Lens StateTransition TrieSink := {| lget := trie_sink; lset := set_trie_sink |}.

Abbreviation X := (M StateTransition).

Definition in_world {A} (m : M W A) : X A := zoom (K := EVM W) (zoom m).
Definition in_state {A} (m : M TransitionState A) : X A := in_world (on_state m).

(** ** The sink and the database *)
Fixpoint put_all (p : PendingBlockState) (l : list DbPut) : M (LatestState (CF := CF)) () :=
  match l with [] => ret tt | w :: l => _ ← pending_Put p w; put_all p l end.

(** The writes of the sink go to the block it was given. *)
Definition write_puts : X () :=
  s ← get_st;
  match sink_io s, puts (trie_sink s) with
  | _, [] => ret tt
  | Some p, l => _ ← zoom (put_all p l); modify_st (fun s => set_trie_sink (set_puts [] (trie_sink s)) s)
  | None, _ => panic "nil pointer dereference"
  end.

(** The sink receives the calls that the trace has got. *)
Definition pass_on (out : list OutOp) : X () :=
  s ← get_st;
  let n := length (calls s) in
  _ ← zoom (sink_ops n (drop n out)); _ ← modify_st (set_calls out); write_puts.

Definition evm_state_checkpoint : X () := s ← get_st; out ← in_state (CommitTransaction (calls s)); pass_on out.

(** ** A block *)
Definition SetInput (i : StateInput) : M TransitionState () :=
  modify_st (fun s => mkTransitionState i (accounts s) (accounts_in_curr_ver s) (ts_reverts s) (dirties s) (ts_logs s) (refund s) (transientStorage s)).

Definition begin_block : X () :=
  p ← zoom BeginPendingBlock;
  _ ← modify_st (set_pending_blk (Some p));
  s ← get_st;
  let r := pending_Get p (latest_state s) in
  _ ← in_state (SetInput (ExtendedReader r));
  _ ← zoom (SetIO r);
  modify_st (set_sink_io (Some p)).

Definition BlockNumber : X Z :=
  s ← get_st; match pending_blk_state s with Some p => ret (blk_n p) | None => panic "nil pointer dereference" end.

(** [vm.EVM.SetBlock]: does the EVM change its rules? *)
Definition SetBlock (b : BlockInfo) (rules : EvmBase.Rules) : X bool :=
  s ← get_st;
  let e := evm_block s in
  if rules_initialized e && bool_decide (blk_rules e = rules) then
    _ ← modify_st (set_evm_block (mkBlockContext b true (blk_rules e) (precompiles e))); ret false
  else
    let table := if EvmBase.IsFicus rules then PrecompiledContractsFicus else PrecompiledContractsCalifornicum in
    _ ← modify_st (set_evm_block (mkBlockContext b true rules table)); ret true.

Definition RegisterPrecompiledContract (address : Address) (contract : PrecompiledContract (St := W)) : X () :=
  s ← get_st;
  let e := evm_block s in
  match Precompiles_Put address contract (precompiles e) with
  | Some table => modify_st (set_evm_block (mkBlockContext (blk e) (rules_initialized e) (blk_rules e) table))
  | None => panic "assertion error"
  end.

(** [HardforksConfig.Rules], a value of the package of the EVM. *)
Definition Rules_at (blk_n : Z) : EvmBase.Rules :=
  let r := HardforksConfig_Rules (Hardforks cfg) blk_n in
  EvmBase.mkRules (ChainConfig.IsMagnolia r) (ChainConfig.IsAspenPartOne r) (ChainConfig.IsAspenPartTwo r) (ChainConfig.IsFicus r) (ChainConfig.IsCornus r).

Fixpoint set_codes (l : list (Address * bytes)) : X () :=
  match l with [] => ret tt | (addr, code) :: l => _ ← in_state (SetCode addr code); set_codes l end.

Definition applyHFChanges : X () :=
  blk_n ← BlockNumber;
  let hf := Hardforks cfg in
  _ ← match contracts with
      | None => ret tt
      | Some c =>
          _ ← RegisterPrecompiledContract dpos_contract_address (dpos_contract c);
          _ ← (if IsOnAspenHardforkPartOne hf blk_n then
                 size ← in_state (GetCodeSize dpos_contract_address);
                 when (size =? 0) (in_state (SetCode dpos_contract_address AspenDposImplBytecode))
               else ret tt);
          when (IsCornusHardfork hf blk_n) (in_state (SetCode dpos_contract_address CornusDposImplBytecode))
      end;
  _ ← match contracts with
      | None => ret tt
      | Some c => when (IsOnMagnoliaHardfork hf blk_n) (RegisterPrecompiledContract slashing_contract_address (slashing_contract c))
      end;
  when (IsCornusHardfork hf blk_n) (set_codes OpPrecompiles).

(** The number in [blk_info] is not used. *)
Definition BeginBlock (blk_info : BlockInfo) : X () :=
  _ ← begin_block;
  blk_n ← BlockNumber;
  let b := mkBlockInfo blk_n (Author blk_info) (GasLimit blk_info) (Time blk_info) (Difficulty blk_info) in
  rules_changed ← SetBlock b (Rules_at blk_n);
  when rules_changed applyHFChanges.

Definition tx_env (s : StateTransition) (tx : Transaction) : TxEnv :=
  mkTxEnv get_hash (blk (evm_block s)) ChainId (blk_rules (evm_block s)) GasTableCalifornicum tx.

(** [fuel] bounds the steps of the interpreter. *)
Definition ExecuteTransaction (fuel : nat) (tx : Transaction) : X ExecutionResult :=
  s ← get_st;
  '(res, _) ← zoom (Main (tx_env s tx) (precompiles (evm_block s)) fuel);
  _ ← evm_state_checkpoint; ret res.

Definition AddTxFeeToBalance (account : Address) (tx_fee : Z) : X () := in_state (AddBalance account tx_fee).

Definition DistributeRewards (stats : option RewardsStats) : X (option Z) :=
  match stats with
  | Some stats =>
      if RewardsEnabled cfg then
        match contracts with
        | None => panic "Stats rewards enabled but no dpos contract registered"
        | Some c => totalReward ← in_world (contract_DistributeRewards c stats); _ ← evm_state_checkpoint; ret (Some totalReward)
        end
      else ret None
  | None => ret None
  end.

Definition EndBlock : X () :=
  s ← get_st;
  let n := Number (blk (evm_block s)) in
  _ ← modify_st (set_last_block n);
  _ ← match contracts with
      | None => ret tt
      | Some c => _ ← in_world (EndBlockCall c n); _ ← in_world (CleanupJailedValidators c n); evm_state_checkpoint
      end;
  modify_st (set_pending_blk None).

(** ** The end of a block *)
(** Without an input the state must not be read. *)
Definition PrepareCommit : X bytes :=
  s ← get_st;
  out ← in_state (Commit (calls s));
  _ ← pass_on out;
  _ ← in_state (SetInput (ExtendedReader no_reader));
  root ← zoom sink_Commit;
  _ ← write_puts;
  _ ← modify_st (set_pending_root root);
  _ ← zoom (SetIO no_reader);
  _ ← modify_st (set_sink_io None);
  ret root.

Definition change_contracts (f : CS -> CS) : M W () := modify_st (fun w => (fst w, f (snd w))).

Definition Commit : X bytes :=
  s ← get_st;
  _ ← (if bool_decide (pending_state_root s = zero_hash) then _ ← PrepareCommit; ret tt else ret tt);
  s ← get_st;
  let state_root := pending_state_root s in
  _ ← modify_st (set_pending_root zero_hash);
  _ ← zoom (LatestState_Commit state_root);
  let n := Number (blk (evm_block s)) in
  _ ← match contracts with
      | None => ret tt
      | Some c => _ ← in_world (change_contracts (dpos_CommitCall c n));
                  when (IsOnMagnoliaHardfork (Hardforks cfg) n) (in_world (change_contracts (slashing_CommitCall c n)))
      end;
  ret state_root.

(** ** Start *)
Fixpoint add_balances (l : list (Address * Z)) : X () :=
  match l with [] => ret tt | (addr, balance) :: l => _ ← in_state (AddBalance addr balance); add_balances l end.

(** The block of genesis, on an empty database. *)
Definition genesis : X () :=
  _ ← begin_block;
  n ← BlockNumber;
  if negb (n =? 0) then panic "assertion error" else
  _ ← add_balances (GenesisBalances cfg);
  _ ← match contracts with None => ret tt | Some c => in_world (ApplyGenesis c) end;
  _ ← applyHFChanges;
  _ ← evm_state_checkpoint;
  _ ← Commit; ret tt.

Definition start (latest : LatestState (CF := CF)) (capacity : nat) (sink : TrieSink) : StateTransition :=
  let cs := match contracts with Some c => NewContracts c (BlockNum (state_desc latest)) | None => inhabitant end in
  let s := mkTransitionState (ExtendedReader no_reader) ∅ [] [] [] [] 0 ∅ in
  let block := mkBlockContext (mkBlockInfo 0 ZeroAddress 0 0 0) false (EvmBase.mkRules false false false false false) [] in
  mkStateTransition latest None (mkEVM (s, cs) (MemoryPool_Init capacity) None 0 false [] 0) block [] sink None zero_hash None 0.

(** [Init]; the writer of the main trie panics when it is to cache more
    levels than there are. *)
Definition Init (latest : LatestState (CF := CF)) (capacity : nat) (levels : Z) : outcome StateTransition () :=
  let root := StateRoot (state_desc latest) in
  match TrieSink_Init root levels with
  | None => Panic "assertion error"
  | Some sink =>
      let s := start latest capacity sink in
      if IsEmptyStateRoot (Some root) then genesis s else Done tt s
  end.

Definition UpdateConfig (c : ChainConfig) : X () := modify_st (set_new_config (Some c)).
Definition GetEvmState (s : StateTransition) : TransitionState := fst (evm_state (evm s)).
End transition.
