(* ===== verification/StateTransitionProps.v ===== *)
(** * The contracts of the chain in every block

    The EVM takes a new table of precompiled contracts whenever the rules
    change, and the state transition registers the contracts of the chain
    again.  In every block of every history the table holds the contracts
    that the hardforks ask for, each once, and no assertion fails. *)
From S2P Require Import Prelude Bytes Crypto ChainConfig Dpos DposRewards Slashing.
From S2P Require Import Uint256 EvmWord EvmBase EvmMemory EvmGas EvmInstr EvmTable EvmRun EvmContracts EvmFrame StateEvm StateRevert Trie StateDb RocksDb TrieSink StateTransition.
Local Open Scope Z_scope.

(** ** Computations that return *)
Definition returning {S A} (m : M S A) (s : S) (Q : A -> S -> Prop) : Prop := exists a s', m s = Done a s' /\ Q a s'.

Lemma returning_bind {S A B} (m : M S A) (f : A -> M S B) s Q :
  returning m s (fun a s' => returning (f a) s' Q) -> returning (x ← m; f x) s Q.
Proof. intros (a & s1 & E & b & s2 & E2 & HQ). exists b, s2. split; [by rewrite (bind_done _ _ _ _ _ E)|done]. Qed.

Lemma returning_mono {S A} (m : M S A) s (Q Q' : A -> S -> Prop) : returning m s Q -> (forall a s', Q a s' -> Q' a s') -> returning m s Q'.
Proof. intros (a & s' & E & HQ) HQ'. exists a, s'. auto. Qed.

Lemma returning_ret {S A} (a : A) (s : S) (Q : A -> S -> Prop) : Q a s -> returning (ret a) s Q.
Proof. intros HQ. by exists a, s. Qed.

Lemma returning_done {S A} (m : M S A) s Q a s' : returning m s Q -> m s = Done a s' -> Q a s'.
Proof. intros (a1 & s1 & E & HQ) E1. rewrite E in E1. by injection E1 as <- <-. Qed.

Lemma SetCode_returns `{Crypto} addr code s : returning (ts_SetCode addr code) s (fun _ _ => True).
Proof.
  apply returning_bind. destruct (ensure_exists_run addr s) as (s1 & b & E & Hb & _). exists tt, s1. split; [done|].
  destruct (_ =? 0); [by exists tt, s1|]. apply returning_bind.
  destruct (register_change_run addr (Some (RevCode addr)) s1 b Hb) as (s2 & E2 & H2). exists tt, s2. split; [done|].
  destruct (update_body_run addr (fun b => set_code (Some code) true (set_b_code (Some (keccak256 code)) (Z.of_nat (length code)) b)) s2 (tick b)) as (s3 & E3 & _);
    [apply (cg_body _ _ _ _ _ _ H2)|by exists tt, s3].
Qed.

Lemma GetCodeSize_returns addr s : returning (ts_GetCodeSize addr) s (fun _ _ => True).
Proof. apply returning_bind. destruct (get_body_run addr s) as (s1 & E & _). eexists _, s1. split; [exact E|]. by eexists _, _. Qed.

(** ** Hardforks *)
Lemma isForked_at f n : 0 <= n < ChainConfig.BlockNumberNIL -> isForked f n = (f <=? n).
Proof.
  intros [_ Hn]. unfold isForked. destruct (Z.eqb_spec f ChainConfig.BlockNumberNIL) as [->|_]; simpl.
  - symmetry. apply Z.leb_gt. lia.
  - destruct (Z.eqb_spec n ChainConfig.BlockNumberNIL); [lia|done].
Qed.

Section props.
Context `{Crypto} {EW : EvmWords} {CV : Curves} {CF : Type} {rocks : RocksDB CF} {CS : Type} `{Inhabited CS}.
Context (cfg : ChainConfig) (get_hash : Z -> Z) (ChainId : Z) (contracts : option (SystemContracts CS)).
Context (AspenDposImplBytecode CornusDposImplBytecode : bytes) (OpPrecompiles : list (Address * bytes)).
Abbreviation W := (World CS).
Abbreviation ST := (StateTransition (CF := CF) (CS := CS)).
Abbreviation X := (M ST).
Abbreviation hf_changes := (applyHFChanges cfg contracts AspenDposImplBytecode CornusDposImplBytecode OpPrecompiles).
Abbreviation begin := (BeginBlock cfg contracts AspenDposImplBytecode CornusDposImplBytecode OpPrecompiles).

(** ** The table of a block *)
Definition base_table (rules : EvmBase.Rules) : list (option (PrecompiledContract (St := W))) :=
  if EvmBase.IsFicus rules then PrecompiledContractsFicus else PrecompiledContractsCalifornicum.

(** What is found under an address. *)
Definition contract_at (rules : EvmBase.Rules) (addr : Address) : option (PrecompiledContract (St := W)) :=
  match contracts with
  | None => Precompiles_Get (base_table rules) addr
  | Some c =>
      if bool_decide (addr = dpos_contract_address) then Some (dpos_contract c)
      else if EvmBase.IsMagnolia rules && bool_decide (addr = slashing_contract_address) then Some (slashing_contract c)
      else Precompiles_Get (base_table rules) addr
  end.

Definition table_ok (e : BlockContext) : Prop :=
  rules_initialized e = true -> forall addr, Precompiles_Get (precompiles e) addr = contract_at (blk_rules e) addr.

Lemma Put_done addr (c : PrecompiledContract (St := W)) t : (length t <= 255)%nat ->
  take 19 (addr_bytes addr) = replicate 19 Byte.x00 -> Z_of_byte (default Byte.x00 (addr_bytes addr !! 19%nat)) <> 0 ->
  Precompiles_Get t addr = None ->
  exists t', Precompiles_Put addr c t = Some t' /\ length t' = 255%nat /\
    forall a, Precompiles_Get t' a = if bool_decide (a = addr) then Some c else Precompiles_Get t a.
Proof.
  intros Hl Hp Hb Hn. pose proof (put_get t addr c Hl) as Hput. destruct (Precompiles_Put addr c t) as [t'|]; [by exists t'|].
  by destruct Hput as [?|[?|?]].
Qed.

Lemma base_free rules : (length (base_table rules) <= 255)%nat /\
  Precompiles_Get (base_table rules) dpos_contract_address = None /\ Precompiles_Get (base_table rules) slashing_contract_address = None.
Proof. unfold base_table. destruct (EvmBase.IsFicus rules); (split_and!; [by apply Nat.leb_le|done|done]). Qed.

(** ** What the operations leave alone *)
Definition same_block (s s' : ST) : Prop := evm_block s' = evm_block s /\ pending_blk_state s' = pending_blk_state s.

#[export] Instance same_block_preorder : PreOrder same_block.
Proof. split; [done|]. intros s s' s'' [] []. split; congruence. Qed.

Lemma in_state_returns {A} (m : M TransitionState A) (s : ST) :
  (forall t, returning m t (fun _ _ => True)) -> returning (in_state m) s (fun _ s' => same_block s s').
Proof.
  intros Hm. destruct (Hm (fst (evm_state (evm s)))) as (a & t & E & _). eexists a, _. unfold in_state, in_world, on_state, zoom. cbn [lget evm_lens EVM_state_lens World_state].
  rewrite E. split; [reflexivity|done].
Qed.

Lemma SetCode_block addr code (s : ST) : returning (in_state (SetCode addr code)) s (fun _ s' => same_block s s').
Proof. apply in_state_returns. intros t. apply SetCode_returns. Qed.

Lemma set_codes_block l : forall s : ST, returning (set_codes l) s (fun _ s' => same_block s s').
Proof.
  induction l as [|[addr code] l IH]; intros s; [by apply returning_ret|]. apply returning_bind. eapply returning_mono; [apply SetCode_block|].
  intros [] s1 H1. eapply returning_mono; [apply IH|]. intros [] s2 H2. by transitivity s1.
Qed.

Lemma same_block_bind {A B} (m : X A) (f : A -> X B) s0 s (Q : B -> ST -> Prop) :
  same_block s0 s -> returning m s (fun _ s' => same_block s s') -> (forall a s', same_block s0 s' -> returning (f a) s' Q) ->
  returning (x ← m; f x) s Q.
Proof. intros Hs0 Hm Hf. apply returning_bind. eapply returning_mono; [exact Hm|]. intros a s' Hs. apply Hf. by transitivity s. Qed.

Lemma same_block_when (c : bool) (m : X ()) s : returning m s (fun _ s' => same_block s s') -> returning (when c m) s (fun _ s' => same_block s s').
Proof. destruct c; [done|]. intros _. by apply returning_ret. Qed.

(** Registering under a free address. *)
Lemma Register_returns addr c (s : ST) : let e := evm_block s in
  (length (precompiles e) <= 255)%nat -> take 19 (addr_bytes addr) = replicate 19 Byte.x00 ->
  Z_of_byte (default Byte.x00 (addr_bytes addr !! 19%nat)) <> 0 -> Precompiles_Get (precompiles e) addr = None ->
  returning (RegisterPrecompiledContract addr c) s (fun _ s' => pending_blk_state s' = pending_blk_state s /\
    exists t, evm_block s' = mkBlockContext (blk e) (rules_initialized e) (blk_rules e) t /\ length t = 255%nat /\
    forall a, Precompiles_Get t a = if bool_decide (a = addr) then Some c else Precompiles_Get (precompiles e) a).
Proof.
  intros e Hl Hp Hb Hn. destruct (Put_done addr c (precompiles e) Hl Hp Hb Hn) as (t & E & Ht & Hget).
  unfold RegisterPrecompiledContract. apply returning_bind. exists s, s. split; [done|]. unfold e in E. rewrite E. eexists tt, _. split; [reflexivity|].
  split; [done|]. by exists t.
Qed.

(** The hardfork changes of a block on a new table. *)
Lemma hf_changes_returns (s : ST) p : pending_blk_state s = Some p -> 0 <= blk_n p < ChainConfig.BlockNumberNIL ->
  precompiles (evm_block s) = base_table (Rules_at cfg (blk_n p)) ->
  returning hf_changes s (fun _ s' => pending_blk_state s' = Some p /\
    exists t, evm_block s' = mkBlockContext (blk (evm_block s)) (rules_initialized (evm_block s)) (blk_rules (evm_block s)) t /\
    forall a, Precompiles_Get t a = contract_at (Rules_at cfg (blk_n p)) a).
Proof.
  intros Hp Hn Ht. destruct (base_free (Rules_at cfg (blk_n p))) as (Hlen & Hd & Hsl). unfold applyHFChanges.
  apply returning_bind. exists (blk_n p), s. split; [unfold BlockNumber, get_st, bindM; by rewrite Hp|].
  assert (forall s1 : ST, pending_blk_state s1 = Some p ->
    returning (when (IsCornusHardfork (Hardforks cfg) (blk_n p)) (set_codes OpPrecompiles)) s1 (fun _ s' => same_block s1 s')) as Hop.
  { intros s1 _. apply same_block_when, set_codes_block. }
  unfold contract_at. destruct contracts as [c|].
  2: { apply returning_bind, returning_ret, returning_bind, returning_ret. eapply returning_mono; [by apply Hop|]. intros [] s' [E1 E2].
    split; [congruence|]. exists (base_table (Rules_at cfg (blk_n p))). split; [|done]. rewrite E1, <- Ht. by destruct (evm_block s). }
  apply returning_bind, returning_bind. eapply returning_mono; [apply (Register_returns dpos_contract_address (dpos_contract c)); rewrite ?Ht; done|].
  intros [] s1 (Hp1 & t1 & E1 & Hl1 & Hg1). rewrite Ht in Hg1. rewrite Hp in Hp1.
  eapply (same_block_bind _ _ s1); [done| |].
  { destruct (IsOnAspenHardforkPartOne _ _); [|by apply returning_ret].
    eapply (same_block_bind _ _ s1); [done|apply in_state_returns; intros; apply GetCodeSize_returns|]. intros size s2 H2.
    eapply returning_mono; [apply same_block_when, SetCode_block|]. intros [] s3 H3. by transitivity s2. }
  intros [] s2 H2. eapply returning_mono; [apply same_block_when, SetCode_block|]. intros [] s3 H3.
  assert (same_block s1 s3) as [E3 Hp3] by by transitivity s2. rewrite Hp1 in Hp3. rewrite E1 in E3.
  assert (EvmBase.IsMagnolia (Rules_at cfg (blk_n p)) = IsOnMagnoliaHardfork (Hardforks cfg) (blk_n p)) as -> by by apply isForked_at.
  apply returning_bind. unfold when at 1. destruct (IsOnMagnoliaHardfork (Hardforks cfg) (blk_n p)).
  - eapply returning_mono; [apply (Register_returns slashing_contract_address (slashing_contract c)); rewrite ?E3; cbn [precompiles]; [lia|done|done|rewrite Hg1; exact Hsl]|].
    rewrite E3. cbn [precompiles blk rules_initialized blk_rules]. intros [] s4 (Hp4 & t4 & E4 & Hl4 & Hg4). rewrite Hp3 in Hp4.
    eapply returning_mono; [by apply Hop|]. intros [] s' [E5 Hp5]. split; [congruence|]. exists t4. split; [congruence|]. intros a. rewrite Hg4, Hg1. cbn [andb].
    case_bool_decide as Ha; [|done]. rewrite bool_decide_eq_false_2; [done|]. subst a. done.
  - apply returning_ret. eapply returning_mono; [by apply Hop|]. intros [] s' [E5 Hp5]. split; [congruence|]. exists t1. split; [congruence|]. exact Hg1.
Qed.
(** ** Beginning a block *)
Definition next_number (s : ST) : Z := u64 (pending_blk_n (latest_state s) + 1).
Definition next_pending (s : ST) : PendingBlockState := mkPending (BlockNum (state_desc (latest_state s))) (next_number s).

Lemma begin_block_returns (s : ST) : returning begin_block s (fun _ s' => evm_block s' = evm_block s /\ pending_blk_state s' = Some (next_pending s)).
Proof. unfold begin_block. by eexists _, _. Qed.

Lemma SetBlock_returns b rules (s : ST) : table_ok (evm_block s) ->
  returning (SetBlock b rules) s (fun changed s' => pending_blk_state s' = pending_blk_state s /\
    exists t, evm_block s' = mkBlockContext b true rules t /\
      if changed : bool then t = base_table rules else forall addr, Precompiles_Get t addr = contract_at rules addr).
Proof.
  intros Ht. unfold SetBlock. apply returning_bind. exists s, s. split; [done|]. cbv zeta.
  destruct (rules_initialized (evm_block s) && bool_decide (blk_rules (evm_block s) = rules)) eqn:E.
  - apply andb_true_iff in E as [Ei E%bool_decide_eq_true]. eexists _, _. split; [reflexivity|]. split; [done|].
    eexists. split; [by rewrite <- E|]. intros addr. rewrite <- E. by apply Ht.
  - eexists _, _. split; [reflexivity|]. split; [done|]. by eexists.
Qed.

Definition begun (s : ST) (blk_info : BlockInfo) (s' : ST) : Prop :=
  let n := next_number s in
  pending_blk_state s' = Some (next_pending s) /\
  exists t, evm_block s' = mkBlockContext (mkBlockInfo n (Author blk_info) (GasLimit blk_info) (Time blk_info) (Difficulty blk_info)) true (Rules_at cfg n) t /\
    forall addr, Precompiles_Get t addr = contract_at (Rules_at cfg n) addr.

Lemma BeginBlock_returns (s : ST) b : table_ok (evm_block s) -> next_number s <> ChainConfig.BlockNumberNIL ->
  returning (begin b) s (fun _ s' => begun s b s').
Proof.
  intros Ht Hn. unfold BeginBlock. apply returning_bind. eapply returning_mono; [apply begin_block_returns|]. intros [] s1 [E1 P1].
  assert (0 <= next_number s < ChainConfig.BlockNumberNIL) as Hr.
  { pose proof (u64_range (pending_blk_n (latest_state s) + 1)). unfold next_number, ChainConfig.BlockNumberNIL in *. lia. }
  apply returning_bind. exists (next_number s), s1. split; [unfold BlockNumber, get_st, bindM; by rewrite P1|]. cbv zeta.
  apply returning_bind. eapply returning_mono; [apply SetBlock_returns; by rewrite E1|]. intros changed s2 (P2 & t & E2 & Hc). rewrite P1 in P2.
  destruct changed; cbn [when].
  - eapply returning_mono; [apply (hf_changes_returns s2 (next_pending s)); [done|done|by rewrite E2]|].
    intros [] s3 (P3 & t3 & E3 & Hg). split; [done|]. exists t3. rewrite E3, E2. done.
  - apply returning_ret. split; [done|]. by exists t.
Qed.

(** ** Every history *)
(** Everything but the beginning of a block leaves the block of the EVM. *)
Definition same_table (s s' : ST) : Prop := evm_block s' = evm_block s.

#[export] Instance same_table_preorder : PreOrder same_table.
Proof. split; [done|]. unfold same_table. intros s s' s'' ? ?. congruence. Qed.

Lemma table_zoom {K A} `{Lens ST K} (m : M K A) : (forall k s, same_table s (lset k s)) -> within True same_table (zoom m).
Proof. intros Hl s. unfold post, zoom. destruct (m (lget s)); [apply Hl|done|done]. Qed.

Ltac table_step :=
  match goal with
  | |- forall _, _ => intros ?
  | |- within _ _ (bindM _ _) => apply within_bind; [apply _| |intros ?]
  | |- within _ _ (ret _) => apply within_ret; apply _
  | |- within _ _ (panic _) => apply within_panic
  | |- within _ _ get_st => apply within_reads; apply _
  | |- within _ _ (zoom _) => apply table_zoom; done
  | |- within _ _ (modify_st _) => apply within_modify; done
  | |- within _ _ (when ?c _) => destruct c; cbn [when]
  | |- within _ _ (match ?x with _ => _ end) => destruct x
  | H : context [within _ _ _] |- _ => solve [apply H]
  end.
Ltac table := repeat table_step.

Lemma table_in_world {A} (m : M W A) : within True same_table (in_world m).
Proof. unfold in_world. table. Qed.

Lemma table_in_state {A} (m : M TransitionState A) : within True same_table (in_state m).
Proof. apply table_in_world. Qed.

Lemma table_write_puts : within True same_table write_puts.
Proof. unfold write_puts. table. Qed.

Lemma table_pass_on out : within True same_table (pass_on out).
Proof. pose proof table_write_puts. unfold pass_on. cbv zeta. table. Qed.

Lemma table_checkpoint : within True same_table evm_state_checkpoint.
Proof. pose proof @table_in_state. pose proof table_pass_on. unfold evm_state_checkpoint. table. Qed.

Lemma table_PrepareCommit : within True same_table PrepareCommit.
Proof. pose proof @table_in_state. pose proof table_pass_on. pose proof table_write_puts. unfold PrepareCommit. table. Qed.

Lemma table_Commit : within True same_table (Commit cfg contracts).
Proof. pose proof @table_in_world. pose proof table_PrepareCommit. unfold Commit. cbv zeta. table. Qed.

Lemma table_ExecuteTransaction fuel tx : within True same_table (ExecuteTransaction get_hash ChainId fuel tx).
Proof. pose proof table_checkpoint. unfold ExecuteTransaction. table. Qed.

Lemma table_DistributeRewards stats : within True same_table (DistributeRewards cfg contracts stats).
Proof. pose proof @table_in_world. pose proof table_checkpoint. unfold DistributeRewards. table. Qed.

Lemma table_EndBlock : within True same_table (EndBlock contracts).
Proof. pose proof @table_in_world. pose proof table_checkpoint. unfold EndBlock. cbv zeta. table. Qed.

(** The states of the transition. *)
Inductive reachable : ST -> Prop :=
| re_init latest capacity levels s :
    Init cfg contracts AspenDposImplBytecode CornusDposImplBytecode OpPrecompiles latest capacity levels = Done tt s -> reachable s
| re_begin s b s' : reachable s -> next_number s <> ChainConfig.BlockNumberNIL -> begin b s = Done tt s' -> reachable s'
| re_execute s fuel tx res s' : reachable s -> ExecuteTransaction get_hash ChainId fuel tx s = Done res s' -> reachable s'
| re_fee s account fee s' : reachable s -> AddTxFeeToBalance account fee s = Done tt s' -> reachable s'
| re_rewards s stats total s' : reachable s -> DistributeRewards cfg contracts stats s = Done total s' -> reachable s'
| re_end s s' : reachable s -> EndBlock contracts s = Done tt s' -> reachable s'
| re_prepare s root s' : reachable s -> PrepareCommit s = Done root s' -> reachable s'
| re_commit s root s' : reachable s -> Commit cfg contracts s = Done root s' -> reachable s'
| re_config s c s' : reachable s -> UpdateConfig c s = Done tt s' -> reachable s'.

(** The block of genesis leaves the rules to the first block after it. *)
Definition same_init (s s' : ST) : Prop := rules_initialized (evm_block s') = rules_initialized (evm_block s).

#[export] Instance same_init_preorder : PreOrder same_init.
Proof. split; [done|]. unfold same_init. intros s s' s'' ? ?. congruence. Qed.

Lemma init_table {A} (m : X A) : within True same_table m -> within True same_init m.
Proof. intros Hm s. eapply post_mono; [apply Hm|]. intros a s' E. unfold same_init. by rewrite E. Qed.

Lemma init_Register addr c : within True same_init (RegisterPrecompiledContract addr c).
Proof. intros s. unfold post, RegisterPrecompiledContract, get_st, bindM. destruct (Precompiles_Put _ _ _); done. Qed.

Lemma table_set_codes l : within True same_table (set_codes l).
Proof. induction l as [|[addr code] l IH]; cbn [set_codes]; table. apply table_in_state. Qed.

Lemma init_hf_changes : within True same_init hf_changes.
Proof.
  pose proof init_Register. pose proof (fun A m => init_table _ (@table_in_state A m)). pose proof (fun l => init_table _ (table_set_codes l)).
  assert (within True same_init BlockNumber) by (apply init_table; unfold BlockNumber; table).
  unfold applyHFChanges. cbv zeta. repeat table_step.
Qed.

Lemma table_add_balances l : within True same_table (add_balances l).
Proof. induction l as [|[addr code] l IH]; cbn [add_balances]; table. apply table_in_state. Qed.

Lemma init_genesis : within True same_init (genesis cfg contracts AspenDposImplBytecode CornusDposImplBytecode OpPrecompiles).
Proof.
  pose proof init_hf_changes. pose proof (init_table _ table_checkpoint). pose proof (init_table _ table_Commit). pose proof (fun l => init_table _ (table_add_balances l)).
  pose proof (fun A m => init_table _ (@table_in_world A m)).
  assert (within True same_init BlockNumber) by (apply init_table; unfold BlockNumber; table).
  assert (within True same_init begin_block) by (apply init_table; unfold begin_block; pose proof @table_in_state; cbv zeta; table).
  unfold genesis. repeat table_step.
Qed.

Lemma reachable_table s : reachable s -> table_ok (evm_block s).
Proof.
  assert (forall A (m : X A) s a s', within True same_table m -> m s = Done a s' -> table_ok (evm_block s) -> table_ok (evm_block s')) as Hsame.
  { intros A m s1 a s' Hm E Hs. pose proof (post_done True m s1 _ a s' (Hm s1) E) as Es. simpl in Es. by rewrite Es. }
  induction 1 as [latest capacity levels s E|s b s' _ IH Hn E|s fuel tx res s' _ IH E|s account fee s' _ IH E|s stats total s' _ IH E|s s' _ IH E|s root s' _ IH E|s root s' _ IH E|s c s' _ IH E].
  - unfold Init in E. destruct (TrieSink_Init _ _) as [sink|]; [|done]. destruct (IsEmptyStateRoot _); [|by injection E as <-].
    pose proof (post_done True _ _ _ tt s (init_genesis _) E) as Ei. intros Hi. simpl in Ei. unfold same_init in Ei. rewrite Ei in Hi. done.
  - destruct (returning_done _ _ _ _ _ (BeginBlock_returns s b IH Hn) E) as (_ & t & -> & Hg). intros _. exact Hg.
  - by eapply Hsame; [apply table_ExecuteTransaction|..].
  - by eapply Hsame; [apply table_in_state|..].
  - by eapply Hsame; [apply table_DistributeRewards|..].
  - by eapply Hsame; [apply table_EndBlock|..].
  - by eapply Hsame; [apply table_PrepareCommit|..].
  - by eapply Hsame; [apply table_Commit|..].
  - by injection E as <-.
Qed.

(** C29: In every block of every history [BeginBlock] returns, whatever the
    database holds: it has the number after the last one, its rules are those of the hardforks at
    that number, and a call to an address finds the DPOS contract under its address, the
    slashing contract under its address if the Magnolia hardfork is on, and
    the precompiled contracts of the rules under theirs, although the table is
    set up anew whenever the rules change, and never else. *)
Theorem contracts_registered s b : reachable s -> next_number s <> ChainConfig.BlockNumberNIL ->
  exists s', begin b s = Done tt s' /\ reachable s' /\
    Number (blk (evm_block s')) = next_number s /\ blk_rules (evm_block s') = Rules_at cfg (next_number s) /\
    forall addr, Precompiles_Get (precompiles (evm_block s')) addr =
      match contracts with
      | None => Precompiles_Get (base_table (Rules_at cfg (next_number s))) addr
      | Some c =>
          if bool_decide (addr = dpos_contract_address) then Some (dpos_contract c)
          else if bool_decide (addr = slashing_contract_address) && IsOnMagnoliaHardfork (Hardforks cfg) (next_number s) then Some (slashing_contract c)
          else Precompiles_Get (base_table (Rules_at cfg (next_number s))) addr
      end.
Proof.
  intros Hs Hn. destruct (BeginBlock_returns s b (reachable_table s Hs) Hn) as ([] & s' & E & _ & t & Eb & Hg).
  exists s'. split; [done|]. split; [by eapply re_begin|]. rewrite Eb. cbn [blk blk_rules precompiles Number]. split_and!; [done|done|].
  intros addr. rewrite Hg. unfold contract_at. destruct contracts as [c|]; [|done]. rewrite andb_comm.
  assert (EvmBase.IsMagnolia (Rules_at cfg (next_number s)) = IsOnMagnoliaHardfork (Hardforks cfg) (next_number s)) as ->; [|done].
  apply isForked_at. pose proof (u64_range (pending_blk_n (latest_state s) + 1)). unfold next_number, ChainConfig.BlockNumberNIL in *. lia.
Qed.
End props.
