(* ===== verification/StateBlock.v ===== *)
(** * A block of the state transition and its root

    From the opening of the database to the root that [PrepareCommit]
    returns: the transactions that [EVM.Main] executes and what the contracts
    of the chain do are journalled operations, the calls at the checkpoints
    are those of [BlockCommit], and the sink works them off as they come. *)
From S2P Require Import Prelude Bytes Rlp Crypto ChainConfig Dpos DposRewards Slashing.
From S2P Require Import Uint256 EvmWord EvmBase EvmMemory EvmGas EvmInstr EvmTable EvmRun EvmContracts EvmFrame EvmKeeps StateEvm StateRevert StateKeeps Trie TrieProps StateDb StateDbProps RocksDb TrieSink TrieSinkProps StateTrack BlockCommit StateTransition StateTransitionProps.
Local Open Scope Z_scope.

(** ** Relations on the state under the memory of the contracts *)
Section world.
Context {CR : Crypto} {CS : Type} (R : TransitionState -> TransitionState -> Prop) `{!StateRel R}.
Abbreviation W := (World CS).

Definition on_ts (w w' : W) : Prop := R (fst w) (fst w').

#[export] Instance on_ts_preorder : PreOrder on_ts.
Proof. pose proof (sr_preorder (R := R)). split; [intros w|intros w w' w'']; unfold on_ts; [reflexivity|apply transitivity]. Qed.

Lemma on_state_done {A} (m : M TransitionState A) (w w' : W) a : on_state m w = Done a w' -> m (fst w) = Done a (fst w').
Proof. unfold on_state, zoom. cbn [lget World_state]. destruct (m (fst w)); [by intros [= <- <-]|done..]. Qed.

Lemma on_state_post {A} (m : M TransitionState A) (w : W) (Q : A -> TransitionState -> Prop) :
  post True m (fst w) Q -> post True (on_state m) w (fun a w' => Q a (fst w')).
Proof. unfold post, on_state, zoom. cbn [lget lset World_state]. by destruct (m (fst w)). Qed.

Lemma on_state_within {A} (m : M TransitionState A) : within True R m -> within True on_ts (on_state m).
Proof. intros Hm w. apply (on_state_post m w (fun _ s' => R (fst w) s')), Hm. Qed.

#[export] Instance on_ts_rel : StateRel on_ts.
Proof.
  split.
  - apply _.
  - intros A m Hm. destruct Hm; apply on_state_within, sr_op; constructor.
  - apply on_state_within, sr_snapshot.
  - intros w n w1 w2 E%on_state_done Hr. apply (on_state_post (RevertToSnapshot n) w2 (fun _ s' => R (fst w) s')). by eapply sr_revert.
  - intros addr code n w w' w'' w0 w1 w2 En%on_state_done Es%on_state_done Hs%on_state_done Ei%on_state_done Hr.
    apply (on_state_post (SetCode addr code) w2 (fun _ s' => R (fst w0) s')). by eapply (sr_create addr code n (fst w) (fst w') (fst w'') (fst w0) (fst w1)).
Qed.
End world.

(** ** What the contracts of the chain promise *)
Section contracts.
Context {CR : Crypto} {CS : Type}.
Abbreviation W := (World CS).
Abbreviation scripted_world := (on_ts (CS := CS) scripted).

Definition scripted_contract (p : PrecompiledContract (St := W)) : Prop := forall f,
  within True (on_evm scripted_world) (RequiredGas p f) /\ within True (on_evm scripted_world) (Run p f).

(** Whatever they do to the state they do by journalled operations and by raw
    writes under their own addresses. *)
Class ContractLaws (c : SystemContracts CS) : Prop := {
  cl_dpos : scripted_contract (dpos_contract c);
  cl_slashing : scripted_contract (slashing_contract c);
  cl_rewards stats : within True scripted_world (contract_DistributeRewards c stats);
  cl_end n : within True scripted_world (EndBlockCall c n);
  cl_cleanup n : within True scripted_world (CleanupJailedValidators c n);
}.

Context {EW : EvmWords} {CV : Curves}.

Lemma Californicum_Get addr p : Precompiles_Get (PrecompiledContractsCalifornicum (St := W)) addr = Some p ->
  Precompiles_Get (PrecompiledContractsFicus (St := W)) addr = Some p.
Proof.
  unfold Precompiles_Get, PrecompiledContractsFicus. destruct (_ =? 0); [done|]. destruct (PrecompiledContractsCalifornicum !! _) as [o|] eqn:E; [|done].
  by rewrite (lookup_app_l_Some _ _ _ _ E).
Qed.

Lemma contract_scripted c rules addr p : ContractLaws c -> contract_at (Some c) rules addr = Some p -> scripted_contract p.
Proof.
  intros Hc. unfold contract_at. case_bool_decide; [intros [= <-]; apply cl_dpos|]. destruct (_ && _); [intros [= <-]; apply cl_slashing|].
  intros Hp f. apply (Ficus_within scripted_world addr p f). unfold base_table in Hp. destruct (EvmBase.IsFicus rules); [done|by apply Californicum_Get].
Qed.
End contracts.

(** ** The trace grows at its end *)
Lemma flush_grows addr out a a' out' st : flush addr out a = (a', out', st) -> exists l, out' = out ++ l.
Proof.
  unfold flush. destruct (body a) as [b|]; [|intros [= _ <- _]; exists []; by rewrite app_nil_r].
  destruct (mod_count b =? 0); [intros [= _ <- _]; exists []; by rewrite app_nil_r|]. destruct (_ || _); [intros [= _ <- _]; by eexists|].
  destruct (_ =? _); [intros [= _ <- _]; exists []; by rewrite app_nil_r|]. destruct (sink _); intros [= _ <- _]; [by eexists|]. rewrite <- app_assoc. by eexists.
Qed.

Lemma commit_account_grows addr out s out' s' : commit_account addr out s = Done out' s' -> exists l, out' = out ++ l.
Proof.
  rewrite commit_account_eq. destruct (deleted _); [intros [= <- _]; exists []; by rewrite app_nil_r|].
  destruct (flush _ _ _) as [[a o] st] eqn:E. intros [= <- _]. by eapply flush_grows.
Qed.

Lemma commit_accounts_grows l : forall out s out' s', commit_accounts l out s = Done out' s' -> exists l, out' = out ++ l.
Proof.
  induction l as [|addr l IH]; intros out s out' s'; cbn [commit_accounts]; [intros [= <- _]; exists []; by rewrite app_nil_r|].
  intros (o & s1 & E1 & E2)%bind_done_inv. destruct (commit_account_grows _ _ _ _ _ E1) as [l1 ->], (IH _ _ _ _ E2) as [l2 ->].
  rewrite <- app_assoc. by eexists.
Qed.

Lemma CommitTransaction_grows out s out' s' : CommitTransaction out s = Done out' s' -> exists l, out' = out ++ l.
Proof. intros (s1 & s2 & [= <- <-] & (o & s3 & E & (? & ? & _ & [= <- _])%bind_done_inv)%bind_done_inv)%bind_done_inv. by eapply commit_accounts_grows. Qed.

Lemma commit_dirties_grows l : forall out s out' s', commit_dirties l out s = Done out' s' -> exists l, out' = out ++ l.
Proof.
  induction l as [|addr l IH]; intros out s out' s'; cbn [commit_dirties]; [intros [= <- _]; exists []; by rewrite app_nil_r|].
  intros (o & s1 & E1 & E2)%bind_done_inv. destruct (IH _ _ _ _ E2) as [l2 ->]. unfold commit_dirty in E1. destruct (accounts s !! addr) as [a|]; [|done].
  destruct (deleted a); [injection E1 as <- _; by eexists|]. destruct (body a) as [b|]; [|done]. destruct (sink b); [|done]. injection E1 as <- _.
  rewrite <- app_assoc. by eexists.
Qed.

Lemma Commit_grows out s out' s' : StateEvm.Commit out s = Done out' s' -> exists l, out' = out ++ l.
Proof. intros (s1 & s2 & [= <- <-] & (o & s3 & E & (? & ? & _ & [= <- _])%bind_done_inv)%bind_done_inv)%bind_done_inv. by eapply commit_dirties_grows. Qed.

(** ** The sink does not look at what it has written *)
Section puts_free.
Context `{Crypto}.

Definition puts_free {A} (m : M TrieSink A) : Prop := forall s p a t, m s = Done a t -> exists q, m (set_puts p s) = Done a (set_puts q t).

Lemma puts_free_ret {A} (a : A) : puts_free (ret a).
Proof. intros s p ? t [= <- <-]. by exists p. Qed.

Lemma puts_free_bind {A B} (m : M TrieSink A) (f : A -> M TrieSink B) : puts_free m -> (forall a, puts_free (f a)) -> puts_free (x ← m; f x).
Proof.
  intros Hm Hf s p b t (a & s1 & E1 & E2)%bind_done_inv. destruct (Hm s p a s1 E1) as [q E]. destruct (Hf a s1 q b t E2) as [q' E'].
  exists q'. by rewrite (bind_done _ _ _ _ _ E).
Qed.

Lemma puts_free_get {A} (f : TrieSink -> M TrieSink A) : (forall s p, f (set_puts p s) = f s) -> (forall s, puts_free (f s)) -> puts_free (s ← get_st; f s).
Proof. intros Hs Hf s p a t E. unfold get_st, bindM in *. rewrite Hs. by apply Hf. Qed.

Lemma puts_free_modify (f : TrieSink -> TrieSink) : (forall s p, exists q, f (set_puts p s) = set_puts q (f s)) -> puts_free (modify_st f).
Proof. intros Hf s p [] t [= <-]. unfold modify_st. destruct (Hf s p) as [q ->]. by exists q. Qed.

Lemma puts_free_on_trie {A} view adapter (m : M IO A) : puts_free (on_trie view adapter m).
Proof.
  intros s p a t. unfold on_trie. cbn [io set_puts]. destruct (m _) as [a' x|e x|g]; [|done|done]. intros [= <- <-]. by eexists.
Qed.

Lemma puts_free_get_mutation k : puts_free (get_mutation k).
Proof. intros s p a t. unfold get_mutation. cbn [mutations set_puts]. destruct (mutations s !! k); [|done]. intros [= <- <-]. by exists p. Qed.

Lemma puts_free_put_mutation k m : puts_free (put_mutation k m).
Proof. apply puts_free_modify. intros s p. by exists p. Qed.

Lemma puts_free_panic {A} msg : puts_free (A := A) (panic msg).
Proof. done. Qed.

Ltac puts_step :=
  match goal with
  | |- forall _, _ => intros ?
  | |- puts_free (ret _) => apply puts_free_ret
  | |- puts_free (panic _) => apply puts_free_panic
  | |- puts_free (bindM _ _) => apply puts_free_bind; [|intros ?]
  | |- puts_free (get_mutation _) => apply puts_free_get_mutation
  | |- puts_free (put_mutation _ _) => apply puts_free_put_mutation
  | |- puts_free (on_account _ _) => apply puts_free_on_trie
  | |- puts_free (modify_st (set_main _)) => apply puts_free_modify; let x := fresh in let y := fresh in intros x y; by exists y
  | |- puts_free (when ?c _) => destruct c; cbn [when]
  | |- puts_free (match ?x with _ => _ end) => destruct x
  | |- puts_free (let _ := _ in _) => cbv zeta
  end.

Lemma puts_free_main_Put k key : puts_free (main_Put k key).
Proof. unfold main_Put, on_main. apply puts_free_get; [done|]. intros s. repeat first [apply puts_free_on_trie | puts_step]. Qed.

Lemma puts_free_Delete addr : puts_free (sink_Delete addr).
Proof. unfold sink_Delete, on_main. apply puts_free_get; [done|]. intros s. repeat first [apply puts_free_on_trie | puts_step]. Qed.

Lemma puts_free_encode a : puts_free (encode_account a).
Proof. intros s p e t. unfold encode_account. destruct (acc_EncodeForTrie a Encoder_Reset); [|done|done]. intros [= <- <-]. by exists p. Qed.

Lemma puts_free_op n o : puts_free (sink_op n o).
Proof.
  destruct o as [addr|addr|k ch|k]; cbn [sink_op].
  - apply puts_free_put_mutation.
  - apply puts_free_Delete.
  - unfold sink_Update, update_task.
    apply puts_free_bind; [destruct (ch_CodeDirty ch); cbn [when]; [|apply puts_free_ret]; destruct (acc_CodeHash _); [|apply puts_free_panic]|].
    { apply puts_free_modify. intros s p. by eexists. }
    intros _. pose proof puts_free_main_Put. repeat first [puts_step | by auto].
  - unfold sink_CommitMutation. pose proof puts_free_encode. repeat first [puts_step | by auto].
Qed.

Lemma puts_free_ops os : forall n, puts_free (sink_ops n os).
Proof. induction os as [|o os IH]; intros n; cbn [sink_ops]; [apply puts_free_ret|]. apply puts_free_bind; [apply puts_free_op|]. intros _. apply IH. Qed.

Lemma puts_free_Commit : puts_free sink_Commit.
Proof.
  apply puts_free_get; [done|]. intros s. apply puts_free_bind; [apply puts_free_on_trie|]. intros [root w].
  apply puts_free_bind; [apply puts_free_modify; intros s' p; by exists p|]. intros _. apply puts_free_ret.
Qed.

Lemma sink_ops_app os os' : forall n s, sink_ops n (os ++ os') s = (_ ← sink_ops n os; sink_ops (n + length os) os') s.
Proof.
  induction os as [|o os IH]; intros n s; cbn [sink_ops app length]; [by rewrite Nat.add_0_r|].
  rewrite bind_assoc. unfold bindM at 1 2. destruct (sink_op n o s) as [a t|e t|g]; [|done|done]. rewrite IH. by rewrite <- Nat.add_succ_comm.
Qed.
End puts_free.

(** ** Inside a block *)
Section block.
Context `{Crypto} {laws : CryptoLaws} {EW : EvmWords} {CV : Curves} {CF : Type} {rocks : RocksDB CF} {CS : Type} `{Inhabited CS}.
Context (cfg : ChainConfig) (get_hash : Z -> Z) (ChainId : Z) (c : SystemContracts CS) {Hc : ContractLaws c}.
Context (AspenDposImplBytecode CornusDposImplBytecode : bytes) (OpPrecompiles : list (Address * bytes)).
Abbreviation W := (World CS).
Abbreviation ST := (StateTransition (CF := CF) (CS := CS)).
Abbreviation X := (M ST).
Abbreviation begin := (BeginBlock cfg (Some c) AspenDposImplBytecode CornusDposImplBytecode OpPrecompiles).
Context (Hclash : no_clash).
Context (r : Reader) (stored_slots : Address -> contents) (m0 : gmap bytes DbAccount) (root : bytes) (levels : Z).
Abbreviation i := (ExtendedReader r).
Context (Hdb : db_ok r stored_slots i m0) (Hm0 : forall key a, m0 !! key = Some a -> account_ok a).
Context (Hlevels : levels <= MaxDepth) (Hroot : holds_accounts r (if IsEmptyStateRoot (Some root) then None else Some root) m0).

(** The sink has worked off the calls [os], but for the writes it has passed on. *)
Definition sink_at (os : list OutOp) (k : TrieSink) : Prop :=
  exists k0 k' q, TrieSink_Init root levels = Some k0 /\ (_ ← SetIO r; sink_ops 0 os) k0 = Done tt k' /\ k = set_puts q k'.

(** The transition between two checkpoints, the last of which left [s0] and
    has made the calls [os]. *)
Record in_block (e0 : BlockContext) (w : Address -> gmap bytes bytes) (os : list OutOp) (s0 : TransitionState) (s : ST) : Prop := mkInBlock {
  ib_calls : calls s = os;
  ib_state : block_state i w os s0;
  ib_journal : journalled 0 s0 (GetEvmState s);
  ib_sink : sink_at os (trie_sink s);
  ib_io : is_Some (sink_io s);
  ib_block : evm_block s = e0;
}.

Lemma in_block_world e0 w os s0 (s s' : ST) : in_block e0 w os s0 s -> extends (GetEvmState s) (GetEvmState s') ->
  calls s' = calls s -> trie_sink s' = trie_sink s -> sink_io s' = sink_io s -> evm_block s' = evm_block s -> in_block e0 w os s0 s'.
Proof. intros [] Hj E1 E2 E3 E4. split; rewrite ?E1, ?E2, ?E3, ?E4; auto. Qed.

(** ** A checkpoint *)
Lemma sink_next os new k : sink_at os k -> (exists k0 k', TrieSink_Init root levels = Some k0 /\ (_ ← SetIO r; sink_ops 0 (os ++ new)) k0 = Done tt k') ->
  exists k', sink_ops (length os) new k = Done tt k' /\ sink_at (os ++ new) k'.
Proof.
  intros (k0 & k1 & q & E0 & E1 & ->) (k0' & k2 & E0' & E2). rewrite E0 in E0'. injection E0' as <-.
  unfold SetIO in *. rewrite (bind_done _ _ k0 () (set_puts [] (set_io r k0)) eq_refl) in E1.
  pose proof E2 as E3. rewrite (bind_done _ _ k0 () (set_puts [] (set_io r k0)) eq_refl) in E3.
  rewrite sink_ops_app, (bind_done _ _ _ _ _ E1) in E3. destruct (puts_free_ops new _ _ q _ _ E3) as [q' E]. exists (set_puts q' k2). split; [exact E|].
  exists k0, k2, q'. split; [done|]. split; [|done]. by rewrite (bind_done _ _ k0 () (set_puts [] (set_io r k0)) eq_refl).
Qed.

(** The trace of a state between transactions can be worked off. *)
Lemma trace_runs os : all_legal r stored_slots 0 (sp0 m0) os ->
  exists k0 k', TrieSink_Init root levels = Some k0 /\ (_ ← SetIO r; sink_ops 0 os) k0 = Done tt k'.
Proof.
  intros Hl.
  assert (forall k : nat, value_ok (fun _ : nat => acc_pair no_account) MainTrieSchema k) as HE0.
  { intros k. apply (value_ok_rest _ _ no_account []); [apply no_account_ok|done|by rewrite app_nil_r]. }
  destruct (init_sim r (fun _ => acc_pair no_account) m0 root levels Hlevels Hroot) as (k0 & E0 & Hs0).
  destruct (sink_ops_sim r stored_slots _ HE0 os _ _ _ Hs0 Hl) as (k' & E & _). exists k0, k'. split; [done|].
  unfold SetIO. by rewrite (bind_done _ _ k0 () (set_puts [] (set_io r k0)) eq_refl).
Qed.

Lemma put_all_returns p l : forall ls : LatestState (CF := CF), returning (put_all p l) ls (fun _ _ => True).
Proof. induction l as [|x l IH]; intros ls; [by eexists _, _|]. apply returning_bind. eexists _, _. split; [reflexivity|]. apply IH. Qed.

(** What a step leaves of the transition. *)
Record only_sink (s s' : ST) : Prop := mkOnlySink {
  os_evm : evm s' = evm s;
  os_block : evm_block s' = evm_block s;
  os_io : sink_io s' = sink_io s;
}.

Lemma write_puts_returns s : is_Some (sink_io s) ->
  returning write_puts s (fun _ s' => only_sink s s' /\ calls s' = calls s /\ exists q, trie_sink s' = set_puts q (trie_sink s)).
Proof.
  intros [p Hp]. unfold write_puts. apply returning_bind. exists s, s. split; [done|]. rewrite Hp. destruct (puts (trie_sink s)) as [|x l] eqn:E.
  - apply returning_ret. split; [done|]. split; [done|]. exists []. rewrite <- E. by destruct (trie_sink s).
  - apply returning_bind. destruct (put_all_returns p (x :: l) (latest_state s)) as ([] & ls & E1 & _). eexists tt, _. split; [unfold zoom; cbn [lget latest_lens]; rewrite E1; reflexivity|].
    eexists tt, _. split; [reflexivity|]. split; [done|]. split; [done|]. by eexists.
Qed.

Lemma pass_on_returns s os new : calls s = os -> sink_at os (trie_sink s) -> is_Some (sink_io s) -> all_legal r stored_slots 0 (sp0 m0) (os ++ new) ->
  returning (pass_on (os ++ new)) s (fun _ s' => only_sink s s' /\ calls s' = os ++ new /\ sink_at (os ++ new) (trie_sink s')).
Proof.
  intros E Hk Hio Hl. unfold pass_on. apply returning_bind. exists s, s. split; [done|]. cbv zeta. rewrite E, drop_app_length.
  destruct (sink_next os new _ Hk (trace_runs _ Hl)) as (k' & E1 & Hk'). apply returning_bind. eexists tt, _. split; [unfold zoom; cbn [lget sink_lens]; rewrite E1; reflexivity|].
  apply returning_bind. eexists tt, _. split; [reflexivity|]. eapply returning_mono; [by apply write_puts_returns|].
  intros [] s' ([E2 E3 E4] & Ec & q & Eq). split; [by split|]. split; [exact Ec|]. rewrite Eq. destruct Hk' as (k0 & k1 & q1 & E0 & E5 & Ek). exists k0, k1, q.
  split; [done|]. split; [done|]. cbn [trie_sink set_calls set_trie_sink lset sink_lens]. by rewrite Ek.
Qed.

Lemma checkpoint_returns e0 w os s0 s : in_block e0 w os s0 s -> tx_ok i (GetEvmState s) ->
  returning evm_state_checkpoint s (fun _ s' => exists os' s1,
    CommitTransaction os (GetEvmState s) = Done os' s1 /\ in_block e0 (raw_committed w (GetEvmState s) s1) os' s1 s' /\ GetEvmState s' = s1).
Proof.
  intros [Ec Hst Hj Hk Hio He] Hok. pose proof (block_between Hclash r stored_slots i m0 Hdb w os s0 Hst) as Hb.
  destruct (commit_transaction_ok Hclash r stored_slots i m0 Hdb w os s0 (GetEvmState s) Hb Hj Hok) as (os' & s1 & E & Hb').
  destruct (CommitTransaction_grows _ _ _ _ E) as [new ->].
  unfold evm_state_checkpoint. apply returning_bind. exists s, s. split; [done|]. rewrite Ec. apply returning_bind.
  eexists (os ++ new), _. split; [unfold in_state, in_world, on_state, zoom; cbn [lget evm_lens EVM_state_lens World_state]; unfold GetEvmState in E; rewrite E; reflexivity|].
  eapply returning_mono; [apply pass_on_returns; [done|done|done|apply (to_legal _ _ _ _ (bt_trace _ _ _ _ _ _ _ Hb'))]|].
  intros [] s' ([E1 E2 E3] & Ec' & Hk'). assert (GetEvmState s' = s1) as Es by (unfold GetEvmState; by rewrite E1).
  exists (os ++ new), s1. split; [done|]. split; [|done]. split; [done|by eapply bs_transaction|rewrite Es; constructor|done|by rewrite E3|by rewrite E2].
Qed.
(** ** The operations of a block *)
Inductive BlockOp :=
| OpTransaction (fuel : nat) (tx : Transaction)
| OpFee (account : Address) (fee : Z)
| OpRewards (stats : RewardsStats).

Definition do_op (o : BlockOp) : X () :=
  match o with
  | OpTransaction fuel tx => _ ← ExecuteTransaction get_hash ChainId fuel tx; ret tt
  | OpFee account fee => AddTxFeeToBalance account fee
  | OpRewards stats => _ ← DistributeRewards cfg (Some c) (Some stats); ret tt
  end.

Fixpoint do_ops (ops : list BlockOp) : X () := match ops with [] => ret tt | o :: ops => _ ← do_op o; do_ops ops end.

(** What is assumed of the operations of a block ([smooth]): the computation
    that an operation runs before its checkpoint - [Main] of a transaction,
    the contract's distribution of rewards, and at the end of the block
    [EndBlockCall] with [CleanupJailedValidators] - returns, and leaves a
    state that can be committed ([tx_ok] in [BlockCommit]).  [Main] and the
    contracts can panic ([EvmFindings.mload_wraps],
    [SlashingExample.malformed_vote_panics]), and then so does the block. *)
Definition op_ready (s : ST) (o : BlockOp) : Prop :=
  match o with
  | OpTransaction fuel tx =>
      returning (Main (tx_env get_hash ChainId s tx) (precompiles (evm_block s)) fuel) (evm s) (fun _ e' => tx_ok i (fst (evm_state e')))
  | OpFee account fee => returning (AddBalance account fee) (GetEvmState s) (fun _ _ => True)
  | OpRewards stats => RewardsEnabled cfg = true -> returning (contract_DistributeRewards c stats) (evm_state (evm s)) (fun _ w => tx_ok i (fst w))
  end.

Definition end_ready (s : ST) : Prop :=
  let n := Number (blk (evm_block s)) in
  returning (_ ← EndBlockCall c n; CleanupJailedValidators c n) (evm_state (evm s)) (fun _ w => tx_ok i (fst w)).

Inductive smooth : list BlockOp -> ST -> Prop :=
| smooth_end s : end_ready s -> smooth [] s
| smooth_op o ops s : op_ready s o -> (forall s', do_op o s = Done tt s' -> smooth ops s') -> smooth (o :: ops) s.

Context (e0 : BlockContext (CS := CS)).
Context (Htable : forall addr p, Precompiles_Get (precompiles e0) addr = Some p -> scripted_contract p).

Lemma in_world_returns {A} (m : M W A) (s : ST) Q : returning m (evm_state (evm s)) Q ->
  returning (in_world m) s (fun a s' => Q a (evm_state (evm s')) /\ calls s' = calls s /\ trie_sink s' = trie_sink s /\ sink_io s' = sink_io s /\ evm_block s' = evm_block s).
Proof.
  intros (a & w & E & HQ). eexists a, _. split; [unfold in_world, zoom; cbn [lget evm_lens EVM_state_lens]; rewrite E; reflexivity|]. done.
Qed.

(** What the contracts do in a block. *)
Lemma contract_step {A} w os s0 s (m : M W A) Q : in_block e0 w os s0 s -> within True (on_ts scripted) m -> returning m (evm_state (evm s)) Q ->
  returning (in_world m) s (fun a s' => Q a (evm_state (evm s')) /\ in_block e0 w os s0 s').
Proof.
  intros Hb Hm Hr. pose proof Hr as (a0 & w0 & E0 & HQ0).
  pose proof (post_done True m _ _ a0 w0 (Hm _) E0) as Hs.
  destruct (in_world_returns m s (fun a w' => Q a w' /\ on_ts scripted (evm_state (evm s)) w')) as (a & s' & E & (HQ & Hs') & E1 & E2 & E3 & E4); [by exists a0, w0|].
  exists a, s'. split; [done|]. split; [done|]. eapply in_block_world; [done|by apply scr_journalled|done..].
Qed.

Lemma op_returns w os s0 s o : in_block e0 w os s0 s -> op_ready s o ->
  returning (do_op o) s (fun _ s' => exists w' os' s0', in_block e0 w' os' s0' s').
Proof.
  intros Hb Hr. destruct o as [fuel tx|account fee|stats]; cbn [do_op op_ready] in *.
  - apply returning_bind. unfold ExecuteTransaction. apply returning_bind. exists s, s. split; [done|]. destruct Hr as ([res ex] & e' & E & Hok).
    assert (on_evm (on_ts scripted) (evm s) e') as Hs.
    { eapply (post_done True _ (evm s) (fun _ => on_evm (on_ts scripted) (evm s))); [|exact E]. apply main_within; [apply _|].
      intros addr p f Hp. apply (Htable addr p). by rewrite <- (ib_block _ _ _ _ _ Hb). }
    apply returning_bind. eexists (res, ex), _. split; [unfold zoom; cbn [lget evm_lens]; rewrite E; reflexivity|].
    apply returning_bind. eapply returning_mono; [apply (checkpoint_returns e0 w os s0); [apply (in_block_world e0 w os s0 s); [done|by apply scr_journalled|done..]|exact Hok]|].
    intros [] s' (os' & s1 & _ & Hb' & _). apply returning_ret, returning_ret. eauto.
  - unfold AddTxFeeToBalance, in_state. eapply returning_mono; [eapply (contract_step w os s0 s _ (fun _ _ => True)); [done|apply on_state_within, scripted_op; constructor|]|].
    + destruct Hr as ([] & t & E & _). eexists tt, _. split; [|done]. unfold on_state, zoom. cbn [lget World_state]. unfold GetEvmState in E. rewrite E. reflexivity.
    + intros [] s' [_ Hb']. eauto.
  - apply returning_bind. unfold DistributeRewards. destruct (RewardsEnabled cfg); [|apply returning_ret, returning_ret; eauto]. specialize (Hr eq_refl).
    apply returning_bind. eapply returning_mono; [eapply contract_step; [done|apply cl_rewards|exact Hr]|]. intros total s1 [Hok Hb1].
    apply returning_bind. eapply returning_mono; [by eapply checkpoint_returns|]. intros [] s' (os' & s2 & _ & Hb' & _). apply returning_ret, returning_ret. eauto.
Qed.

Lemma end_returns w os s0 s : in_block e0 w os s0 s -> end_ready s ->
  returning (EndBlock (Some c)) s (fun _ s' => exists w' os', in_block e0 w' os' (GetEvmState s') s').
Proof.
  intros Hb Hr. unfold EndBlock. apply returning_bind. exists s, s. split; [done|]. cbv zeta. apply returning_bind. eexists tt, _. split; [reflexivity|].
  set (s1 := set_last_block (Number (blk (evm_block s))) s). unfold end_ready in Hr. destruct Hr as ([] & w2 & ([] & w1 & E1 & E2)%bind_done_inv & Hok).
  assert (in_block e0 w os s0 s1) as Hb1 by (by destruct Hb; split).
  apply returning_bind, returning_bind.
  eapply returning_mono; [eapply (contract_step w os s0 s1 _ (fun _ x => x = w1)); [done|apply cl_end|by exists tt, w1]|]. intros [] s2 [Ew1 Hb2].
  apply returning_bind. eapply returning_mono; [eapply (contract_step w os s0 s2 _ (fun _ x => x = w2)); [done|apply cl_cleanup|rewrite Ew1; by exists tt, w2]|].
  intros [] s3 [Ew2 Hb3]. eapply returning_mono; [eapply checkpoint_returns; [exact Hb3|unfold GetEvmState; by rewrite Ew2]|].
  intros [] s4 (os' & s5 & _ & Hb4 & <-). eexists tt, _. split; [reflexivity|]. eexists _, os'. destruct Hb4. split; eassumption.
Qed.

Lemma ops_return ops : forall w os s0 s, in_block e0 w os s0 s -> smooth ops s ->
  returning (_ ← do_ops ops; EndBlock (Some c)) s (fun _ s' => exists w' os', in_block e0 w' os' (GetEvmState s') s').
Proof.
  induction ops as [|o ops IH]; intros w os s0 s Hb Hs; inversion Hs as [? He|? ? ? Hr Hn]; subst; cbn [do_ops].
  - apply returning_bind, returning_ret. by eapply end_returns.
  - destruct (op_returns w os s0 s o Hb Hr) as ([] & s1 & E & w1 & os1 & s01 & Hb1).
    destruct (IH _ _ _ _ Hb1 (Hn _ E)) as ([] & s' & E' & HQ). exists tt, s'. split; [|done]. rewrite bind_assoc. by rewrite (bind_done _ _ _ _ _ E).
Qed.

(** ** The root *)
Lemma prepare_returns w os s : in_block e0 w os (GetEvmState s) s ->
  returning PrepareCommit s (fun root' s' => pending_state_root s' = root' /\ exists m, root' = default EmptyRLPListHash (accounts_root m) /\
    (forall addr, stored_as r i (w addr) addr (body (load (GetEvmState s) addr)) (m !! account_key addr)) /\
    forall key, (forall addr, key <> account_key addr) -> m !! key = m0 !! key).
Proof.
  intros [Ec Hst _ Hk Hio _]. destruct (block_accounts Hclash r stored_slots i m0 Hdb w os _ Hst) as (os' & s' & E & Hleg & Hdone & Hacc & Hrest).
  destruct (Commit_grows _ _ _ _ E) as [new ->].
  destruct (sink_root r stored_slots m0 root levels _ Hlevels Hm0 Hroot Hleg Hdone) as (k0 & k2 & E0 & Et).
  set (root' := default EmptyRLPListHash _) in Et.
  unfold PrepareCommit. apply returning_bind. exists s, s. split; [done|]. rewrite Ec. apply returning_bind.
  eexists (os ++ new), _. split; [unfold in_state, in_world, on_state, zoom; cbn [lget evm_lens EVM_state_lens World_state]; unfold GetEvmState in E; rewrite E; reflexivity|].
  apply returning_bind. eapply returning_mono; [by apply (pass_on_returns _ os new)|]. intros [] s1 ([E1 E2 E3] & Ec1 & Hk1).
  apply returning_bind. eexists tt, _. split; [reflexivity|]. apply returning_bind.
  destruct Hk1 as (k0' & k1 & q & E0' & E4 & Ek). rewrite E0 in E0'. injection E0' as <-.
  apply bind_done_inv in E4 as ([] & k01 & E4 & E5). rewrite (bind_done _ _ _ _ _ E4), (bind_done _ _ _ _ _ E5) in Et.
  destruct (puts_free_Commit _ q _ _ Et) as [q' E6]. rewrite <- Ek in E6.
  eexists root', _. split; [unfold zoom; cbn [lget sink_lens]; unfold in_state, in_world, on_state, zoom; cbn [trie_sink lset evm_lens set_evm_]; rewrite E6; reflexivity|].
  apply returning_bind. eapply returning_mono; [apply write_puts_returns; cbn; by rewrite E3|]. intros [] s2 _.
  eexists root', _. split; [reflexivity|]. split; [done|]. eexists. split; [reflexivity|]. done.
Qed.
End block.

(** ** Opening a database *)
Section opening.
Context `{Crypto} {laws : CryptoLaws} {EW : EvmWords} {CV : Curves} {CF : Type} {rocks : RocksDB CF} {CS : Type} `{Inhabited CS}.
Context (cfg : ChainConfig) (get_hash : Z -> Z) (ChainId : Z) (c : SystemContracts CS) {Hc : ContractLaws c}.
Context (AspenDposImplBytecode CornusDposImplBytecode : bytes) (OpPrecompiles : list (Address * bytes)).
Abbreviation W := (World CS).
Abbreviation ST := (StateTransition (CF := CF) (CS := CS)).
Abbreviation X := (M ST).
Abbreviation begin := (BeginBlock cfg (Some c) AspenDposImplBytecode CornusDposImplBytecode OpPrecompiles).

(** The changes of the hardforks are journalled operations too, but for the
    code that the Cornus hardfork puts over that of Aspen. *)
Record quiet (s s' : ST) : Prop := mkQuietStep {
  qs_extends : extends (GetEvmState s) (GetEvmState s');
  qs_calls : calls s' = calls s;
  qs_sink : trie_sink s' = trie_sink s;
  qs_io : sink_io s' = sink_io s;
}.

#[export] Instance quiet_preorder : PreOrder quiet.
Proof. split; [intros s; split; done|]. intros s s' s'' [] []. split; [by etrans|congruence..]. Qed.

Lemma quiet_in_state {A} (m : M TransitionState A) : within True extends m -> within True quiet (in_state m).
Proof.
  intros Hm s. specialize (Hm (GetEvmState s)). unfold post, in_state, in_world, on_state, zoom in *. cbn [lget evm_lens EVM_state_lens World_state]. unfold GetEvmState in Hm.
  by destruct (m _).
Qed.

Lemma quiet_Register addr p : within True quiet (RegisterPrecompiledContract addr p).
Proof. intros s. unfold post, RegisterPrecompiledContract, get_st, bindM. destruct (Precompiles_Put _ _ _); [by split|done]. Qed.

Lemma extends_first_code addr code : within True extends (size ← ts_GetCodeSize addr; when (size =? 0) (ts_SetCode addr code)).
Proof.
  intros s. apply post_run; [|done]. intros [] s2 (size & s1 & E1 & E2)%bind_done_inv.
  transitivity s1; [intros s0 Hj; by apply (j_op 0 s0 _ (GetCodeSize addr) s size s1 Hj (vo_GetCodeSize addr))|].
  destruct (Z.eqb_spec size 0) as [->|_]; [|by injection E2 as <-].
  intros s0 Hj. eapply j_SetCode; [exact Hj| |exact E2].
  apply GetCodeSize_result in E1 as [E1 _]. unfold codeless, code_at in *. destruct (body (load s1 addr)); [by symmetry|done].
Qed.

(** Two operations on the state, one after the other. *)
Lemma in_state_bind {A B} (m : M TransitionState A) (f : A -> M TransitionState B) (s : ST) :
  (x ← in_state m; in_state (f x)) s = in_state (x ← m; f x) s.
Proof.
  unfold bindM, in_state, in_world, on_state, zoom. cbn [lget lset evm_lens EVM_state_lens World_state]. by destruct (m _) as [a t|e t|g].
Qed.

Lemma quiet_hf_changes (s : ST) p : pending_blk_state s = Some p -> IsCornusHardfork (Hardforks cfg) (blk_n p) = false ->
  post True (applyHFChanges cfg (Some c) AspenDposImplBytecode CornusDposImplBytecode OpPrecompiles) s (fun _ s' => quiet s s').
Proof.
  intros Hp Hco. assert (BlockNumber s = Done (blk_n p) s) as E by (unfold BlockNumber, get_st, bindM; by rewrite Hp).
  unfold applyHFChanges, post. rewrite (bind_done _ _ _ _ _ E). cbv zeta. rewrite Hco. cbn [when].
  assert (within True quiet (if IsOnAspenHardforkPartOne (Hardforks cfg) (blk_n p)
    then size ← in_state (GetCodeSize dpos_contract_address); when (size =? 0) (in_state (SetCode dpos_contract_address AspenDposImplBytecode))
    else ret tt : X ())) as Haspen.
  { destruct (IsOnAspenHardforkPartOne _ _); [|apply within_ret; apply _]. intros s1.
    pose proof (quiet_in_state _ (extends_first_code dpos_contract_address AspenDposImplBytecode) s1) as Hq. unfold post in *. rewrite <- in_state_bind in Hq.
    unfold bindM in *. destruct (in_state _ s1) as [size s2|e s2|g]; [|done|done]. destruct (size =? 0); [exact Hq|]. destruct Hq. by split. }
  pose proof quiet_Register as Hreg. match goal with |- match ?m s with _ => _ end => assert (within True quiet m) as Hw; [|apply (Hw s)] end.
  repeat first [apply Hreg | apply Haspen | apply within_bind; [apply _| |intros _] | apply within_ret; apply _ | destruct (IsOnMagnoliaHardfork _ _); cbn [when]].
Qed.

(** *** The first block *)
Context (latest : LatestState (CF := CF)) (capacity : nat) (k0 : TrieSink).
Abbreviation st0 := (start (Some c) latest capacity k0).
Definition first_pending : PendingBlockState := mkPending (BlockNum (state_desc latest)) (u64 (pending_blk_n latest + 1)).
Definition begun_latest : LatestState (CF := CF) := mkLatestState (ls_db latest) (batch latest) (state_desc latest) (blk_n first_pending).
Definition block_reader : Reader := pending_Get first_pending begun_latest.

Lemma SetBlock_start (b : BlockInfo) (rules : EvmBase.Rules) (s : ST) : rules_initialized (evm_block s) = false ->
  SetBlock b rules s = Done true (set_evm_block (mkBlockContext b true rules (base_table rules)) s).
Proof. intros E. unfold SetBlock, get_st, bindM. by rewrite E. Qed.

Lemma begin_block_first : returning begin_block st0 (fun _ s => pending_blk_state s = Some first_pending /\ rules_initialized (evm_block s) = false /\
  GetEvmState s = new_state (ExtendedReader block_reader) /\ calls s = [] /\ trie_sink s = set_puts [] (set_io block_reader k0) /\ is_Some (sink_io s)).
Proof. unfold begin_block. eexists _, _. split; [reflexivity|]. done. Qed.

(** [BeginBlock] on the state that [Init] sets up. *)
Lemma first_block b : blk_n first_pending <> ChainConfig.BlockNumberNIL -> IsCornusHardfork (Hardforks cfg) (blk_n first_pending) = false ->
  returning (begin b) st0 (fun _ s => begun cfg (Some c) st0 b s /\ extends (new_state (ExtendedReader block_reader)) (GetEvmState s) /\
    calls s = [] /\ trie_sink s = set_puts [] (set_io block_reader k0) /\ is_Some (sink_io s)).
Proof.
  intros Hn Hco. destruct (BeginBlock_returns cfg (Some c) AspenDposImplBytecode CornusDposImplBytecode OpPrecompiles st0 b) as ([] & s & E & Hb); [done|done|].
  exists tt, s. split; [done|]. split; [done|]. unfold BeginBlock in E.
  apply bind_done_inv in E as ([] & s1 & E1 & E). apply (returning_done _ _ _ _ _ begin_block_first) in E1 as (P1 & R1 & <- & C1 & K1 & I1).
  apply bind_done_inv in E as (n & s1' & En & E).
  assert (n = blk_n first_pending /\ s1' = s1) as [-> ->]. { unfold BlockNumber, get_st, bindM in En. rewrite P1 in En. by injection En as <- <-. }
  cbv zeta in E. apply bind_done_inv in E as (changed & s2 & E2 & E).
  rewrite SetBlock_start in E2 by done. injection E2 as <- <-. cbn [when] in E.
  match type of E with _ ?s2 = _ => pose proof (post_done True _ _ _ _ _ (quiet_hf_changes s2 first_pending P1 Hco) E) as [Hx Hcl Hsk Hio] end.
  rewrite Hcl, Hsk, Hio. split_and!; [exact Hx|exact C1|exact K1|exact I1].
Qed.

Lemma first_in_block levels (b : BlockContext (CS := CS)) (s : ST) : TrieSink_Init (StateRoot (state_desc latest)) levels = Some k0 ->
  extends (new_state (ExtendedReader block_reader)) (GetEvmState s) -> calls s = [] -> trie_sink s = set_puts [] (set_io block_reader k0) -> is_Some (sink_io s) ->
  evm_block s = b -> in_block block_reader (StateRoot (state_desc latest)) levels b (fun _ => ∅) [] (new_state (ExtendedReader block_reader)) s.
Proof.
  intros Ek Hx Hcl Hsk Hio Eb. split; try done.
  - constructor.
  - apply Hx. constructor.
  - exists k0, (set_puts [] (set_io block_reader k0)), []. split; [done|]. split; [done|]. by rewrite Hsk.
Qed.
End opening.

(** C28: a node that is started on a database runs a block to a state root
    that commits to what the EVM sees, provided that what the block runs
    returns.  Assumed are: contracts of the chain that change the state by
    journalled operations and by raw writes under their own addresses
    ([ContractLaws]); no collision of the hashes of addresses and slots
    ([no_clash]); a database that holds the state of its root ([db_ok],
    [holds_accounts]), which is not the empty one; a block that is not the
    one of the Cornus hardfork, where [applyHFChanges] replaces code; and, for
    the second half, that every transaction, distribution of rewards and the
    contracts' part of the end of the block return and leave a state that can
    be committed ([smooth], [tx_ok]: among others no account made anew over
    slots of the database, see [EvmFindings.stale_storage]).  Then [Init] and
    [BeginBlock] return; the checkpoints, the rest of [EndBlock] and
    [PrepareCommit] return with no assertion of the sink failing; and the root
    is that of the trie of exactly the accounts that the EVM sees at the end
    of the block, over those of the database. *)
Theorem block_commits_to_state `{Crypto} {laws : CryptoLaws} {EW : EvmWords} {CV : Curves} {CF : Type} {rocks : RocksDB CF} {CS : Type} `{Inhabited CS}
  cfg get_hash ChainId (c : SystemContracts CS) Aspen Cornus OpPrecompiles (latest : LatestState (CF := CF)) capacity levels stored_slots m0 b ops :
  let root := StateRoot (state_desc latest) in
  let r := block_reader latest in
  let i := ExtendedReader r in
  let n := blk_n (first_pending latest) in
  ContractLaws c -> no_clash -> IsEmptyStateRoot (Some root) = false ->
  db_ok r stored_slots i m0 -> (forall key a, m0 !! key = Some a -> account_ok a) -> levels <= MaxDepth -> holds_accounts r (Some root) m0 ->
  n <> ChainConfig.BlockNumberNIL -> IsCornusHardfork (Hardforks cfg) n = false ->
  exists s0 s1, Init cfg (Some c) Aspen Cornus OpPrecompiles latest capacity levels = Done tt s0 /\
    BeginBlock cfg (Some c) Aspen Cornus OpPrecompiles b s0 = Done tt s1 /\
    (smooth cfg get_hash ChainId c r ops s1 ->
     exists s2 s3 w m, (_ ← do_ops cfg get_hash ChainId c ops; EndBlock (Some c)) s1 = Done tt s2 /\
       PrepareCommit s2 = Done (default EmptyRLPListHash (accounts_root m)) s3 /\
       block_state i w (calls s2) (GetEvmState s2) /\
       (forall addr, stored_as r i (w addr) addr (body (load (GetEvmState s2) addr)) (m !! account_key addr)) /\
       forall key, (forall addr, key <> account_key addr) -> m !! key = m0 !! key).
Proof.
  intros root r i n Hc Hclash He Hdb Hm0 Hl Hh Hn Hco.
  assert (holds_accounts r (if IsEmptyStateRoot (Some root) then None else Some root) m0) as Hroot by by rewrite He.
  destruct (trace_runs r stored_slots m0 root levels Hl Hroot [] I) as (k0 & _ & Ek & _).
  destruct (first_block cfg c Aspen Cornus OpPrecompiles latest capacity k0 b Hn Hco) as ([] & s1 & E1 & (_ & t & Eb & Ht) & Hx & Hcl & Hsk & Hio).
  exists (start (Some c) latest capacity k0), s1. split; [unfold Init; fold root; by rewrite Ek, He|]. split; [exact E1|]. intros Hs.
  pose proof (first_in_block latest k0 levels (evm_block s1) s1 Ek Hx Hcl Hsk Hio eq_refl) as Hb.
  assert (forall addr p, Precompiles_Get (precompiles (evm_block s1)) addr = Some p -> scripted_contract p) as Htable.
  { intros addr p. rewrite Eb. cbn [precompiles]. rewrite Ht. by apply contract_scripted. }
  destruct (ops_return cfg get_hash ChainId c Hclash r stored_slots m0 root levels Hdb Hl Hroot (evm_block s1) Htable ops _ _ _ _ Hb Hs)
    as ([] & s2 & E2 & w & os & Hb2).
  destruct (prepare_returns Hclash r stored_slots m0 root levels Hdb Hm0 Hl Hroot (evm_block s1) w os s2 Hb2) as (root' & s3 & E3 & _ & m & -> & Hst & Hrest).
  exists s2, s3, w, m. split; [exact E2|]. split; [exact E3|]. split; [|by split]. rewrite (ib_calls _ _ _ _ _ _ _ _ Hb2). apply (ib_state _ _ _ _ _ _ _ _ Hb2).
Qed.
