(* ===== verification/StateDryRunner.v ===== *)
(** * Dry runs and traces: [state_dry_runner]

    A dry run and a trace execute transactions on a state of their own, read
    at a block of the database and never committed.  Its accounts are those
    of [BlockState] ([state_evm/block_state.go]), which are loaded like those
    of the transition but are on no list of accounts to be committed; such a
    list has no other reader, so the state of the transition stands for them.
    The tracers observe the EVM and are not modelled; the text of a revert is
    unpacked by [accounts/abi], a parameter.  At the end two runs that go
    wrong are evaluated on a database with an account that pays and a
    contract. *)
From S2P Require Import DposExample.
From S2P Require Import Prelude Bytes Rlp Crypto ChainConfig Dpos.
From S2P Require Import Uint256 EvmWord EvmBase EvmMemory EvmGas EvmInstr EvmTable EvmRun EvmContracts StateEvm EvmExample StateDb StateDbProps StateTransition.
Local Open Scope Z_scope.

Section runner.
Context `{Crypto} {EW : EvmWords} {CV : Curves} {CS : Type}.
Context (cfg : ChainConfig) (get_hash : Z -> Z) (ChainId : Z) (read_block : Z -> option Reader).
Context (UnpackRevert : bytes -> option bytes).
Abbreviation W := (World CS).
Abbreviation Table := (list (option (PrecompiledContract (St := W)))).

(** The contracts that [InitAndRegisterAllContracts] makes, and their memory. *)
Context (contracts : option (SystemContracts CS)) (memory : CS).

(** [None] where the block is in the future, which panics. *)
Definition GetBlockState (blk_n : Z) : option TransitionState :=
  (fun r => mkTransitionState (ExtendedReader r) ∅ [] [] [] [] 0 ∅) <$> read_block blk_n.

Definition InitAndRegisterAllContracts (c : SystemContracts CS) (blk_n : Z) (t : Table) : option Table :=
  match Precompiles_Put dpos_contract_address (dpos_contract c) t with
  | None => None
  | Some t =>
      if IsOnMagnoliaHardfork (Hardforks cfg) blk_n then Precompiles_Put Slashing.slashing_contract_address (slashing_contract c) t else Some t
  end.

(** The table of a new EVM after [SetBlock] and the registrations. *)
Definition runner_table (blk_n : Z) : option Table :=
  let t := if EvmBase.IsFicus (Rules_at cfg blk_n) then PrecompiledContractsFicus else PrecompiledContractsCalifornicum in
  match contracts with Some c => InitAndRegisterAllContracts c blk_n t | None => Some t end.

Definition runner_env (b : BlockInfo) (tx : Transaction) : TxEnv := mkTxEnv get_hash b ChainId (Rules_at cfg (Number b)) GasTableCalifornicum tx.

(** What runs on a new EVM over the state of block [blk_n], for block [b]. *)
Definition on_new_evm {A} (capacity : nat) (blk_n : Z) (b : BlockInfo) (run : Table -> M (EVM W) A) : outcome (EVM W) A :=
  match GetBlockState blk_n with
  | None => Panic "ErrFutureBlock"
  | Some s =>
      match runner_table (Number b) with
      | None => Panic "assertion error"
      | Some t => run t (mkEVM (s, memory) (MemoryPool_Init capacity) None 0 false [] 0)
      end
  end.

Definition set_tx_Nonce (nonce : Z) (tx : Transaction) : Transaction :=
  mkTransaction (tx_From tx) (tx_GasPrice tx) (tx_To tx) nonce (tx_Value tx) (tx_Gas tx) (tx_Input tx).

(** [DryRunner.Apply]: the result, and the reason that is appended to its
    error; [fuel] bounds the steps of the interpreter. *)
Definition Apply (fuel capacity : nat) (blk : BlockInfo) (trx : Transaction) : outcome (EVM W) (ExecutionResult * option bytes) :=
  on_new_evm capacity (Number blk) blk (fun t =>
    _ ← zoom (GetAccount (tx_From trx));
    nonce ← zoom (GetNonce (tx_From trx));
    '(r, err) ← Main (runner_env blk (set_tx_Nonce (nonce + 1) trx)) t fuel;
    ret (r, if bool_decide (err = Some ErrExecutionReverted) then UnpackRevert (CodeRetval r) else None)).

(** What the struct tracer reports of a transaction, without the steps. *)
Record TraceResult := mkTraceResult { tr_Gas : Z; tr_Failed : bool; tr_ReturnValue : bytes }.

Definition trace_result (r : ExecutionResult) : TraceResult :=
  mkTraceResult (GasUsed r) (match ExecutionErr r, ConsensusErr r with None, None => false | _, _ => true end) (CodeRetval r).

Fixpoint trace_all (fuel : nat) (blk : BlockInfo) (t : Table) (trxs : list Transaction) : M (EVM W) (list TraceResult) :=
  match trxs with
  | [] => ret []
  | trx :: trxs => '(r, _) ← Main (runner_env blk trx) t fuel; rs ← trace_all fuel blk t trxs; ret (trace_result r :: rs)
  end.

(** [TraceRunner.Trace] of a block: the transactions before those to trace run
    first, on the state of the block before. *)
Definition Trace (fuel capacity : nat) (blk : BlockInfo) (state_trxs trxs : list Transaction) : outcome (EVM W) (list TraceResult) :=
  on_new_evm capacity (if 0 <? Number blk then Number blk - 1 else Number blk) blk (fun t =>
    _ ← trace_all fuel blk t state_trxs; trace_all fuel blk t trxs).
End runner.

(** ** A concrete runner *)
#[local] Existing Instance RefWords.ops.
#[local] Existing Instance toy_crypto.
#[local] Existing Instance toy_curves.

(** A block reader over a list of accounts and a list of codes. *)
Definition reader_of (accs : list (Address * DbAccount)) (codes : list bytes) : Reader := fun col key =>
  match col with
  | COL_main_trie_value => acc_storage ∘ snd ∘ snd <$> list_find (fun e => keccak256 (addr_bytes (fst e)) = key) accs
  | COL_code => snd <$> list_find (fun c => keccak256 c = key) codes
  | _ => None
  end.

(** [PUSH1 1 PUSH1 0 SSTORE PUSH1 0 PUSH1 0 SSTORE STOP]: sets a slot and clears it. *)
Definition clearing_code : bytes := code_bytes [0x60; 1; 0x60; 0; 0x55; 0x60; 0; 0x60; 0; 0x55; 0].
Definition dry_reader : Reader :=
  reader_of [(payer, mkDbAccount 5 1000000000 None None 0); (storing, contract_account clearing_code)] [clearing_code].
Definition dry_block : BlockInfo := mkBlockInfo 10 payer 100000000 0 0.
Abbreviation no_contracts := (None : option (SystemContracts ())).

Definition gives_result {A} (o : outcome (EVM (World ())) A) (f : A -> bool) : bool := match o with Done a _ => f a | _ => false end.

(** ** Refunds *)
(** Nothing resets the refund between the transactions of a trace, as
    [CommitTransaction] does between those of a block: of two transactions,
    the second, a transfer, is refunded half its gas for a slot that the first
    has cleared.  On its own it uses 21000. *)
Abbreviation trace := (Trace ex_cfg (fun n => n) 841 (fun _ => Some dry_reader) no_contracts () fuel 4096 dry_block).
Definition clear_slot : Transaction := ex_trx (Some storing) 5 0 100000 [].
Definition transfer nonce : Transaction := ex_trx (Some reverting) nonce 3 21000 [].

Example trace_refunds_again :
  gives_result (trace [clear_slot] [transfer 6]) (fun rs => match rs with [r] => tr_Gas r =? 10500 | _ => false end) = true /\
  gives_result (trace [] [transfer 5]) (fun rs => match rs with [r] => tr_Gas r =? 21000 | _ => false end) = true.
Proof. split; by vm_compute. Qed.

(** ** The nonce of a dry run *)
(** "We don't need to specify nonce for eth_call.  So set correct one": a
    transaction of the sender is to have the nonce of the account, here 5, and
    the dry run takes the one after it, and so another address for the
    contract it creates. *)
Abbreviation dry_run := (Apply ex_cfg (fun n => n) 841 (fun _ => Some dry_reader) (fun _ => None) no_contracts () fuel 4096 dry_block).
Definition creation : Transaction := ex_trx None 5 0 100000 [].

Definition executed : option Address :=
  match Main (ex_env creation) EvmExample.precompiles fuel (evm_of_db (ExtendedReader dry_reader)) with Done (r, None) _ => Some (NewContractAddr r) | _ => None end.

Example dry_run_nonce :
  gives_result (dry_run creation) (fun r => bool_decide (Some (NewContractAddr (fst r)) = CreateAddress payer 6)) = true /\
  executed = CreateAddress payer 5 /\ CreateAddress payer 6 <> CreateAddress payer 5.
Proof. split_and!; [by vm_compute|vm_compute; reflexivity|vm_compute; discriminate]. Qed.
