(* ===== verification/StateExample.v ===== *)
(** * A block on a database with one account

    A concrete node: the map store, the toy hash, trivial curves, and
    contracts of the chain that write a slot of their own.  The properties of
    the state transition hold of it. *)
From S2P Require Import DposExample.
From S2P Require Import Prelude Bytes Rlp Crypto ChainConfig Dpos DposRewards Slashing.
From S2P Require Import Uint256 EvmWord EvmBase EvmMemory EvmGas EvmInstr EvmTable EvmRun EvmContracts Trie TrieSpec TrieEnc TrieSim TrieCommit TrieProps StateDb StateDbProps RocksDb RocksDbProps RocksDbPrune TrieSink TrieSinkProps TrieExample.
From S2P Require Import EvmFrame EvmKeeps StateEvm StateRevert StateKeeps EvmExample StateTrack BlockCommit BlockExample StateTransition StateTransitionProps StateBlock.
Local Open Scope Z_scope.
#[local] Existing Instance RefWords.ops.
#[local] Existing Instance toy_crypto.
#[local] Existing Instance toy_crypto_laws.
#[local] Existing Instance toy_curves.
#[local] Existing Instance map_store.

(** ** The database *)
Definition rich : DbAccount := mkDbAccount 1 10 None None 0.
Definition rich_key : bytes := BlockCommit.account_key alice.
Definition db_accounts : gmap bytes DbAccount := {[rich_key := rich]}.
Definition db_tree : tree := TShort (keybytes_to_hex rich_key) (TVal (acc_storage rich) (acc_hash rich)).
Definition db_root : bytes := node_hash db_tree.

Definition one_account : LatestState (CF := gmap bytes bytes) :=
  mkLatestState (mkDB (fun c => match c with
    | col_main_trie_value_latest => {[rich_key := acc_storage rich]}
    | state_col COL_main_trie_node => {[db_root := TrieEnc.body MainTrieSchema db_tree]}
    | _ => ∅ end) false) [] (mkStateDescriptor 0 db_root) 0.

Definition one_reader : Reader := block_reader one_account.
Definition one_input : StateInput := ExtendedReader one_reader.

Lemma tree_of_accounts : tree_of (acc_pair <$> db_accounts) = db_tree.
Proof. vm_compute. reflexivity. Qed.

Lemma rich_key_length : length rich_key = 32%nat.
Proof. vm_compute. reflexivity. Qed.

Lemma rich_ok : account_ok rich.
Proof. split; by vm_compute. Qed.

Lemma accounts_ok key a : db_accounts !! key = Some a -> account_ok a.
Proof. unfold db_accounts. rewrite lookup_singleton_Some. intros [_ <-]. apply rich_ok. Qed.

Lemma db_tree_values key s h : t_lookup key db_tree = Some (s, h) -> key = keybytes_to_hex rich_key /\ s = acc_storage rich /\ h = acc_hash rich.
Proof.
  unfold db_tree. rewrite t_lookup_short. destruct (strip _ key) as [rest|] eqn:E; [|done].
  destruct rest; [|done]. intros [= <- <-]. apply strip_app in E as ->. by rewrite app_nil_r.
Qed.

Lemma db_tree_in : in_db MainTrieSchema (fun db => db = MainTrieInput one_reader) [] db_tree.
Proof.
  intros db ->. split.
  - intros key s h (-> & -> & _)%db_tree_values. exists rich_key. split; vm_compute; reflexivity.
  - intros u [[_ ->]|[Hu _]]; [vm_compute; reflexivity|]. inversion Hu as [|? ? ? Hu'|]; subst. inversion Hu'.
Qed.

Lemma accounts_keys : keys_ok (acc_pair <$> db_accounts).
Proof.
  intros k. rewrite lookup_fmap. unfold db_accounts. destruct (decide (rich_key = k)) as [<-|Hne]; [by intros _; apply rich_key_length|].
  rewrite lookup_singleton_ne by done. by intros [? ?].
Qed.

Lemma db_tree_vals : vals_ok MainTrieSchema db_tree.
Proof. intros key s h (_ & -> & ->)%db_tree_values. split_and!; [by vm_compute|vm_compute; reflexivity|by vm_compute]. Qed.

Lemma root_given : IsEmptyStateRoot (Some db_root) = false.
Proof. vm_compute. reflexivity. Qed.

Lemma accounts_held : holds_accounts one_reader (Some db_root) db_accounts.
Proof.
  split; [apply accounts_keys|]. pose proof (proj1 (tree_of_spec _ accounts_keys)) as Hwf. rewrite tree_of_accounts in Hwf |- *. intros l Hl.
  exists (mkWriter (NHash db_root) l). split; [unfold Writer_Init; by rewrite (proj2 (Z.leb_le _ _) Hl)|]. split_and!; [done|apply db_tree_vals|].
  constructor; [|done|by left]. split; [done|]. split; [by right|]. intros db [->| ->]; by apply db_tree_in.
Qed.

(** ** What the EVM reads of it *)
Lemma one_value key : one_reader COL_main_trie_value key = if decide (rich_key = key) then Some (acc_storage rich) else None.
Proof.
  unfold one_reader, block_reader, pending_Get. cbn -[rich_key acc_storage]. unfold plain_Get, cf_Get, map_store. cbn [cf_handles ls_db one_account begun_latest].
  destruct (decide (rich_key = key)) as [<-|Hne]; [rewrite lookup_singleton_eq; vm_compute; reflexivity|by rewrite lookup_singleton_ne].
Qed.

Lemma one_account_read addr : in_GetAccount one_input addr = db_accounts !! BlockCommit.account_key addr.
Proof.
  unfold one_input, ExtendedReader, reader_GetAccount, GetRawAccount, MainTrieInput. cbn [in_GetAccount GetValue].
  change (keccak256 (addr_bytes addr)) with (BlockCommit.account_key addr). rewrite one_value. unfold db_accounts.
  destruct (decide _) as [<-|Hne]; [|by rewrite lookup_singleton_ne]. rewrite lookup_singleton_eq. vm_compute. reflexivity.
Qed.

Lemma no_value key : one_reader COL_acc_trie_value key = None.
Proof. reflexivity. Qed.

Lemma no_storage addr key : in_GetAccountStorage one_input addr key = None.
Proof. apply no_value. Qed.

Lemma read_nothing addr key : read_storage one_input addr key = 0.
Proof. unfold read_storage. by rewrite no_storage. Qed.

Lemma one_db : db_ok one_reader no_slots one_input db_accounts.
Proof.
  assert (forall addr d, in_GetAccount one_input addr = Some d -> d = rich) as Hd.
  { intros addr d. rewrite one_account_read. unfold db_accounts. by rewrite lookup_singleton_Some; intros [_ <-]. }
  split.
  - intros addr. by rewrite one_account_read.
  - by intros addr d ->%Hd.
  - by intros addr d root ->%Hd.
  - intros addr key _ _. unfold stored. by rewrite no_storage, read_nothing.
Qed.

(** ** Contracts that write a slot of their own *)
Definition writes_slot (key : bytes) : M (World ()) () := on_state (_ ← IncrementNonce dpos; SetStateRawIrreversibly dpos key [Byte.x07]).

Definition writing (key : bytes) : PrecompiledContract (St := World ()) :=
  mkPrecompiled (fun _ => ret 0) (fun _ => _ ← zoom (writes_slot key); ret (Fresh [], None)).

Definition slot_1 : bytes := replicate 32 Byte.x01.
Definition slot_2 : bytes := replicate 32 Byte.x02.

Definition chain_contracts : SystemContracts () := {|
  NewContracts _ := ();
  dpos_contract := writing slot_1;
  ApplyGenesis := writes_slot slot_1;
  contract_DistributeRewards _ := _ ← on_state (AddBalance dpos 7); ret 7;
  EndBlockCall _ := writes_slot slot_2;
  dpos_CommitCall _ x := x;
  slashing_contract := writing slot_2;
  CleanupJailedValidators _ := ret tt;
  slashing_CommitCall _ x := x;
|}.

Lemma writes_scripted key : within True (on_ts (CS := ()) scripted) (writes_slot key).
Proof.
  apply on_state_within. apply within_bind; [apply _|apply scripted_op; constructor|]. intros _. apply scripted_raw. by left.
Qed.

Lemma writing_scripted key : scripted_contract (writing key).
Proof.
  intros f. split; [apply within_ret; apply _|]. apply within_bind; [apply _| |intros []; apply within_ret; apply _].
  intros e. pose proof (writes_scripted key (evm_state e)) as Hw. unfold post, zoom in *. cbn [lget lset EVM_state_lens]. by destruct (writes_slot key _).
Qed.

Lemma chain_laws : ContractLaws chain_contracts.
Proof.
  split.
  - apply writing_scripted.
  - apply writing_scripted.
  - intros stats. apply within_bind; [apply _|apply on_state_within, scripted_op; constructor|]. intros _. apply within_ret. apply _.
  - intros n. apply writes_scripted.
  - intros n. apply within_ret. apply _.
Qed.

(** ** A block with a fee *)
Definition node_0 : StateTransition (CF := gmap bytes bytes) (CS := ()) :=
  start (Some chain_contracts) one_account 4 (default (mkTrieSink no_reader [] (mkWriter NNil 0) ∅) (TrieSink_Init db_root 16)).

Definition first_info : BlockInfo := mkBlockInfo 99 bob 1000000 5 0.
Abbreviation begin := (BeginBlock ex_cfg (Some chain_contracts) [Byte.x60] [Byte.x61] []).

Lemma init_one : Init ex_cfg (Some chain_contracts) [Byte.x60] [Byte.x61] [] one_account 4 16 = Done tt node_0.
Proof. unfold Init. cbn [StateRoot state_desc one_account]. rewrite root_given. reflexivity. Qed.

Lemma contracts_registered_witness : exists s', begin first_info node_0 = Done tt s' /\ Number (blk (evm_block s')) = 1 /\
  Precompiles_Get (precompiles (evm_block s')) dpos_contract_address = Some (writing slot_1).
Proof.
  destruct (contracts_registered ex_cfg (fun n => n) 841 (Some chain_contracts) [Byte.x60] [Byte.x61] [] node_0 first_info) as (s' & E & _ & En & _ & Hg).
  - apply (re_init _ _ _ _ _ _ _ one_account 4 16). exact init_one.
  - vm_compute. discriminate.
  - exists s'. split; [exact E|]. split; [exact En|]. apply Hg.
Defined.

(** What a computation of the transition leaves. *)
Definition after {S A} (m : M S A) (s : S) : S := match m s with Done _ s' => s' | _ => s end.
Definition result {S A} (m : M S A) (s : S) : option A := match m s with Done a _ => Some a | _ => None end.

Lemma after_done {S A} (m : M S A) s a s' : m s = Done a s' -> s' = after m s.
Proof. unfold after. by intros ->. Qed.

Lemma returning_after {S A} (m : M S A) s (Q : A -> S -> Prop) a : result m s = Some a -> Q a (after m s) -> returning m s Q.
Proof. unfold result, after. destruct (m s) as [a' s'|e s'|g] eqn:E; [|done|done]. intros [= ->] HQ. by exists a, s'. Qed.

Lemma small_body_one addr b : entry_ok no_input addr b -> entry_ok one_input addr b.
Proof. by intros []. Qed.

Lemma small_state_one s : small_state s = true -> tx_ok one_input s.
Proof. intros [Hb Hl Hr Hw]%small_state_ok. split; [|done..]. intros addr b Hin Eb. apply small_body_one. by apply Hb. Qed.

Lemma block_smooth s1 : begin first_info node_0 = Done tt s1 ->
  smooth ex_cfg (fun n => n) 841 chain_contracts (block_reader one_account) [OpFee alice 5] s1.
Proof.
  intros ->%after_done. constructor.
  - apply (returning_after _ _ _ tt); [vm_compute; reflexivity|done].
  - intros s' E. apply after_done in E as ->. constructor. apply (returning_after _ _ _ tt); [vm_compute; reflexivity|].
    apply small_state_one. vm_compute. reflexivity.
Qed.

Lemma block_commits_to_state_witness : exists s1 s2 s3 w m,
  BeginBlock ex_cfg (Some chain_contracts) [Byte.x60] [Byte.x61] [] first_info node_0 = Done tt s1 /\
  (_ ← do_ops ex_cfg (fun n => n) 841 chain_contracts [OpFee alice 5]; EndBlock (Some chain_contracts)) s1 = Done tt s2 /\
  PrepareCommit s2 = Done (default EmptyRLPListHash (accounts_root m)) s3 /\
  stored_as one_reader one_input (w alice) alice (StateEvm.body (load (GetEvmState s2) alice)) (m !! BlockCommit.account_key alice) /\
  stored_as one_reader one_input (w dpos) dpos (StateEvm.body (load (GetEvmState s2) dpos)) (m !! BlockCommit.account_key dpos).
Proof.
  destruct (block_commits_to_state ex_cfg (fun n => n) 841 chain_contracts [Byte.x60] [Byte.x61] [] one_account 4 16 no_slots db_accounts first_info [OpFee alice 5])
    as (s0 & s1 & E0 & E1 & Hs).
  - exact chain_laws.
  - exact toy_no_clash.
  - exact root_given.
  - exact one_db.
  - exact accounts_ok.
  - vm_compute. discriminate.
  - exact accounts_held.
  - vm_compute. discriminate.
  - vm_compute. reflexivity.
  - rewrite init_one in E0. injection E0 as <-. destruct (Hs (block_smooth s1 E1)) as (s2 & s3 & w & m & E2 & E3 & _ & Hm & _).
    exists s1, s2, s3, w, m. split; [exact E1|]. split; [exact E2|]. split; [exact E3|]. split; apply Hm.
Defined.
