(* ===== verification/DposApi.v ===== *)
(** * Configurations by block: [dpos/precompiled/api.go] and [state/api.go]

    The DPOS API keeps the configuration that is in force from each block on
    and opens the readers of the two contracts with it; the state API saves
    every change in the database and reads them all when a node starts.  The
    encoding of a configuration is that of its struct; the balances of a
    genesis validator, a Go map, are an association list in the order in
    which the map is ranged over.  A decoded configuration is a new value: in
    Go its genesis validators are written over the elements of the array it
    shares with the configuration it was copied from, which makes no
    difference where all configurations have the same genesis validators, as
    [configs_survive_restart] assumes. *)
From stdpp Require Import sorting.
From S2P Require Import Prelude Bytes Crypto ChainConfig Uint256 Storage IterableMap StateDb RocksDb Slashing DposStorage Validators Dpos DposRewards DposRun Rlp RlpDecode.
Local Open Scope Z_scope.

(** ** [DPOSConfig] as a type of the RLP codec *)
Definition str_of (b : bytes) : string := string_of_bytes b.
Definition Balance_typ : typ := TStruct (field_list [TByteArray 20; TBigInt]).
Definition GenesisValidator_typ : typ :=
  TStruct (field_list [TByteArray 20; TByteArray 20; TBytes; TUint 16; TString; TString; TSlice Balance_typ]).
Definition DPOSConfig_typ : typ :=
  TStruct (field_list [TBigInt; TBigInt; TBigInt; TBigInt; TUint 16; TUint 16; TUint 16; TUint 32; TUint 32; TUint 32; TUint 32; TUint 16; TSlice GenesisValidator_typ]).

Definition balance_val (e : Address * Z) : val := VList [VBytes (addr_bytes (fst e)); VBig (Some (snd e))].
Definition validator_val (g : GenesisValidator) : val := VList [
  VBytes (addr_bytes (gv_Address g)); VBytes (addr_bytes (gv_Owner g)); VBytes (gv_VrfKey g); VUint (gv_Commission g);
  VBytes (str_bytes (gv_Endpoint g)); VBytes (str_bytes (gv_Description g)); VList (map balance_val (gv_Delegations g))].
Definition config_val (c : DPOSConfig) : val := VList [
  VBig (Some (EligibilityBalanceThreshold c)); VBig (Some (VoteEligibilityBalanceStep c)); VBig (Some (ValidatorMaximumStake c)); VBig (Some (MinimumDeposit c));
  VUint (MaxBlockAuthorReward c); VUint (DagProposersReward c); VUint (CommissionChangeDelta c); VUint (CommissionChangeFrequency c);
  VUint (DelegationDelay c); VUint (DelegationLockingPeriod c); VUint (BlocksPerYear c); VUint (YieldPercentage c);
  VList (map validator_val (InitialValidators c))].

Definition val_balance (v : val) : option (Address * Z) :=
  match v with VList [VBytes a; VBig (Some z)] => Some (BytesToAddress a, z) | _ => None end.
Definition val_validator (v : val) : option GenesisValidator :=
  match v with
  | VList [VBytes a; VBytes o; VBytes vrf; VUint c; VBytes e; VBytes d; VList ds] =>
      mkGenesisValidator (BytesToAddress a) (BytesToAddress o) vrf c (str_of e) (str_of d) <$> mapM val_balance ds
  | _ => None
  end.
Definition val_config (v : val) : option DPOSConfig :=
  match v with
  | VList [VBig (Some t); VBig (Some s); VBig (Some m); VBig (Some d); VUint a; VUint p; VUint cd; VUint cf; VUint dd; VUint lp; VUint b; VUint y; VList gs] =>
      mkDPOSConfig t s m d a p cd cf dd lp b y <$> mapM val_validator gs
  | _ => None
  end.

Definition encode_config {St} (c : DPOSConfig) : M St bytes := MustEncodeToBytes DPOSConfig_typ (config_val c).
Definition decode_config {St} (b : bytes) : M St DPOSConfig :=
  v ← MustDecodeBytes DPOSConfig_typ b; match val_config v with Some c => ret c | None => bad_shape end.

Definition set_DPOS (c : DPOSConfig) (cfg : ChainConfig) : ChainConfig := mkChainConfig (GenesisBalances cfg) c (Hardforks cfg).

(** ** [dpos.API] *)
Record DposConfigWithBlock := mkConfigWithBlock { DposConfig : DPOSConfig; Blk_n : Z }.
Record API := mkAPI { config_by_block : list DposConfigWithBlock; config : ChainConfig }.

Definition asserts_Holds {St} (b : bool) : M St () := if b then ret tt else panic "assertion error".

Definition num_1e38 : Z := 10 ^ 38.

Section api.
Context `{Uint256}.

(** [Init]; the fields that are pointers are not nil here, and the warning
    about a high yield is not modelled. *)
Definition API_Init {St} (cfg : ChainConfig) : M St API :=
  let dp := DPOS cfg in
  let hf := Hardforks cfg in
  _ ← asserts_Holds (DelegationDelay dp <=? DelegationLockingPeriod dp);
  _ ← asserts_Holds (DelegationDelay dp <=? cornus_DelegationLockingPeriod (CornusHf hf));
  _ ← asserts_Holds (MinimumDeposit dp <=? ValidatorMaximumStake dp);
  _ ← asserts_Holds (0 <? ValidatorMaximumStake dp);
  _ ← asserts_Holds (ValidatorMaximumStake dp <? num_1e38);
  _ ← asserts_Holds (MaxBlockAuthorReward dp <=? 100);
  _ ← asserts_Holds (BlockNumPartOne (AspenHf hf) <=? BlockNumPartTwo (AspenHf hf));
  let total_supply := GenesisBalancesSum cfg + GeneratedRewards (AspenHf hf) in
  _ ← asserts_Holds (total_supply <=? MaxSupply (AspenHf hf));
  let '(_, overflow) := u_FromBig total_supply in
  _ ← asserts_Holds (negb overflow);
  _ ← yield_max_supply cfg;
  ret (mkAPI [] cfg).

(** The loop of [GetConfigByBlockNum]: an entry holds up to the next one. *)
Fixpoint find_config (es : list DposConfigWithBlock) (blk_n : Z) : option DPOSConfig :=
  match es with
  | [] => None
  | e :: es =>
      let next_block_num := match es with [] => 2 ^ 64 - 1 | e' :: _ => Blk_n e' end in
      if (Blk_n e <=? blk_n) && (blk_n <? next_block_num) then Some (DposConfig e) else find_config es blk_n
  end.

Definition GetConfigByBlockNum (api : API) (blk_n : Z) : ChainConfig :=
  match find_config (config_by_block api) blk_n with Some c => set_DPOS c (config api) | None => config api end.

Definition API_UpdateConfig (blk_n : Z) (cfg : ChainConfig) (api : API) : API :=
  mkAPI (config_by_block api ++ [mkConfigWithBlock (DPOS cfg) blk_n]) cfg.

(** ** Readers *)
Context {KV : Type} `{DposKV KV}.

(** [dpos.Reader]. *)
Record DposReader := mkDposReader {
  dr_cfg : ChainConfig;
  dr_block_n : Z;
  dr_storage : KV;
  dr_slashing : bytes -> option bytes;   (* the storage of its slashing reader *)
}.

(** The storage of both contracts at a block. *)
Context (dpos_storage : Z -> KV) (slashing_storage : Z -> bytes -> option bytes).

Definition InitDelayedReader (cfg : ChainConfig) (blk_n : Z) : DposReader :=
  let n := delayed_block cfg blk_n in
  mkDposReader cfg n (dpos_storage n) (r_storage (Reader_Init cfg blk_n None slashing_storage)).
Definition InitReader (cfg : ChainConfig) (blk_n : Z) : DposReader :=
  mkDposReader cfg blk_n (dpos_storage blk_n) (r_storage (Reader_Init cfg blk_n None slashing_storage)).

Definition NewDelayedReader (api : API) (blk_n : Z) : DposReader := InitDelayedReader (GetConfigByBlockNum api blk_n) blk_n.
Definition NewReader (api : API) (blk_n : Z) : DposReader := InitReader (GetConfigByBlockNum api blk_n) blk_n.

(** [IsEligible] of a reader; its storage stays as it is. *)
Definition reader_IsEligible (r : DposReader) (addr : Address) : bool :=
  match IsEligible (dr_cfg r) addr (dr_storage r) with Done b _ => b | _ => false end.

Definition NewSlashingReader (api : API) (blk_n : Z) : Slashing.Reader :=
  let cfg := GetConfigByBlockNum api blk_n in
  let dpos_reader := NewDelayedReader api blk_n in
  Reader_Init cfg blk_n (Some (reader_IsEligible dpos_reader)) slashing_storage.
End api.

(** ** [state.API]: configurations in the database *)
Section state_api.
Context `{Crypto} {CF : Type} {rocks : RocksDB CF} `{Uint256}.

Record StateAPI := mkStateAPI {
  rocksdb : DB (CF := CF);
  sa_dpos : API;
  sa_config : ChainConfig;
  LastBlockNum : Z;   (* of the state transition *)
}.

(** The changes as Go's map, and its keys in order. *)
Definition changes_map (db : DB (CF := CF)) : gmap Z bytes := list_to_map (GetDPOSConfigChanges db).
Definition sorted_keys (m : gmap Z bytes) : list Z := merge_sort Z.le (elements (dom m)).

Fixpoint apply_changes {St} (cfg : ChainConfig) (m : gmap Z bytes) (keys : list Z) (api : API) : M St API :=
  match keys with
  | [] => ret api
  | key :: keys =>
      dp ← decode_config (default [] (m !! key));
      apply_changes cfg m keys (API_UpdateConfig key (set_DPOS dp cfg) api)
  end.

(** The part of [Init] that concerns configurations; [LastBlockNum] is a new
    field of the state transition, zero. *)
Definition StateAPI_Init {St} (db : DB (CF := CF)) (chain_cfg : ChainConfig) : M St StateAPI :=
  dpos ← API_Init chain_cfg;
  let config_changes := changes_map db in
  if bool_decide (config_changes = ∅) then
    b ← encode_config (DPOS chain_cfg);
    ret (mkStateAPI (SaveDPOSConfigChange 0 b db) (API_UpdateConfig 0 chain_cfg dpos) chain_cfg 0)
  else
    dpos ← apply_changes chain_cfg config_changes (sorted_keys config_changes) dpos;
    ret (mkStateAPI db dpos chain_cfg 0).

Definition StateAPI_UpdateConfig (chain_cfg : ChainConfig) : M StateAPI () :=
  self ← get_st;
  let config_update_block_num := u64 (LastBlockNum self + 1) in
  b ← encode_config (DPOS chain_cfg);
  modify_st (fun self => mkStateAPI (SaveDPOSConfigChange config_update_block_num b (rocksdb self))
    (API_UpdateConfig config_update_block_num chain_cfg (sa_dpos self)) chain_cfg (LastBlockNum self)).

(** [EndBlock] of the state transition sets the number of the block. *)
Definition set_LastBlockNum (n : Z) (self : StateAPI) : StateAPI := mkStateAPI (rocksdb self) (sa_dpos self) (sa_config self) n.
End state_api.
