(* ===== verification/DposApiProps.v ===== *)
(** * Configurations survive a restart

    A node that restarts reads from the database the changes that were saved
    and has, for every block, the configuration the running node had.  The
    bytes in between are those of the RLP codec; [configs_survive_restart]
    composes its round trip with the laws of RocksDB. *)
From stdpp Require Import sorting.
From S2P Require Import Prelude Bytes Crypto ChainConfig Uint256 Storage IterableMap StateDb RocksDb RocksDbProps RocksDbPrune Slashing DposStorage Validators Dpos DposRewards DposRun Rlp RlpEncode RlpDecode RlpRoundtrip DposApi.
Local Open Scope Z_scope.

(** ** The encoding of a configuration *)

(** Fields in the range of their Go types, and a map without repeated keys. *)
Record validator_ok (g : GenesisValidator) : Prop := mkValidatorOk {
  vo_commission : 0 <= gv_Commission g < 2 ^ 16;
  vo_balances : Forall (fun e => 0 <= snd e) (gv_Delegations g);
  vo_keys : NoDup (gv_Delegations g).*1;
}.

Record config_ok (c : DPOSConfig) : Prop := mkConfigOk {
  co_ints : 0 <= EligibilityBalanceThreshold c /\ 0 <= VoteEligibilityBalanceStep c /\ 0 <= ValidatorMaximumStake c /\ 0 <= MinimumDeposit c;
  co_16 : 0 <= MaxBlockAuthorReward c < 2 ^ 16 /\ 0 <= DagProposersReward c < 2 ^ 16 /\ 0 <= CommissionChangeDelta c < 2 ^ 16 /\ 0 <= YieldPercentage c < 2 ^ 16;
  co_32 : 0 <= CommissionChangeFrequency c < 2 ^ 32 /\ 0 <= DelegationDelay c < 2 ^ 32 /\ 0 <= DelegationLockingPeriod c < 2 ^ 32 /\ 0 <= BlocksPerYear c < 2 ^ 32;
  co_validators : Forall validator_ok (InitialValidators c);
  co_size : blen (default [] (encoding DPOSConfig_typ no_tags (config_val c))) < 2 ^ 32 - 1;
}.

Definition config_bytes (c : DPOSConfig) : bytes := default [] (encoding DPOSConfig_typ no_tags (config_val c)).

Lemma mapM_map {A B} (f : A -> B) (g : B -> option A) l : (forall x, g (f x) = Some x) -> mapM g (map f l) = Some l.
Proof. intros Hfg. induction l as [|x l IH]; [done|]. cbn. by rewrite Hfg, IH. Qed.

Lemma str_of_bytes s : str_of (str_bytes s) = s.
Proof. apply String.string_of_list_byte_of_string. Qed.

Lemma val_config_val c : val_config (config_val c) = Some c.
Proof.
  unfold val_config, config_val. rewrite (mapM_map validator_val val_validator); [by destruct c|].
  intros g. unfold val_validator, validator_val. rewrite (mapM_map balance_val val_balance).
  - destruct g. cbn -[str_of str_bytes]. by rewrite !BytesToAddress_bytes, !str_of_bytes.
  - intros [a z]. cbn. by rewrite BytesToAddress_bytes.
Qed.

Lemma concat_opt_Some l : Forall is_Some l -> is_Some (concat_opt l).
Proof.
  induction 1 as [|x l [b ->] _ [b' IH]]; [by eexists|]. exists (b ++ b'). apply concat_opt_cons. by exists b, b'.
Qed.

Lemma slice_encoding {A} (t : typ) (f : A -> val) (l : list A) : Forall (fun x => is_Some (encoding t no_tags (f x))) l ->
  is_Some (encoding (TSlice t) no_tags (VList (map f l))).
Proof.
  intros Hl. cbn [encoding no_tags tail]. apply fmap_is_Some, concat_opt_Some, Forall_fmap, Forall_fmap. exact Hl.
Qed.

Lemma struct_encoding fs vs : is_Some (encodings fs vs) -> is_Some (encoding (TStruct fs) no_tags (VList vs)).
Proof. apply fmap_is_Some. Qed.

Lemma field_encoding t fs v vs : is_Some (encoding t no_tags v) -> is_Some (encodings fs vs) -> is_Some (encodings (FCons no_tags t fs) (v :: vs)).
Proof. intros [b Hb] [b' Hb']. exists (b ++ b'). cbn [encodings]. by rewrite Hb, Hb'. Qed.

Lemma uint_encoding bits i : 0 <= i < 2 ^ Z.min bits 64 -> is_Some (encoding (TUint bits) no_tags (VUint i)).
Proof. intros Hi. cbn [encoding]. rewrite (proj2 (Z.leb_le 0 i)), (proj2 (Z.ltb_lt i _)) by lia. by eexists. Qed.

Lemma big_encoding i : 0 <= i -> is_Some (encoding TBigInt no_tags (VBig (Some i))).
Proof. intros Hi. cbn [encoding]. rewrite (proj2 (Z.ltb_ge i 0)) by lia. by eexists. Qed.

Lemma addr_encoding a : is_Some (encoding (TByteArray 20) no_tags (VBytes (addr_bytes a))).
Proof. cbn [encoding]. rewrite addr_length. by eexists. Qed.

Ltac encode_field :=
  lazymatch goal with
  | |- is_Some (encoding (TByteArray _) _ _) => apply addr_encoding
  | |- is_Some (encoding TBigInt _ _) => apply big_encoding; lia
  | |- is_Some (encoding (TUint _) _ _) => apply uint_encoding; rewrite Z.min_l by lia; lia
  | |- is_Some (encoding (TSlice _) _ _) => apply slice_encoding
  | |- _ => by eexists
  end.
Ltac encode_struct := apply struct_encoding; repeat apply field_encoding; encode_field.

Lemma validator_encoding g : validator_ok g -> is_Some (encoding GenesisValidator_typ no_tags (validator_val g)).
Proof.
  intros [Hc Hb _]. unfold GenesisValidator_typ, validator_val. cbn [field_list foldr]. encode_struct.
  eapply Forall_impl; [exact Hb|]. intros [a z] Hz. cbn [snd] in Hz. unfold balance_val, Balance_typ. cbn [field_list foldr fst snd]. encode_struct.
Qed.

Lemma config_encoding c : config_ok c -> encoding DPOSConfig_typ no_tags (config_val c) = Some (config_bytes c).
Proof.
  intros [Hi H16 H32 Hv _]. unfold config_bytes. assert (is_Some (encoding DPOSConfig_typ no_tags (config_val c))) as [b ->]; [|done].
  unfold DPOSConfig_typ, config_val. cbn [field_list foldr]. encode_struct.
  eapply Forall_impl; [exact Hv|]. apply validator_encoding.
Qed.

Lemma addr_decodable a : addr_bytes a <> [Byte.x00].
Proof. intros E. pose proof (addr_length a) as Hl. by rewrite E in Hl. Qed.

Lemma config_decodable c : decodable DPOSConfig_typ no_tags (config_val c).
Proof.
  unfold DPOSConfig_typ, config_val. cbn [field_list foldr decodable all_decodable].
  split_and!; try done; try (by exists 2); try (by exists 4).
  apply Forall_fmap, Forall_forall. intros g _. cbn [compose validator_val decodable all_decodable GenesisValidator_typ field_list foldr].
  split_and!; try done; try apply addr_decodable; [by exists 2|].
  apply Forall_fmap, Forall_forall. intros e _. cbn [compose balance_val decodable all_decodable Balance_typ field_list foldr].
  by split_and!; [apply addr_decodable|..].
Qed.

Lemma config_roundtrip c : config_ok c -> EncodeToBytes DPOSConfig_typ (config_val c) = inr (Some (config_bytes c)) /\
  exists s, DecodeBytes DPOSConfig_typ (config_bytes c) = Done (config_val c) s.
Proof.
  intros Hc. destruct (decode_encode DPOSConfig_typ (config_val c) (config_bytes c)) as (E & s & E' & _);
    [done|by apply config_encoding|apply config_decodable|apply (co_size c Hc)|]. eauto.
Qed.

Lemma encode_config_done {St} c (s : St) : config_ok c -> encode_config c s = Done (config_bytes c) s.
Proof. intros Hc. unfold encode_config, MustEncodeToBytes. by rewrite (proj1 (config_roundtrip c Hc)). Qed.

Lemma decode_config_done {St} c (s : St) : config_ok c -> decode_config (config_bytes c) s = Done c s.
Proof.
  intros Hc. unfold decode_config, MustDecodeBytes. destruct (proj2 (config_roundtrip c Hc)) as [s' E]. rewrite E.
  unfold bindM, ret. by rewrite val_config_val.
Qed.

(** ** The configuration in force *)

(** The last entry that is not after the block. *)
Definition in_force (es : list DposConfigWithBlock) (n : Z) : option DPOSConfig :=
  DposConfig <$> last (filter (fun e => Blk_n e <= n) es).

Definition in_order : list DposConfigWithBlock -> Prop := StronglySorted (fun a b => Blk_n a <= Blk_n b).

(** What is stored for each block: a later entry replaces an earlier one. *)
Definition stored (es : list DposConfigWithBlock) : gmap Z DPOSConfig :=
  foldl (fun m e => <[Blk_n e := DposConfig e]> m) ∅ es.

Lemma stored_snoc es e : stored (es ++ [e]) = <[Blk_n e := DposConfig e]> (stored es).
Proof. unfold stored. by rewrite foldl_app. Qed.

Lemma stored_elem es e : e ∈ es -> is_Some (stored es !! Blk_n e).
Proof.
  induction es as [|e' es IH] using rev_ind; [by intros ?%elem_of_nil|]. rewrite stored_snoc. intros [He| ->%list_elem_of_singleton]%elem_of_app.
  - apply lookup_insert_is_Some'. auto.
  - rewrite lookup_insert_eq. by eexists.
Qed.

Lemma in_order_snoc es e : in_order (es ++ [e]) <-> in_order es /\ Forall (fun e' => Blk_n e' <= Blk_n e) es.
Proof.
  unfold in_order. rewrite StronglySorted_app, Forall_forall. split.
  - intros (Hle & Hes & _). split; [done|]. intros x Hx. apply Hle; [done|set_solver].
  - intros [Hes Hle]. split_and!; [|done|by repeat constructor]. intros x y Hx ->%list_elem_of_singleton. by apply Hle.
Qed.

(** The stored map decides what is in force: the entry of the greatest block. *)
Lemma in_force_spec es n c : in_order es -> in_force es n = Some c <->
  exists k, stored es !! k = Some c /\ k <= n /\ forall k', is_Some (stored es !! k') -> k' <= n -> k' <= k.
Proof.
  revert c. induction es as [|e es IH] using rev_ind; intros c Hes.
  - split; [done|]. by intros (k & ? & _).
  - apply in_order_snoc in Hes as [Hes Hle]. specialize (fun c => IH c Hes). unfold in_force in *. rewrite filter_app, stored_snoc. rewrite Forall_forall in Hle.
    assert (forall k, is_Some (stored es !! k) -> k <= Blk_n e) as Hdom.
    { clear IH Hes. induction es as [|e' es IH] using rev_ind; [by intros k [? ?]|]. rewrite stored_snoc. intros k [<-|[_ Hk]]%lookup_insert_is_Some.
      - apply Hle. set_solver.
      - apply IH; [|done]. intros x Hx. apply Hle. set_solver. }
    destruct (decide (Blk_n e <= n)) as [Hn|Hn].
    + rewrite filter_cons_True, filter_nil, last_snoc by done. simpl. split.
      * intros [= <-]. exists (Blk_n e). rewrite lookup_insert_eq. split_and!; [done|done|].
        intros k' [<-|[_ Hk]]%lookup_insert_is_Some _; [done|by apply Hdom].
      * intros (k & Hk & Hkn & Hmax). assert (k = Blk_n e) as ->.
        { pose proof (Hmax (Blk_n e)) as H1. rewrite lookup_insert_eq in H1. specialize (H1 (mk_is_Some _ _ eq_refl) Hn).
          assert (k <= Blk_n e); [|lia]. assert (is_Some (<[Blk_n e:=DposConfig e]> (stored es) !! k)) as [<-|[_ ?]]%lookup_insert_is_Some by (by eexists); [done|by apply Hdom]. }
        rewrite lookup_insert_eq in Hk. congruence.
    + rewrite filter_cons_False, filter_nil, app_nil_r by done. rewrite IH. split; intros (k & Hk & Hkn & Hmax); exists k.
      * rewrite lookup_insert_ne by lia. split_and!; [done|done|]. intros k' [<-|[_ Hk']]%lookup_insert_is_Some Hk'n; [lia|by apply Hmax].
      * rewrite lookup_insert_ne in Hk by lia. split_and!; [done|done|]. intros k' Hk' Hk'n. apply Hmax; [|done]. by apply lookup_insert_is_Some'; right.
Qed.

Lemma in_force_stored es es' n : in_order es -> in_order es' -> stored es = stored es' -> in_force es n = in_force es' n.
Proof. intros H1 H2 E. apply option_eq. intros c. rewrite !in_force_spec by done. by rewrite E. Qed.

Lemma filter_none {A} (P : A -> Prop) `{!forall x, Decision (P x)} l : Forall (fun x => ~ P x) l -> filter P l = [].
Proof. induction 1 as [|x l Hx _ IH]; [done|]. by rewrite filter_cons_False. Qed.

(** The loop of [GetConfigByBlockNum] finds it. *)
Lemma find_config_in_force es n : in_order es -> n < 2 ^ 64 - 1 -> find_config es n = in_force es n.
Proof.
  intros Hes Hn. unfold in_force. induction Hes as [|e es Hes IH Hle]; [done|]. cbn [find_config].
  destruct (Z.leb_spec (Blk_n e) n) as [Hen|Hen]; simpl.
  - rewrite filter_cons_True by done. destruct es as [|e' es]; [by rewrite (proj2 (Z.ltb_lt n (2 ^ 64 - 1)))|].
    apply Forall_cons in Hle as [Hee' Hle]. destruct (Z.ltb_spec n (Blk_n e')) as [Hen'|Hen'].
    + replace (filter _ (e' :: es)) with (@nil DposConfigWithBlock); [done|]. symmetry. rewrite filter_cons_False by lia.
      apply StronglySorted_inv in Hes as [_ Hes]. apply filter_none. eapply Forall_impl; [exact Hes|]. simpl. lia.
    + rewrite IH. rewrite (filter_cons_True _ e') by done. done.
  - rewrite filter_cons_False by lia. apply IH.
Qed.

Lemma stored_of_keys (f : Z -> DPOSConfig) ks k : stored (map (fun k => mkConfigWithBlock (f k) k) ks) !! k = if decide (k ∈ ks) then Some (f k) else None.
Proof.
  induction ks as [|x ks IH] using rev_ind; [by rewrite decide_False by set_solver|]. rewrite map_app. simpl map. rewrite stored_snoc. simpl Blk_n. simpl DposConfig.
  destruct (decide (x = k)) as [->|Hne]; [rewrite lookup_insert_eq, decide_True by set_solver; done|]. rewrite lookup_insert_ne, IH by done.
  destruct (decide (k ∈ ks)) as [Hk|Hk]; [rewrite decide_True by (apply elem_of_app; by left); done|].
  rewrite decide_False; [done|]. intros [?|?%list_elem_of_singleton]%elem_of_app; [done|by subst].
Qed.

(** ** The changes in the database *)
Section restart.
Context `{Crypto} {CF : Type} {rocks : RocksDB CF} {laws : RocksDBLaws CF} {U : Uint256}.

Definition in_range (m : gmap Z DPOSConfig) : Prop := map_Forall (fun n _ => 0 <= n < 2 ^ 64) m.

(** The column holds the encodings of the configurations, nothing else. *)
Definition saved (m : gmap Z DPOSConfig) (db : DB (CF := CF)) : Prop := forall k b,
  cf_Get (cf_handles db col_config_changes) k = Some b <-> exists n c, k = big_Bytes n /\ m !! n = Some c /\ b = config_bytes c.

Lemma saved_change m db n c : in_range m -> saved m db -> 0 <= n -> saved (<[n := c]> m) (SaveDPOSConfigChange n (config_bytes c) db).
Proof.
  intros Hm Hdb Hn k b. unfold SaveDPOSConfigChange. rewrite cf_PutCF. destruct (decide (_ /\ _)) as [[_ <-]|Hk].
  - split.
    + intros [= <-]. exists n, c. by rewrite lookup_insert_eq.
    + intros (n' & c' & E & Hn' & ->). destruct (decide (n = n')) as [<-|Hne]; [rewrite lookup_insert_eq in Hn'; congruence|].
      rewrite lookup_insert_ne in Hn' by done. apply big_Bytes_inj in E; [done|done|]. by apply (Hm _ _ Hn').
  - rewrite (Hdb k b). split; intros (n' & c' & -> & Hn' & ->); exists n', c'; split_and!; try done.
    + rewrite lookup_insert_ne; [done|]. intros <-. by apply Hk.
    + rewrite lookup_insert_ne in Hn'; [done|]. intros <-. by apply Hk.
Qed.

Lemma changes_map_saved m db : in_range m -> saved m db -> changes_map db = config_bytes <$> m.
Proof.
  intros Hm Hdb. unfold changes_map, GetDPOSConfigChanges. set (es := cf_entries _).
  assert (forall k b, (k, b) ∈ es -> exists n c, k = big_Bytes n /\ m !! n = Some c /\ b = config_bytes c /\ u64 (be_to_uint k) = n) as Hes.
  { intros k b Hin. apply elem_of_entries, Hdb in Hin as (n & c & -> & Hn & ->). exists n, c. split_and!; try done.
    pose proof (Hm _ _ Hn). cbn beta in *.
    change (be_to_uint (big_Bytes n)) with (big_SetBytes (big_Bytes n)). rewrite big_roundtrip by lia. by apply u64_small. }
  assert (forall k b, (k, b) ∈ es <-> exists n c, k = big_Bytes n /\ m !! n = Some c /\ b = config_bytes c) as Hes'.
  { intros k b. rewrite <- (Hdb k b). apply elem_of_entries. }
  assert (NoDup es.*1) as Hdup.
  { apply NoDup_alt. intros i j k Hi Hj. apply list_lookup_fmap_Some in Hi as (e & -> & Hi), Hj as (e' & E & Hj).
    destruct (Nat.lt_trichotomy i j) as [Hij|[?|Hij]]; [|done|].
    - by destruct (entries_sorted _ i j e e' Hi Hj Hij).
    - by destruct (entries_sorted _ j i e' e Hj Hi Hij). }
  apply map_eq. intros n. rewrite lookup_fmap. apply option_eq. intros b.
  rewrite <- elem_of_list_to_map.
  - rewrite fmap_Some, list_elem_of_fmap. split.
    + intros ([k b'] & [= -> ->] & Hin). destruct (Hes k b' Hin) as (n & c & -> & Hn & -> & ->). eauto.
    + intros (c & Hn & ->). exists (big_Bytes n, config_bytes c). split; [|apply Hes'; eauto]. simpl.
      destruct (Hes (big_Bytes n) (config_bytes c)) as (n' & c' & E & Hn' & _ & ->); [apply Hes'; eauto|].
      f_equal. apply big_Bytes_inj; [apply (Hm _ _ Hn)|apply (Hm _ _ Hn')|done].
  - replace (map _ es).*1 with ((fun k => u64 (be_to_uint k)) <$> es.*1) by (clearbody es; clear; induction es as [|? ? IH]; [done|]; cbn; by rewrite <- IH).
    apply NoDup_fmap_2_strong; [|done]. intros k k' ([k1 b1] & -> & Hin)%list_elem_of_fmap ([k2 b2] & -> & Hin')%list_elem_of_fmap E. simpl in *.
    destruct (Hes _ _ Hin) as (n2 & c2 & -> & _ & _ & <-), (Hes _ _ Hin') as (n' & c' & -> & _ & _ & <-). by rewrite E.
Qed.

(** ** Histories of a node *)
Inductive Step :=
| Updated (n : Z) (chain_cfg : ChainConfig)   (* [UpdateConfig] after block [n] *)
| Restarted.                                  (* [Init] with the present configuration *)

Definition api_step (x : Step) : M (StateAPI (CF := CF)) () :=
  match x with
  | Updated n chain_cfg => _ ← modify_st (set_LastBlockNum n); StateAPI_UpdateConfig chain_cfg
  | Restarted => self ← get_st; self' ← StateAPI_Init (rocksdb self) (sa_config self); modify_st (fun _ => self')
  end.

Definition run_steps : list Step -> M (StateAPI (CF := CF)) () := for_each api_step.

(** The configurations by the block from which they are in force. *)
Definition change (x : Step) : list DposConfigWithBlock :=
  match x with Updated n chain_cfg => [mkConfigWithBlock (DPOS chain_cfg) (n + 1)] | Restarted => [] end.
Definition changes (chain_cfg : ChainConfig) (xs : list Step) : list DposConfigWithBlock :=
  mkConfigWithBlock (DPOS chain_cfg) 0 :: concat (map change xs).

(** [API.Init] accepts it. *)
Definition accepted (cfg : ChainConfig) : Prop := API_Init cfg () = Done (mkAPI [] cfg) ().

(** All configurations have the genesis validators of the chain: [Init]
    decodes into a copy of the present configuration, so that the elements of
    this one field are written in place, over the array that the copies share. *)
Context (genesis_validators : list GenesisValidator).
Definition good_config (cfg : ChainConfig) : Prop :=
  config_ok (DPOS cfg) /\ accepted cfg /\ InitialValidators (DPOS cfg) = genesis_validators.

(** Blocks in order; the states of the API are those of a node that runs. *)
Definition good_step (x : Step) : Prop :=
  match x with Updated n cfg => 0 <= n < 2 ^ 64 - 1 /\ good_config cfg | Restarted => True end.

Lemma API_Init_any {St} cfg (s : St) : accepted cfg -> API_Init cfg s = Done (mkAPI [] cfg) s.
Proof.
  unfold accepted, API_Init, yield_max_supply, asserts_Holds, bindM, ret, panic.
  repeat (case_match; simplify_eq/=; try done).
Qed.

(** *** Invariant *)
Record kept (u : list DposConfigWithBlock) (s : StateAPI (CF := CF)) : Prop := mkKept {
  k_order : in_order u;
  k_range : in_range (stored u);
  k_ok : map_Forall (fun _ c => config_ok c) (stored u);
  k_entries_order : in_order (config_by_block (sa_dpos s));
  k_entries : stored (config_by_block (sa_dpos s)) = stored u;
  k_db : saved (stored u) (rocksdb s);
  k_cfg c : set_DPOS c (config (sa_dpos s)) = set_DPOS c (sa_config s);
  k_config : good_config (sa_config s);
  k_zero : is_Some (stored u !! 0);
}.

Lemma stored_key es k : is_Some (stored es !! k) -> exists e, e ∈ es /\ Blk_n e = k.
Proof.
  induction es as [|e es IH] using rev_ind; [by intros [? ?]|]. rewrite stored_snoc. intros [<-|[_ Hk]]%lookup_insert_is_Some.
  - exists e. split; [|done]. apply elem_of_app. right. by apply list_elem_of_singleton.
  - destruct (IH Hk) as (e' & He' & <-). exists e'. split; [|done]. apply elem_of_app. by left.
Qed.

Lemma kept_update u s n cfg : kept u s -> 0 <= n < 2 ^ 64 - 1 -> good_config cfg ->
  in_order (u ++ [mkConfigWithBlock (DPOS cfg) (n + 1)]) ->
  exists s', api_step (Updated n cfg) s = Done tt s' /\ kept (u ++ [mkConfigWithBlock (DPOS cfg) (n + 1)]) s'.
Proof.
  intros [Ho Hr Hok Heo He Hdb Hcfg Hconf Hz] Hn (Hc & Ha & Hv) Hu. destruct s as [db dpos cfg0 l]. simpl in *.
  eexists. split.
  - unfold api_step, bindM, modify_st. unfold StateAPI_UpdateConfig, set_LastBlockNum, get_st, bindM. simpl.
    rewrite encode_config_done by done. rewrite u64_small by lia. reflexivity.
  - split; simpl; rewrite ?stored_snoc; simpl; try done.
    + apply map_Forall_insert_2; [lia|done].
    + by apply map_Forall_insert_2.
    + apply in_order_snoc. split; [done|]. apply Forall_forall. intros e Hin. simpl.
      destruct (stored_key u (Blk_n e)) as (e' & Hin' & <-); [rewrite <- He; by apply stored_elem|].
      apply in_order_snoc in Hu as [_ Hu]. rewrite Forall_forall in Hu. by apply Hu.
    + by rewrite He.
    + apply saved_change; [done|done|lia].
    + apply lookup_insert_is_Some'. by right.
Qed.

(** *** Restart *)
Lemma apply_changes_done {St} cfg (cm : gmap Z DPOSConfig) ks (api : API) (st : St) :
  Forall (fun k => exists c, cm !! k = Some c /\ config_ok c) ks -> (forall c, set_DPOS c (config api) = set_DPOS c cfg) ->
  exists api', apply_changes cfg (config_bytes <$> cm) ks api st = Done api' st /\
    config_by_block api' = config_by_block api ++ map (fun k => mkConfigWithBlock (default (DPOS cfg) (cm !! k)) k) ks /\
    forall c, set_DPOS c (config api') = set_DPOS c cfg.
Proof.
  intros Hks. revert api. induction Hks as [|k ks (c & Hk & Hc) _ IH]; intros api Hapi.
  - exists api. by rewrite app_nil_r.
  - destruct (IH (API_UpdateConfig k (set_DPOS c cfg) api)) as (api' & E & Ees & Hcfg); [done|]. exists api'. split_and!; [|..|done].
    + cbn [apply_changes]. rewrite lookup_fmap, Hk. cbn [fmap option_fmap option_map default from_option].
      by rewrite (bind_done _ _ _ _ _ (decode_config_done c st Hc)).
    + rewrite Ees. simpl. by rewrite Hk, <- app_assoc.
Qed.

Lemma sorted_keys_spec {A} (m : gmap Z A) (m' : gmap Z bytes) : dom m' = dom m ->
  StronglySorted Z.le (sorted_keys m') /\ forall k, k ∈ sorted_keys m' <-> is_Some (m !! k).
Proof.
  intros Hdom. unfold sorted_keys. split; [apply StronglySorted_merge_sort; apply _|].
  intros k. by rewrite merge_sort_Permutation, elem_of_elements, Hdom, elem_of_dom.
Qed.

Lemma in_order_keys (f : Z -> DPOSConfig) ks : StronglySorted Z.le ks -> in_order (map (fun k => mkConfigWithBlock (f k) k) ks).
Proof. induction 1 as [|k ks _ IH Hle]; constructor; [done|]. by apply Forall_fmap. Qed.

Lemma kept_restart {St} u s (st : St) : kept u s ->
  exists s', StateAPI_Init (rocksdb s) (sa_config s) st = Done s' st /\ kept u s' /\ sa_config s' = sa_config s.
Proof.
  intros [Ho Hr Hok Heo He Hdb Hcfg Hconf Hz]. destruct s as [db dpos cfg0 l]. simpl in *.
  unfold StateAPI_Init. rewrite (bind_done _ _ _ _ _ (API_Init_any cfg0 st (proj1 (proj2 Hconf)))).
  rewrite (changes_map_saved (stored u)) by done. rewrite bool_decide_eq_false_2.
  2: { intros E. apply fmap_empty_inv in E. destruct Hz as [c Hz]. by rewrite E in Hz. }
  destruct (sorted_keys_spec (stored u) (config_bytes <$> stored u)) as [Hsort Hkeys]; [apply dom_fmap_L|].
  destruct (apply_changes_done cfg0 (stored u) (sorted_keys (config_bytes <$> stored u)) (mkAPI [] cfg0) st) as (api' & E & Ees & Hcfg'); [|done|].
  { apply Forall_forall. intros k [c Hk]%Hkeys. exists c. split; [done|]. by apply (Hok k). }
  rewrite (bind_done _ _ _ _ _ E). eexists. split; [reflexivity|]. simpl in Ees. split; [|done].
  split; simpl; try done; rewrite Ees; [by apply in_order_keys|].
  apply map_eq. intros k. rewrite stored_of_keys. destruct (decide _) as [Hk|Hk].
  - apply Hkeys in Hk as [c Hk]. by rewrite Hk.
  - symmetry. apply eq_None_not_Some. by rewrite <- Hkeys.
Qed.

Lemma kept_steps xs : forall u s, kept u s -> Forall good_step xs -> in_order (u ++ concat (map change xs)) ->
  exists s', run_steps xs s = Done tt s' /\ kept (u ++ concat (map change xs)) s'.
Proof.
  induction xs as [|x xs IH]; intros u s Hk Hxs Hu.
  - exists s. by rewrite app_nil_r.
  - apply Forall_cons in Hxs as [Hx Hxs]. cbn [map concat] in Hu |- *. rewrite app_assoc in Hu |- *.
    assert (exists s1, api_step x s = Done tt s1 /\ kept (u ++ change x) s1) as (s1 & E & Hk1).
    { destruct x as [n cfg|].
      - destruct Hx as [Hn Hcfg]. apply kept_update; [done|done|done|]. by apply StronglySorted_app in Hu as (_ & ? & _).
      - cbn [change]. rewrite app_nil_r. destruct (kept_restart u s s Hk) as (s1 & E & Hk1 & _). exists s1. split; [|done].
        unfold api_step, get_st, modify_st, bindM. by rewrite E. }
    destruct (IH _ _ Hk1 Hxs Hu) as (s' & E' & Hk'). exists s'. split; [|done]. unfold run_steps. cbn [for_each]. by rewrite (bind_done _ _ _ _ _ E).
Qed.

Lemma kept_in_force u s n : kept u s -> n < 2 ^ 64 - 1 -> find_config (config_by_block (sa_dpos s)) n = in_force u n.
Proof. intros Hk Hn. rewrite find_config_in_force by (done || apply (k_entries_order _ _ Hk)). apply in_force_stored; [apply (k_entries_order _ _ Hk)|apply (k_order _ _ Hk)|apply (k_entries _ _ Hk)]. Qed.

Lemma zero_in_force u n : in_order u -> is_Some (stored u !! 0) -> 0 <= n -> is_Some (in_force u n).
Proof.
  intros Ho Hz Hn. destruct (stored_key u 0 Hz) as (e & He & Hb). unfold in_force. apply fmap_is_Some.
  destruct (last _) as [e'|] eqn:El; [by eexists|]. apply last_None in El.
  assert (e ∈ filter (fun e => Blk_n e <= n) u) as Hin by (apply list_elem_of_filter; split; [lia|done]). rewrite El in Hin. by apply not_elem_of_nil in Hin.
Qed.

(** C34: a node's configurations survive a restart.  Take a new database, a
    configuration, and a history of updates and restarts such that no update
    is in force from an earlier block than one before it ([in_order]) and
    every configuration can be encoded, passes the checks of [API.Init] and
    has the same genesis validators ([good_config]).  Then the node runs, so
    does its next restart, and for every block the configuration is the same
    before and after, with the DPOS part of the last update that is in force
    at that block.  The order is needed, and the code can leave it: an update
    before the first block that follows a restart counts from block 1, and is
    then read differently by the running and by the restarted node
    ([DposApiExample.early_update_lost]). *)
Theorem configs_survive_restart db cfg0 xs :
  (forall k, cf_Get (cf_handles db col_config_changes) k = None) -> good_config cfg0 -> Forall good_step xs -> in_order (changes cfg0 xs) ->
  exists s0 s s', StateAPI_Init db cfg0 () = Done s0 () /\ run_steps xs s0 = Done tt s /\
    StateAPI_Init (rocksdb s) (sa_config s) () = Done s' () /\
    forall n, 0 <= n < 2 ^ 64 - 1 ->
      GetConfigByBlockNum (sa_dpos s') n = GetConfigByBlockNum (sa_dpos s) n /\
      Some (DPOS (GetConfigByBlockNum (sa_dpos s) n)) = in_force (changes cfg0 xs) n.
Proof.
  intros Hdb Hcfg0 Hxs Hord. set (u0 := [mkConfigWithBlock (DPOS cfg0) 0]).
  assert (exists s0, StateAPI_Init db cfg0 () = Done s0 () /\ kept u0 s0) as (s0 & E0 & Hk0).
  { unfold StateAPI_Init. rewrite (bind_done _ _ _ _ _ (API_Init_any cfg0 () (proj1 (proj2 Hcfg0)))).
    assert (saved ∅ db) as Hempty.
    { intros k b. rewrite (Hdb k). split; [done|]. by intros (? & ? & _ & ? & _). }
    rewrite (changes_map_saved ∅) by done. rewrite fmap_empty, bool_decide_eq_true_2 by done.
    rewrite (bind_done _ _ _ _ _ (encode_config_done (DPOS cfg0) () (proj1 Hcfg0))). eexists. split; [reflexivity|].
    split; simpl; try done; try (by repeat constructor).
    - by apply map_Forall_singleton.
    - apply map_Forall_singleton, Hcfg0.
    - by apply (saved_change ∅ db 0 (DPOS cfg0)). }
  destruct (kept_steps xs u0 s0 Hk0 Hxs Hord) as (s & E & Hk). destruct (kept_restart _ s () Hk) as (s' & E' & Hk' & Ecfg).
  exists s0, s, s'. split_and!; [done|done|done|]. intros n Hn.
  destruct (zero_in_force _ n (k_order _ _ Hk) (k_zero _ _ Hk) (proj1 Hn)) as [c Hc].
  unfold GetConfigByBlockNum. rewrite (kept_in_force _ s n Hk), (kept_in_force _ s' n Hk') by lia. rewrite Hc. split; [|done].
  by rewrite (k_cfg _ _ Hk), (k_cfg _ _ Hk'), Ecfg.
Qed.
End restart.
