(* ===== verification/DposApiExample.v ===== *)
(** * A node and its restarts

    Configurations of a small chain, a database as a finite map, and a
    history with two updates and a restart; then an update that comes before
    the first block of a node that restarted. *)
From S2P Require Import Prelude Bytes Crypto ChainConfig Uint256 Storage IterableMap StateDb RocksDb RocksDbProps RocksDbPrune Slashing DposStorage Validators Dpos DposRewards DposRun DposExample Rlp RlpEncode RlpDecode RlpRoundtrip DposApi DposApiProps.
Local Open Scope Z_scope.
#[local] Existing Instance Ref.ops.
#[local] Existing Instance toy_crypto.
#[local] Existing Instances map_store map_store_laws.

(** The chain with another minimum deposit. *)
Definition with_deposit (d : Z) : ChainConfig := set_DPOS
  (mkDPOSConfig 1000 100 5000 d 5 40 0 0 5 10 1 20 []) ex_cfg.

Definition node_db : DB (CF := gmap bytes bytes) := empty_db false.

Ltac good_config_tac := split_and!; [split; [by split_and!..|constructor|vm_compute; reflexivity]|vm_compute; reflexivity|reflexivity].

Definition updates : list Step := [Updated 9 (with_deposit 20); Restarted; Updated 9 (with_deposit 30); Updated 19 (with_deposit 40)].

Lemma configs_survive_restart_witness : exists s0 s s',
  StateAPI_Init node_db (with_deposit 10) () = Done s0 () /\ run_steps updates s0 = Done tt s /\
  StateAPI_Init (rocksdb s) (sa_config s) () = Done s' () /\
  GetConfigByBlockNum (sa_dpos s') 15 = GetConfigByBlockNum (sa_dpos s) 15 /\
  MinimumDeposit (DPOS (GetConfigByBlockNum (sa_dpos s) 15)) = 30.
Proof.
  destruct (configs_survive_restart [] node_db (with_deposit 10) updates) as (s0 & s & s' & E0 & E & E' & Hs).
  - intros k. apply lookup_empty.
  - good_config_tac.
  - repeat (apply List.Forall_cons; [first [exact I|split; [lia|good_config_tac]]|]). apply List.Forall_nil.
  - repeat constructor; simpl; lia.
  - exists s0, s, s'. destruct (Hs 15) as [H1 H2]; [lia|]. split_and!; [done|done|done|done|].
    assert (in_force (changes (with_deposit 10) updates) 15 = Some (DPOS (with_deposit 30))) as E15 by (vm_compute; reflexivity).
    rewrite E15 in H2. by injection H2 as ->.
Defined.

(** ** An update before the first block

    [LastBlockNum] is a field of the state transition and starts at zero: a
    node that restarts and gets an update before its first block records the
    update from block 1 on.  The running node uses it for the blocks after
    the earlier update; once restarted, it uses it for those before, and the
    earlier one after. *)
Definition early_update : M (StateAPI (CF := gmap bytes bytes)) () :=
  _ ← api_step (Updated 9 (with_deposit 20)); _ ← api_step Restarted; StateAPI_UpdateConfig (with_deposit 30).

Definition deposits (s : StateAPI (CF := gmap bytes bytes)) : list Z :=
  map (fun n => MinimumDeposit (DPOS (GetConfigByBlockNum (sa_dpos s) n))) [5; 20].

Definition deposits_around : option (list Z * list Z) :=
  match StateAPI_Init node_db (with_deposit 10) () with
  | Done s0 _ =>
      match early_update s0 with
      | Done _ s => match StateAPI_Init (rocksdb s) (sa_config s) () with Done s' _ => Some (deposits s, deposits s') | _ => None end
      | _ => None
      end
  | _ => None
  end.

Lemma early_update_lost : deposits_around = Some ([10; 30], [30; 20]).
Proof. vm_compute. reflexivity. Qed.
